(* ===== verification/_CoqProject ===== *)
-Q . S2P
Prelude.v
GoLib.v
Compression.v
GzipZinfo.v
Ztoc.v
ZtocBuilder.v
ZtocMarshal.v
Regions.v
Remote.v
LruCache.v
NamedMutex.v
BlobCache.v
DirCache.v
DirCacheFacts.v
DirCacheSteps.v
SpanManager.v
Encoders.v
MetadataDB.v
MetadataTree.v
FileReader.v
LostCommit.v
BackgroundFetcher.v
IDMap.v
ForeignErrors.v
FuseAttr.v
FuseNode.v
FuseMount.v
Oci.v
ArtifactsDb.v
Prefetch.v
SociIndex.v
ArtifactsSync.v
SociConvert.v
SnapshotHost.v
Snapshot.v
SnapshotFacts.v
SnapshotChecks.v
UnpackJobs.v
UnpackFacts.v
Limiters.v
Fetch.v
FetchFacts.v
Unpack.v
Prog.v
LayerResolver.v
LayerFacts.v
LayerThreads.v
LayerPrefetch.v
Source.v
FsIndex.v
FsPreresolve.v
FsMount.v
FsMountFacts.v
FsParallel.v
HttpUtil.v
HttpAuth.v
Config.v
ResolverClient.v
Registry.v
RegistryFacts.v
RegistryAge.v
Keychain.v
CriRegistry.v
Service.v
Decompress.v
MetadataMulti.v
StoreConfig.v
RemoteResolver.v
Cli.v
CliFacts.v
CliLayout.v
EndToEnd.v
Examples.v
Witnesses.v
FuseExamples.v
SociExamples.v
SnapshotExamples.v
UnpackExamples.v
FsExamples.v
RegistryExamples.v
