(* ===== verification/Prelude.v ===== *)
(** * A verification of the SOCI snapshotter

    The SOCI snapshotter lets containers start before their image layers are downloaded.
    An index builder cuts every compressed layer into spans and records in a _ztoc_ where
    each span starts in the compressed and in the uncompressed stream (the _zinfo_), the
    digest of each span, and the table of contents of the layer's tar archive.  On the
    container host the ztoc is loaded; a file system serves reads by fetching only the
    spans that hold the requested bytes from the registry, verifying their digests,
    uncompressing and caching them, while a background fetcher walks through the rest.

    ** Parts of the program and the files that model them

    Paths are relative to the repository.

    - [Compression.v]: [ztoc/compression/types.go], [zinfo.go], [tar_zinfo.go].  The Go
      interface [Zinfo] is the class [Zinfo]; what its clients rely on is the class
      [ZinfoLaws] (a layer with compressed and uncompressed bytes, [n + 1] spans, their
      bounds in both streams, extraction).  Module [TarZinfo] models uncompressed layers
      and proves the laws.
    - [GzipZinfo.v]: [gzip_zinfo.go], [gzip_zinfo.c], [gzip_zinfo.h].  Checkpoint tables,
      offset queries and the binary format, both versions, with C's 32 bit arithmetic;
      the loops that drive zlib are the parameter [GzipC].  [gz_laws] derives [ZinfoLaws]
      from a description of what those loops produce.
    - [Ztoc.v]: [ztoc/ztoc.go], [tar.go].  The records [Ztoc], [FileMetadata], lookup,
      [ExtractFile], modes, comparison.
    - [ZtocBuilder.v]: [toc_builder.go], [zinfo_builder.go], [ztoc_builder.go] and
      [util/ioutils/positiontrackerreader.go].
    - [ZtocMarshal.v]: [ztoc_marshaler.go]; the generated flatbuffer code is the class
      [FlatbufZtoc].
    - [Regions.v], [Remote.v]: [fs/remote/util.go], [blob.go], [resolver.go],
      [errors.go].  Region sets, the writer into the caller's buffer, the HTTP fetcher
      with its URL refresh and fallback, the blob with its check interval.
      [RemoteResolver.v]: the choice of a host in [newHTTPFetcher], [Resolve], [Refresh] and
      the text of range headers.
    - [LruCache.v]: [util/lrucache/lrucache.go] over an LRU interface, with a list
      implementation of it.  [NamedMutex.v]: [util/namedmutex/namedmutex.go] as
      interleaved steps of threads.
    - [BlobCache.v]: [cache/cache.go].  The interface [BlobCache] with [BlobCacheLaws];
      modules [MemoryCache] and [DirectoryCache] (direct mode, over a file system whose
      calls may fail) implement it.  [DirCache.v]: the mode of [directoryCache] that keeps
      buffers and open files in memory and writes to disk in the background, as a heap of
      shared objects with steps of goroutines; [DirCacheFacts.v] the invariant,
      [DirCacheSteps.v] the theorems.
    - [SpanManager.v]: [fs/span-manager/span.go] and [span_manager.go], against the
      interfaces [Zinfo], [BlobCache] and [ReaderAt].  [LostCommit.v]: the same when
      commits into the cache may fail unseen, for spans and for files.
    - [Encoders.v], [MetadataDB.v], [MetadataTree.v]: [util/dbutil/encoders.go],
      [metadata/db.go], [metadata/metadata.go], [metadata/reader.go].  The bbolt buckets
      the table of contents is turned into, and the queries on them.  [MetadataMulti.v]:
      [metadata/dbmulti.go], a database file per layer.
    - [FileReader.v]: [fs/reader/reader.go], the file a container reads from.
    - [BackgroundFetcher.v]: [fs/backgroundfetcher].  [IDMap.v]: [idtools/idmap.go].
    - [FuseAttr.v], [FuseNode.v], [FuseMount.v]: [fs/layer/node.go].  Attributes and
      inode numbers, the callbacks of directories, files, whiteouts and of the state
      directory against an interface of the layer's reader, and the callbacks over the
      reader of [FileReader.v].
    - [Oci.v]: the OCI documents, [soci/store/store.go] (interface [Store] and the
      containerd store), [util/ociutil].  [StoreConfig.v]: how a store is chosen and the
      shared containerd client.  [ArtifactsDb.v], [ArtifactsSync.v]:
      [soci/artifacts.go].  [Prefetch.v]: [soci/prefetch.go].  [SociIndex.v]:
      [soci/soci_index.go].  [SociConvert.v]: [soci/soci_convert.go].
    - [SnapshotHost.v], [Snapshot.v]: [snapshot/snapshot.go].  The directory of the
      snapshots with system calls that may fail, containerd's metadata store and the file
      system service as interfaces ([MetaStore], [FileSystem]), every operation of the
      snapshotter over them.  [SnapshotFacts.v] states what the interfaces promise
      ([MetaStoreLaws], [FileSystemLaws]); it and [SnapshotChecks.v] hold the theorems.  A
      parallel pull that fails may leave its mountpoint removed ([rebase] in [fs/fs.go]):
      the laws allow it and the theorems name the snapshot that is lost.
    - [UnpackJobs.v]: [fs/adaptive_fetch_image_layers.go], the jobs that unpack layers
      ahead of time, their directories and the garbage collector; [UnpackFacts.v] runs
      them interleaved; [Limiters.v] the semaphores of downloads and unpacks.
      [Fetch.v]: [fs/artifact_fetcher.go], [fs/client.go],
      [fs/parallel_artifact_fetcher.go]; [FetchFacts.v] their theorems, with what the
      store promises as [StoreContent].  [Unpack.v]: [fs/unpacker.go],
      [fs/parallel_unpacker.go], with a log of what is applied to which directory
      ([ApplyLog]).  [Decompress.v]: the configured decompressors of
      [internal/archive/compression].
    - [Prog.v]: goroutines over a shared state as programs of atomic calls, with the logic
      [safe] of what a program holds while others run, and [rg] of what it relies on and
      guarantees.
    - [LayerResolver.v]: [fs/layer/layer.go], resolving layers and blobs through caches
      with reference counts, and prefetching.  [LayerFacts.v]: the invariant that relates
      references and what is open; [LayerThreads.v]: any number of goroutines;
      [LayerPrefetch.v]: prefetching over the span manager.
    - [Source.v]: [fs/source/source.go], the labels of layers.
    - The file system service, [fs/fs.go]: [FsIndex.v] (the SOCI index of an image and its
      context), [FsPreresolve.v] (the preresolver as a step relation), [FsMount.v] (mount,
      unmount, check, id-mapped mounts; [FsMountFacts.v] their interleavings),
      [FsParallel.v] (local and parallel pulls).
    - [Config.v]: [config/], the settings, their defaults and the loading of a file.
    - [HttpUtil.v], [HttpAuth.v]: [internal/http], redaction of URLs and the client that
      authenticates.  [ResolverClient.v]: [service/resolver/client.go], the retrying client,
      its hooks, and the handler of challenges as steps of goroutines.
    - [Registry.v]: [service/resolver/registry.go], the hosts of an image and their clients as
      programs over shared maps; [RegistryFacts.v] which images share a client, under any
      interleaving, [RegistryAge.v] how old a client gets.  [CriRegistry.v]: the hosts of
      [service/resolver/cri.go].  [Keychain.v]: [ParseAuth] and [service/keychain].
    - [Service.v]: what [service/service.go], [service/plugin/plugin.go] and the daemon decide
      from the configuration.
    - [Cli.v], [CliLayout.v]: [cmd/soci], what the commands decide and in which order they
      act, and the image layouts of standalone conversion; [CliFacts.v] their theorems.
    - [GoLib.v]: what several parts use of Go's library (sorting, ranging over a map,
      strings as bytes).  [ForeignErrors.v]: sentinels that do not leave their package.
    - [EndToEnd.v] composes builder, marshaller and span manager.
    - [Examples.v] instantiates the parameters by concrete functions; [Witnesses.v],
      [FuseExamples.v], [SociExamples.v], [SnapshotExamples.v], [UnpackExamples.v],
      [FsExamples.v] and [RegistryExamples.v] apply the theorems to them.

    ** Conventions

    A fallible call yields an [outcome]: [Ok], [Err] with an [error] value, or [Panic].
    Stateful code is a state-passing function [ST S A], the state surviving errors;
    [wp] is its weakest precondition, which excludes panics.  Integers are [Z] with the
    wrap-around of their Go or C type written out ([int64], [int32], [uint32], ...).
    Slices are lists, maps are [gmap]s.  Code outside the repository is a class whose
    documented behaviour is a named hypothesis or a class of laws.  Mutexes that protect
    one call are not modelled, the call is atomic; where locking is the point
    ([NamedMutex], the background fetcher, the goroutines of [GetContents]) the
    interleavings are steps of a relation or an arbitrary order.

    ** What the theorems show

    - Exactness: [lazy_layer_transparent], [served_bytes_exact], [file_read_exact]:
      whatever the registry answers and whichever calls of the cache fail, a reader gets
      the bytes of the layer or an error, unless a [Commit] of the cache was lost (its error
      is dropped by the code) or two different spans have the same digest.
    - Progress: [GetContents_succeeds], [file_read_succeeds],
      [sequential_resolver_completes], [fetch_retries], [fetch_retries_once]: with an
      honest registry and a working cache the calls return.
    - The builder and its formats: [BuildZtoc_uncompressed],
      [metadataFromTarReader_layout], [getPerSpanDigests_correct], [ztoc_roundtrip],
      [gzip_zinfo_roundtrip], [extract_with_correct], [Unmarshal_header_sizes_nonneg].
    - State machines and containers: [FetchSingleSpan_correct], [ResolveSpan_cases],
      [New_validates], [OnEvicted_exactly_once], [Add_keeps_existing],
      [mutual_exclusion], [unlock_own_mutex], [cache_roundtrip], [regionSet_add_spec],
      [ReadAt_regions], [queue_bounded_no_duplicates], [readers_stable_and_authentic],
      [committed_is_served], [limits_hold], [databases_live_with_owner].
    - The metadata store: [node_entry_roundtrip], [metadata_entry_roundtrip],
      [getIDByName_walks], [verification_accepts_built].
    - Ids: [loaded_mappings_exact], [toHost_injective].
    - What the kernel sees: [fuse_read_exact], [directory_refines_view],
      [inode_numbers_unique], [served_mode_is_tar_mode].
    - Indexes: [build_indexes_exactly], [index_roundtrip],
      [normalizePrefetchSpans_spec], [addSociIndexes_spec], [updateReferences_spec]; the
      artifacts database: [artifacts_db_refines_map], [RemoveOldArtifacts_exact],
      [rebuilt_database_matches]; the commands: [push_uploads_newest], [remove_all_spec],
      [index_list_sound], [LoadImage_root_available], [NewContentStore_from_flags].
    - Snapshots: [live_snapshots_keep_directories], [Prepare_answers],
      [Prepare_provides], [checkAvailability_exact], [restore_brings_back].
    - Whole layers: [tracked_jobs_keep_directories], [claims_exclusive],
      [gc_round_exact], [chunked_download_exact], [artifacts_in_store],
      [parallel_unpack_verified], [unpack_parents_roundtrip],
      [premounted_layers_verified], [rebase_moves_claimed].
    - Layers in use: [layers_in_use_stay_open], [resolver_leaks_nothing],
      [mounted_layers_stay_open], [preresolver_bounded], [prefetch_spans_collected],
      [labels_roundtrip], [index_errors_fall_back].
    - Registries: [clients_shared_within_credentials], [client_age_bounded],
      [challenge_single_flight], [Do_answers_one_challenge], [shouldAuthenticate_spec],
      [redaction_hides_values], [ParseAuth_decodes], [cri_credentials],
      [registryEndpoints_stable], [newHTTPFetcher_chooses], [parseRange_text], [genID_inj];
      settings: [loaded_config_valid], [service_set_up], [decompressors_as_configured].
    - Behaviour that differs from what the code means to do:
      [lost_commit_serves_compressed], [blob_to_zinfo_overflow],
      [ReadAt_whole_blob_answer], [Close_may_not_stop_Run],
      [whiteout_attributes_change], [empty_blob_state_unreadable],
      [ztoc_label_errors_lost], [annotated_index_undecodable],
      [failed_usage_blocks_writes], [Remove_fails_after_removal],
      [AddLayerJob_after_removal_panics], [discard_refuses_local_layers],
      [reformatted_index_refused], [idmapped_unmount_releases], [soci_context_sticks],
      [preresolver_locks_out], [prefetch_artifact_kills], [rebase_error_unseen],
      [remembered_redirect_is_final], [late_reader_misses_error], [clones_forget_scope],
      [scopes_glued], [jitter_spec], [semicolon_query_kept], [mirror_credentials_cross],
      [client_twice_as_old], [http_retries_not_inherited], [unparsed_config_panics],
      [plugin_ignores_containerd_address], [multi_store_ignores_settings],
      [Refresh_drops_policy], [unknown_size_refused], [create_labels_last_index],
      [full_span_crosses], [download_slot_lost], [reader_left_open],
      [failed_parallel_pull], [cancelled_while_waiting].

    ** Fuel and bounds

    [GetMetadataEntry] follows links and takes fuel; one call per table entry is enough
    when links point backward, and with a link to itself no fuel is.  [getIDByName] and
    [getOrCreateDir] take the length of the path as fuel, which each call shortens.  The
    retry loop takes the number of retries.  The check of a chain of snapshots takes one
    more than the number of snapshots.  Collecting the spans of a prefetch artifact takes
    one round per span of each range.  Sizes are bounded by [2^62] or [2^63] where a
    sum has to fit in an int64; the bounds are hypotheses.

    ** Not modelled

    zlib, flatbuffers, JSON, bbolt's files, HTTP, digests, tar parsing, go-fuse and the
    containerd client are parameters.
    Walking and changing the owner of directory trees, time, rate limits and metrics are left
    out.
    TOML, URLs, go-retryablehttp, containerd's [docker] packages, client-go and SHA-256 are
    parameters of the clients of registries.  Not modelled either are gRPC servers, sockets
    and signals, the definitions of the command line's flags, what the commands print, image
    archives, [rebuild-db], and the generated flatbuffer code. *)
From Stdlib Require Import ZArith Lia.
From Stdlib Require Import Strings.Byte.
From stdpp Require Import base list gmap strings numbers.
#[local] Open Scope Z_scope.

(** ** Go values shared by all components *)
Abbreviation bytes := (list Byte.byte).

#[global] Instance byte_eq_dec : EqDecision Byte.byte := Byte.byte_eq_dec.

(** ** Errors

    A Go [error] is a sentinel variable ([io.EOF], [ErrExceedMaxSpan], ...), a
    fresh value made by [errors.New]/[fmt.Errorf], one that wraps another ([%w]),
    or two joined ones. *)
Inductive error :=
| Sentinel (name : string)
| ErrorString (msg : string)
| Wrap (msg : string) (e : error)
| Join (e1 e2 : error).

#[global] Instance error_eq_dec : EqDecision error.
Proof. solve_decision. Defined.

(** [errors.Is]: walks the wrapping tree. *)
Fixpoint errors_Is (e target : error) : bool :=
  bool_decide (e = target) ||
  match e with
  | Wrap _ e' => errors_Is e' target
  | Join e1 e2 => errors_Is e1 target || errors_Is e2 target
  | _ => false
  end.

Definition io_EOF : error := Sentinel "EOF".
Definition io_ErrUnexpectedEOF : error := Sentinel "unexpected EOF".

(** ** Outcomes

    What a call yields: a value, a returned error, or a run-time panic (integer
    division by zero, index or slice bounds out of range, negative [make]).  For
    the C part of the gzip zinfo, [Panic] also stands for an out-of-bounds read. *)
Inductive outcome (A : Type) :=
| Ok (a : A)
| Err (e : error)
| Panic.
Arguments Ok {A} a.
Arguments Err {A} e.
Arguments Panic {A}.

#[global] Instance outcome_eq_dec `{EqDecision A} : EqDecision (outcome A).
Proof. solve_decision. Defined.

#[global] Instance outcome_Ok_inj {A} : Inj (=) (=) (@Ok A).
Proof. by intros x y [= ->]. Qed.

#[global] Instance outcome_ret : MRet outcome := @Ok.
#[global] Instance outcome_bind : MBind outcome := λ A B f m,
  match m with Ok a => f a | Err e => Err e | Panic => Panic end.
#[global] Instance outcome_fmap : FMap outcome := λ A B f m,
  match m with Ok a => Ok (f a) | Err e => Err e | Panic => Panic end.

(** Rewrites the error of a call, as [fmt.Errorf("...: %w", err)] does. *)
Definition map_err {A} (f : error → error) (m : outcome A) : outcome A :=
  match m with Err e => Err (f e) | _ => m end.

(** A value that must be there, or the run-time panics. *)
Definition must {A} (o : option A) : outcome A :=
  match o with Some a => Ok a | None => Panic end.

Definition is_ok {A} (m : outcome A) : bool :=
  match m with Ok _ => true | _ => false end.

(** Stateful calls: the state survives an error. *)
Definition ST (S A : Type) : Type := S → outcome A * S.
Definition st_ret {S A} (a : A) : ST S A := λ s, (Ok a, s).
Definition st_err {S A} (e : error) : ST S A := λ s, (Err e, s).
Definition st_lift {S A} (m : outcome A) : ST S A := λ s, (m, s).
Definition st_bind {S A B} (m : ST S A) (f : A → ST S B) : ST S B := λ s,
  match m s with
  | (Ok a, s') => f a s'
  | (Err e, s') => (Err e, s')
  | (Panic, s') => (Panic, s')
  end.
Definition st_map_err {S A} (f : error → error) (m : ST S A) : ST S A := λ s,
  let '(r, s') := m s in (map_err f r, s').
Definition st_get {S} : ST S S := λ s, (Ok s, s).
Definition st_modify {S} (f : S → S) : ST S () := λ s, (Ok tt, f s).

Declare Scope go_scope.
Delimit Scope go_scope with go.
Notation "x <~ m ;; k" := (st_bind m (λ x, k))
  (at level 100, m at next level, right associativity) : go_scope.
Notation "m ;;; k" := (st_bind m (λ _, k))
  (at level 100, right associativity) : go_scope.

(** Weakest preconditions: [P] of a normal return, [E] of the state an error leaves, and
    no panic. *)
Definition wp {S A} (m : ST S A) (s : S) (P : A → S → Prop) (E : S → Prop) : Prop :=
  match m s with
  | (Ok a, s') => P a s'
  | (Err _, s') => E s'
  | (Panic, _) => False
  end.

Lemma wp_bind {S A B} (m : ST S A) (k : A → ST S B) s P E :
  wp m s (λ a s', wp (k a) s' P E) E → wp (st_bind m k) s P E.
Proof. unfold wp, st_bind. by destruct (m s) as [[a|e|] s']. Qed.
Lemma wp_map_err {S A} (m : ST S A) f s P E : wp m s P E → wp (st_map_err f m) s P E.
Proof. unfold wp, st_map_err. by destruct (m s) as [[a|e|] s']. Qed.
Lemma wp_mono {S A} (m : ST S A) s (P P' : A → S → Prop) (E E' : S → Prop) :
  wp m s P E → (∀ a s', P a s' → P' a s') → (∀ s', E s' → E' s') → wp m s P' E'.
Proof. unfold wp. destruct (m s) as [[a|e|] s']; auto. Qed.

(** A run that returns went through its parts. *)
Lemma st_bind_ok {S A B} (m : ST S A) (k : A → ST S B) s r s' :
  st_bind m k s = (Ok r, s') → ∃ a s1, m s = (Ok a, s1) ∧ k a s1 = (Ok r, s').
Proof. unfold st_bind. destruct (m s) as [[a|e|] s1]; [by eauto|done..]. Qed.
Lemma st_map_err_ok {S A} f (m : ST S A) s r s' : st_map_err f m s = (Ok r, s') → m s = (Ok r, s').
Proof. unfold st_map_err. by destruct (m s) as [[a|e|] s1]. Qed.

(** ** Machine integers *)
Definition wrap_u (w x : Z) : Z := x `mod` 2 ^ w.
Definition wrap_s (w x : Z) : Z := (x + 2 ^ (w - 1)) `mod` 2 ^ w - 2 ^ (w - 1).

Definition int64 : Z → Z := wrap_s 64.
Definition int32 : Z → Z := wrap_s 32.
Definition uint32 : Z → Z := wrap_u 32.
Definition uint64 : Z → Z := wrap_u 64.

Definition in_int64 (x : Z) : Prop := - 2 ^ 63 ≤ x < 2 ^ 63.
Definition in_int32 (x : Z) : Prop := - 2 ^ 31 ≤ x < 2 ^ 31.
Definition in_uint32 (x : Z) : Prop := 0 ≤ x < 2 ^ 32.
Definition in_uint64 (x : Z) : Prop := 0 ≤ x < 2 ^ 64.

#[global] Instance in_int64_dec x : Decision (in_int64 x) := _.
#[global] Instance in_int32_dec x : Decision (in_int32 x) := _.
#[global] Instance in_uint32_dec x : Decision (in_uint32 x) := _.

Lemma wrap_s_small w x : 0 < w → - 2 ^ (w - 1) ≤ x < 2 ^ (w - 1) → wrap_s w x = x.
Proof.
  intros Hw Hx. unfold wrap_s. rewrite Z.mod_small; [lia|].
  assert (2 ^ w = 2 * 2 ^ (w - 1)) as ->; [|lia].
  rewrite <-Z.pow_succ_r by lia. f_equal. lia.
Qed.

Lemma int64_id x : in_int64 x → int64 x = x.
Proof. intros H. apply wrap_s_small; unfold in_int64 in H; lia. Qed.
Lemma int32_id x : in_int32 x → int32 x = x.
Proof. intros H. apply wrap_s_small; unfold in_int32 in H; lia. Qed.
Lemma uint32_id x : in_uint32 x → uint32 x = x.
Proof. intros H. apply Z.mod_small, H. Qed.
Lemma uint64_id x : in_uint64 x → uint64 x = x.
Proof. intros H. apply Z.mod_small, H. Qed.
Lemma uint32_range x : in_uint32 (uint32 x).
Proof. apply Z.mod_pos_bound. lia. Qed.
Lemma uint64_range x : in_uint64 (uint64 x).
Proof. apply Z.mod_pos_bound. lia. Qed.
Lemma int32_range x : in_int32 (int32 x).
Proof.
  unfold in_int32, int32, wrap_s.
  pose proof (Z.mod_pos_bound (x + 2 ^ (32 - 1)) (2 ^ 32)). lia.
Qed.
Lemma int64_range x : in_int64 (int64 x).
Proof.
  unfold in_int64, int64, wrap_s.
  pose proof (Z.mod_pos_bound (x + 2 ^ (64 - 1)) (2 ^ 64)). lia.
Qed.

(** Go's [/] and [%] truncate towards zero and panic on a zero divisor. *)
Definition go_div (x y : Z) : outcome Z := if y =? 0 then Panic else Ok (Z.quot x y).
Definition go_rem (x y : Z) : outcome Z := if y =? 0 then Panic else Ok (Z.rem x y).

(** ** Slices

    A slice is the list of its elements; its capacity is taken to be its
    length, so [s[lo:hi]] past the length is a panic. *)
Definition zlen {A} (l : list A) : Z := Z.of_nat (length l).
Definition sub {A} (lo hi : Z) (l : list A) : list A :=
  take (Z.to_nat (hi - lo)) (drop (Z.to_nat lo) l).
Definition slice {A} (l : list A) (lo hi : Z) : outcome (list A) :=
  if (0 <=? lo) && (lo <=? hi) && (hi <=? zlen l) then Ok (sub lo hi l) else Panic.
Definition index {A} (l : list A) (i : Z) : outcome A :=
  if 0 <=? i then must (l !! Z.to_nat i) else Panic.
Definition set_index {A} (l : list A) (i : Z) (x : A) : outcome (list A) :=
  if (0 <=? i) && (i <? zlen l) then Ok (<[Z.to_nat i := x]> l) else Panic.
Definition make_slice {A} (n : Z) (zero : A) : outcome (list A) :=
  if n <? 0 then Panic else Ok (replicate (Z.to_nat n) zero).

Create HintDb golist discriminated.
Create Rewrite HintDb golist.

Lemma zlen_nonneg {A} (l : list A) : 0 ≤ zlen l.
Proof. unfold zlen. lia. Qed.
#[export] Hint Resolve zlen_nonneg : golist.

Lemma zlen_nil {A} : zlen (@nil A) = 0.
Proof. done. Qed.
Lemma zlen_cons {A} (x : A) l : zlen (x :: l) = zlen l + 1.
Proof. unfold zlen. simpl. lia. Qed.
Lemma zlen_app {A} (l k : list A) : zlen (l ++ k) = zlen l + zlen k.
Proof. unfold zlen. rewrite length_app. lia. Qed.
Lemma zlen_zero {A} (l : list A) : zlen l = 0 → l = [].
Proof. destruct l; [done|]. unfold zlen. simpl. lia. Qed.
Lemma zlen_replicate {A} n (x : A) : 0 ≤ n → zlen (replicate (Z.to_nat n) x) = n.
Proof. intros. unfold zlen. rewrite length_replicate. lia. Qed.
#[export] Hint Rewrite @zlen_nil @zlen_cons @zlen_app : golist.

Lemma zlen_sub {A} (l : list A) lo hi :
  0 ≤ lo ≤ hi → hi ≤ zlen l → zlen (sub lo hi l) = hi - lo.
Proof.
  unfold zlen, sub. intros. rewrite length_take, length_drop. lia.
Qed.
Lemma sub_app_split {A} (l : list A) a b c :
  0 ≤ a ≤ b → b ≤ c → sub a b l ++ sub b c l = sub a c l.
Proof.
  intros Hab Hbc. unfold sub.
  replace (Z.to_nat (c - a)) with (Z.to_nat (b - a) + Z.to_nat (c - b))%nat by lia.
  rewrite <-take_take_drop, drop_drop. do 2 f_equal. f_equal. lia.
Qed.
Lemma sub_empty {A} (l : list A) a b : b ≤ a → sub a b l = [].
Proof. intros. unfold sub. replace (Z.to_nat (b - a)) with 0%nat by lia. done. Qed.
Lemma sub_full {A} (l : list A) : sub 0 (zlen l) l = l.
Proof. unfold sub, zlen. rewrite drop_0, take_ge; [done|lia]. Qed.
Lemma sub_sub {A} (l : list A) a b c d :
  0 ≤ a ≤ b → 0 ≤ c ≤ d → d ≤ b - a → sub c d (sub a b l) = sub (a + c) (a + d) l.
Proof.
  intros. unfold sub. rewrite skipn_firstn_comm, take_take, drop_drop.
  f_equal; [lia|]. f_equal. lia.
Qed.

Lemma slice_ok {A} (l : list A) lo hi :
  0 ≤ lo ≤ hi → hi ≤ zlen l → slice l lo hi = Ok (sub lo hi l).
Proof.
  intros. unfold slice.
  destruct (Z.leb_spec 0 lo), (Z.leb_spec lo hi), (Z.leb_spec hi (zlen l)); done || lia.
Qed.
Lemma index_ok {A} (l : list A) i x :
  0 ≤ i → l !! Z.to_nat i = Some x → index l i = Ok x.
Proof. intros ? Hl. unfold index. rewrite Hl. by destruct (Z.leb_spec 0 i); [|lia]. Qed.

(** A function that never steps down on [lo .. hi] is monotone there. *)
Lemma Z_mono_steps (f : Z → Z) lo hi :
  (∀ i, lo ≤ i < hi → f i ≤ f (i + 1)) →
  ∀ i j, lo ≤ i ≤ j → j ≤ hi → f i ≤ f j.
Proof.
  intros Hf i j Hij Hj.
  assert (∀ k : nat, i + Z.of_nat k ≤ hi → f i ≤ f (i + Z.of_nat k)) as Hk.
  { intros k. induction k as [|k IH]; intros Hk.
    - by rewrite Z.add_0_r.
    - pose proof (Hf (i + Z.of_nat k) ltac:(lia)).
      replace (i + Z.of_nat (S k)) with (i + Z.of_nat k + 1) by lia.
      specialize (IH ltac:(lia)). lia. }
  specialize (Hk (Z.to_nat (j - i))).
  replace (i + Z.of_nat (Z.to_nat (j - i))) with j in Hk by lia. auto.
Qed.

(** ** Bytes

    Little- and big-endian fixed width integers, as [encoding/binary] and the C
    code store them. *)
Definition byte_of_Z (z : Z) : Byte.byte :=
  default x00 (Byte.of_N (Z.to_N (z `mod` 256))).
Definition byte_to_Z (b : Byte.byte) : Z := Z.of_N (Byte.to_N b).

Fixpoint le_enc (n : nat) (z : Z) : bytes :=
  match n with
  | O => []
  | S n => byte_of_Z z :: le_enc n (z `div` 256)
  end.
Fixpoint le_dec (bs : bytes) : Z :=
  match bs with
  | [] => 0
  | b :: bs => byte_to_Z b + 256 * le_dec bs
  end.
Definition be_enc (n : nat) (z : Z) : bytes := reverse (le_enc n z).
Definition be_dec (bs : bytes) : Z := le_dec (reverse bs).

Lemma byte_to_Z_range b : 0 ≤ byte_to_Z b < 256.
Proof. unfold byte_to_Z. pose proof (Byte.to_N_bounded b). lia. Qed.

Lemma byte_to_of_Z z : byte_to_Z (byte_of_Z z) = z `mod` 256.
Proof.
  unfold byte_to_Z, byte_of_Z.
  pose proof (Z.mod_pos_bound z 256 ltac:(lia)).
  destruct (Byte.of_N (Z.to_N (z `mod` 256))) as [b|] eqn:E; simpl.
  - apply Byte.to_of_N in E. rewrite E. lia.
  - apply Byte.of_N_None_iff in E. lia.
Qed.

Lemma byte_of_to_Z b : byte_of_Z (byte_to_Z b) = b.
Proof.
  unfold byte_of_Z. pose proof (byte_to_Z_range b). rewrite Z.mod_small by done.
  unfold byte_to_Z. rewrite N2Z.id, Byte.of_to_N. done.
Qed.

Lemma length_le_enc n z : length (le_enc n z) = n.
Proof. revert z. induction n; intros; simpl; auto. Qed.

Lemma le_dec_enc n z : le_dec (le_enc n z) = z `mod` 256 ^ Z.of_nat n.
Proof.
  revert z. induction n as [|n IH]; intros z; simpl le_enc; simpl le_dec.
  - by rewrite Z.mod_1_r.
  - rewrite byte_to_of_Z, IH, Nat2Z.inj_succ, Z.pow_succ_r by lia.
    rewrite Z.rem_mul_r by lia. done.
Qed.

Lemma le_enc_dec bs : le_enc (length bs) (le_dec bs) = bs.
Proof.
  induction bs as [|b bs IH]; [done|]. simpl.
  pose proof (byte_to_Z_range b). f_equal.
  - rewrite <-(byte_of_to_Z b) at 2. unfold byte_of_Z. do 3 f_equal.
    rewrite Z.add_comm, (Z.mul_comm 256), Z.add_comm, Z.mod_add by lia.
    done.
  - rewrite (Z.mul_comm 256), Z.div_add by lia. rewrite Z.div_small by lia. done.
Qed.

Lemma le_dec_range bs : 0 ≤ le_dec bs < 256 ^ zlen bs.
Proof.
  induction bs as [|b bs IH]; [done|]. rewrite zlen_cons.
  rewrite Z.pow_add_r by (auto with golist; lia). simpl.
  pose proof (byte_to_Z_range b). lia.
Qed.

Lemma length_be_enc n z : length (be_enc n z) = n.
Proof. unfold be_enc. by rewrite length_reverse, length_le_enc. Qed.
Lemma be_dec_enc n z : be_dec (be_enc n z) = z `mod` 256 ^ Z.of_nat n.
Proof. unfold be_dec, be_enc. by rewrite reverse_involutive, le_dec_enc. Qed.

(** ** Tactics *)

(** Inverts a successful bind/lookup chain in [H]. *)
Ltac ok_inv H :=
  repeat match type of H with
  | context [mbind _ ?m] => destruct m eqn:?; simpl in H; try discriminate H
  end.

(** Splits every boolean comparison in the goal or hypotheses, then [lia]. *)
Ltac zcases :=
  repeat match goal with
  | |- context [Z.leb ?a ?b] => destruct (Z.leb_spec a b)
  | |- context [Z.ltb ?a ?b] => destruct (Z.ltb_spec a b)
  | |- context [Z.eqb ?a ?b] => destruct (Z.eqb_spec a b)
  | H : context [Z.leb ?a ?b] |- _ => destruct (Z.leb_spec a b)
  | H : context [Z.ltb ?a ?b] |- _ => destruct (Z.ltb_spec a b)
  | H : context [Z.eqb ?a ?b] |- _ => destruct (Z.eqb_spec a b)
  end; simpl in *; try lia; try done.
