(* ===== verification/GoLib.v ===== *)
(** * Go's standard library, as far as several components use it

    Sorting ([sort.Slice], [sort.Strings]), ranging over a map, string prefixes and
    conversions between strings and bytes. *)
From Stdlib Require Import ZArith Lia.
From Stdlib Require Import Strings.Byte.
From stdpp Require Import base list gmap strings numbers sorting.
From S2P Require Import Prelude.
#[local] Open Scope Z_scope.

(** ** Sorting *)
Class GoSort := {
  sort_Slice : ∀ {A : Type}, (A → A → bool) → list A → list A;
  sort_Strings : list string → list string
}.

(** What a [less] function has to be for [sort.Slice] to sort: a strict weak order. *)
Class StrictWeak {A} (less : A → A → bool) : Prop := {
  less_asym x y : less x y = true → less y x = false;
  less_incomparable x y z : less y x = false → less z y = false → less z x = false
}.

(** What [sort] documents: a permutation, in order; nothing about equal elements. *)
Class GoSortLaws `{GoSort} : Prop := {
  sort_Slice_perm {A} (less : A → A → bool) l : sort_Slice less l ≡ₚ l;
  sort_Slice_ordered {A} (less : A → A → bool) l :
    StrictWeak less → StronglySorted (λ a b, less b a = false) (sort_Slice less l);
  sort_Strings_perm l : sort_Strings l ≡ₚ l
}.

#[global] Instance less_Z_key {A} (key : A → Z) : StrictWeak (λ a b, key a <? key b).
Proof. split; intros *; zcases. Qed.

Lemma string_ltb_false s t : String.ltb t s = false ↔ String.le s t.
Proof.
  unfold String.le, String.ltb, String.leb. rewrite (String.compare_antisym s t).
  by destruct (String.compare t s).
Qed.

#[global] Instance less_string_key {A} (key : A → string) :
  StrictWeak (λ a b, String.ltb (key a) (key b)).
Proof.
  split; intros *; rewrite ?string_ltb_false.
  - intros Hlt. destruct (total String.le (key x) (key y)) as [?|Hle]; [done|].
    apply string_ltb_false in Hle. congruence.
  - intros. by etrans.
Qed.

Section sorted.
Context `{GoSortLaws}.

Lemma sort_Slice_sorted {A} (key : A → Z) l :
  StronglySorted (λ a b, key a ≤ key b) (sort_Slice (λ a b, key a <? key b) l).
Proof.
  pose proof (sort_Slice_ordered (λ a b, key a <? key b) l _) as Hs.
  induction Hs as [|x k _ IH Hx]; constructor; [done|].
  eapply list.Forall_impl; [exact Hx|]. simpl. intros y. zcases.
Qed.

Lemma sort_Slice_strings {A} (key : A → string) l :
  StronglySorted (λ a b, String.le (key a) (key b))
    (sort_Slice (λ a b, String.ltb (key a) (key b)) l).
Proof.
  pose proof (sort_Slice_ordered (λ a b, String.ltb (key a) (key b)) l _) as Hs.
  induction Hs as [|x k _ IH Hx]; constructor; [done|].
  eapply list.Forall_impl; [exact Hx|]. simpl. intros y. by rewrite string_ltb_false.
Qed.

(** With distinct keys there is one sorted order: the result does not depend on the order
    the elements were collected in. *)
Lemma sort_Slice_canonical {A} (key : A → string) l k :
  l ≡ₚ k → NoDup (key <$> l) →
  sort_Slice (λ a b, String.ltb (key a) (key b)) l = sort_Slice (λ a b, String.ltb (key a) (key b)) k.
Proof.
  intros Hlk Hnd. apply (StronglySorted_unique_strong (λ a b, String.le (key a) (key b)));
    [|apply sort_Slice_strings..|by rewrite !sort_Slice_perm].
  intros x y Hx Hy Hxy Hyx. rewrite sort_Slice_perm in Hx. rewrite sort_Slice_perm, <-Hlk in Hy.
  assert (key x = key y) as Hk by (by apply (anti_symm String.le)).
  apply list_elem_of_lookup in Hx as [i Hi]. apply list_elem_of_lookup in Hy as [j Hj].
  assert (i = j) as ->; [|congruence].
  eapply NoDup_lookup; [exact Hnd|..]; rewrite list_lookup_fmap; [by rewrite Hi|].
  rewrite Hj, Hk. done.
Qed.
End sorted.

Lemma StronglySorted_snoc {A} (R : A → A → Prop) l x :
  StronglySorted R (l ++ [x]) ↔ StronglySorted R l ∧ Forall (λ a, R a x) l.
Proof.
  induction l as [|a l IH]; simpl; [split; [by repeat constructor|by repeat constructor]|].
  split.
  - intros Hs. inversion Hs as [|? ? Hl Ha]; subst. apply IH in Hl as [? ?].
    apply list.Forall_app in Ha as [? Hx]. inversion Hx; subst. split; by constructor.
  - intros [Hs Hf]. inversion Hs; subst. inversion Hf; subst. constructor; [by apply IH|].
    apply list.Forall_app. split; [done|by repeat constructor].
Qed.

(** Results made from elements with distinct keys have distinct keys. *)
Lemma NoDup_fmap_omap {K A B X} (key : B → X) (f : K * A → option B) l : NoDup l.*1 →
  (∀ x y e e', x ∈ l → y ∈ l → f x = Some e → f y = Some e' → key e = key e' → x.1 = y.1) →
  NoDup (key <$> omap f l).
Proof.
  induction l as [|x l IH]; intros Hnd Hf; [constructor|]. simpl in Hnd.
  apply list.NoDup_cons in Hnd as [Hx Hnd]. cbn [omap list_omap].
  assert (NoDup (key <$> omap f l)) as IH' by (apply IH; [done|]; intros x' y' e e' Hx' Hy'; apply Hf; by right).
  destruct (f x) as [e|] eqn:E; [|done]. constructor; [|done].
  intros (e' & Hn & (y & Hy & Hfy)%list_elem_of_omap)%list_elem_of_fmap.
  apply Hx, list_elem_of_fmap. exists y. split; [|done].
  apply (Hf x y e e'); [left|by right|done..].
Qed.

(** ** [for k, v := range m] *)
Class MapRange := {
  map_range : ∀ {A}, gmap string A → list (string * A);
  map_range_perm {A} (m : gmap string A) : map_range m ≡ₚ map_to_list m
}.

Lemma elem_of_map_range `{MapRange} {A} (m : gmap string A) k v :
  (k, v) ∈ map_range m ↔ m !! k = Some v.
Proof. by rewrite map_range_perm, elem_of_map_to_list. Qed.
Lemma NoDup_fst_map_range `{MapRange} {A} (m : gmap string A) : NoDup (map_range m).*1.
Proof. rewrite map_range_perm. apply NoDup_fst_map_to_list. Qed.

(** ** Strings *)
Definition to_bytes (s : string) : bytes := String.list_byte_of_string s.
Definition of_bytes (b : bytes) : string := String.string_of_list_byte b.

Lemma of_to_bytes s : of_bytes (to_bytes s) = s.
Proof. apply String.string_of_list_byte_of_string. Qed.
Lemma to_bytes_nil s : to_bytes s = [] → s = ""%string.
Proof. intros H. by rewrite <-(of_to_bytes s), H. Qed.

Definition str_len (s : string) : Z := Z.of_nat (String.length s).

(** [strings.HasPrefix(s, p)] and [s[n:]]. *)
Definition HasPrefix (s p : string) : bool := String.prefix p s.
Fixpoint str_drop (n : nat) (s : string) : string :=
  match n, s with
  | O, _ => s
  | S n, EmptyString => EmptyString
  | S n, String _ s => str_drop n s
  end.

Lemma HasPrefix_app p s : HasPrefix (p +:+ s) p = true.
Proof. unfold HasPrefix. induction p as [|c p IH]; [by destruct s|]. simpl. by destruct (Ascii.ascii_dec c c). Qed.
Lemma str_drop_app p s : str_drop (String.length p) (p +:+ s) = s.
Proof. by induction p. Qed.
Lemma HasPrefix_inv s p : HasPrefix s p = true → s = p +:+ str_drop (String.length p) s.
Proof.
  unfold HasPrefix. revert s. induction p as [|c p IH]; intros [|d s]; simpl; try done.
  destruct (Ascii.ascii_dec c d) as [->|]; [|done]. intros H%IH. by rewrite H at 1.
Qed.
Lemma string_app_inj (p s t : string) : p +:+ s = p +:+ t → s = t.
Proof. intros H. by rewrite <-(str_drop_app p s), H, str_drop_app. Qed.
Lemma string_length_app (s t : string) : String.length (s +:+ t) = (String.length s + String.length t)%nat.
Proof. induction s as [|c s IH]; [done|]. change (S (String.length (s +:+ t)) = S (String.length s + String.length t)). by rewrite IH. Qed.
Lemma string_app_nil_r (s : string) : s +:+ "" = s.
Proof. induction s as [|c s IH]; [done|]. change (String c (s +:+ "") = String c s). by rewrite IH. Qed.
Lemma string_app_assoc (s t u : string) : (s +:+ t) +:+ u = s +:+ (t +:+ u).
Proof. induction s as [|c s IH]; [done|]. change (String c ((s +:+ t) +:+ u) = String c (s +:+ (t +:+ u))). by rewrite IH. Qed.
