(* ===== verification/Compression.v ===== *)
(** * Zinfo: the span structure of a compressed layer

    Models [ztoc/compression]: [types.go], the [Zinfo] interface of [zinfo.go] as a
    class, the tar implementation ([tar_zinfo.go]) and the gzip one
    ([gzip_zinfo.go] with the bookkeeping half of [gzip_zinfo.c]).  The laws a
    client relies on are the class [ZinfoLaws], proved for both implementations. *)
From Stdlib Require Import ZArith Lia.
From stdpp Require Import base list gmap strings numbers.
From S2P Require Import Prelude GoLib.
#[local] Open Scope Z_scope.

(** [Offset] is an int64, [SpanID] an int32. *)
Abbreviation Offset := Z.
Abbreviation SpanID := Z.

Definition Gzip : string := "gzip".
Definition Zstd : string := "zstd".
Definition Uncompressed : string := "uncompressed".
Definition Unknown : string := "unknown".

(** Files on disk, by name. *)
Abbreviation files := (gmap string bytes).

(** [os.File.ReadAt] of [n] bytes at [off]: the bytes read and the error. *)
Definition file_ReadAt (data : bytes) (n off : Z) : bytes * option error :=
  if off <? 0 then ([], Some (ErrorString "negative offset"))
  else let got := sub off (off + n) data in
       (got, if zlen got <? n then Some io_EOF else None).

(** ** The interface *)
Class Zinfo (T : Type) := {
  ExtractDataFromBuffer : T → bytes → Offset → Offset → SpanID → outcome bytes;
  ExtractDataFromFile : T → files → string → Offset → Offset → outcome bytes;
  Bytes : T → outcome bytes;
  MaxSpanID : T → outcome SpanID;
  SpanSize : T → outcome Offset;
  UncompressedOffsetToSpanID : T → Offset → outcome SpanID;
  StartCompressedOffset : T → SpanID → outcome Offset;
  EndCompressedOffset : T → SpanID → Offset → outcome Offset;
  StartUncompressedOffset : T → SpanID → outcome Offset;
  EndUncompressedOffset : T → SpanID → Offset → outcome Offset;
  VerifyHeader : T → bytes → outcome unit
}.

(** End of span [i] in a stream of [total] bytes whose spans start at [su]. *)
Definition span_end (su : Z → Z) (n total i : Z) : Z :=
  if i =? n then total else su (i + 1).

(** What a zinfo [zi] promises about a layer with compressed bytes [comp] and
    uncompressed bytes [uncomp]: [n + 1] spans, starting at [su] in the
    uncompressed stream and occupying [sc i .. ec i] of the compressed one. *)
Class ZinfoLaws `{Zinfo T} (zi : T) (comp uncomp : bytes) (n : Z) (su sc ec : Z → Z)
  : Prop := {
  zl_n : 0 ≤ n < 2 ^ 31 - 1;
  zl_max : MaxSpanID zi = Ok n;
  zl_startU i : 0 ≤ i ≤ n → StartUncompressedOffset zi i = Ok (su i);
  zl_endU i : 0 ≤ i ≤ n →
    EndUncompressedOffset zi i (zlen uncomp) = Ok (span_end su n (zlen uncomp) i);
  zl_startC i : 0 ≤ i ≤ n → StartCompressedOffset zi i = Ok (sc i);
  zl_endC i : 0 ≤ i ≤ n → EndCompressedOffset zi i (zlen comp) = Ok (ec i);
  zl_su0 : su 0 = 0;
  zl_mono i : 0 ≤ i < n → su i < su (i + 1);
  zl_last : su n ≤ zlen uncomp;
  zl_comp i : 0 ≤ i ≤ n → 0 ≤ sc i ≤ ec i ∧ ec i ≤ zlen comp;
  zl_comp_mono i : 0 ≤ i < n → sc i < ec i;
  zl_find off : 0 ≤ off < zlen uncomp → ∃ k,
    UncompressedOffsetToSpanID zi off = Ok k ∧ 0 ≤ k ≤ n ∧
    su k ≤ off ∧ (k < n → off < su (k + 1));
  zl_ec_mono i : 0 ≤ i < n → ec i ≤ ec (i + 1);
  zl_extract i j a b : 0 ≤ i ≤ j → j ≤ n →
    su i ≤ a < b → b ≤ span_end su n (zlen uncomp) j →
    ExtractDataFromBuffer zi (sub (sc i) (ec j) comp) (b - a) a i = Ok (sub a b uncomp)
}.

Section laws.
Context `{HZ : Zinfo T} {zi : T} {comp uncomp : bytes} {n : Z} {su sc ec : Z → Z}.
Context `{HL : !ZinfoLaws zi comp uncomp n su sc ec}.

Lemma su_mono i j : 0 ≤ i ≤ j → j ≤ n → su i ≤ su j.
Proof.
  apply (Z_mono_steps su 0 n). intros k Hk.
  pose proof (zl_mono (ZinfoLaws:=HL) k Hk). lia.
Qed.

Lemma su_strict i j : 0 ≤ i < j → j ≤ n → su i < su j.
Proof.
  intros Hij Hj. pose proof (zl_mono (ZinfoLaws:=HL) i ltac:(lia)).
  pose proof (su_mono (i + 1) j ltac:(lia) ltac:(lia)). lia.
Qed.

Lemma su_bounds i : 0 ≤ i ≤ n → 0 ≤ su i ≤ zlen uncomp.
Proof.
  intros Hi. pose proof (su_mono 0 i ltac:(lia) ltac:(lia)) as H.
  rewrite (zl_su0 (ZinfoLaws:=HL)) in H. pose proof (su_mono i n ltac:(lia) ltac:(lia)).
  pose proof (zl_last (ZinfoLaws:=HL)). lia.
Qed.

Lemma span_end_bounds i :
  0 ≤ i ≤ n → su i ≤ span_end su n (zlen uncomp) i ≤ zlen uncomp.
Proof.
  intros Hi. unfold span_end. destruct (Z.eqb_spec i n) as [->|].
  - pose proof (zl_last (ZinfoLaws:=HL)). lia.
  - pose proof (zl_mono (ZinfoLaws:=HL) i ltac:(lia)). pose proof (su_bounds (i + 1) ltac:(lia)). lia.
Qed.

(** The span an offset lies in is unique. *)
Lemma span_unique i j off :
  0 ≤ i ≤ n → 0 ≤ j ≤ n →
  su i ≤ off → (i < n → off < su (i + 1)) →
  su j ≤ off → (j < n → off < su (j + 1)) → i = j.
Proof.
  intros Hi Hj Hi1 Hi2 Hj1 Hj2.
  destruct (Z.lt_trichotomy i j) as [Hlt|[->|Hlt]]; [|done|].
  - pose proof (su_mono (i + 1) j ltac:(lia) ltac:(lia)). lia.
  - pose proof (su_mono (j + 1) i ltac:(lia) ltac:(lia)). lia.
Qed.
End laws.

(** ** Uncompressed tar layers *)
Definition zinfoVersion : Z := 2.

(** The flatbuffer of [fbs/zinfo/TarZinfo.go]: what building a [TarZinfo] table
    produces and what its accessors read back ([None]: they panic). *)
Class TarZinfoFlatbuf := {
  tzfb_build : Z → Z → Z → bytes;
  tzfb_read : bytes → option (Z * Z * Z)
}.

Module TarZinfo.

Record t := mk { version : Z; spanSize : Z; size : Z }.

#[global] Instance t_eq_dec : EqDecision t.
Proof. solve_decision. Defined.

Definition spanIDToOffset (i : t) (spanID : SpanID) : Offset :=
  int64 (spanSize i * spanID).

Definition newTarZinfo `{TarZinfoFlatbuf} (zinfoBytes : bytes) : outcome t :=
  match tzfb_read zinfoBytes with
  | Some (v, ss, sz) => Ok (mk v ss sz)
  | None => Err (ErrorString "cannot unmarshal tar zinfo") (* recovered panic *)
  end.

Definition newTarZinfoFromFile (fs : files) (tarFile : string) (spanSize : Z) : outcome t :=
  match fs !! tarFile with
  | None => Err (Wrap "unable to get file stat" (Sentinel "file does not exist"))
  | Some data => Ok (mk zinfoVersion spanSize (zlen data))
  end.

Definition Bytes `{TarZinfoFlatbuf} (i : t) : outcome bytes :=
  Ok (tzfb_build (version i) (spanSize i) (size i)).

Definition MaxSpanID (i : t) : outcome SpanID :=
  q ← go_div (size i) (spanSize i);
  r ← go_rem (size i) (spanSize i);
  let res := int32 q in
  Ok (if r =? 0 then int32 (res - 1) else res).

Definition SpanSize (i : t) : outcome Offset := Ok (spanSize i).

Definition UncompressedOffsetToSpanID (i : t) (offset : Offset) : outcome SpanID :=
  q ← go_div offset (spanSize i); Ok (int32 q).

Definition StartUncompressedOffset (i : t) (spanID : SpanID) : outcome Offset :=
  Ok (spanIDToOffset i spanID).

Definition StartCompressedOffset (i : t) (spanID : SpanID) : outcome Offset :=
  Ok (spanIDToOffset i spanID).

Definition EndCompressedOffset (i : t) (spanID : SpanID) (fileSize : Offset) : outcome Offset :=
  m ← MaxSpanID i;
  Ok (if spanID =? m then fileSize else spanIDToOffset i (int32 (spanID + 1))).

Definition EndUncompressedOffset (i : t) (spanID : SpanID) (fileSize : Offset) : outcome Offset :=
  m ← MaxSpanID i;
  Ok (if spanID =? m then fileSize else spanIDToOffset i (int32 (spanID + 1))).

Definition ExtractDataFromBuffer (i : t) (compressedBuf : bytes)
    (uncompressedSize uncompressedOffset : Offset) (spanID : SpanID) : outcome bytes :=
  if zlen compressedBuf =? 0 then Err (ErrorString "empty compressed buffer")
  else if uncompressedSize <? 0 then Err (ErrorString "invalid uncompressed size")
  else if uncompressedSize =? 0 then Ok []
  else
    s ← StartUncompressedOffset i spanID;
    let off := int64 (uncompressedOffset - s) in
    slice compressedBuf off (int64 (off + uncompressedSize)).

Definition ExtractDataFromFile (i : t) (fs : files) (fileName : string)
    (uncompressedSize uncompressedOffset : Offset) : outcome bytes :=
  if uncompressedSize <? 0 then Err (ErrorString "invalid uncompressed size")
  else if uncompressedSize =? 0 then Ok []
  else match fs !! fileName with
  | None => Err (Sentinel "file does not exist")
  | Some data =>
      let '(got, err) := file_ReadAt data uncompressedSize uncompressedOffset in
      if bool_decide (err = None) && (zlen got =? uncompressedSize)
      then Ok got else Err (ErrorString "failed to extract data")
  end.

Definition VerifyHeader (i : t) (r : bytes) : outcome unit := Ok tt.

#[global] Instance zinfo `{TarZinfoFlatbuf} : Zinfo t := {|
  Compression.ExtractDataFromBuffer := ExtractDataFromBuffer;
  Compression.ExtractDataFromFile := ExtractDataFromFile;
  Compression.Bytes := Bytes;
  Compression.MaxSpanID := MaxSpanID;
  Compression.SpanSize := SpanSize;
  Compression.UncompressedOffsetToSpanID := UncompressedOffsetToSpanID;
  Compression.StartCompressedOffset := StartCompressedOffset;
  Compression.EndCompressedOffset := EndCompressedOffset;
  Compression.StartUncompressedOffset := StartUncompressedOffset;
  Compression.EndUncompressedOffset := EndUncompressedOffset;
  Compression.VerifyHeader := VerifyHeader
|}.

(** A tar zinfo that describes [data]. *)
Record describes (i : t) (data : bytes) : Prop := {
  d_size : size i = zlen data;
  d_fits : zlen data < 2 ^ 63;
  d_span : 0 < spanSize i;
  d_nonempty : 0 < zlen data;
  d_spans : (zlen data - 1) / spanSize i < 2 ^ 31 - 1
}.

(** The last span is the one that holds the last byte. *)
Lemma MaxSpanID_eq i data :
  describes i data → MaxSpanID i = Ok ((zlen data - 1) / spanSize i).
Proof.
  intros [Hs Hf Hp Hn Hk]. unfold MaxSpanID, go_div, go_rem.
  rewrite Hs. destruct (Z.eqb_spec (spanSize i) 0); [lia|]. simpl.
  rewrite Z.quot_div_nonneg, Z.rem_mod_nonneg by lia.
  pose proof (Z.div_mod (zlen data) (spanSize i) ltac:(lia)) as Hdm.
  pose proof (Z.mod_pos_bound (zlen data) (spanSize i) Hp).
  pose proof (Z.div_pos (zlen data - 1) (spanSize i) ltac:(lia) Hp).
  destruct (Z.eqb_spec (zlen data `mod` spanSize i) 0) as [E|E].
  - assert ((zlen data - 1) / spanSize i = zlen data / spanSize i - 1) as Heq.
    { symmetry. apply (Z.div_unique_pos _ _ _ (spanSize i - 1)); nia. }
    rewrite (int32_id (_ / _)); [|unfold in_int32; lia].
    rewrite int32_id; [by rewrite Heq|unfold in_int32; lia].
  - assert ((zlen data - 1) / spanSize i = zlen data / spanSize i) as Heq.
    { symmetry. apply (Z.div_unique_pos _ _ _ (zlen data `mod` spanSize i - 1)); nia. }
    rewrite int32_id; [by rewrite Heq|unfold in_int32; lia].
Qed.

Section with_data.
Context (i : t) (data : bytes) (Hd : describes i data).
Let n := (zlen data - 1) / spanSize i.
Let su k := spanSize i * k.

Lemma n_bounds : 0 ≤ n < 2 ^ 31 - 1 ∧ spanSize i * n ≤ zlen data - 1
                 ∧ zlen data ≤ spanSize i * (n + 1).
Proof.
  destruct Hd as [Hs Hf Hp Hn Hk]. subst n.
  pose proof (Z.div_pos (zlen data - 1) (spanSize i) ltac:(lia) Hp).
  pose proof (Z.div_mod (zlen data - 1) (spanSize i) ltac:(lia)).
  pose proof (Z.mod_pos_bound (zlen data - 1) (spanSize i) Hp). nia.
Qed.

Lemma spanIDToOffset_eq k : 0 ≤ k ≤ n → spanIDToOffset i k = su k.
Proof.
  intros Hk. pose proof n_bounds. destruct Hd as [Hs Hf Hp Hn _].
  unfold spanIDToOffset, su. apply int64_id. unfold in_int64. nia.
Qed.

Lemma End_eq k fileSize : 0 ≤ k ≤ n →
  EndUncompressedOffset i k fileSize = Ok (span_end su n fileSize k).
Proof.
  intros Hk. pose proof n_bounds. unfold EndUncompressedOffset.
  rewrite (MaxSpanID_eq i data Hd). fold n. simpl. unfold span_end.
  destruct (Z.eqb_spec k n); [done|].
  rewrite int32_id by (unfold in_int32; lia).
  by rewrite spanIDToOffset_eq by lia.
Qed.

Lemma span_end_le k : 0 ≤ k ≤ n → su k < span_end su n (zlen data) k ≤ zlen data.
Proof.
  intros Hk. pose proof n_bounds as (Hn & Hlo & Hhi). destruct Hd as [Hs Hf Hp Hne _].
  unfold span_end, su. destruct (Z.eqb_spec k n); nia.
Qed.

Lemma Extract_eq k j a b : 0 ≤ k ≤ j → j ≤ n →
  su k ≤ a < b → b ≤ span_end su n (zlen data) j →
  ExtractDataFromBuffer i (sub (su k) (span_end su n (zlen data) j) data) (b - a) a k
  = Ok (sub a b data).
Proof.
  intros Hk Hj Hab Hb. pose proof n_bounds as (Hn & Hlo & Hhi).
  pose proof (span_end_le j ltac:(lia)) as Hej.
  destruct Hd as [Hs Hf Hp Hne _].
  set (e := span_end su n (zlen data) j) in *.
  assert (0 ≤ su k) by (unfold su; nia).
  unfold ExtractDataFromBuffer. rewrite zlen_sub by lia.
  destruct (Z.eqb_spec (e - su k) 0), (Z.ltb_spec (b - a) 0), (Z.eqb_spec (b - a) 0);
    [lia..|]. simpl. rewrite spanIDToOffset_eq by lia.
  rewrite !int64_id by (rewrite ?int64_id; unfold in_int64; lia).
  rewrite slice_ok by (rewrite ?zlen_sub; lia).
  rewrite sub_sub by lia. do 2 f_equal; lia.
Qed.

(** A tar zinfo satisfies the laws: spans are the [spanSize]-byte blocks. *)
Lemma laws `{TarZinfoFlatbuf} :
  ZinfoLaws i data data n su su (span_end su n (zlen data)).
Proof.
  pose proof n_bounds as (Hn & Hlo & Hhi). pose proof Hd as [Hs Hf Hp Hne _].
  split; simpl; try done.
  - by rewrite (MaxSpanID_eq i data Hd).
  - intros k Hk. unfold StartUncompressedOffset. by rewrite spanIDToOffset_eq.
  - intros k Hk. by apply End_eq.
  - intros k Hk. unfold StartCompressedOffset. by rewrite spanIDToOffset_eq.
  - intros k Hk. by apply End_eq.
  - unfold su. lia.
  - unfold su. nia.
  - unfold su. nia.
  - intros k Hk. unfold span_end, su. destruct (Z.eqb_spec k n); nia.
  - intros k Hk. unfold span_end, su. destruct (Z.eqb_spec k n); nia.
  - intros off Hoff. exists (off / spanSize i).
    pose proof (Z.div_mod off (spanSize i) ltac:(lia)).
    pose proof (Z.mod_pos_bound off (spanSize i) Hp).
    pose proof (Z.div_pos off (spanSize i) ltac:(lia) Hp).
    assert (off / spanSize i ≤ n) by (apply Z.div_le_mono; lia).
    split_and!; [|lia|done|unfold su; lia|unfold su; nia].
    unfold UncompressedOffsetToSpanID, go_div.
    destruct (Z.eqb_spec (spanSize i) 0); [lia|]. simpl.
    rewrite Z.quot_div_nonneg by lia. rewrite int32_id; [done|].
    unfold in_int32. lia.
  - intros k Hk. unfold span_end, su. destruct (Z.eqb_spec k n), (Z.eqb_spec (k + 1) n); nia.
  - intros. by apply Extract_eq.
Qed.
End with_data.
End TarZinfo.
