(* ===== verification/GzipZinfo.v ===== *)
(** * Gzip zinfo

    Models [ztoc/compression/gzip_zinfo.go] and the parts of [gzip_zinfo.c] that keep
    the checkpoint table: the offset queries, [blob_to_zinfo] and [zinfo_to_blob] at
    byte level with the C arithmetic at its width (unsigned 32 bit products), and the
    dispatch of [zinfo.go].  The zlib-driven routines ([generate_zinfo_from_file],
    [extract_data_from_*]) are parameters. *)
From Stdlib Require Import ZArith Lia.
From stdpp Require Import base list gmap strings numbers.
From S2P Require Import Prelude GoLib Compression.
#[local] Open Scope Z_scope.

Definition ZINFO_VERSION_ONE : Z := 1.
Definition ZINFO_VERSION_TWO : Z := 2.
Definition ZINFO_VERSION_CUR : Z := ZINFO_VERSION_TWO.
Definition WINSIZE : Z := 32768.
Definition PACKED_CHECKPOINT_SIZE : Z := 8 + 8 + 1 + WINSIZE.
Definition BLOB_HEADER_SIZE : Z := 4 + 8.

Record gzip_checkpoint := mkCheckpoint {
  out : Z;         (* offset in the uncompressed data *)
  in_ : Z;         (* offset in the input of the first full byte *)
  bits : Z;        (* bits (1-7) of the byte at [in_ - 1], or 0 *)
  window : bytes   (* the preceding 32K of uncompressed data *)
}.

Record gzip_zinfo := mkZinfo {
  version : Z;
  have : Z;
  size : Z;
  list_ : list gzip_checkpoint;
  span_size : Z
}.

#[global] Instance gzip_checkpoint_eq_dec : EqDecision gzip_checkpoint.
Proof. solve_decision. Defined.
#[global] Instance gzip_zinfo_eq_dec : EqDecision gzip_zinfo.
Proof. solve_decision. Defined.

(** ** C helpers *)

(** [while (--ret && here[1].out <= off) { here++; res++; }], [ret] already
    decremented; reading past the table is out of bounds. *)
Fixpoint pt_index_loop (off : Z) (ret : nat) (here : list gzip_checkpoint) (res : Z)
  : outcome Z :=
  match ret with
  | O => Ok res
  | S ret' =>
      match here with
      | _ :: ((c1 :: _) as here') =>
          if out c1 <=? off then pt_index_loop off ret' here' (res + 1) else Ok res
      | _ => Panic
      end
  end.

Definition pt_index_from_ucmp_offset (index : gzip_zinfo) (off : Z) : outcome Z :=
  if have index <=? 0 then Panic (* --ret is negative: the loop leaves the table *)
  else pt_index_loop off (Z.to_nat (have index - 1)) (list_ index) 0.

Definition get_ucomp_off (idx : gzip_zinfo) (checkpoint : Z) : outcome Z :=
  c ← index (list_ idx) checkpoint; Ok (out c).

Definition get_comp_off (idx : gzip_zinfo) (checkpoint : Z) : outcome Z :=
  c ← index (list_ idx) checkpoint; Ok (in_ c).

Definition get_max_span_id (idx : gzip_zinfo) : Z := int32 (have idx - 1).

Definition has_bits (idx : gzip_zinfo) (checkpoint : Z) : outcome bool :=
  if have idx <=? checkpoint then Ok false
  else c ← index (list_ idx) checkpoint; Ok (negb (bits c =? 0)).

(** [unsigned]: the product and the sum wrap at 32 bits. *)
Definition get_blob_size (idx : gzip_zinfo) : Z :=
  let sz := uint32 (size idx) in
  let sz := if version idx =? ZINFO_VERSION_ONE then uint32 (sz - 1) else sz in
  uint32 (PACKED_CHECKPOINT_SIZE * sz + BLOB_HEADER_SIZE).

Definition pack_checkpoint (pt : gzip_checkpoint) : bytes :=
  le_enc 8 (in_ pt) ++ le_enc 8 (out pt) ++ le_enc 1 (bits pt) ++ window pt.

(** The loop [for i = first; i < have; i++] over the table. *)
Definition packed_checkpoints (idx : gzip_zinfo) : outcome (list gzip_checkpoint) :=
  let first := if version idx =? ZINFO_VERSION_ONE then 1 else 0 in
  if have idx <=? first then Ok []
  else if have idx <=? zlen (list_ idx) then Ok (sub first (have idx) (list_ idx))
  else Panic.

(** Writes into a buffer of [buflen] bytes; past its end is out of bounds. *)
Definition zinfo_to_blob (idx : gzip_zinfo) (buflen : Z) : outcome (bytes * Z) :=
  pts ← packed_checkpoints idx;
  let written := le_enc 4 (have idx) ++ le_enc 8 (span_size idx)
                 ++ concat (pack_checkpoint <$> pts) in
  if buflen <? zlen written then Panic
  else Ok (written ++ replicate (Z.to_nat (buflen - zlen written)) Byte.x00,
           int32 (get_blob_size idx)).

Definition unpack_checkpoint (cur : bytes) : gzip_checkpoint :=
  mkCheckpoint (int64 (le_dec (sub 8 16 cur))) (int64 (le_dec (sub 0 8 cur)))
    (le_dec (sub 16 17 cur)) (sub 17 PACKED_CHECKPOINT_SIZE cur).

(** Reads [k] packed checkpoints; past the end of the blob is out of bounds. *)
Fixpoint read_checkpoints (k : nat) (cur : bytes) : outcome (list gzip_checkpoint) :=
  match k with
  | O => Ok []
  | S k' =>
      if zlen cur <? PACKED_CHECKPOINT_SIZE then Panic
      else rest ← read_checkpoints k' (drop (Z.to_nat PACKED_CHECKPOINT_SIZE) cur);
           Ok (unpack_checkpoint cur :: rest)
  end.

(** The fixed first checkpoint of a version 1 zinfo. *)
Definition v1_checkpoint : gzip_checkpoint :=
  mkCheckpoint 0 10 0 (replicate (Z.to_nat WINSIZE) Byte.x00).

(** [None] is the [NULL] result. Allocation of a positive size succeeds; one of a
    negative size (huge as [size_t]) does not. *)
Definition blob_to_zinfo (buf : bytes) : outcome (option gzip_zinfo) :=
  if zlen buf <? BLOB_HEADER_SIZE then Ok None
  else
    let sz := int32 (le_dec (sub 0 4 buf)) in
    let span := int64 (le_dec (sub 4 12 buf)) in
    let cur := drop (Z.to_nat BLOB_HEADER_SIZE) buf in
    let claimed_size := uint32 (PACKED_CHECKPOINT_SIZE * uint32 sz + BLOB_HEADER_SIZE) in
    if claimed_size =? zlen buf then
      if sz <? 0 then Ok None
      else pts ← read_checkpoints (Z.to_nat sz) cur;
           Ok (Some (mkZinfo ZINFO_VERSION_CUR sz sz pts span))
    else if claimed_size - PACKED_CHECKPOINT_SIZE =? zlen buf then
      if sz <? 0 then Ok None
      else pts ← read_checkpoints (Z.to_nat (sz - 1)) cur;
           Ok (Some (mkZinfo ZINFO_VERSION_ONE sz sz (v1_checkpoint :: pts) span))
    else Ok None.

(** ** The Go wrapper *)

(** The zlib-driven C routines and [gzip.NewReader].  Each extraction returns the
    C result code and the contents of the output buffer. *)
Class GzipC := {
  generate_zinfo_from_file : option bytes → Z → Z * gzip_zinfo;
  extract_data_from_buffer : bytes → gzip_zinfo → Z → Z → Z → Z * bytes;
  extract_data_from_file : option bytes → gzip_zinfo → Z → Z → Z * bytes;
  gzip_header_ok : bytes → option error
}.

Module GzipZinfo.
Section gzip.
Context `{GzipC}.

Definition newGzipZinfo (zinfoBytes : bytes) : outcome gzip_zinfo :=
  if zlen zinfoBytes =? 0 then Err (ErrorString "empty checkpoints")
  else
    z ← blob_to_zinfo zinfoBytes;
    match z with
    | None => Err (ErrorString "cannot convert blob to gzip_zinfo")
    | Some z => Ok z
    end.

Definition newGzipZinfoFromFile (fs : files) (gzipFile : string) (spanSize : Z)
  : outcome gzip_zinfo :=
  let '(ret, z) := generate_zinfo_from_file (fs !! gzipFile) spanSize in
  if ret <? 0 then Err (ErrorString "could not generate gzip zinfo") else Ok z.

Definition Bytes (i : gzip_zinfo) : outcome bytes :=
  let blobSize := get_blob_size i in
  if blobSize =? 0 then Err (ErrorString "could not allocate byte array")
  else
    '(b, ret) ← zinfo_to_blob i blobSize;
    if ret <=? 0 then Err (ErrorString "could not serialize gzip zinfo to byte array")
    else Ok b.

Definition MaxSpanID (i : gzip_zinfo) : outcome SpanID := Ok (get_max_span_id i).

Definition SpanSize (i : gzip_zinfo) : outcome Offset := Ok (span_size i).

Definition UncompressedOffsetToSpanID (i : gzip_zinfo) (offset : Offset)
  : outcome SpanID := pt_index_from_ucmp_offset i offset.

Definition ExtractDataFromBuffer (i : gzip_zinfo) (compressedBuf : bytes)
    (uncompressedSize uncompressedOffset : Offset) (spanID : SpanID) : outcome bytes :=
  if zlen compressedBuf =? 0 then Err (ErrorString "empty compressed buffer")
  else if uncompressedSize <? 0 then Err (ErrorString "invalid uncompressed size")
  else if uncompressedSize =? 0 then Ok []
  else
    let '(ret, b) :=
      extract_data_from_buffer compressedBuf i uncompressedOffset uncompressedSize spanID in
    if ret <=? 0 then Err (ErrorString "error extracting data") else Ok b.

Definition ExtractDataFromFile (i : gzip_zinfo) (fs : files) (fileName : string)
    (uncompressedSize uncompressedOffset : Offset) : outcome bytes :=
  if uncompressedSize <? 0 then Err (ErrorString "invalid uncompressed size")
  else if uncompressedSize =? 0 then Ok []
  else
    let '(ret, b) :=
      extract_data_from_file (fs !! fileName) i uncompressedOffset
        (int32 uncompressedSize) in
    if ret <=? 0 then Err (ErrorString "unable to extract data") else Ok b.

Definition getCompressedOffset (i : gzip_zinfo) (spanID : SpanID) : outcome Offset :=
  get_comp_off i spanID.
Definition getUncompressedOffset (i : gzip_zinfo) (spanID : SpanID) : outcome Offset :=
  get_ucomp_off i spanID.
Definition hasBits (i : gzip_zinfo) (spanID : SpanID) : outcome bool := has_bits i spanID.

Definition StartCompressedOffset (i : gzip_zinfo) (spanID : SpanID) : outcome Offset :=
  start ← getCompressedOffset i spanID;
  b ← hasBits i spanID;
  Ok (if b : bool then int64 (start - 1) else start).

Definition EndCompressedOffset (i : gzip_zinfo) (spanID : SpanID) (fileSize : Offset)
  : outcome Offset :=
  m ← MaxSpanID i;
  if spanID =? m then Ok fileSize else getCompressedOffset i (int32 (spanID + 1)).

Definition StartUncompressedOffset (i : gzip_zinfo) (spanID : SpanID) : outcome Offset :=
  getUncompressedOffset i spanID.

Definition EndUncompressedOffset (i : gzip_zinfo) (spanID : SpanID) (fileSize : Offset)
  : outcome Offset :=
  m ← MaxSpanID i;
  if spanID =? m then Ok fileSize else getUncompressedOffset i (int32 (spanID + 1)).

Definition VerifyHeader (i : gzip_zinfo) (r : bytes) : outcome unit :=
  match gzip_header_ok r with None => Ok tt | Some e => Err e end.

#[global] Instance zinfo : Zinfo gzip_zinfo := {|
  Compression.ExtractDataFromBuffer := ExtractDataFromBuffer;
  Compression.ExtractDataFromFile := ExtractDataFromFile;
  Compression.Bytes := Bytes;
  Compression.MaxSpanID := MaxSpanID;
  Compression.SpanSize := SpanSize;
  Compression.UncompressedOffsetToSpanID := UncompressedOffsetToSpanID;
  Compression.StartCompressedOffset := StartCompressedOffset;
  Compression.EndCompressedOffset := EndCompressedOffset;
  Compression.StartUncompressedOffset := StartUncompressedOffset;
  Compression.EndUncompressedOffset := EndUncompressedOffset;
  Compression.VerifyHeader := VerifyHeader
|}.
End gzip.
End GzipZinfo.

(** ** [zinfo.go]: dispatch on the compression algorithm *)
Inductive AnyZinfo := ZGzip (z : gzip_zinfo) | ZTar (z : TarZinfo.t).

#[global] Instance any_zinfo `{GzipC, TarZinfoFlatbuf} : Zinfo AnyZinfo := {|
  Compression.ExtractDataFromBuffer z := match z with
    | ZGzip z => ExtractDataFromBuffer z | ZTar z => ExtractDataFromBuffer z end;
  Compression.ExtractDataFromFile z := match z with
    | ZGzip z => ExtractDataFromFile z | ZTar z => ExtractDataFromFile z end;
  Compression.Bytes z := match z with ZGzip z => Bytes z | ZTar z => Bytes z end;
  Compression.MaxSpanID z := match z with ZGzip z => MaxSpanID z | ZTar z => MaxSpanID z end;
  Compression.SpanSize z := match z with ZGzip z => SpanSize z | ZTar z => SpanSize z end;
  Compression.UncompressedOffsetToSpanID z := match z with
    | ZGzip z => UncompressedOffsetToSpanID z | ZTar z => UncompressedOffsetToSpanID z end;
  Compression.StartCompressedOffset z := match z with
    | ZGzip z => StartCompressedOffset z | ZTar z => StartCompressedOffset z end;
  Compression.EndCompressedOffset z := match z with
    | ZGzip z => EndCompressedOffset z | ZTar z => EndCompressedOffset z end;
  Compression.StartUncompressedOffset z := match z with
    | ZGzip z => StartUncompressedOffset z | ZTar z => StartUncompressedOffset z end;
  Compression.EndUncompressedOffset z := match z with
    | ZGzip z => EndUncompressedOffset z | ZTar z => EndUncompressedOffset z end;
  Compression.VerifyHeader z := match z with
    | ZGzip z => VerifyHeader z | ZTar z => VerifyHeader z end
|}.

Definition NewZinfo `{GzipC, TarZinfoFlatbuf} (compressionAlgo : string)
    (zinfoBytes : bytes) : outcome AnyZinfo :=
  if String.eqb compressionAlgo Gzip then ZGzip <$> GzipZinfo.newGzipZinfo zinfoBytes
  else if String.eqb compressionAlgo Zstd then Err (ErrorString "not implemented: zstd")
  else if String.eqb compressionAlgo Uncompressed || String.eqb compressionAlgo Unknown
  then ZTar <$> TarZinfo.newTarZinfo zinfoBytes
  else Err (ErrorString "unexpected compression algorithm").

Definition NewZinfoFromFile `{GzipC, TarZinfoFlatbuf} (fs : files)
    (compressionAlgo : string) (filename : string) (spanSize : Z) : outcome AnyZinfo :=
  if String.eqb compressionAlgo Gzip
  then ZGzip <$> GzipZinfo.newGzipZinfoFromFile fs filename spanSize
  else if String.eqb compressionAlgo Zstd then Err (ErrorString "not implemented: zstd")
  else if String.eqb compressionAlgo Uncompressed
  then ZTar <$> TarZinfo.newTarZinfoFromFile fs filename spanSize
  else Err (ErrorString "unexpected compression algorithm").

(** ** Facts *)
#[local] Opaque WINSIZE.

#[global] Instance gzip_checkpoint_inhabited : Inhabited gzip_checkpoint :=
  populate (mkCheckpoint 0 0 0 []).

Lemma PACKED_eq : PACKED_CHECKPOINT_SIZE = 17 + WINSIZE.
Proof. unfold PACKED_CHECKPOINT_SIZE. lia. Qed.
Lemma WINSIZE_eq : WINSIZE = 32768.
Proof. reflexivity. Qed.

(** The search loop returns the last index whose successors up to it start at or
    before the offset. *)
Lemma pt_index_loop_spec off ret here res :
  (ret < length here)%nat →
  ∃ j : nat, pt_index_loop off ret here res = Ok (res + Z.of_nat j) ∧ (j ≤ ret)%nat ∧
    (∀ m, (1 ≤ m ≤ j)%nat → out (here !!! m) ≤ off) ∧
    ((j < ret)%nat → off < out (here !!! S j)).
Proof.
  revert here res. induction ret as [|ret IH]; intros here res Hlen; simpl.
  { exists 0%nat. rewrite Z.add_0_r. split_and!; [done|lia|lia|lia]. }
  destruct here as [|c0 [|c1 here]]; [simpl in Hlen; lia..|].
  destruct (Z.leb_spec (out c1) off) as [Hle|Hgt].
  - destruct (IH (c1 :: here) (res + 1)) as (j & -> & Hj & Hbefore & Hafter);
      [simpl in *; lia|].
    exists (S j). split_and!; [f_equal; lia|lia| |].
    + intros [|[|m]] Hm; [lia|done|]. apply (Hbefore (S m)). lia.
    + intros Hlt. apply Hafter. lia.
  - exists 0%nat. rewrite Z.add_0_r. split_and!; [done|lia|lia|done].
Qed.

(** A gzip zinfo that describes a layer. *)
Section describes.
Context `{GzipC} (z : gzip_zinfo) (comp uncomp : bytes).

Definition cp (i : Z) : gzip_checkpoint := list_ z !!! Z.to_nat i.
Definition gz_n : Z := have z - 1.
Definition gz_su (i : Z) : Z := out (cp i).
Definition gz_sc (i : Z) : Z := if bits (cp i) =? 0 then in_ (cp i) else in_ (cp i) - 1.
Definition gz_ec (i : Z) : Z := if i =? gz_n then zlen comp else in_ (cp (i + 1)).

Record gz_describes : Prop := {
  gd_have : have z = zlen (list_ z);
  gd_range : 0 < have z < 2 ^ 31;
  gd_first : gz_su 0 = 0;
  gd_mono i : 0 ≤ i < gz_n → gz_su i < gz_su (i + 1);
  gd_last : gz_su gz_n ≤ zlen uncomp;
  gd_comp i : 0 ≤ i ≤ gz_n → 0 ≤ gz_sc i < gz_ec i ∧ gz_ec i ≤ zlen comp;
  gd_fits : zlen comp < 2 ^ 63;
  gd_inflate i j a b : 0 ≤ i ≤ j → j ≤ gz_n →
    gz_su i ≤ a < b → b ≤ span_end gz_su gz_n (zlen uncomp) j →
    extract_data_from_buffer (sub (gz_sc i) (gz_ec j) comp) z a (b - a) i
    = (b - a, sub a b uncomp)
}.

Context (Hd : gz_describes).

Lemma gz_index i : 0 ≤ i ≤ gz_n → index (list_ z) i = Ok (cp i).
Proof.
  intros Hi. unfold gz_n in Hi. destruct Hd as [Hh Hr _ _ _ _ _ _].
  apply index_ok; [lia|]. apply list_lookup_lookup_total_lt.
  unfold zlen in Hh. lia.
Qed.

Lemma gz_max : get_max_span_id z = gz_n.
Proof.
  destruct Hd as [Hh Hr _ _ _ _ _ _]. apply int32_id. unfold in_int32, gz_n. lia.
Qed.

Lemma gz_next i : 0 ≤ i < gz_n → int32 (i + 1) = i + 1.
Proof.
  intros Hi. unfold gz_n in Hi. destruct Hd as [Hh Hr _ _ _ _ _ _].
  apply int32_id. unfold in_int32. lia.
Qed.

Lemma gz_startC i : 0 ≤ i ≤ gz_n → GzipZinfo.StartCompressedOffset z i = Ok (gz_sc i).
Proof.
  intros Hi. pose proof (gd_comp Hd i Hi) as Hc. pose proof (gd_fits Hd).
  unfold GzipZinfo.StartCompressedOffset, GzipZinfo.getCompressedOffset, get_comp_off,
    GzipZinfo.hasBits, has_bits.
  rewrite gz_index by done. unfold gz_n in Hi.
  destruct (Z.leb_spec (have z) i); [lia|]. simpl. unfold gz_sc in *.
  destruct (Z.eqb_spec (bits (cp i)) 0); simpl; [done|].
  rewrite int64_id; [done|]. unfold in_int64. lia.
Qed.

Lemma gz_endC i : 0 ≤ i ≤ gz_n →
  GzipZinfo.EndCompressedOffset z i (zlen comp) = Ok (gz_ec i).
Proof.
  intros Hi. unfold GzipZinfo.EndCompressedOffset, GzipZinfo.MaxSpanID, gz_ec.
  simpl. rewrite gz_max. destruct (Z.eqb_spec i gz_n); [done|].
  rewrite gz_next by lia. unfold GzipZinfo.getCompressedOffset, get_comp_off.
  by rewrite gz_index by lia.
Qed.

Lemma gz_endU i total : 0 ≤ i ≤ gz_n →
  GzipZinfo.EndUncompressedOffset z i total = Ok (span_end gz_su gz_n total i).
Proof.
  intros Hi. unfold GzipZinfo.EndUncompressedOffset, GzipZinfo.MaxSpanID, span_end.
  simpl. rewrite gz_max. destruct (Z.eqb_spec i gz_n); [done|].
  rewrite gz_next by lia. unfold GzipZinfo.getUncompressedOffset, get_ucomp_off.
  by rewrite gz_index by lia.
Qed.

Lemma gz_find off : 0 ≤ off → ∃ k,
  pt_index_from_ucmp_offset z off = Ok k ∧ 0 ≤ k ≤ gz_n ∧
  gz_su k ≤ off ∧ (k < gz_n → off < gz_su (k + 1)).
Proof.
  intros Hoff. destruct Hd as [Hh Hr H0 _ _ _ _ _].
  unfold pt_index_from_ucmp_offset. destruct (Z.leb_spec (have z) 0); [lia|].
  destruct (pt_index_loop_spec off (Z.to_nat (have z - 1)) (list_ z) 0)
    as (j & -> & Hj & Hle & Hgt); [rewrite Hh; unfold zlen in *; lia|].
  exists (Z.of_nat j). unfold gz_n. split_and!; [done|lia|lia| |].
  - destruct j as [|j]; [change (Z.of_nat 0) with 0; lia|].
    unfold gz_su, cp. rewrite Nat2Z.id. apply Hle. lia.
  - intros Hlt. unfold gz_su, cp.
    replace (Z.to_nat (Z.of_nat j + 1)) with (S j) by lia. apply Hgt. lia.
Qed.

Lemma gz_ec_mono i : 0 ≤ i < gz_n → gz_ec i ≤ gz_ec (i + 1).
Proof.
  intros Hi. destruct (gd_comp Hd (i + 1)) as [H1 H2]; [lia|].
  unfold gz_ec at 1. destruct (Z.eqb_spec i gz_n); [lia|].
  unfold gz_sc in H1. destruct (bits (cp (i + 1)) =? 0); lia.
Qed.

Lemma gz_ec_le i j : 0 ≤ i ≤ j → j ≤ gz_n → gz_ec i ≤ gz_ec j.
Proof.
  apply (Z_mono_steps gz_ec 0 gz_n). apply gz_ec_mono.
Qed.

(** A gzip zinfo satisfies the laws of the interface. *)
Lemma gz_laws : ZinfoLaws z comp uncomp gz_n gz_su gz_sc gz_ec.
Proof.
  pose proof Hd as [Hh Hr H0 Hm Hl Hc Hf Hi].
  split; simpl; try done.
  - unfold gz_n. lia.
  - unfold GzipZinfo.MaxSpanID. by rewrite gz_max.
  - intros i ?. unfold GzipZinfo.StartUncompressedOffset,
      GzipZinfo.getUncompressedOffset, get_ucomp_off. by rewrite gz_index.
  - intros. by apply gz_endU.
  - apply gz_startC.
  - apply gz_endC.
  - intros i ?. destruct (Hc i); [done|lia].
  - intros i ?. destruct (Hc i); [lia|lia].
  - intros off ?. apply gz_find. lia.
  - intros i ?. by apply gz_ec_mono.
  - intros i j a b ? ? ? ?. destruct (Hc i) as [? ?]; [lia|].
    pose proof (gz_ec_le i j ltac:(lia) ltac:(lia)). destruct (Hc j) as [? ?]; [lia|].
    unfold GzipZinfo.ExtractDataFromBuffer.
    rewrite zlen_sub by lia. rewrite Hi by done. zcases.
Qed.
End describes.

(** ** Serialisation *)
Definition checkpoint_wf (c : gzip_checkpoint) : Prop :=
  in_int64 (out c) ∧ in_int64 (in_ c) ∧ 0 ≤ bits c < 256 ∧ zlen (window c) = WINSIZE.

Record zinfo_wf (z : gzip_zinfo) : Prop := {
  zw_size : size z = have z;
  zw_have : have z = zlen (list_ z);
  zw_fits : PACKED_CHECKPOINT_SIZE * have z + BLOB_HEADER_SIZE < 2 ^ 31;
  zw_span : in_int64 (span_size z);
  zw_list : Forall checkpoint_wf (list_ z);
  zw_version : version z = ZINFO_VERSION_CUR ∨
    (version z = ZINFO_VERSION_ONE ∧ head (list_ z) = Some v1_checkpoint)
}.

Lemma le_int n (z : Z) :
  (0 < n)%nat → - 2 ^ (8 * Z.of_nat n - 1) ≤ z < 2 ^ (8 * Z.of_nat n - 1) →
  wrap_s (8 * Z.of_nat n) (le_dec (le_enc n z)) = z.
Proof.
  intros Hn Hz. rewrite le_dec_enc. unfold wrap_s.
  replace (256 ^ Z.of_nat n) with (2 ^ (8 * Z.of_nat n)).
  2:{ rewrite Z.pow_mul_r by lia. done. }
  rewrite Zplus_mod_idemp_l. apply (wrap_s_small (8 * Z.of_nat n)); lia.
Qed.

Lemma int64_le z : in_int64 z → int64 (le_dec (le_enc 8 z)) = z.
Proof. intros H. apply (le_int 8); unfold in_int64 in H; lia. Qed.
Lemma int32_le z : in_int32 z → int32 (le_dec (le_enc 4 z)) = z.
Proof. intros H. apply (le_int 4); unfold in_int32 in H; lia. Qed.

Lemma zlen_pack c : checkpoint_wf c → zlen (pack_checkpoint c) = PACKED_CHECKPOINT_SIZE.
Proof.
  intros (_ & _ & _ & Hw). unfold pack_checkpoint. autorewrite with golist.
  rewrite Hw, PACKED_eq. unfold zlen. rewrite !length_le_enc. lia.
Qed.

Lemma sub_mid {A} (a b c : list A) lo hi l :
  l = a ++ b ++ c → lo = zlen a → hi = lo + zlen b → sub lo hi l = b.
Proof.
  intros -> -> ->. unfold sub, zlen.
  rewrite drop_app_length' by lia. apply take_app_length'. lia.
Qed.

Lemma unpack_pack c rest :
  checkpoint_wf c → unpack_checkpoint (pack_checkpoint c ++ rest) = c.
Proof.
  intros (Hout & Hin & Hbits & Hw). unfold unpack_checkpoint, pack_checkpoint.
  assert (zlen (le_enc 8 (in_ c)) = 8) as L1 by (unfold zlen; by rewrite length_le_enc).
  assert (zlen (le_enc 8 (out c)) = 8) as L2 by (unfold zlen; by rewrite length_le_enc).
  assert (zlen (le_enc 1 (bits c)) = 1) as L3 by (unfold zlen; by rewrite length_le_enc).
  set (a := le_enc 8 (in_ c)) in *. set (b := le_enc 8 (out c)) in *.
  set (d := le_enc 1 (bits c)) in *.
  rewrite (sub_mid a b (d ++ window c ++ rest) 8 16 _) by (rewrite <-?app_assoc; done || lia).
  rewrite (sub_mid [] a (b ++ d ++ window c ++ rest) 0 8 _)
    by (rewrite <-?app_assoc; done || lia).
  rewrite (sub_mid (a ++ b) d (window c ++ rest) 16 17 _)
    by (rewrite <-?app_assoc, ?zlen_app; done || lia).
  rewrite (sub_mid (a ++ b ++ d) (window c) rest 17 PACKED_CHECKPOINT_SIZE _)
    by (rewrite <-?app_assoc, ?zlen_app, ?PACKED_eq; done || lia).
  subst a b d. rewrite !int64_le by done.
  rewrite le_dec_enc, Z.mod_small by (simpl; lia). by destruct c.
Qed.

Lemma read_pack_all cs rest :
  Forall checkpoint_wf cs →
  read_checkpoints (length cs) (concat (pack_checkpoint <$> cs) ++ rest) = Ok cs.
Proof.
  intros Hall. revert rest. induction Hall as [|c cs Hc Hcs IH]; intros rest; [done|].
  cbn [length read_checkpoints fmap list_fmap concat]. rewrite <-app_assoc.
  pose proof (zlen_pack c Hc) as Hlen.
  rewrite zlen_app, Hlen.
  destruct (Z.ltb_spec (PACKED_CHECKPOINT_SIZE + zlen (concat (pack_checkpoint <$> cs) ++ rest))
    PACKED_CHECKPOINT_SIZE) as [Hlt|_].
  { pose proof (zlen_nonneg (concat (pack_checkpoint <$> cs) ++ rest)). lia. }
  rewrite drop_app_length' by (unfold zlen in Hlen; lia).
  rewrite IH, unpack_pack by done. done.
Qed.

Lemma zlen_pack_all cs :
  Forall checkpoint_wf cs →
  zlen (concat (pack_checkpoint <$> cs)) = PACKED_CHECKPOINT_SIZE * zlen cs.
Proof.
  induction 1 as [|c cs Hc Hcs IH]; [change (0 = PACKED_CHECKPOINT_SIZE * 0); lia|].
  rewrite fmap_cons. cbn [concat].
  rewrite zlen_app, zlen_cons, IH, zlen_pack by done. lia.
Qed.

(** The blob of [k] checkpoints, [cs] of them written out. *)
Definition blob (k span : Z) (cs : list gzip_checkpoint) : bytes :=
  le_enc 4 k ++ le_enc 8 span ++ concat (pack_checkpoint <$> cs).

Lemma zlen_blob k span cs :
  Forall checkpoint_wf cs →
  zlen (blob k span cs) = PACKED_CHECKPOINT_SIZE * zlen cs + BLOB_HEADER_SIZE.
Proof.
  intros Hcs. unfold blob. rewrite !zlen_app, zlen_pack_all by done.
  unfold zlen at 1 2. rewrite !length_le_enc. unfold BLOB_HEADER_SIZE. lia.
Qed.

Lemma blob_fields k span cs :
  sub 0 4 (blob k span cs) = le_enc 4 k ∧
  sub 4 12 (blob k span cs) = le_enc 8 span ∧
  drop (Z.to_nat BLOB_HEADER_SIZE) (blob k span cs) = concat (pack_checkpoint <$> cs).
Proof.
  unfold blob. set (rest := concat _).
  assert (zlen (le_enc 4 k) = 4) as L1 by (unfold zlen; by rewrite length_le_enc).
  assert (zlen (le_enc 8 span) = 8) as L2 by (unfold zlen; by rewrite length_le_enc).
  split_and!.
  - by apply (sub_mid [] (le_enc 4 k) (le_enc 8 span ++ rest)).
  - by apply (sub_mid (le_enc 4 k) (le_enc 8 span) rest); [|lia|lia].
  - rewrite app_assoc. apply drop_app_length'.
    rewrite length_app, !length_le_enc. done.
Qed.

(** Decoding a blob that carries all or all but the first checkpoint. *)
Lemma blob_to_zinfo_blob k span cs :
  Forall checkpoint_wf cs → in_int64 span → 0 ≤ k →
  PACKED_CHECKPOINT_SIZE * k + BLOB_HEADER_SIZE < 2 ^ 31 →
  blob_to_zinfo (blob k span cs) =
    if zlen cs =? k then Ok (Some (mkZinfo ZINFO_VERSION_CUR k k cs span))
    else if zlen cs =? k - 1
    then Ok (Some (mkZinfo ZINFO_VERSION_ONE k k (v1_checkpoint :: cs) span))
    else Ok None.
Proof.
  intros Hcs Hspan Hk Hfit. unfold blob_to_zinfo. rewrite zlen_blob by done.
  pose proof (zlen_nonneg cs). pose proof PACKED_eq as HP. pose proof WINSIZE_eq as HW.
  set (P := PACKED_CHECKPOINT_SIZE) in *.
  destruct (Z.ltb_spec (P * zlen cs + BLOB_HEADER_SIZE) BLOB_HEADER_SIZE); [nia|].
  destruct (blob_fields k span cs) as (-> & -> & ->).
  assert (0 ≤ k < 2 ^ 31) by (unfold BLOB_HEADER_SIZE in Hfit; nia).
  rewrite int32_le, int64_le, (uint32_id k)
    by (unfold in_int32, in_uint32 || idtac; done || lia).
  rewrite uint32_id by (unfold in_uint32, BLOB_HEADER_SIZE in *; nia).
  pose proof (read_pack_all cs [] Hcs) as Hr. rewrite app_nil_r in Hr.
  destruct (Z.eqb_spec (P * k + BLOB_HEADER_SIZE) (P * zlen cs + BLOB_HEADER_SIZE)) as [E|E].
  - assert (zlen cs = k) as Hzk by nia. rewrite Hzk, Z.eqb_refl.
    destruct (Z.ltb_spec k 0); [lia|].
    replace (Z.to_nat k) with (length cs) by (unfold zlen in Hzk; lia).
    rewrite Hr. done.
  - destruct (Z.eqb_spec (zlen cs) k) as [Hz|Hne]; [congruence|].
    destruct (Z.eqb_spec (P * k + BLOB_HEADER_SIZE - P) (P * zlen cs + BLOB_HEADER_SIZE)) as [E'|E'].
    + assert (zlen cs = k - 1) as Hzk by nia. rewrite Hzk, Z.eqb_refl.
      destruct (Z.ltb_spec k 0); [lia|].
      replace (Z.to_nat (k - 1)) with (length cs) by (unfold zlen in Hzk; lia).
      rewrite Hr. done.
    + destruct (Z.eqb_spec (zlen cs) (k - 1)); [nia|done].
Qed.

(** Encoding writes exactly [get_blob_size] bytes. *)
Lemma Bytes_blob `{GzipC} z cs :
  packed_checkpoints z = Ok cs → Forall checkpoint_wf cs →
  get_blob_size z = PACKED_CHECKPOINT_SIZE * zlen cs + BLOB_HEADER_SIZE →
  get_blob_size z < 2 ^ 31 →
  GzipZinfo.Bytes z = Ok (blob (have z) (span_size z) cs).
Proof.
  intros Hp Hcs Hsz Hfit. pose proof (zlen_nonneg cs). pose proof PACKED_eq.
  pose proof WINSIZE_eq.
  unfold GzipZinfo.Bytes, zinfo_to_blob. rewrite Hp. cbn [mbind outcome_bind].
  change (le_enc 4 (have z) ++ _) with (blob (have z) (span_size z) cs).
  rewrite zlen_blob by done. rewrite <-Hsz. rewrite int32_id.
  2:{ unfold in_int32, BLOB_HEADER_SIZE in *. nia. }
  destruct (Z.eqb_spec (get_blob_size z) 0); [unfold BLOB_HEADER_SIZE in *; nia|].
  rewrite Z.ltb_irrefl, Z.sub_diag. cbn [mbind outcome_bind Z.to_nat replicate].
  destruct (Z.leb_spec (get_blob_size z) 0); [unfold BLOB_HEADER_SIZE in *; nia|].
  by rewrite app_nil_r.
Qed.

(** Which checkpoints [zinfo_to_blob] writes out. *)
Lemma packed_checkpoints_cases z :
  zinfo_wf z → ∃ cs, packed_checkpoints z = Ok cs ∧
    ((version z = ZINFO_VERSION_CUR ∧ cs = list_ z ∧ zlen cs = have z) ∨
     (version z = ZINFO_VERSION_ONE ∧ list_ z = v1_checkpoint :: cs ∧ zlen cs = have z - 1)).
Proof.
  intros [_ Hh _ _ _ Hv]. unfold packed_checkpoints. rewrite Hh.
  destruct Hv as [->|[-> Hhd]]; simpl.
  - exists (list_ z). split; [|by left]. destruct (Z.leb_spec (zlen (list_ z)) 0).
    + destruct (list_ z) as [|c l]; [done|]. rewrite zlen_cons in *.
      pose proof (zlen_nonneg l). lia.
    + rewrite Z.leb_refl, sub_full. done.
  - destruct (list_ z) as [|c0 cs]; [done|]. injection Hhd as ->. exists cs.
    rewrite zlen_cons. split; [|right; split_and!; [done..|lia]].
    destruct (Z.leb_spec (zlen cs + 1) 1).
    + destruct cs as [|c l]; [done|]. rewrite zlen_cons in *. pose proof (zlen_nonneg l). lia.
    + rewrite Z.leb_refl. unfold sub. change (Z.to_nat 1) with 1%nat.
      rewrite skipn_cons, drop_0, take_ge; [done|]. unfold zlen. lia.
Qed.

Lemma get_blob_size_eq z (cs : list gzip_checkpoint) :
  zinfo_wf z → 0 ≤ have z →
  (version z = ZINFO_VERSION_CUR ∧ zlen cs = have z ∨
   version z = ZINFO_VERSION_ONE ∧ zlen cs = have z - 1) →
  get_blob_size z = PACKED_CHECKPOINT_SIZE * zlen cs + BLOB_HEADER_SIZE ∧
  get_blob_size z < 2 ^ 31.
Proof.
  intros [Hsz _ Hf _ _ _] Hh Hcs. pose proof (zlen_nonneg cs).
  pose proof PACKED_eq as HP. pose proof WINSIZE_eq as HW.
  rewrite HW in HP. unfold BLOB_HEADER_SIZE in *. rewrite HP in Hf |- *.
  assert (in_uint32 (have z)) by (unfold in_uint32; lia).
  unfold get_blob_size. rewrite Hsz, (uint32_id (have z)) by done.
  rewrite HP. unfold BLOB_HEADER_SIZE.
  destruct Hcs as [[-> Hlen]|[-> Hlen]]; simpl Z.eqb; cbv iota.
  - rewrite Hlen, uint32_id; unfold in_uint32; lia.
  - rewrite (uint32_id (have z - 1)) by (unfold in_uint32 in *; lia).
    rewrite Hlen, uint32_id; unfold in_uint32 in *; lia.
Qed.

(** C29: a well formed gzip zinfo survives [Bytes] and [newGzipZinfo], both format
    versions included. *)
Theorem gzip_zinfo_roundtrip `{GzipC} z :
  zinfo_wf z → ∃ b, GzipZinfo.Bytes z = Ok b ∧ GzipZinfo.newGzipZinfo b = Ok z.
Proof.
  intros Hwf. destruct (packed_checkpoints_cases z Hwf) as (cs & Hp & Hcs).
  pose proof Hwf as [Hsz Hh Hf Hs Hl _]. pose proof (zlen_nonneg (list_ z)).
  destruct (get_blob_size_eq z cs Hwf) as [Hbs Hbf];
    [lia|by destruct Hcs as [(? & _ & ?)|(? & _ & ?)]; [left|right]|].
  assert (Forall checkpoint_wf cs) as Hcwf.
  { destruct Hcs as [(_ & -> & _)|(_ & E & _)]; [done|].
    rewrite E in Hl. by apply Forall_cons_1 in Hl as [_ ?]. }
  exists (blob (have z) (span_size z) cs). split; [by apply Bytes_blob|].
  unfold GzipZinfo.newGzipZinfo. rewrite zlen_blob, <-Hbs by done.
  destruct (Z.eqb_spec (get_blob_size z) 0) as [E|_].
  { pose proof PACKED_eq. pose proof WINSIZE_eq. pose proof (zlen_nonneg cs).
    unfold BLOB_HEADER_SIZE in *. nia. }
  rewrite blob_to_zinfo_blob by (done || lia).
  destruct z as [v h sz l ss]; simpl in *; subst sz.
  destruct Hcs as [(-> & -> & ->)|(-> & -> & ->)]; [by rewrite Z.eqb_refl|].
  destruct (Z.eqb_spec (h - 1) h); [lia|]. by rewrite Z.eqb_refl.
Qed.

Lemma read_checkpoints_in_bounds k cur :
  PACKED_CHECKPOINT_SIZE * Z.of_nat k ≤ zlen cur →
  ∃ cs, read_checkpoints k cur = Ok cs ∧ length cs = k.
Proof.
  pose proof PACKED_eq as HP. pose proof WINSIZE_eq as HW.
  revert cur. induction k as [|k IH]; intros cur Hle; [by exists []|].
  cbn [read_checkpoints]. destruct (Z.ltb_spec (zlen cur) PACKED_CHECKPOINT_SIZE); [nia|].
  destruct (IH (drop (Z.to_nat PACKED_CHECKPOINT_SIZE) cur)) as (cs & -> & Hlen).
  { unfold zlen in *. rewrite length_drop. nia. }
  eexists. split; [done|]. cbn [length]. by rewrite Hlen.
Qed.

(** Number of checkpoints a blob claims to hold. *)
Definition blob_claim (buf : bytes) : Z := int32 (le_dec (sub 0 4 buf)).

(** As long as the claimed checkpoint count does not overflow the 32 bit size
    computation, [blob_to_zinfo] never reads outside the blob, and what it accepts has
    exactly the claimed number of checkpoints. *)
Theorem blob_to_zinfo_in_bounds buf :
  PACKED_CHECKPOINT_SIZE * blob_claim buf + BLOB_HEADER_SIZE < 2 ^ 32 →
  match blob_to_zinfo buf with
  | Ok (Some z) => have z = blob_claim buf ∧ zlen (list_ z) = blob_claim buf
  | Ok None => True
  | Err _ | Panic => False
  end.
Proof.
  intros Hfit. unfold blob_to_zinfo. fold (blob_claim buf).
  pose proof PACKED_eq as HP. pose proof WINSIZE_eq as HW. rewrite HW in HP.
  destruct (Z.ltb_spec (zlen buf) BLOB_HEADER_SIZE) as [|Hhdr]; [done|].
  set (k := blob_claim buf) in *. set (cur := drop _ buf).
  assert (zlen cur = zlen buf - BLOB_HEADER_SIZE) as Hcur.
  { unfold cur, zlen, BLOB_HEADER_SIZE in *. rewrite length_drop. lia. }
  destruct (Z.ltb_spec k 0); [by repeat case_match|].
  assert (uint32 (PACKED_CHECKPOINT_SIZE * uint32 k + BLOB_HEADER_SIZE)
          = PACKED_CHECKPOINT_SIZE * k + BLOB_HEADER_SIZE) as ->.
  { rewrite HP in *. unfold BLOB_HEADER_SIZE in *.
    rewrite (uint32_id k), uint32_id by (unfold in_uint32; lia). done. }
  destruct (Z.eqb_spec (PACKED_CHECKPOINT_SIZE * k + BLOB_HEADER_SIZE) (zlen buf)).
  - destruct (read_checkpoints_in_bounds (Z.to_nat k) cur) as (cs & -> & Hlen); [lia|].
    cbn. split; [done|]. unfold zlen. lia.
  - destruct (Z.eqb_spec (PACKED_CHECKPOINT_SIZE * k + BLOB_HEADER_SIZE
      - PACKED_CHECKPOINT_SIZE) (zlen buf)); [|done].
    assert (1 ≤ k) by (rewrite HP in *; unfold BLOB_HEADER_SIZE in *; lia).
    destruct (read_checkpoints_in_bounds (Z.to_nat (k - 1)) cur) as (cs & -> & Hlen); [lia|].
    split; [done|]. cbn [mbind outcome_bind list_]. rewrite zlen_cons. unfold zlen. lia.
Qed.

(** The size check of [blob_to_zinfo] is done modulo [2^32]: a 64,426 byte blob that
    claims 131,006 checkpoints passes it, and the read loop then leaves the blob. *)
Theorem blob_to_zinfo_overflow :
  ∃ buf, zlen buf = 64426 ∧ blob_claim buf = 131006 ∧ blob_to_zinfo buf = Panic.
Proof.
  exists (le_enc 4 131006 ++ le_enc 8 0 ++ replicate (Z.to_nat 64414) Byte.x00).
  split_and!; vm_compute; reflexivity.
Qed.

(** A blob of zero checkpoints is accepted, and every offset query on the result
    reads outside its table. *)
Theorem gzip_zero_checkpoints_accepted `{GzipC} :
  ∃ z, GzipZinfo.newGzipZinfo (replicate 12 Byte.x00) = Ok z ∧
    GzipZinfo.MaxSpanID z = Ok (-1) ∧
    (∀ i, GzipZinfo.StartCompressedOffset z i = Panic) ∧
    (∀ off, GzipZinfo.UncompressedOffsetToSpanID z off = Panic).
Proof.
  exists (mkZinfo ZINFO_VERSION_CUR 0 0 [] 0). split_and!; try reflexivity.
  intros i. unfold GzipZinfo.StartCompressedOffset, GzipZinfo.getCompressedOffset,
    get_comp_off, index. destruct (Z.leb_spec 0 i); done.
Qed.
