(* ===== verification/Ztoc.v ===== *)
(** * Ztoc: the table of contents of a layer

    Models [ztoc/tar.go] and [ztoc/ztoc.go]: file metadata, the tar block arithmetic,
    extended attributes, the lookup of a file by name and the extraction of a file
    from the spans that hold it. *)
From Stdlib Require Import ZArith Lia.
From stdpp Require Import base list gmap strings numbers.
From S2P Require Import Prelude GoLib Compression GzipZinfo.
#[local] Open Scope Z_scope.

(** ** [time.Time], as far as the code uses it *)
Class GoTime (Time : Type) := {
  #[global] time_eq_dec :: EqDecision Time;   (* [==] on the struct *)
  time_zero : Time;
  time_IsZero : Time → bool;
  time_Equal : Time → Time → bool;
  time_MarshalText : Time → option string;    (* [None]: an error *)
  time_UnmarshalText : string → option Time;
  time_GobEncode : Time → option bytes;
  time_GobDecode : bytes → option Time
}.

(** ** [tar.go] *)
Definition TarBlockSize : Z := 512.
Definition schilyXattrPrefix : string := "SCHILY.xattr.".

Definition AlignToTarBlock (o : Offset) : Offset :=
  let offset := Z.rem o TarBlockSize in
  if 0 <? offset then int64 (o + (TarBlockSize - offset)) else o.

(** [strings.HasPrefix] and [k[len(p):]] in one. *)
Fixpoint strip_prefix (p s : string) : option string :=
  match p, s with
  | EmptyString, _ => Some s
  | String a p', String b s' => if Ascii.eqb a b then strip_prefix p' s' else None
  | String _ _, EmptyString => None
  end.

Definition Xattrs (paxHeaders : gmap string string) : gmap string string :=
  map_fold (λ k v m,
    match strip_prefix schilyXattrPrefix k with
    | Some k' => <[k' := v]> m
    | None => m
    end) ∅ paxHeaders.

(** ** Modes ([os.FileMode] and [archive/tar]) *)
Definition ModeDir : Z := Z.shiftl 1 31.
Definition ModeSymlink : Z := Z.shiftl 1 27.
Definition ModeDevice : Z := Z.shiftl 1 26.
Definition ModeNamedPipe : Z := Z.shiftl 1 25.
Definition ModeSocket : Z := Z.shiftl 1 24.
Definition ModeSetuid : Z := Z.shiftl 1 23.
Definition ModeSetgid : Z := Z.shiftl 1 22.
Definition ModeCharDevice : Z := Z.shiftl 1 21.
Definition ModeSticky : Z := Z.shiftl 1 20.
Definition ModeIrregular : Z := Z.shiftl 1 19.
Definition ModePerm : Z := 511.
Definition ModeType : Z :=
  Z.lor ModeDir (Z.lor ModeSymlink (Z.lor ModeNamedPipe (Z.lor ModeSocket
    (Z.lor ModeDevice (Z.lor ModeCharDevice ModeIrregular))))).

(** Type flags are the ASCII codes of a tar header. *)
Definition TypeReg : Z := 48.
Definition TypeLink : Z := 49.
Definition TypeSymlink : Z := 50.
Definition TypeChar : Z := 51.
Definition TypeBlock : Z := 52.
Definition TypeDir : Z := 53.
Definition TypeFifo : Z := 54.

(** The set-id and sticky bits of a tar mode ([07000]) as [os.FileMode] bits. *)
Definition tar_special (mode : Z) : Z :=
  Z.lor (if Z.testbit mode 11 then ModeSetuid else 0)
    (Z.lor (if Z.testbit mode 10 then ModeSetgid else 0)
           (if Z.testbit mode 9 then ModeSticky else 0)).

(** [(&tar.Header{Mode, Typeflag}).FileInfo().Mode()]. *)
Definition tar_FileInfo_Mode (mode typeflag : Z) : Z :=
  let perm := Z.lor (Z.land (uint32 mode) ModePerm) (tar_special mode) in
  let m := Z.ldiff (uint32 mode) 4095 in
  let t :=
    if m =? 16384 then ModeDir else if m =? 4096 then ModeNamedPipe
    else if m =? 40960 then ModeSymlink else if m =? 24576 then ModeDevice
    else if m =? 8192 then Z.lor ModeDevice ModeCharDevice
    else if m =? 49152 then ModeSocket else 0 in
  let f :=
    if typeflag =? TypeSymlink then ModeSymlink
    else if typeflag =? TypeChar then Z.lor ModeDevice ModeCharDevice
    else if typeflag =? TypeBlock then ModeDevice
    else if typeflag =? TypeDir then ModeDir
    else if typeflag =? TypeFifo then ModeNamedPipe else 0 in
  Z.lor perm (Z.lor t f).

(** ** [ztoc.go]: data *)
Definition Version09 : string := "0.9".

Record FileMetadata (Time : Type) := mkFileMetadata {
  Name : string;
  Type_ : string;
  UncompressedOffset : Offset;
  UncompressedSize : Offset;
  TarHeaderOffset : Offset;
  Linkname : string;
  Mode : Z;
  UID : Z;
  GID : Z;
  Uname : string;
  Gname : string;
  ModTime : Time;
  Devmajor : Z;
  Devminor : Z;
  PAXHeaders : gmap string string
}.
Arguments mkFileMetadata {Time}.
Arguments Name {Time}.
Arguments Type_ {Time}.
Arguments UncompressedOffset {Time}.
Arguments UncompressedSize {Time}.
Arguments TarHeaderOffset {Time}.
Arguments Linkname {Time}.
Arguments Mode {Time}.
Arguments UID {Time}.
Arguments GID {Time}.
Arguments Uname {Time}.
Arguments Gname {Time}.
Arguments ModTime {Time}.
Arguments Devmajor {Time}.
Arguments Devminor {Time}.
Arguments PAXHeaders {Time}.

#[global] Instance FileMetadata_eq_dec `{EqDecision Time} : EqDecision (FileMetadata Time).
Proof. solve_decision. Defined.

Record CompressionInfo := mkCompressionInfo {
  MaxSpanID_ : SpanID;
  SpanDigests : list string;
  Checkpoints : bytes;
  CompressionAlgorithm : string
}.

(** The embedded [TOC] is its list of entries. *)
Record Ztoc (Time : Type) := mkZtoc {
  TOC : list (FileMetadata Time);
  CInfo : CompressionInfo;
  Version : string;
  BuildToolIdentifier : string;
  CompressedArchiveSize : Offset;
  UncompressedArchiveSize : Offset
}.
Arguments mkZtoc {Time}.
Arguments TOC {Time}.
Arguments CInfo {Time}.
Arguments Version {Time}.
Arguments BuildToolIdentifier {Time}.
Arguments CompressedArchiveSize {Time}.
Arguments UncompressedArchiveSize {Time}.

Record MetadataEntry := mkMetadataEntry { me_size : Offset; me_offset : Offset }.

(** ** [ztoc.go]: operations *)
Section ztoc.
Context {Time : Type} `{GoTime Time}.
Implicit Types (fm : FileMetadata Time) (toc : list (FileMetadata Time)).

Definition FileMode fm : Z :=
  let m := Z.land (tar_FileInfo_Mode (Mode fm) 0)
             (Z.lor ModePerm (Z.lor ModeSetuid (Z.lor ModeSetgid ModeSticky))) in
  let ty := Type_ fm in
  if String.eqb ty "dir" then Z.lor m ModeDir
  else if String.eqb ty "symlink" then Z.lor m ModeSymlink
  else if String.eqb ty "char" then Z.lor m (Z.lor ModeDevice ModeCharDevice)
  else if String.eqb ty "block" then Z.lor m ModeDevice
  else if String.eqb ty "fifo" then Z.lor m ModeNamedPipe
  else m.

(** [o.PAXHeaders[k] != v]: a missing key reads as the empty string. *)
Definition FileMetadata_Equal (src o : FileMetadata Time) : bool :=
  String.eqb (Name src) (Name o) && String.eqb (Type_ src) (Type_ o)
  && (UncompressedOffset src =? UncompressedOffset o)
  && (UncompressedSize src =? UncompressedSize o)
  && (TarHeaderOffset src =? TarHeaderOffset o)
  && String.eqb (Linkname src) (Linkname o)
  && (Mode src =? Mode o) && (UID src =? UID o) && (GID src =? GID o)
  && String.eqb (Uname src) (Uname o) && String.eqb (Gname src) (Gname o)
  && bool_decide (ModTime src = ModTime o)
  && (Devmajor src =? Devmajor o) && (Devminor src =? Devminor o)
  && (base.size (PAXHeaders src) =? base.size (PAXHeaders o))%nat
  && forallb (λ '(k, v), String.eqb (default "" (PAXHeaders o !! k)) v)
       (map_to_list (PAXHeaders src)).

Definition FileMetadata_Xattrs fm : gmap string string := Xattrs (PAXHeaders fm).

(** The loop: first entry with the name. *)
Fixpoint find_entry toc (filename : string) : option (FileMetadata Time) :=
  match toc with
  | [] => None
  | v :: toc' => if String.eqb (Name v) filename then Some v else find_entry toc' filename
  end.

(** The recursion through link names is bounded only by the links; [None] means it
    has not returned within [fuel] calls. *)
Fixpoint GetMetadataEntry (fuel : nat) toc (filename : string)
  : option (outcome MetadataEntry) :=
  match fuel with
  | O => None
  | S fuel' =>
      match find_entry toc filename with
      | None => Some (Err (ErrorString "file does not exist in metadata"))
      | Some v =>
          if String.eqb (Linkname v) "" then
            Some (Ok (mkMetadataEntry (UncompressedSize v) (UncompressedOffset v)))
          else GetMetadataEntry fuel' toc (Linkname v)
      end
  end.

Context `{GzipC, TarZinfoFlatbuf}.
Implicit Types (zt : Ztoc Time).

Definition Ztoc_Zinfo zt : outcome AnyZinfo :=
  NewZinfo (CompressionAlgorithm (CInfo zt)) (Checkpoints (CInfo zt)).

(** The [checkpoints] slice: start of the first span, then the end of each. *)
Fixpoint span_ends {T} `{Zinfo T} (zinfo : T) (total : Offset) (i : SpanID) (k : nat)
  : outcome (list Offset) :=
  match k with
  | O => Ok []
  | S k' =>
      e ← EndCompressedOffset zinfo i total;
      es ← span_ends zinfo total (int32 (i + 1)) k';
      Ok (e :: es)
  end.

Fixpoint nondecreasing (start : Offset) (ends : list Offset) : bool :=
  match ends with
  | [] => true
  | e :: ends' => (start <=? e) && nondecreasing e ends'
  end.

(** One goroutine of the fetch loop: read [start, end) of the layer. *)
Definition read_range (r : bytes) (rangeStart rangeEnd : Offset) : outcome bytes :=
  let '(got, err) := file_ReadAt r (rangeEnd - rangeStart) rangeStart in
  match err with
  | Some e =>
      if negb (errors_Is e io_EOF) then Err e
      else if zlen got =? rangeEnd - rangeStart then Ok got
      else Err (ErrorString "unexpected data size")
  | None =>
      if zlen got =? rangeEnd - rangeStart then Ok got
      else Err (ErrorString "unexpected data size")
  end.

Fixpoint read_ranges (r : bytes) (start : Offset) (ends : list Offset) : outcome bytes :=
  match ends with
  | [] => Ok []
  | e :: ends' =>
      b ← read_range r start e;
      bs ← read_ranges r e ends';
      Ok (b ++ bs)
  end.

(** [ExtractFile] once the zinfo is there. *)
Definition extract_with {T} `{Zinfo T} (zinfo : T) (total : Offset) (r : bytes)
    (entry : MetadataEntry) : outcome bytes :=
  spanStart ← UncompressedOffsetToSpanID zinfo (me_offset entry);
  spanEnd ← UncompressedOffsetToSpanID zinfo (int64 (me_offset entry + me_size entry));
  let numSpans := int32 (spanEnd - spanStart + 1) in
  if numSpans + 1 <? 0 then Panic else
  start ← StartCompressedOffset zinfo spanStart;
  ends ← span_ends zinfo total spanStart (Z.to_nat numSpans);
  (* [make] of a negative size, or a slice of [buf] whose bounds are reversed *)
  if negb (nondecreasing start ends) then Panic else
  buf ← read_ranges r start ends;
  ExtractDataFromBuffer zinfo buf (me_size entry) (me_offset entry) spanStart.

(** A zinfo error is swallowed: the code returns [nil, nil] ([Ok []] here). *)
Definition ExtractFile (fuel : nat) zt (r : bytes) (filename : string)
  : option (outcome bytes) :=
  match GetMetadataEntry fuel (TOC zt) filename with
  | None => None
  | Some (Err e) => Some (Err e)
  | Some Panic => Some Panic
  | Some (Ok entry) => Some (
      if me_size entry =? 0 then Ok []
      else match Ztoc_Zinfo zt with
      | Err _ => Ok []
      | Panic => Panic
      | Ok zinfo => extract_with zinfo (CompressedArchiveSize zt) r entry
      end)
  end.

Definition ExtractFromTarGz (fuel : nat) (fs : files) zt (gz filename : string)
  : option (outcome bytes) :=
  match GetMetadataEntry fuel (TOC zt) filename with
  | None => None
  | Some (Err e) => Some (Err e)
  | Some Panic => Some Panic
  | Some (Ok entry) => Some (
      if me_size entry =? 0 then Ok []
      else zinfo ← Ztoc_Zinfo zt;
           ExtractDataFromFile zinfo fs gz (me_size entry) (me_offset entry))
  end.
End ztoc.

(** ** Facts *)
Lemma AlignToTarBlock_spec o :
  0 ≤ o < 2 ^ 62 →
  o ≤ AlignToTarBlock o < o + TarBlockSize ∧ AlignToTarBlock o `mod` TarBlockSize = 0 ∧
  (∀ b, o ≤ b → b `mod` TarBlockSize = 0 → AlignToTarBlock o ≤ b).
Proof.
  intros Ho. unfold AlignToTarBlock, TarBlockSize. rewrite Z.rem_mod_nonneg by lia.
  pose proof (Z.mod_pos_bound o 512 ltac:(lia)). pose proof (Z.div_mod o 512 ltac:(lia)).
  destruct (Z.ltb_spec 0 (o `mod` 512)).
  - rewrite int64_id by (unfold in_int64; lia). split_and!; [lia|lia| |].
    + replace (o + (512 - o `mod` 512)) with ((o / 512 + 1) * 512) by lia.
      apply Z.mod_mul. lia.
    + intros b Hb Hm. pose proof (Z.div_mod b 512 ltac:(lia)). lia.
  - split_and!; lia.
Qed.

(** Looking a key up in the extended attributes looks the prefixed key up in the PAX
    records. *)
Lemma strip_prefix_app p s k : strip_prefix p k = Some s ↔ k = (p +:+ s)%string.
Proof.
  revert k. induction p as [|a p IH]; intros k; simpl.
  - split; [by intros [= ->]|by intros ->].
  - destruct k as [|b k]; [done|]. destruct (Ascii.eqb_spec a b) as [->|Hne].
    + rewrite IH. split; [by intros ->|by injection 1].
    + split; [done|]. intros Heq. injection Heq as Hab _. congruence.
Qed.

(** [Xattrs] keeps exactly the PAX records under the [SCHILY.xattr.] prefix, with
    the prefix stripped. *)
Lemma Xattrs_get m k :
  Xattrs m !! k = m !! (schilyXattrPrefix +:+ k)%string.
Proof.
  unfold Xattrs. revert k.
  apply (map_fold_weak_ind (λ r m, ∀ k, r !! k = m !! (schilyXattrPrefix +:+ k)%string)).
  { intros k. by rewrite !lookup_empty. }
  intros i x m' r Hi IH k.
  destruct (strip_prefix schilyXattrPrefix i) as [k'|] eqn:E.
  - apply strip_prefix_app in E as ->. destruct (decide (k' = k)) as [->|Hne].
    + by rewrite !lookup_insert_eq.
    + rewrite !lookup_insert_ne; [apply IH| |done].
      intros Heq. apply Hne. by apply (inj (String.append schilyXattrPrefix)) in Heq.
  - rewrite lookup_insert_ne; [apply IH|]. intros ->.
    assert (strip_prefix schilyXattrPrefix (schilyXattrPrefix +:+ k) = Some k) as E'
      by by apply strip_prefix_app. congruence.
Qed.

Section equal.
Context {Time : Type} `{GoTime Time}.

(** On metadata without empty PAX values, [Equal] decides equality. *)
Theorem FileMetadata_Equal_spec (src o : FileMetadata Time) :
  (∀ k, PAXHeaders src !! k ≠ Some "") →
  FileMetadata_Equal src o = true ↔ src = o.
Proof.
  intros Hne. unfold FileMetadata_Equal. split.
  - intros Hb. rewrite !andb_true_iff, !Z.eqb_eq, !String.eqb_eq, bool_decide_eq_true,
      Nat.eqb_eq, forallb_forall in Hb. destruct_and!.
    assert (PAXHeaders src = PAXHeaders o) as Hpax.
    { apply map_subseteq_size_eq; [|lia]. apply map_subseteq_spec. intros k v Hk.
      assert (In (k, v) (map_to_list (PAXHeaders src))) as Hin
        by by apply list_elem_of_In, elem_of_map_to_list.
      match goal with HF : ∀ _, In _ _ → _ |- _ => apply HF in Hin end.
      apply String.eqb_eq in Hin.
      destruct (PAXHeaders o !! k) as [w|] eqn:E; simpl in Hin; subst v; [done|].
      by destruct (Hne k). }
    destruct src, o; simpl in *. f_equal; assumption.
  - intros <-. rewrite !Z.eqb_refl, !String.eqb_refl, Nat.eqb_refl,
      (bool_decide_eq_true_2 (ModTime src = ModTime src)) by done. simpl.
    apply forallb_forall. intros [k v] Hin.
    apply list_elem_of_In, elem_of_map_to_list in Hin. rewrite Hin. apply String.eqb_refl.
Qed.

(** With an empty PAX value [Equal] is not symmetric: two records with different
    PAX headers compare equal one way round. *)
Theorem FileMetadata_Equal_asymmetric :
  ∃ src o : FileMetadata Time, src ≠ o ∧
    FileMetadata_Equal src o = true ∧ FileMetadata_Equal o src = false.
Proof.
  pose (mk h := mkFileMetadata "f" "reg" 512 0 0 "" 0 0 0 "" "" time_zero 0 0 h).
  exists (mk {["a" := ""]}), (mk {["b" := "x"]}). split_and!.
  - intros [=].
  - unfold FileMetadata_Equal. simpl. rewrite bool_decide_eq_true_2 by done. reflexivity.
  - unfold FileMetadata_Equal. simpl. rewrite bool_decide_eq_true_2 by done. reflexivity.
Qed.
End equal.

(** *** File modes *)

(** The type strings of [getType], by type flag. *)
Definition type_of_flag (flag : Z) : string :=
  if flag =? TypeLink then "hardlink" else if flag =? TypeSymlink then "symlink"
  else if flag =? TypeDir then "dir" else if flag =? TypeReg then "reg"
  else if flag =? TypeChar then "char" else if flag =? TypeBlock then "block" else "fifo".

Definition dummy_fm (m : Z) (ty : string) : FileMetadata unit :=
  mkFileMetadata "" ty 0 0 0 "" m 0 0 "" "" tt 0 0 ∅.

Lemma FileMode_dummy {Time} (fm : FileMetadata Time) :
  FileMode fm = FileMode (dummy_fm (Mode fm) (Type_ fm)).
Proof. done. Qed.

Lemma FileMode_table :
  forallb (λ m, forallb (λ f,
    FileMode (dummy_fm m (type_of_flag f)) =? tar_FileInfo_Mode m f)
    [TypeReg; TypeLink; TypeSymlink; TypeChar; TypeBlock; TypeDir; TypeFifo]) (seqZ 0 4096)
  = true.
Proof. vm_compute. reflexivity. Qed.

(** For a header whose mode holds permission and set-id bits only, the mode the ztoc
    entry yields is the mode the tar header yields, for each of the seven entry types. *)
Theorem FileMode_matches_tar {Time} (fm : FileMetadata Time) (flag : Z) :
  0 ≤ Mode fm < 4096 → TypeReg ≤ flag ≤ TypeFifo → Type_ fm = type_of_flag flag →
  FileMode fm = tar_FileInfo_Mode (Mode fm) flag.
Proof.
  intros Hm Hf Ht. rewrite FileMode_dummy, Ht.
  pose proof FileMode_table as Htab. rewrite forallb_forall in Htab.
  specialize (Htab (Mode fm)). rewrite forallb_forall in Htab.
  apply Z.eqb_eq, Htab.
  - apply list_elem_of_In, elem_of_seqZ. lia.
  - unfold TypeReg, TypeLink, TypeSymlink, TypeChar, TypeBlock, TypeDir, TypeFifo in *.
    simpl. lia.
Qed.

(** *** Looking files up *)
Section lookup.
Context {Time : Type}.
Implicit Types (toc : list (FileMetadata Time)).

Lemma GetMetadataEntry_mono fuel fuel' toc name r :
  GetMetadataEntry fuel toc name = Some r → (fuel ≤ fuel')%nat →
  GetMetadataEntry fuel' toc name = Some r.
Proof.
  revert fuel' name. induction fuel as [|fuel IH]; intros fuel' name Hr Hle; [done|].
  destruct fuel' as [|fuel']; [lia|]. simpl in *.
  destruct (find_entry toc name) as [v|]; [|done].
  destruct (String.eqb (Linkname v) ""); [done|]. apply IH; [done|lia].
Qed.

(** Every link names an entry closer to the front of the table, as tar hard links do:
    [rank] is the position of a name's entry. *)
Definition links_backward toc : Prop :=
  ∀ name v, find_entry toc name = Some v → Linkname v ≠ "" →
    ∀ pre w post, toc = pre ++ w :: post → find_entry pre name = None → Name w = name →
    ∃ u, find_entry pre (Linkname v) = Some u.

Lemma find_entry_app toc1 toc2 name :
  find_entry (toc1 ++ toc2) name =
    match find_entry toc1 name with Some v => Some v | None => find_entry toc2 name end.
Proof.
  induction toc1 as [|v toc1 IH]; simpl; [done|]. by destruct (String.eqb (Name v) name).
Qed.

Lemma find_entry_split toc name v :
  find_entry toc name = Some v →
  ∃ pre post, toc = pre ++ v :: post ∧ find_entry pre name = None ∧ Name v = name.
Proof.
  induction toc as [|w toc IH]; simpl; [done|].
  destruct (String.eqb_spec (Name w) name) as [Heq|Hne].
  - intros [= ->]. by exists [], toc.
  - intros (pre & post & -> & Hpre & Hn)%IH. exists (w :: pre), post. simpl.
    by destruct (String.eqb_spec (Name w) name).
Qed.

(** When links point backward, the lookup returns within one call per table entry
    (plus one), whatever the name. *)
Theorem GetMetadataEntry_terminates toc name :
  links_backward toc →
  is_Some (GetMetadataEntry (S (length toc)) toc name).
Proof.
  intros Hback.
  assert (∀ k pre post nm u, toc = pre ++ post → (length pre < k)%nat →
    find_entry pre nm = Some u → is_Some (GetMetadataEntry k toc nm)) as Hgen.
  { induction k as [|k IH]; intros pre post nm u Htoc Hlen Hu; [lia|]. simpl.
    rewrite Htoc at 1. rewrite find_entry_app, Hu.
    destruct (String.eqb_spec (Linkname u) "") as [|Hlink]; [by eexists|].
    destruct (find_entry_split _ _ _ Hu) as (pre1 & post1 & Hpre & Hnone & Hname).
    assert (toc = pre1 ++ u :: (post1 ++ post)) as Htoc'.
    { rewrite Htoc, Hpre, <-app_assoc. done. }
    destruct (Hback nm u) with (pre := pre1) (w := u) (post := post1 ++ post) as [u' Hu'];
      [by rewrite Htoc, find_entry_app, Hu|done..|].
    eapply (IH pre1 (u :: post1 ++ post)); [done| |done].
    rewrite Hpre, length_app in Hlen. simpl in Hlen. lia. }
  destruct (find_entry toc name) as [u|] eqn:Hu.
  - eapply (Hgen _ toc []); [by rewrite app_nil_r|lia|done].
  - simpl. rewrite Hu. by eexists.
Qed.

(** A table in which a link names itself sends the lookup into unbounded recursion. *)
Theorem GetMetadataEntry_self_link_diverges (fm : FileMetadata Time) fuel :
  Name fm ≠ "" → Linkname fm = Name fm → GetMetadataEntry fuel [fm] (Name fm) = None.
Proof.
  intros Hn Hl. induction fuel as [|fuel IH]; [done|]. simpl.
  rewrite String.eqb_refl. destruct (String.eqb_spec (Linkname fm) ""); [congruence|].
  by rewrite Hl.
Qed.

End lookup.

(** *** Extraction *)
Section extract.
Context `{HZ : Zinfo T} {zi : T} {comp uncomp : bytes} {n : Z} {su sc ec : Z → Z}.
Context {HL : ZinfoLaws zi comp uncomp n su sc ec}.

Lemma span_ends_spec (k : nat) i :
  0 ≤ i → i + Z.of_nat k ≤ n + 1 →
  span_ends zi (zlen comp) i k = Ok (ec <$> seqZ i (Z.of_nat k)).
Proof.
  pose proof (zl_n (ZinfoLaws:=HL)) as Hn.
  revert i. induction k as [|k IH]; intros i Hi Hk; [done|].
  cbn [span_ends]. rewrite (zl_endC (ZinfoLaws:=HL)) by lia. cbn [mbind outcome_bind].
  rewrite seqZ_cons by lia.
  destruct k as [|k]; [done|].
  rewrite int32_id by (unfold in_int32; lia). rewrite IH by lia.
  cbn [mbind outcome_bind]. rewrite fmap_cons. do 3 f_equal. f_equal; lia.
Qed.

Lemma read_range_spec a b :
  0 ≤ a ≤ b → b ≤ zlen comp → read_range comp a b = Ok (sub a b comp).
Proof.
  intros Ha Hb. unfold read_range, file_ReadAt.
  destruct (Z.ltb_spec a 0); [lia|].
  replace (a + (b - a)) with b by lia. rewrite zlen_sub by lia.
  rewrite Z.ltb_irrefl, Z.eqb_refl. done.
Qed.

Lemma read_ranges_spec (k : nat) i start :
  0 ≤ i → 0 ≤ start ≤ ec i → i + Z.of_nat k ≤ n →
  nondecreasing start (ec <$> seqZ i (Z.of_nat (S k))) = true ∧
  read_ranges comp start (ec <$> seqZ i (Z.of_nat (S k)))
  = Ok (sub start (ec (i + Z.of_nat k)) comp).
Proof.
  revert i start. induction k as [|k IH]; intros i start Hi Hs Hk.
  - destruct (zl_comp (ZinfoLaws:=HL) i) as [? ?]; [lia|].
    rewrite seqZ_cons by lia. simpl.
    rewrite read_range_spec by lia. simpl. rewrite app_nil_r, Z.add_0_r.
    split; [|done]. zcases.
  - destruct (zl_comp (ZinfoLaws:=HL) i) as [? ?]; [lia|].
    pose proof (zl_ec_mono (ZinfoLaws:=HL) i ltac:(lia)).
    rewrite seqZ_cons, fmap_cons by lia. cbn [nondecreasing read_ranges].
    replace (Z.pred (Z.of_nat (S (S k)))) with (Z.of_nat (S k)) by lia.
    destruct (IH (Z.succ i) (ec i)) as [-> ->]; [lia|unfold Z.succ; lia|lia|].
    rewrite read_range_spec by lia. cbn [mbind outcome_bind].
    assert (ec i ≤ ec (Z.succ i + Z.of_nat k)).
    { apply (Z_mono_steps ec 0 n); [apply (zl_ec_mono (ZinfoLaws:=HL))|lia|lia]. }
    rewrite sub_app_split by lia.
    replace (Z.succ i + Z.of_nat k) with (i + Z.of_nat (S k)) by lia.
    split; [|done]. zcases.
Qed.

(** For any zinfo that obeys the interface laws, extracting a file from the spans
    that hold it yields exactly its bytes of the uncompressed stream. *)
Theorem extract_with_correct off sz :
  0 ≤ off → 0 < sz → off + sz < zlen uncomp → zlen uncomp < 2 ^ 63 →
  extract_with zi (zlen comp) comp (mkMetadataEntry sz off) = Ok (sub off (off + sz) uncomp).
Proof.
  intros Ho Hs He Hf. pose proof (zl_n (ZinfoLaws:=HL)) as Hn.
  destruct (zl_find (ZinfoLaws:=HL) off ltac:(lia)) as (i & Hi & Hin & Hi1 & Hi2).
  destruct (zl_find (ZinfoLaws:=HL) (off + sz) ltac:(lia)) as (j & Hj & Hjn & Hj1 & Hj2).
  assert (i ≤ j).
  { destruct (Z.le_gt_cases i j); [done|].
    pose proof (su_mono (HL:=HL) (j + 1) i ltac:(lia) ltac:(lia)). lia. }
  unfold extract_with. cbn [me_offset me_size]. rewrite Hi. cbn [mbind outcome_bind].
  rewrite int64_id by (unfold in_int64; lia). rewrite Hj. cbn [mbind outcome_bind].
  rewrite int32_id by (unfold in_int32; lia).
  destruct (Z.ltb_spec (j - i + 1 + 1) 0); [lia|].
  rewrite (zl_startC (ZinfoLaws:=HL)) by lia. cbn [mbind outcome_bind].
  rewrite span_ends_spec by lia. cbn [mbind outcome_bind].
  destruct (zl_comp (ZinfoLaws:=HL) i) as [? ?]; [lia|].
  destruct (read_ranges_spec (Z.to_nat (j - i)) i (sc i)) as [Hnd Hrr]; [lia..|].
  replace (Z.of_nat (Z.to_nat (j - i + 1))) with (Z.of_nat (S (Z.to_nat (j - i)))) by lia.
  rewrite Hnd, Hrr. cbn [negb mbind outcome_bind].
  replace (i + Z.of_nat (Z.to_nat (j - i))) with j by lia.
  replace sz with (off + sz - off) at 1 by lia.
  apply (zl_extract (ZinfoLaws:=HL)); [lia..|].
  unfold span_end. destruct (Z.eqb_spec j n); [lia|]. specialize (Hj2 ltac:(lia)). lia.
Qed.
End extract.

(** [ExtractFile] reports success with no data when the ztoc's checkpoints cannot be
    decoded. *)
Theorem ExtractFile_swallows_zinfo_error {Time} `{GzipC, TarZinfoFlatbuf}
    (zt : Ztoc Time) fuel r name entry e :
  GetMetadataEntry fuel (TOC zt) name = Some (Ok entry) →
  Ztoc_Zinfo zt = Err e →
  ExtractFile fuel zt r name = Some (Ok []).
Proof.
  intros He Hz. unfold ExtractFile. rewrite He, Hz. by destruct (me_size entry =? 0).
Qed.
