(* ===== verification/ZtocBuilder.v ===== *)
(** * Building ztocs

    Models [ztoc/toc_builder.go], [ztoc/zinfo_builder.go], [ztoc/ztoc_builder.go] and
    [util/ioutils/positiontrackerreader.go].  The tar parser ([archive/tar]) and the
    decompressors are parameters: a tar archive is the sequence of headers [Next]
    returns, each with the position the tracked reader has reached. *)
From Stdlib Require Import ZArith Lia Sorted.
From stdpp Require Import base list gmap strings numbers.
From S2P Require Import Prelude GoLib Compression GzipZinfo Ztoc.
#[local] Open Scope Z_scope.

(** [go-digest]. *)
Class Digester := {
  digest_FromBytes : bytes → string;
  digest_Parse : string → string
}.

(** ** The position tracking reader *)
Record PositionTrackerReader (R : Type) := mkPT { pt_r : R; pt_pos : Z }.
Arguments mkPT {R}.
Arguments pt_r {R}.
Arguments pt_pos {R}.

Definition NewPositionTrackerReader {R} (r : R) : PositionTrackerReader R := mkPT r 0.

(** [read] is the [Read] of the wrapped reader: its result and next state. *)
Definition PositionTrackerReader_Read {R} (read : R → Z → (bytes * option error) * R)
    (p : PositionTrackerReader R) (n : Z)
  : (bytes * option error) * PositionTrackerReader R :=
  let '((b, err), r') := read (pt_r p) n in
  ((b, err), mkPT r' (int64 (pt_pos p + zlen b))).

Definition CurrentPos {R} (p : PositionTrackerReader R) : Z := pt_pos p.

(** ** Tar headers *)
Record tar_Header (Time : Type) := mkHeader {
  h_Typeflag : Z;
  h_Name : string;
  h_Linkname : string;
  h_Size : Z;
  h_Mode : Z;
  h_Uid : Z;
  h_Gid : Z;
  h_Uname : string;
  h_Gname : string;
  h_ModTime : Time;
  h_Devmajor : Z;
  h_Devminor : Z;
  h_PAXRecords : gmap string string
}.
Arguments mkHeader {Time}.
Arguments h_Typeflag {Time}.
Arguments h_Name {Time}.
Arguments h_Linkname {Time}.
Arguments h_Size {Time}.
Arguments h_Mode {Time}.
Arguments h_Uid {Time}.
Arguments h_Gid {Time}.
Arguments h_Uname {Time}.
Arguments h_Gname {Time}.
Arguments h_ModTime {Time}.
Arguments h_Devmajor {Time}.
Arguments h_Devminor {Time}.
Arguments h_PAXRecords {Time}.

(** What successive [tarRdr.Next()] calls return, with [pt.CurrentPos()] after each. *)
Inductive tar_stream (Time : Type) :=
| tar_end (pos : Z)
| tar_error (e : error)
| tar_next (h : tar_Header Time) (pos : Z) (rest : tar_stream Time).
Arguments tar_end {Time}.
Arguments tar_error {Time}.
Arguments tar_next {Time}.

(** ** [toc_builder.go] *)
Section toc_builder.
Context {Time : Type}.

Definition getType (header : tar_Header Time) : outcome string :=
  let f := h_Typeflag header in
  if f =? TypeLink then Ok "hardlink"
  else if f =? TypeSymlink then Ok "symlink"
  else if f =? TypeDir then Ok "dir"
  else if f =? TypeReg then Ok "reg"
  else if f =? TypeChar then Ok "char"
  else if f =? TypeBlock then Ok "block"
  else if f =? TypeFifo then Ok "fifo"
  else Err (ErrorString "unsupported input tar entry").

Definition entry_of_header (hdr : tar_Header Time) (fileType : string)
    (pos tarHeaderOffset : Offset) : FileMetadata Time :=
  mkFileMetadata (h_Name hdr) fileType pos (h_Size hdr) tarHeaderOffset (h_Linkname hdr)
    (h_Mode hdr) (h_Uid hdr) (h_Gid hdr) (h_Uname hdr) (h_Gname hdr) (h_ModTime hdr)
    (h_Devmajor hdr) (h_Devminor hdr) (h_PAXRecords hdr).

Fixpoint metadataFromTarReader (r : tar_stream Time) (tarHeaderOffset : Offset)
  : outcome (list (FileMetadata Time) * Offset) :=
  match r with
  | tar_end pos => Ok ([], pos)
  | tar_error e => Err (Wrap "error while reading tar header" e)
  | tar_next hdr pos rest =>
      fileType ← getType hdr;
      let metadataEntry := entry_of_header hdr fileType pos tarHeaderOffset in
      '(md, total) ← metadataFromTarReader rest
        (AlignToTarBlock (int64 (UncompressedOffset metadataEntry
                                 + UncompressedSize metadataEntry)));
      Ok (metadataEntry :: md, total)
  end.

(** A provider opens the decompressed tar stream of a file. *)
Definition TarProvider : Type := bytes → outcome (tar_stream Time).

(** [None] is the nil map of a zero [TocBuilder]. *)
Record TocBuilder := mkTocBuilder { tarProviders : option (gmap string TarProvider) }.

Definition NewTocBuilder : TocBuilder := mkTocBuilder (Some ∅).

(** The receiver is a copy: a map made here is not seen by the caller. *)
Definition RegisterTarProvider (tb : TocBuilder) (algorithm : string)
    (provider : TarProvider) : TocBuilder :=
  match tarProviders tb with
  | None => tb
  | Some m => mkTocBuilder (Some (<[algorithm := provider]> m))
  end.

Definition provider_of (tb : TocBuilder) (algorithm : string) : option TarProvider :=
  m ← tarProviders tb; m !! algorithm.

Definition TocBuilder_CheckCompressionAlgorithm (tb : TocBuilder) (algorithm : string) : bool :=
  bool_decide (is_Some (provider_of tb algorithm)).

Definition getFileMetadata (tb : TocBuilder) (fs : files) (algorithm filename : string)
  : outcome (list (FileMetadata Time) * Offset) :=
  match fs !! filename with
  | None => Err (Wrap "could not open file for reading" (Sentinel "file does not exist"))
  | Some data =>
      match provider_of tb algorithm with
      | None => Panic (* call of a nil function value *)
      | Some p => r ← p data; metadataFromTarReader r 0
      end
  end.

Definition TocFromFile (tb : TocBuilder) (fs : files) (algorithm filename : string)
  : outcome (list (FileMetadata Time) * Offset) :=
  if negb (TocBuilder_CheckCompressionAlgorithm tb algorithm)
  then Err (ErrorString "unsupported compression algorithm")
  else getFileMetadata tb fs algorithm filename.
End toc_builder.
Arguments TarProvider : clear implicits.
Arguments TocBuilder : clear implicits.

(** ** [zinfo_builder.go] *)
Section zinfo_builder.
Context `{Digester, GzipC, TarZinfoFlatbuf}.

(** Reading all of [io.NewSectionReader(file, off, n)]. *)
Definition section_read (data : bytes) (off n : Z) : outcome bytes :=
  if n <=? 0 then Ok []
  else if off <? 0 then Err (ErrorString "negative offset")
  else Ok (sub off (off + n) data).

Definition getFileSize (fs : files) (file : string) : outcome Offset :=
  match fs !! file with
  | None => Err (Sentinel "file does not exist")
  | Some data => Ok (zlen data)
  end.

(** The loop from span [i], [k] spans to go. *)
Fixpoint span_digests {T} `{Zinfo T} (data : bytes) (fileSize : Z) (index : T)
    (i : SpanID) (k : nat) : outcome (list string) :=
  match k with
  | O => Ok []
  | S k' =>
      startOffset ← StartCompressedOffset index i;
      endOffset ← EndCompressedOffset index i fileSize;
      b ← map_err (λ _, ErrorString "unable to compute digest for section")
            (section_read data startOffset (int64 (endOffset - startOffset)));
      ds ← span_digests data fileSize index (int32 (i + 1)) k';
      Ok (digest_FromBytes b :: ds)
  end.

Definition getPerSpanDigests {T} `{Zinfo T} (fs : files) (filename : string)
    (fileSize : Z) (index : T) : outcome (list string) :=
  match fs !! filename with
  | None => Err (Wrap "could not open file for reading" (Sentinel "file does not exist"))
  | Some data =>
      maxSpanID ← MaxSpanID index;
      span_digests data fileSize index 0 (Z.to_nat (maxSpanID + 1))
  end.

Definition build_zinfo (algo : string) (fs : files) (filename : string) (spanSize : Z)
  : outcome (CompressionInfo * Offset) :=
  index ← NewZinfoFromFile fs algo filename spanSize;
  sz ← getFileSize fs filename;
  digests ← getPerSpanDigests fs filename sz index;
  checkpoints ← Bytes index;
  m ← MaxSpanID index;
  Ok (mkCompressionInfo m digests checkpoints algo, sz).

Inductive ZinfoBuilder := gzipZinfoBuilder | tarZinfoBuilder.

Definition gzip_ZinfoFromFile := build_zinfo Gzip.
Definition tar_ZinfoFromFile := build_zinfo Uncompressed.

Definition ZinfoFromFile (b : ZinfoBuilder) :=
  match b with
  | gzipZinfoBuilder => gzip_ZinfoFromFile
  | tarZinfoBuilder => tar_ZinfoFromFile
  end.
End zinfo_builder.

(** ** [ztoc_builder.go] *)
Section builder.
Context {Time : Type} `{Digester, GzipC, TarZinfoFlatbuf}.

Record Builder := mkBuilder {
  tocBuilder : TocBuilder Time;
  zinfoBuilders : option (gmap string ZinfoBuilder);
  buildToolIdentifier : string
}.

Definition RegisterCompressionAlgorithm (b : Builder) (name : string)
    (tarProvider : TarProvider Time) (zinfoBuilder : ZinfoBuilder) : Builder :=
  mkBuilder (RegisterTarProvider (tocBuilder b) name tarProvider)
    (Some (<[name := zinfoBuilder]> (default ∅ (zinfoBuilders b))))
    (buildToolIdentifier b).

Definition zinfoBuilder_of (b : Builder) (algorithm : string) : option ZinfoBuilder :=
  m ← zinfoBuilders b; m !! algorithm.

Definition CheckCompressionAlgorithm (b : Builder) (algorithm : string) : bool :=
  bool_decide (is_Some (zinfoBuilder_of b algorithm))
  && TocBuilder_CheckCompressionAlgorithm (tocBuilder b) algorithm.

(** [TarProviderGzip] and [TarProviderTar] are the parameters [gz] and [tar]. *)
Definition NewBuilder (gz tar : TarProvider Time) (tool : string) : Builder :=
  let b := mkBuilder NewTocBuilder (Some ∅) tool in
  let b := RegisterCompressionAlgorithm b Gzip gz gzipZinfoBuilder in
  let b := RegisterCompressionAlgorithm b Uncompressed tar tarZinfoBuilder in
  RegisterCompressionAlgorithm b Unknown tar tarZinfoBuilder.

(** [buildConfig] is its one field, the algorithm. *)
Definition buildConfig : Type := string.
Definition BuildOption : Type := buildConfig → outcome buildConfig.
Definition WithCompression (algorithm : string) : BuildOption := λ _, Ok algorithm.
Definition defaultBuildConfig : buildConfig := Gzip.

Fixpoint apply_options (opt : buildConfig) (options : list BuildOption) : outcome buildConfig :=
  match options with
  | [] => Ok opt
  | f :: fs => opt' ← f opt; apply_options opt' fs
  end.

Definition BuildZtoc (b : Builder) (fs : files) (filename : string) (span : Z)
    (options : list BuildOption) : outcome (Ztoc Time) :=
  if String.eqb filename "" then Err (ErrorString "need to provide a compressed filename")
  else
    opt ← apply_options defaultBuildConfig options;
    if negb (CheckCompressionAlgorithm b opt)
    then Err (ErrorString "unsupported compression algorithm, supported: gzip")
    else match zinfoBuilder_of b opt with
    | None => Panic (* method call on a nil interface *)
    | Some zb =>
        '(compressionInfo, sz) ← ZinfoFromFile zb fs filename span;
        '(toc, uncompressedArchiveSize) ← TocFromFile (tocBuilder b) fs opt filename;
        Ok (mkZtoc toc compressionInfo Version09 (buildToolIdentifier b) sz
              uncompressedArchiveSize)
    end.
End builder.
Arguments Builder : clear implicits.

(** ** Facts *)
Section facts.
Context {Time : Type}.

(** What [archive/tar] reports on an archive whose next header is at [o]: the header
    fills whole blocks, the file's data follows it, the next header follows the data
    padded to a block. *)
Inductive tar_ok : Z → tar_stream Time → Prop :=
| tar_ok_end o pos : o ≤ pos → tar_ok o (tar_end pos)
| tar_ok_next o h pos rest :
    o + TarBlockSize ≤ pos → pos `mod` TarBlockSize = 0 →
    0 ≤ h_Size h → pos + h_Size h < 2 ^ 62 →
    (∃ ty, getType h = Ok ty) →
    tar_ok (AlignToTarBlock (pos + h_Size h)) rest →
    tar_ok o (tar_next h pos rest).

(** The entries of a table lie one after the other from header offset [o] on. *)
Inductive toc_layout : Z → list (FileMetadata Time) → Prop :=
| toc_layout_nil o : toc_layout o []
| toc_layout_cons o e toc :
    TarHeaderOffset e = o → 0 ≤ o → o + TarBlockSize ≤ UncompressedOffset e →
    0 ≤ UncompressedSize e → UncompressedOffset e + UncompressedSize e < 2 ^ 62 →
    toc_layout (AlignToTarBlock (UncompressedOffset e + UncompressedSize e)) toc →
    toc_layout o (e :: toc).

(** The headers of an archive with the position of their data. *)
Fixpoint headers (s : tar_stream Time) : list (tar_Header Time * Z) :=
  match s with tar_next h pos rest => (h, pos) :: headers rest | _ => [] end.

(** [e] is the table entry of the header [hp.1] whose data is at [hp.2]. *)
Definition entry_of (e : FileMetadata Time) (hp : tar_Header Time * Z) : Prop :=
  ∃ ty, getType hp.1 = Ok ty ∧ e = entry_of_header hp.1 ty hp.2 (TarHeaderOffset e).

Lemma metadata_layout s o :
  0 ≤ o → tar_ok o s →
  ∃ md total, metadataFromTarReader s o = Ok (md, total) ∧ toc_layout o md ∧ o ≤ total ∧
    Forall2 entry_of md (headers s).
Proof.
  intros Ho Hs. induction Hs as [o pos Hle|o h pos rest Hpos Hal Hsz Hfit [ty Hty] Hrest IH].
  - exists [], pos. split_and!; [done|constructor|done|constructor].
  - pose proof (AlignToTarBlock_spec (pos + h_Size h)) as Ha. unfold TarBlockSize in *.
    destruct IH as (md & total & Hmd & Hlay & Htot & Hall); [lia|].
    eexists (_ :: md), total. simpl. rewrite Hty. cbn [mbind outcome_bind].
    rewrite int64_id by (unfold in_int64; lia). rewrite Hmd. split_and!; [done| |lia|].
    + constructor; simpl; unfold TarBlockSize; done || lia.
    + constructor; [|done]. by exists ty.
Qed.

Lemma toc_layout_lower o toc e :
  toc_layout o toc → e ∈ toc → o + TarBlockSize ≤ UncompressedOffset e.
Proof.
  induction 1 as [|o e' toc Hh Ho Hoff Hsz Hfit Hlay IH]; [by intros ?%not_elem_of_nil|].
  intros [->|Hin]%elem_of_cons; [done|]. specialize (IH Hin).
  pose proof (AlignToTarBlock_spec (UncompressedOffset e' + UncompressedSize e')).
  unfold TarBlockSize in *. lia.
Qed.

(** Offsets strictly increase along a laid out table. *)
Lemma toc_layout_sorted o toc :
  toc_layout o toc → StronglySorted (λ a b, UncompressedOffset a < UncompressedOffset b) toc.
Proof.
  induction 1 as [|o e toc Hh Ho Hoff Hsz Hfit Hlay IH]; constructor; [done|].
  apply Forall_forall. intros e' Hin%list_elem_of_In. pose proof (toc_layout_lower _ _ _ Hlay Hin).
  pose proof (AlignToTarBlock_spec (UncompressedOffset e + UncompressedSize e)).
  unfold TarBlockSize in *. lia.
Qed.

(** On a well formed archive the table of contents has one entry per header, in archive
    order: the header's fields, with the header and data offsets it has in the archive. *)
Theorem metadataFromTarReader_layout s o :
  0 ≤ o → tar_ok o s →
  ∃ md total, metadataFromTarReader s o = Ok (md, total) ∧ toc_layout o md ∧ o ≤ total ∧
    Forall2 entry_of md (headers s).
Proof. apply metadata_layout. Qed.
End facts.

Section digests.
Context `{Digester} `{HZ : Zinfo T} {zi : T} {comp uncomp : bytes} {n : Z} {su sc ec : Z → Z}.
Context {HL : ZinfoLaws zi comp uncomp n su sc ec}.

Definition span_digest (i : Z) : string := digest_FromBytes (sub (sc i) (ec i) comp).

Lemma span_digests_spec (k : nat) i :
  zlen comp < 2 ^ 63 → 0 ≤ i → i + Z.of_nat k ≤ n + 1 →
  span_digests comp (zlen comp) zi i k = Ok (span_digest <$> seqZ i (Z.of_nat k)).
Proof.
  intros Hf. pose proof (zl_n (ZinfoLaws:=HL)) as Hn.
  revert i. induction k as [|k IH]; intros i Hi Hk; [done|].
  cbn [span_digests]. rewrite (zl_startC (ZinfoLaws:=HL)) by lia. cbn [mbind outcome_bind].
  rewrite (zl_endC (ZinfoLaws:=HL)) by lia. cbn [mbind outcome_bind].
  destruct (zl_comp (ZinfoLaws:=HL) i) as [? ?]; [lia|].
  rewrite int64_id by (unfold in_int64; lia).
  assert (section_read comp (sc i) (ec i - sc i) = Ok (sub (sc i) (ec i) comp)) as ->.
  { unfold section_read. destruct (Z.leb_spec (ec i - sc i) 0).
    - by rewrite sub_empty by lia.
    - destruct (Z.ltb_spec (sc i) 0); [lia|]. do 2 f_equal. lia. }
  cbn [map_err mbind outcome_bind]. rewrite seqZ_cons by lia.
  destruct k as [|k]; [done|].
  rewrite int32_id by (unfold in_int32; lia). rewrite IH by lia.
  cbn [mbind outcome_bind]. rewrite fmap_cons. do 3 f_equal. f_equal; lia.
Qed.

Lemma getPerSpanDigests_eq fs filename :
  fs !! filename = Some comp → zlen comp < 2 ^ 63 →
  getPerSpanDigests fs filename (zlen comp) zi = Ok (span_digest <$> seqZ 0 (n + 1)).
Proof.
  intros Hfs Hf. unfold getPerSpanDigests. rewrite Hfs, (zl_max (ZinfoLaws:=HL)).
  cbn [mbind outcome_bind]. pose proof (zl_n (ZinfoLaws:=HL)).
  rewrite span_digests_spec by lia. do 3 f_equal. lia.
Qed.

(** The builder records the digest of exactly the compressed bytes of every span, for
    every zinfo that obeys the interface laws. *)
Theorem getPerSpanDigests_correct fs filename :
  fs !! filename = Some comp → zlen comp < 2 ^ 63 →
  getPerSpanDigests fs filename (zlen comp) zi = Ok (span_digest <$> seqZ 0 (n + 1)).
Proof. apply getPerSpanDigests_eq. Qed.
End digests.

Section build.
Context {Time : Type} `{Digester, GzipC, TarZinfoFlatbuf}.

(** A new builder supports gzip, uncompressed and unknown layers, and nothing else. *)
Theorem NewBuilder_algorithms (gz tar : TarProvider Time) tool algo :
  CheckCompressionAlgorithm (NewBuilder gz tar tool) algo = true ↔
  algo = Gzip ∨ algo = Uncompressed ∨ algo = Unknown.
Proof.
  unfold CheckCompressionAlgorithm, TocBuilder_CheckCompressionAlgorithm.
  rewrite andb_true_iff, !bool_decide_eq_true.
  unfold zinfoBuilder_of, provider_of; cbn -[Gzip Uncompressed Unknown lookup].
  destruct (decide (algo = Unknown)) as [->|]; [rewrite !lookup_insert_eq; split; eauto|].
  rewrite !(lookup_insert_ne _ Unknown) by done.
  destruct (decide (algo = Uncompressed)) as [->|]; [rewrite !lookup_insert_eq; split; eauto|].
  rewrite !(lookup_insert_ne _ Uncompressed) by done.
  destruct (decide (algo = Gzip)) as [->|]; [rewrite !lookup_insert_eq; split; eauto|].
  rewrite !(lookup_insert_ne _ Gzip), !lookup_empty by done.
  split; [by intros [[? ?] _]|by intros [?|[?|?]]].
Qed.

Lemma TocFromFile_ok (tb : TocBuilder Time) fs algo filename data p s :
  provider_of tb algo = Some p → fs !! filename = Some data → p data = Ok s →
  TocFromFile tb fs algo filename = metadataFromTarReader s 0.
Proof.
  intros Hp Hfs Hs. unfold TocFromFile, TocBuilder_CheckCompressionAlgorithm, getFileMetadata.
  rewrite Hp, Hfs, Hs, bool_decide_eq_true_2 by eauto. done.
Qed.

Lemma getPerSpanDigests_tar fs filename sz zi :
  getPerSpanDigests fs filename sz (ZTar zi) = getPerSpanDigests fs filename sz zi.
Proof.
  unfold getPerSpanDigests. destruct (fs !! filename) as [data|]; [|done]. simpl.
  destruct (TarZinfo.MaxSpanID zi) as [m| |]; [|done..]. simpl.
  generalize 0. induction (Z.to_nat (m + 1)) as [|k IH]; [done|]. intros i. simpl.
  destruct (TarZinfo.EndCompressedOffset zi i sz); [|done..]. simpl. by rewrite IH.
Qed.

(** The digests of the [span]-byte blocks of [data]. *)
Definition tar_digests (data : bytes) (span : Z) : list string :=
  let n := (zlen data - 1) / span in
  (λ i, digest_FromBytes (sub (span * i) (if i =? n then zlen data else span * (i + 1)) data))
    <$> seqZ 0 (n + 1).

Lemma tar_ZinfoFromFile_ok fs filename data span :
  let zi := TarZinfo.mk zinfoVersion span (zlen data) in
  let n := (zlen data - 1) / span in
  fs !! filename = Some data → TarZinfo.describes zi data →
  tar_ZinfoFromFile fs filename span
    = Ok (mkCompressionInfo n (tar_digests data span)
            (tzfb_build zinfoVersion span (zlen data)) Uncompressed, zlen data).
Proof.
  intros zi n Hfs Hd. pose proof (TarZinfo.laws zi data Hd) as HL.
  pose proof (getPerSpanDigests_eq (HL:=HL) fs filename Hfs (TarZinfo.d_fits _ _ Hd)) as Hgd.
  unfold tar_ZinfoFromFile, build_zinfo, NewZinfoFromFile. simpl.
  unfold TarZinfo.newTarZinfoFromFile, getFileSize. rewrite Hfs.
  cbn [fmap outcome_fmap mbind outcome_bind]. fold zi.
  rewrite getPerSpanDigests_tar, Hgd. simpl.
  rewrite (TarZinfo.MaxSpanID_eq zi data Hd). reflexivity.
Qed.

Lemma BuildZtoc_tar (gz tar : TarProvider Time) tool fs filename data span s :
  (∀ v ss sz, in_int32 v → in_int64 ss → in_int64 sz →
     tzfb_read (tzfb_build v ss sz) = Some (v, ss, sz)) → in_int64 span →
  filename ≠ "" → fs !! filename = Some data →
  TarZinfo.describes (TarZinfo.mk zinfoVersion span (zlen data)) data →
  tar data = Ok s → tar_ok 0 s →
  ∃ zt toc total, BuildZtoc (NewBuilder gz tar tool) fs filename span
      [WithCompression Uncompressed] = Ok zt ∧
    metadataFromTarReader s 0 = Ok (toc, total) ∧ toc_layout 0 toc ∧
    TOC zt = toc ∧ CompressedArchiveSize zt = zlen data ∧
    UncompressedArchiveSize zt = total ∧
    Ztoc_Zinfo zt = Ok (ZTar (TarZinfo.mk zinfoVersion span (zlen data))) ∧
    MaxSpanID_ (CInfo zt) = (zlen data - 1) / span ∧
    SpanDigests (CInfo zt) = tar_digests data span ∧
    CompressionAlgorithm (CInfo zt) = Uncompressed.
Proof.
  intros Hfb Hspan Hname Hfs Hd Hs Hok.
  destruct (metadata_layout s 0) as (toc & total & Hmd & Hlay & _ & _); [lia|done|].
  pose proof (tar_ZinfoFromFile_ok fs filename data span Hfs Hd) as Hz. simpl in Hz.
  eexists (mkZtoc toc (mkCompressionInfo _ _ _ Uncompressed) Version09 tool _ total), toc, total.
  split_and!; try done.
  - unfold BuildZtoc. destruct (String.eqb_spec filename ""); [done|].
    change (apply_options _ _) with (Ok Uncompressed). cbn [mbind outcome_bind].
    rewrite (proj2 (NewBuilder_algorithms gz tar tool Uncompressed)) by auto.
    change (zinfoBuilder_of _ Uncompressed) with (Some tarZinfoBuilder).
    cbn [negb ZinfoFromFile]. rewrite Hz. cbn [mbind outcome_bind].
    rewrite (TocFromFile_ok _ fs Uncompressed filename data tar s) by done.
    rewrite Hmd. reflexivity.
  - unfold Ztoc_Zinfo, NewZinfo. simpl. unfold TarZinfo.newTarZinfo.
    pose proof (zlen_nonneg data). pose proof (TarZinfo.d_fits _ _ Hd).
    by rewrite Hfb by (done || unfold in_int64; lia).
Qed.

(** Building an uncompressed layer succeeds, and the ztoc has the table of contents of
    the archive, the layer's size, the digest of the bytes of every span, and checkpoints
    that describe the layer. *)
Theorem BuildZtoc_uncompressed (gz tar : TarProvider Time) tool fs filename data span s :
  (∀ v ss sz, in_int32 v → in_int64 ss → in_int64 sz →
     tzfb_read (tzfb_build v ss sz) = Some (v, ss, sz)) → in_int64 span →
  filename ≠ "" → fs !! filename = Some data →
  TarZinfo.describes (TarZinfo.mk zinfoVersion span (zlen data)) data →
  tar data = Ok s → tar_ok 0 s →
  ∃ zt toc total, BuildZtoc (NewBuilder gz tar tool) fs filename span
      [WithCompression Uncompressed] = Ok zt ∧
    metadataFromTarReader s 0 = Ok (toc, total) ∧ toc_layout 0 toc ∧
    TOC zt = toc ∧ CompressedArchiveSize zt = zlen data ∧
    UncompressedArchiveSize zt = total ∧
    Ztoc_Zinfo zt = Ok (ZTar (TarZinfo.mk zinfoVersion span (zlen data))) ∧
    MaxSpanID_ (CInfo zt) = (zlen data - 1) / span ∧
    SpanDigests (CInfo zt) = tar_digests data span ∧
    CompressionAlgorithm (CInfo zt) = Uncompressed.
Proof. apply BuildZtoc_tar. Qed.
End build.
