(* ===== verification/ZtocMarshal.v ===== *)
(** * Serialising ztocs

    Models [ztoc/ztoc_marshaler.go]: the translation between [Ztoc] and the tables of
    [ztoc/fbs/ztoc.fbs].  The flatbuffers library (laying a table out as bytes and
    reading it back) is a parameter, as are [sort.Slice] and [sort.Strings]. *)
From Stdlib Require Import ZArith Lia Sorted.
From stdpp Require Import base list gmap strings numbers pretty sorting.
From S2P Require Import Prelude GoLib Compression GzipZinfo Ztoc ZtocBuilder.
#[local] Open Scope Z_scope.

Definition ErrInvalidTOCEntry : error := Sentinel "invalid toc entry".

(** ** The tables of the schema *)
Record fb_Xattr := mkFbXattr { fx_key : string; fx_value : string }.

Record fb_FileMetadata := mkFbFileMetadata {
  ff_name : string;
  ff_type : string;
  ff_uncompressed_offset : Z;   (* long *)
  ff_uncompressed_size : Z;     (* long *)
  ff_linkname : string;
  ff_mode : Z;                  (* long *)
  ff_uid : Z;                   (* uint32 *)
  ff_gid : Z;                   (* uint32 *)
  ff_uname : string;
  ff_gname : string;
  ff_mod_time : string;
  ff_devmajor : Z;
  ff_devminor : Z;
  ff_xattrs : list fb_Xattr
}.

Record fb_CompressionInfo := mkFbCompressionInfo {
  fc_compression_algorithm : Z; (* byte enum, Gzip = 1, Uncompressed = 2 *)
  fc_max_span_id : Z;           (* int *)
  fc_span_digests : list string;
  fc_checkpoints : bytes
}.

Record fb_Ztoc := mkFbZtoc {
  fz_version : string;
  fz_build_tool_identifier : string;
  fz_compressed_archive_size : Z;
  fz_uncompressed_archive_size : Z;
  fz_toc : list fb_FileMetadata;
  fz_compression_info : fb_CompressionInfo
}.

(** [builder.Finish] with [FinishedBytes], and the accessors from [GetRootAsZtoc];
    [None] is a panic, which both directions recover from. *)
Class FlatbufZtoc := {
  fb_finish : fb_Ztoc → option bytes;
  fb_root : bytes → option fb_Ztoc
}.

(** ** The enum of [CompressionAlgorithm.go] *)
Definition EnumValuesCompressionAlgorithm : list (string * Z) :=
  [("Gzip", 1); ("Uncompressed", 2)].

Definition CompressionAlgorithm_String (v : Z) : string :=
  if v =? 1 then "Gzip" else if v =? 2 then "Uncompressed"
  else ("CompressionAlgorithm(" +:+ pretty v +:+ ")")%string.

Definition ascii_lower (c : Ascii.ascii) : Ascii.ascii :=
  let n := Ascii.nat_of_ascii c in
  if (65 <=? n)%nat && (n <=? 90)%nat then Ascii.ascii_of_nat (n + 32) else c.

Fixpoint ToLower (s : string) : string :=
  match s with
  | EmptyString => EmptyString
  | String c s' => String (ascii_lower c) (ToLower s')
  end.

Definition compressionAlgorithmToFlatbuf (algo : string) : outcome Z :=
  match find (λ '(k, _), String.eqb (ToLower k) algo) EnumValuesCompressionAlgorithm with
  | Some (_, v) => Ok v
  | None => Err (ErrorString "compression algorithm not defined in flatbuf")
  end.

(** ** Marshalling *)
Section marshal.
Context {Time : Type} `{GoTime Time, Digester, FlatbufZtoc, GoSort}.

Definition prepareXattrsOffset (me : FileMetadata Time) : list fb_Xattr :=
  let keys := sort_Strings ((map_to_list (PAXHeaders me)).*1) in
  (λ key, mkFbXattr key (default "" (PAXHeaders me !! key))) <$> keys.

(** [MarshalText]'s error is ignored: the text is then empty. *)
Definition prepareMetadataOffset (me : FileMetadata Time) : fb_FileMetadata :=
  mkFbFileMetadata (Name me) (Type_ me) (UncompressedOffset me) (UncompressedSize me)
    (Linkname me) (Mode me) (uint32 (UID me)) (uint32 (GID me)) (Uname me) (Gname me)
    (default "" (time_MarshalText (ModTime me))) (Devmajor me) (Devminor me)
    (prepareXattrsOffset me).

Definition tocToFlatbuffer (toc : list (FileMetadata Time)) : list fb_FileMetadata :=
  prepareMetadataOffset <$> toc.

Definition ztocToFlatbuffer (zt : Ztoc Time) : outcome bytes :=
  algo ← (if String.eqb (CompressionAlgorithm (CInfo zt)) "" then Ok 1 (* schema default *)
          else compressionAlgorithmToFlatbuf (CompressionAlgorithm (CInfo zt)));
  let ci := mkFbCompressionInfo algo (int32 (MaxSpanID_ (CInfo zt)))
              (SpanDigests (CInfo zt)) (Checkpoints (CInfo zt)) in
  match fb_finish (mkFbZtoc (Version zt) (BuildToolIdentifier zt) (CompressedArchiveSize zt)
          (UncompressedArchiveSize zt) (tocToFlatbuffer (TOC zt)) ci) with
  | Some fb => Ok fb
  | None => Err (ErrorString "cannot marshal Ztoc to flatbuffers")
  end.

(** The reader's bytes and the descriptor's digest and size. *)
Definition Marshal (zt : Ztoc Time) : outcome (bytes * (string * Z)) :=
  flatbuf ← ztocToFlatbuffer zt;
  Ok (flatbuf, (digest_FromBytes flatbuf, zlen flatbuf)).

(** ** Unmarshalling *)
Definition entry_from_flatbuffer (e : fb_FileMetadata) : FileMetadata Time :=
  mkFileMetadata (ff_name e) (ff_type e) (ff_uncompressed_offset e) (ff_uncompressed_size e)
    0 (ff_linkname e) (ff_mode e) (ff_uid e) (ff_gid e) (ff_uname e) (ff_gname e)
    (default time_zero (time_UnmarshalText (ff_mod_time e))) (ff_devmajor e) (ff_devminor e)
    (foldl (λ m x, <[fx_key x := fx_value x]> m) ∅ (ff_xattrs e)).

Definition with_TarHeaderOffset (e : FileMetadata Time) (o : Offset) : FileMetadata Time :=
  mkFileMetadata (Name e) (Type_ e) (UncompressedOffset e) (UncompressedSize e) o
    (Linkname e) (Mode e) (UID e) (GID e) (Uname e) (Gname e) (ModTime e) (Devmajor e)
    (Devminor e) (PAXHeaders e).

(** The second loop: recompute header offsets, reject entries that overlap. *)
Fixpoint set_header_offsets (nextTarHeader : Offset) (toc : list (FileMetadata Time))
  : outcome (list (FileMetadata Time)) :=
  match toc with
  | [] => Ok []
  | tocEntry :: toc' =>
      if UncompressedOffset tocEntry <? nextTarHeader then Err ErrInvalidTOCEntry
      else
        rest ← set_header_offsets
          (AlignToTarBlock (int64 (UncompressedOffset tocEntry + UncompressedSize tocEntry)))
          toc';
        Ok (with_TarHeaderOffset tocEntry nextTarHeader :: rest)
  end.

Definition flatbufferToTOC (fbtoc : list fb_FileMetadata) : outcome (list (FileMetadata Time)) :=
  let sorted := sort_Slice (λ mi mj, UncompressedOffset mi <? UncompressedOffset mj)
                  (entry_from_flatbuffer <$> fbtoc) in
  set_header_offsets 0 sorted.

Definition flatbufToZtoc (flatbuffer : bytes) : outcome (Ztoc Time) :=
  match fb_root flatbuffer with
  | None => Err (ErrorString "cannot unmarshal ztoc") (* recovered panic *)
  | Some fz =>
      toc ← flatbufferToTOC (fz_toc fz);
      let ci := fz_compression_info fz in
      Ok (mkZtoc toc
            (mkCompressionInfo (fc_max_span_id ci) (digest_Parse <$> fc_span_digests ci)
               (fc_checkpoints ci)
               (ToLower (CompressionAlgorithm_String (fc_compression_algorithm ci))))
            (fz_version fz) (fz_build_tool_identifier fz) (fz_compressed_archive_size fz)
            (fz_uncompressed_archive_size fz))
  end.

Definition Unmarshal (serializedZtoc : outcome bytes) : outcome (Ztoc Time) :=
  flatbuf ← serializedZtoc; flatbufToZtoc flatbuf.

(** ** Round trip *)
Lemma compression_algorithm_roundtrip algo v :
  compressionAlgorithmToFlatbuf algo = Ok v →
  ToLower (CompressionAlgorithm_String v) = algo.
Proof.
  unfold compressionAlgorithmToFlatbuf, EnumValuesCompressionAlgorithm. cbn [find].
  change (ToLower "Gzip") with "gzip". change (ToLower "Uncompressed") with "uncompressed".
  destruct (String.eqb_spec "gzip" algo) as [<-|]; [by intros [= <-]|].
  destruct (String.eqb_spec "uncompressed" algo) as [<-|]; [by intros [= <-]|done].
Qed.

Lemma foldl_xattrs (ks : list string) (m acc : gmap string string) :
  (∀ k, k ∈ ks → is_Some (m !! k)) →
  ∀ k, foldl (λ acc x, <[fx_key x := fx_value x]> acc) acc
         ((λ key, mkFbXattr key (default "" (m !! key))) <$> ks) !! k
       = if decide (k ∈ ks) then m !! k else acc !! k.
Proof.
  revert acc. induction ks as [|k0 ks IH]; intros acc Hks k; [done|].
  rewrite fmap_cons. cbn [foldl fx_key fx_value].
  rewrite IH by (intros; apply Hks; by right).
  destruct (Hks k0) as [v0 Hv0]; [by left|]. rewrite Hv0. cbn [default from_option id].
  destruct (decide (k ∈ ks)) as [Hin|Hnin].
  - by rewrite decide_True by by right.
  - destruct (decide (k = k0)) as [->|Hne].
    + rewrite decide_True by by left. by rewrite lookup_insert_eq.
    + rewrite lookup_insert_ne by done. rewrite decide_False; [done|].
      intros [->|?]%elem_of_cons; done.
Qed.

Lemma xattrs_roundtrip `{!GoSortLaws} (me : FileMetadata Time) :
  foldl (λ m x, <[fx_key x := fx_value x]> m) ∅ (prepareXattrsOffset me) = PAXHeaders me.
Proof.
  apply map_eq. intros k. unfold prepareXattrsOffset.
  assert (∀ k, k ∈ sort_Strings ((map_to_list (PAXHeaders me)).*1)
          ↔ is_Some (PAXHeaders me !! k)) as Hkeys.
  { intros k'. rewrite sort_Strings_perm, list_elem_of_fmap. split.
    - intros ([k1 v] & -> & Hin). apply elem_of_map_to_list in Hin. eauto.
    - intros [v Hv]. exists (k', v). split; [done|]. by apply elem_of_map_to_list. }
  rewrite foldl_xattrs by (intros; by apply Hkeys). rewrite lookup_empty.
  destruct (decide _) as [|Hn]; [done|]. rewrite Hkeys in Hn.
  symmetry. by apply eq_None_not_Some.
Qed.

(** What a file entry must satisfy to survive: ids fit the schema's uint32 fields and
    the time has a text form that reads back. *)
Definition entry_ok (me : FileMetadata Time) : Prop :=
  in_uint32 (UID me) ∧ in_uint32 (GID me) ∧
  ∃ s, time_MarshalText (ModTime me) = Some s ∧ time_UnmarshalText s = Some (ModTime me).

Lemma entry_roundtrip `{!GoSortLaws} (me : FileMetadata Time) :
  entry_ok me →
  with_TarHeaderOffset (entry_from_flatbuffer (prepareMetadataOffset me)) (TarHeaderOffset me)
  = me.
Proof.
  intros (Hu & Hg & s & Hs1 & Hs2).
  unfold entry_from_flatbuffer, prepareMetadataOffset, with_TarHeaderOffset. simpl.
  rewrite Hs1. simpl. rewrite Hs2, !uint32_id, xattrs_roundtrip by done. by destruct me.
Qed.

Lemma set_header_offsets_layout `{!GoSortLaws} o toc :
  toc_layout o toc → Forall entry_ok toc →
  set_header_offsets o ((λ me, entry_from_flatbuffer (prepareMetadataOffset me)) <$> toc)
  = Ok toc.
Proof.
  intros Hlay. induction Hlay as [|o e toc Hh Ho Hoff Hsz Hfit Hlay IH]; [done|].
  intros [He Htoc]%Forall_cons. rewrite fmap_cons. cbn [set_header_offsets].
  simpl UncompressedOffset. simpl UncompressedSize. unfold TarBlockSize in *.
  destruct (Z.ltb_spec (UncompressedOffset e) o); [lia|].
  rewrite int64_id by (unfold in_int64; lia). rewrite IH by done.
  cbn [mbind outcome_bind]. by rewrite <-Hh, entry_roundtrip.
Qed.

Lemma sort_entries `{!GoSortLaws} o toc :
  toc_layout o toc →
  sort_Slice (λ mi mj, UncompressedOffset mi <? UncompressedOffset mj)
    (entry_from_flatbuffer <$> tocToFlatbuffer toc)
  = (λ me, entry_from_flatbuffer (prepareMetadataOffset me)) <$> toc.
Proof.
  intros Hlay. unfold tocToFlatbuffer. rewrite <-list_fmap_compose.
  set (l := _ <$> toc). change (((λ me, _) <$> toc)) with l.
  assert (StronglySorted (λ a b, UncompressedOffset a < UncompressedOffset b) l) as Hss.
  { apply toc_layout_sorted in Hlay. unfold l. clear -Hlay.
    induction Hlay as [|e toc Hs IH Hf]; simpl; constructor; [done|].
    by apply Forall_fmap. }
  apply (StronglySorted_unique_strong (λ a b, UncompressedOffset a ≤ UncompressedOffset b)).
  - intros x y Hx Hy Hxy Hyx. rewrite sort_Slice_perm in Hx.
    clear -Hss Hx Hy Hxy Hyx. induction Hss as [|z l Hs IH Hf]; [by apply not_elem_of_nil in Hx|].
    rewrite Forall_forall in Hf.
    apply elem_of_cons in Hx as [->|Hx]; apply elem_of_cons in Hy as [->|Hy]; auto.
    + apply Hf in Hy. lia.
    + apply Hf in Hx. lia.
  - apply sort_Slice_sorted.
  - clear -Hss. induction Hss as [|z l Hs IH Hf]; constructor; [done|].
    eapply Forall_impl; [done|]. simpl. lia.
  - apply sort_Slice_perm.
Qed.

(** What the two codecs and the sort promise about a ztoc that can be stored. *)
Record storable (zt : Ztoc Time) : Prop := {
  sto_layout : toc_layout 0 (TOC zt);
  sto_entries : Forall entry_ok (TOC zt);
  sto_digests : Forall (λ d, digest_Parse d = d) (SpanDigests (CInfo zt));
  sto_max : in_int32 (MaxSpanID_ (CInfo zt));
  sto_algo : CompressionAlgorithm (CInfo zt) ∈ [Gzip; Uncompressed]
}.

Lemma Marshal_Unmarshal `{!GoSortLaws} (zt : Ztoc Time) :
  (∀ fz fb, fb_finish fz = Some fb → fb_root fb = Some fz) → storable zt →
  match Marshal zt with
  | Ok (fb, desc) => Unmarshal (Ok fb) = Ok zt ∧ desc = (digest_FromBytes fb, zlen fb)
  | Err e => e = ErrorString "cannot marshal Ztoc to flatbuffers"
  | Panic => False
  end.
Proof.
  intros Hfb [Hlay Hok Hdig Hmax Halgo]. unfold Marshal, ztocToFlatbuffer.
  assert (∃ v, CompressionAlgorithm (CInfo zt) ≠ "" ∧
    compressionAlgorithmToFlatbuf (CompressionAlgorithm (CInfo zt)) = Ok v) as (v & Hne & Ev).
  { apply elem_of_cons in Halgo as [->|Halgo]; [by exists 1|].
    apply list_elem_of_singleton in Halgo as ->. by exists 2. }
  destruct (String.eqb_spec (CompressionAlgorithm (CInfo zt)) ""); [done|]. rewrite Ev.
  cbn [mbind outcome_bind]. destruct (fb_finish _) as [fb'|] eqn:Ef; [|done].
  cbn [mbind outcome_bind]. split; [|done].
  unfold Unmarshal, flatbufToZtoc. cbn [mbind outcome_bind]. rewrite (Hfb _ _ Ef).
  unfold flatbufferToTOC. cbn [fz_toc]. rewrite (sort_entries 0) by done.
  rewrite set_header_offsets_layout by done. cbn [mbind outcome_bind].
  cbn [fz_compression_info fc_compression_algorithm fc_max_span_id fc_span_digests
    fc_checkpoints fz_version fz_build_tool_identifier fz_compressed_archive_size
    fz_uncompressed_archive_size].
  rewrite (compression_algorithm_roundtrip _ _ Ev), int32_id by done.
  assert (digest_Parse <$> SpanDigests (CInfo zt) = SpanDigests (CInfo zt)) as ->.
  { clear -Hdig. induction Hdig as [|d ds Hd _ IH]; [done|]. rewrite fmap_cons. by f_equal. }
  by destruct zt as [toc [] ? ? ? ?].
Qed.

(** C28: a ztoc that can be stored survives marshalling: unmarshalling the bytes of [Marshal]
    gives the same ztoc, tar header offsets (which are not stored) included, and the descriptor
    is the digest and the size of the bytes; [Marshal] of such a ztoc fails only when the
    flatbuffer builder does.  It can be stored when its files lie in the archive in the order of
    the table of contents with their headers where [TarHeaderOffset] puts them, their ids, sizes
    and times are ones the format holds, the digests of the spans parse, the last span id fits in
    32 bits and the compression algorithm is gzip or uncompressed ([storable]). *)
Theorem ztoc_roundtrip `{!GoSortLaws} (zt : Ztoc Time) :
  (∀ fz fb, fb_finish fz = Some fb → fb_root fb = Some fz) → storable zt →
  match Marshal zt with
  | Ok (fb, desc) => Unmarshal (Ok fb) = Ok zt ∧ desc = (digest_FromBytes fb, zlen fb)
  | Err e => e = ErrorString "cannot marshal Ztoc to flatbuffers"
  | Panic => False
  end.
Proof. apply Marshal_Unmarshal. Qed.

Lemma set_header_offsets_bounds o toc toc' :
  set_header_offsets o toc = Ok toc' →
  Forall (λ e, TarHeaderOffset e ≤ UncompressedOffset e) toc'.
Proof.
  revert o toc'. induction toc as [|e toc IH]; intros o toc'; simpl.
  { by intros [= <-]. }
  destruct (Z.ltb_spec (UncompressedOffset e) o) as [|Hle]; [done|].
  destruct (set_header_offsets _ toc) as [rest| |] eqn:E; [|done..]. simpl.
  intros [= <-]. constructor; [done|]. by eapply IH.
Qed.

(** Whatever bytes are unmarshalled, an accepted table has every tar header at or before
    its data: header sizes are never negative. *)
Theorem Unmarshal_header_sizes_nonneg fb zt :
  Unmarshal (Ok fb) = Ok zt →
  Forall (λ e, 0 ≤ UncompressedOffset e - TarHeaderOffset e) (TOC zt).
Proof.
  unfold Unmarshal, flatbufToZtoc. cbn [mbind outcome_bind].
  destruct (fb_root fb) as [fz|]; [|done]. unfold flatbufferToTOC.
  destruct (set_header_offsets _ _) as [toc| |] eqn:E; [|done..]. cbn [mbind outcome_bind].
  intros [= <-]. cbn [TOC]. apply set_header_offsets_bounds in E.
  eapply Forall_impl; [done|]. simpl. lia.
Qed.

(** An [unknown] layer's algorithm has no value in the schema, so marshalling refuses. *)
Theorem Marshal_unsupported_algorithm (zt : Ztoc Time) :
  CompressionAlgorithm (CInfo zt) ∉ ["" : string; Gzip; Uncompressed] →
  ∃ e, Marshal zt = Err e.
Proof.
  intros Hn. unfold Marshal, ztocToFlatbuffer.
  destruct (String.eqb_spec (CompressionAlgorithm (CInfo zt)) ""); [set_solver|].
  unfold compressionAlgorithmToFlatbuf, EnumValuesCompressionAlgorithm. cbn [find].
  change (ToLower "Gzip") with "gzip". change (ToLower "Uncompressed") with "uncompressed".
  destruct (String.eqb_spec "gzip" (CompressionAlgorithm (CInfo zt))); [set_solver|].
  destruct (String.eqb_spec "uncompressed" (CompressionAlgorithm (CInfo zt))); [set_solver|].
  by eexists.
Qed.
End marshal.
