(* ===== verification/Regions.v ===== *)
(** * Byte regions

    Models [fs/remote/util.go] (regions and the region set that records what has been
    fetched) and the [bytesWriter] of [fs/remote/blob.go].  The region set refines a set
    of byte offsets. *)
From Stdlib Require Import ZArith Lia ZifyBool Sorted.
From stdpp Require Import base list gmap strings numbers sorting.
From S2P Require Import Prelude GoLib.
#[local] Open Scope Z_scope.

(** Both ends inclusive, as in an HTTP range. *)
Record region := mkRegion { rb : Z; re : Z }.

#[global] Instance region_eq_dec : EqDecision region.
Proof. solve_decision. Defined.

Definition region_size (c : region) : Z := int64 (int64 (re c - rb c) + 1).

Definition superRegion (regs : list region) : outcome region :=
  match regs with
  | [] => Panic (* regs[0] *)
  | s :: _ =>
      Ok (foldl (λ s reg,
            let s := if rb reg <? rb s then mkRegion (rb reg) (re s) else s in
            if re s <? re reg then mkRegion (rb s) (re reg) else s) s regs)
  end.

(** [regionSet] is its slice. One iteration looks at index [i - 1]. *)
Fixpoint add_loop (i : nat) (rs : list region) (r : region) : list region :=
  match i with
  | O => r :: rs
  | S i' =>
      match rs !! i' with
      | None => rs
      | Some l =>
          if (rb l <=? rb r) && (re r <=? re l) then rs
          else if (rb l <=? rb r) && (rb r <=? int64 (re l + 1)) && (re l <=? re r)
          then add_loop i' (delete i' rs) (mkRegion (rb l) (re r))
          else if (rb r <=? rb l) && (rb l <=? int64 (re r + 1)) && (re r <=? re l)
          then add_loop i' (delete i' rs) (mkRegion (rb r) (re l))
          else if (rb r <=? rb l) && (re l <=? re r)
          then add_loop i' (delete i' rs) r
          else if re l <? rb r then take (S i') rs ++ r :: drop (S i') rs
          else add_loop i' rs r
      end
  end.

Definition regionSet_add (rs : list region) (r : region) : list region :=
  add_loop (length rs) rs r.

Definition totalSize (rs : list region) : Z :=
  foldl (λ sz f, int64 (sz + region_size f)) 0 rs.

(** ** The writer that fills the caller's buffer *)
Record bytesWriter := mkBytesWriter { dest : bytes; destOff : Z; current : Z }.

Definition newBytesWriter (dest : bytes) (destOff : Z) : bytesWriter :=
  mkBytesWriter dest destOff 0.

Definition positive (n : Z) : Z := if n <? 0 then 0 else n.

(** [copy(dst[at:], src)]. *)
Definition copy_at (dst : bytes) (at_ : Z) (src : bytes) : bytes :=
  let n := Nat.min (length dst - Z.to_nat at_) (length src) in
  take (Z.to_nat at_) dst ++ take n src ++ drop (Z.to_nat at_ + n) dst.

Definition bytesWriter_Write (bw : bytesWriter) (p : bytes) : bytesWriter :=
  let destBase := positive (current bw - destOff bw) in
  let pBegin := positive (destOff bw - current bw) in
  let pEnd := positive (destOff bw + zlen (dest bw) - current bw) in
  let current' := current bw + zlen p in
  if zlen (dest bw) <? destBase then mkBytesWriter (dest bw) (destOff bw) current'
  else if zlen p <=? pBegin then mkBytesWriter (dest bw) (destOff bw) current'
  else
    let pEnd := if zlen p <? pEnd then zlen p else pEnd in
    mkBytesWriter (copy_at (dest bw) destBase (sub pBegin pEnd p)) (destOff bw) current'.

(** ** The region set refines a set of offsets *)
Definition reg_ok (r : region) : Prop := 0 ≤ rb r ≤ re r ∧ re r < 2 ^ 62.

(** Sorted, disjoint, and with a gap between neighbours. *)
Definition separate (a b : region) : Prop := re a + 1 < rb b.
Definition rs_wf (rs : list region) : Prop := Forall reg_ok rs ∧ StronglySorted separate rs.

Definition covers (rs : list region) (x : Z) : Prop := ∃ l, l ∈ rs ∧ rb l ≤ x ≤ re l.

Lemma covers_app rs1 rs2 x : covers (rs1 ++ rs2) x ↔ covers rs1 x ∨ covers rs2 x.
Proof. unfold covers. setoid_rewrite elem_of_app. naive_solver. Qed.
Lemma covers_cons r rs x : covers (r :: rs) x ↔ rb r ≤ x ≤ re r ∨ covers rs x.
Proof. unfold covers. setoid_rewrite elem_of_cons. naive_solver. Qed.
Lemma covers_nil x : ¬ covers [] x.
Proof. intros (l & ?%not_elem_of_nil & _). done. Qed.

Lemma reg_ok_succ r : reg_ok r → int64 (re r + 1) = re r + 1.
Proof. intros [? ?]. apply int64_id. unfold in_int64. lia. Qed.

Lemma rs_wf_app rs1 rs2 :
  rs_wf (rs1 ++ rs2) ↔ rs_wf rs1 ∧ rs_wf rs2 ∧ (∀ a b, a ∈ rs1 → b ∈ rs2 → separate a b).
Proof. unfold rs_wf. rewrite Forall_app, StronglySorted_app. naive_solver. Qed.

Lemma rs_wf_cons r rs :
  rs_wf (r :: rs) ↔ reg_ok r ∧ rs_wf rs ∧ (∀ b, b ∈ rs → separate r b).
Proof.
  unfold rs_wf. rewrite Forall_cons, StronglySorted_cons, (Forall_forall (separate r)).
  naive_solver.
Qed.

(** The loop invariant: the regions already passed lie beyond [r] with a gap. *)
Lemma add_loop_spec pre suf r :
  reg_ok r → rs_wf (pre ++ suf) → (∀ b, b ∈ suf → separate r b) →
  rs_wf (add_loop (length pre) (pre ++ suf) r) ∧
  ∀ x, covers (add_loop (length pre) (pre ++ suf) r) x ↔
       covers (pre ++ suf) x ∨ rb r ≤ x ≤ re r.
Proof.
  revert suf r. induction pre as [|l pre IH] using rev_ind; intros suf r Hr Hwf Hsuf.
  { simpl. split; [by apply rs_wf_cons|]. intros x. rewrite covers_cons. tauto. }
  rewrite length_app, Nat.add_1_r, <-app_assoc in *. simpl app in *.
  cbn [add_loop]. rewrite list_lookup_middle by done.
  rewrite delete_middle.
  pose proof Hwf as (Hpre & (Hl & Hs & Hls)%rs_wf_cons & Hpl)%rs_wf_app.
  rewrite !reg_ok_succ by done.
  assert (∀ r', reg_ok r' → (∀ b, b ∈ suf → separate r' b) →
    (∀ x, rb r' ≤ x ≤ re r' ↔ rb l ≤ x ≤ re l ∨ rb r ≤ x ≤ re r) →
    rs_wf (add_loop (length pre) (pre ++ suf) r') ∧
    (∀ x, covers (add_loop (length pre) (pre ++ suf) r') x
      ↔ covers (pre ++ l :: suf) x ∨ rb r ≤ x ≤ re r)) as Hmerge.
  { intros r' Hr' Hs' Hx. destruct (IH suf r') as [Hw Hc]; [done| |done|].
    - apply rs_wf_app. split_and!; [done..|]. intros. apply Hpl; [done|by right].
    - split; [done|]. intros x. rewrite Hc, Hx, !covers_app, covers_cons. tauto. }
  pose proof Hl as [Hl1 Hl2]. pose proof Hr as [Hr1 Hr2].
  destruct ((rb l <=? rb r) && (re r <=? re l)) eqn:E1.
  { split; [done|]. intros x. rewrite covers_app, covers_cons.
    split; [tauto|]. intros [?|?]; [tauto|]. right; left. lia. }
  destruct ((rb l <=? rb r) && (rb r <=? re l + 1) && (re l <=? re r)) eqn:E2.
  { apply Hmerge; [split; simpl; lia| |simpl; lia].
    intros b Hb. specialize (Hsuf b Hb). unfold separate in *. simpl. lia. }
  destruct ((rb r <=? rb l) && (rb l <=? re r + 1) && (re r <=? re l)) eqn:E3.
  { apply Hmerge; [split; simpl; lia| |simpl; lia].
    intros b Hb. specialize (Hls b Hb). unfold separate in *. simpl. lia. }
  destruct ((rb r <=? rb l) && (re l <=? re r)) eqn:E4.
  { apply Hmerge; [done|done|lia]. }
  destruct (re l <? rb r) eqn:E5.
  - replace (S (length pre)) with (length pre + 1)%nat by lia.
    rewrite take_app_add, drop_app_add. simpl.
    rewrite take_0, drop_0, <-app_assoc. simpl. split.
    + apply rs_wf_app. split_and!; [done| |].
      * apply rs_wf_cons. split_and!; [done|by apply rs_wf_cons|].
        intros b [->|Hb]%elem_of_cons; [unfold separate; lia|by apply Hls].
      * intros a b Ha [->|[->|Hb]%elem_of_cons]%elem_of_cons.
        -- apply Hpl; [done|by left].
        -- specialize (Hpl a l Ha ltac:(by left)). unfold separate in *. lia.
        -- apply Hpl; [done|by right].
    + intros x. rewrite !covers_app, !covers_cons. tauto.
  - apply (IH (l :: suf)); [done|done|].
    intros b [->|Hb]%elem_of_cons; [unfold separate; lia|by apply Hsuf].
Qed.

Lemma regionSet_add_ok rs r :
  rs_wf rs → reg_ok r →
  rs_wf (regionSet_add rs r) ∧
  ∀ x, covers (regionSet_add rs r) x ↔ covers rs x ∨ rb r ≤ x ≤ re r.
Proof.
  intros Hrs Hr. pose proof (add_loop_spec rs [] r Hr) as H.
  rewrite app_nil_r in H. apply H; [done|]. by intros b ?%not_elem_of_nil.
Qed.

(** The offsets a region set covers, listed. *)
Definition offsets (rs : list region) : list Z := rs ≫= λ l, seqZ (rb l) (re l - rb l + 1).

Lemma elem_of_offsets rs x : x ∈ offsets rs ↔ covers rs x.
Proof.
  unfold offsets, covers. rewrite list_elem_of_bind. split.
  - intros (l & Hx & Hl). exists l. apply elem_of_seqZ in Hx. split; [done|lia].
  - intros (l & Hl & Hx). exists l. split; [apply elem_of_seqZ; lia|done].
Qed.

Lemma NoDup_offsets rs : rs_wf rs → NoDup (offsets rs).
Proof.
  induction rs as [|l rs IH]; [constructor|].
  intros (Hl & Hrs & Hsep)%rs_wf_cons. unfold offsets. rewrite bind_cons.
  apply NoDup_app. split_and!; [apply NoDup_seqZ| |by apply IH].
  intros x Hx Hin. apply elem_of_offsets in Hin as (b & Hb & Hxb).
  apply elem_of_seqZ in Hx. specialize (Hsep b Hb). unfold separate in Hsep. lia.
Qed.

Lemma region_size_ok r : reg_ok r → region_size r = re r - rb r + 1.
Proof.
  intros [? ?]. unfold region_size.
  rewrite (int64_id (_ - _)), int64_id by (unfold in_int64; lia). lia.
Qed.

(** Sorted disjoint regions below [bound] add up to less than it. *)
Lemma totalSize_acc rs acc bound :
  rs_wf rs → (∀ l, l ∈ rs → acc ≤ rb l) → 0 ≤ acc ≤ bound → bound ≤ 2 ^ 62 →
  (∀ l, l ∈ rs → re l < bound) →
  ∀ sz, 0 ≤ sz ≤ acc →
  foldl (λ sz f, int64 (sz + region_size f)) sz rs = sz + zlen (offsets rs).
Proof.
  revert acc. induction rs as [|l rs IH]; intros acc Hwf Hlo Hacc Hb Hhi sz Hsz.
  { change (offsets []) with (@nil Z). rewrite zlen_nil. simpl. lia. }
  apply rs_wf_cons in Hwf as (Hl & Hrs & Hsep). cbn [foldl].
  rewrite region_size_ok by done.
  pose proof (Hlo l ltac:(by left)). pose proof (Hhi l ltac:(by left)). destruct Hl as [? ?].
  rewrite int64_id by (unfold in_int64; lia).
  rewrite (IH (re l + 1)); [|done| |lia|lia| |lia].
  - unfold offsets. rewrite bind_cons, zlen_app. unfold zlen at 2. rewrite length_seqZ. lia.
  - intros l' Hl'. specialize (Hsep l' Hl'). unfold separate in Hsep. lia.
  - intros l' Hl'. apply Hhi. by right.
Qed.

(** The total size of a well formed region set is the number of distinct offsets it
    covers. *)
Theorem totalSize_counts rs :
  rs_wf rs → totalSize rs = zlen (offsets rs) ∧ NoDup (offsets rs) ∧
  (∀ x, x ∈ offsets rs ↔ covers rs x).
Proof.
  intros Hwf. split_and!; [|by apply NoDup_offsets|apply elem_of_offsets].
  pose proof Hwf as [Hok _]. rewrite Forall_forall in Hok. unfold totalSize.
  rewrite (totalSize_acc rs 0 (2 ^ 62)); [lia|done| |lia|lia| |lia];
    intros l Hl; destruct (Hok l Hl); lia.
Qed.

(** ** Facts on the other helpers *)
Lemma superRegion_fold regs s0 s :
  foldl (λ s reg,
    let s := if rb reg <? rb s then mkRegion (rb reg) (re s) else s in
    if re s <? re reg then mkRegion (rb s) (re reg) else s) s0 regs = s →
  rb s ≤ rb s0 ∧ re s0 ≤ re s ∧ (∀ l, l ∈ regs → rb s ≤ rb l ∧ re l ≤ re s) ∧
  (rb s = rb s0 ∨ ∃ l, l ∈ regs ∧ rb s = rb l) ∧ (re s = re s0 ∨ ∃ l, l ∈ regs ∧ re s = re l).
Proof.
  revert s0. induction regs as [|r regs IH]; intros s0 Hs.
  { simpl in Hs. subst. split_and!; [lia|lia| |by left|by left].
    by intros l ?%not_elem_of_nil. }
  cbn [foldl] in Hs. apply IH in Hs as (H1 & H2 & H3 & H4 & H5). clear IH.
  assert (rb s ≤ rb s0 ∧ rb s ≤ rb r ∧ re s0 ≤ re s ∧ re r ≤ re s) as Hb.
  { revert H1 H2. destruct (Z.ltb_spec (rb r) (rb s0)); simpl;
      match goal with |- context [Z.ltb ?a ?b] => destruct (Z.ltb_spec a b) end; simpl; lia. }
  split_and!; try lia.
  - intros l [->|Hl]%elem_of_cons; [lia|]. by apply H3.
  - destruct H4 as [H4|(l & Hl & H4)]; [|right; exists l; split; [by right|done]].
    revert H4. destruct (Z.ltb_spec (rb r) (rb s0)); simpl;
      match goal with |- context [Z.ltb ?a ?b] => destruct (Z.ltb_spec a b) end; simpl;
      intros ->; [right; exists r; split; [by left|done]..|by left|by left].
  - destruct H5 as [H5|(l & Hl & H5)]; [|right; exists l; split; [by right|done]].
    revert H5. destruct (Z.ltb_spec (rb r) (rb s0)); simpl;
      match goal with |- context [Z.ltb ?a ?b] => destruct (Z.ltb_spec a b) end; simpl;
      intros ->; [right; exists r; split; [by left|done]|by left|
                  right; exists r; split; [by left|done]|by left].
Qed.

(** The super region is the least region that contains all the given ones. *)
Theorem superRegion_spec regs :
  regs ≠ [] → ∃ s, superRegion regs = Ok s ∧
    (∀ l, l ∈ regs → rb s ≤ rb l ∧ re l ≤ re s) ∧
    (∃ l, l ∈ regs ∧ rb s = rb l) ∧ (∃ l, l ∈ regs ∧ re s = re l).
Proof.
  destruct regs as [|r regs]; [done|]. intros _. eexists. split; [reflexivity|].
  destruct (superRegion_fold (r :: regs) r _ eq_refl) as (_ & _ & H3 & H4 & H5).
  split_and!; [done| |].
  - destruct H4 as [->|?]; [exists r; split; [by left|done]|done].
  - destruct H5 as [->|?]; [exists r; split; [by left|done]|done].
Qed.

(** What the buffer holds once [c] has gone through the writer: the part of [c] from
    [o] on, then what was there before. *)
Definition overlay (d : bytes) (o : Z) (c : bytes) : bytes :=
  let seg := sub o (o + zlen d) c in seg ++ drop (length seg) d.

Lemma lookup_overlay d o c i :
  0 ≤ o →
  overlay d o c !! i =
    if decide (i < length d ∧ Z.to_nat o + i < length c)%nat
    then c !! (Z.to_nat o + i)%nat else d !! i.
Proof.
  intros Ho. unfold overlay, sub.
  replace (Z.to_nat (o + zlen d - o)) with (length d) by (unfold zlen; lia).
  set (seg := take (length d) (drop (Z.to_nat o) c)).
  assert (length seg = Nat.min (length d) (length c - Z.to_nat o)) as Hlen.
  { unfold seg. rewrite length_take, length_drop. done. }
  rewrite lookup_app.
  destruct (decide _) as [[H1 H2]|Hn].
  - unfold seg. rewrite lookup_take_lt, lookup_drop by done.
    by destruct (lookup_lt_is_Some_2 c (Z.to_nat o + i) H2) as [x ->].
  - assert (length seg ≤ i)%nat as Hge by lia.
    rewrite (lookup_ge_None_2 seg) by done. rewrite lookup_drop. f_equal. lia.
Qed.

Lemma lookup_copy_at d a s i :
  0 ≤ a ≤ zlen d →
  copy_at d a s !! i =
    if decide (Z.to_nat a ≤ i < Z.to_nat a + Nat.min (length d - Z.to_nat a) (length s))%nat
    then s !! (i - Z.to_nat a)%nat else d !! i.
Proof.
  intros Ha. unfold zlen in Ha. unfold copy_at.
  set (n := Nat.min (length d - Z.to_nat a) (length s)).
  rewrite lookup_app.
  destruct (decide (i < Z.to_nat a)%nat) as [Hlt|Hge].
  - rewrite lookup_take_lt by done. rewrite decide_False by lia.
    by destruct (lookup_lt_is_Some_2 d i) as [x ->]; [lia|].
  - rewrite (lookup_ge_None_2 (take _ d)) by (rewrite length_take; lia).
    rewrite length_take, Nat.min_l by lia. rewrite lookup_app.
    destruct (decide (i < Z.to_nat a + n)%nat) as [Hin|Hout].
    + rewrite decide_True by lia. rewrite lookup_take_lt by lia.
      by destruct (lookup_lt_is_Some_2 s (i - Z.to_nat a)) as [x ->]; [lia|].
    + rewrite decide_False by lia.
      rewrite (lookup_ge_None_2 (take n s)) by (rewrite length_take; lia).
      rewrite lookup_drop, length_take. f_equal. lia.
Qed.

Lemma length_overlay d o c : length (overlay d o c) = length d.
Proof.
  unfold overlay. rewrite length_app, length_drop.
  assert (length (sub o (o + zlen d) c) ≤ length d)%nat; [|lia].
  unfold sub, zlen. rewrite length_take. lia.
Qed.

Lemma positive_max n : positive n = Z.max 0 n.
Proof. unfold positive. destruct (Z.ltb_spec n 0); lia. Qed.

Lemma lookup_sub {A} (l : list A) lo hi j :
  (j < Z.to_nat (hi - lo))%nat → sub lo hi l !! j = l !! (Z.to_nat lo + j)%nat.
Proof. intros. unfold sub. by rewrite lookup_take_lt, lookup_drop. Qed.

(** A chunk that misses the window of the buffer leaves it as it is. *)
Lemma overlay_miss d o c p :
  0 ≤ o → o + zlen d ≤ zlen c ∨ zlen c + zlen p ≤ o ∨ p = [] →
  overlay d o (c ++ p) = overlay d o c.
Proof.
  intros Ho Hcase. apply list_eq. intros i. rewrite !lookup_overlay by done.
  rewrite length_app. unfold zlen in Hcase.
  destruct (decide (i < length d ∧ Z.to_nat o + i < length c)%nat) as [[? ?]|Hn].
  - rewrite decide_True by lia. by rewrite lookup_app_l.
  - destruct Hcase as [? | [? | Hp] ]; [..|subst p; simpl]; by rewrite decide_False by lia.
Qed.

(** A chunk that hits it is copied to its place. *)
Lemma overlay_hit d o c p :
  0 ≤ o → zlen c ≤ o + zlen d → o < zlen c + zlen p →
  copy_at (overlay d o c) (Z.max 0 (zlen c - o))
    (sub (Z.max 0 (o - zlen c)) (Z.min (zlen p) (Z.max 0 (o + zlen d - zlen c))) p)
  = overlay d o (c ++ p).
Proof.
  intros Ho Hhi Hlo. apply list_eq. intros i.
  assert (zlen (overlay d o c) = zlen d) as Hlen by (unfold zlen; by rewrite length_overlay).
  rewrite lookup_copy_at by (rewrite Hlen; unfold zlen in *; lia).
  rewrite !lookup_overlay, length_overlay, length_app by done.
  assert (length (sub (Z.max 0 (o - zlen c))
    (Z.min (zlen p) (Z.max 0 (o + zlen d - zlen c))) p)
    = Z.to_nat (Z.min (zlen p) (Z.max 0 (o + zlen d - zlen c)) - Z.max 0 (o - zlen c))) as Hs.
  { unfold sub, zlen in *. rewrite length_take, length_drop. lia. }
  rewrite Hs. destruct (decide _) as [Hin|Hout].
  - rewrite lookup_sub by lia. unfold zlen in *.
    rewrite decide_True by lia. rewrite lookup_app_r by lia. f_equal. lia.
  - unfold zlen in *. destruct (decide (i < length d ∧ Z.to_nat o + i < length c)%nat).
    + rewrite decide_True by lia. by rewrite lookup_app_l by lia.
    + by rewrite decide_False by lia.
Qed.

Lemma bytesWriter_Write_step d o c p :
  0 ≤ o →
  bytesWriter_Write (mkBytesWriter (overlay d o c) o (zlen c)) p
  = mkBytesWriter (overlay d o (c ++ p)) o (zlen (c ++ p)).
Proof.
  intros Ho. unfold bytesWriter_Write. cbn [dest destOff current].
  assert (zlen (overlay d o c) = zlen d) as -> by (unfold zlen; by rewrite length_overlay).
  rewrite zlen_app, !positive_max.
  pose proof (zlen_nonneg p). pose proof (zlen_nonneg d).
  destruct (Z.ltb_spec (zlen d) (Z.max 0 (zlen c - o))).
  { by rewrite overlay_miss by lia. }
  destruct (Z.leb_spec (zlen p) (Z.max 0 (o - zlen c))).
  { rewrite overlay_miss; [done..|]. right.
    destruct (Z.le_gt_cases (zlen c) o); [|right]; [left; lia|].
    destruct p; [done|]. rewrite zlen_cons in *. pose proof (zlen_nonneg p). lia. }
  f_equal. rewrite <-overlay_hit by lia. f_equal. f_equal.
  destruct (Z.ltb_spec (zlen p) (Z.max 0 (o + zlen d - zlen c))); lia.
Qed.

Lemma overlay_nil d o : overlay d o [] = d.
Proof. unfold overlay, sub. by rewrite drop_nil, take_nil. Qed.

Lemma bytesWriter_fold d o ps :
  0 ≤ o →
  foldl bytesWriter_Write (newBytesWriter d o) ps
  = mkBytesWriter (overlay d o (concat ps)) o (zlen (concat ps)) ∧
  length (overlay d o (concat ps)) = length d.
Proof.
  intros Ho. split; [|apply length_overlay].
  unfold newBytesWriter. rewrite <-(overlay_nil d o) at 1. change 0 with (zlen (@nil Byte.byte)) at 1.
  change (concat ps) with ([] ++ concat ps).
  generalize (@nil Byte.byte) as c. induction ps as [|p ps IH]; intros c; simpl.
  - by rewrite app_nil_r.
  - rewrite bytesWriter_Write_step by done. rewrite IH. by rewrite app_assoc.
Qed.

(** Filling an exact-size buffer from its start. *)
Lemma overlay_exact d c : length c = length d → overlay d 0 c = c.
Proof.
  intros Hlen. unfold overlay, sub, zlen. rewrite drop_0, take_ge by lia.
  rewrite drop_ge by lia. apply app_nil_r.
Qed.

(** ** The claims on regions *)

(** [add] keeps the region slice sorted, disjoint and gap-separated, and the set of
    offsets it covers becomes exactly the union with the new region; its total size is
    then the number of distinct offsets covered. *)
Theorem regionSet_add_spec rs r :
  rs_wf rs → reg_ok r →
  rs_wf (regionSet_add rs r) ∧
  (∀ x, covers (regionSet_add rs r) x ↔ covers rs x ∨ rb r ≤ x ≤ re r) ∧
  totalSize (regionSet_add rs r) = zlen (offsets (regionSet_add rs r)) ∧
  NoDup (offsets (regionSet_add rs r)).
Proof.
  intros Hrs Hr. destruct (regionSet_add_ok rs r Hrs Hr) as [Hwf Hc].
  destruct (totalSize_counts _ Hwf) as (? & ? & _). done.
Qed.

(** However the data is chunked, the writer leaves in the buffer the bytes of the
    stream from [destOff] on, and never writes outside the buffer. *)
Theorem bytesWriter_writes d o ps :
  0 ≤ o →
  foldl bytesWriter_Write (newBytesWriter d o) ps
  = mkBytesWriter (overlay d o (concat ps)) o (zlen (concat ps)) ∧
  length (overlay d o (concat ps)) = length d.
Proof. apply bytesWriter_fold. Qed.
