(* ===== verification/Remote.v ===== *)
(** * Reading a blob from a registry

    Models [fs/remote/blob.go] and the HTTP fetcher of [fs/remote/resolver.go]
    ([httpFetcher], [redirect], [GetHeader], [GetHeaderWithGet], [ParseSize],
    [singlepartReader], [multipartReader], [remoteFetcher]).  The transport (the HTTP
    client with its authentication and retries) is a parameter: a state and a
    [RoundTrip]; header values arrive parsed. *)
From Stdlib Require Import ZArith Lia ZifyBool.
From stdpp Require Import base list gmap strings numbers.
From S2P Require Import Prelude GoLib Regions.
#[local] Open Scope Z_scope.
#[local] Open Scope go_scope.

Definition ErrUnexpectedStatusCode := Sentinel "unexpected status code".
Definition ErrNoRegion := Sentinel "no regions to fetch".
Definition ErrCannotParseContentLength := Sentinel "failed to parse Content-Length header".
Definition ErrCannotParseContentRange := Sentinel "failed to parse Content-Range header".
Definition ErrCannotParseContentType := Sentinel "failed to parse Content-Type header".
Definition ErrFailedToRefreshURL := Sentinel "failed to refresh URL".
Definition ErrRequestFailed := Sentinel "request to registry failed".

(** ** HTTP *)
Inductive http_method := GET | HEAD.

Record request := mkRequest {
  req_method : http_method;
  req_url : string;
  req_range : list region   (* empty: no [Range] header *)
}.

Inductive content_type :=
| ct_none
| ct_invalid
| ct_multipart
| ct_other.

(** A response; [None] header values are those that do not parse. *)
Record response := mkResponse {
  status : Z;
  content_length : option Z;
  content_type_ : content_type;
  content_range : option (region * Z);
  body : bytes;
  body_parts : list (option region * bytes);   (* multipart bodies *)
  location : string;
  final_url : string
}.

(** What successive [Next()] calls return before [io.EOF]. *)
Abbreviation parts := (list (outcome (region * bytes))).

Definition newSinglePartReader (reg : region) (rc : bytes) : parts := [Ok (reg, rc)].

(** [multipartReader.Next]: a part whose range does not parse is an error. *)
Definition newMultiPartReader (ps : list (option region * bytes)) : parts :=
  (λ '(r, b), match r with
              | Some reg => Ok (reg, b)
              | None => Err (Wrap "content range" ErrCannotParseContentRange)
              end) <$> ps.

Definition ParseSize (resp : response) : outcome Z :=
  if status resp =? 200 then
    match content_length resp with Some n => Ok n | None => Err (ErrorString "invalid syntax") end
  else if status resp =? 206 then
    match content_range resp with
    | Some (_, sz) => Ok sz
    | None => Err (ErrorString "Content-Range doesn't have enough information")
    end
  else Err (ErrorString "cannot get size with status code").

Section http.
Context {Tr : Type} (RoundTrip : request → ST Tr response).

Definition range01 : list region := [mkRegion 0 1].

Definition redirect (blobURL : string) : ST Tr string :=
  λ tr, match RoundTrip (mkRequest GET blobURL range01) tr with
  | (Ok res, tr') =>
      (if Z.quot (status res) 100 =? 2 then Ok (final_url res)
       else if negb (String.eqb (location res) "") && (Z.quot (status res) 100 =? 3)
       then Ok (location res)
       else Err (Wrap "on redirect" ErrUnexpectedStatusCode), tr')
  | (Err e, tr') => (Err (Join ErrRequestFailed e), tr')
  | (Panic, tr') => (Panic, tr')
  end.

(** Attempts in order, first 200 or 206 wins. *)
Fixpoint try_headers (reqs : list request) (fail : error) : ST Tr response :=
  match reqs with
  | [] => st_err fail
  | rq :: reqs' =>
      resp <~ RoundTrip rq ;;
      if (status resp =? 200) || (status resp =? 206) then st_ret resp
      else try_headers reqs' fail
  end.

Definition GetHeader (realURL : string) : ST Tr response :=
  try_headers [mkRequest HEAD realURL []; mkRequest GET realURL range01; mkRequest GET realURL []]
    (ErrorString "failed to get header with code").

Definition GetHeaderWithGet (realURL : string) : ST Tr response :=
  try_headers [mkRequest GET realURL range01; mkRequest GET realURL []]
    (ErrorString "failed to get header via GET with code").

Record httpFetcher := mkHttpFetcher {
  registryURL : string;
  realURL : string;
  singleRange : bool
}.

(** The fetcher's own state next to the transport's. *)
Abbreviation FS := (httpFetcher * Tr)%type.

Definition on_transport {A} (m : ST Tr A) : ST FS A :=
  λ '(f, tr), let '(r, tr') := m tr in (r, (f, tr')).

Definition getLayerSize : ST FS Z :=
  λ '(f, tr), match GetHeader (realURL f) tr with
  | (Ok resp, tr') => (ParseSize resp, (f, tr'))
  | (Err e, tr') => (Err (Join ErrRequestFailed e), (f, tr'))
  | (Panic, tr') => (Panic, (f, tr'))
  end.

Definition refreshURL : ST FS unit :=
  λ '(f, tr), match redirect (registryURL f) tr with
  | (Ok url, tr') => (Ok tt, (mkHttpFetcher (registryURL f) url (singleRange f), tr'))
  | (Err e, tr') => (Err e, (f, tr'))
  | (Panic, tr') => (Panic, (f, tr'))
  end.

Definition singleRangeMode : ST FS unit :=
  st_modify (λ '(f, tr), (mkHttpFetcher (registryURL f) (realURL f) true, tr)).

(** The regions one request asks for. *)
Definition request_regions (single : bool) (rs : list region) : outcome (list region) :=
  let squashed := foldl regionSet_add [] rs in
  if single then s ← superRegion squashed; Ok [s] else Ok squashed.

(** The body of [fetch]; [again] is the recursive call with [retry = false]. *)
Definition fetch_body (rs : list region) (retry : bool) (again : ST FS parts) : ST FS parts :=
  λ '(f, tr),
  if (length rs =? 0)%nat then (Err ErrNoRegion, (f, tr))
  else
    let single := singleRange f in
    match request_regions single rs with
    | Panic => (Panic, (f, tr))
    | Err e => (Err e, (f, tr))
    | Ok requests =>
      match RoundTrip (mkRequest GET (realURL f) requests) tr with
      | (Panic, tr') => (Panic, (f, tr'))
      | (Err e, tr') => (Err e, (f, tr'))
      | (Ok res, tr') =>
        let st := (f, tr') in
        let unexpected := (Err (Wrap "on fetch" ErrUnexpectedStatusCode), st) in
        if status res =? 200 then
          (match content_length res with
           | None => Err (Wrap "content length" ErrCannotParseContentLength)
           | Some size => Ok (newSinglePartReader (mkRegion 0 (size - 1)) (body res))
           end, st)
        else if status res =? 206 then
          (match content_type_ res with
           | ct_invalid => Err (Wrap "invalid media type" ErrCannotParseContentType)
           | ct_multipart => Ok (newMultiPartReader (body_parts res))
           | _ => match content_range res with
                  | None => Err (Wrap "content range" ErrCannotParseContentRange)
                  | Some (reg, _) => Ok (newSinglePartReader reg (body res))
                  end
           end, st)
        else if (status res =? 401) || (status res =? 403) then
          if retry then
            match refreshURL st with
            | (Ok _, st') => again st'
            | (Err e, st') => (Err (Join ErrFailedToRefreshURL e), st')
            | (Panic, st') => (Panic, st')
            end
          else unexpected
        else if status res =? 400 then
          if retry && negb single then (singleRangeMode ;;; again) st else unexpected
        else unexpected
      end
    end.

Definition fetch_no_retry (rs : list region) : ST FS parts :=
  fetch_body rs false (st_err ErrUnexpectedStatusCode).

Definition httpFetcher_fetch (rs : list region) (retry : bool) : ST FS parts :=
  if retry then fetch_body rs true (fetch_no_retry rs) else fetch_no_retry rs.

Definition httpFetcher_check : ST FS unit :=
  λ '(f, tr), match RoundTrip (mkRequest GET (realURL f) range01) tr with
  | (Panic, tr') => (Panic, (f, tr'))
  | (Err e, tr') => (Err (Wrap "check failed" (Join ErrRequestFailed e)), (f, tr'))
  | (Ok res, tr') =>
      if (status res =? 200) || (status res =? 206) then (Ok tt, (f, tr'))
      else if status res =? 403 then
        match refreshURL (f, tr') with
        | (Ok _, st) => (Ok tt, st)
        | (Err _, st) => (Err (Wrap "status" ErrFailedToRefreshURL), st)
        | (Panic, st) => (Panic, st)
        end
      else (Err (Wrap "on check" ErrUnexpectedStatusCode), (f, tr'))
  end.
End http.

(** ** The fetcher interface the blob uses *)
Class Fetcher (F : Type) := {
  fetch : list region → bool → ST F parts;
  check : ST F unit
}.

#[global] Instance http_fetcher {Tr} (rt : request → ST Tr response)
  : Fetcher (httpFetcher * Tr) := {|
  fetch := httpFetcher_fetch rt;
  check := httpFetcher_check rt
|}.

(** [remoteFetcher] over an external [Fetcher]: [ext] fetches an offset and a size. *)
Definition remoteFetcher_fetch {E} (ext : Z → Z → ST E bytes) (rs : list region)
    (retry : bool) : ST E parts :=
  λ e, match superRegion (foldl regionSet_add [] rs) with
  | Panic => (Panic, e)
  | Err er => (Err er, e)
  | Ok reg =>
      match ext (rb reg) (region_size reg) e with
      | (Ok rc, e') => (Ok (newSinglePartReader reg rc), e')
      | (Err er, e') => (Err er, e')
      | (Panic, e') => (Panic, e')
      end
  end.

(** ** Blobs *)
Record blob (F : Type) := mkBlob {
  fetcher : F;
  blob_size : Z;
  lastCheck : Z;         (* nanoseconds *)
  checkInterval : Z;
  fetchedRegionSet : list region;
  closed : bool
}.
Arguments mkBlob {F}.
Arguments fetcher {F}.
Arguments blob_size {F}.
Arguments lastCheck {F}.
Arguments checkInterval {F}.
Arguments fetchedRegionSet {F}.
Arguments closed {F}.

Section blob.
Context `{Fetcher F}.
Implicit Types b : blob F.

Definition makeBlob (f : F) (sz lc ci : Z) : blob F := mkBlob f sz lc ci [] false.

Definition set_fetcher (f : F) b : blob F :=
  mkBlob f (blob_size b) (lastCheck b) (checkInterval b) (fetchedRegionSet b) (closed b).
Definition set_lastCheck (t : Z) b : blob F :=
  mkBlob (fetcher b) (blob_size b) t (checkInterval b) (fetchedRegionSet b) (closed b).
Definition set_regions (rs : list region) b : blob F :=
  mkBlob (fetcher b) (blob_size b) (lastCheck b) (checkInterval b) rs (closed b).

Definition ErrBlobClosed : error := ErrorString "blob is already closed".

Definition blob_Close b : outcome unit * blob F :=
  (Ok tt, mkBlob (fetcher b) (blob_size b) (lastCheck b) (checkInterval b)
            (fetchedRegionSet b) true).

(** [resolved] is what [resolver.resolveFetcher] yields. *)
Definition blob_Refresh (resolved : outcome (F * Z)) (now : Z) b : outcome unit * blob F :=
  if closed b then (Err ErrBlobClosed, b)
  else match resolved with
  | Err e => (Err e, b)
  | Panic => (Panic, b)
  | Ok (f, newSize) =>
      if negb (newSize =? blob_size b) then (Err (ErrorString "invalid size of new blob"), b)
      else (Ok tt, set_lastCheck now (set_fetcher f b))
  end.

Definition blob_Check (now : Z) b : outcome unit * blob F :=
  if closed b then (Err ErrBlobClosed, b)
  else if now - lastCheck b <? checkInterval b then (Ok tt, b)
  else
    match check (fetcher b) with
    | (Ok _, f) => (Ok tt, set_lastCheck now (set_fetcher f b))
    | (Err e, f) => (Err e, set_fetcher f b)
    | (Panic, f) => (Panic, set_fetcher f b)
    end.

Definition blob_FetchedSize b : Z := totalSize (fetchedRegionSet b).

(** [io.CopyN] reads and writes in turn, up to 32 KiB at a time; how a reader cuts its data up
    does not matter ([bytesWriter_writes]). *)
Fixpoint copy_pieces (fuel : nat) (p : bytes) : list bytes :=
  match fuel, p with
  | S fuel, _ :: _ => take (Z.to_nat 32768) p :: copy_pieces fuel (drop (Z.to_nat 32768) p)
  | _, _ => []
  end.
Definition io_Copy (w : bytesWriter) (p : bytes) : bytesWriter := foldl bytesWriter_Write w (copy_pieces (length p) p).

(** The loop over the parts: each is copied to [w] with [io.CopyN], which fails with
    [io.EOF] on a part shorter than the region. *)
Fixpoint copy_parts (ps : parts) (reg : region) (fetched : bool)
    (w : bytesWriter) (rs : list region) : outcome bool * bytesWriter * list region :=
  match ps with
  | [] => (Ok fetched, w, rs)
  | Panic :: _ => (Panic, w, rs)
  | Err e :: _ =>
      if errors_Is e io_EOF then (Ok fetched, w, rs)
      else (Err (Wrap "failed to read multipart resp" e), w, rs)
  | Ok (_, p) :: ps' =>
      let n := region_size reg in
      if zlen p <? n then (Err io_EOF, io_Copy w p, rs)
      else copy_parts ps' reg true (io_Copy w (take (Z.to_nat n) p))
             (regionSet_add rs reg)
  end.

Definition fetchRegion (now : Z) (reg : region) (w : bytesWriter) b
  : outcome unit * bytesWriter * blob F :=
  match fetch [reg] true (fetcher b) with
  | (Err e, f) => (Err e, w, set_fetcher f b)
  | (Panic, f) => (Panic, w, set_fetcher f b)
  | (Ok mr, f) =>
      let b := set_lastCheck now (set_fetcher f b) in
      let '(r, w', rs') := copy_parts mr reg false w (fetchedRegionSet b) in
      let b' := set_regions rs' b in
      match r with
      | Ok true => (Ok tt, w', b')
      | Ok false => (Err (ErrorString "failed to fetch region"), w', b')
      | Err e => (Err e, w', b')
      | Panic => (Panic, w', b')
      end
  end.

(** Returns the count, the caller's buffer after the call, and the blob. *)
Definition blob_ReadAt (now : Z) (p : bytes) (offset : Z) b : outcome Z * bytes * blob F :=
  if closed b then (Err ErrBlobClosed, p, b)
  else if (zlen p =? 0) || (blob_size b <? offset) then (Ok 0, p, b)
  else
    let reg := mkRegion offset (int64 (int64 (offset + zlen p) - 1)) in
    let '(r, w, b') := fetchRegion now reg (newBytesWriter p 0) b in
    match r with
    | Err e => (Err e, dest w, b')
    | Panic => (Panic, dest w, b')
    | Ok _ =>
        let remain := blob_size b - offset in
        (Ok (if remain <=? zlen p then positive remain else zlen p), dest w, b')
    end.
End blob.

(** ** Facts *)
Section fetch_facts.
Context {Tr : Type} (RoundTrip : request → ST Tr response).

(** A fetch gives up after one retry: the second attempt never refreshes the URL or
    falls back again, it reports the status. *)
Theorem fetch_retries_once rs f tr res tr' reqs :
  rs ≠ [] → request_regions (singleRange f) rs = Ok reqs →
  RoundTrip (mkRequest GET (realURL f) reqs) tr = (Ok res, tr') →
  status res ∉ [200; 206] →
  httpFetcher_fetch RoundTrip rs false (f, tr)
  = (Err (Wrap "on fetch" ErrUnexpectedStatusCode), (f, tr')).
Proof.
  intros Hrs Hreq Hrt Hst. unfold httpFetcher_fetch, fetch_no_retry, fetch_body.
  destruct rs as [|r rs]; [done|]. cbn [length Nat.eqb]. rewrite Hreq, Hrt.
  destruct (Z.eqb_spec (status res) 200); [set_solver|].
  destruct (Z.eqb_spec (status res) 206); [set_solver|]. simpl.
  by repeat case_match.
Qed.

(** A 400 in multi-range mode switches the fetcher to single-range mode for good, and
    the retry asks for the one region that spans all the requested ones. *)
Theorem fetch_falls_back_to_single_range rs f tr res tr' s :
  rs ≠ [] → singleRange f = false →
  superRegion (foldl regionSet_add [] rs) = Ok s →
  RoundTrip (mkRequest GET (realURL f) (foldl regionSet_add [] rs)) tr = (Ok res, tr') →
  status res = 400 →
  let f' := mkHttpFetcher (registryURL f) (realURL f) true in
  httpFetcher_fetch RoundTrip rs true (f, tr) = fetch_no_retry RoundTrip rs (f', tr') ∧
  request_regions (singleRange f') rs = Ok [s] ∧
  (∀ l x, l ∈ foldl regionSet_add [] rs → rb l ≤ x ≤ re l → rb s ≤ x ≤ re s).
Proof.
  intros Hrs Hsr Hs Hrt Hst f'. split_and!.
  - unfold httpFetcher_fetch. unfold fetch_body at 1. destruct rs as [|r rs]; [done|].
    cbn [length Nat.eqb]. unfold request_regions. rewrite Hsr, Hrt, Hst. done.
  - unfold request_regions, f'. cbn [singleRange]. by rewrite Hs.
  - destruct (superRegion_spec (foldl regionSet_add [] rs)) as (s' & Hs' & Hin & _).
    { intros E. by rewrite E in Hs. }
    rewrite Hs in Hs'. injection Hs' as <-. intros l x Hl Hx. destruct (Hin l Hl). lia.
Qed.
End fetch_facts.

Section blob_facts.
Context `{Fetcher F}.
Implicit Types b : blob F.

Lemma clamp_full remain n : 0 ≤ n ≤ remain → (if remain <=? n then positive remain else n) = n.
Proof. intros. rewrite positive_max. destruct (Z.leb_spec remain n); lia. Qed.

Lemma copy_pieces_concat fuel p : (length p ≤ fuel)%nat → concat (copy_pieces fuel p) = p.
Proof.
  revert p. induction fuel as [|fuel IH]; intros [|x p]; cbn [copy_pieces length]; intros Hl; [done|lia|done|].
  change (take (Z.to_nat 32768) (x :: p) ++ concat (copy_pieces fuel (drop (Z.to_nat 32768) (x :: p))) = x :: p).
  rewrite IH by (rewrite length_drop; cbn [length]; lia). apply take_drop.
Qed.

(** A region request answered by parts that start with the region's bytes. *)
Lemma fetchRegion_served now reg p b data f body_ served :
  reg_ok reg → zlen p = re reg - rb reg + 1 →
  fetch [reg] true (fetcher b) = (Ok [Ok (served, body_)], f) →
  region_size reg ≤ zlen body_ → data = take (Z.to_nat (region_size reg)) body_ →
  fetchRegion now reg (newBytesWriter p 0) b
  = (Ok tt, mkBytesWriter data 0 (zlen data),
     set_regions (regionSet_add (fetchedRegionSet b) reg) (set_lastCheck now (set_fetcher f b))).
Proof.
  intros Hreg Hp Hf Hlen ->. unfold fetchRegion. rewrite Hf.
  cbn [copy_parts]. destruct (Z.ltb_spec (zlen body_) (region_size reg)); [lia|].
  rewrite region_size_ok in * by done.
  set (d := take _ body_). destruct (bytesWriter_fold p 0 (copy_pieces (length d) d)) as [Hw _]; [done|].
  unfold io_Copy. rewrite copy_pieces_concat in Hw by done. rewrite Hw. cbn. unfold d.
  rewrite overlay_exact; [done|]. unfold zlen in *. rewrite length_take. lia.
Qed.

(** C31: when the server answers the range it was asked for, [ReadAt] fills the buffer with
    the blob's bytes at that offset, returns their number, and records the region. *)
Theorem ReadAt_correct now p offset b f (content : bytes) :
  closed b = false → blob_size b = zlen content → zlen content < 2 ^ 62 →
  0 ≤ offset → 0 < zlen p → offset + zlen p ≤ zlen content →
  let reg := mkRegion offset (offset + zlen p - 1) in
  fetch [reg] true (fetcher b)
  = (Ok [Ok (reg, sub offset (offset + zlen p) content)], f) →
  ∃ b', blob_ReadAt now p offset b
        = (Ok (zlen p), sub offset (offset + zlen p) content, b') ∧
    fetchedRegionSet b' = regionSet_add (fetchedRegionSet b) reg ∧
    lastCheck b' = now ∧ fetcher b' = f ∧ closed b' = false.
Proof.
  intros Hcl Hsz Hfit Ho Hp Hin reg Hf. unfold blob_ReadAt. rewrite Hcl, Hsz.
  destruct (Z.eqb_spec (zlen p) 0); [lia|]. destruct (Z.ltb_spec (zlen content) offset); [lia|].
  cbn [orb]. rewrite !int64_id by (rewrite ?int64_id; unfold in_int64; lia). fold reg.
  assert (reg_ok reg) as Hreg by (unfold reg_ok, reg; simpl; lia).
  assert (zlen (sub offset (offset + zlen p) content) = zlen p) as Hl by (rewrite zlen_sub; lia).
  assert (region_size reg = zlen p) as Hrs by (rewrite region_size_ok by done; simpl; lia).
  rewrite (fetchRegion_served now reg p b (sub offset (offset + zlen p) content) f
    (sub offset (offset + zlen p) content) reg); simpl; try done; try lia.
  2:{ rewrite Hrs, take_ge; [done|]. unfold zlen in *. lia. }
  rewrite clamp_full by lia. eexists. split; [reflexivity|]. simpl. auto.
Qed.

(** The region a part claims to hold is ignored: when the server answers a range
    request with the whole blob (status 200), [ReadAt] succeeds with the bytes at the
    front of the blob instead of those at the offset. *)
Theorem ReadAt_whole_blob_answer now p offset b f (content : bytes) :
  closed b = false → blob_size b = zlen content → zlen content < 2 ^ 62 →
  0 ≤ offset → 0 < zlen p → offset + zlen p ≤ zlen content →
  fetch [mkRegion offset (offset + zlen p - 1)] true (fetcher b)
  = (Ok (newSinglePartReader (mkRegion 0 (zlen content - 1)) content), f) →
  ∃ b', blob_ReadAt now p offset b = (Ok (zlen p), sub 0 (zlen p) content, b').
Proof.
  intros Hcl Hsz Hfit Ho Hp Hin Hf. unfold blob_ReadAt. rewrite Hcl, Hsz.
  destruct (Z.eqb_spec (zlen p) 0); [lia|]. destruct (Z.ltb_spec (zlen content) offset); [lia|].
  cbn [orb]. rewrite !int64_id by (rewrite ?int64_id; unfold in_int64; lia).
  set (reg := mkRegion offset (offset + zlen p - 1)) in *.
  assert (reg_ok reg) as Hreg by (unfold reg_ok, reg; simpl; lia).
  assert (region_size reg = zlen p) as Hrs by (rewrite region_size_ok by done; simpl; lia).
  rewrite (fetchRegion_served now reg p b (sub 0 (zlen p) content) f content
    (mkRegion 0 (zlen content - 1))); simpl; try done; try lia.
  2:{ rewrite Hrs. unfold sub. rewrite drop_0. f_equal. lia. }
  rewrite clamp_full by lia. by eexists.
Qed.

(** A read that crosses the end of the blob is an [io.EOF] error with no byte counted,
    never a short read, when the server sends only the bytes there are. *)
Theorem ReadAt_past_end now p offset b f (content : bytes) served :
  closed b = false → blob_size b = zlen content → zlen content < 2 ^ 61 → zlen p < 2 ^ 61 →
  0 ≤ offset ≤ zlen content → zlen content < offset + zlen p →
  fetch [mkRegion offset (offset + zlen p - 1)] true (fetcher b)
  = (Ok [Ok (served, sub offset (zlen content) content)], f) →
  ∃ d b', blob_ReadAt now p offset b = (Err io_EOF, d, b').
Proof.
  intros Hcl Hsz Hfit Hpf Ho Hend Hf. unfold blob_ReadAt. rewrite Hcl, Hsz.
  destruct (Z.eqb_spec (zlen p) 0); [lia|]. destruct (Z.ltb_spec (zlen content) offset); [lia|].
  cbn [orb]. rewrite !int64_id by (rewrite ?int64_id; unfold in_int64; lia).
  unfold fetchRegion. rewrite Hf. cbn [copy_parts].
  rewrite region_size_ok by (split; simpl; lia). rewrite zlen_sub by lia. simpl.
  destruct (Z.ltb_spec (zlen content - offset) (offset + zlen p - 1 - offset + 1)); [|lia].
  by do 2 eexists.
Qed.

Lemma copy_parts_regions ps reg fetched w rs r' w' rs' :
  reg_ok reg → rs_wf rs → copy_parts ps reg fetched w rs = (r', w', rs') →
  rs_wf rs' ∧ ∀ x, covers rs x → covers rs' x.
Proof.
  intros Hreg. revert fetched w rs.
  induction ps as [|[[served pt]|e|] ps IH]; intros fetched w rs Hrs; cbn [copy_parts].
  - by intros [= <- <- <-].
  - destruct (_ <? _); [by intros [= <- <- <-]|]. intros Hc.
    destruct (regionSet_add_ok rs reg Hrs Hreg) as [Hw' Hc'].
    destruct (IH _ _ _ Hw' Hc) as [? Hcov]. split; [done|].
    intros x Hx. apply Hcov, Hc'. by left.
  - destruct (errors_Is e io_EOF); by intros [= <- <- <-].
  - by intros [= <- <- <-].
Qed.

(** [FetchedSize] never counts a byte twice: after any read the recorded regions stay
    well formed and cover what they covered plus the region just read. *)
Theorem ReadAt_regions now p offset b r d b' :
  rs_wf (fetchedRegionSet b) → 0 ≤ offset → zlen p < 2 ^ 61 → offset < 2 ^ 61 →
  blob_ReadAt now p offset b = (r, d, b') →
  rs_wf (fetchedRegionSet b') ∧
  blob_FetchedSize b' = zlen (offsets (fetchedRegionSet b')) ∧
  (∀ x, covers (fetchedRegionSet b) x → covers (fetchedRegionSet b') x).
Proof.
  intros Hwf Ho Hp Hof.
  assert (∀ rs, rs_wf rs → (∀ x, covers (fetchedRegionSet b) x → covers rs x) →
    rs_wf rs ∧ totalSize rs = zlen (offsets rs) ∧
    (∀ x, covers (fetchedRegionSet b) x → covers rs x)) as Hok.
  { intros rs Hrs Hc. split_and!; [done|by apply totalSize_counts|done]. }
  unfold blob_ReadAt, blob_FetchedSize. destruct (closed b); [intros [= <- <- <-]; by apply Hok|].
  destruct (Z.eqb_spec (zlen p) 0); [intros [= <- <- <-]; by apply Hok|].
  destruct (blob_size b <? offset); [intros [= <- <- <-]; by apply Hok|].
  cbn [orb]. pose proof (zlen_nonneg p).
  rewrite !int64_id by (rewrite ?int64_id; unfold in_int64; lia).
  set (reg := mkRegion offset _).
  assert (reg_ok reg) as Hreg by (unfold reg_ok, reg; simpl; lia).
  unfold fetchRegion. destruct (fetch [reg] true (fetcher b)) as [[mr| |] f];
    [|intros [= <- <- <-]; by apply Hok..].
  cbn [fetchedRegionSet set_lastCheck set_fetcher].
  destruct (copy_parts mr reg false _ _) as [[r' w'] rs'] eqn:Hc.
  destruct (copy_parts_regions _ _ _ _ _ _ _ _ Hreg Hwf Hc) as [Hwf' Hcov].
  destruct r' as [[|]| |]; intros [= <- <- <-]; simpl; by apply Hok.
Qed.

(** A check within the check interval sends no request; a failed check leaves the time
    of the last success, so the next call asks again. *)
Theorem Check_interval now b :
  closed b = false →
  (now - lastCheck b < checkInterval b → blob_Check now b = (Ok tt, b)) ∧
  (checkInterval b ≤ now - lastCheck b →
   lastCheck (snd (blob_Check now b)) =
     (if is_ok (fst (check (fetcher b))) then now else lastCheck b)).
Proof.
  intros Hcl. unfold blob_Check. rewrite Hcl. split; intros Ht.
  - destruct (Z.ltb_spec (now - lastCheck b) (checkInterval b)); [done|lia].
  - destruct (Z.ltb_spec (now - lastCheck b) (checkInterval b)); [lia|].
    by destruct (check (fetcher b)) as [[| |] f].
Qed.

(** After [Close] every operation on the blob is refused and changes nothing. *)
Theorem closed_blob_refuses now p offset resolved b :
  let b' := snd (blob_Close b) in
  blob_ReadAt now p offset b' = (Err ErrBlobClosed, p, b') ∧
  blob_Check now b' = (Err ErrBlobClosed, b') ∧
  blob_Refresh resolved now b' = (Err ErrBlobClosed, b').
Proof. done. Qed.
End blob_facts.
