(* ===== verification/LruCache.v ===== *)
(** * Reference counted LRU cache

    Models [util/lrucache/lrucache.go].  The underlying [groupcache/lru] is the interface
    [LRU] with its documented laws; [refCounter]s live in a heap, each [done] callback is
    a once-closure over one of them, and every call of [OnEvicted] is logged.  The
    invariant says that the count of an entry is its cache membership plus its unreleased
    references, and that the callback runs exactly when that count reaches zero. *)
From Stdlib Require Import ZArith Lia.
From stdpp Require Import base list gmap strings numbers.
From S2P Require Import Prelude GoLib.
#[local] Open Scope Z_scope.

(** ** [groupcache/lru] *)
Class LRU (L : Type) := {
  lru_map : L → gmap string nat;           (* what is cached *)
  lru_Get : string → L → option nat * L;
  lru_Add : string → nat → L → list (string * nat) * L;     (* with what it evicts *)
  lru_Remove : string → L → list (string * nat) * L
}.

Class LRULaws (L : Type) `{LRU L} : Prop := {
  lru_Get_spec k l : (lru_Get k l).1 = lru_map l !! k ∧ lru_map (lru_Get k l).2 = lru_map l;
  lru_Add_spec k v l : lru_map l !! k = None →
    (lru_Add k v l).1 = [] ∧ lru_map (lru_Add k v l).2 = <[k := v]> (lru_map l) ∨
    ∃ k' v', k' ≠ k ∧ lru_map l !! k' = Some v' ∧ (lru_Add k v l).1 = [(k', v')] ∧
      lru_map (lru_Add k v l).2 = delete k' (<[k := v]> (lru_map l));
  lru_Remove_spec k l :
    lru_map (lru_Remove k l).2 = delete k (lru_map l) ∧
    (lru_Remove k l).1 = match lru_map l !! k with Some v => [(k, v)] | None => [] end
}.

(** ** The cache *)
Record refCounter (V : Type) := mkRC {
  rc_key : string;
  rc_v : V;
  refCounts : Z;
  rc_finalized : bool   (* [finalizeOnce] has fired *)
}.
Arguments mkRC {V}.
Arguments rc_key {V}.
Arguments rc_v {V}.
Arguments refCounts {V}.
Arguments rc_finalized {V}.

Record Cache (L V : Type) := mkCache {
  inner : L;
  heap : list (refCounter V);
  dones : list (nat * bool);   (* once-closures: counter, fired *)
  evicted : list nat           (* counters [OnEvicted] was called for, oldest first *)
}.
Arguments mkCache {L V}.
Arguments inner {L V}.
Arguments heap {L V}.
Arguments dones {L V}.
Arguments evicted {L V}.

Section cache.
Context {L V : Type} `{LRU L}.
Implicit Types c : Cache L V.

Definition New (empty : L) : Cache L V := mkCache empty [] [] [].

Definition with_rc (f : refCounter V → refCounter V) (h : nat) c : Cache L V :=
  mkCache (inner c) (alter f h (heap c)) (dones c) (evicted c).

Definition rc_inc (h : nat) c : Cache L V :=
  with_rc (λ r, mkRC (rc_key r) (rc_v r) (refCounts r + 1) (rc_finalized r)) h c.

(** [OnEvicted] is set. *)
Definition rc_dec (h : nat) c : Cache L V :=
  let c := with_rc (λ r, mkRC (rc_key r) (rc_v r) (refCounts r - 1) (rc_finalized r)) h c in
  match heap c !! h with
  | Some r => if refCounts r <=? 0
              then mkCache (inner c) (heap c) (dones c) (evicted c ++ [h]) else c
  | None => c
  end.

Definition rc_finalize (h : nat) c : Cache L V :=
  match heap c !! h with
  | Some r =>
      if rc_finalized r then c
      else rc_dec h (with_rc (λ r, mkRC (rc_key r) (rc_v r) (refCounts r) true) h c)
  | None => c
  end.

Definition finalize_all (ev : list (string * nat)) c : Cache L V :=
  foldl (λ c kv, rc_finalize kv.2 c) c ev.

(** [decreaseOnceFunc] allocates a closure; its index stands for the callback. *)
Definition decreaseOnceFunc (h : nat) c : nat * Cache L V :=
  (length (dones c), mkCache (inner c) (heap c) (dones c ++ [(h, false)]) (evicted c)).

Definition call_done (i : nat) c : Cache L V :=
  match dones c !! i with
  | Some (h, false) =>
      rc_dec h (mkCache (inner c) (heap c) (<[i := (h, true)]> (dones c)) (evicted c))
  | _ => c
  end.

Definition set_inner (l : L) c : Cache L V := mkCache l (heap c) (dones c) (evicted c).

Definition Get (key : string) c : option (V * nat) * Cache L V :=
  let '(o, l) := lru_Get key (inner c) in
  let c := set_inner l c in
  match o with
  | None => (None, c)
  | Some h =>
      let c := rc_inc h c in
      let '(d, c) := decreaseOnceFunc h c in
      match heap c !! h with Some r => (Some (rc_v r, d), c) | None => (None, c) end
  end.

(** Returns the cached value, its [done], and whether the value was added. *)
Definition Add (key : string) (value : V) c : V * nat * bool * Cache L V :=
  let '(o, l) := lru_Get key (inner c) in
  let c := set_inner l c in
  match o with
  | Some h =>
      let c := rc_inc h c in
      let '(d, c) := decreaseOnceFunc h c in
      match heap c !! h with
      | Some r => (rc_v r, d, false, c)
      | None => (value, d, false, c)
      end
  | None =>
      let h := length (heap c) in
      (* [initialize] and [inc]: the cache's reference and the caller's *)
      let c := mkCache (inner c) (heap c ++ [mkRC key value 2 false]) (dones c) (evicted c) in
      let '(ev, l) := lru_Add key h (inner c) in
      let c := finalize_all ev (set_inner l c) in
      let '(d, c) := decreaseOnceFunc h c in
      (value, d, true, c)
  end.

Definition Remove (key : string) c : Cache L V :=
  let '(ev, l) := lru_Remove key (inner c) in
  finalize_all ev (set_inner l c).

(** ** Histories *)
Inductive op := OpGet (key : string) | OpAdd (key : string) (value : V)
              | OpRemove (key : string) | OpDone (i : nat).

Definition run_op (o : op) c : Cache L V :=
  match o with
  | OpGet k => (Get k c).2
  | OpAdd k v => (Add k v c).2
  | OpRemove k => Remove k c
  | OpDone i => call_done i c
  end.

(** ** The invariant

    [inv m held c]: the counters agree with the association [m] of the cached entries and
    with the references [held] by the operation that is running, on top of the ones the
    clients hold through their [done] callbacks. *)
Definition live (h : nat) (ds : list (nat * bool)) : Z :=
  zlen (filter (λ d, d = (h, false)) ds).
Definition count (h : nat) (held : list nat) : Z := zlen (filter (λ h', h' = h) held).

Record inv (m : gmap string nat) (held : list nat) c : Prop := {
  inv_cached k h : m !! k = Some h →
    ∃ r, heap c !! h = Some r ∧ rc_key r = k ∧ rc_finalized r = false;
  inv_unfinalized h r : heap c !! h = Some r → rc_finalized r = false →
    m !! rc_key r = Some h;
  inv_count h r : heap c !! h = Some r →
    refCounts r = (if rc_finalized r then 0 else 1) + live h (dones c) + count h held;
  inv_dones h b : (h, b) ∈ dones c → (h < length (heap c))%nat;
  inv_held h : h ∈ held → (h < length (heap c))%nat;
  inv_nodup : NoDup (evicted c);
  inv_evicted h : h ∈ evicted c ↔ ∃ r, heap c !! h = Some r ∧ refCounts r = 0
}.

Definition wf c : Prop := inv (lru_map (inner c)) [] c.

Lemma zlen_filter_none {A} (P : A → Prop) `{!∀ x, Decision (P x)} (l : list A) :
  (∀ x, x ∈ l → ¬ P x) → zlen (filter P l) = 0.
Proof.
  intros HP. induction l as [|x l IH]; [done|].
  rewrite filter_cons_False by (apply HP; left). apply IH. intros. apply HP. by right.
Qed.
Lemma live_nonneg h ds : 0 ≤ live h ds.
Proof. apply zlen_nonneg. Qed.
Lemma count_nonneg h held : 0 ≤ count h held.
Proof. apply zlen_nonneg. Qed.
Lemma count_cons h h' held :
  count h (h' :: held) = count h held + (if decide (h' = h) then 1 else 0).
Proof. unfold count. rewrite filter_cons. case_decide; rewrite ?zlen_cons; lia. Qed.
Lemma live_app h ds ds' : live h (ds ++ ds') = live h ds + live h ds'.
Proof. unfold live. by rewrite list.filter_app, zlen_app. Qed.
Lemma live_cons h d ds :
  live h (d :: ds) = (if decide (d = (h, false)) then 1 else 0) + live h ds.
Proof. unfold live. rewrite filter_cons. case_decide; rewrite ?zlen_cons; lia. Qed.
Lemma live_insert h h' i ds : ds !! i = Some (h', false) →
  live h (<[i := (h', true)]> ds) = live h ds - (if decide (h' = h) then 1 else 0).
Proof.
  intros Hi. rewrite <-(take_drop_middle ds i (h', false)) at 2 by done.
  rewrite insert_take_drop by eauto using lookup_lt_Some.
  rewrite !live_app, !live_cons.
  repeat case_decide; simplify_eq; lia.
Qed.

(** The primitive steps move a reference between the cache, the running operation and
    the clients. *)
Lemma alter_heap_lookup (f : refCounter V → refCounter V) (h h' : nat) (hp : list (refCounter V)) r' :
  alter f h hp !! h' = Some r' →
  ∃ r, hp !! h' = Some r ∧ r' = (if decide (h = h') then f r else r).
Proof.
  destruct (decide (h = h')) as [->|Hne].
  - rewrite list_lookup_alter_eq. intros (r & Hr & ->)%fmap_Some_1. eauto.
  - rewrite list_lookup_alter_ne by done. eauto.
Qed.

Lemma inv_inc m held h c k : inv m held c → m !! k = Some h →
  inv m (h :: held) (rc_inc h c).
Proof.
  intros [Hc Hu Hn Hd Hh Hnd He] Hk. unfold rc_inc, with_rc.
  destruct (Hc _ _ Hk) as (r0 & Hr0 & _ & Hf0).
  assert (h < length (heap c))%nat as Hlt by eauto using lookup_lt_Some.
  assert (0 < refCounts r0) as Hpos.
  { rewrite (Hn _ _ Hr0), Hf0.
    pose proof (live_nonneg h (dones c)). pose proof (count_nonneg h held). lia. }
  split; simpl; rewrite ?length_alter; auto.
  - intros k' h' (r & Hr & Hkey & Hf)%Hc. destruct (decide (h = h')) as [<-|].
    + eexists. rewrite list_lookup_alter_eq, Hr. by eauto.
    + exists r. by rewrite list_lookup_alter_ne by done.
  - intros h' r' (r & Hr & ->)%alter_heap_lookup. case_decide; simpl; eauto.
  - intros h' r' (r & Hr & ->)%alter_heap_lookup.
    rewrite count_cons, <-Z.add_assoc. specialize (Hn _ _ Hr).
    case_decide; simpl; lia.
  - intros h' [->|?]%elem_of_cons; auto.
  - intros h'. rewrite He. split.
    + intros (r & Hr & Hz). exists r. split; [|done].
      rewrite list_lookup_alter_ne; [done|]. intros ->. simplify_eq. lia.
    + intros (r' & (r & Hr & ->)%alter_heap_lookup & Hz). exists r. split; [done|].
      case_decide; simpl in Hz; [|done]. subst. simplify_eq. lia.
Qed.

Lemma inv_dec m held h c : inv m (h :: held) c → inv m held (rc_dec h c).
Proof.
  intros [Hc Hu Hn Hd Hh Hnd He]. unfold rc_dec, with_rc. simpl.
  destruct (lookup_lt_is_Some_2 (heap c) h) as [r0 Hr0]; [apply Hh; left|].
  set (f := λ r : refCounter V, _).
  assert (alter f h (heap c) !! h = Some (f r0)) as Hf.
  { by rewrite list_lookup_alter_eq, Hr0. }
  rewrite Hf.
  pose proof (Hn _ _ Hr0) as Hn0. rewrite count_cons, decide_True in Hn0 by done.
  pose proof (live_nonneg h (dones c)). pose proof (count_nonneg h held).
  assert (0 < refCounts r0) by (destruct (rc_finalized r0); lia).
  assert (h ∉ evicted c) as Hnot.
  { rewrite He. intros (r & ? & ?). simplify_eq. lia. }
  assert (∀ ev, NoDup ev →
    (∀ h', h' ∈ ev ↔ h' ∈ evicted c ∨ h' = h ∧ refCounts r0 = 1) →
    inv m held (mkCache (inner c) (alter f h (heap c)) (dones c) ev)) as Hmain.
  { intros ev Hev Hin. split; simpl; rewrite ?length_alter; auto.
    - intros k' h' (r & Hr & Hkey & Hfin)%Hc. destruct (decide (h = h')) as [<-|].
      + eexists. rewrite list_lookup_alter_eq, Hr. by eauto.
      + exists r. by rewrite list_lookup_alter_ne by done.
    - intros h' r' (r & Hr & ->)%alter_heap_lookup. case_decide; simpl; eauto.
    - intros h' r' (r & Hr & ->)%alter_heap_lookup.
      specialize (Hn _ _ Hr). rewrite count_cons in Hn.
      case_decide; simpl; lia.
    - intros h' ?. apply Hh. by right.
    - intros h'. rewrite Hin, He. split.
      + intros [(r & Hr & Hz)|[-> Hone] ].
        * exists r. rewrite list_lookup_alter_ne; [done|]. intros ->. simplify_eq. lia.
        * exists (f r0). split; [done|]. simpl. lia.
      + intros (r' & (r & Hr & ->)%alter_heap_lookup & Hz).
        case_decide; simpl in Hz; [right|left; eauto]. subst. simplify_eq. split; [done|lia]. }
  simpl. destruct (Z.leb_spec (refCounts r0 - 1) 0).
  - apply Hmain.
    + apply list.NoDup_app. split; [done|]. split; [|apply NoDup_singleton].
      intros x Hx ->%list_elem_of_singleton. done.
    + intros h'. rewrite elem_of_app, list_elem_of_singleton. intuition lia.
  - apply Hmain; [done|]. intros h'. intuition lia.
Qed.

(** [finalizeOnce] fires: the cache's own reference is handed to the operation. *)
Lemma inv_mark m held h c k : inv m held c → m !! k = Some h →
  inv (delete k m) (h :: held)
    (with_rc (λ r, mkRC (rc_key r) (rc_v r) (refCounts r) true) h c).
Proof.
  intros [Hc Hu Hn Hd Hh Hnd He] Hk. unfold with_rc.
  destruct (Hc _ _ Hk) as (r0 & Hr0 & Hk0 & Hf0).
  assert (h < length (heap c))%nat as Hlt by eauto using lookup_lt_Some.
  split; simpl; rewrite ?length_alter; auto.
  - intros k' h' [Hne (r & Hr & Hkey & Hf)%Hc]%lookup_delete_Some.
    exists r. rewrite list_lookup_alter_ne; [done|]. intros ->. simplify_eq.
  - intros h' r' (r & Hr & ->)%alter_heap_lookup. case_decide; [done|].
    intros Hf. rewrite lookup_delete_ne; [eauto|]. intros ->.
    specialize (Hu _ _ Hr Hf). congruence.
  - intros h' r' (r & Hr & ->)%alter_heap_lookup.
    rewrite count_cons. pose proof (Hn _ _ Hr).
    case_decide; simpl; [|lia]. subst. simplify_eq. rewrite Hf0 in *. lia.
  - intros h' [->|?]%elem_of_cons; auto.
  - intros h'. rewrite He. split.
    + intros (r & Hr & Hz). destruct (decide (h = h')) as [<-|].
      * eexists. rewrite list_lookup_alter_eq, Hr. by eauto.
      * exists r. by rewrite list_lookup_alter_ne by done.
    + intros (r' & (r & Hr & ->)%alter_heap_lookup & Hz). exists r. split; [done|].
      by case_decide.
Qed.

Lemma inv_finalize m held h c k : inv m held c → m !! k = Some h →
  inv (delete k m) held (rc_finalize h c).
Proof.
  intros Hi Hk. unfold rc_finalize.
  destruct (inv_cached _ _ _ Hi _ _ Hk) as (r & Hr & _ & Hf). rewrite Hr, Hf.
  apply inv_dec. by apply inv_mark.
Qed.

(** A [done] closure takes the operation's reference over to the client. *)
Lemma inv_closure m held h c : inv m (h :: held) c →
  inv m held (decreaseOnceFunc h c).2.
Proof.
  intros [Hc Hu Hn Hd Hh Hnd He]. split; simpl; auto.
  - intros h' r Hr. specialize (Hn _ _ Hr).
    rewrite live_app, live_cons. rewrite count_cons in Hn.
    change (live h' []) with 0. repeat case_decide; simplify_eq; lia.
  - intros h' b [?|Heq%list_elem_of_singleton]%elem_of_app; [eauto|].
    simplify_eq. apply Hh. left.
  - intros h' ?. apply Hh. by right.
Qed.

Lemma inv_fire m held h c i : inv m held c → dones c !! i = Some (h, false) →
  inv m (h :: held) (mkCache (inner c) (heap c) (<[i := (h, true)]> (dones c)) (evicted c)).
Proof.
  intros [Hc Hu Hn Hd Hh Hnd He] Hi.
  assert (h < length (heap c))%nat as Hlt by (eapply Hd, list_elem_of_lookup_2, Hi).
  split; simpl; auto.
  - intros h' r Hr. rewrite (live_insert h' _ _ _ Hi), count_cons.
    specialize (Hn _ _ Hr). case_decide; lia.
  - intros h' b (j & Hj)%list_elem_of_lookup.
    apply list_lookup_insert_Some in Hj as [(-> & Heq & _)|[_ Hj] ]; simplify_eq; [done|].
    eapply Hd, list_elem_of_lookup_2, Hj.
  - intros h' [->|?]%elem_of_cons; auto.
Qed.

Lemma inv_alloc m held key v c : inv m held c → m !! key = None →
  inv (<[key := length (heap c)]> m) (length (heap c) :: held)
    (mkCache (inner c) (heap c ++ [mkRC key v 2 false]) (dones c) (evicted c)).
Proof.
  intros [Hc Hu Hn Hd Hh Hnd He] Hk.
  assert (∀ h r, (heap c ++ [mkRC key v 2 false]) !! h = Some r →
    heap c !! h = Some r ∨ h = length (heap c) ∧ r = mkRC key v 2 false) as Hlk.
  { intros h r Hr. destruct (decide (h < length (heap c))%nat).
    - left. by rewrite lookup_app_l in Hr by done.
    - right. rewrite lookup_app_r in Hr by lia.
      apply list_lookup_singleton_Some in Hr as [? ?]. split; [lia|done]. }
  split; simpl; rewrite ?length_app; simpl; auto.
  - intros k' h' [[<- <-]|[Hne (r & Hr & ?)%Hc] ]%lookup_insert_Some.
    + eexists. rewrite lookup_app_r, Nat.sub_diag by lia. by eauto.
    + exists r. rewrite lookup_app_l by eauto using lookup_lt_Some. done.
  - intros h r [Hr|[-> ->] ]%Hlk Hf; [|by rewrite lookup_insert_eq].
    pose proof (Hu _ _ Hr Hf). rewrite lookup_insert_ne; [done|congruence].
  - intros h r [Hr|[-> ->] ]%Hlk.
    + rewrite count_cons. rewrite decide_False; [rewrite Z.add_0_r; eauto|].
      apply lookup_lt_Some in Hr. lia.
    + rewrite count_cons, decide_True by done. simpl.
      assert (live (length (heap c)) (dones c) = 0) as ->.
      { apply zlen_filter_none. intros d Hin ->. apply Hd in Hin. lia. }
      assert (count (length (heap c)) held = 0) as ->; [|lia].
      apply zlen_filter_none. intros d Hin ->. apply Hh in Hin. lia.
  - intros h b Hin%Hd. lia.
  - intros h [->|Hin%Hh]%elem_of_cons; lia.
  - intros h. rewrite He. split.
    + intros (r & Hr & ?). exists r. by rewrite lookup_app_l by eauto using lookup_lt_Some.
    + intros (r & [Hr|[-> ->] ]%Hlk & Hz); [by eauto|done].
Qed.

Lemma inv_set_inner m held l c : inv m held c → inv m held (set_inner l c).
Proof. by intros []. Qed.

Context `{!LRULaws L}.

Lemma inv_Get m held key c :
  m = lru_map (inner c) → inv m held c → inv m held (Get key c).2.
Proof.
  intros Hm Hi. unfold Get. destruct (lru_Get_spec key (inner c)) as [Hg Hl].
  destruct (lru_Get key (inner c)) as [o l]; simpl in *. destruct o as [h|]; simpl.
  - assert (inv m held (decreaseOnceFunc h (rc_inc h (set_inner l c))).2) as Hd.
    { eapply inv_closure, inv_inc; [by apply inv_set_inner|]. rewrite Hm. by symmetry. }
    simpl in Hd. by case_match.
  - by apply inv_set_inner.
Qed.

Lemma wf_Get key c : wf c → wf (Get key c).2.
Proof.
  intros Hw. unfold wf. replace (lru_map (inner (Get key c).2)) with (lru_map (inner c)).
  - by apply inv_Get.
  - unfold Get. destruct (lru_Get_spec key (inner c)) as [_ Hl].
    destruct (lru_Get key (inner c)) as [[h|] l]; simpl in *; [|done]. by case_match.
Qed.

Lemma rc_dec_inner h c : inner (rc_dec h c) = inner c.
Proof. unfold rc_dec. by repeat case_match. Qed.
Lemma rc_finalize_inner h c : inner (rc_finalize h c) = inner c.
Proof. unfold rc_finalize. repeat case_match; [done|by rewrite rc_dec_inner|done]. Qed.

Lemma wf_Add key value c : wf c → wf (Add key value c).2.
Proof.
  intros Hw. unfold Add, wf. destruct (lru_Get_spec key (inner c)) as [Hg Hl].
  destruct (lru_Get key (inner c)) as [[h|] l]; simpl in *.
  - assert (inv (lru_map (inner c)) [] (decreaseOnceFunc h (rc_inc h (set_inner l c))).2) as Hd.
    { eapply inv_closure, inv_inc; [by apply inv_set_inner|]. by symmetry. }
    simpl in Hd. by case_match; simpl; rewrite Hl.
  - set (c1 := mkCache l _ _ _).
    assert (inv (<[key := length (heap c)]> (lru_map (inner c))) [length (heap c)] c1) as H1.
    { apply (inv_alloc _ _ _ _ (set_inner l c)); [by apply inv_set_inner|]. by rewrite <-Hg. }
    pose proof (lru_Add_spec key (length (heap c)) l) as Ha. rewrite Hl in Ha.
    specialize (Ha ltac:(by symmetry)).
    destruct (lru_Add key (length (heap c)) l) as [ev l'] eqn:E. simpl in *.
    destruct Ha as [[-> Hm]|(k' & v' & Hne & Hk' & -> & Hm)]; simpl in *.
    + rewrite Hm. by apply (inv_closure _ _ _ (set_inner l' c1)), inv_set_inner.
    + pose proof (rc_finalize_inner v' (set_inner l' c1)) as Hin.
      replace (lru_map _) with (delete k' (<[key := length (heap c)]> (lru_map (inner c))))
        by (by rewrite Hin).
      apply (inv_closure _ _ _ (rc_finalize v' (set_inner l' c1))).
      apply inv_finalize; [by apply inv_set_inner|]. by rewrite lookup_insert_ne.
Qed.

Lemma wf_Remove key c : wf c → wf (Remove key c).
Proof.
  intros Hw. unfold Remove, wf. destruct (lru_Remove_spec key (inner c)) as [Hm Hev].
  destruct (lru_Remove key (inner c)) as [ev l]; simpl in *. subst ev.
  destruct (lru_map (inner c) !! key) as [h|] eqn:E; simpl.
  - rewrite rc_finalize_inner. simpl. rewrite Hm.
    apply inv_finalize; [by apply inv_set_inner|done].
  - rewrite Hm, delete_id by done. by apply inv_set_inner.
Qed.

Lemma wf_done i c : wf c → wf (call_done i c).
Proof.
  intros Hw. unfold call_done. destruct (dones c !! i) as [[h [] ]|] eqn:E; [done| |done].
  unfold wf. rewrite rc_dec_inner. simpl. by apply inv_dec, inv_fire.
Qed.

Lemma wf_New empty : lru_map empty = ∅ → wf (New empty).
Proof.
  intros He. split; simpl; try done.
  - intros k h. rewrite He. by rewrite lookup_empty.
  - intros h b. by rewrite elem_of_nil.
  - intros h. by rewrite elem_of_nil.
  - constructor.
  - intros h. rewrite elem_of_nil. split; [done|]. intros (r & ? & _). done.
Qed.

Lemma wf_run_op o c : wf c → wf (run_op o c).
Proof. destruct o; simpl; auto using wf_Get, wf_Add, wf_Remove, wf_done. Qed.

Lemma wf_run ops c : wf c → wf (foldl (flip run_op) c ops).
Proof. revert c. induction ops; simpl; auto using wf_run_op. Qed.

(** ** What clients rely on *)

(** C32: whatever calls of [Get], [Add], [Remove] and [done] were made on a fresh cache,
    an entry's [OnEvicted] has run exactly when the entry left the cache and every
    reference to it was released, and it has run at most once. *)
Theorem OnEvicted_exactly_once empty ops :
  lru_map empty = ∅ →
  let c := foldl (flip run_op) (New empty) ops in
  NoDup (evicted c) ∧
  ∀ h r, heap c !! h = Some r →
    h ∈ evicted c ↔
      lru_map (inner c) !! rc_key r ≠ Some h ∧ (h, false) ∉ dones c.
Proof.
  intros He c. pose proof (wf_run ops _ (wf_New _ He)) as Hw. fold c in Hw.
  destruct Hw as [Hc Hu Hn Hd Hh Hnd Hev].
  split; [done|]. intros h r Hr. rewrite Hev.
  pose proof (Hn _ _ Hr) as Hcount. pose proof (live_nonneg h (dones c)).
  change (count h []) with 0 in Hcount.
  split.
  - intros (r' & Hr' & Hz). assert (r' = r) as -> by congruence.
    destruct (rc_finalized r) eqn:Ef; [|lia]. split.
    + intros (r'' & ? & ? & ?)%Hc. congruence.
    + assert (live h (dones c) = 0) as Hl by lia. unfold live, zlen in Hl.
      apply (filter_nil_not_elem_of (λ d, d = (h, false))); [|done].
      apply nil_length_inv. lia.
  - intros [Hnc Hnl]. exists r. split; [done|].
    destruct (rc_finalized r) eqn:Ef; [|by edestruct Hnc; eauto].
    rewrite Hcount. assert (live h (dones c) = 0) as ->; [|done].
    apply zlen_filter_none. by intros d Hin ->.
Qed.

(** A value a client still refers to is never finalized. *)
Theorem referenced_not_evicted empty ops i h :
  lru_map empty = ∅ →
  let c := foldl (flip run_op) (New empty) ops in
  dones c !! i = Some (h, false) → h ∉ evicted c.
Proof.
  intros He c Hi. pose proof (wf_run ops _ (wf_New _ He)) as Hw. fold c in Hw.
  destruct Hw as [Hc Hu Hn Hd Hh Hnd Hev].
  rewrite Hev. intros (r & Hr & Hz). rewrite (Hn _ _ Hr) in Hz.
  apply list_elem_of_lookup_2 in Hi.
  assert (0 < live h (dones c)); [|destruct (rc_finalized r); change (count h []) with 0 in Hz; lia].
  unfold live, zlen. destruct (filter _ (dones c)) eqn:E; simpl; [|lia].
  by apply (filter_nil_not_elem_of (λ d, d = (h, false)) _ (h, false)) in E.
Qed.

(** The value the cache has for a key. *)
Definition cached (key : string) c : option V :=
  h ← lru_map (inner c) !! key; r ← heap c !! h; Some (rc_v r).

(** [Add] keeps and returns the value that is cached under the key, if there is one,
    and otherwise caches the new one, which this call does not evict. *)
Theorem Add_keeps_existing key value c :
  wf c →
  (Add key value c).1.1.1 = default value (cached key c) ∧
  (Add key value c).1.2 = bool_decide (cached key c = None) ∧
  cached key (Add key value c).2 = Some (default value (cached key c)).
Proof.
  intros Hw. unfold Add, cached. destruct (lru_Get_spec key (inner c)) as [Hg Hl].
  destruct (lru_Get key (inner c)) as [[h|] l]; simpl in *; rewrite <-Hg; simpl.
  - destruct (inv_cached _ _ _ Hw _ _ (eq_sym Hg)) as (r & Hr & _).
    rewrite list_lookup_alter_eq, Hr. simpl.
    by rewrite Hl, <-Hg; simpl; rewrite list_lookup_alter_eq, Hr.
  - pose proof (lru_Add_spec key (length (heap c)) l) as Ha. rewrite Hl in Ha.
    specialize (Ha ltac:(by symmetry)).
    destruct (lru_Add key (length (heap c)) l) as [ev l'] eqn:E. simpl in *.
    split; [done|]. split; [done|].
    destruct Ha as [[-> Hm]|(k' & v' & Hne & Hk' & -> & Hm)]; simpl in *.
    + rewrite Hm, lookup_insert_eq. simpl. by rewrite lookup_app_r, Nat.sub_diag by lia.
    + rewrite rc_finalize_inner. simpl. rewrite Hm, lookup_delete_ne, lookup_insert_eq by done.
      simpl. destruct (inv_cached _ _ _ Hw _ _ Hk') as (r & Hr & _ & Hf).
      pose proof (lookup_lt_Some _ _ _ Hr).
      unfold rc_finalize. simpl. rewrite lookup_app_l by done. rewrite Hr, Hf.
      unfold rc_dec. simpl. repeat case_match; simpl;
        rewrite !list_lookup_alter_ne by lia; by rewrite lookup_app_r, Nat.sub_diag by lia.
Qed.
End cache.
Arguments op : clear implicits.
Arguments inv {L V} _ _ _ : assert.

(** ** A least-recently-used order

    An instance of the interface: the cached keys with their recency, oldest last. *)
Record lru_state := mkLRU { lru_max : nat; lru_entries : gmap string nat; lru_order : list string }.

Definition lru_oldest (k : string) (l : lru_state) : option (string * nat) :=
  list_find (λ k', k' ≠ k ∧ is_Some (lru_entries l !! k')) (reverse (lru_order l)) ≫=
    λ '(_, k'), v ← lru_entries l !! k'; Some (k', v).

Definition lru_push (k : string) (l : lru_state) : list string :=
  k :: filter (λ k', k' ≠ k) (lru_order l).

#[global] Instance lru_list : LRU lru_state := {|
  lru_map := lru_entries;
  lru_Get k l := (lru_entries l !! k, mkLRU (lru_max l) (lru_entries l)
    (if bool_decide (is_Some (lru_entries l !! k)) then lru_push k l else lru_order l));
  lru_Add k v l :=
    let m := <[k := v]> (lru_entries l) in
    let l' := mkLRU (lru_max l) m (lru_push k l) in
    if bool_decide (lru_max l ≠ 0%nat ∧ (lru_max l < base.size m)%nat) then
      match lru_oldest k l with
      | Some (k', v') => ([(k', v')], mkLRU (lru_max l) (delete k' m) (lru_push k l))
      | None => ([], l')
      end
    else ([], l');
  lru_Remove k l :=
    (match lru_entries l !! k with Some v => [(k, v)] | None => [] end,
     mkLRU (lru_max l) (delete k (lru_entries l)) (filter (λ k', k' ≠ k) (lru_order l)))
|}.

#[global] Instance lru_list_laws : LRULaws lru_state.
Proof.
  split; [done| |done]. intros k v l Hk. simpl. case_bool_decide; [|by left].
  destruct (lru_oldest k l) as [[k' v']|] eqn:E; [right|by left].
  unfold lru_oldest in E. apply bind_Some in E as ([j k''] & (_ & [Hne _] & _)%list_find_Some & E).
  apply bind_Some in E as (w & Hw & ?). simplify_eq. eauto 6.
Qed.
