(* ===== verification/NamedMutex.v ===== *)
(** * Named mutexes

    Models [util/namedmutex/namedmutex.go] as a transition system over its threads.  The
    maps change only while [nl.mu] is held, so [Lock] and [Unlock] are two atomic steps
    each: the bookkeeping under [nl.mu], and the operation on the named [sync.Mutex]. *)
From Stdlib Require Import ZArith Lia.
From stdpp Require Import base list gmap strings numbers.
From S2P Require Import Prelude GoLib.
#[local] Open Scope Z_scope.

(** Mutexes are allocated in a heap; the value tells whether it is locked. *)
Record NamedMutex := mkNM {
  muMap : gmap string nat;
  refMap : gmap string Z;
  mutexes : list bool
}.

Definition emptyNM : NamedMutex := mkNM ∅ ∅ [].

(** [Lock] up to [nl.mu.Unlock()]: yields the mutex to lock. *)
Definition Lock_register (name : string) (nl : NamedMutex) : nat * NamedMutex :=
  let '(mm, heap) :=
    match muMap nl !! name with
    | Some _ => (muMap nl, mutexes nl)
    | None => (<[name := length (mutexes nl)]> (muMap nl), mutexes nl ++ [false])
    end in
  (default 0%nat (mm !! name),
   mkNM mm (<[name := default 0 (refMap nl !! name) + 1]> (refMap nl)) heap).

(** [Unlock] up to [nl.mu.Unlock()]: yields the mutex to unlock, if the map has one. *)
Definition Unlock_register (name : string) (nl : NamedMutex) : option nat * NamedMutex :=
  let mu := muMap nl !! name in
  let n := default 0 (refMap nl !! name) - 1 in
  (mu, if n <=? 0
       then mkNM (delete name (muMap nl)) (delete name (refMap nl)) (mutexes nl)
       else mkNM (muMap nl) (<[name := n]> (refMap nl)) (mutexes nl)).

Definition set_mutex (h : nat) (b : bool) (nl : NamedMutex) : NamedMutex :=
  mkNM (muMap nl) (refMap nl) (<[h := b]> (mutexes nl)).

(** A thread's position in its [Lock]/[Unlock] calls. *)
Inductive thread :=
| Idle
| Waiting (name : string) (h : nat)       (* in [mu.Lock()] *)
| Holding (name : string) (h : nat)       (* [Lock] returned *)
| Unlocking (h : option nat).             (* before [mu.Unlock()] *)

#[global] Instance thread_eq_dec : EqDecision thread.
Proof. solve_decision. Defined.

Definition system : Type := NamedMutex * list thread.

Inductive step : system → system → Prop :=
| step_lock nl ts i name :
    ts !! i = Some Idle →
    step (nl, ts) ((Lock_register name nl).2,
                   <[i := Waiting name (Lock_register name nl).1]> ts)
| step_acquire nl ts i name h :
    ts !! i = Some (Waiting name h) → mutexes nl !! h = Some false →
    step (nl, ts) (set_mutex h true nl, <[i := Holding name h]> ts)
| step_unlock nl ts i name h :
    ts !! i = Some (Holding name h) →
    step (nl, ts) ((Unlock_register name nl).2,
                   <[i := Unlocking (Unlock_register name nl).1]> ts)
| step_release nl ts i h :
    ts !! i = Some (Unlocking (Some h)) →
    step (nl, ts) (set_mutex h false nl, <[i := Idle]> ts).

(** ** Invariant *)
Definition refers (n : string) (t : thread) : bool :=
  match t with Waiting n' _ | Holding n' _ => bool_decide (n = n') | _ => false end.
Definition owns (h : nat) (t : thread) : bool :=
  match t with
  | Holding _ h' | Unlocking (Some h') => bool_decide (h = h')
  | _ => false
  end.
Definition references (n : string) (ts : list thread) : Z :=
  zlen (filter (λ t, refers n t = true) ts).

Record inv (s : system) : Prop := {
  inv_mutex i n h :
    s.2 !! i = Some (Waiting n h) ∨ s.2 !! i = Some (Holding n h) → muMap s.1 !! n = Some h;
  inv_refs n : refMap s.1 !! n =
    (if decide (references n s.2 = 0) then None else Some (references n s.2));
  inv_muMap n : is_Some (muMap s.1 !! n) ↔ is_Some (refMap s.1 !! n);
  inv_alloc n h : muMap s.1 !! n = Some h → (h < length (mutexes s.1))%nat;
  inv_owner_alloc i t h : s.2 !! i = Some t → owns h t = true → (h < length (mutexes s.1))%nat;
  inv_unique i j t t' h : s.2 !! i = Some t → s.2 !! j = Some t' →
    owns h t = true → owns h t' = true → i = j;
  inv_locked h : mutexes s.1 !! h = Some true ↔ ∃ i t, s.2 !! i = Some t ∧ owns h t = true;
  inv_unlocking i : s.2 !! i ≠ Some (Unlocking None)
}.

Lemma references_insert n ts i t t' : ts !! i = Some t →
  references n (<[i := t']> ts) =
  references n ts - Z.b2z (refers n t) + Z.b2z (refers n t').
Proof.
  intros Hi. unfold references.
  rewrite <-(take_drop_middle ts i t) at 2 by done.
  rewrite insert_take_drop by eauto using lookup_lt_Some.
  rewrite !list.filter_app, !zlen_app, !filter_cons.
  destruct (refers n t), (refers n t'); simpl; rewrite ?zlen_cons; lia.
Qed.

Lemma references_nonneg n ts : 0 ≤ references n ts.
Proof. apply zlen_nonneg. Qed.

Lemma references_pos n ts i t : ts !! i = Some t → refers n t = true → 0 < references n ts.
Proof.
  intros Hi Hr. unfold references, zlen.
  destruct (filter _ ts) eqn:E; simpl; [|lia].
  apply (filter_nil_not_elem_of (λ t, refers n t = true) ts t) in E; [|done].
  by apply list_elem_of_lookup_2 in Hi.
Qed.

Lemma inv_init k : inv (emptyNM, replicate k Idle).
Proof.
  assert (∀ i t, replicate k Idle !! i = Some t → t = Idle) as Hidle.
  { by intros i t [-> _]%lookup_replicate. }
  assert (∀ n, references n (replicate k Idle) = 0) as Hrefs.
  { intros n. unfold references. induction k; [done|]. simpl. apply IHk.
    intros i t Hi. apply (Hidle (S i)). done. }
  split; simpl.
  - by intros i n h [?%Hidle|?%Hidle].
  - intros n. rewrite Hrefs. done.
  - intros n. rewrite !lookup_empty. done.
  - intros n h. by rewrite lookup_empty.
  - by intros i t h ->%Hidle.
  - by intros i j t t' h ->%Hidle.
  - intros h. split; [done|]. by intros (i & t & ->%Hidle & ?).
  - by intros i ?%Hidle.
Qed.

Lemma inv_lookup_insert (ts : list thread) i j t t' :
  <[i := t]> ts !! j = Some t' → i = j ∧ t' = t ∨ i ≠ j ∧ ts !! j = Some t'.
Proof. intros [(-> & -> & _)|[? ?] ]%list_lookup_insert_Some; auto. Qed.

(** Ownership is untouched when a thread moves between states that own nothing. *)
Lemma owners_unchanged (ts : list thread) (i : nat) t t' h :
  ts !! i = Some t → owns h t = owns h t' →
  (∃ j u, <[i := t']> ts !! j = Some u ∧ owns h u = true) ↔
  (∃ j u, ts !! j = Some u ∧ owns h u = true).
Proof.
  intros Hi Ho. split.
  - intros (j & u & [[<- ->]|[Hne Hj] ]%inv_lookup_insert & Hu); [|by eauto].
    exists i, t. by rewrite Ho.
  - intros (j & u & Hj & Hu). destruct (decide (i = j)) as [<-|Hne].
    + exists i, t'. rewrite list_lookup_insert_eq by eauto using lookup_lt_Some.
      simplify_eq. by rewrite <-Ho.
    + exists j, u. by rewrite list_lookup_insert_ne.
Qed.

Lemma refs_after_lock nl ts i name w n :
  (∀ n, refMap nl !! n =
    if decide (references n ts = 0) then None else Some (references n ts)) →
  ts !! i = Some Idle →
  (<[name := default 0 (refMap nl !! name) + 1]> (refMap nl)) !! n =
    if decide (references n (<[i := Waiting name w]> ts) = 0) then None
    else Some (references n (<[i := Waiting name w]> ts)).
Proof.
  intros Hr Hi. rewrite (references_insert _ _ _ _ _ Hi). simpl.
  pose proof (references_nonneg n ts).
  destruct (decide (n = name)) as [->|Hne].
  - rewrite lookup_insert_eq, bool_decide_true by done. simpl.
    rewrite decide_False by lia. rewrite Hr. case_decide as E; simpl; f_equal; lia.
  - rewrite lookup_insert_ne, bool_decide_false, Z.add_0_r, Z.sub_0_r by done. apply Hr.
Qed.

Lemma unique_unowned (ts : list thread) (i : nat) t :
  (∀ (j j' : nat) u u' h, ts !! j = Some u → ts !! j' = Some u' →
    owns h u = true → owns h u' = true → j = j') →
  (∀ h, owns h t = false) →
  ∀ (j j' : nat) u u' h, <[i := t]> ts !! j = Some u → <[i := t]> ts !! j' = Some u' →
    owns h u = true → owns h u' = true → j = j'.
Proof.
  intros Hu Ht j j' u u' h [[<- ->]|[? ?] ]%inv_lookup_insert; [by rewrite Ht|].
  intros [[<- ->]|[? ?] ]%inv_lookup_insert; [by rewrite Ht|by eauto].
Qed.

Lemma inv_step_lock nl ts i name :
  ts !! i = Some Idle → inv (nl, ts) →
  inv ((Lock_register name nl).2, <[i := Waiting name (Lock_register name nl).1]> ts).
Proof.
  intros Hi [Hm Hr Hd Ha Ho Hu Hl Hn]; simpl in *.
  unfold Lock_register.
  destruct (muMap nl !! name) as [h|] eqn:E; simpl; rewrite ?E, ?lookup_insert_eq; simpl; split; simpl;
    try (by intros; apply refs_after_lock); try (by eauto);
    try (by apply unique_unowned).
  - intros j n h' [Hj|Hj]; apply inv_lookup_insert in Hj as [[<- ?]|[? ?] ]; simplify_eq; eauto.
  - intros n. destruct (decide (n = name)) as [->|].
    + rewrite lookup_insert_eq, E. naive_solver.
    + by rewrite lookup_insert_ne by done.
  - intros j t h' [[<- ->]|[? ?] ]%inv_lookup_insert; [done|by eauto].
  - intros h'. rewrite Hl. symmetry. by apply owners_unchanged with Idle.
  - intros j [[<- ?]|[? ?] ]%inv_lookup_insert; [done|]. by eapply Hn.
  - assert (∀ j h, ts !! j ≠ Some (Waiting name h) ∧ ts !! j ≠ Some (Holding name h)) as Hno.
    { intros j h. split; intros Hj; specialize (Hm j name h); naive_solver. }
    intros j n h' [Hj|Hj]; apply inv_lookup_insert in Hj as [[<- ?]|[? ?] ]; simplify_eq;
      rewrite ?lookup_insert_eq; try done;
      (rewrite lookup_insert_ne; [by eauto|]; intros <-; by edestruct Hno).
  - intros n. destruct (decide (n = name)) as [->|].
    + rewrite !lookup_insert_eq. naive_solver.
    + by rewrite !lookup_insert_ne by done.
  - intros n h'. rewrite length_app. intros [[<- <-]|[? ?%Ha] ]%lookup_insert_Some; simpl; lia.
  - intros j t h'. rewrite length_app. intros [[<- ->]|[? Hj] ]%inv_lookup_insert; [done|].
    intros ?. specialize (Ho _ _ _ Hj ltac:(eassumption)). lia.
  - intros h'. rewrite (owners_unchanged _ _ Idle) by done. rewrite <-Hl.
    destruct (decide (h' < length (mutexes nl))%nat) as [?|Hge].
    + by rewrite lookup_app_l.
    + rewrite lookup_app_r, lookup_ge_None_2 with (l := mutexes nl) by lia.
      split; [|done]. by intros [_ ?]%list_lookup_singleton_Some.
  - intros j [[<- ?]|[? ?] ]%inv_lookup_insert; [done|]. by eapply Hn.
Qed.

Lemma inv_step_acquire nl ts i name h :
  ts !! i = Some (Waiting name h) → mutexes nl !! h = Some false → inv (nl, ts) →
  inv (set_mutex h true nl, <[i := Holding name h]> ts).
Proof.
  intros Hi Hfree [Hm Hr Hd Ha Ho Hu Hl Hn]; simpl in *.
  assert (h < length (mutexes nl))%nat by eauto using lookup_lt_Some.
  assert (∀ j u, ts !! j = Some u → owns h u = true → False) as Hnone.
  { intros j u Hj Hu'. assert (mutexes nl !! h = Some true) by (apply Hl; eauto). congruence. }
  split; simpl; rewrite ?length_insert; eauto.
  - intros j n h' [Hj|Hj]; apply inv_lookup_insert in Hj as [[<- ?]|[? ?] ]; simplify_eq; eauto.
  - intros n. rewrite (references_insert _ _ _ _ _ Hi). simpl.
    rewrite Z.sub_simpl_r. apply Hr.
  - intros j t h' [[<- ->]|[? ?] ]%inv_lookup_insert; [|by eauto].
    by intros ->%bool_decide_eq_true.
  - intros j j' t t' h' [[<- ->]|[? ?] ]%inv_lookup_insert [[<- ->]|[? ?] ]%inv_lookup_insert;
      simpl; intros Ho1 Ho2; try done; try (by eauto);
      [apply bool_decide_eq_true in Ho1|apply bool_decide_eq_true in Ho2]; subst; exfalso; eauto.
  - intros h'. destruct (decide (h' = h)) as [->|Hne].
    + rewrite list_lookup_insert_eq by done. split; [|done]. intros _.
      exists i, (Holding name h). rewrite list_lookup_insert_eq by eauto using lookup_lt_Some.
      split; [done|]. by apply bool_decide_eq_true.
    + rewrite list_lookup_insert_ne, Hl by done. symmetry.
      apply owners_unchanged with (Waiting name h); [done|]. simpl. by rewrite bool_decide_false.
  - intros j [[<- ?]|[? ?] ]%inv_lookup_insert; [done|]. by eapply Hn.
Qed.

Lemma inv_step_release nl ts i h :
  ts !! i = Some (Unlocking (Some h)) → inv (nl, ts) →
  inv (set_mutex h false nl, <[i := Idle]> ts).
Proof.
  intros Hi [Hm Hr Hd Ha Ho Hu Hl Hn]; simpl in *.
  split; simpl; rewrite ?length_insert; eauto; try (by apply unique_unowned).
  - intros j n h' [Hj|Hj]; apply inv_lookup_insert in Hj as [[<- ?]|[? ?] ]; simplify_eq; eauto.
  - intros n. rewrite (references_insert _ _ _ _ _ Hi). simpl.
    rewrite Z.sub_0_r, Z.add_0_r. apply Hr.
  - intros j t h' [[<- ->]|[? ?] ]%inv_lookup_insert; [done|by eauto].
  - intros h'. destruct (decide (h' = h)) as [->|Hne].
    + rewrite list_lookup_insert_eq
        by (eapply Ho; [exact Hi|by apply bool_decide_eq_true]).
      split; [done|]. intros (j & u & [[<- ->]|[Hne Hj] ]%inv_lookup_insert & Hu'); [done|].
      destruct Hne. eapply Hu; [exact Hi|exact Hj|by apply bool_decide_eq_true|exact Hu'].
    + rewrite list_lookup_insert_ne, Hl by done. symmetry.
      apply owners_unchanged with (Unlocking (Some h)); [done|]. simpl. by rewrite bool_decide_false.
  - intros j [[<- ?]|[? ?] ]%inv_lookup_insert; [done|]. by eapply Hn.
Qed.

Lemma refs_after_unlock nl ts i name h mu n :
  (∀ n, refMap nl !! n =
    if decide (references n ts = 0) then None else Some (references n ts)) →
  ts !! i = Some (Holding name h) →
  refMap (Unlock_register name nl).2 !! n =
    if decide (references n (<[i := Unlocking mu]> ts) = 0) then None
    else Some (references n (<[i := Unlocking mu]> ts)).
Proof.
  intros Hr Hi. rewrite (references_insert _ _ _ _ _ Hi). simpl.
  assert (0 < references name ts) as Hpos.
  { eapply references_pos; [exact Hi|]. by apply bool_decide_eq_true. }
  unfold Unlock_register. rewrite (Hr name), decide_False by lia. simpl.
  destruct (Z.leb_spec (references name ts - 1) 0), (decide (n = name)) as [->|]; simpl.
  - rewrite lookup_delete_eq, bool_decide_true, decide_True by (done || simpl; lia). done.
  - rewrite lookup_delete_ne, bool_decide_false, Z.sub_0_r, Z.add_0_r by done. apply Hr.
  - rewrite lookup_insert_eq, bool_decide_true, decide_False by (done || simpl; lia).
    f_equal. simpl. lia.
  - rewrite lookup_insert_ne, bool_decide_false, Z.sub_0_r, Z.add_0_r by done. apply Hr.
Qed.

Lemma muMap_after_unlock nl ts i name h n :
  (∀ n, refMap nl !! n =
    if decide (references n ts = 0) then None else Some (references n ts)) →
  ts !! i = Some (Holding name h) →
  muMap (Unlock_register name nl).2 !! n =
    if decide (n = name ∧ references name ts = 1) then None else muMap nl !! n.
Proof.
  intros Hr Hi. assert (0 < references name ts) by
    (eapply references_pos; [exact Hi|]; by apply bool_decide_eq_true).
  unfold Unlock_register. rewrite (Hr name), (decide_False (P := references _ _ = 0)) by lia.
  simpl. zcases; case_decide as Hd'; simpl; try done; try lia.
  - destruct Hd' as [-> _]. by rewrite lookup_delete_eq.
  - rewrite lookup_delete_ne; [done|]. intros <-. apply Hd'. split; [done|lia].
Qed.

Lemma inv_step_unlock nl ts i name h :
  ts !! i = Some (Holding name h) → inv (nl, ts) →
  inv ((Unlock_register name nl).2, <[i := Unlocking (Unlock_register name nl).1]> ts).
Proof.
  intros Hi [Hm Hr Hd Ha Ho Hu Hl Hn]; simpl in Hm, Hr, Hd, Ha, Ho, Hu, Hl, Hn.
  pose proof (Hm _ _ _ (or_intror Hi)) as Hmu.
  change (Unlock_register name nl).1 with (muMap nl !! name). rewrite Hmu.
  pose proof (λ n, muMap_after_unlock nl ts i name h n Hr Hi) as Hmm.
  pose proof (λ n, refs_after_unlock nl ts i name h (Some h) n Hr Hi) as Hrefs.
  assert (∀ j n h', <[i := Unlocking (Some h)]> ts !! j = Some (Waiting n h') ∨
    <[i := Unlocking (Some h)]> ts !! j = Some (Holding n h') →
    0 < references n (<[i := Unlocking (Some h)]> ts) ∧ muMap nl !! n = Some h') as Hstay.
  { intros j n h' Hj. split.
    - destruct Hj as [Hj|Hj]; (eapply references_pos; [exact Hj|]; by apply bool_decide_eq_true).
    - destruct Hj as [Hj|Hj]; apply inv_lookup_insert in Hj as [[? ?]|[? ?] ]; simplify_eq; eauto. }
  assert (mutexes (Unlock_register name nl).2 = mutexes nl) as Hmx.
  { unfold Unlock_register. simpl. by zcases. }
  assert (∀ h', owns h' (Unlocking (Some h)) = owns h' (Holding name h)) as Hown by done.
  generalize dependent (Unlock_register name nl).2. intros nl' Hmm Hrefs Hmx.
  split; simpl; rewrite ?Hmx; try done.
  - intros j n h' Hj. destruct (Hstay _ _ _ Hj) as [Hp Hm']. rewrite Hmm, decide_False; [done|].
    intros [-> Hone]. rewrite (references_insert _ _ _ _ _ Hi) in Hp. simpl in Hp.
    rewrite bool_decide_true in Hp by done. simpl in Hp. lia.
  - intros n. rewrite Hmm, Hrefs, (references_insert _ _ _ _ _ Hi). simpl.
    pose proof (Hd n) as Hdn. rewrite Hr in Hdn. rewrite Z.add_0_r.
    destruct (decide (n = name)) as [->|].
    + rewrite bool_decide_true by done. simpl.
      destruct (decide (references name ts = 1)) as [->|];
        [rewrite !decide_True by done; by split; intros [? ?]|].
      rewrite (decide_False (P := _ ∧ _)) by naive_solver.
      rewrite Hmu, decide_False by lia. split; by eauto.
    + rewrite bool_decide_false, Z.sub_0_r, (decide_False (P := _ ∧ _)) by naive_solver. done.
  - intros n h'. rewrite Hmm. destruct (decide (n = name ∧ _)); [done|]. apply Ha.
  - intros j t h' [[<- ->]|[? ?] ]%inv_lookup_insert; [|by eauto].
    rewrite Hown. intros. by apply (Ho _ _ _ Hi).
  - intros j j' t t' h' [[<- ->]|[? ?] ]%inv_lookup_insert [[<- ->]|[? ?] ]%inv_lookup_insert;
      rewrite ?Hown; intros; try done; by eauto.
  - intros h'. rewrite Hl. symmetry. by apply owners_unchanged with (Holding name h).
  - intros j [[<- ?]|[? ?] ]%inv_lookup_insert; [done|]. by eapply Hn.
Qed.

Lemma inv_step s s' : step s s' → inv s → inv s'.
Proof.
  destruct 1; eauto using inv_step_lock, inv_step_acquire, inv_step_unlock, inv_step_release.
Qed.

Lemma inv_reachable k s : rtc step (emptyNM, replicate k Idle) s → inv s.
Proof.
  intros Hs. cut (∀ s0, inv s0 → rtc step s0 s → inv s); [eauto using inv_init|].
  clear Hs. intros s0 H0 Hs. induction Hs; eauto using inv_step.
Qed.

(** ** Guarantees *)

(** In every interleaving of any number of threads, two threads never hold the
    mutex of the same name. *)
Theorem mutual_exclusion k nl ts i j name h h' :
  rtc step (emptyNM, replicate k Idle) (nl, ts) →
  ts !! i = Some (Holding name h) → ts !! j = Some (Holding name h') → i = j.
Proof.
  intros Hs Hi Hj. apply inv_reachable in Hs.
  pose proof (inv_mutex _ Hs i name h (or_intror Hi)).
  pose proof (inv_mutex _ Hs j name h' (or_intror Hj)). simplify_eq.
  eapply (inv_unique _ Hs); [exact Hi|exact Hj| |]; by apply bool_decide_eq_true.
Qed.

(** [Unlock] always unlocks the mutex its caller locked ([muMap[name]] is not nil),
    and a waiting thread is never stuck behind a mutex nobody will unlock. *)
Theorem unlock_own_mutex k nl ts i name h :
  rtc step (emptyNM, replicate k Idle) (nl, ts) →
  (ts !! i = Some (Holding name h) → (Unlock_register name nl).1 = Some h) ∧
  (ts !! i = Some (Waiting name h) → mutexes nl !! h = Some false ∨
     ∃ j t, ts !! j = Some t ∧ owns h t = true).
Proof.
  intros Hs%inv_reachable. split.
  - intros Hi. exact (inv_mutex _ Hs i name h (or_intror Hi)).
  - intros Hi. pose proof (inv_mutex _ Hs i name h (or_introl Hi)) as Hm.
    apply (inv_alloc _ Hs) in Hm. apply lookup_lt_is_Some_2 in Hm as [[] Hb]; [|by left].
    right. by apply (inv_locked _ Hs).
Qed.

(** The maps hold an entry for exactly the names some thread waits for or holds, so
    names that are no longer used leave nothing behind. *)
Theorem no_leaked_names k nl ts name :
  rtc step (emptyNM, replicate k Idle) (nl, ts) →
  is_Some (muMap nl !! name) ↔ ∃ i h, ts !! i = Some (Waiting name h) ∨ ts !! i = Some (Holding name h).
Proof.
  intros Hs%inv_reachable. rewrite (inv_muMap _ Hs), (inv_refs _ Hs). simpl.
  pose proof (references_nonneg name ts). split.
  - case_decide as Hz; [by intros [? ?]|]. intros _.
    unfold references, zlen in Hz. destruct (filter _ ts) as [|t l] eqn:E; [done|].
    assert (t ∈ filter (λ t, refers name t = true) ts) as [Ht Hin]%list_elem_of_filter
      by (rewrite E; left).
    apply list_elem_of_lookup in Hin as [i Hi]. exists i.
    destruct t; simpl in Ht; try done; apply bool_decide_eq_true in Ht; subst; eauto.
  - intros (i & h & Hi). rewrite decide_False; [by eauto|].
    assert (0 < references name ts); [|lia].
    destruct Hi as [Hi|Hi]; (eapply references_pos; [exact Hi|]; by apply bool_decide_eq_true).
Qed.
