(* ===== verification/BlobCache.v ===== *)
(** * Blob caches

    Models [cache/cache.go]: the [BlobCache]/[Writer]/[Reader] interfaces as a class
    with laws, [MemoryCache], and [directoryCache] over a file system whose calls may
    fail.  [BlobCacheLaws] is what the span manager relies on. *)
From Stdlib Require Import ZArith Lia.
From stdpp Require Import base list gmap strings numbers.
From S2P Require Import Prelude GoLib.
#[local] Open Scope Z_scope.

(** ** The interface

    A reader is the bytes it serves: what was committed when it was opened. *)
Class BlobCache (C W : Type) := {
  cache_Add : string → ST C W;
  cache_Get : string → ST C bytes;
  cache_Close : ST C ();
  writer_Write : W → bytes → ST C Z;
  writer_Commit : W → ST C ();
  writer_Abort : W → ST C ();
  writer_Close : W → ST C ()
}.

(** [view] is the committed contents, [pending] the key of an open, uncommitted writer
    and what was written to it, [cache_ok] the invariant of the cache, and [healthy] the
    states in which no call fails. *)
Class BlobCacheLaws (C W : Type) `{BlobCache C W} := {
  view : C → gmap string bytes;
  pending : W → C → option (string * bytes);
  cache_ok : C → Prop;
  healthy : C → Prop;
  add_law k c : cache_ok c →
    match cache_Add k c with
    | (Ok w, c') => cache_ok c' ∧ view c' = view c ∧ pending w c' = Some (k, []) ∧
        (healthy c → healthy c')
    | (Err _, c') => cache_ok c' ∧ view c' = view c ∧ ¬ healthy c
    | (Panic, _) => False
    end;
  write_law w p k b c : cache_ok c → pending w c = Some (k, b) →
    match writer_Write w p c with
    | (Ok _, c') => cache_ok c' ∧ view c' = view c ∧ pending w c' = Some (k, b ++ p) ∧
        (healthy c → healthy c')
    | (Err _, c') => cache_ok c' ∧ view c' = view c ∧ ¬ healthy c
    | (Panic, _) => False
    end;
  commit_law w k b c : cache_ok c → pending w c = Some (k, b) →
    match writer_Commit w c with
    | (Ok _, c') => cache_ok c' ∧ view c' = <[k := b]> (view c) ∧ (healthy c → healthy c')
    | (Err _, c') => cache_ok c' ∧ view c' = view c ∧ ¬ healthy c
    | (Panic, _) => False
    end;
  abort_law w c : cache_ok c →
    (writer_Abort w c).1 ≠ Panic ∧ cache_ok (writer_Abort w c).2 ∧
    view (writer_Abort w c).2 = view c ∧ (healthy c → healthy (writer_Abort w c).2);
  close_law w c : cache_ok c →
    (writer_Close w c).1 ≠ Panic ∧ cache_ok (writer_Close w c).2 ∧
    view (writer_Close w c).2 = view c ∧ (healthy c → healthy (writer_Close w c).2);
  get_law k c : cache_ok c →
    match cache_Get k c with
    | (Ok b, c') => cache_ok c' ∧ view c' = view c ∧ view c !! k = Some b ∧
        (healthy c → healthy c')
    | (Err _, c') => cache_ok c' ∧ view c' = view c ∧ (healthy c → view c !! k = None ∧ healthy c')
    | (Panic, _) => False
    end
}.

(** ** [MemoryCache]

    Buffers are heap objects: [Add] makes one, [Commit] stores its pointer in the map. *)
Module MemoryCache.

Record t := mk { Membuf : gmap string nat; buffers : list bytes }.

Definition NewMemoryCache : t := mk ∅ [].

Record writer := mkWriter { w_key : string; w_buf : nat }.

Definition Add (key : string) : ST t writer := λ mc,
  (Ok (mkWriter key (length (buffers mc))), mk (Membuf mc) (buffers mc ++ [ [] ])).

Definition Get (key : string) : ST t bytes := λ mc,
  (match Membuf mc !! key with
   | Some b => Ok (default [] (buffers mc !! b))
   | None => Err (ErrorString "missed cache")
   end, mc).

Definition Write (w : writer) (p : bytes) : ST t Z := λ mc,
  (Ok (zlen p), mk (Membuf mc) (alter (λ b, b ++ p) (w_buf w) (buffers mc))).

Definition Commit (w : writer) : ST t () := λ mc,
  (Ok tt, mk (<[w_key w := w_buf w]> (Membuf mc)) (buffers mc)).

Definition Abort (w : writer) : ST t () := st_ret tt.
Definition CloseWriter (w : writer) : ST t () := st_ret tt.
Definition Close : ST t () := st_ret tt.

#[global] Instance blob_cache : BlobCache t writer := {|
  cache_Add := Add; cache_Get := Get; cache_Close := Close;
  writer_Write := Write; writer_Commit := Commit;
  writer_Abort := Abort; writer_Close := CloseWriter
|}.

Definition view (c : t) : gmap string bytes := (λ b, default [] (buffers c !! b)) <$> Membuf c.
Definition committed (b : nat) (c : t) : Prop := map_Exists (λ _ b', b' = b) (Membuf c).
#[global] Instance committed_dec b c : Decision (committed b c) := _.
Definition pending (w : writer) (c : t) : option (string * bytes) :=
  if decide (committed (w_buf w) c) then None
  else b ← buffers c !! w_buf w; Some (w_key w, b).
Definition ok (c : t) : Prop := map_Forall (λ _ b, (b < length (buffers c))%nat) (Membuf c).

Lemma mem_pending_inv w c k b : pending w c = Some (k, b) →
  ¬ committed (w_buf w) c ∧ buffers c !! w_buf w = Some b ∧ w_key w = k.
Proof.
  unfold pending. case_decide; [done|]. intros (b' & Hb & ?)%bind_Some. by simplify_eq.
Qed.

Lemma view_buffers m bufs bufs' :
  (∀ k b, m !! k = Some b → bufs !! b = bufs' !! b) → view (mk m bufs) = view (mk m bufs').
Proof.
  intros Hb. unfold view. simpl. apply map_fmap_ext. intros k b Hk. by rewrite (Hb k).
Qed.

(** The memory cache satisfies the laws and never fails. *)
#[global, refine] Instance laws : BlobCacheLaws t writer :=
  {| BlobCache.view := view; BlobCache.pending := pending;
     cache_ok := ok; healthy _ := True |}.
Proof.
  - intros k [m bufs] Hok. simpl. unfold ok in *. simpl in *. split_and!; [..|done].
    + intros k' b Hb. rewrite length_app. specialize (Hok k' b Hb). simpl in Hok. lia.
    + apply view_buffers. intros k' b Hb. specialize (Hok k' b Hb).
      by rewrite lookup_app_l.
    + unfold pending. simpl. rewrite decide_False.
      * by rewrite lookup_app_r, Nat.sub_diag by lia.
      * intros (k' & b & Hb & ->). specialize (Hok k' _ Hb). simpl in Hok. lia.
  - intros w p k b [m bufs] Hok (Hc & Hb & <-)%mem_pending_inv. simpl in *.
    assert (∀ k b, m !! k = Some b → b ≠ w_buf w) as Hne.
    { intros k' b' Hk' ->. apply Hc. by exists k', (w_buf w). }
    split_and!; [..|done].
    + intros k' b' Hk'. simpl. rewrite length_alter. by apply (Hok k').
    + apply view_buffers. intros k' b' Hk'%Hne. by rewrite list_lookup_alter_ne.
    + unfold pending. rewrite decide_False by done. simpl.
      by rewrite list_lookup_alter_eq, Hb.
  - intros w k b [m bufs] Hok (Hc & Hb & <-)%mem_pending_inv. simpl in *. split_and!; [..|done].
    + apply map_Forall_insert_2; [by eapply lookup_lt_Some|done].
    + unfold view. simpl. by rewrite fmap_insert, Hb.
  - done.
  - done.
  - intros k [m bufs] Hok. simpl. unfold view. simpl.
    destruct (m !! k) as [b|] eqn:E; simpl; rewrite lookup_fmap, E; done.
Defined.
End MemoryCache.

(** ** The file system under a [directoryCache]

    Directory entries point to inodes, so an open file survives renames and removals.
    Every call may fail: [fault] says at which ticks and with which error. *)
Inductive path := CacheFile (key : string) | WipFile (key : string) (serial : nat).

#[global] Instance path_eq_dec : EqDecision path.
Proof. solve_decision. Defined.
#[global] Instance path_countable : Countable path.
Proof.
  refine (inj_countable' (λ p, match p with
      | CacheFile k => inl k | WipFile k n => inr (k, n) end)
    (λ x, match x with inl k => CacheFile k | inr (k, n) => WipFile k n end) _).
  by intros [].
Defined.

Record FS := mkFS {
  inodes : list bytes;
  dirents : gmap path nat;
  fault : nat → option error;
  clock : nat
}.

Definition syscall {A} (f : FS → outcome A * FS) : ST FS A := λ fs,
  let fs' := mkFS (inodes fs) (dirents fs) (fault fs) (S (clock fs)) in
  match fault fs (clock fs) with
  | Some e => (Err e, fs')
  | None => f fs'
  end.

Definition ErrNotExist : error := Sentinel "file does not exist".

(** A fresh name is chosen; the inode number makes it unique. *)
Definition os_CreateTemp (key : string) : ST FS (path * nat) := syscall (λ fs,
  let ino := length (inodes fs) in
  (Ok (WipFile key ino, ino),
   mkFS (inodes fs ++ [ [] ]) (<[WipFile key ino := ino]> (dirents fs)) (fault fs) (clock fs))).

Definition file_Write (ino : nat) (p : bytes) : ST FS Z := syscall (λ fs,
  (Ok (zlen p),
   mkFS (alter (λ b, b ++ p) ino (inodes fs)) (dirents fs) (fault fs) (clock fs))).

Definition os_Rename (old new : path) : ST FS () := syscall (λ fs,
  match dirents fs !! old with
  | None => (Err ErrNotExist, fs)
  | Some ino => (Ok tt, mkFS (inodes fs) (<[new := ino]> (delete old (dirents fs))) (fault fs) (clock fs))
  end).

Definition os_Remove (p : path) : ST FS () := syscall (λ fs,
  match dirents fs !! p with
  | None => (Err ErrNotExist, fs)
  | Some _ => (Ok tt, mkFS (inodes fs) (delete p (dirents fs)) (fault fs) (clock fs))
  end).

Definition os_Open (p : path) : ST FS nat := syscall (λ fs,
  match dirents fs !! p with
  | None => (Err ErrNotExist, fs)
  | Some ino => (Ok ino, fs)
  end).

(** [os.MkdirAll] of the cache directory and [os.RemoveAll] of all of it. *)
Definition os_MkdirAll : ST FS () := syscall (λ fs, (Ok tt, fs)).
Definition os_RemoveAll : ST FS () := syscall (λ fs,
  (Ok tt, mkFS (inodes fs) ∅ (fault fs) (clock fs))).

(** ** [directoryCache] in direct mode

    The mode the span manager runs it in ([cache.Direct()]): no in-memory caches, every
    operation goes to the directory.  Keys hold no path separator. *)
Module DirectoryCache.

Record t := mk { fs : FS; closed : bool }.

Definition on_fs {A} (op : ST FS A) : ST t A := λ dc,
  let '(o, f) := op (fs dc) in (o, mk f (closed dc)).

Definition errClosed : error := ErrorString "cache is already closed".

(** [NewDirectoryCache]: the path must be absolute, both directories are made. *)
Definition NewDirectoryCache (directory : string) (f : FS) : outcome t * FS :=
  if negb (String.prefix "/" directory)
  then (Err (ErrorString "dir cache path must be an absolute path"), f)
  else match os_MkdirAll f with
  | (Ok _, f) =>
      match os_MkdirAll f with
      | (Ok _, f) => (Ok (mk f false), f)
      | (Err e, f) => (Err e, f)
      | (Panic, f) => (Panic, f)
      end
  | (Err e, f) => (Err e, f)
  | (Panic, f) => (Panic, f)
  end.

Record writer := mkWriter { w_key : string; w_ino : nat }.
Definition w_name (w : writer) : path := WipFile (w_key w) (w_ino w).   (* [wip.Name()] *)

Definition Add (key : string) : ST t writer := λ dc,
  if closed dc then (Err errClosed, dc)
  else (st_bind (on_fs (os_CreateTemp key))
          (λ wip, st_ret (mkWriter key wip.2))) dc.

Definition Write (w : writer) (p : bytes) : ST t Z := on_fs (file_Write (w_ino w) p).

Definition Commit (w : writer) : ST t () := λ dc,
  if closed dc then (Err errClosed, dc)
  else
    match on_fs os_MkdirAll dc with
    | (Ok _, dc) => on_fs (os_Rename (w_name w) (CacheFile (w_key w))) dc
    | (Err e, dc) =>
        match on_fs (os_Remove (w_name w)) dc with
        | (Err e', dc) => (Err (Join e' (Wrap "failed to create cache directory" e)), dc)
        | (_, dc) => (Err (Wrap "failed to create cache directory" e), dc)
        end
    | (Panic, dc) => (Panic, dc)
    end.

Definition Abort (w : writer) : ST t () := on_fs (os_Remove (w_name w)).
Definition CloseWriter (w : writer) : ST t () := st_ret tt.

Definition Get (key : string) : ST t bytes := λ dc,
  if closed dc then (Err errClosed, dc)
  else
    match on_fs (os_Open (CacheFile key)) dc with
    | (Ok ino, dc) => (Ok (default [] (inodes (fs dc) !! ino)), dc)
    | (Err e, dc) => (Err (Wrap "failed to open blob file" e), dc)
    | (Panic, dc) => (Panic, dc)
    end.

Definition Close : ST t () := λ dc,
  if closed dc then (Ok tt, dc)
  else on_fs os_RemoveAll (mk (fs dc) true).

#[global] Instance blob_cache : BlobCache t writer := {|
  cache_Add := Add; cache_Get := Get; cache_Close := Close;
  writer_Write := Write; writer_Commit := Commit;
  writer_Abort := Abort; writer_Close := CloseWriter
|}.

(** *** The laws *)
Definition fs_view (f : FS) : gmap string bytes :=
  list_to_map (omap (λ '(p, ino), match p with
    | CacheFile k => Some (k, default [] (inodes f !! ino))
    | WipFile _ _ => None
    end) (map_to_list (dirents f))).

Lemma fs_view_lookup f k :
  fs_view f !! k = (λ ino, default [] (inodes f !! ino)) <$> dirents f !! CacheFile k.
Proof.
  unfold fs_view. set (g := λ _ : path * nat, _).
  assert (∀ b, (k, b) ∈ omap g (map_to_list (dirents f)) ↔
    ∃ ino, dirents f !! CacheFile k = Some ino ∧ b = default [] (inodes f !! ino)) as Hin.
  { intros b. rewrite list_elem_of_omap. split.
    - intros ([p ino] & Hp%elem_of_map_to_list & Hg). destruct p; simpl in Hg; simplify_eq. eauto.
    - intros (ino & Hd & ->). exists (CacheFile k, ino). by rewrite elem_of_map_to_list. }
  destruct (dirents f !! CacheFile k) as [ino|] eqn:E; simpl.
  - apply elem_of_list_to_map_1'; [|by apply Hin; eauto].
    intros b (ino' & ? & ->)%Hin. by simplify_eq.
  - apply not_elem_of_list_to_map_1. intros ([k' b] & Heq & Hb)%list_elem_of_fmap. simpl in Heq. subst k'.
    apply Hin in Hb as (? & ? & _). done.
Qed.

(** Entries point to distinct inodes, and a work-in-progress name carries its inode. *)
Record ok (dc : t) : Prop := {
  ok_alloc p ino : dirents (fs dc) !! p = Some ino → (ino < length (inodes (fs dc)))%nat;
  ok_inj p q ino : dirents (fs dc) !! p = Some ino → dirents (fs dc) !! q = Some ino → p = q
}.

Definition pending (w : writer) (dc : t) : option (string * bytes) :=
  if bool_decide (dirents (fs dc) !! w_name w = Some (w_ino w))
  then b ← inodes (fs dc) !! w_ino w; Some (w_key w, b) else None.

(** Open, and no call fails from now on. *)
Definition healthy (dc : t) : Prop :=
  closed dc = false ∧ ∀ n, (clock (fs dc) ≤ n)%nat → fault (fs dc) n = None.

Lemma dir_pending_inv w dc k b : pending w dc = Some (k, b) →
  w_key w = k ∧
  dirents (fs dc) !! WipFile k (w_ino w) = Some (w_ino w) ∧ inodes (fs dc) !! w_ino w = Some b.
Proof.
  unfold pending. case_bool_decide; [|done].
  intros (b' & Hb & ?)%bind_Some. by simplify_eq.
Qed.

(** A system call either fails, changing only the clock, or runs. *)
Lemma on_fs_syscall {A} (f : FS → outcome A * FS) dc :
  (∃ e, on_fs (syscall f) dc = (Err e, mk (mkFS (inodes (fs dc)) (dirents (fs dc)) (fault (fs dc)) (S (clock (fs dc)))) (closed dc)) ∧ ¬ healthy dc) ∨
  (∃ f', f' = mkFS (inodes (fs dc)) (dirents (fs dc)) (fault (fs dc)) (S (clock (fs dc))) ∧
     on_fs (syscall f) dc = ((f f').1, mk (f f').2 (closed dc)) ∧
     (healthy dc → healthy (mk f' (closed dc)))).
Proof.
  unfold on_fs, syscall. destruct (fault (fs dc) (clock (fs dc))) as [e|] eqn:E.
  - left. exists e. split; [done|]. intros [_ Hh]. rewrite Hh in E by lia. done.
  - right. eexists. split; [done|]. split; [by destruct (f _)|].
    intros [Hc Hh]. split; [done|]. intros n Hn. apply Hh. simpl in Hn. lia.
Qed.

Lemma ok_clock dc n : ok dc →
  ok (mk (mkFS (inodes (fs dc)) (dirents (fs dc)) (fault (fs dc)) n) (closed dc)).
Proof. by intros []. Qed.

Lemma ok_entries inos d ft n n' c d' :
  ok (mk (mkFS inos d ft n) c) → d' ⊆ d → ok (mk (mkFS inos d' ft n') c).
Proof.
  intros [Ha Hi] Hsub. split; simpl in *.
  - intros p ino Hp. eapply Ha, lookup_weaken, Hsub; done.
  - intros p q ino Hp Hq. eapply Hi; (eapply lookup_weaken; [|exact Hsub]; done).
Qed.

Lemma view_same_cache inos d d' ft ft' n n' :
  (∀ k, d !! CacheFile k = d' !! CacheFile k) → fs_view (mkFS inos d ft n) = fs_view (mkFS inos d' ft' n').
Proof. intros Hd. apply map_eq. intros k. rewrite !fs_view_lookup. simpl. by rewrite Hd. Qed.

Lemma add_spec k dc : ok dc →
  match Add k dc with
  | (Ok w, dc') => ok dc' ∧ fs_view (fs dc') = fs_view (fs dc) ∧ pending w dc' = Some (k, []) ∧
      (healthy dc → healthy dc')
  | (Err _, dc') => ok dc' ∧ fs_view (fs dc') = fs_view (fs dc) ∧ ¬ healthy dc
  | (Panic, _) => False
  end.
Proof.
  intros Hok. unfold Add. destruct (closed dc) eqn:Ec.
  { split_and!; [done|done|]. intros [? _]. congruence. }
  unfold os_CreateTemp. edestruct (@on_fs_syscall (path * nat)) as [(e & He & Hh)|(f' & Hf & He & Hh)];
    unfold st_bind; rewrite He; simpl.
  { split_and!; [by apply ok_clock|done|done]. }
  subst f'. simpl in *. destruct Hok as [Ha Hi]. split_and!.
  - split; simpl; rewrite ?length_app; simpl.
    + intros p ino [[<- <-]|[_ ?%Ha] ]%lookup_insert_Some; lia.
    + intros p q ino [[<- <-]|[_ Hp] ]%lookup_insert_Some [[<- ?]|[_ Hq] ]%lookup_insert_Some;
        [done|by apply Ha in Hq; lia|subst; by apply Ha in Hp; lia|by eauto].
  - apply map_eq. intros k'. rewrite !fs_view_lookup. simpl. rewrite lookup_insert_ne by done.
    destruct (dirents (fs dc) !! CacheFile k') as [ino|] eqn:E; simpl; [|done].
    by rewrite lookup_app_l by eauto.
  - unfold pending. simpl. rewrite lookup_insert_eq, bool_decide_true by done.
    by rewrite lookup_app_r, Nat.sub_diag by lia.
  - done.
Qed.

Lemma write_spec w p k b dc : ok dc → pending w dc = Some (k, b) →
  match Write w p dc with
  | (Ok _, dc') => ok dc' ∧ fs_view (fs dc') = fs_view (fs dc) ∧
      pending w dc' = Some (k, b ++ p) ∧ (healthy dc → healthy dc')
  | (Err _, dc') => ok dc' ∧ fs_view (fs dc') = fs_view (fs dc) ∧ ¬ healthy dc
  | (Panic, _) => False
  end.
Proof.
  intros Hok (Hk & Hd & Hb)%dir_pending_inv. destruct w as [wk wi]; simpl in *; subst wk.
  unfold Write, file_Write.
  edestruct (@on_fs_syscall Z) as [(e & He & Hh)|(f' & Hf & He & Hh)]; rewrite He; simpl.
  { split_and!; [by apply ok_clock|done|done]. }
  subst f'. simpl in *. destruct Hok as [Ha Hi]. split_and!.
  - split; simpl; rewrite ?length_alter; by eauto.
  - apply map_eq. intros k'. rewrite !fs_view_lookup. simpl.
    destruct (dirents (fs dc) !! CacheFile k') as [ino|] eqn:E; simpl; [|done].
    rewrite list_lookup_alter_ne; [done|]. intros ->. specialize (Hi _ _ _ E Hd). done.
  - unfold pending. simpl. rewrite bool_decide_true by done.
    by rewrite list_lookup_alter_eq, Hb.
  - done.
Qed.

Lemma ok_rename k i b dc : ok dc → dirents (fs dc) !! WipFile k i = Some b →
  ok (mk (mkFS (inodes (fs dc)) (<[CacheFile k := b]> (delete (WipFile k i) (dirents (fs dc))))
            (fault (fs dc)) (clock (fs dc))) (closed dc)).
Proof.
  intros [Ha Hi] Hd. split; simpl.
  - intros p ino [[<- <-]|[_ [_ Hp]%lookup_delete_Some] ]%lookup_insert_Some; by eauto.
  - intros p q ino [[<- <-]|[? [? Hp]%lookup_delete_Some] ]%lookup_insert_Some
      [[<- ?]|[? [? Hq]%lookup_delete_Some] ]%lookup_insert_Some; subst; try done; try by eauto.
    + specialize (Hi _ _ _ Hd Hq). done.
    + specialize (Hi _ _ _ Hd Hp). done.
Qed.

Lemma remove_spec k i dc : ok dc →
  (on_fs (os_Remove (WipFile k i)) dc).1 ≠ Panic ∧ ok (on_fs (os_Remove (WipFile k i)) dc).2 ∧
  fs_view (fs (on_fs (os_Remove (WipFile k i)) dc).2) = fs_view (fs dc) ∧
  (healthy dc → healthy (on_fs (os_Remove (WipFile k i)) dc).2).
Proof.
  intros Hok. unfold os_Remove.
  edestruct (@on_fs_syscall unit) as [(e & He & Hh)|(f' & Hf & He & Hh)]; rewrite He; simpl.
  { split_and!; [done|by apply ok_clock|done|done]. }
  subst f'. simpl in *. destruct (dirents (fs dc) !! WipFile k i) as [ino|] eqn:E; simpl.
  - split_and!; [done| | |done].
    + destruct dc as [[] ]. eapply ok_entries; [exact Hok|apply delete_subseteq].
    + destruct (fs dc). apply view_same_cache. intros k'. by rewrite lookup_delete_ne.
  - split_and!; [done|by apply ok_clock|done|done].
Qed.

Lemma commit_spec w k b dc : ok dc → pending w dc = Some (k, b) →
  match Commit w dc with
  | (Ok _, dc') => ok dc' ∧ fs_view (fs dc') = <[k := b]> (fs_view (fs dc)) ∧
      (healthy dc → healthy dc')
  | (Err _, dc') => ok dc' ∧ fs_view (fs dc') = fs_view (fs dc) ∧ ¬ healthy dc
  | (Panic, _) => False
  end.
Proof.
  intros Hok (Hk & Hd & Hb)%dir_pending_inv. destruct w as [wk wi]; simpl in *; subst wk.
  unfold Commit, w_name. simpl. destruct (closed dc) eqn:Ec.
  { split_and!; [done|done|]. intros [? _]. congruence. }
  unfold os_MkdirAll.
  destruct (on_fs_syscall (λ f, (Ok tt, f)) dc) as [(e & He & Hh)|(f' & Hf & He & Hh)]; rewrite He; simpl.
  - pose proof (remove_spec k wi _ (ok_clock dc (S (clock (fs dc))) Hok)) as (Hnp & Hok' & Hv & _).
    destruct (on_fs (os_Remove (WipFile k wi)) _) as [[?|e'|] dc'] eqn:Er; simpl in *;
      [split_and!; [done|exact Hv|done]..|done].
  - subst f'. unfold os_Rename.
    set (dc1 := mk (mkFS (inodes (fs dc)) (dirents (fs dc)) (fault (fs dc)) (S (clock (fs dc)))) (closed dc)) in *.
    assert (ok dc1) as Hok1 by by apply ok_clock.
    edestruct (@on_fs_syscall unit) as [(e & He1 & Hh1)|(f1 & Hf1 & He1 & Hh1)]; rewrite He1; simpl.
    + split_and!; [apply (ok_clock dc1); done|done|]. intros ?%Hh. done.
    + subst f1. simpl in *. rewrite Hd. simpl. split_and!.
      * apply (ok_rename k wi wi (mk (mkFS (inodes (fs dc)) (dirents (fs dc)) (fault (fs dc)) (S (S (clock (fs dc))))) (closed dc)));
          [by apply ok_clock|done].
      * apply map_eq. intros k'. rewrite fs_view_lookup. simpl.
        destruct (decide (k = k')) as [<-|Hne].
        -- by rewrite !lookup_insert_eq; simpl; rewrite Hb.
        -- rewrite !lookup_insert_ne, lookup_delete_ne, fs_view_lookup by congruence. done.
      * intros ?%Hh%Hh1. done.
Qed.

Lemma get_spec k dc : ok dc →
  match Get k dc with
  | (Ok b, dc') => ok dc' ∧ fs_view (fs dc') = fs_view (fs dc) ∧ fs_view (fs dc) !! k = Some b ∧
      (healthy dc → healthy dc')
  | (Err _, dc') => ok dc' ∧ fs_view (fs dc') = fs_view (fs dc) ∧
      (healthy dc → fs_view (fs dc) !! k = None ∧ healthy dc')
  | (Panic, _) => False
  end.
Proof.
  intros Hok. unfold Get. destruct (closed dc) eqn:Ec.
  { split_and!; [done|done|]. intros [? _]. congruence. }
  unfold os_Open.
  edestruct (@on_fs_syscall nat) as [(e & He & Hh)|(f' & Hf & He & Hh)]; rewrite He; simpl.
  { split_and!; [by apply ok_clock|done|done]. }
  subst f'. simpl in *.
  destruct (dirents (fs dc) !! CacheFile k) as [ino|] eqn:E; simpl; rewrite fs_view_lookup, E;
    (split; [by apply ok_clock|]); (split; [done|]); auto.
Qed.

(** The directory cache satisfies the laws, whichever calls fail. *)
#[global, refine] Instance laws : BlobCacheLaws t writer :=
  {| BlobCache.view dc := fs_view (fs dc); BlobCache.pending := pending;
     cache_ok := ok; BlobCache.healthy := healthy |}.
Proof.
  - exact add_spec.
  - intros. by apply write_spec.
  - intros. by apply commit_spec.
  - intros w dc Hok. by apply remove_spec.
  - done.
  - exact get_spec.
Defined.
End DirectoryCache.

(** ** What the interface gives its clients *)
Section clients.
Context {C W : Type} `{HB : BlobCache C W} `{HC : !BlobCacheLaws C W}.
#[local] Open Scope go_scope.

(** Storing a blob: add, write, commit, close. *)
Definition store (k : string) (b : bytes) : ST C () :=
  w <~ cache_Add k;;
  writer_Write w b;;;
  writer_Commit w;;;
  writer_Close w.

Lemma wp_store (g : Prop) k b c : cache_ok c → (g → healthy c) →
  wp (store k b) c
    (λ _ c', cache_ok c' ∧ view c' = <[k := b]> (view c) ∧ (g → healthy c'))
    (λ c', cache_ok c' ∧ (view c' = view c ∧ ¬ g ∨ view c' = <[k := b]> (view c))).
Proof.
  intros Hok Hg. unfold store. apply wp_bind. unfold wp at 1.
  pose proof (add_law k c Hok) as Ha.
  destruct (cache_Add k c) as [[w|e|] c1]; [|naive_solver|done].
  destruct Ha as (Hok1 & Hv1 & Hp1 & Hh1). apply wp_bind. unfold wp at 1.
  pose proof (write_law w b _ _ _ Hok1 Hp1) as Hw.
  destruct (writer_Write w b c1) as [[x|e|] c2]; [| |done].
  2: { destruct Hw as (? & Hv & ?). split; [done|]. left. rewrite Hv, Hv1. tauto. }
  destruct Hw as (Hok2 & Hv2 & Hp2 & Hh2). apply wp_bind. unfold wp at 1.
  pose proof (commit_law w _ _ c2 Hok2 Hp2) as Hc.
  destruct (writer_Commit w c2) as [[x'|e|] c3]; [| |done].
  2: { destruct Hc as (? & Hv & ?). split; [done|]. left. rewrite Hv, Hv2, Hv1. tauto. }
  destruct Hc as (Hok3 & Hv3 & Hh3). unfold wp.
  pose proof (close_law w c3 Hok3) as (Hnp & Hok4 & Hv4 & Hh4).
  destruct (writer_Close w c3) as [[] c4]; simpl in *; [| |done]; rewrite Hv4, Hv3, Hv2, Hv1.
  - split_and!; [done|done|tauto].
  - split; [done|]. by right.
Qed.

(** A blob that was stored is read back, other blobs are not affected, and this
    holds of every cache that implements the interface as long as its calls succeed. *)
Theorem cache_roundtrip k b c :
  cache_ok c → healthy c →
  wp (store k b) c
    (λ _ c', (cache_Get k c').1 = Ok b ∧
       ∀ k' b', k' ≠ k → (cache_Get k' c).1 = Ok b' → (cache_Get k' c').1 = Ok b')
    (λ c', view c' = <[k := b]> (view c)).
Proof.
  intros Hok Hh. eapply wp_mono; [by apply (wp_store True)| |naive_solver].
  intros _ c' (Hok' & Hv & Hh'). specialize (Hh' I).
  assert (∀ k0 b0, view c' !! k0 = Some b0 → (cache_Get k0 c').1 = Ok b0) as Hget.
  { intros k0 b0 Hk0. pose proof (get_law k0 c' Hok') as Hg.
    destruct (cache_Get k0 c') as [[b1|e|] c2]; simpl; [| |done].
    - destruct Hg as (_ & _ & ? & _). congruence.
    - destruct Hg as (_ & _ & Hn). destruct (Hn Hh'). congruence. }
  split.
  - apply Hget. by rewrite Hv, lookup_insert_eq.
  - intros k' b' Hne Hk'. apply Hget. rewrite Hv, lookup_insert_ne by done.
    pose proof (get_law k' c Hok) as Hg. destruct (cache_Get k' c) as [[] ?]; naive_solver.
Qed.
End clients.

(** A closed directory cache refuses every operation and serves nothing. *)
Theorem closed_cache_refuses dc key w :
  let dc' := (DirectoryCache.Close dc).2 in
  DirectoryCache.closed dc' = true ∧
  DirectoryCache.Get key dc' = (Err DirectoryCache.errClosed, dc') ∧
  DirectoryCache.Add key dc' = (Err DirectoryCache.errClosed, dc') ∧
  DirectoryCache.Commit w dc' = (Err DirectoryCache.errClosed, dc').
Proof.
  assert (DirectoryCache.closed (DirectoryCache.Close dc).2 = true) as Hc.
  { unfold DirectoryCache.Close. destruct (DirectoryCache.closed dc) eqn:E; [done|].
    unfold DirectoryCache.on_fs. by destruct (os_RemoveAll _). }
  simpl. unfold DirectoryCache.Get, DirectoryCache.Add, DirectoryCache.Commit. by rewrite Hc.
Qed.
