(* ===== verification/DirCache.v ===== *)
(** * The directory cache with its in-memory caches

    Models [directoryCache] of [cache/cache.go] outside direct mode: [Add] hands out a
    writer over a pooled [bytes.Buffer], [Commit] puts the buffer into a reference
    counted LRU cache and a goroutine copies it to the cache directory, and [Get] serves
    the buffer, an already opened file or a newly opened one.

    Buffers are recycled, so they are modelled with their backing array: a reader that
    was opened on a buffer sees what is written to that array later.  The directory
    itself and the writers on its files are those of [BlobCache.DirectoryCache]; the LRU
    caches are those of [LruCache], whose logged [OnEvicted] calls are run here.
    [sync.Pool] may return any pooled buffer, or none, and may drop buffers at any time. *)
From Stdlib Require Import ZArith Lia.
From stdpp Require Import base list gmap strings numbers.
From S2P Require Import Prelude GoLib LruCache BlobCache.
#[local] Open Scope Z_scope.

(** ** [bytes.Buffer]

    The backing array and the length of the contents.  A write goes to the same array:
    the case in which a recycled buffer could disturb a reader. *)
Record buffer := mkBuf { arr : bytes; blen : nat }.

Definition Bytes (b : buffer) : bytes := take (blen b) (arr b).
Definition buf_Reset (b : buffer) : buffer := mkBuf (arr b) 0.
Definition buf_Write (p : bytes) (b : buffer) : buffer :=
  mkBuf (Bytes b ++ p ++ drop (blen b + length p) (arr b)) (blen b + length p).

Section dircache.
Context {L : Type} `{!LRU L} (lru_New : Z → L).

(** ** State

    [cache] holds buffers and [fileCache] open files, both by their index; a file that
    is open for reading is its inode. *)
Record state := mkSt {
  dir : DirectoryCache.t;
  cache : Cache L nat;
  fileCache : Cache L nat;
  bufs : list buffer;
  pool : list nat;
  fds : list (nat * bool);     (* inode, still open *)
  syncAdd : bool;
  direct : bool
}.

Definition set_dir d s := mkSt d (cache s) (fileCache s) (bufs s) (pool s) (fds s) (syncAdd s) (direct s).
Definition set_bufs bs p s := mkSt (dir s) (cache s) (fileCache s) bs p (fds s) (syncAdd s) (direct s).
Definition set_fds f s := mkSt (dir s) (cache s) (fileCache s) (bufs s) (pool s) f (syncAdd s) (direct s).

(** [putBuffer], and the [OnEvicted] callback of the data cache. *)
Definition putBuffer (b : nat) s : state :=
  set_bufs (alter buf_Reset b (bufs s)) (b :: pool s) s.

(** [bufPool.Get]: [pick] is the pool's choice. *)
Definition pool_Get (pick : option nat) s : nat * state :=
  match (i ← pick; b ← pool s !! i; Some (i, b)) with
  | Some (i, b) => (b, set_bufs (bufs s) (delete i (pool s)) s)
  | None => (length (bufs s), set_bufs (bufs s ++ [mkBuf [] 0]) (pool s) s)
  end.

Definition errFileClosed : error := Sentinel "file already closed".

Definition file_Close (fd : nat) s : outcome () * state :=
  match fds s !! fd with
  | Some (ino, true) => (Ok tt, set_fds (<[fd := (ino, false)]> (fds s)) s)
  | _ => (Err errFileClosed, s)
  end.

(** The callbacks run for the entries an operation on the LRU cache evicted. *)
Definition OnEvicted_data (c : Cache L nat) (h : nat) s : state :=
  match heap c !! h with Some r => putBuffer (rc_v r) s | None => s end.
Definition OnEvicted_fd (c : Cache L nat) (h : nat) s : state :=
  match heap c !! h with Some r => (file_Close (rc_v r) s).2 | None => s end.

Definition new_evictions (c c' : Cache L nat) : list nat := drop (length (evicted c)) (evicted c').

Definition set_cache (c' : Cache L nat) s : state :=
  foldl (λ s h, OnEvicted_data c' h s)
    (mkSt (dir s) c' (fileCache s) (bufs s) (pool s) (fds s) (syncAdd s) (direct s))
    (new_evictions (cache s) c').

Definition set_fileCache (c' : Cache L nat) s : state :=
  foldl (λ s h, OnEvicted_fd c' h s)
    (mkSt (dir s) (cache s) c' (bufs s) (pool s) (fds s) (syncAdd s) (direct s))
    (new_evictions (fileCache s) c').

(** ** [NewDirectoryCache] *)
Definition defaultMaxLRUCacheEntry : Z := 10.
Definition defaultMaxCacheFds : Z := 10.

Record DirectoryCacheConfig := mkDirectoryCacheConfig {
  MaxLRUCacheEntry : Z;
  MaxCacheFds : Z;
  SyncAdd : bool;
  DataCache : option (Cache L nat);
  FdCache : option (Cache L nat);
  Direct : bool
}.

Definition NewDirectoryCache (directory : string) (config : DirectoryCacheConfig) (f : FS)
    : outcome state * FS :=
  let dataCache := match DataCache config with
    | Some c => c
    | None => New (lru_New (if MaxLRUCacheEntry config =? 0 then defaultMaxLRUCacheEntry
                            else MaxLRUCacheEntry config))
    end in
  let fdCache := match FdCache config with
    | Some c => c
    | None => New (lru_New (if MaxCacheFds config =? 0 then defaultMaxCacheFds
                            else MaxCacheFds config))
    end in
  match DirectoryCache.NewDirectoryCache directory f with
  | (Ok d, f) => (Ok (mkSt d dataCache fdCache [] [] [] (SyncAdd config) (Direct config)), f)
  | (Err e, f) => (Err e, f)
  | (Panic, f) => (Panic, f)
  end.

(** ** Readers *)
Inductive reader :=
  | BufReader (b n d : nat)            (* buffer, length when opened, [done] *)
  | CachedFile (fd d : nat)            (* descriptor of the file cache, [done] *)
  | OwnFile (key : string) (fd : nat)  (* offered to the file cache on [Close] *)
  | DirectFile (fd : nat).

(** What [ReadAt] reads from now. *)
Definition reader_bytes (r : reader) s : option bytes :=
  match r with
  | BufReader b n _ => (λ b, take n (arr b)) <$> bufs s !! b
  | CachedFile fd _ | OwnFile _ fd | DirectFile fd =>
      match fds s !! fd with
      | Some (ino, true) => inodes (DirectoryCache.fs (dir s)) !! ino
      | _ => None
      end
  end.

(** [Get]: the memory, the open files, the directory.  Each takes its own lock. *)
Definition get_memory (key : string) s : option reader * state :=
  let '(o, c) := Get key (cache s) in
  (bd ← o; b ← bufs s !! bd.1; Some (BufReader bd.1 (blen b) bd.2), set_cache c s).

Definition get_file (key : string) s : option reader * state :=
  let '(o, c) := Get key (fileCache s) in
  ((λ fd, CachedFile fd.1 fd.2) <$> o, set_fileCache c s).

Definition get_disk (key : string) (opt_direct : bool) s : outcome reader * state :=
  match DirectoryCache.on_fs (os_Open (CacheFile key)) (dir s) with
  | (Ok ino, d) =>
      let fd := length (fds s) in
      (Ok (if direct s || opt_direct then DirectFile fd else OwnFile key fd),
       set_fds (fds s ++ [(ino, true)]) (set_dir d s))
  | (Err e, d) => (Err (Wrap "failed to open blob file" e), set_dir d s)
  | (Panic, d) => (Panic, set_dir d s)
  end.

Definition dc_Get (key : string) (opt_direct : bool) s : outcome reader * state :=
  if DirectoryCache.closed (dir s) then (Err DirectoryCache.errClosed, s)
  else if negb (direct s) && negb opt_direct then
    match get_memory key s with
    | (Some r, s) => (Ok r, s)
    | (None, s) =>
        match get_file key s with
        | (Some r, s) => (Ok r, s)
        | (None, s) => get_disk key opt_direct s
        end
    end
  else get_disk key opt_direct s.

Definition reader_Close (r : reader) s : outcome () * state :=
  match r with
  | BufReader _ _ d => (Ok tt, set_cache (call_done d (cache s)) s)
  | CachedFile _ d => (Ok tt, set_fileCache (call_done d (fileCache s)) s)
  | OwnFile key fd =>
      let '(_, d, added, c) := Add key fd (fileCache s) in
      let s := set_fileCache c s in
      let '(o, s) := if added then (Ok tt, s) else file_Close fd s in
      (o, set_fileCache (call_done d (fileCache s)) s)
  | DirectFile fd => file_Close fd s
  end.

(** ** Writers *)
Inductive writer := DirectW (w : DirectoryCache.writer) | MemW (w : DirectoryCache.writer) (b : nat).

Definition w_file (w : writer) : DirectoryCache.writer := match w with DirectW w | MemW w _ => w end.

Definition dc_Add (key : string) (opt_direct : bool) (pick : option nat) s : outcome writer * state :=
  match DirectoryCache.Add key (dir s) with
  | (Ok w, d) =>
      let s := set_dir d s in
      if direct s || opt_direct then (Ok (DirectW w), s)
      else let '(b, s) := pool_Get pick s in (Ok (MemW w b), s)
  | (Err e, d) => (Err e, set_dir d s)
  | (Panic, d) => (Panic, set_dir d s)
  end.

Definition w_Write (w : writer) (p : bytes) s : outcome Z * state :=
  match w with
  | DirectW w => let '(o, d) := DirectoryCache.Write w p (dir s) in (o, set_dir d s)
  | MemW _ b => (Ok (zlen p), set_bufs (alter (buf_Write p) b (bufs s)) (pool s) s)
  end.

(** The closure [commit], which runs in its own goroutine unless [SyncAdd] is set: copy
    the cached buffer to the file, commit or remove the file, release the buffer.  [Write]
    and what follows it are separate steps of the goroutine. *)
Record task := mkTask { t_w : DirectoryCache.writer; t_cached : nat; t_done : nat }.
Inductive phase := TWrite | TCommit | TAbort (r : outcome ()) | TDone (r : outcome ()).

Definition task_step (t : task) (ph : phase) s : (outcome () + phase) * state :=
  match ph with
  | TWrite =>
      let data := default [] (Bytes <$> bufs s !! t_cached t) in
      let '(o, d) := DirectoryCache.Write (t_w t) data (dir s) in
      (inr match o with
           | Ok n => if n =? zlen data then TCommit else TAbort (Ok tt)
           | Err e => TAbort (Err e)
           | Panic => TDone Panic
           end, set_dir d s)
  | TAbort r =>
      let '(_, d) := DirectoryCache.Abort (t_w t) (dir s) in (inr (TDone r), set_dir d s)
  | TCommit =>
      let '(r, d) := DirectoryCache.Commit (t_w t) (dir s) in (inr (TDone r), set_dir d s)
  | TDone r => (inl r, set_cache (call_done (t_done t) (cache s)) s)
  end.

(** Three steps are enough. *)
Definition run_task (t : task) s : outcome () * state :=
  match task_step t TWrite s with
  | (inl r, s) => (r, s)
  | (inr ph, s) =>
      match task_step t ph s with
      | (inl r, s) => (r, s)
      | (inr ph, s) =>
          match task_step t ph s with (inl r, s) => (r, s) | (inr _, s) => (Panic, s) end
      end
  end.

(** The part of [Commit] of a buffered writer before [commit] starts. *)
Definition start_commit (w : DirectoryCache.writer) (b : nat) s : outcome task * state :=
  if DirectoryCache.closed (dir s) then (Err DirectoryCache.errClosed, s)
  else
    let '(cached, d, added, c) := Add (DirectoryCache.w_key w) b (cache s) in
    let s := set_cache c s in
    let s := if added then s else putBuffer b s in
    (Ok (mkTask w cached d), s).

(** Returns the task that is left to a goroutine. *)
Definition w_Commit (w : writer) s : outcome (option task) * state :=
  match w with
  | DirectW w =>
      let '(o, d) := DirectoryCache.Commit w (dir s) in
      (match o with Ok _ => Ok None | Err e => Err e | Panic => Panic end, set_dir d s)
  | MemW w b =>
      match start_commit w b s with
      | (Ok t, s) =>
          if syncAdd s then
            match run_task t s with
            | (Ok _, s) => (Ok None, s)
            | (Err e, s) => (Err e, s)
            | (Panic, s) => (Panic, s)
            end
          else (Ok (Some t), s)
      | (Err e, s) => (Err e, s)
      | (Panic, s) => (Panic, s)
      end
  end.

Definition w_Abort (w : writer) s : outcome () * state :=
  match w with
  | DirectW w => let '(o, d) := DirectoryCache.Abort w (dir s) in (o, set_dir d s)
  | MemW w b =>
      let s := putBuffer b s in
      let '(_, d) := DirectoryCache.Abort w (dir s) in (Ok tt, set_dir d s)
  end.

Definition dc_Close s : outcome () * state :=
  let '(o, d) := DirectoryCache.Close (dir s) in (o, set_dir d s).

(** ** Concurrent use

    Goroutines call the cache in any order.  A reader is closed once, and a writer is
    written to until it is committed or aborted once, as the [Reader] and [Writer]
    interfaces demand.  The parts of [Get] and the steps of a commit interleave.  With
    each open reader we keep its key and what it served when it was opened, with each
    open writer its key and what was written to it, and [committed] is everything that
    was passed to [Commit]. *)
Record sys := mkSys {
  st : state;
  readers : gmap nat (string * reader * bytes);
  writers : gmap nat (string * writer * bytes);
  tasks : gmap nat (task * phase);
  next : nat;
  committed : list (string * bytes)
}.

Inductive label :=
  | LGetMemory (key : string)
  | LGetFile (key : string)
  | LGetDisk (key : string) (opt_direct : bool)
  | LCloseReader (i : nat)
  | LAdd (key : string) (opt_direct : bool) (pick : option nat)
  | LWrite (i : nat) (p : bytes)
  | LCommit (i : nat)
  | LAbort (i : nat)
  | LTask (j : nat)
  | LPoolDrop
  | LClose.

Definition with_st s y := mkSys s (readers y) (writers y) (tasks y) (next y) (committed y).

Definition open_reader (key : string) (r : reader) s y : sys :=
  mkSys s (<[next y := (key, r, default [] (reader_bytes r s))]> (readers y)) (writers y) (tasks y)
    (S (next y)) (committed y).

Definition step (l : label) (y : sys) : sys :=
  match l with
  | LGetMemory key =>
      match get_memory key (st y) with
      | (Some r, s) => open_reader key r s y
      | (None, s) => with_st s y
      end
  | LGetFile key =>
      match get_file key (st y) with
      | (Some r, s) => open_reader key r s y
      | (None, s) => with_st s y
      end
  | LGetDisk key od =>
      match get_disk key od (st y) with
      | (Ok r, s) => open_reader key r s y
      | (_, s) => with_st s y
      end
  | LCloseReader i =>
      match readers y !! i with
      | Some (_, r, _) =>
          mkSys (reader_Close r (st y)).2 (delete i (readers y)) (writers y) (tasks y) (next y) (committed y)
      | None => y
      end
  | LAdd key od pick =>
      match dc_Add key od pick (st y) with
      | (Ok w, s) => mkSys s (readers y) (<[next y := (key, w, [])]> (writers y)) (tasks y)
                       (S (next y)) (committed y)
      | (_, s) => with_st s y
      end
  | LWrite i p =>
      match writers y !! i with
      | Some (key, w, x) =>
          match w_Write w p (st y) with
          | (Ok _, s) => mkSys s (readers y) (<[i := (key, w, x ++ p)]> (writers y)) (tasks y)
                           (next y) (committed y)
          | (_, s) => with_st s y
          end
      | None => y
      end
  | LCommit i =>
      match writers y !! i with
      | Some (key, DirectW w, x) =>
          mkSys (w_Commit (DirectW w) (st y)).2 (readers y) (delete i (writers y)) (tasks y) (next y)
            ((key, x) :: committed y)
      | Some (key, MemW w b, x) =>
          match start_commit w b (st y) with
          | (Ok t, s) => mkSys s (readers y) (delete i (writers y)) (<[next y := (t, TWrite)]> (tasks y))
                           (S (next y)) ((key, x) :: committed y)
          | (_, s) => mkSys s (readers y) (delete i (writers y)) (tasks y) (next y) (committed y)
          end
      | None => y
      end
  | LAbort i =>
      match writers y !! i with
      | Some (_, w, _) =>
          mkSys (w_Abort w (st y)).2 (readers y) (delete i (writers y)) (tasks y) (next y) (committed y)
      | None => y
      end
  | LTask j =>
      match tasks y !! j with
      | Some (t, ph) =>
          match task_step t ph (st y) with
          | (inr ph, s) => mkSys s (readers y) (writers y) (<[j := (t, ph)]> (tasks y)) (next y) (committed y)
          | (inl _, s) => mkSys s (readers y) (writers y) (delete j (tasks y)) (next y) (committed y)
          end
      | None => y
      end
  | LPoolDrop => with_st (set_bufs (bufs (st y)) [] (st y)) y
  | LClose => with_st (dc_Close (st y)).2 y
  end.

Definition run (ls : list label) (y : sys) : sys := foldl (flip step) y ls.
Definition start (s : state) : sys := mkSys s ∅ ∅ ∅ 0 [].
End dircache.
