(* ===== verification/DirCacheFacts.v ===== *)
(** * What the directory cache guarantees its readers

    The invariant of [DirCache]: every buffer has one owner (the pool, a writer, or an
    entry of the data cache), every open file one (a reader or an entry of the file
    cache), every file that is written one writer or commit.  It is kept by every step,
    so an open reader goes on serving what it served when it was opened, which is what
    some writer committed under its key. *)
From Stdlib Require Import ZArith Lia.
From stdpp Require Import base list gmap strings numbers functions.
From S2P Require Import Prelude GoLib LruCache BlobCache DirCache.
#[local] Open Scope Z_scope.

(** ** The LRU caches

    An operation keeps the entries, adds at most one, creates one [done] and extends the
    log of evictions. *)
Section lru.
Context {L V : Type} `{!LRU L, !LRULaws L}.
Implicit Types c : Cache L V.

Definition kv c (h : nat) : option (string * V) := (λ r, (rc_key r, rc_v r)) <$> heap c !! h.

Lemma kv_alter (f : refCounter V → refCounter V) h c l ds ev h' :
  (∀ r, rc_key (f r) = rc_key r ∧ rc_v (f r) = rc_v r) →
  kv (mkCache l (alter f h (heap c)) ds ev) h' = kv c h'.
Proof.
  intros Hf. unfold kv. simpl. destruct (decide (h = h')) as [<-|Hne].
  - rewrite list_lookup_alter_eq. destruct (heap c !! h) as [r|]; [|done]. simpl.
    by destruct (Hf r) as [-> ->].
  - by rewrite list_lookup_alter_ne.
Qed.

Lemma kv_rc_dec h c h' : kv (rc_dec h c) h' = kv c h'.
Proof.
  unfold rc_dec, with_rc. repeat case_match; try (unfold kv; done);
    (etrans; [|apply (kv_alter (λ r, mkRC (rc_key r) (rc_v r) (refCounts r - 1) (rc_finalized r)) h c (inner c) (dones c) (evicted c)); done]);
    by unfold kv.
Qed.

Lemma kv_rc_finalize h c h' : kv (rc_finalize h c) h' = kv c h'.
Proof.
  unfold rc_finalize. repeat case_match; try done. rewrite kv_rc_dec.
  by apply (kv_alter (λ r, mkRC (rc_key r) (rc_v r) (refCounts r) true)).
Qed.

Lemma dec_extends h c :
  dones (rc_dec h c) = dones c ∧ ∃ ev, evicted (rc_dec h c) = evicted c ++ ev.
Proof.
  unfold rc_dec, with_rc. simpl. repeat case_match; simpl; split; try done;
    first [by eexists | exists []; by rewrite app_nil_r].
Qed.

Lemma finalize_extends h c :
  dones (rc_finalize h c) = dones c ∧ ∃ ev, evicted (rc_finalize h c) = evicted c ++ ev.
Proof.
  unfold rc_finalize. repeat case_match; try (split; [done|exists []; by rewrite app_nil_r]).
  apply (dec_extends h (with_rc _ h c)).
Qed.

Lemma Get_spec key c : wf c →
  let '(o, c') := Get key c in
  wf c' ∧ evicted c' = evicted c ∧ (∀ h, kv c' h = kv c h) ∧
  match o with
  | Some (v, d) => d = length (dones c) ∧
      ∃ h, dones c' = dones c ++ [(h, false)] ∧ kv c h = Some (key, v)
  | None => dones c' = dones c
  end.
Proof.
  intros Hw. pose proof (wf_Get key c Hw) as Hw'. unfold Get in *.
  destruct (lru_Get_spec key (inner c)) as [Hg _].
  destruct (lru_Get key (inner c)) as [[h|] l]; simpl in *; [|done].
  destruct (inv_cached _ _ _ Hw _ _ (eq_sym Hg)) as (r & Hr & Hk & _).
  rewrite list_lookup_alter_eq, Hr in *. simpl in *. split_and!; [done|done| |done|].
  - intros h'. by apply (kv_alter (λ r, mkRC (rc_key r) (rc_v r) (refCounts r + 1) (rc_finalized r))).
  - exists h. split; [done|]. unfold kv. rewrite Hr. simpl. by rewrite Hk.
Qed.

Lemma Add_spec key v c : wf c →
  let '(v', d, added, c') := Add key v c in
  wf c' ∧ d = length (dones c) ∧
  ∃ h ev, dones c' = dones c ++ [(h, false)] ∧ evicted c' = evicted c ++ ev ∧
    if added : bool then
      v' = v ∧ h = length (heap c) ∧
      (∀ h', kv c' h' = if decide (h' = h) then Some (key, v) else kv c h')
    else ev = [] ∧ kv c h = Some (key, v') ∧ ∀ h', kv c' h' = kv c h'.
Proof.
  intros Hw. pose proof (wf_Add key v c Hw) as Hw'. unfold Add in *.
  destruct (lru_Get_spec key (inner c)) as [Hg Hl].
  destruct (lru_Get key (inner c)) as [[h|] l]; simpl in *.
  - destruct (inv_cached _ _ _ Hw _ _ (eq_sym Hg)) as (r & Hr & Hk & _).
    rewrite list_lookup_alter_eq, Hr in *. simpl in *. split_and!; [done|done|].
    exists h, []. rewrite app_nil_r. split_and!; [done..| |].
    + unfold kv. rewrite Hr. simpl. by rewrite Hk.
    + intros h'. by apply (kv_alter (λ r, mkRC (rc_key r) (rc_v r) (refCounts r + 1) (rc_finalized r))).
  - pose proof (lru_Add_spec key (length (heap c)) l) as Ha. rewrite Hl in Ha.
    specialize (Ha ltac:(by symmetry)).
    destruct (lru_Add key (length (heap c)) l) as [ev l']. simpl in *.
    set (c1 := mkCache l' (heap c ++ [mkRC key v 2 false]) (dones c) (evicted c)) in *.
    assert (∀ h', kv c1 h' = if decide (h' = length (heap c)) then Some (key, v) else kv c h') as Hkv.
    { intros h'. unfold kv. simpl. case_decide as Hh; [subst; by rewrite lookup_app_r, Nat.sub_diag by lia|].
      destruct (decide (h' < length (heap c))%nat); [by rewrite lookup_app_l|].
      rewrite !lookup_ge_None_2; [done|lia|rewrite length_app; simpl; lia]. }
    assert (∃ evs, evicted (finalize_all ev c1) = evicted c ++ evs) as [evs Hevs].
    { destruct Ha as [[-> _]|(k' & v' & _ & _ & -> & _)]; simpl; [exists []; by rewrite app_nil_r|].
      apply (finalize_extends v' c1). }
    assert (dones (finalize_all ev c1) = dones c) as Hd.
    { destruct Ha as [[-> _]|(k' & v' & _ & _ & -> & _)]; simpl; [done|]. apply (finalize_extends v' c1). }
    split; [done|]. simpl. unfold set_inner. simpl. fold c1. rewrite Hd. split; [done|]. exists (length (heap c)), evs.
    split_and!; [done..|]. intros h'. unfold kv at 1. simpl. rewrite <-Hkv. unfold kv at 1.
    destruct Ha as [[-> _]|(k' & v' & _ & _ & -> & _)]; simpl; [done|]. apply (kv_rc_finalize v' c1).
Qed.

Lemma done_spec d c : wf c →
  let c' := call_done d c in
  wf c' ∧ (∀ h, kv c' h = kv c h) ∧ (∃ ev, evicted c' = evicted c ++ ev) ∧
  (∀ d' h, d' ≠ d → dones c !! d' = Some (h, false) → dones c' !! d' = Some (h, false)) ∧
  length (dones c') = length (dones c).
Proof.
  intros Hw c'. split; [by apply wf_done|]. subst c'. unfold call_done.
  destruct (dones c !! d) as [[h [] ]|] eqn:E;
    [split_and!; try done; exists []; by rewrite app_nil_r| |split_and!; try done; exists []; by rewrite app_nil_r].
  destruct (dec_extends h (mkCache (inner c) (heap c) (<[d:=(h, true)]> (dones c)) (evicted c))) as [Hd He].
  rewrite Hd. simpl in *. split_and!; [|done| |by rewrite length_insert].
  - intros h'. rewrite kv_rc_dec. done.
  - intros d' h' Hne Hl. by rewrite list_lookup_insert_ne.
Qed.

(** A reference that was not released keeps its entry. *)
Lemma live_not_evicted c d h : wf c → dones c !! d = Some (h, false) → h ∉ evicted c.
Proof.
  intros Hw Hd. rewrite (inv_evicted _ _ _ Hw). intros (r & Hr & Hz).
  rewrite (inv_count _ _ _ Hw _ _ Hr) in Hz. apply list_elem_of_lookup_2 in Hd.
  assert (0 < live h (dones c)); [|destruct (rc_finalized r); change (count h []) with 0 in Hz; lia].
  unfold live, zlen. destruct (filter _ (dones c)) eqn:E; simpl; [|lia].
  by apply (filter_nil_not_elem_of (λ d, d = (h, false)) _ (h, false)) in E.
Qed.

Lemma evicted_kv c h : wf c → h ∈ evicted c → is_Some (kv c h).
Proof. intros Hw (r & Hr & _)%(inv_evicted _ _ _ Hw). unfold kv. rewrite Hr. by eexists. Qed.

Lemma kv_None_length c h : kv c h = None ↔ (length (heap c) ≤ h)%nat.
Proof. unfold kv. by rewrite fmap_None, lookup_ge_None. Qed.
End lru.

Section invariant.
Context {L : Type} `{!LRU L, !LRULaws L}.
Implicit Types (c : Cache L nat) (rs : gmap nat (string * reader * bytes))
  (ws : gmap nat (string * writer * bytes)) (ts : gmap nat (task * phase))
  (H : list (string * bytes)).

(** ** Buffers *)
Inductive bowner := BPool | BWriter (i : nat) | BEntry (h : nat).

(** [E] are the evictions whose callback has run; [dn] says which reader or commit
    holds a [done]. *)
Record BufInv (own : nat → bowner) (dn : nat → nat + nat) c (E : list nat) (bs : list buffer)
    (pl : list nat) rs ws ts H : Prop := {
  b_len b buf : bs !! b = Some buf → (blen buf ≤ length (arr buf))%nat;
  b_pool b : b ∈ pl → own b = BPool ∧ ∃ buf, bs !! b = Some buf ∧ blen buf = 0%nat;
  b_nodup : NoDup pl;
  b_writer i k w b x : ws !! i = Some (k, MemW w b, x) →
    own b = BWriter i ∧ ∃ buf, bs !! b = Some buf ∧ Bytes buf = x;
  b_entry h k b : kv c h = Some (k, b) → h ∉ E →
    own b = BEntry h ∧ ∃ buf, bs !! b = Some buf ∧ (k, Bytes buf) ∈ H;
  b_reader i k b n d x : rs !! i = Some (k, BufReader b n d, x) →
    ∃ h buf, dones c !! d = Some (h, false) ∧ dn d = inl i ∧ kv c h = Some (k, b) ∧
      bs !! b = Some buf ∧ blen buf = n ∧ Bytes buf = x;
  b_task j t ph : ts !! j = Some (t, ph) →
    ∃ h, dones c !! t_done t = Some (h, false) ∧ dn (t_done t) = inr j ∧
      kv c h = Some (DirectoryCache.w_key (t_w t), t_cached t)
}.

Lemma buf_weaken own dn c c' E bs pl rs rs' ws ws' ts ts' H H' :
  BufInv own dn c E bs pl rs ws ts H →
  (∀ h, kv c' h = kv c h) →
  (∀ i k b n d x h, rs' !! i = Some (k, BufReader b n d, x) → rs !! i = Some (k, BufReader b n d, x) ∧
     (dones c !! d = Some (h, false) → dones c' !! d = Some (h, false))) →
  (∀ i k w b x, ws' !! i = Some (k, MemW w b, x) → ws !! i = Some (k, MemW w b, x)) →
  (∀ j t ph, ts' !! j = Some (t, ph) → ∃ ph', ts !! j = Some (t, ph') ∧
     ∀ h, dones c !! t_done t = Some (h, false) → dones c' !! t_done t = Some (h, false)) →
  H ⊆ H' →
  BufInv own dn c' E bs pl rs' ws' ts' H'.
Proof.
  intros [Hl Hp Hn Hw He Hr Ht] Hkv Hrs Hws Hts HH. split; try done.
  - intros i k w b x ?%Hws. by eapply Hw.
  - intros h k b. rewrite Hkv. intros Hh Hh'. destruct (He _ _ _ Hh Hh') as (Ho & buf & ? & ?). eauto 6.
  - intros i k b n d x Hi. destruct (Hrs _ _ _ _ _ _ 0%nat Hi) as [Hi' _].
    destruct (Hr _ _ _ _ _ _ Hi') as (h & buf & Hd & ?). exists h, buf.
    rewrite Hkv. split; [|done]. by apply (Hrs _ _ _ _ _ _ h Hi).
  - intros j t ph (ph' & Hj & Hd')%Hts. destruct (Ht _ _ _ Hj) as (h & Hd & ? & ?).
    exists h. rewrite Hkv. auto.
Qed.

(** Returning a buffer to the pool is fine when nothing else can refer to it. *)
Lemma buf_put own dn c E E' bs pl rs ws ws' ts H b :
  BufInv own dn c E bs pl rs ws ts H →
  own b ≠ BPool → is_Some (bs !! b) → E ⊆ E' → ws' ⊆ ws →
  (∀ h k, kv c h = Some (k, b) → h ∈ E') →
  (∀ i k w x, ws' !! i ≠ Some (k, MemW w b, x)) →
  (∀ d h, dones c !! d = Some (h, false) → h ∉ E') →
  BufInv (<[b := BPool]> own) dn c E' (alter buf_Reset b bs) (b :: pl) rs ws' ts H.
Proof.
  intros [Hl Hp Hn Hw He Hr Ht] Hnp [buf0 Hb] HE Hsub Hkv Hws Hlive. split; try done.
  - intros b' buf. destruct (decide (b = b')) as [<-|Hne].
    + rewrite list_lookup_alter_eq, Hb. intros [= <-]. simpl. lia.
    + rewrite list_lookup_alter_ne by done. apply Hl.
  - intros b'. rewrite elem_of_cons. intros Hin. destruct (decide (b = b')) as [<-|Hne].
    + rewrite fn_lookup_insert, list_lookup_alter_eq, Hb. eauto.
    + rewrite fn_lookup_insert_ne, list_lookup_alter_ne by done. apply Hp. naive_solver.
  - constructor; [|done]. intros [? _]%Hp. done.
  - intros i k w b' x Hi. assert (b ≠ b') by (intros ->; by eapply Hws).
    rewrite fn_lookup_insert_ne, list_lookup_alter_ne by done. eapply Hw, lookup_weaken; done.
  - intros h k b' Hh HnE. assert (b ≠ b') by (intros ->; by apply Hkv in Hh).
    rewrite fn_lookup_insert_ne, list_lookup_alter_ne by done. apply He; [done|]. set_solver.
  - intros i k b' n d x Hi. destruct (Hr _ _ _ _ _ _ Hi) as (h & buf & Hd & ? & Hh & ?).
    assert (b ≠ b') by (intros ->; apply Hkv in Hh; by eapply Hlive).
    exists h, buf. rewrite list_lookup_alter_ne by done. auto.
Qed.

Lemma set_cache_frame c' s :
  let s' := set_cache c' s in
  dir s' = dir s ∧ cache s' = c' ∧ fileCache s' = fileCache s ∧ fds s' = fds s ∧
  syncAdd s' = syncAdd s ∧ direct s' = direct s.
Proof.
  unfold set_cache. set (s0 := mkSt _ _ _ _ _ _ _ _).
  assert (∀ ev s1, let s' := foldl (λ s h, OnEvicted_data c' h s) s1 ev in
    dir s' = dir s1 ∧ cache s' = cache s1 ∧ fileCache s' = fileCache s1 ∧ fds s' = fds s1 ∧
    syncAdd s' = syncAdd s1 ∧ direct s' = direct s1) as Hf; [|apply (Hf _ s0)].
  induction ev as [|h ev IH]; intros s1; simpl; [done|].
  destruct (IH (OnEvicted_data c' h s1)) as (-> & -> & -> & -> & -> & ->).
  unfold OnEvicted_data. by destruct (heap c' !! h).
Qed.

(** The callbacks of the evictions. *)
Lemma buf_evictions own dn c' E ev s rs ws ts H :
  wf c' → evicted c' = E ++ ev →
  BufInv own dn c' E (bufs s) (pool s) rs ws ts H →
  let s' := foldl (λ s h, OnEvicted_data c' h s) s ev in
  ∃ own', BufInv own' dn c' (evicted c') (bufs s') (pool s') rs ws ts H.
Proof.
  intros Hw. revert own E s. induction ev as [|h ev IH]; intros own E s HE HB; simpl.
  { exists own. by rewrite HE, app_nil_r. }
  pose proof (inv_nodup _ _ _ Hw) as Hnd. rewrite HE in Hnd.
  assert (h ∈ evicted c') as Hin by (rewrite HE; set_solver).
  assert (h ∉ E) as HhE by (apply list.NoDup_app in Hnd as (_ & Hd & _); intros ?; eapply Hd; [done|set_solver]).
  destruct (evicted_kv _ _ Hw Hin) as [[k b] Hkv].
  destruct (b_entry _ _ _ _ _ _ _ _ _ _ HB _ _ _ Hkv HhE) as (Ho & buf & Hb & _).
  pose proof Hkv as Hkv'. unfold kv in Hkv'.
  destruct (heap c' !! h) as [r|] eqn:Hr; [|done]. simpl in Hkv'. injection Hkv' as <- <-.
  eapply (IH (<[rc_v r := BPool]> own) (E ++ [h])); [by rewrite <-(assoc_L (++))|].
  unfold OnEvicted_data. rewrite Hr. simpl.
  eapply buf_put; [exact HB|by rewrite Ho|by eexists|set_solver|done| | |].
  - intros h' k' Hh'. destruct (decide (h' ∈ E)) as [?|Hn]; [set_solver|].
    destruct (b_entry _ _ _ _ _ _ _ _ _ _ HB _ _ _ Hh' Hn) as [Ho' _]. rewrite Ho in Ho'. set_solver.
  - intros i k' w x Hi. destruct (b_writer _ _ _ _ _ _ _ _ _ _ HB _ _ _ _ _ Hi) as [Ho' _]. congruence.
  - intros d h' Hd Hh'. eapply live_not_evicted; [exact Hw|exact Hd|]. rewrite HE. set_solver.
Qed.

Lemma buf_set_cache own dn c' ev s rs ws ts H :
  wf c' → evicted c' = evicted (cache s) ++ ev →
  BufInv own dn c' (evicted (cache s)) (bufs s) (pool s) rs ws ts H →
  ∃ own', BufInv own' dn c' (evicted c') (bufs (set_cache c' s)) (pool (set_cache c' s)) rs ws ts H.
Proof.
  intros Hw HE HB. unfold set_cache, new_evictions.
  replace (drop _ (evicted c')) with ev by by rewrite HE, drop_app_length.
  by apply (buf_evictions own _ _ (evicted (cache s))).
Qed.

(** ** Files

    A file is written by one writer or one commit, and is frozen from when its name
    moves to the cache directory. *)
Inductive iowner := IWriter (i : nat) | ITask (j : nat) | IFrozen.

Definition task_content (ph : phase) (k : string) (x : bytes) H : Prop :=
  match ph with TWrite => x = [] | TCommit => (k, x) ∈ H | _ => True end.
Definition writing (ph : phase) : bool := match ph with TWrite | TCommit => true | _ => false end.

Record InoInv (own : nat → iowner) (de : gmap path nat) (inos : list bytes) ws ts H : Prop := {
  i_entry k ino : de !! CacheFile k = Some ino →
    own ino = IFrozen ∧ ∃ x, inos !! ino = Some x ∧ (k, x) ∈ H;
  i_wip k n ino : de !! WipFile k n = Some ino → ino = n;
  i_writer i k w x : ws !! i = Some (k, w, x) →
    DirectoryCache.w_key (w_file w) = k ∧ own (DirectoryCache.w_ino (w_file w)) = IWriter i ∧
    inos !! DirectoryCache.w_ino (w_file w) = Some (match w with DirectW _ => x | MemW _ _ => [] end);
  i_task j t ph : ts !! j = Some (t, ph) → writing ph = true →
    own (DirectoryCache.w_ino (t_w t)) = ITask j ∧
    ∃ x, inos !! DirectoryCache.w_ino (t_w t) = Some x ∧
      task_content ph (DirectoryCache.w_key (t_w t)) x H
}.

(** Frozen files keep their contents. *)
Definition ino_ext (own : nat → iowner) (inos : list bytes) (own' : nat → iowner) (inos' : list bytes) : Prop :=
  ∀ ino x, own ino = IFrozen → inos !! ino = Some x → own' ino = IFrozen ∧ inos' !! ino = Some x.

Lemma ino_weaken own de de' inos ws ws' ts ts' H H' :
  InoInv own de inos ws ts H → de' ⊆ de → ws' ⊆ ws → H ⊆ H' →
  (∀ j t ph, ts' !! j = Some (t, ph) → writing ph = true → ts !! j = Some (t, ph)) →
  InoInv own de' inos ws' ts' H'.
Proof.
  intros [He Hwip Hw Ht] Hde Hws HH Hts. split.
  - intros k ino Hk. destruct (He k ino) as (? & x & ? & ?); [by eapply lookup_weaken|]. eauto 6.
  - intros k n ino Hk. eapply Hwip, lookup_weaken; done.
  - intros i k w x Hi. eapply Hw, lookup_weaken; done.
  - intros j t ph Hj Hph. destruct (Ht _ _ _ (Hts _ _ _ Hj Hph) Hph) as (? & x & ? & Hc).
    split; [done|]. exists x. split; [done|]. destruct ph; simpl in *; try done. by apply HH.
Qed.

(** *** The operations of the directory *)
Lemma dir_Add_spec key d :
  match DirectoryCache.Add key d with
  | (Ok w, d') => let n := length (inodes (DirectoryCache.fs d)) in
      w = DirectoryCache.mkWriter key n ∧
      inodes (DirectoryCache.fs d') = inodes (DirectoryCache.fs d) ++ [ [] ] ∧
      dirents (DirectoryCache.fs d') = <[WipFile key n := n]> (dirents (DirectoryCache.fs d))
  | (_, d') => inodes (DirectoryCache.fs d') = inodes (DirectoryCache.fs d) ∧
      dirents (DirectoryCache.fs d') = dirents (DirectoryCache.fs d)
  end.
Proof.
  unfold DirectoryCache.Add, st_bind, DirectoryCache.on_fs, os_CreateTemp, syscall.
  destruct (DirectoryCache.closed d); [done|]. by destruct (fault _ _).
Qed.

Lemma dir_Write_spec w p d :
  match DirectoryCache.Write w p d with
  | (Ok n, d') => n = zlen p ∧
      inodes (DirectoryCache.fs d') = alter (λ b, b ++ p) (DirectoryCache.w_ino w) (inodes (DirectoryCache.fs d)) ∧
      dirents (DirectoryCache.fs d') = dirents (DirectoryCache.fs d)
  | (Err _, d') => inodes (DirectoryCache.fs d') = inodes (DirectoryCache.fs d) ∧
      dirents (DirectoryCache.fs d') = dirents (DirectoryCache.fs d)
  | (Panic, _) => False
  end.
Proof.
  unfold DirectoryCache.Write, DirectoryCache.on_fs, file_Write, syscall. by destruct (fault _ _).
Qed.

Lemma dir_Remove_spec p d :
  let d' := (DirectoryCache.on_fs (os_Remove p) d).2 in
  inodes (DirectoryCache.fs d') = inodes (DirectoryCache.fs d) ∧
  dirents (DirectoryCache.fs d') ⊆ dirents (DirectoryCache.fs d).
Proof.
  unfold DirectoryCache.on_fs, os_Remove, syscall. repeat case_match; simplify_eq/=; try done.
  split; [done|]. apply delete_subseteq.
Qed.

Lemma dir_Commit_spec w d :
  let d' := (DirectoryCache.Commit w d).2 in
  let de := dirents (DirectoryCache.fs d) in
  inodes (DirectoryCache.fs d') = inodes (DirectoryCache.fs d) ∧
  (dirents (DirectoryCache.fs d') ⊆ de ∨
   ∃ ino, de !! DirectoryCache.w_name w = Some ino ∧
     dirents (DirectoryCache.fs d') =
       <[CacheFile (DirectoryCache.w_key w) := ino]> (delete (DirectoryCache.w_name w) de)).
Proof.
  unfold DirectoryCache.Commit. destruct (DirectoryCache.closed d) eqn:Ec; [by split; [|left]|].
  destruct (DirectoryCache.on_fs os_MkdirAll d) as [o d1] eqn:Em.
  assert (inodes (DirectoryCache.fs d1) = inodes (DirectoryCache.fs d) ∧
    dirents (DirectoryCache.fs d1) = dirents (DirectoryCache.fs d)) as [Hi Hd].
  { revert Em. unfold DirectoryCache.on_fs, os_MkdirAll, syscall. by destruct (fault _ _); intros [= <- <-]. }
  destruct o as [ [] |e|]; simpl.
  - unfold DirectoryCache.on_fs, os_Rename, syscall. repeat case_match; simplify_eq/=;
      rewrite ?Hi, ?Hd in *; (split; [done|]); eauto.
  - pose proof (dir_Remove_spec (DirectoryCache.w_name w) d1) as [Hi' Hd'].
    destruct (DirectoryCache.on_fs (os_Remove _) d1) as [ [] d2]; simpl in *;
      rewrite <-Hd, <-Hi; (split; [done|]); by left.
  - split; [done|]. left. by rewrite Hd.
Qed.

Lemma dir_Close_spec d :
  let d' := (DirectoryCache.Close d).2 in
  inodes (DirectoryCache.fs d') = inodes (DirectoryCache.fs d) ∧
  dirents (DirectoryCache.fs d') ⊆ dirents (DirectoryCache.fs d).
Proof.
  unfold DirectoryCache.Close. destruct (DirectoryCache.closed d); [done|].
  unfold DirectoryCache.on_fs, os_RemoveAll, syscall. repeat case_match; simplify_eq/=; try done.
  split; [done|]. apply map_empty_subseteq.
Qed.

Lemma dir_Open_spec key d :
  match DirectoryCache.on_fs (os_Open (CacheFile key)) d with
  | (o, d') => inodes (DirectoryCache.fs d') = inodes (DirectoryCache.fs d) ∧
      dirents (DirectoryCache.fs d') = dirents (DirectoryCache.fs d) ∧
      ∀ ino, o = Ok ino → dirents (DirectoryCache.fs d) !! CacheFile key = Some ino
  end.
Proof.
  unfold DirectoryCache.on_fs, os_Open, syscall. repeat case_match; simplify_eq/=; naive_solver.
Qed.

(** *** What they do to the invariant *)
Lemma ino_new own de inos ws ts H i k w :
  InoInv own de inos ws ts H →
  w_file w = DirectoryCache.mkWriter k (length inos) →
  let own' := <[length inos := IWriter i]> own in
  InoInv own' (<[WipFile k (length inos) := length inos]> de) (inos ++ [ [] ]) (<[i := (k, w, [])]> ws) ts H ∧
  ino_ext own inos own' (inos ++ [ [] ]).
Proof.
  intros [He Hwip Hw Ht] Hwf own'.
  assert (∀ ino x, inos !! ino = Some x → own' ino = own ino ∧ (inos ++ [ [] ]) !! ino = Some x) as Hold.
  { intros ino x Hx. pose proof (lookup_lt_Some _ _ _ Hx). unfold own'.
    rewrite fn_lookup_insert_ne, lookup_app_l by lia. done. }
  split; [|intros ino x Ho Hx; destruct (Hold _ _ Hx) as [-> ->]; done]. split.
  - intros k' ino. rewrite lookup_insert_ne by done. intros (Ho & x & Hx & ?)%He.
    destruct (Hold _ _ Hx) as [-> Hx']. eauto.
  - intros k' n ino [[? <-]|[_ ?%Hwip] ]%lookup_insert_Some; congruence.
  - intros i' k' w' x [[<- [= <- <- <-] ]|[_ Hi] ]%lookup_insert_Some.
    + rewrite Hwf. simpl. unfold own'. rewrite fn_lookup_insert, lookup_app_r, Nat.sub_diag by lia.
      by destruct w.
    + destruct (Hw _ _ _ _ Hi) as (? & Ho & Hx). destruct (Hold _ _ Hx) as [-> ?]. done.
  - intros j t ph Hj Hph. destruct (Ht _ _ _ Hj Hph) as (Ho & x & Hx & ?).
    destruct (Hold _ _ Hx) as [-> ?]. eauto.
Qed.

(** A write, by the writer or commit that owns the file. *)
Lemma ino_write own de inos ws ws' ts ts' H n f :
  InoInv own de inos ws ts H → own n ≠ IFrozen →
  (∀ i k w x, ws' !! i = Some (k, w, x) → DirectoryCache.w_ino (w_file w) ≠ n ∧ ws !! i = Some (k, w, x) ∨
     own n = IWriter i ∧ DirectoryCache.w_ino (w_file w) = n ∧ DirectoryCache.w_key (w_file w) = k ∧
     (f <$> inos !! n) = Some (match w with DirectW _ => x | MemW _ _ => [] end)) →
  (∀ j t ph, ts' !! j = Some (t, ph) → writing ph = true →
     DirectoryCache.w_ino (t_w t) ≠ n ∧ ts !! j = Some (t, ph) ∨
     own n = ITask j ∧ DirectoryCache.w_ino (t_w t) = n ∧ ∃ x, (f <$> inos !! n) = Some x ∧
       task_content ph (DirectoryCache.w_key (t_w t)) x H) →
  InoInv own de (alter f n inos) ws' ts' H ∧ ino_ext own inos own (alter f n inos).
Proof.
  intros [He Hwip Hw Ht] Hn Hws Hts.
  assert (∀ ino x, ino ≠ n → inos !! ino = Some x → alter f n inos !! ino = Some x) as Hold.
  { intros ino x Hne Hx. by rewrite list_lookup_alter_ne. }
  split; [|intros ino x Ho Hx; split; [done|]; apply Hold; congruence]. split.
  - intros k ino (Ho & x & Hx & ?)%He. split; [done|]. exists x. split; [|done]. apply Hold; congruence.
  - done.
  - intros i k w x [(Hne & Hi)|(Ho & Hwn & ? & Hf)]%Hws.
    + destruct (Hw _ _ _ _ Hi) as (? & ? & Hx). auto.
    + rewrite Hwn, list_lookup_alter_eq. auto.
  - intros j t ph Hj Hph. destruct (Hts _ _ _ Hj Hph) as [(Hne & Hj')|(Ho & Htn & x & Hf & ?)].
    + destruct (Ht _ _ _ Hj' Hph) as (? & x & ? & ?). eauto 6.
    + rewrite Htn, list_lookup_alter_eq. eauto.
Qed.

(** A rename into the cache directory, or the loss of the name. *)
Lemma ino_commit own de de' inos ws ws' ts ts' H H' w x :
  InoInv own de inos ws ts H →
  inos !! DirectoryCache.w_ino w = Some x → (DirectoryCache.w_key w, x) ∈ H' → H ⊆ H' →
  de' ⊆ de ∨ (∃ ino, de !! DirectoryCache.w_name w = Some ino ∧
     de' = <[CacheFile (DirectoryCache.w_key w) := ino]> (delete (DirectoryCache.w_name w) de)) →
  (∀ i k w' x', ws' !! i = Some (k, w', x') → ws !! i = Some (k, w', x') ∧
     DirectoryCache.w_ino (w_file w') ≠ DirectoryCache.w_ino w) →
  (∀ j t ph, ts' !! j = Some (t, ph) → writing ph = true → ts !! j = Some (t, ph) ∧
     DirectoryCache.w_ino (t_w t) ≠ DirectoryCache.w_ino w) →
  let own' := <[DirectoryCache.w_ino w := IFrozen]> own in
  InoInv own' de' inos ws' ts' H' ∧ ino_ext own inos own' inos.
Proof.
  intros [He Hwip Hw Ht] Hx HxH HH Hde Hws Hts own'.
  assert (∀ ino, own ino = IFrozen → own' ino = IFrozen) as Hfr.
  { intros ino Ho. unfold own'. destruct (decide (DirectoryCache.w_ino w = ino)) as [<-|];
      [by rewrite fn_lookup_insert|by rewrite fn_lookup_insert_ne]. }
  split; [|intros ino y Ho Hy; auto].
  assert (∀ k ino, de !! CacheFile k = Some ino → own' ino = IFrozen ∧ ∃ y, inos !! ino = Some y ∧ (k, y) ∈ H') as He'.
  { intros k ino (Ho & y & ? & ?)%He. eauto 6. }
  split.
  - intros k ino Hk. destruct Hde as [Hsub|(n & Hn & ->)]; [by eapply He', lookup_weaken|].
    apply lookup_insert_Some in Hk as [[[= <-] <-]|[_ [_ Hk]%lookup_delete_Some] ]; [|by apply He'].
    unfold DirectoryCache.w_name in Hn. apply Hwip in Hn as ->. unfold own'. rewrite fn_lookup_insert. eauto.
  - intros k n ino Hk. destruct Hde as [Hsub|(n' & Hn & ->)]; [by eapply Hwip, lookup_weaken|].
    apply lookup_insert_Some in Hk as [[? _]|[_ [_ Hk]%lookup_delete_Some] ]; [done|]. by eapply Hwip.
  - intros i k w' x' (Hi & Hne)%Hws. destruct (Hw _ _ _ _ Hi) as (? & ? & ?).
    unfold own'. rewrite fn_lookup_insert_ne by done. done.
  - intros j t ph Hj Hph. destruct (Hts _ _ _ Hj Hph) as (Hj' & Hne).
    destruct (Ht _ _ _ Hj' Hph) as (? & y & ? & Hc). unfold own'. rewrite fn_lookup_insert_ne by done.
    split; [done|]. exists y. split; [done|]. destruct ph; simpl in *; auto.
Qed.

(** ** Descriptors *)
Inductive fowner := FReader (i : nat) | FEntry (h : nat).

(** An open descriptor of a frozen file whose contents were committed under [k]. *)
Definition backed (iown : nat → iowner) (inos : list bytes) (fs : list (nat * bool)) H
    (k : string) (fd : nat) (x : bytes) : Prop :=
  ∃ ino, fs !! fd = Some (ino, true) ∧ iown ino = IFrozen ∧ inos !! ino = Some x ∧ (k, x) ∈ H.

Record FdInv (own : nat → fowner) (dn : nat → nat) c (E : list nat) (fs : list (nat * bool))
    (iown : nat → iowner) (inos : list bytes) rs H : Prop := {
  f_entry h k fd : kv c h = Some (k, fd) → h ∉ E →
    own fd = FEntry h ∧ ∃ x, backed iown inos fs H k fd x;
  f_cached i k fd d x : rs !! i = Some (k, CachedFile fd d, x) →
    ∃ h, dones c !! d = Some (h, false) ∧ dn d = i ∧ kv c h = Some (k, fd) ∧ backed iown inos fs H k fd x;
  f_own i k k' fd x : rs !! i = Some (k, OwnFile k' fd, x) →
    k' = k ∧ own fd = FReader i ∧ backed iown inos fs H k fd x;
  f_direct i k fd x : rs !! i = Some (k, DirectFile fd, x) →
    own fd = FReader i ∧ backed iown inos fs H k fd x
}.

Lemma backed_ext iown iown' inos inos' fs fs' H H' k fd x :
  ino_ext iown inos iown' inos' → H ⊆ H' → fs' !! fd = fs !! fd →
  backed iown inos fs H k fd x → backed iown' inos' fs' H' k fd x.
Proof.
  intros Hext HH Hfs (ino & ? & Ho & Hx & ?). destruct (Hext _ _ Ho Hx). exists ino. rewrite Hfs. auto.
Qed.

Lemma fd_weaken own dn c c' E fs iown iown' inos inos' rs rs' H H' :
  FdInv own dn c E fs iown inos rs H →
  (∀ h, kv c' h = kv c h) → ino_ext iown inos iown' inos' → H ⊆ H' →
  (∀ i k r x, rs' !! i = Some (k, r, x) → (∃ b n d, r = BufReader b n d) ∨
     rs !! i = Some (k, r, x) ∧ ∀ fd d h, r = CachedFile fd d →
       dones c !! d = Some (h, false) → dones c' !! d = Some (h, false)) →
  FdInv own dn c' E fs iown' inos' rs' H'.
Proof.
  intros [He Hc Ho Hd] Hkv Hext HH Hrs. split.
  - intros h k fd. rewrite Hkv. intros Hh HhE. destruct (He _ _ _ Hh HhE) as (? & x & ?).
    eauto using backed_ext.
  - intros i k fd d x [(? & ? & ? & ?)|(Hi & Hdd)]%Hrs; [done|].
    destruct (Hc _ _ _ _ _ Hi) as (h & ? & ? & ? & ?). exists h. rewrite Hkv. eauto 7 using backed_ext.
  - intros i k k' fd x [(? & ? & ? & ?)|(Hi & _)]%Hrs; [done|].
    destruct (Ho _ _ _ _ _ Hi) as (? & ? & ?). eauto using backed_ext.
  - intros i k fd x [(? & ? & ? & ?)|(Hi & _)]%Hrs; [done|].
    destruct (Hd _ _ _ _ Hi) as (? & ?). eauto using backed_ext.
Qed.

(** Closing a descriptor is fine when nothing else can refer to it. *)
Lemma fd_close own dn c E E' fs iown inos rs rs' H fd ino :
  FdInv own dn c E fs iown inos rs H →
  E ⊆ E' → rs' ⊆ rs →
  (∀ h k, kv c h = Some (k, fd) → h ∈ E') →
  (∀ i k k' x, rs' !! i ≠ Some (k, OwnFile k' fd, x)) →
  (∀ i k x, rs' !! i ≠ Some (k, DirectFile fd, x)) →
  (∀ d h, dones c !! d = Some (h, false) → h ∉ E') →
  FdInv own dn c E' (<[fd := (ino, false)]> fs) iown inos rs' H.
Proof.
  intros [He Hc Ho Hd] HE Hsub Hkv Hno Hnd Hlive.
  assert (∀ k fd' x, fd ≠ fd' → backed iown inos fs H k fd' x →
    backed iown inos (<[fd := (ino, false)]> fs) H k fd' x) as Hb.
  { intros k fd' x Hne. apply backed_ext; [done|done|]. by rewrite list_lookup_insert_ne. }
  split.
  - intros h k fd' Hh HhE. assert (fd ≠ fd') by (intros ->; by apply Hkv in Hh).
    destruct (He _ _ _ Hh) as (? & x & ?); [set_solver|]. eauto.
  - intros i k fd' d x Hi. destruct (Hc i k fd' d x) as (h & Hdd & ? & Hh & ?); [by eapply lookup_weaken|].
    assert (fd ≠ fd') by (intros ->; apply Hkv in Hh; by eapply Hlive). eauto 7.
  - intros i k k' fd' x Hi. assert (fd ≠ fd') by (intros ->; by eapply Hno).
    destruct (Ho i k k' fd' x) as (? & ? & ?); [by eapply lookup_weaken|]. eauto.
  - intros i k fd' x Hi. assert (fd ≠ fd') by (intros ->; by eapply Hnd).
    destruct (Hd i k fd' x) as (? & ?); [by eapply lookup_weaken|]. eauto.
Qed.

Lemma set_fileCache_frame c' s :
  let s' := set_fileCache c' s in
  dir s' = dir s ∧ cache s' = cache s ∧ fileCache s' = c' ∧ bufs s' = bufs s ∧ pool s' = pool s ∧
  syncAdd s' = syncAdd s ∧ direct s' = direct s.
Proof.
  unfold set_fileCache. set (s0 := mkSt _ _ _ _ _ _ _ _).
  assert (∀ ev s1, let s' := foldl (λ s h, OnEvicted_fd c' h s) s1 ev in
    dir s' = dir s1 ∧ cache s' = cache s1 ∧ fileCache s' = fileCache s1 ∧ bufs s' = bufs s1 ∧
    pool s' = pool s1 ∧ syncAdd s' = syncAdd s1 ∧ direct s' = direct s1) as Hf; [|apply (Hf _ s0)].
  induction ev as [|h ev IH]; intros s1; simpl; [done|].
  destruct (IH (OnEvicted_fd c' h s1)) as (-> & -> & -> & -> & -> & -> & ->).
  unfold OnEvicted_fd, file_Close. by repeat case_match.
Qed.

Lemma fd_evictions own dn c' E ev s iown inos rs H :
  wf c' → evicted c' = E ++ ev →
  FdInv own dn c' E (fds s) iown inos rs H →
  let s' := foldl (λ s h, OnEvicted_fd c' h s) s ev in
  FdInv own dn c' (evicted c') (fds s') iown inos rs H.
Proof.
  intros Hw. revert E s. induction ev as [|h ev IH]; intros E s HE HF; simpl.
  { by rewrite HE, app_nil_r. }
  pose proof (inv_nodup _ _ _ Hw) as Hnd. rewrite HE in Hnd.
  assert (h ∈ evicted c') as Hin by (rewrite HE; set_solver).
  assert (h ∉ E) as HhE by (apply list.NoDup_app in Hnd as (_ & Hd & _); intros ?; eapply Hd; [done|set_solver]).
  destruct (evicted_kv _ _ Hw Hin) as [[k fd] Hkv].
  destruct (f_entry _ _ _ _ _ _ _ _ _ HF _ _ _ Hkv HhE) as (Ho & x & ino & Hfd & _).
  pose proof Hkv as Hkv'. unfold kv in Hkv'.
  destruct (heap c' !! h) as [r|] eqn:Hr; [|done]. simpl in Hkv'. injection Hkv' as <- <-.
  eapply (IH (E ++ [h])); [by rewrite <-(assoc_L (++))|].
  unfold OnEvicted_fd. rewrite Hr. unfold file_Close. rewrite Hfd. simpl.
  eapply fd_close; [exact HF|set_solver|done| | | |].
  - intros h' k' Hh'. destruct (decide (h' ∈ E)) as [?|Hn]; [set_solver|].
    destruct (f_entry _ _ _ _ _ _ _ _ _ HF _ _ _ Hh' Hn) as [Ho' _]. rewrite Ho in Ho'. set_solver.
  - intros i k1 k2 y Hi. destruct (f_own _ _ _ _ _ _ _ _ _ HF _ _ _ _ _ Hi) as (_ & Ho' & _). congruence.
  - intros i k1 y Hi. destruct (f_direct _ _ _ _ _ _ _ _ _ HF _ _ _ _ Hi) as (Ho' & _). congruence.
  - intros d h' Hd Hh'. eapply live_not_evicted; [exact Hw|exact Hd|]. rewrite HE. set_solver.
Qed.

Lemma fd_set_fileCache own dn c' ev s iown inos rs H :
  wf c' → evicted c' = evicted (fileCache s) ++ ev →
  FdInv own dn c' (evicted (fileCache s)) (fds s) iown inos rs H →
  FdInv own dn c' (evicted c') (fds (set_fileCache c' s)) iown inos rs H.
Proof.
  intros Hw HE HF. unfold set_fileCache, new_evictions.
  replace (drop _ (evicted c')) with ev by by rewrite HE, drop_app_length.
  by apply (fd_evictions own _ _ (evicted (fileCache s))).
Qed.

(** ** The invariant of the system *)
Definition d_inos (s : state (L := L)) : list bytes := inodes (DirectoryCache.fs (dir s)).
Definition d_ents (s : state (L := L)) : gmap path nat := dirents (DirectoryCache.fs (dir s)).

Definition Inv (y : sys (L := L)) : Prop :=
  let s := st y in
  wf (cache s) ∧ wf (fileCache s) ∧
  ∃ bown bdn fown fdn iown,
    BufInv bown bdn (cache s) (evicted (cache s)) (bufs s) (pool s) (readers y) (writers y) (tasks y) (committed y) ∧
    FdInv fown fdn (fileCache s) (evicted (fileCache s)) (fds s) iown (d_inos s) (readers y) (committed y) ∧
    InoInv iown (d_ents s) (d_inos s) (writers y) (tasks y) (committed y).

(** An open reader serves what it served when it was opened, and that was committed. *)
Lemma Inv_reader y i k r x : Inv y → readers y !! i = Some (k, r, x) →
  reader_bytes r (st y) = Some x ∧ (k, x) ∈ committed y.
Proof.
  intros (Hw & Hwf & bown & bdn & fown & fdn & iown & HB & HF & _) Hi.
  assert (∀ fd, backed iown (d_inos (st y)) (fds (st y)) (committed y) k fd x →
    (match fds (st y) !! fd with Some (ino, true) => d_inos (st y) !! ino | _ => None end) = Some x ∧
    (k, x) ∈ committed y) as Hb.
  { intros fd (ino & -> & _ & -> & ?). done. }
  destruct r as [b n d|fd d|k' fd|fd]; simpl.
  - destruct (b_reader _ _ _ _ _ _ _ _ _ _ HB _ _ _ _ _ _ Hi) as (h & buf & Hd & _ & Hh & Hbuf & <- & <-).
    rewrite Hbuf. split; [done|].
    destruct (b_entry _ _ _ _ _ _ _ _ _ _ HB _ _ _ Hh) as (_ & buf' & Hbuf' & ?);
      [by eapply live_not_evicted|]. by simplify_eq.
  - destruct (f_cached _ _ _ _ _ _ _ _ _ HF _ _ _ _ _ Hi) as (h & _ & _ & _ & ?). by apply Hb.
  - destruct (f_own _ _ _ _ _ _ _ _ _ HF _ _ _ _ _ Hi) as (_ & _ & ?). by apply Hb.
  - destruct (f_direct _ _ _ _ _ _ _ _ _ HF _ _ _ _ Hi) as (_ & ?). by apply Hb.
Qed.
End invariant.
