(* ===== verification/DirCacheSteps.v ===== *)
(** * The directory cache: every step keeps the invariant

    Each operation of [DirCache] is taken through the invariant of [DirCacheFacts], and
    the theorems about the readers of a cache that is used concurrently follow. *)
From Stdlib Require Import ZArith Lia.
From stdpp Require Import base list gmap strings numbers functions.
From S2P Require Import Prelude GoLib LruCache BlobCache DirCache DirCacheFacts.
#[local] Open Scope Z_scope.

Section steps.
Context {L : Type} `{!LRU L, !LRULaws L}.
Implicit Types (c : Cache L nat) (rs : gmap nat (string * reader * bytes))
  (ws : gmap nat (string * writer * bytes)) (ts : gmap nat (task * phase))
  (H : list (string * bytes)) (y : sys (L := L)) (s : state (L := L)).

(** ** New references *)
Lemma dones_snoc c c' d h h0 : dones c' = dones c ++ [(h0, false)] →
  dones c !! d = Some (h, false) → d ≠ length (dones c) ∧ dones c' !! d = Some (h, false).
Proof. intros -> Hd. pose proof (lookup_lt_Some _ _ _ Hd). rewrite lookup_app_l by done. split; [lia|done]. Qed.

Lemma buf_add_done own dn c c' E bs pl rs ws ts H h o :
  BufInv own dn c E bs pl rs ws ts H → (∀ h, kv c' h = kv c h) →
  dones c' = dones c ++ [(h, false)] →
  BufInv own (<[length (dones c) := o]> dn) c' E bs pl rs ws ts H.
Proof.
  intros [Hl Hp Hn Hw He Hr Ht] Hkv Hd. split; try done.
  - intros h' k b. rewrite Hkv. apply He.
  - intros i k b n d x Hi. destruct (Hr _ _ _ _ _ _ Hi) as (h' & buf & Hd' & ? & ? & ?).
    destruct (dones_snoc _ _ _ _ _ Hd Hd') as [? ?]. exists h', buf.
    rewrite Hkv, fn_lookup_insert_ne by done. auto.
  - intros j t ph Hj. destruct (Ht _ _ _ Hj) as (h' & Hd' & ? & ?).
    destruct (dones_snoc _ _ _ _ _ Hd Hd') as [? ?]. exists h'.
    rewrite Hkv, fn_lookup_insert_ne by done. auto.
Qed.

Lemma buf_insert_reader own dn c E bs pl rs ws ts H i k r x :
  BufInv own dn c E bs pl rs ws ts H →
  (∀ b n d, r = BufReader b n d → ∃ h buf, dones c !! d = Some (h, false) ∧ dn d = inl i ∧
     kv c h = Some (k, b) ∧ bs !! b = Some buf ∧ blen buf = n ∧ Bytes buf = x) →
  BufInv own dn c E bs pl (<[i := (k, r, x)]> rs) ws ts H.
Proof.
  intros [Hl Hp Hn Hw He Hr Ht] Hnew. split; try done.
  intros i' k' b n d x' [[<- [= <- -> <-] ]|[_ ?] ]%lookup_insert_Some; [by apply Hnew|by eauto].
Qed.

Lemma buf_insert_task own dn c E bs pl rs ws ts H j t ph h :
  BufInv own dn c E bs pl rs ws ts H →
  dones c !! t_done t = Some (h, false) → dn (t_done t) = inr j →
  kv c h = Some (DirectoryCache.w_key (t_w t), t_cached t) →
  BufInv own dn c E bs pl rs ws (<[j := (t, ph)]> ts) H.
Proof.
  intros [Hl Hp Hn Hw He Hr Ht] ???. split; try done.
  intros j' t' ph' [[<- [= <- <-] ]|[_ ?] ]%lookup_insert_Some; eauto.
Qed.

(** The buffer of a writer becomes an entry of the data cache. *)
Lemma buf_add_entry own dn c c' E bs pl rs ws ts H i key w b x h o :
  BufInv own dn c E bs pl rs ws ts H →
  ws !! i = Some (key, MemW w b, x) → kv c h = None → dones c' = dones c ++ [(h, false)] →
  (∀ h', kv c' h' = if decide (h' = h) then Some (key, b) else kv c h') →
  BufInv (<[b := BEntry h]> own) (<[length (dones c) := o]> dn) c' E bs pl rs (delete i ws) ts ((key, x) :: H).
Proof.
  intros [Hl Hp Hn Hw He Hr Ht] Hi Hnone Hd Hkv.
  destruct (Hw _ _ _ _ _ Hi) as (Hown & buf & Hb & Hx).
  assert (∀ h' kb, kv c h' = Some kb → kv c' h' = Some kb) as Hold.
  { intros h' kb Hh'. rewrite Hkv. case_decide; congruence. }
  split; try done.
  - intros b' Hin. destruct (Hp _ Hin) as [? ?]. rewrite fn_lookup_insert_ne; [done|congruence].
  - intros i' k' w' b' x' [Hne Hi']%lookup_delete_Some. destruct (Hw _ _ _ _ _ Hi') as (? & ?).
    rewrite fn_lookup_insert_ne; [done|congruence].
  - intros h' k' b'. rewrite Hkv. case_decide as Hh.
    + intros [= <- <-] _. rewrite fn_lookup_insert. subst. split; [done|]. exists buf.
      split; [done|]. left.
    + intros Hh' HE. destruct (He _ _ _ Hh' HE) as (? & buf' & ? & ?).
      rewrite fn_lookup_insert_ne by congruence. split; [done|]. exists buf'. split; [done|]. by right.
  - intros i' k' b' n d x' Hi'. destruct (Hr _ _ _ _ _ _ Hi') as (h' & buf' & Hd' & ? & ? & ?).
    destruct (dones_snoc _ _ _ _ _ Hd Hd') as [? ?]. exists h', buf'.
    rewrite fn_lookup_insert_ne by done. auto.
  - intros j t ph Hj. destruct (Ht _ _ _ Hj) as (h' & Hd' & ? & ?).
    destruct (dones_snoc _ _ _ _ _ Hd Hd') as [? ?]. exists h'. rewrite fn_lookup_insert_ne by done. auto.
Qed.

(** A [done] of the data cache that no remaining reader or commit holds is called. *)
Lemma buf_done own dn d s rs rs' ws ts ts' H :
  wf (cache s) →
  BufInv own dn (cache s) (evicted (cache s)) (bufs s) (pool s) rs ws ts H →
  rs' ⊆ rs → ts' ⊆ ts →
  (∀ i k b n x, rs' !! i ≠ Some (k, BufReader b n d, x)) →
  (∀ j t ph, ts' !! j = Some (t, ph) → t_done t ≠ d) →
  let s' := set_cache (call_done d (cache s)) s in
  wf (cache s') ∧
  ∃ own', BufInv own' dn (cache s') (evicted (cache s')) (bufs s') (pool s') rs' ws ts' H.
Proof.
  intros Hw HB Hrs Hts Hnr Hnt s'. destruct (done_spec d (cache s) Hw) as (Hw' & Hkv & (ev & Hev) & Hds & _).
  destruct (set_cache_frame (call_done d (cache s)) s) as (_ & Hc & _). fold s' in Hc. rewrite Hc.
  split; [done|]. eapply buf_set_cache; [done|exact Hev|].
  eapply (buf_weaken _ _ _ _ _ _ _ _ _ _ _ _ _ _ _ HB); try done.
  - intros i k b n d' x h Hi. split; [by eapply lookup_weaken|]. apply Hds. intros ->. by eapply Hnr.
  - intros j t ph Hj. exists ph. split; [by eapply lookup_weaken|]. intros h. apply Hds. by eapply Hnt.
Qed.

Lemma fd_add_done own dn c c' E fs iown inos rs H h i :
  FdInv own dn c E fs iown inos rs H → (∀ h, kv c' h = kv c h) →
  dones c' = dones c ++ [(h, false)] →
  FdInv own (<[length (dones c) := i]> dn) c' E fs iown inos rs H.
Proof.
  intros [He Hc Ho Hd] Hkv Hdn. split; try done.
  - intros h' k fd. rewrite Hkv. apply He.
  - intros i' k fd d x Hi. destruct (Hc _ _ _ _ _ Hi) as (h' & Hd' & ? & ? & ?).
    destruct (dones_snoc _ _ _ _ _ Hdn Hd') as [? ?]. exists h'.
    rewrite Hkv, fn_lookup_insert_ne by done. auto.
Qed.

(** The descriptor of a reader becomes an entry of the file cache. *)
Lemma fd_add_entry own dn c c' E fs iown inos rs H i key fd x h o :
  FdInv own dn c E fs iown inos rs H →
  rs !! i = Some (key, OwnFile key fd, x) → kv c h = None → dones c' = dones c ++ [(h, false)] →
  (∀ h', kv c' h' = if decide (h' = h) then Some (key, fd) else kv c h') →
  FdInv (<[fd := FEntry h]> own) (<[length (dones c) := o]> dn) c' E fs iown inos (delete i rs) H.
Proof.
  intros [He Hc Ho Hd] Hi Hnone Hdn Hkv.
  destruct (Ho _ _ _ _ _ Hi) as (_ & Hown & Hb).
  assert (∀ h' kb, kv c h' = Some kb → kv c' h' = Some kb) as Hold.
  { intros h' kb Hh'. rewrite Hkv. case_decide; congruence. }
  split.
  - intros h' k' fd'. rewrite Hkv. case_decide as Hh.
    + intros [= <- <-] _. rewrite fn_lookup_insert. subst. eauto.
    + intros Hh' HE. destruct (He _ _ _ Hh' HE) as (? & ?). rewrite fn_lookup_insert_ne by congruence. done.
  - intros i' k' fd' d x' [_ Hi']%lookup_delete_Some. destruct (Hc _ _ _ _ _ Hi') as (h' & Hd' & ? & ? & ?).
    destruct (dones_snoc _ _ _ _ _ Hdn Hd') as [? ?]. exists h'. rewrite fn_lookup_insert_ne by done. auto.
  - intros i' k1 k2 fd' x' [Hne Hi']%lookup_delete_Some. destruct (Ho _ _ _ _ _ Hi') as (? & ? & ?).
    rewrite fn_lookup_insert_ne by congruence. done.
  - intros i' k1 fd' x' [Hne Hi']%lookup_delete_Some. destruct (Hd _ _ _ _ Hi') as (? & ?).
    rewrite fn_lookup_insert_ne by congruence. done.
Qed.

Lemma fd_done own dn d s iown inos rs rs' H :
  wf (fileCache s) →
  FdInv own dn (fileCache s) (evicted (fileCache s)) (fds s) iown inos rs H →
  rs' ⊆ rs → (∀ i k fd x, rs' !! i ≠ Some (k, CachedFile fd d, x)) →
  let s' := set_fileCache (call_done d (fileCache s)) s in
  wf (fileCache s') ∧
  FdInv own dn (fileCache s') (evicted (fileCache s')) (fds s') iown inos rs' H.
Proof.
  intros Hw HF Hrs Hnr s'. destruct (done_spec d (fileCache s) Hw) as (Hw' & Hkv & (ev & Hev) & Hds & _).
  destruct (set_fileCache_frame (call_done d (fileCache s)) s) as (_ & _ & Hc & _). fold s' in Hc. rewrite Hc.
  split; [done|]. eapply fd_set_fileCache; [done|exact Hev|].
  eapply (fd_weaken _ _ _ _ _ _ _ _ _ _ _ _ _ _ HF); try done.
  intros i k r x Hi. right. split; [by eapply lookup_weaken|].
  intros fd d' h -> . apply Hds. intros ->. by eapply Hnr.
Qed.

(** Without evictions only the cache changes. *)
Lemma set_cache_quiet c' s : evicted c' = evicted (cache s) →
  set_cache c' s = mkSt (dir s) c' (fileCache s) (bufs s) (pool s) (fds s) (syncAdd s) (direct s).
Proof. intros He. unfold set_cache, new_evictions. by rewrite He, drop_all. Qed.
Lemma set_fileCache_quiet c' s : evicted c' = evicted (fileCache s) →
  set_fileCache c' s = mkSt (dir s) (cache s) c' (bufs s) (pool s) (fds s) (syncAdd s) (direct s).
Proof. intros He. unfold set_fileCache, new_evictions. by rewrite He, drop_all. Qed.

Lemma ino_ext_refl iown inos : ino_ext iown inos iown inos.
Proof. done. Qed.

(** ** The steps *)
Lemma step_GetMemory key y : Inv y → Inv (step (LGetMemory key) y).
Proof.
  intros (Hw & Hwf & bown & bdn & fown & fdn & iown & HB & HF & HI). simpl. unfold get_memory.
  pose proof (Get_spec key (cache (st y)) Hw) as Hg.
  destruct (Get key (cache (st y))) as [o c']. destruct Hg as (Hw' & Hev & Hkv & Ho).
  rewrite set_cache_quiet by done. destruct o as [[b d]|]; simpl.
  - destruct Ho as (-> & h & Hd & Hh).
    assert (h ∉ evicted (cache (st y))) as HnE.
    { rewrite <-Hev. eapply (live_not_evicted _ (length (dones (cache (st y))))); [done|].
      rewrite Hd. by rewrite lookup_app_r, Nat.sub_diag by lia. }
    destruct (b_entry _ _ _ _ _ _ _ _ _ _ HB _ _ _ Hh HnE) as (_ & buf & Hb & Hx).
    rewrite Hb. simpl. unfold open_reader. simpl. rewrite Hb. simpl. split; [done|]. split; [done|].
    exists bown, (<[length (dones (cache (st y))) := inl (next y)]> bdn), fown, fdn, iown. simpl.
    rewrite Hev. split_and!; [|by eapply fd_weaken; [exact HF|done|apply ino_ext_refl|done|];
        intros i k r x [[<- [= <- <- <-] ]|[_ ?] ]%lookup_insert_Some; eauto 6|done].
    eapply buf_insert_reader; [by eapply buf_add_done|]. intros b' n d [= <- <- <-].
    exists h, buf. rewrite Hd, Hkv, fn_lookup_insert. rewrite lookup_app_r, Nat.sub_diag by lia. done.
  - split; [done|]. split; [done|]. exists bown, bdn, fown, fdn, iown. simpl. rewrite Hev.
    split_and!; [|done|done]. eapply buf_weaken; [exact HB|done|..]; rewrite ?Ho; try done; eauto.
Qed.

Lemma fd_insert_reader own dn c E fs iown inos rs H i k r x :
  FdInv own dn c E fs iown inos rs H →
  (∀ fd d, r = CachedFile fd d → ∃ h, dones c !! d = Some (h, false) ∧ dn d = i ∧ kv c h = Some (k, fd)) →
  (∀ k' fd, r = OwnFile k' fd → k' = k ∧ own fd = FReader i) →
  (∀ fd, r = DirectFile fd → own fd = FReader i) →
  (∀ fd d k', r = CachedFile fd d ∨ r = OwnFile k' fd ∨ r = DirectFile fd → backed iown inos fs H k fd x) →
  FdInv own dn c E fs iown inos (<[i := (k, r, x)]> rs) H.
Proof.
  intros [He Hc Ho Hd] Hnc Hno Hnd Hb. split; try done.
  - intros i' k' fd d x' [[<- [= <- -> <-] ]|[_ ?] ]%lookup_insert_Some; [|by eauto].
    destruct (Hnc fd d) as (h & ? & ? & ?); [done|]. exists h. eauto 8.
  - intros i' k1 k2 fd x' [[<- [= <- -> <-] ]|[_ ?] ]%lookup_insert_Some; [|by eauto].
    destruct (Hno k2 fd) as [-> ?]; [done|]. split_and!; [done..|]. eauto.
  - intros i' k1 fd x' [[<- [= <- -> <-] ]|[_ ?] ]%lookup_insert_Some; [|by eauto]. split; [by apply Hnd|]. eauto.
Unshelve. all: exact 0%nat || exact ""%string.
Qed.

Lemma step_GetFile key y : Inv y → Inv (step (LGetFile key) y).
Proof.
  intros (Hw & Hwf & bown & bdn & fown & fdn & iown & HB & HF & HI). simpl. unfold get_file.
  pose proof (Get_spec key (fileCache (st y)) Hwf) as Hg.
  destruct (Get key (fileCache (st y))) as [o c']. destruct Hg as (Hw' & Hev & Hkv & Ho).
  rewrite set_fileCache_quiet by done. destruct o as [[fd d]|]; simpl.
  - destruct Ho as (-> & h & Hd & Hh).
    assert (h ∉ evicted (fileCache (st y))) as HnE.
    { rewrite <-Hev. eapply (live_not_evicted _ (length (dones (fileCache (st y))))); [done|].
      rewrite Hd. by rewrite lookup_app_r, Nat.sub_diag by lia. }
    destruct (f_entry _ _ _ _ _ _ _ _ _ HF _ _ _ Hh HnE) as (_ & x & Hb).
    pose proof Hb as (ino & Hfd & _ & Hx & _). unfold open_reader. simpl. rewrite Hfd.
    change (inodes (DirectoryCache.fs (dir (st y)))) with (d_inos (st y)). rewrite Hx. simpl.
    split; [done|]. split; [done|].
    exists bown, bdn, fown, (<[length (dones (fileCache (st y))) := next y]> fdn), iown. simpl.
    rewrite Hev. split_and!; [by apply buf_insert_reader|..|done].
    eapply fd_insert_reader; [by eapply fd_add_done|..]; try naive_solver.
    intros fd' d [= <- <-]. exists h. rewrite Hd, Hkv, fn_lookup_insert.
    rewrite lookup_app_r, Nat.sub_diag by lia. done.
  - split; [done|]. split; [done|]. exists bown, bdn, fown, fdn, iown. simpl. rewrite Hev.
    split_and!; [done| |done]. eapply fd_weaken; [exact HF|done|apply ino_ext_refl|done|].
    intros i k r x Hi. right. rewrite Ho. done.
Qed.

Lemma fd_new own dn c E fs iown inos rs H ino i :
  FdInv own dn c E fs iown inos rs H →
  FdInv (<[length fs := FReader i]> own) dn c E (fs ++ [(ino, true)]) iown inos rs H.
Proof.
  intros [He Hc Ho Hd].
  assert (∀ k fd x, backed iown inos fs H k fd x →
    fd ≠ length fs ∧ backed iown inos (fs ++ [(ino, true)]) H k fd x) as Hb.
  { intros k fd x (n & Hfd & ?). pose proof (lookup_lt_Some _ _ _ Hfd). split; [lia|].
    exists n. by rewrite lookup_app_l. }
  split.
  - intros h k fd Hh HhE. destruct (He _ _ _ Hh HhE) as (? & x & Hx%Hb). destruct Hx.
    rewrite fn_lookup_insert_ne by done. eauto.
  - intros i' k fd d x Hi. destruct (Hc _ _ _ _ _ Hi) as (h & ? & ? & ? & [? ?]%Hb). eauto.
  - intros i' k k' fd x Hi. destruct (Ho _ _ _ _ _ Hi) as (? & ? & [? ?]%Hb).
    rewrite fn_lookup_insert_ne by done. done.
  - intros i' k fd x Hi. destruct (Hd _ _ _ _ Hi) as (? & [? ?]%Hb).
    rewrite fn_lookup_insert_ne by done. done.
Qed.

Lemma step_GetDisk key od y : Inv y → Inv (step (LGetDisk key od) y).
Proof.
  intros (Hw & Hwf & bown & bdn & fown & fdn & iown & HB & HF & HI). simpl. unfold get_disk.
  pose proof (dir_Open_spec key (dir (st y))) as Hs.
  destruct (DirectoryCache.on_fs (os_Open (CacheFile key)) (dir (st y))) as [o d'].
  destruct Hs as (Hin & Hde & Hok). destruct o as [ino|e|].
  2, 3: split; [done|]; split; [done|]; exists bown, bdn, fown, fdn, iown; simpl;
    unfold d_inos, d_ents in *; simpl; by rewrite Hin, Hde.
  destruct (i_entry _ _ _ _ _ _ HI _ _ (Hok _ eq_refl)) as (Hfr & x & Hx & HxH).
  set (r := if direct (st y) || od then _ else _). unfold open_reader.
  assert (∀ s', fds s' = fds (st y) ++ [(ino, true)] → d_inos s' = d_inos (st y) → reader_bytes r s' = Some x) as Hrb.
  { intros s' Hf Hi. subst r. assert (fds s' !! length (fds (st y)) = Some (ino, true)) as Hl
      by by rewrite Hf, lookup_app_r, Nat.sub_diag by lia.
    unfold d_inos in *. destruct (_ || _); simpl; by rewrite Hl, Hi. }
  rewrite Hrb by (unfold d_inos; simpl; done). simpl. split; [done|]. split; [done|].
  exists bown, bdn, (<[length (fds (st y)) := FReader (next y)]> fown), fdn, iown. simpl.
  unfold d_inos, d_ents in *. simpl. rewrite Hin, Hde. split_and!; [|..|done].
  - apply buf_insert_reader; [done|]. intros b n d Hr. subst r. by destruct (_ || _).
  - eapply fd_insert_reader; [by apply fd_new|..]; subst r.
    + intros fd d Hr. by destruct (_ || _).
    + intros k' fd Hr. destruct (_ || _); simplify_eq. by rewrite fn_lookup_insert.
    + intros fd Hr. destruct (_ || _); simplify_eq. by rewrite fn_lookup_insert.
    + intros fd d k' Hr. exists ino. split_and!; [|done..].
      destruct (_ || _); destruct Hr as [?|[?|?] ]; simplify_eq; by rewrite lookup_app_r, Nat.sub_diag by lia.
Qed.

Lemma buf_fewer own dn c E bs pl rs rs' ws ws' ts ts' H H' :
  BufInv own dn c E bs pl rs ws ts H → rs' ⊆ rs → ws' ⊆ ws → ts' ⊆ ts → H ⊆ H' →
  BufInv own dn c E bs pl rs' ws' ts' H'.
Proof.
  intros HB Hrs Hws Hts HH. eapply (buf_weaken _ _ _ _ _ _ _ _ _ _ _ _ _ _ _ HB); try done.
  - intros i k b n d x h Hi. split; [|done]. by eapply lookup_weaken.
  - intros i k w b x Hi. by eapply lookup_weaken.
  - intros j t ph Hj. exists ph. split; [|done]. by eapply lookup_weaken.
Qed.

Lemma fd_fewer own dn c E fs iown iown' inos inos' rs rs' H H' :
  FdInv own dn c E fs iown inos rs H → rs' ⊆ rs → H ⊆ H' → ino_ext iown inos iown' inos' →
  FdInv own dn c E fs iown' inos' rs' H'.
Proof.
  intros HF Hrs HH Hext. eapply (fd_weaken _ _ _ _ _ _ _ _ _ _ _ _ _ _ HF); try done.
  intros i k r x Hi. right. split; [|done]. by eapply lookup_weaken.
Qed.

(** A reader's own descriptor is closed. *)
Lemma fd_close_own own dn c fs iown inos rs H i fd :
  wf c → FdInv own dn c (evicted c) fs iown inos rs H → own fd = FReader i →
  ∀ ino, FdInv own dn c (evicted c) (<[fd := (ino, false)]> fs) iown inos (delete i rs) H.
Proof.
  intros Hw HF Ho ino. eapply fd_close; [exact HF|done|apply delete_subseteq|..].
  - intros h k Hh. destruct (decide (h ∈ evicted c)) as [?|Hn]; [done|].
    destruct (f_entry _ _ _ _ _ _ _ _ _ HF _ _ _ Hh Hn) as [Ho' _]. congruence.
  - intros i' k k' x [Hne Hi]%lookup_delete_Some.
    destruct (f_own _ _ _ _ _ _ _ _ _ HF _ _ _ _ _ Hi) as (_ & Ho' & _). congruence.
  - intros i' k x [Hne Hi]%lookup_delete_Some.
    destruct (f_direct _ _ _ _ _ _ _ _ _ HF _ _ _ _ Hi) as (Ho' & _). congruence.
  - intros d h. by apply live_not_evicted.
Qed.

(** [Close] of a reader that owns its file: the file goes to the file cache, or is
    closed when the cache has one for the key. *)
Lemma close_own_spec own dn s iown inos rs H i key fd x :
  wf (fileCache s) →
  FdInv own dn (fileCache s) (evicted (fileCache s)) (fds s) iown inos rs H →
  rs !! i = Some (key, OwnFile key fd, x) →
  let s' := (reader_Close (OwnFile key fd) s).2 in
  dir s' = dir s ∧ cache s' = cache s ∧ bufs s' = bufs s ∧ pool s' = pool s ∧
  wf (fileCache s') ∧
  ∃ own' dn', FdInv own' dn' (fileCache s') (evicted (fileCache s')) (fds s') iown inos (delete i rs) H.
Proof.
  intros Hw HF Hi. simpl. pose proof (Add_spec key fd (fileCache s) Hw) as Ha.
  destruct (Add key fd (fileCache s)) as [[[v' d] added] c'].
  destruct Ha as (Hw' & -> & h & ev & Hd & Hev & Hadd).
  destruct (f_own _ _ _ _ _ _ _ _ _ HF _ _ _ _ _ Hi) as (_ & Ho & ino & Hfd & _).
  destruct (set_fileCache_frame c' s) as (Hs1 & Hs2 & Hs3 & Hs4 & Hs5 & _).
  set (s1 := set_fileCache c' s) in *. set (d := length (dones (fileCache s))) in *.
  assert (∀ own2 s2 o, fileCache s2 = c' → dir s2 = dir s → cache s2 = cache s → bufs s2 = bufs s → pool s2 = pool s →
    FdInv own2 (<[d := i]> dn) c' (evicted c') (fds s2) iown inos (delete i rs) H →
    let s' := (o : outcome (), set_fileCache (call_done d (fileCache s2)) s2).2 in
    dir s' = dir s ∧ cache s' = cache s ∧ bufs s' = bufs s ∧ pool s' = pool s ∧ wf (fileCache s') ∧
    ∃ own' dn', FdInv own' dn' (fileCache s') (evicted (fileCache s')) (fds s') iown inos (delete i rs) H) as Hfin.
  { intros own2 s2 o Hc2 E1 E2 E3 E4 HF2. simpl.
    destruct (set_fileCache_frame (call_done d (fileCache s2)) s2) as (-> & -> & _ & -> & -> & _).
    do 4 (split; [done|]). rewrite <-Hc2 in Hw', HF2.
    destruct (fd_done own2 (<[d := i]> dn) d s2 iown inos (delete i rs) (delete i rs) H Hw' HF2) as [??];
      [done| |eauto].
    intros i' k fd' x' Hi'. destruct (f_cached _ _ _ _ _ _ _ _ _ HF2 _ _ _ _ _ Hi') as (_ & _ & Hdn & _).
    rewrite fn_lookup_insert in Hdn. subst i'. by rewrite lookup_delete_eq in Hi'. }
  destruct added.
  - destruct Hadd as (_ & -> & Hkv). simpl. apply (Hfin (<[fd := FEntry (length (heap (fileCache s)))]> own) s1 (Ok tt)); try done.
    eapply fd_set_fileCache; [done|exact Hev|]. eapply fd_add_entry; try done. by apply kv_None_length.
  - destruct Hadd as (-> & Hh & Hkv). rewrite app_nil_r in Hev.
    assert (fds s1 = fds s) as Hf1 by (unfold s1; by rewrite set_fileCache_quiet).
    unfold file_Close. rewrite Hf1, Hfd. apply (Hfin own (set_fds _ s1) (Ok tt)); try done. simpl.
    apply fd_close_own; [done| |done]. rewrite Hev. by eapply fd_add_done.
Qed.

Lemma step_CloseReader i y : Inv y → Inv (step (LCloseReader i) y).
Proof.
  intros HInv. pose proof HInv as (Hw & Hwf & bown & bdn & fown & fdn & iown & HB & HF & HI). simpl.
  destruct (readers y !! i) as [[[k r] x]|] eqn:Hi; [|done].
  pose proof (delete_subseteq (readers y) i) as Hsub.
  destruct r as [b n d|fd d|k' fd|fd].
  - destruct (b_reader _ _ _ _ _ _ _ _ _ _ HB _ _ _ _ _ _ Hi) as (h & buf & Hd & Hdn & _). simpl.
    destruct (buf_done _ _ d _ _ _ _ _ _ _ Hw HB Hsub (reflexivity _)) as (Hw' & own' & HB').
    { intros i' k' b' n' x' [Hne Hi']%lookup_delete_Some.
      destruct (b_reader _ _ _ _ _ _ _ _ _ _ HB _ _ _ _ _ _ Hi') as (_ & _ & _ & Hdn' & _). congruence. }
    { intros j t ph Hj Htd. destruct (b_task _ _ _ _ _ _ _ _ _ _ HB _ _ _ Hj) as (_ & _ & Hdn' & _). congruence. }
    split; [done|]. destruct (set_cache_frame (call_done d (cache (st y))) (st y)) as (Hs1 & _ & Hs2 & Hs3 & _).
    simpl. unfold d_inos, d_ents. simpl. rewrite Hs1, Hs2, Hs3. split; [done|].
    exists own', bdn, fown, fdn, iown. split_and!; [done|by eapply fd_fewer|done].
  - destruct (f_cached _ _ _ _ _ _ _ _ _ HF _ _ _ _ _ Hi) as (h & Hd & Hdn & _). simpl.
    destruct (fd_done _ _ d _ _ _ _ _ _ Hwf HF Hsub) as (Hw' & HF').
    { intros i' k' fd' x' [Hne Hi']%lookup_delete_Some.
      destruct (f_cached _ _ _ _ _ _ _ _ _ HF _ _ _ _ _ Hi') as (_ & _ & Hdn' & _). congruence. }
    destruct (set_fileCache_frame (call_done d (fileCache (st y))) (st y)) as (Hs1 & Hs2 & _ & Hs3 & Hs4 & _).
    unfold Inv. simpl. unfold d_inos, d_ents. simpl. rewrite Hs1, Hs2, Hs3, Hs4. split; [done|]. split; [done|].
    exists bown, bdn, fown, fdn, iown. split_and!; [by eapply buf_fewer|done|done].
  - destruct (f_own _ _ _ _ _ _ _ _ _ HF _ _ _ _ _ Hi) as (-> & _).
    destruct (close_own_spec _ _ _ _ _ _ _ _ _ _ _ Hwf HF Hi) as (Hs1 & Hs2 & Hs3 & Hs4 & Hw' & own' & dn' & HF').
    unfold Inv. cbn [st readers writers tasks committed]. unfold d_inos, d_ents.
    rewrite Hs1, Hs2, Hs3, Hs4. split; [done|]. split; [done|].
    exists bown, bdn, own', dn', iown. split_and!; [by eapply buf_fewer|done|done].
  - destruct (f_direct _ _ _ _ _ _ _ _ _ HF _ _ _ _ Hi) as (Ho & ino & Hfd & _).
    simpl. unfold file_Close. rewrite Hfd. unfold Inv. simpl. split; [done|]. split; [done|].
    exists bown, bdn, fown, fdn, iown. split_and!; [by eapply buf_fewer|by apply fd_close_own|done].
Qed.

(** ** Writers *)
Lemma Bytes_buf_Write p b : (blen b ≤ length (arr b))%nat →
  Bytes (buf_Write p b) = Bytes b ++ p ∧ (blen (buf_Write p b) ≤ length (arr (buf_Write p b)))%nat.
Proof.
  intros Hb. unfold buf_Write, Bytes at 1. simpl. set (x := Bytes b).
  assert (length x = blen b) as Hx by (unfold x, Bytes; rewrite length_take; lia).
  split; [|rewrite !length_app, length_drop; lia].
  rewrite (assoc_L (++)). apply take_app_length'. rewrite length_app. lia.
Qed.

(** The buffer a new writer gets. *)
Lemma buf_take own dn c E s rs ws ts H pick i k w :
  BufInv own dn c E (bufs s) (pool s) rs ws ts H →
  let '(b, s') := pool_Get pick s in
  dir s' = dir s ∧ cache s' = cache s ∧ fileCache s' = fileCache s ∧ fds s' = fds s ∧
  ∃ own', BufInv own' dn c E (bufs s') (pool s') rs (<[i := (k, MemW w b, [])]> ws) ts H.
Proof.
  intros [Hl Hp Hn Hw He Hr Ht]. unfold pool_Get.
  destruct (pick ≫= λ i, pool s !! i ≫= λ b, Some (i, b)) as [[n b]|] eqn:Hpick; simpl.
  - apply bind_Some in Hpick as (n' & _ & (b' & Hb & [= -> ->])%bind_Some).
    assert (b ∈ pool s) as Hin by by eapply list_elem_of_lookup_2.
    destruct (Hp _ Hin) as (Ho & buf & Hbuf & Hz).
    do 4 (split; [done|]). exists (<[b := BWriter i]> own). split; try done.
    + intros b' Hb'. assert (b' ≠ b ∧ b' ∈ pool s) as [Hne Hb2].
      { pose proof (delete_Permutation _ _ _ Hb) as HP. rewrite HP in Hn. apply list.NoDup_cons in Hn as [Hnin _].
        split; [set_solver|]. rewrite HP. set_solver. }
      rewrite fn_lookup_insert_ne by done. by apply Hp.
    + rewrite (delete_Permutation _ _ _ Hb) in Hn. by apply list.NoDup_cons in Hn as [_ ?].
    + intros i' k' w' b' x [[<- [= <- <- <- <-] ]|[_ Hi] ]%lookup_insert_Some.
      * rewrite fn_lookup_insert. split; [done|]. exists buf. split; [done|]. unfold Bytes. by rewrite Hz.
      * destruct (Hw _ _ _ _ _ Hi) as (? & ?). rewrite fn_lookup_insert_ne by congruence. done.
    + intros h k' b' Hh HE. destruct (He _ _ _ Hh HE) as (? & ?). rewrite fn_lookup_insert_ne by congruence. done.
  - assert (∀ b buf, bufs s !! b = Some buf → b ≠ length (bufs s) ∧
      (bufs s ++ [mkBuf [] 0]) !! b = Some buf) as Hold.
    { intros b buf Hb. pose proof (lookup_lt_Some _ _ _ Hb). rewrite lookup_app_l by done. split; [lia|done]. }
    do 4 (split; [done|]). exists (<[length (bufs s) := BWriter i]> own). split; try done.
    + intros b buf [?|[_ ?] ]%lookup_app_Some; [by eauto|].
      destruct (b - length (bufs s))%nat; simplify_list_eq. simpl. lia.
    + intros b Hb. destruct (Hp _ Hb) as (? & buf & [? ?]%Hold & ?).
      rewrite fn_lookup_insert_ne by done. eauto.
    + intros i' k' w' b x [[<- [= <- <- <- <-] ]|[_ Hi] ]%lookup_insert_Some.
      * rewrite fn_lookup_insert, lookup_app_r, Nat.sub_diag by lia. eauto.
      * destruct (Hw _ _ _ _ _ Hi) as (? & buf & [? ?]%Hold & ?). rewrite fn_lookup_insert_ne by done. eauto.
    + intros h k' b Hh HE. destruct (He _ _ _ Hh HE) as (? & buf & [? ?]%Hold & ?).
      rewrite fn_lookup_insert_ne by done. eauto.
    + intros i' k' b n d x Hi. destruct (Hr _ _ _ _ _ _ Hi) as (h & buf & ? & ? & ? & [? ?]%Hold & ?). eauto 10.
Qed.

Lemma buf_insert_direct own dn c E bs pl rs ws ts H i k w x :
  BufInv own dn c E bs pl rs ws ts H → BufInv own dn c E bs pl rs (<[i := (k, DirectW w, x)]> ws) ts H.
Proof.
  intros HB. eapply (buf_weaken _ _ _ _ _ _ _ _ _ _ _ _ _ _ _ HB); try done; [|by eauto].
  intros i' k' w' b x' [[_ ?]|[_ ?] ]%lookup_insert_Some; by simplify_eq.
Qed.

Lemma step_Add key od pick y : Inv y → Inv (step (LAdd key od pick) y).
Proof.
  intros (Hw & Hwf & bown & bdn & fown & fdn & iown & HB & HF & HI). simpl. unfold dc_Add.
  pose proof (dir_Add_spec key (dir (st y))) as Hs.
  destruct (DirectoryCache.Add key (dir (st y))) as [[w|e|] d'].
  2, 3: destruct Hs as (Hin & Hde); split; [done|]; split; [done|]; exists bown, bdn, fown, fdn, iown; simpl;
    unfold d_inos, d_ents in *; simpl; by rewrite Hin, Hde.
  destruct Hs as (-> & Hin & Hde). change (inodes (DirectoryCache.fs (dir (st y)))) with (d_inos (st y)) in *.
  set (w := DirectoryCache.mkWriter key (length (d_inos (st y)))).
  destruct (direct (set_dir d' (st y)) || od).
  - destruct (ino_new _ _ _ _ _ _ (next y) key (DirectW w) HI eq_refl) as [HI' Hext].
    unfold Inv. simpl. unfold d_inos at 1 2, d_ents. simpl. rewrite Hin, Hde. split; [done|]. split; [done|].
    eexists bown, bdn, fown, fdn, _. split_and!; [by apply buf_insert_direct|by eapply fd_fewer|exact HI'].
  - pose proof (buf_take _ _ _ _ (set_dir d' (st y)) _ _ _ _ pick (next y) key w HB) as Ht.
    destruct (pool_Get pick (set_dir d' (st y))) as [b s']. destruct Ht as (Hs1 & Hs2 & Hs3 & Hs4 & own' & HB').
    destruct (ino_new _ _ _ _ _ _ (next y) key (MemW w b) HI eq_refl) as [HI' Hext].
    unfold Inv. simpl. unfold d_inos at 1 2, d_ents. rewrite Hs1, Hs2, Hs3, Hs4. simpl. rewrite Hin, Hde.
    split; [done|]. split; [done|]. eexists own', bdn, fown, fdn, _.
    split_and!; [exact HB'|by eapply fd_fewer|exact HI'].
Qed.

Lemma buf_write own dn c E bs pl rs ws ts H i k w b x p :
  BufInv own dn c E bs pl rs ws ts H → wf c → E = evicted c → ws !! i = Some (k, MemW w b, x) →
  BufInv own dn c E (alter (buf_Write p) b bs) pl rs (<[i := (k, MemW w b, x ++ p)]> ws) ts H.
Proof.
  intros [Hl Hp Hn Hw He Hr Ht] Hwf -> Hi. destruct (Hw _ _ _ _ _ Hi) as (Ho & buf & Hb & Hx).
  destruct (Bytes_buf_Write p buf (Hl _ _ Hb)) as [HBy Hlen].
  assert (∀ b', own b' ≠ BWriter i → alter (buf_Write p) b bs !! b' = bs !! b') as Hold.
  { intros b' Hne. apply list_lookup_alter_ne. congruence. }
  split; try done.
  - intros b' buf'. destruct (decide (b = b')) as [<-|Hne].
    + rewrite list_lookup_alter_eq, Hb. by intros [= <-].
    + rewrite list_lookup_alter_ne by done. apply Hl.
  - intros b' Hb'. destruct (Hp _ Hb') as (? & ?). rewrite Hold by congruence. done.
  - intros i' k' w' b' x' [[<- [= <- <- <- <-] ]|[Hne Hi'] ]%lookup_insert_Some.
    + rewrite list_lookup_alter_eq, Hb. split; [done|]. eexists. split; [done|]. by rewrite HBy, Hx.
    + destruct (Hw _ _ _ _ _ Hi') as (? & ?). rewrite Hold by congruence. done.
  - intros h k' b' Hh HE. destruct (He _ _ _ Hh HE) as (? & ?). rewrite Hold by congruence. done.
  - intros i' k' b' n d x' Hi'. destruct (Hr _ _ _ _ _ _ Hi') as (h & buf' & Hd & ? & Hh & ?).
    destruct (He _ _ _ Hh) as (? & _); [by eapply live_not_evicted|]. rewrite Hold by congruence. eauto 8.
Qed.

Lemma step_Write i p y : Inv y → Inv (step (LWrite i p) y).
Proof.
  intros HInv. pose proof HInv as (Hw & Hwf & bown & bdn & fown & fdn & iown & HB & HF & HI). simpl.
  destruct (writers y !! i) as [[[k w] x]|] eqn:Hi; [|done].
  destruct (i_writer _ _ _ _ _ _ HI _ _ _ _ Hi) as (Hk & Ho & Hx).
  destruct w as [w|w b]; simpl.
  - pose proof (dir_Write_spec w p (dir (st y))) as Hs. simpl in *.
    destruct (DirectoryCache.Write w p (dir (st y))) as [[n|e|] d']; [| |done].
    2: { destruct Hs as (Hin & Hde). split; [done|]; split; [done|]; exists bown, bdn, fown, fdn, iown; simpl;
         unfold d_inos, d_ents in *; simpl; by rewrite Hin, Hde. }
    destruct Hs as (_ & Hin & Hde). unfold Inv. simpl. split; [done|]. split; [done|].
    exists bown, bdn, fown, fdn, iown. unfold d_inos, d_ents in *. simpl. rewrite Hin, Hde.
    destruct (ino_write _ _ _ _ (<[i := (k, DirectW w, x ++ p)]> (writers y)) _ (tasks y) _
      (DirectoryCache.w_ino w) (λ b, b ++ p) HI) as [HI' Hext].
    + by rewrite Ho.
    + intros i' k' w' x' [[<- [= <- <- <-] ]|[Hne Hi'] ]%lookup_insert_Some.
      * right. rewrite Hx. done.
      * left. split; [|done]. intros Heq. destruct (i_writer _ _ _ _ _ _ HI _ _ _ _ Hi') as (_ & Ho' & _). congruence.
    + intros j t ph Hj Hph. left. split; [|done]. intros Heq.
      destruct (i_task _ _ _ _ _ _ HI _ _ _ Hj Hph) as (Ho' & _). congruence.
    + split_and!; [by apply buf_insert_direct|by eapply fd_fewer|done].
  - split; [done|]. split; [done|]. exists bown, bdn, fown, fdn, iown. simpl.
    split_and!; [by apply buf_write|done|]. destruct HI as [He Hwip Hws Ht]. split; try done.
    intros i' k' w' x' [[<- [= <- <- <-] ]|[_ Hi'] ]%lookup_insert_Some; [done|by eauto].
Qed.

(** A writer's buffer goes back to the pool. *)
Lemma buf_put_writer own dn c bs pl rs ws ts H i k w b x :
  wf c → BufInv own dn c (evicted c) bs pl rs ws ts H → ws !! i = Some (k, MemW w b, x) →
  BufInv (<[b := BPool]> own) dn c (evicted c) (alter buf_Reset b bs) (b :: pl) rs (delete i ws) ts H.
Proof.
  intros Hw HB Hi. destruct (b_writer _ _ _ _ _ _ _ _ _ _ HB _ _ _ _ _ Hi) as (Ho & buf & Hb & _).
  eapply buf_put; [exact HB|by rewrite Ho|by eexists|done|apply delete_subseteq|..].
  - intros h k' Hh. destruct (decide (h ∈ evicted c)) as [?|Hn]; [done|].
    destruct (b_entry _ _ _ _ _ _ _ _ _ _ HB _ _ _ Hh Hn) as [Ho' _]. congruence.
  - intros i' k' w' x' [Hne Hi']%lookup_delete_Some.
    destruct (b_writer _ _ _ _ _ _ _ _ _ _ HB _ _ _ _ _ Hi') as (Ho' & _). congruence.
  - intros d h. by apply live_not_evicted.
Qed.

(** Its file goes to the commit. *)
Lemma ino_transfer own de inos ws ts H H' i k w b x j cached d :
  InoInv own de inos ws ts H → H ⊆ H' → ws !! i = Some (k, MemW w b, x) →
  let own' := <[DirectoryCache.w_ino w := ITask j]> own in
  InoInv own' de inos (delete i ws) (<[j := (mkTask w cached d, TWrite)]> ts) H' ∧ ino_ext own inos own' inos.
Proof.
  intros HI HH Hi own'. destruct (i_writer _ _ _ _ _ _ HI _ _ _ _ Hi) as (Hk & Ho & Hx). simpl in *.
  assert (∀ ino, own ino ≠ IWriter i → own' ino = own ino) as Hold.
  { intros ino Hne. unfold own'. rewrite fn_lookup_insert_ne; [done|congruence]. }
  split; [|intros ino z Hf ?; rewrite Hold by congruence; done].
  destruct (ino_weaken own de de inos ws ws ts ts H H' HI) as [He Hwip Hw Ht]; [done..|]. split; try done.
  - intros k' ino (? & ?)%He. rewrite Hold by congruence. done.
  - intros i' k' w' x' [Hne Hi']%lookup_delete_Some. destruct (Hw _ _ _ _ Hi') as (? & ? & ?).
    rewrite Hold by congruence. done.
  - intros j' t ph [[<- [= <- <-] ]|[_ Hj] ]%lookup_insert_Some Hph.
    + simpl. unfold own'. rewrite fn_lookup_insert. eauto.
    + destruct (Ht _ _ _ Hj Hph) as (? & ?). rewrite Hold by congruence. done.
Qed.

(** The buffer of the writer, or the one that was cached before, is referenced by the
    commit. *)
Lemma start_commit_spec bown bdn s rs ws ts H i k w b x j :
  wf (cache s) →
  BufInv bown bdn (cache s) (evicted (cache s)) (bufs s) (pool s) rs ws ts H →
  ws !! i = Some (k, MemW w b, x) → DirectoryCache.w_key w = k →
  match start_commit w b s with
  | (Ok t, s') =>
      t_w t = w ∧ dir s' = dir s ∧ fileCache s' = fileCache s ∧ fds s' = fds s ∧ wf (cache s') ∧
      ∃ bown' bdn', BufInv bown' bdn' (cache s') (evicted (cache s')) (bufs s') (pool s') rs (delete i ws)
        (<[j := (t, TWrite)]> ts) ((k, x) :: H)
  | (_, s') => s' = s
  end.
Proof.
  intros Hw HB Hi Hk. unfold start_commit. destruct (DirectoryCache.closed (dir s)); [done|].
  pose proof (Add_spec (DirectoryCache.w_key w) b (cache s) Hw) as Ha. rewrite Hk in *.
  destruct (Add k b (cache s)) as [[[v' d] added] c'].
  destruct Ha as (Hw' & -> & h & ev & Hd & Hev & Hadd).
  set (d := length (dones (cache s))) in *.
  assert (dones c' !! d = Some (h, false)) as Hdl by (rewrite Hd; unfold d; by rewrite lookup_app_r, Nat.sub_diag by lia).
  destruct (set_cache_frame c' s) as (Hs1 & Hs2 & Hs3 & Hs4 & _).
  destruct added.
  - destruct Hadd as (-> & -> & Hkv). rewrite Hs1, Hs2, Hs3, Hs4. do 5 (split; [done|]).
    destruct (buf_set_cache (<[b := BEntry (length (heap (cache s)))]> bown) (<[d := inr j]> bdn) c' ev s rs (delete i ws) ts ((k, x) :: H))
      as (own' & HB'); [done|done| |].
    { eapply buf_add_entry; try done. by apply kv_None_length. }
    exists own', (<[d := inr j]> bdn). eapply buf_insert_task; [exact HB'|done|by apply fn_lookup_insert|].
    simpl. rewrite Hkv, decide_True by done. by rewrite Hk.
  - destruct Hadd as (-> & Hh & Hkv). rewrite app_nil_r in Hev. rewrite set_cache_quiet by done. simpl.
    do 5 (split; [done|]). exists (<[b := BPool]> bown), (<[d := inr j]> bdn).
    eapply (buf_insert_task _ _ _ _ _ _ _ _ _ _ _ _ _ h); [|done|by apply fn_lookup_insert|simpl; by rewrite Hkv, Hk].
    eapply buf_fewer; [|done|done|done|by apply list_subseteq_cons]. eapply buf_put_writer; [done| |exact Hi].
    rewrite Hev. by eapply buf_add_done.
Qed.

Lemma step_Commit i y : Inv y → Inv (step (LCommit i) y).
Proof.
  intros HInv. pose proof HInv as (Hw & Hwf & bown & bdn & fown & fdn & iown & HB & HF & HI). simpl.
  destruct (writers y !! i) as [[[k w] x]|] eqn:Hi; [|done].
  destruct (i_writer _ _ _ _ _ _ HI _ _ _ _ Hi) as (Hk & Ho & Hx).
  assert (committed y ⊆ (k, x) :: committed y) as HH by by apply list_subseteq_cons.
  pose proof (delete_subseteq (writers y) i) as Hsub.
  destruct w as [w|w b]; simpl in *.
  - pose proof (dir_Commit_spec w (dir (st y))) as Hs.
    destruct (DirectoryCache.Commit w (dir (st y))) as [o d']. simpl in *. destruct Hs as (Hin & Hde).
    change (dirents (DirectoryCache.fs (dir (st y)))) with (d_ents (st y)) in Hde.
    destruct (ino_commit iown (d_ents (st y)) (dirents (DirectoryCache.fs d')) (d_inos (st y))
      (writers y) (delete i (writers y)) (tasks y) (tasks y) _ ((k, x) :: committed y) w x HI) as [HI' Hext];
      [done|rewrite Hk; left|done|done|..].
    + intros i' k' w' x' [Hne Hi']%lookup_delete_Some. split; [done|].
      destruct (i_writer _ _ _ _ _ _ HI _ _ _ _ Hi') as (_ & Ho' & _). congruence.
    + intros j t ph Hj Hph. split; [done|].
      destruct (i_task _ _ _ _ _ _ HI _ _ _ Hj Hph) as (Ho' & _). congruence.
    + unfold Inv. simpl. split; [done|]. split; [done|]. eexists bown, bdn, fown, fdn, _.
      unfold d_inos, d_ents in *. simpl. rewrite Hin.
      split_and!; [by eapply buf_fewer|by eapply fd_fewer|exact HI'].
  - pose proof (start_commit_spec _ _ _ _ _ _ _ _ _ _ _ _ (next y) Hw HB Hi Hk) as Hs.
    destruct (start_commit w b (st y)) as [[t|e|] s'].
    2, 3: subst s'; split; [done|]; split; [done|]; exists bown, bdn, fown, fdn, iown; simpl;
      split_and!; [by eapply buf_fewer|done|by eapply ino_weaken].
    destruct Hs as (Ht & Hs1 & Hs2 & Hs3 & Hw' & own' & dn' & HB'). destruct t as [w' cached d]. simpl in Ht. subst w'.
    destruct (ino_transfer _ _ _ _ _ _ _ _ _ _ _ _ (next y) cached d HI HH Hi) as [HI' Hext].
    unfold Inv. simpl. unfold d_inos, d_ents in *. rewrite Hs1, Hs2, Hs3. split; [done|]. split; [done|].
    eexists own', dn', fown, fdn, _. split_and!; [done|by eapply fd_fewer|exact HI'].
Qed.

Lemma step_Abort i y : Inv y → Inv (step (LAbort i) y).
Proof.
  intros HInv. pose proof HInv as (Hw & Hwf & bown & bdn & fown & fdn & iown & HB & HF & HI). simpl.
  destruct (writers y !! i) as [[[k w] x]|] eqn:Hi; [|done].
  pose proof (delete_subseteq (writers y) i) as Hsub.
  pose proof (dir_Remove_spec (DirectoryCache.w_name (w_file w)) (dir (st y))) as Hs.
  unfold w_Abort, DirectoryCache.Abort. destruct w as [w|w b]; simpl in *;
    destruct (DirectoryCache.on_fs (os_Remove _) (dir (st y))) as [o d']; simpl in *; destruct Hs as (Hin & Hde);
    (split; [done|]; split; [done|]); unfold d_inos, d_ents in *; simpl; rewrite Hin.
  - exists bown, bdn, fown, fdn, iown. split_and!; [by eapply buf_fewer|done|by eapply ino_weaken].
  - exists (<[b := BPool]> bown), bdn, fown, fdn, iown.
    split_and!; [by eapply buf_put_writer|done|by eapply ino_weaken].
Qed.

(** ** The goroutines of [Commit] *)
Lemma buf_task_phase own dn c E bs pl rs ws ts H j t ph ph' :
  BufInv own dn c E bs pl rs ws ts H → ts !! j = Some (t, ph) →
  BufInv own dn c E bs pl rs ws (<[j := (t, ph')]> ts) H.
Proof.
  intros HB Hj. eapply (buf_weaken _ _ _ _ _ _ _ _ _ _ _ _ _ _ _ HB); try done.
  intros j' t' ph'' [[<- [= <- <-] ]|[_ ?] ]%lookup_insert_Some; eauto.
Qed.

Lemma ino_task_over own de de' inos ws ts H j t ph ph' :
  InoInv own de inos ws ts H → de' ⊆ de → ts !! j = Some (t, ph) → writing ph' = false →
  InoInv own de' inos ws (<[j := (t, ph')]> ts) H.
Proof.
  intros HI Hde Hj Hph. eapply ino_weaken; [exact HI|done|done|done|].
  intros j' t' ph'' [[<- [= <- <-] ]|[_ ?] ]%lookup_insert_Some ?; congruence.
Qed.

Lemma step_Task j y : Inv y → Inv (step (LTask j) y).
Proof.
  intros HInv. pose proof HInv as (Hw & Hwf & bown & bdn & fown & fdn & iown & HB & HF & HI). simpl.
  destruct (tasks y !! j) as [[t ph]|] eqn:Hj; [|done].
  destruct (b_task _ _ _ _ _ _ _ _ _ _ HB _ _ _ Hj) as (h & Hd & Hdn & Hh).
  destruct ph as [| |r|r].
  - destruct (i_task _ _ _ _ _ _ HI _ _ _ Hj eq_refl) as (Ho & x & Hx & ->). simpl in *.
    destruct (b_entry _ _ _ _ _ _ _ _ _ _ HB _ _ _ Hh) as (_ & buf & Hb & HxH); [by eapply live_not_evicted|].
    rewrite Hb. simpl. pose proof (dir_Write_spec (t_w t) (Bytes buf) (dir (st y))) as Hs.
    destruct (DirectoryCache.Write (t_w t) (Bytes buf) (dir (st y))) as [[n|e|] d']; [| |done].
    + destruct Hs as (-> & Hin & Hde). rewrite Z.eqb_refl. unfold Inv. simpl. split; [done|]. split; [done|].
      exists bown, bdn, fown, fdn, iown. unfold d_inos, d_ents in *. simpl. rewrite Hin, Hde.
      destruct (ino_write _ _ _ _ (writers y) _ (<[j := (t, TCommit)]> (tasks y)) _
        (DirectoryCache.w_ino (t_w t)) (λ b, b ++ Bytes buf) HI) as [HI' Hext].
      * by rewrite Ho.
      * intros i k w x Hi. left. split; [|done]. destruct (i_writer _ _ _ _ _ _ HI _ _ _ _ Hi) as (_ & Ho' & _). congruence.
      * intros j' t' ph [[<- [= <- <-] ]|[Hne Hj'] ]%lookup_insert_Some Hph.
        -- right. rewrite Hx. simpl. eauto.
        -- left. split; [|done]. destruct (i_task _ _ _ _ _ _ HI _ _ _ Hj' Hph) as (Ho' & _). congruence.
      * split_and!; [by eapply buf_task_phase|by eapply fd_fewer|done].
    + destruct Hs as (Hin & Hde). unfold Inv. simpl. split; [done|]. split; [done|].
      exists bown, bdn, fown, fdn, iown. unfold d_inos, d_ents in *. simpl. rewrite Hin, Hde.
      split_and!; [by eapply buf_task_phase|done|by eapply ino_task_over].
  - destruct (i_task _ _ _ _ _ _ HI _ _ _ Hj eq_refl) as (Ho & x & Hx & HxH). simpl in *.
    pose proof (dir_Commit_spec (t_w t) (dir (st y))) as Hs.
    destruct (DirectoryCache.Commit (t_w t) (dir (st y))) as [o d']. simpl in *. destruct Hs as (Hin & Hde).
    change (dirents (DirectoryCache.fs (dir (st y)))) with (d_ents (st y)) in Hde.
    destruct (ino_commit iown (d_ents (st y)) (dirents (DirectoryCache.fs d')) (d_inos (st y))
      (writers y) (writers y) (tasks y) (<[j := (t, TDone o)]> (tasks y)) _ (committed y) (t_w t) x HI) as [HI' Hext];
      [done|done|done|done|..].
    + intros i k w x' Hi. split; [done|]. destruct (i_writer _ _ _ _ _ _ HI _ _ _ _ Hi) as (_ & Ho' & _). congruence.
    + intros j' t' ph [[<- [= <- <-] ]|[Hne Hj'] ]%lookup_insert_Some Hph; [done|]. split; [done|].
      destruct (i_task _ _ _ _ _ _ HI _ _ _ Hj' Hph) as (Ho' & _). congruence.
    + unfold Inv. simpl. split; [done|]. split; [done|]. eexists bown, bdn, fown, fdn, _.
      unfold d_inos, d_ents in *. simpl. rewrite Hin.
      split_and!; [by eapply buf_task_phase|by eapply fd_fewer|exact HI'].
  - pose proof (dir_Remove_spec (DirectoryCache.w_name (t_w t)) (dir (st y))) as Hs.
    simpl. unfold DirectoryCache.Abort.
    destruct (DirectoryCache.on_fs (os_Remove _) (dir (st y))) as [o d']. simpl in *. destruct Hs as (Hin & Hde).
    unfold Inv. simpl. split; [done|]. split; [done|]. exists bown, bdn, fown, fdn, iown.
    unfold d_inos, d_ents in *. simpl. rewrite Hin.
    split_and!; [by eapply buf_task_phase|done|by eapply ino_task_over].
  - simpl. pose proof (delete_subseteq (tasks y) j) as Hsub.
    destruct (buf_done _ _ (t_done t) _ _ _ _ _ _ _ Hw HB (reflexivity (readers y)) Hsub) as (Hw' & own' & HB').
    { intros i k b n x Hi. destruct (b_reader _ _ _ _ _ _ _ _ _ _ HB _ _ _ _ _ _ Hi) as (_ & _ & _ & Hdn' & _). congruence. }
    { intros j' t' ph [Hne Hj']%lookup_delete_Some Heq.
      destruct (b_task _ _ _ _ _ _ _ _ _ _ HB _ _ _ Hj') as (_ & _ & Hdn' & _). congruence. }
    destruct (set_cache_frame (call_done (t_done t) (cache (st y))) (st y)) as (Hs1 & _ & Hs2 & Hs3 & _).
    split; [done|]. simpl. unfold d_inos, d_ents. rewrite Hs1, Hs2, Hs3. split; [done|].
    exists own', bdn, fown, fdn, iown. split_and!; [done|done|].
    eapply ino_weaken; [exact HI|done|done|done|]. intros j' t' ph [_ ?]%lookup_delete_Some. done.
Qed.

Lemma Inv_step l y : Inv y → Inv (step l y).
Proof.
  destruct l; [apply step_GetMemory|apply step_GetFile|apply step_GetDisk|apply step_CloseReader|apply step_Add
    |apply step_Write|apply step_Commit|apply step_Abort|apply step_Task|..];
    intros (Hw & Hwf & bown & bdn & fown & fdn & iown & HB & HF & HI); simpl.
  - split; [done|]. split; [done|]. exists bown, bdn, fown, fdn, iown. simpl. split_and!; [|done|done].
    destruct HB. split; try done; simpl; [set_solver|constructor].
  - pose proof (dir_Close_spec (dir (st y))) as Hs. unfold dc_Close.
    destruct (DirectoryCache.Close (dir (st y))) as [o d']. simpl in *. destruct Hs as (Hin & Hde).
    unfold Inv. simpl. split; [done|]. split; [done|]. exists bown, bdn, fown, fdn, iown.
    unfold d_inos, d_ents in *. simpl. rewrite Hin. split_and!; [done|done|by eapply ino_weaken].
Qed.

Lemma Inv_run ls y : Inv y → Inv (run ls y).
Proof. revert y. induction ls as [|l ls IH]; intros y Hy; [done|]. apply (IH (step l y)), Inv_step, Hy. Qed.

(** A cache on a directory with nothing in it. *)
Definition fresh_cache s : Prop :=
  cache s = New (inner (cache s)) ∧ lru_map (inner (cache s)) = ∅ ∧
  fileCache s = New (inner (fileCache s)) ∧ lru_map (inner (fileCache s)) = ∅ ∧
  bufs s = [] ∧ pool s = [] ∧ fds s = [] ∧ dirents (DirectoryCache.fs (dir s)) = ∅.

Lemma Inv_start s : fresh_cache s → Inv (start s).
Proof.
  intros (Hc & Hm & Hf & Hmf & Hb & Hp & Hfd & Hd).
  assert (∀ l, lru_map l = ∅ → wf (New l : Cache L nat)) as Hwf by (intros; by apply wf_New).
  split; [simpl; rewrite Hc; by apply Hwf|]. split; [simpl; rewrite Hf; by apply Hwf|].
  exists (λ _, BPool), (λ _, inl 0%nat), (λ _, FReader 0), (λ _, 0%nat), (λ _, IFrozen).
  simpl. rewrite Hb, Hp, Hfd. unfold d_ents. rewrite Hd. split_and!.
  - split; simpl; try done; [set_solver|constructor|].
    intros h k b Hh. rewrite Hc in Hh. done.
  - split; simpl; try done. intros h k b Hh. rewrite Hf in Hh. done.
  - split; simpl; try done.
Qed.

(** C13: however goroutines interleave [Get], [Add], [Write], [Commit], [Abort], [Close] and
    the commits that run in the background, with buffers recycled through the pool, entries
    evicted, descriptors cached and system calls failing: an open reader goes on serving
    exactly what it served when it was opened, and those bytes were committed in full by a
    writer for its key. *)
Theorem readers_stable_and_authentic s ls i k r x :
  fresh_cache s →
  let y := run ls (start s) in
  readers y !! i = Some (k, r, x) →
  reader_bytes r (st y) = Some x ∧ (k, x) ∈ committed y.
Proof. intros Hs y Hi. by eapply Inv_reader; [by apply Inv_run, Inv_start|]. Qed.

(** ** The calls are made of these steps *)
Lemma dc_run_app ls ls' y : run (ls ++ ls') y = run ls' (run ls y).
Proof. unfold run. by rewrite foldl_app. Qed.

(** A successful [Get] opens a reader by at most three steps. *)
Lemma dc_Get_steps key od y r s' :
  dc_Get key od (st y) = (Ok r, s') →
  ∃ ls, st (run ls y) = s' ∧ committed (run ls y) = committed y ∧
    readers (run ls y) !! next y = Some (key, r, default [] (reader_bytes r s')).
Proof.
  intros HG. unfold dc_Get in HG. destruct (DirectoryCache.closed (dir (st y))); [done|].
  assert (∀ y1, next y1 = next y → committed y1 = committed y → get_disk key od (st y1) = (Ok r, s') →
    st (step (LGetDisk key od) y1) = s' ∧ committed (step (LGetDisk key od) y1) = committed y ∧
    readers (step (LGetDisk key od) y1) !! next y = Some (key, r, default [] (reader_bytes r s'))) as Hdisk.
  { intros y1 Hn Hc Hd. simpl. rewrite Hd. simpl. by rewrite Hn, lookup_insert_eq. }
  destruct (negb (direct (st y)) && negb od); [|exists [LGetDisk key od]; by apply Hdisk].
  destruct (get_memory key (st y)) as [[r1|] s1] eqn:E1.
  { simplify_eq. exists [LGetMemory key]. simpl. rewrite E1. simpl. by rewrite lookup_insert_eq. }
  destruct (get_file key s1) as [[r2|] s2] eqn:E2.
  { simplify_eq. exists [LGetMemory key; LGetFile key]. cbn [run foldl flip]. simpl. rewrite E1. simpl.
    rewrite E2. simpl. by rewrite lookup_insert_eq. }
  exists [LGetMemory key; LGetFile key; LGetDisk key od].
  change (run _ y) with (step (LGetDisk key od) (step (LGetFile key) (step (LGetMemory key) y))).
  assert (step (LGetFile key) (step (LGetMemory key) y) = with_st s2 (with_st s1 y)) as ->.
  { simpl. rewrite E1. simpl. by rewrite E2. }
  by apply Hdisk.
Qed.

(** The commit that [SyncAdd] waits for takes the three steps of the goroutine. *)
Lemma run_task_steps t j y :
  tasks y !! j = Some (t, TWrite) →
  st (run [LTask j; LTask j; LTask j] y) = (run_task t (st y)).2 ∧
  tasks (run [LTask j; LTask j; LTask j] y) !! j = None.
Proof.
  intros Hj. unfold run_task. change (run _ y) with (step (LTask j) (step (LTask j) (step (LTask j) y))).
  assert (∀ y1 ph, tasks y1 !! j = Some (t, ph) → step (LTask j) y1 =
    match task_step t ph (st y1) with
    | (inr ph, s) => mkSys s (readers y1) (writers y1) (<[j := (t, ph)]> (tasks y1)) (next y1) (committed y1)
    | (inl _, s) => mkSys s (readers y1) (writers y1) (delete j (tasks y1)) (next y1) (committed y1)
    end) as Hstep by (intros y1 ph E; unfold step; by rewrite E).
  rewrite (Hstep y _ Hj). destruct (task_step t TWrite (st y)) as [r1 s1] eqn:E1.
  assert (∃ ph1, r1 = inr ph1 ∧ ph1 ≠ TWrite) as (ph1 & -> & Hph1).
  { simpl in E1. pose proof (dir_Write_spec (t_w t) (default [] (Bytes <$> bufs (st y) !! t_cached t)) (dir (st y))).
    destruct (DirectoryCache.Write _ _ _) as [[] ?]; simplify_eq/=; eexists; (split; [done|]); by try case_match. }
  set (y1 := mkSys s1 _ _ _ _ _). rewrite (Hstep y1 ph1) by apply lookup_insert_eq. cbn [st].
  change (st y1) with s1. destruct (task_step t ph1 s1) as [[r2|ph2] s2] eqn:E2.
  { simpl. rewrite lookup_delete_eq. simpl. by rewrite lookup_delete_eq. }
  assert (∃ r, ph2 = TDone r) as [r ->].
  { destruct ph1; simpl in E2; simplify_eq; repeat case_match; simplify_eq; eauto. }
  set (y2 := mkSys s2 _ _ _ _ _). rewrite (Hstep y2 (TDone r)) by apply lookup_insert_eq. simpl. by rewrite lookup_delete_eq.
Qed.

(** ** What was committed is served *)
Lemma buf_evictions_keep own dn c' E ev s rs ws ts H b h s1 :
  wf c' → evicted c' = E ++ ev → BufInv own dn c' E (bufs s) (pool s) rs ws ts H →
  own b = BEntry h → h ∉ evicted c' →
  bufs (foldl (λ s h, OnEvicted_data c' h s) s1 ev) !! b = bufs s1 !! b.
Proof.
  intros Hw HE HB Ho Hnh. pose proof (inv_nodup _ _ _ Hw) as Hnd. rewrite HE in Hnd.
  apply list.NoDup_app in Hnd as (_ & Hdisj & _).
  assert (∀ h', h' ∈ ev → h' ∈ evicted c' ∧ h' ∉ E) as Hev.
  { intros h' Hin. split; [rewrite HE; set_solver|]. intros HhE. by eapply Hdisj. }
  clear Hdisj. clear HE. revert s1. induction ev as [|h' ev IH]; intros s1; simpl; [done|].
  rewrite IH by set_solver. unfold OnEvicted_data. destruct (heap c' !! h') as [r|] eqn:Hr; [|done]. simpl.
  rewrite list_lookup_alter_ne; [done|]. destruct (Hev h') as [Hin HnE]; [set_solver|]. intros Heq.
  destruct (b_entry _ _ _ _ _ _ _ _ _ _ HB h' (rc_key r) (rc_v r)) as [Ho' _];
    [unfold kv; by rewrite Hr|done|]. rewrite Heq, Ho in Ho'. congruence.
Qed.

Lemma Get_cached key c v : wf c → cached key c = Some v → ∃ d, (Get key c).1 = Some (v, d).
Proof.
  intros Hw. unfold cached, Get. destruct (lru_Get_spec key (inner c)) as [Hg _].
  intros (h & Hh & (r & Hr & [= <-])%bind_Some)%bind_Some. rewrite Hh in Hg.
  destruct (lru_Get key (inner c)) as [o l]. simpl in Hg. subst o. simpl.
  rewrite list_lookup_alter_eq, Hr. simpl. eauto.
Qed.

(** [start_commit] leaves a value cached under the key, and it is the writer's buffer,
    unchanged, when nothing was cached. *)
Lemma start_commit_cached y i key w b x t s' :
  Inv y → writers y !! i = Some (key, MemW w b, x) → start_commit w b (st y) = (Ok t, s') →
  cached key (cache s') = Some (t_cached t) ∧
  (cached key (cache (st y)) = None →
     t_cached t = b ∧ ∃ buf, bufs s' !! b = Some buf ∧ Bytes buf = x).
Proof.
  intros (Hw & Hwf & bown & bdn & fown & fdn & iown & HB & HF & HI) Hi Hs.
  destruct (i_writer _ _ _ _ _ _ HI _ _ _ _ Hi) as (Hk & _). simpl in Hk.
  destruct (b_writer _ _ _ _ _ _ _ _ _ _ HB _ _ _ _ _ Hi) as (_ & buf & Hb & Hx).
  unfold start_commit in Hs. destruct (DirectoryCache.closed (dir (st y))); [done|]. rewrite Hk in Hs.
  pose proof (Add_keeps_existing key b _ Hw) as (Hv & Hadd & Hc').
  pose proof (Add_spec key b (cache (st y)) Hw) as Ha.
  destruct (Add key b (cache (st y))) as [[[v' d] added] c']. simpl in Hv, Hadd, Hc'.
  destruct Ha as (Hw' & -> & h & ev & Hd & Hev & Hspec). injection Hs as <- <-. simpl.
  assert (cache (if added then set_cache c' (st y) else putBuffer b (set_cache c' (st y))) = c') as ->.
  { destruct (set_cache_frame c' (st y)) as (_ & ? & _). by destruct added. }
  split; [by rewrite Hc', Hv|]. intros Hnone. rewrite Hnone in Hv, Hadd. simpl in Hv. subst v'.
  rewrite bool_decide_true in Hadd by done. subst added. split; [done|]. exists buf. split; [|done].
  destruct Hspec as (_ & -> & Hkv). rewrite <-Hb. unfold set_cache, new_evictions.
  replace (drop _ (evicted c')) with ev by by rewrite Hev, drop_app_length.
  assert (dones c' !! length (dones (cache (st y))) = Some (length (heap (cache (st y))), false)) as Hdl
    by (rewrite Hd; by rewrite lookup_app_r, Nat.sub_diag by lia).
  etrans; [eapply (buf_evictions_keep _ _ _ _ _ (st y)); [done|exact Hev| |by apply fn_lookup_insert|by eapply live_not_evicted]|done].
  eapply (buf_add_entry _ _ _ _ _ _ _ _ _ _ _ _ _ _ _ _ _ (inr 0%nat) HB Hi); [by apply kv_None_length|done|done].
Qed.

(** C14: as soon as [Commit] has put the buffer of a writer into the data cache, and before
    the goroutine has copied it to the directory, [Get] of the key succeeds.  It serves
    what the writer wrote, or what was cached under the key before: the first commit wins
    while it is cached. *)
Theorem committed_is_served s ls i key w b x t s' :
  fresh_cache s →
  let y := run ls (start s) in
  writers y !! i = Some (key, MemW w b, x) →
  direct (st y) = false →
  start_commit w b (st y) = (Ok t, s') →
  ∃ r s'' z, dc_Get key false s' = (Ok r, s'') ∧ reader_bytes r s'' = Some z ∧
    (key, z) ∈ (key, x) :: committed y ∧
    (cached key (cache (st y)) = None → z = x).
Proof.
  intros Hs y Hi Hdir Hsc. assert (Inv y) as HInv by by apply Inv_run, Inv_start.
  destruct (start_commit_cached _ _ _ _ _ _ _ _ HInv Hi Hsc) as [Hcached Hnew].
  pose proof (Inv_step (LCommit i) y HInv) as HInv1.
  set (y1 := step (LCommit i) y) in *.
  assert (st y1 = s' ∧ committed y1 = (key, x) :: committed y) as [Hst1 Hcm1]
    by (unfold y1, step; by rewrite Hi, Hsc).
  assert (DirectoryCache.closed (dir s') = false ∧ direct s' = false) as [Hcl Hd'].
  { revert Hsc. unfold start_commit. destruct (DirectoryCache.closed (dir (st y))) eqn:Ec; [done|].
    destruct (Add _ b (cache (st y))) as [[[v' d] added] c']. intros [= _ <-].
    destruct (set_cache_frame c' (st y)) as (Hf & _ & _ & _ & _ & Hf').
    destruct added; simpl; by rewrite Hf, Hf'. }
  pose proof HInv1 as (Hw1 & _). rewrite Hst1 in Hw1.
  destruct (Get_cached _ _ _ Hw1 Hcached) as [d Hg].
  pose proof (Get_spec key _ Hw1) as Hgs.
  destruct (Get key (cache s')) as [o c'] eqn:EG. simpl in Hg. subst o.
  destruct Hgs as (Hw2 & Hev & Hkv & -> & h & Hdn & Hh).
  destruct HInv1 as (_ & _ & bown & bdn & fown & fdn & iown & HB & _). rewrite Hst1, Hcm1 in HB.
  destruct (b_entry _ _ _ _ _ _ _ _ _ _ HB _ _ _ Hh) as (_ & buf & Hb & HbH).
  { rewrite <-Hev. eapply (live_not_evicted _ (length (dones (cache s')))); [done|].
    rewrite Hdn. by rewrite lookup_app_r, Nat.sub_diag by lia. }
  eexists _, _, (Bytes buf). split_and!.
  - unfold dc_Get. rewrite Hcl, Hd'. simpl. unfold get_memory. rewrite EG. simpl. by rewrite Hb.
  - simpl. rewrite set_cache_quiet by done. simpl. by rewrite Hb.
  - done.
  - intros (Ht & buf' & Hb' & <-)%Hnew. congruence.
Qed.
End steps.

(** [NewDirectoryCache] with its own caches, on an empty directory, starts from there. *)
Lemma NewDirectoryCache_fresh {L} `{!LRU L} (lru_New : Z → L) directory config f s f' :
  (∀ n, lru_map (lru_New n) = ∅) → DataCache config = None → FdCache config = None → dirents f = ∅ →
  NewDirectoryCache lru_New directory config f = (Ok s, f') → fresh_cache s.
Proof.
  intros Hnew Hd Hf He. unfold NewDirectoryCache. rewrite Hd, Hf.
  destruct (DirectoryCache.NewDirectoryCache directory f) as [[d|e|] f1] eqn:E; intros [= <- <-].
  unfold fresh_cache. simpl. split_and!; try done.
  revert E. unfold DirectoryCache.NewDirectoryCache, os_MkdirAll, syscall.
  repeat case_match; intros; by simplify_eq/=.
Qed.

(** ** Concrete runs

    A reader that outlives the eviction of its buffer while the pool recycles others, a commit
    that is served before it reaches the disk. *)
Definition ex_lru (n : Z) : lru_state := mkLRU (Z.to_nat n) ∅ [].
Definition ex_config : DirectoryCacheConfig (L := lru_state) := mkDirectoryCacheConfig 1 0 false None None false.
Definition ex_state : state (L := lru_state) :=
  match NewDirectoryCache ex_lru "/cache" ex_config (mkFS [] ∅ (λ _, None) 0) with
  | (Ok s, _) => s
  | _ => mkSt (DirectoryCache.mk (mkFS [] ∅ (λ _, None) 0) true) (New (ex_lru 0)) (New (ex_lru 0)) [] [] [] false false
  end.

Lemma ex_state_fresh : fresh_cache ex_state.
Proof. unfold fresh_cache. split_and!; vm_compute; reflexivity. Qed.

(** The one entry of the data cache, for "a", is evicted by "b" while reader 2 is open;
    then an aborted writer for "c" has its buffer recycled by one for "d". *)
Definition ex_labels : list label :=
  [LAdd "a" false None; LWrite 0 (to_bytes "abc"); LCommit 0; LGetMemory "a"; LTask 1; LTask 1; LTask 1;
   LAdd "b" false None; LWrite 3 (to_bytes "z"); LCommit 3; LAdd "c" false None; LWrite 5 (to_bytes "xx"); LAbort 5;
   LAdd "d" false (Some 0%nat); LWrite 6 (to_bytes "wwww"); LGetDisk "a" false].

Example ex_reader : readers (run ex_labels (start ex_state)) !! 2%nat = Some ("a", BufReader 0 3 1, (to_bytes "abc")).
Proof. vm_compute. reflexivity. Qed.

Example ex_recycled :
  let y := run ex_labels (start ex_state) in
  (λ e, e.1) <$> writers y !! 6%nat = Some ("d", MemW (DirectoryCache.mkWriter "d" 3) 2) ∧
  evicted (cache (st y)) = [] ∧
  pool (st (step (LCloseReader 2) y)) = [0%nat] ∧
  readers y !! 7%nat = Some ("a", OwnFile "a" 0, (to_bytes "abc")).
Proof. vm_compute. split_and!; reflexivity. Qed.

Lemma readers_stable_and_authentic_witness :
  fresh_cache ex_state ∧
  reader_bytes (BufReader 0 3 1) (st (run ex_labels (start ex_state))) = Some (to_bytes "abc") ∧
  ("a", (to_bytes "abc")) ∈ committed (run ex_labels (start ex_state)).
Proof.
  split; [exact ex_state_fresh|].
  apply (readers_stable_and_authentic ex_state ex_labels 2 "a" (BufReader 0 3 1) (to_bytes "abc") ex_state_fresh).
  vm_compute. reflexivity.
Defined.

(** Committing "b" with the cache still holding "a". *)
Definition ex_before : list label := take 9 ex_labels.
Definition ex_writer : DirectoryCache.writer := DirectoryCache.mkWriter "b" 1.
Definition ex_commit : outcome task * state := start_commit ex_writer 1 (st (run ex_before (start ex_state))).

Lemma committed_is_served_witness :
  ∃ r s'' z, dc_Get "b" false ex_commit.2 = (Ok r, s'') ∧ reader_bytes r s'' = Some z ∧
    ("b", z) ∈ ("b", (to_bytes "z")) :: committed (run ex_before (start ex_state)) ∧
    (cached "b" (cache (st (run ex_before (start ex_state)))) = None → z = (to_bytes "z")).
Proof.
  apply (committed_is_served ex_state ex_before 3 "b" ex_writer 1 (to_bytes "z") (mkTask ex_writer 1 2) ex_commit.2 ex_state_fresh);
    vm_compute; reflexivity.
Defined.
