(* ===== verification/SpanManager.v ===== *)
(** * The span manager

    Models [fs/span-manager/span.go] and [span_manager.go]: the span state machine and
    the fetch, verify, uncompress, cache pipeline that serves file contents.  The layer
    reader is an arbitrary, possibly hostile, [io.ReaderAt]; the zinfo and the cache are
    used through their interfaces.  A span's mutex makes each operation on it atomic, so
    operations run one at a time; the goroutines of [GetContents] run in any order. *)
From Stdlib Require Import ZArith Lia.
From stdpp Require Import base list gmap strings numbers pretty.
From S2P Require Import Prelude GoLib Compression GzipZinfo Ztoc ZtocBuilder BlobCache.
#[local] Open Scope Z_scope.
#[local] Open Scope go_scope.

(** ** [span.go] *)
Inductive spanState := unrequested | requested | fetched | uncompressed.

#[global] Instance spanState_eq_dec : EqDecision spanState.
Proof. solve_decision. Defined.

Definition errInvalidSpanStateTransition := Sentinel "invalid span state transition".

Definition defaultSpanVerificationFailureRetries : Z := 3.

Definition stateTransitionMap (s : spanState) : list spanState :=
  match s with
  | unrequested => [requested]
  | requested => [unrequested; fetched; uncompressed]
  | fetched => [uncompressed]
  | uncompressed => []
  end.

Record span := mkSpan {
  id : SpanID;
  startCompOffset : Offset;
  endCompOffset : Offset;
  startUncompOffset : Offset;
  endUncompOffset : Offset;
  state : spanState
}.

Definition checkState (s : span) (expected : spanState) : bool :=
  bool_decide (state s = expected).

Definition validateStateTransition (s : span) (newState : spanState) : outcome () :=
  if bool_decide (newState ∈ stateTransitionMap (state s)) then Ok tt
  else Err (Wrap "" errInvalidSpanStateTransition).

Definition store_state (s : span) (st : spanState) : span :=
  mkSpan (id s) (startCompOffset s) (endCompOffset s) (startUncompOffset s)
    (endUncompOffset s) st.

Definition setState (s : span) (st : spanState) : outcome span :=
  _ ← validateStateTransition s st; Ok (store_state s st).

(** ** Readers *)

(** An [io.ReaderAt] of the layer: asked for [len(p)] bytes at an offset it yields the
    bytes it put into [p] and its error, and may change state. *)
Class ReaderAt (R : Type) := {
  ReadAt : Z → Z → R → (bytes * option error) * R
}.

(** [io.SectionReader] from offset 0. *)
Record SectionReader (R : Type) := mkSR { sr_r : R; sr_off : Z; sr_limit : Z }.
Arguments mkSR {R}.
Arguments sr_r {R}.
Arguments sr_off {R}.
Arguments sr_limit {R}.

Definition SectionReader_ReadAt {R} `{ReaderAt R} (n off : Z) (s : SectionReader R)
  : (bytes * option error) * SectionReader R :=
  if (off <? 0) || (sr_limit s <=? off) then (([], Some io_EOF), s)
  else
    let max := sr_limit s - off in
    if max <? n then
      let '((got, err), r) := ReadAt max off (sr_r s) in
      ((got, match err with None => Some io_EOF | _ => err end),
       mkSR r (sr_off s) (sr_limit s))
    else
      let '((got, err), r) := ReadAt n off (sr_r s) in
      ((got, err), mkSR r (sr_off s) (sr_limit s)).

Definition SectionReader_Read {R} `{ReaderAt R} (n : Z) (s : SectionReader R)
  : (bytes * option error) * SectionReader R :=
  if sr_limit s <=? sr_off s then (([], Some io_EOF), s)
  else
    let n := Z.min n (sr_limit s - sr_off s) in
    let '((got, err), r) := ReadAt n (sr_off s) (sr_r s) in
    ((got, err), mkSR r (sr_off s + zlen got) (sr_limit s)).

(** What reading [io.NewSectionReader(rc, off, n)] to the end yields. *)
Definition section_content (content : bytes) (off n : Z) : bytes := sub off (off + n) content.

(** [ioutils.NewMultiReadCloser]: the readers' contents one after the other. *)
Definition NewMultiReadCloser (rs : list bytes) : bytes := concat rs.

(** ** [span_manager.go] *)
Definition ErrSpanNotAvailable := Sentinel "span not available in cache".
Definition ErrIncorrectSpanDigest := Sentinel "span digests do not match".
Definition ErrExceedMaxSpan := Sentinel "span id larger than max span id".
Definition ErrNonMonotonicCheckpoints := Sentinel "span offsets are non-monotonic".
Definition ErrIncorrectMaxSpanID :=
  Sentinel "given max span ID differs from calculated max span ID".

Record SpanManager (T C R Time : Type) := mkSM {
  sm_cache : C;
  sm_zinfo : T;
  sm_r : SectionReader R;
  spans : list span;
  sm_ztoc : Ztoc Time;
  maxSpanVerificationFailureRetries : Z;
  sm_closed : bool
}.
Arguments mkSM {T C R Time}.
Arguments sm_cache {T C R Time}.
Arguments sm_zinfo {T C R Time}.
Arguments sm_r {T C R Time}.
Arguments spans {T C R Time}.
Arguments sm_ztoc {T C R Time}.
Arguments maxSpanVerificationFailureRetries {T C R Time}.
Arguments sm_closed {T C R Time}.

Record spanInfo := mkSpanInfo {
  si_spanStart : SpanID;
  si_spanEnd : SpanID;
  startOffInSpan : list Offset;
  endOffInSpan : list Offset;
  spanIndexInBuf : list Offset
}.

Section manager.
Context {T C W R Time : Type}.
Context `{HZ : Zinfo T} `{HB : BlobCache C W} `{HR : ReaderAt R} `{HD : Digester}.

Abbreviation SM := (SpanManager T C R Time).
Implicit Types m : SM.

Definition set_cache (c : C) m : SM :=
  mkSM c (sm_zinfo m) (sm_r m) (spans m) (sm_ztoc m)
    (maxSpanVerificationFailureRetries m) (sm_closed m).
Definition set_reader (r : SectionReader R) m : SM :=
  mkSM (sm_cache m) (sm_zinfo m) r (spans m) (sm_ztoc m)
    (maxSpanVerificationFailureRetries m) (sm_closed m).
Definition set_spans (ss : list span) m : SM :=
  mkSM (sm_cache m) (sm_zinfo m) (sm_r m) ss (sm_ztoc m)
    (maxSpanVerificationFailureRetries m) (sm_closed m).

Definition on_cache {A} (op : ST C A) : ST SM A := λ m,
  let '(o, c) := op (sm_cache m) in (o, set_cache c m).
Definition on_reader (n off : Z) : ST SM (bytes * option error) := λ m,
  let '(o, r) := SectionReader_ReadAt n off (sm_r m) in (Ok o, set_reader r m).

Definition MaxSpan m : Z := MaxSpanID_ (CInfo (sm_ztoc m)).
Definition Digests m : list string := SpanDigests (CInfo (sm_ztoc m)).

Definition get_span (i : SpanID) : ST SM span := λ m, (index (spans m) i, m).

(** [m.spans[i].setState(st)]. *)
Definition span_setState (i : SpanID) (st : spanState) : ST SM () := λ m,
  match index (spans m) i with
  | Ok s =>
      match setState s st with
      | Ok s' => (Ok tt, set_spans (<[Z.to_nat i := s']> (spans m)) m)
      | Err e => (Err e, m)
      | Panic => (Panic, m)
      end
  | Err e => (Err e, m)
  | Panic => (Panic, m)
  end.

Definition key (spanID : SpanID) : string := pretty spanID.

(** [defer] of a call whose result is dropped. *)
Definition deferring {A B} (d : ST SM B) (body : ST SM A) : ST SM A := λ m,
  let '(o, m') := body m in (o, (d m').2).

(** *** Caching *)
Definition addSpanToCache (spanID : SpanID) (contents : bytes) : ST SM () :=
  w <~ on_cache (cache_Add (key spanID));;
  deferring (on_cache (writer_Close w)) (λ m,
    match on_cache (writer_Write w contents) m with
    | (Ok _, m') => (Ok tt, (on_cache (writer_Commit w) m').2)   (* Commit's error is dropped *)
    | (Err e, m') => (Err e, (on_cache (writer_Abort w) m').2)
    | (Panic, m') => (Panic, m')
    end).

Definition getSpanFromCache (spanID : SpanID) (offset size : Offset) : ST SM bytes := λ m,
  match on_cache (cache_Get (key spanID)) m with
  | (Ok rc, m') => (Ok (section_content rc offset size), m')
  | (Err e, m') => (Err (Join ErrSpanNotAvailable e), m')
  | (Panic, m') => (Panic, m')
  end.

(** *** Fetching *)
Definition verifySpanContents (compressedData : bytes) (spanID : SpanID) m : outcome () :=
  if int32 (zlen (Digests m)) <=? spanID then Err ErrExceedMaxSpan
  else
    expected ← index (Digests m) spanID;
    if String.eqb (digest_FromBytes compressedData) expected then Ok tt
    else Err (Wrap "expected digest differs" ErrIncorrectSpanDigest).

(** The retry loop: [tries] iterations left; [last] is the last verification error
    ([None] when no iteration has run: the code then returns an empty slice and nil). *)
Fixpoint fetch_loop (tries : nat) (spanID : SpanID) (offset compressedSize : Z)
    (last : option error) : ST SM bytes :=
  match tries with
  | O => match last with Some e => st_err e | None => st_ret [] end
  | S tries' =>
      r <~ on_reader compressedSize offset;;
      let '(compressedBuf, err) := r in
      match err with
      | Some e => if errors_Is e io_EOF then st_ret tt else st_err e
      | None => st_ret tt
      end;;;
      if negb (zlen compressedBuf =? compressedSize)
      then st_err (ErrorString "unexpected data size for reading compressed span")
      else λ m,
        match verifySpanContents compressedBuf spanID m with
        | Ok _ => (Ok compressedBuf, m)
        | Err e => fetch_loop tries' spanID offset compressedSize (Some e) m
        | Panic => (Panic, m)
        end
  end.

Definition fetchSpanWithRetries (spanID : SpanID) : ST SM bytes :=
  s <~ get_span spanID;;
  let offset := startCompOffset s in
  let compressedSize := int64 (endCompOffset s - startCompOffset s) in
  _ <~ st_lift (make_slice compressedSize Byte.x00);;
  m <~ st_get;;
  fetch_loop (Z.to_nat (int64 (maxSpanVerificationFailureRetries m + 1)))
    spanID offset compressedSize None.

Definition uncompressSpan (s : span) (compressedBuf : bytes) m : outcome bytes :=
  let uncompSize := int64 (endUncompOffset s - startUncompOffset s) in
  if uncompSize =? 0 then Ok []
  else ExtractDataFromBuffer (sm_zinfo m) compressedBuf uncompSize (startUncompOffset s) (id s).

Definition uncompressing (s : span) (compressedBuf : bytes) : ST SM bytes := λ m,
  (uncompressSpan s compressedBuf m, m).

(** The deferred reset runs on an error; a panic leaves [err] nil. *)
Definition fetchAndCacheSpan (spanID : SpanID) (uncompress : bool) : ST SM bytes :=
  s <~ get_span spanID;;
  span_setState spanID requested;;;
  λ m,
    match (compressedBuf <~ fetchSpanWithRetries spanID;;
           buf <~ (if uncompress then uncompressing s compressedBuf else st_ret compressedBuf);;
           addSpanToCache spanID buf;;;
           span_setState spanID (if uncompress then uncompressed else fetched);;;
           st_ret buf) m with
    | (Err e, m') =>
        (Err e,
         match index (spans m') spanID with
         | Ok s' => if checkState s' requested then (span_setState spanID unrequested m').2
                    else m'
         | _ => m'
         end)
    | r => r
    end.

(** *** Operations *)
Definition FetchSingleSpan (spanID : SpanID) : ST SM () :=
  m <~ st_get;;
  if MaxSpan m <? spanID then st_err ErrExceedMaxSpan
  else
    s <~ get_span spanID;;
    if negb (checkState s unrequested) then st_ret tt
    else fetchAndCacheSpan spanID false;;; st_ret tt.

Definition ResolveSpan (spanID : SpanID) : ST SM () :=
  m <~ st_get;;
  if MaxSpan m <? spanID then st_err ErrExceedMaxSpan
  else
    s <~ get_span spanID;;
    if checkState s uncompressed then st_ret tt
    else fetchAndCacheSpan spanID true;;; st_ret tt.

Definition getSpanContent (spanID : SpanID) (offsetStart offsetEnd : Offset) : ST SM bytes :=
  s <~ get_span spanID;;
  let size := int64 (offsetEnd - offsetStart) in
  if checkState s uncompressed then getSpanFromCache (id s) offsetStart size
  else if checkState s fetched then
    let compressedSize := int64 (endCompOffset s - startCompOffset s) in
    compressedBuf <~ getSpanFromCache (id s) 0 compressedSize;;
    uncompSpanBuf <~ uncompressing s compressedBuf;;
    addSpanToCache (id s) uncompSpanBuf;;;
    span_setState spanID uncompressed;;;
    st_lift (slice uncompSpanBuf offsetStart (int64 (offsetStart + size)))
  else
    uncompBuf <~ fetchAndCacheSpan (id s) true;;
    st_lift (slice uncompBuf offsetStart (int64 (offsetStart + size))).

Definition resolveSpan (spanID : SpanID) : ST SM () :=
  m <~ st_get;;
  if MaxSpan m <? spanID then st_err ErrExceedMaxSpan
  else
    s <~ get_span spanID;;
    getSpanContent spanID 0 (endUncompOffset s);;;
    st_ret tt.

(** The loop of [getSpanInfo] over the spans of the range. *)
Definition span_range (offsetStart offsetEnd : Offset) (s : span) : Offset * Offset :=
  let uncompSpanSize := int64 (endUncompOffset s - startUncompOffset s) in
  (if startUncompOffset s <? offsetStart then int64 (offsetStart - startUncompOffset s) else 0,
   if offsetEnd <? endUncompOffset s then int64 (offsetEnd - startUncompOffset s)
   else uncompSpanSize).

Fixpoint span_ranges (offsetStart offsetEnd : Offset) (ss : list span) (i : SpanID) (k : nat)
    (bufSize : Offset) : outcome (list Offset * list Offset * list Offset) :=
  match k with
  | O => Ok ([], [], [])
  | S k' =>
      s ← index ss i;
      let '(st, en) := span_range offsetStart offsetEnd s in
      r ← span_ranges offsetStart offsetEnd ss (int32 (i + 1)) k' (int64 (bufSize + (en - st)));
      let '(starts, ends, idx) := r in
      Ok (st :: starts, en :: ends, bufSize :: idx)
  end.

Definition getSpanInfo (offsetStart offsetEnd : Offset) m : outcome spanInfo :=
  spanStart ← UncompressedOffsetToSpanID (sm_zinfo m) offsetStart;
  spanEnd ← UncompressedOffsetToSpanID (sm_zinfo m) offsetEnd;
  let numSpans := int32 (spanEnd - spanStart + 1) in
  _ ← make_slice numSpans 0;
  r ← span_ranges offsetStart offsetEnd (spans m) spanStart (Z.to_nat (spanEnd - spanStart + 1)) 0;
  let '(starts, ends, idx) := r in
  Ok (mkSpanInfo spanStart spanEnd starts ends idx).

(** One goroutine of [GetContents]: fills [spanReaders[j]]. *)
Definition span_job (si : spanInfo) (j : Z) : ST SM bytes :=
  st <~ st_lift (index (startOffInSpan si) j);;
  en <~ st_lift (index (endOffInSpan si) j);;
  getSpanContent (int32 (j + si_spanStart si)) st en.

(** The goroutines run in the order [sched]; [Wait] waits for all of them and returns
    the first error. *)
Fixpoint run_jobs (si : spanInfo) (sched : list nat) (readers : list bytes)
    (first_err : option error) : ST SM (list bytes) :=
  match sched with
  | [] => match first_err with Some e => st_err e | None => st_ret readers end
  | j :: sched' => λ m,
      match span_job si (Z.of_nat j) m with
      | (Ok r, m') => run_jobs si sched' (<[j := r]> readers) first_err m'
      | (Err e, m') =>
          run_jobs si sched' readers
            (match first_err with None => Some e | _ => first_err end) m'
      | (Panic, m') => (Panic, m')
      end
  end.

(** [order] chooses the schedule of the goroutines. *)
Definition GetContents (order : nat → list nat) (startUncompOffset endUncompOffset : Offset)
  : ST SM bytes :=
  m <~ st_get;;
  si <~ st_lift (getSpanInfo startUncompOffset endUncompOffset m);;
  let numSpans := int32 (si_spanEnd si - si_spanStart si + 1) in
  spanReaders <~ st_lift (make_slice numSpans []);;
  rs <~ run_jobs si (order (length spanReaders)) spanReaders None;;
  st_ret (NewMultiReadCloser rs).

Definition Close : ST SM () := λ m,
  if sm_closed m then (Ok tt, m)
  else
    let m := mkSM (sm_cache m) (sm_zinfo m) (sm_r m) (spans m) (sm_ztoc m)
               (maxSpanVerificationFailureRetries m) true in
    (Ok tt, (on_cache cache_Close m).2).

(** *** Construction *)

(** The loop of [buildAllSpans] from span [i] with [k] to go. *)
Fixpoint build_spans (zinfo : T) (maxSpanID compSize uncompSize : Z) (i : SpanID) (k : nat)
  : outcome (list span) :=
  match k with
  | O => Ok []
  | S k' =>
      sc ← StartCompressedOffset zinfo i;
      ec ← EndCompressedOffset zinfo i compSize;
      su ← StartUncompressedOffset zinfo i;
      eu ← EndUncompressedOffset zinfo i uncompSize;
      if (i <? maxSpanID) && ((ec <=? sc) || (eu <=? su))
      then Err ErrNonMonotonicCheckpoints
      else
        ss ← build_spans zinfo maxSpanID compSize uncompSize (i + 1) k';
        Ok (mkSpan i sc ec su eu unrequested :: ss)
  end.

Definition buildAllSpans : ST SM () := λ m,
  match build_spans (sm_zinfo m) (MaxSpan m) (CompressedArchiveSize (sm_ztoc m))
          (UncompressedArchiveSize (sm_ztoc m)) 0 (Z.to_nat (MaxSpan m + 1)) with
  | Ok ss => (Ok tt, set_spans ss m)
  | Err e => (Err e, m)
  | Panic => (Panic, m)
  end.

Definition drop_checkpoints (zt : Ztoc Time) : Ztoc Time :=
  mkZtoc (TOC zt)
    (mkCompressionInfo (MaxSpanID_ (CInfo zt)) (SpanDigests (CInfo zt)) []
       (CompressionAlgorithm (CInfo zt)))
    (Version zt) (BuildToolIdentifier zt) (CompressedArchiveSize zt) (UncompressedArchiveSize zt).

(** [New] once [ztoc.Zinfo()] has produced [index]. *)
Definition New_with (index : T) (zt : Ztoc Time) (r : SectionReader R) (cache : C) (retries : Z)
  : outcome SM :=
  let ci := CInfo zt in
  maxSpanID ← MaxSpanID index;
  if negb (MaxSpanID_ ci =? maxSpanID) then Err (Wrap "zTOC" ErrIncorrectMaxSpanID)
  else if negb (int32 (zlen (SpanDigests ci)) =? int32 (maxSpanID + 1))
  then Err (Wrap "len span digests" ErrIncorrectMaxSpanID)
  else
    hdr ← StartCompressedOffset index 0;
    zero ← make_slice hdr Byte.x00;
    let '((got, err), r) := SectionReader_Read hdr r in
    match err with
    | Some e => Err (Wrap "unable to read ztoc header" e)
    | None =>
        let b := got ++ drop (length got) zero in
        _ ← map_err (Wrap "unable to verify header") (VerifyHeader index b);
        _ ← make_slice (int32 (MaxSpanID_ ci + 1)) ();
        let m := mkSM cache index r [] (drop_checkpoints zt)
          (if retries <? 0 then defaultSpanVerificationFailureRetries else retries) false in
        match buildAllSpans m with
        | (Ok _, m') => Ok m'
        | (Err e, _) => Err e       (* after [m.Close()] *)
        | (Panic, _) => Panic
        end
    end.
End manager.

Definition New `{GzipC, TarZinfoFlatbuf} {C W R Time} `{BlobCache C W, ReaderAt R}
    (zt : Ztoc Time) (r : SectionReader R) (cache : C) (retries : Z)
  : outcome (SpanManager AnyZinfo C R Time) :=
  index ← Ztoc_Zinfo zt;
  New_with index zt r cache retries.

(** ** Correctness

    A layer with compressed bytes [comp] and uncompressed bytes [uncomp], whose zinfo
    [zi] satisfies the laws.  The digest is collision free on the spans of the layer, a
    commit of written data does not fail, and everything fits in an int64. *)
Class HonestReader (R : Type) `{ReaderAt R} (comp : bytes) := {
  honest : R → Prop;
  honest_read r n off : honest r → 0 ≤ off → 0 ≤ n → off + n ≤ zlen comp →
    (ReadAt n off r).1.1 = sub off (off + n) comp ∧
    (ReadAt n off r).1.2 ∈ [None; Some io_EOF] ∧ honest (ReadAt n off r).2
}.

Section correctness.
Context {T C W R Time : Type}.
Context `{HZ : Zinfo T} `{HB : BlobCache C W} `{HR : ReaderAt R} `{HD : Digester}.
Context `{HC : !BlobCacheLaws C W}.
Context {zi : T} {comp uncomp : bytes} {n : Z} {su sc ec : Z → Z}.
Context {HL : ZinfoLaws zi comp uncomp n su sc ec}.
Context `{HH : !HonestReader R comp}.

Definition collision_free : Prop := ∀ i x, 0 ≤ i ≤ n → zlen x = ec i - sc i →
  digest_FromBytes x = digest_FromBytes (sub (sc i) (ec i) comp) → x = sub (sc i) (ec i) comp.
Definition commits_succeed : Prop := ∀ w c k b,
  cache_ok c → pending w c = Some (k, b) → (writer_Commit w c).1 = Ok tt.
Definition fits : Prop := zlen comp < 2 ^ 63 ∧ zlen uncomp < 2 ^ 63.

Abbreviation SM := (SpanManager T C R Time).
Abbreviation eu := (span_end su n (zlen uncomp)).
Implicit Types m : SM.

Definition comp_span (i : Z) : bytes := sub (sc i) (ec i) comp.
Definition uncomp_span (i : Z) : bytes := sub (su i) (eu i) uncomp.

(** The span [i] that is being fetched, if any, is in state [requested]; every other one
    is in a resting state, with the contents its state promises in the cache. *)
Definition span_ok (busy : option Z) (c : C) (i : Z) (s : span) : Prop :=
  id s = i ∧ startCompOffset s = sc i ∧ endCompOffset s = ec i ∧
  startUncompOffset s = su i ∧ endUncompOffset s = eu i ∧
  match state s with
  | unrequested => busy ≠ Some i
  | requested => busy = Some i
  | fetched => busy ≠ Some i ∧ view c !! key i = Some (comp_span i)
  | uncompressed => busy ≠ Some i ∧ view c !! key i = Some (uncomp_span i)
  end.

Record sm_inv (busy : option Z) m : Prop := {
  smi_zinfo : sm_zinfo m = zi;
  smi_max : MaxSpan m = n;
  smi_digests_len : zlen (Digests m) = n + 1;
  smi_digests i : 0 ≤ i ≤ n → index (Digests m) i = Ok (digest_FromBytes (comp_span i));
  smi_spans_len : zlen (spans m) = n + 1;
  smi_spans i : 0 ≤ i ≤ n →
    ∃ s, index (spans m) i = Ok s ∧ span_ok busy (sm_cache m) i s;
  smi_cache : cache_ok (sm_cache m);
  smi_retries : 0 ≤ maxSpanVerificationFailureRetries m < 2 ^ 63 - 1
}.

(** The environment cooperates: the cache does not fail and the reader is honest. *)
Definition good m : Prop :=
  healthy (sm_cache m) ∧ honest (sr_r (sm_r m)) ∧ sr_limit (sm_r m) = zlen comp.

Definition span_state m (i : Z) (st : spanState) : Prop :=
  ∃ s, index (spans m) i = Ok s ∧ state s = st.

Lemma wp_on_cache {A} (op : ST C A) m P E :
  wp op (sm_cache m) (λ a c, P a (set_cache c m)) (λ c, E (set_cache c m)) →
  wp (on_cache op) m P E.
Proof. unfold wp, on_cache. by destruct (op (sm_cache m)) as [[] c]. Qed.

(** *** The cache *)
Lemma set_cache_set_cache c c' m : set_cache c (set_cache c' m) = set_cache c m.
Proof. done. Qed.

Lemma wp_addSpanToCache (g : Prop) i b m :
  commits_succeed → cache_ok (sm_cache m) → (g → healthy (sm_cache m)) →
  wp (addSpanToCache i b) m
    (λ _ m', ∃ c', m' = set_cache c' m ∧ cache_ok c' ∧ (g → healthy c') ∧
       view c' = <[key i := b]> (view (sm_cache m)))
    (λ m', ∃ c', m' = set_cache c' m ∧ cache_ok c' ∧ ¬ g ∧ view c' = view (sm_cache m)).
Proof.
  intros Hcs Hok Hg. unfold addSpanToCache. apply wp_bind, wp_on_cache. unfold wp at 1.
  pose proof (add_law (key i) (sm_cache m) Hok) as Ha.
  destruct (cache_Add (key i) (sm_cache m)) as [[w|e|] c1]; [|naive_solver|done].
  destruct Ha as (Hok1 & Hv1 & Hp1 & Hh1).
  unfold wp, deferring, on_cache. simpl.
  pose proof (write_law w b _ _ _ Hok1 Hp1) as Hw.
  destruct (writer_Write w b c1) as [[x|e|] c2]; simpl; [| |done].
  - destruct Hw as (Hok2 & Hv2 & Hp2 & Hh2).
    pose proof (commit_law w _ _ c2 Hok2 Hp2) as Hc. pose proof (Hcs _ _ _ _ Hok2 Hp2) as Hcs2.
    destruct (writer_Commit w c2) as [o c3]; simpl in *. subst o.
    destruct Hc as (Hok3 & Hv3 & Hh3).
    pose proof (close_law w c3 Hok3) as (_ & Hok4 & Hv4 & Hh4).
    destruct (writer_Close w c3) as [o4 c4]; simpl in *.
    exists c4. split_and!; [done|done|tauto|]. by rewrite Hv4, Hv3, Hv2, Hv1.
  - destruct Hw as (Hok2 & Hv2 & Hh2).
    pose proof (abort_law w c2 Hok2) as (_ & Hok3 & Hv3 & Hh3).
    destruct (writer_Abort w c2) as [o3 c3]; simpl in *.
    pose proof (close_law w c3 Hok3) as (_ & Hok4 & Hv4 & Hh4).
    destruct (writer_Close w c3) as [o4 c4]; simpl in *.
    exists c4. split_and!; [done|done|tauto|]. by rewrite Hv4, Hv3, Hv2, Hv1.
Qed.

Lemma wp_getSpanFromCache (g : Prop) i off sz b m :
  cache_ok (sm_cache m) → (g → healthy (sm_cache m)) → view (sm_cache m) !! key i = Some b →
  wp (getSpanFromCache i off sz) m
    (λ r m', r = section_content b off sz ∧ ∃ c', m' = set_cache c' m ∧ cache_ok c' ∧
       (g → healthy c') ∧ view c' = view (sm_cache m))
    (λ m', ∃ c', m' = set_cache c' m ∧ cache_ok c' ∧ ¬ g ∧ view c' = view (sm_cache m)).
Proof.
  intros Hok Hg Hb. unfold getSpanFromCache, wp, on_cache.
  pose proof (get_law (key i) (sm_cache m) Hok) as Hget.
  destruct (cache_Get (key i) (sm_cache m)) as [[r|e|] c]; simpl; [| |done].
  - destruct Hget as (? & ? & Hr & ?). simplify_eq. split; [done|]. exists c. naive_solver.
  - destruct Hget as (? & ? & Hr). exists c. split_and!; [done|done| |done].
    intros Hg'%Hg. destruct (Hr Hg'). congruence.
Qed.

(** *** Fetching *)
Definition reader_good (r : SectionReader R) : Prop :=
  honest (sr_r r) ∧ sr_limit r = zlen comp.

(** An honest reader serves the span, possibly with an [io.EOF]. *)
Lemma honest_span_read i r : 0 ≤ i ≤ n → reader_good r →
  let res := SectionReader_ReadAt (ec i - sc i) (sc i) r in
  res.1.1 = comp_span i ∧ res.1.2 ∈ [None; Some io_EOF] ∧ reader_good res.2.
Proof.
  intros Hi [Hr Hl] res. subst res.
  destruct (zl_comp (ZinfoLaws:=HL) i Hi) as [Hsc Hec].
  unfold SectionReader_ReadAt, comp_span. rewrite Hl.
  destruct (Z.ltb_spec (sc i) 0); [lia|].
  destruct (Z.leb_spec (zlen comp) (sc i)); simpl.
  - rewrite sub_empty by lia. split_and!; [done|set_solver|done].
  - destruct (Z.ltb_spec (zlen comp - sc i) (ec i - sc i)); [lia|].
    pose proof (honest_read (sr_r r) (ec i - sc i) (sc i) Hr ltac:(lia) ltac:(lia) ltac:(lia))
      as (Hb & He & Hr').
    destruct (ReadAt (ec i - sc i) (sc i) (sr_r r)) as [[got err] r']; simpl in *.
    split_and!; [|done|done]. rewrite Hb. f_equal. lia.
Qed.

Lemma verify_iff i b m : fits → 0 ≤ i ≤ n → zlen (Digests m) = n + 1 →
  index (Digests m) i = Ok (digest_FromBytes (comp_span i)) →
  verifySpanContents b i m =
    if String.eqb (digest_FromBytes b) (digest_FromBytes (comp_span i)) then Ok tt
    else Err (Wrap "expected digest differs" ErrIncorrectSpanDigest).
Proof.
  intros Hf Hi Hlen Hd. unfold verifySpanContents. rewrite Hlen, Hd.
  pose proof (zl_n (ZinfoLaws:=HL)). rewrite int32_id by (unfold in_int32; lia).
  by destruct (Z.leb_spec (n + 1) i); [lia|].
Qed.

Lemma wp_fetch_loop (g : Prop) i tries last m :
  collision_free → fits → 0 ≤ i ≤ n → zlen (Digests m) = n + 1 →
  index (Digests m) i = Ok (digest_FromBytes (comp_span i)) →
  (last = None → (0 < tries)%nat) → (g → (0 < tries)%nat) → (g → reader_good (sm_r m)) →
  wp (fetch_loop tries i (sc i) (ec i - sc i) last) m
    (λ b m', b = comp_span i ∧ ∃ r', m' = set_reader r' m ∧ (g → reader_good r'))
    (λ m', ∃ r', m' = set_reader r' m ∧ ¬ g).
Proof.
  intros Hcf Hf Hi Hlen Hd. revert last m Hlen Hd.
  induction tries as [|tries IH]; intros last m Hlen Hd Hlast Htries Hg.
  - destruct last as [e|]; [|specialize (Hlast eq_refl); lia].
    exists (sm_r m). split; [by destruct m|]. intros ?%Htries. lia.
  - cbn [fetch_loop]. apply wp_bind. unfold wp at 1, on_reader.
    pose proof (λ H : g, honest_span_read i _ Hi (Hg H)) as Hread.
    destruct (SectionReader_ReadAt (ec i - sc i) (sc i) (sm_r m)) as [[got err] r'].
    simpl in Hread. apply wp_bind.
    assert (wp (match err with
      | Some e => if errors_Is e io_EOF then st_ret tt else st_err e
      | None => st_ret tt end) (set_reader r' m)
      (λ _ m', m' = set_reader r' m) (λ m', m' = set_reader r' m ∧ ¬ g)) as Herr.
    { destruct err as [e|]; [|done]. destruct (errors_Is e io_EOF) eqn:E; [done|].
      split; [done|]. intros (_ & [?|[?|?%not_elem_of_nil]%elem_of_cons]%elem_of_cons & _)%Hread;
        simplify_eq; by vm_compute in E. }
    eapply wp_mono; [exact Herr| |intros m' [-> ?]; by exists r'].
    intros _ m' ->. destruct (Z.eqb_spec (zlen got) (ec i - sc i)) as [Hsz|Hsz]; simpl.
    + unfold wp. rewrite (verify_iff i) by done.
      destruct (String.eqb_spec (digest_FromBytes got) (digest_FromBytes (comp_span i))) as [Heq|Hne].
      * split; [by apply Hcf|]. exists r'. split; [done|]. by intros (_ & _ & ?)%Hread.
      * assert (¬ g) as Hng. { intros (-> & _)%Hread. done. }
        eapply wp_mono; [apply (IH _ (set_reader r' m)); done| |].
        -- intros b m' (-> & r'' & -> & ?). by eauto.
        -- intros m' (r'' & -> & ?). by eauto.
    + exists r'. split; [done|]. intros (-> & _)%Hread. apply Hsz.
      destruct (zl_comp (ZinfoLaws:=HL) i Hi). unfold comp_span. rewrite zlen_sub; lia.
Qed.

Lemma int64_span x y : fits → 0 ≤ x ≤ y → y ≤ Z.max (zlen comp) (zlen uncomp) →
  int64 (y - x) = y - x ∧ int64 y = y.
Proof. intros [? ?] ? ?. split; apply int64_id; unfold in_int64; lia. Qed.

Lemma eu_bounds i : 0 ≤ i ≤ n → 0 ≤ su i ≤ eu i ∧ eu i ≤ zlen uncomp.
Proof.
  intros Hi. pose proof (su_bounds (HL:=HL) i Hi). pose proof (span_end_bounds (HL:=HL) i Hi). lia.
Qed.

Lemma zlen_uncomp_span i : 0 ≤ i ≤ n → zlen (uncomp_span i) = eu i - su i.
Proof. intros Hi. pose proof (eu_bounds i Hi). unfold uncomp_span. apply zlen_sub; lia. Qed.

Lemma uncompressSpan_spec busy c i s m : fits → 0 ≤ i ≤ n → span_ok busy c i s →
  sm_zinfo m = zi → uncompressSpan s (comp_span i) m = Ok (uncomp_span i).
Proof.
  intros Hf Hi (Hid & _ & _ & Hsu & Heu & _) Hz. pose proof (eu_bounds i Hi).
  unfold uncompressSpan. rewrite Hid, Hsu, Heu, Hz.
  destruct (int64_span (su i) (eu i)) as [-> _]; [done|lia|lia|].
  destruct (Z.eqb_spec (eu i - su i) 0).
  - unfold uncomp_span. by rewrite sub_empty by lia.
  - apply (zl_extract (ZinfoLaws:=HL)); lia.
Qed.

(** *** State changes *)
Lemma index_insert_eq (l : list span) i s : 0 ≤ i < zlen l →
  index (<[Z.to_nat i := s]> l) i = Ok s.
Proof.
  intros Hi. apply index_ok; [lia|]. apply list_lookup_insert_eq. unfold zlen in Hi. lia.
Qed.
Lemma index_insert_ne (l : list span) i j s : 0 ≤ i → 0 ≤ j → i ≠ j →
  index (<[Z.to_nat i := s]> l) j = index l j.
Proof. intros. unfold index. rewrite list_lookup_insert_ne by lia. done. Qed.

(** Only span [i] and its cache entry change. *)
Lemma sm_inv_change i busy busy' m m' :
  sm_inv busy m → 0 ≤ i ≤ n →
  sm_zinfo m' = sm_zinfo m → sm_ztoc m' = sm_ztoc m →
  maxSpanVerificationFailureRetries m' = maxSpanVerificationFailureRetries m →
  zlen (spans m') = zlen (spans m) → cache_ok (sm_cache m') →
  (∀ j, 0 ≤ j → j ≠ i → index (spans m') j = index (spans m) j) →
  (∀ k, k ≠ key i → view (sm_cache m') !! k = view (sm_cache m) !! k) →
  busy ∈ [None; Some i] → busy' ∈ [None; Some i] →
  (∃ s, index (spans m') i = Ok s ∧ span_ok busy' (sm_cache m') i s) →
  sm_inv busy' m'.
Proof.
  intros [Hz Hm Hdl Hd Hsl Hs Hc Hr] Hi Ez Et Er El Hc' Hj Hv Hb Hb' Hsi.
  assert (∀ b j, b ∈ [None; Some i] → j ≠ i → b ≠ Some j) as Hne.
  { intros b j Hin Hji ->. set_solver. }
  split; unfold MaxSpan, Digests in *; rewrite ?Ez, ?Et, ?Er, ?El; try done.
  intros j Hjn. destruct (decide (j = i)) as [->|Hji]; [done|].
  destruct (Hs j Hjn) as (s & Hs1 & Hok). exists s. split; [by rewrite Hj by lia|].
  destruct Hok as (? & ? & ? & ? & ? & Hst). split_and!; [done..|].
  assert (key j ≠ key i) by (intros ?%(inj pretty); done).
  pose proof (Hne _ _ Hb Hji). pose proof (Hne _ _ Hb' Hji).
  destruct (state s); [done|done| |]; destruct Hst as [_ Hst]; (split; [done|]);
    by rewrite Hv.
Qed.

Lemma sm_inv_reader busy r m : sm_inv busy m → sm_inv busy (set_reader r m).
Proof. by intros []. Qed.

Lemma sm_inv_same_view busy c m : sm_inv busy m → cache_ok c →
  view c = view (sm_cache m) → sm_inv busy (set_cache c m).
Proof.
  intros [Hz Hm Hdl Hd Hsl Hs Hc Hr] Hok Hv. split; try done.
  intros i Hi. destruct (Hs i Hi) as (s & ? & Hs'). exists s. split; [done|].
  unfold span_ok in *. simpl. by rewrite Hv.
Qed.

Lemma span_setState_ok i st s m : index (spans m) i = Ok s →
  st ∈ stateTransitionMap (state s) →
  span_setState i st m =
    (Ok tt, set_spans (<[Z.to_nat i := store_state s st]> (spans m)) m).
Proof.
  intros Hs Hst. unfold span_setState, setState, validateStateTransition.
  by rewrite Hs, bool_decide_true.
Qed.

(** A span's new state is installed, once its contents are in the cache. *)
Lemma sm_inv_setState i busy busy' st s m :
  sm_inv busy m → 0 ≤ i ≤ n → index (spans m) i = Ok s →
  busy ∈ [None; Some i] → busy' ∈ [None; Some i] →
  span_ok busy' (sm_cache m) i (store_state s st) →
  let m' := set_spans (<[Z.to_nat i := store_state s st]> (spans m)) m in
  sm_inv busy' m' ∧ span_state m' i st.
Proof.
  intros Hinv Hi Hs Hb Hb' Hok m'.
  assert (index (spans m') i = Ok (store_state s st)) as Hi'.
  { apply index_insert_eq. rewrite (smi_spans_len _ _ Hinv). lia. }
  split; [|by eexists]. apply (sm_inv_change i busy busy' m); try done.
  - unfold zlen. simpl. by rewrite length_insert.
  - by apply Hinv.
  - intros j Hj Hne. apply index_insert_ne; lia.
  - eauto.
Qed.

Lemma sub_uncomp_span i a b : 0 ≤ i ≤ n → 0 ≤ a ≤ b → b ≤ eu i - su i →
  sub a b (uncomp_span i) = sub (su i + a) (su i + b) uncomp.
Proof. intros Hi ? ?. pose proof (eu_bounds i Hi). unfold uncomp_span. apply sub_sub; lia. Qed.

Lemma wp_slice_span (Q : SM → Prop) i a b m :
  fits → 0 ≤ i ≤ n → 0 ≤ a ≤ b → b ≤ eu i - su i → Q m →
  wp (st_lift (slice (uncomp_span i) a (int64 (a + (b - a))))) m
    (λ r m', r = sub (su i + a) (su i + b) uncomp ∧ Q m') (λ _, False).
Proof.
  intros Hf Hi Ha Hb HQ. pose proof (eu_bounds i Hi).
  replace (a + (b - a)) with b by lia.
  destruct (int64_span a b) as [_ ->]; [done|lia|lia|].
  unfold wp, st_lift. rewrite slice_ok by (rewrite ?zlen_uncomp_span; lia).
  split; [by apply sub_uncomp_span|done].
Qed.

(** Reading a [fetched] span: the compressed bytes come from the cache; what is left is
    to cache the uncompressed ones. *)
Lemma wp_getSpanContent_fetched (g : Prop) i a b m P E :
  fits → 0 ≤ i ≤ n → 0 ≤ a ≤ b → b ≤ eu i - su i →
  sm_inv None m → span_state m i fetched → (g → healthy (sm_cache m)) →
  (∀ c', cache_ok c' → (g → healthy c') → view c' = view (sm_cache m) →
     wp (addSpanToCache i (uncomp_span i);;; span_setState i uncompressed;;;
         st_lift (slice (uncomp_span i) a (int64 (a + (b - a))))) (set_cache c' m) P E) →
  (∀ c', cache_ok c' → ¬ g → view c' = view (sm_cache m) → E (set_cache c' m)) →
  wp (getSpanContent i a b) m P E.
Proof.
  intros Hf Hi Ha Hb Hinv (s & Hs & Hst) Hg HP HE.
  destruct (smi_spans _ _ Hinv i Hi) as (s0 & Hs0 & Hok). assert (s0 = s) as -> by congruence.
  pose proof Hok as (Hid & Hsc & Hec & Hsu & Heu & Hst0). rewrite Hst in Hst0.
  destruct Hst0 as [_ Hv0].
  pose proof (eu_bounds i Hi). destruct (zl_comp (ZinfoLaws:=HL) i Hi) as [Hb1 Hb2].
  unfold getSpanContent. apply wp_bind. unfold wp at 1, get_span. rewrite Hs, Hid.
  destruct (int64_span a b) as [-> _]; [done|lia|lia|].
  unfold checkState. rewrite Hst, bool_decide_false, bool_decide_true by done.
  rewrite Hsc, Hec. destruct (int64_span (sc i) (ec i)) as [-> _]; [done|lia|lia|]. apply wp_bind.
  eapply wp_mono; [apply (wp_getSpanFromCache g); [apply Hinv|done|exact Hv0]| |].
  2: { intros m' (c' & -> & ? & ? & ?). by apply HE. }
  intros r1 m1 (-> & c1 & -> & Hok1 & Hh1 & Hv1).
  assert (section_content (comp_span i) 0 (ec i - sc i) = comp_span i) as ->.
  { unfold section_content, comp_span. rewrite sub_sub by lia. f_equal; lia. }
  apply wp_bind. unfold wp at 1, uncompressing.
  rewrite (uncompressSpan_spec None (sm_cache m) i s) by (done || apply Hinv). by apply HP.
Qed.

(** When commits fail, the cache keeps its contents and nobody notices. *)
Definition commits_fail : Prop := ∀ w c k b,
  cache_ok c → pending w c = Some (k, b) → ∃ e, (writer_Commit w c).1 = Err e.

Lemma wp_addSpanToCache_lost i b m : commits_fail → cache_ok (sm_cache m) →
  wp (addSpanToCache i b) m
    (λ _ m', ∃ c', m' = set_cache c' m ∧ cache_ok c' ∧ view c' = view (sm_cache m))
    (λ _, True).
Proof.
  intros Hcf Hok. unfold addSpanToCache. apply wp_bind, wp_on_cache. unfold wp at 1.
  pose proof (add_law (key i) (sm_cache m) Hok) as Ha.
  destruct (cache_Add (key i) (sm_cache m)) as [[w|e|] c1]; [|done|done].
  destruct Ha as (Hok1 & Hv1 & Hp1 & _). unfold wp, deferring, on_cache. simpl.
  pose proof (write_law w b _ _ _ Hok1 Hp1) as Hw.
  destruct (writer_Write w b c1) as [[x|e|] c2]; simpl; [| |done].
  - destruct Hw as (Hok2 & Hv2 & Hp2 & _).
    pose proof (commit_law w _ _ c2 Hok2 Hp2) as Hc. destruct (Hcf _ _ _ _ Hok2 Hp2) as [e He].
    destruct (writer_Commit w c2) as [o c3]; simpl in *. subst o.
    destruct Hc as (Hok3 & Hv3 & _).
    pose proof (close_law w c3 Hok3) as (_ & Hok4 & Hv4 & _).
    destruct (writer_Close w c3) as [o4 c4]; simpl in *.
    exists c4. split_and!; [done|done|]. by rewrite Hv4, Hv3, Hv2, Hv1.
  - destruct (writer_Abort w c2) as [o3 c3]. simpl. by destruct (writer_Close w c3).
Qed.

(** A failed commit is not noticed.  When a [fetched] span is read while commits
    fail, the read returns the right bytes but leaves the span in state [uncompressed]
    with its compressed bytes in the cache, and the next read returns those. *)
Theorem lost_commit_serves_compressed i a b r m m' :
  fits → 0 ≤ i ≤ n → 0 ≤ a ≤ b → b ≤ eu i - su i → commits_fail →
  sm_inv None m → span_state m i fetched → getSpanContent i a b m = (Ok r, m') →
  span_state m' i uncompressed ∧ view (sm_cache m') !! key i = Some (comp_span i) ∧
  ∀ r' m'', getSpanContent i a b m' = (Ok r', m'') → r' = sub a b (comp_span i).
Proof.
  intros Hf Hi Ha Hb Hcf Hinv (s & Hs & Hst) HG.
  destruct (smi_spans _ _ Hinv i Hi) as (s0 & Hs0 & Hok). assert (s0 = s) as -> by congruence.
  pose proof Hok as (Hid & _ & _ & _ & _ & Hst0). rewrite Hst in Hst0. destruct Hst0 as [_ Hv0].
  pose proof (eu_bounds i Hi). pose proof (smi_spans_len _ _ Hinv).
  assert (wp (getSpanContent i a b) m (λ _ m', span_state m' i uncompressed ∧
    cache_ok (sm_cache m') ∧ view (sm_cache m') !! key i = Some (comp_span i) ∧
    ∃ s', index (spans m') i = Ok s' ∧ id s' = i) (λ _, True)) as Hwp.
  { apply (wp_getSpanContent_fetched False); try done; [by exists s|].
    intros c1 Hok1 _ Hv1. apply wp_bind.
    eapply wp_mono; [by apply wp_addSpanToCache_lost| |done].
    intros _ m2 (c2 & -> & Hok2 & Hv2). apply wp_bind. unfold wp at 1.
    rewrite (span_setState_ok i _ s) by (done || rewrite Hst; set_solver).
    assert (index (<[Z.to_nat i := store_state s uncompressed]> (spans m)) i =
      Ok (store_state s uncompressed)) as Hi' by (apply index_insert_eq; lia).
    set (m3 := set_spans _ _).
    eapply wp_mono; [by apply (wp_slice_span (λ m', m' = m3))| |done]. intros _ m4 [_ ->]. subst m3.
    split_and!; [by exists (store_state s uncompressed)|done| |by exists (store_state s uncompressed)].
    simpl. rewrite Hv2. simpl. by rewrite Hv1. }
  unfold wp in Hwp. rewrite HG in Hwp. destruct Hwp as ((s1 & Hs1 & Hst1) & Hok1 & Hv1 & s2 & Hs2 & Hid2).
  split_and!; [by exists s1|done|]. intros r' m'' HG'.
  assert (s2 = s1) as -> by congruence.
  revert HG'. unfold getSpanContent, st_bind, get_span. rewrite Hs1, Hid2. unfold checkState.
  rewrite bool_decide_true by done. destruct (int64_span a b) as [-> _]; [done|lia|lia|].
  pose proof (wp_getSpanFromCache False i a (b - a) _ m' Hok1 ltac:(done) Hv1) as Hwp.
  unfold wp in Hwp. intros HG'. rewrite HG' in Hwp. destruct Hwp as [-> _].
  unfold section_content. f_equal. lia.
Qed.

(** *** Operations on one span *)
Context (Hcf : collision_free) (Hcs : commits_succeed) (Hf : fits).

Lemma wp_fetchSpanWithRetries (g : Prop) busy i m :
  0 ≤ i ≤ n → sm_inv busy m → (g → good m) →
  wp (fetchSpanWithRetries i) m
    (λ b m', b = comp_span i ∧ ∃ r', m' = set_reader r' m ∧ (g → reader_good r'))
    (λ m', ∃ r', m' = set_reader r' m ∧ ¬ g).
Proof.
  intros Hi Hinv Hg. destruct (smi_spans _ _ Hinv i Hi) as (s & Hs & Hsok).
  pose proof Hsok as (Hid & Hsc & Hec & _).
  destruct (zl_comp (ZinfoLaws:=HL) i Hi) as [Hb1 Hb2].
  unfold fetchSpanWithRetries. apply wp_bind. unfold wp at 1, get_span. rewrite Hs, Hsc, Hec.
  destruct (int64_span (sc i) (ec i)) as [-> _]; [done|lia|lia|].
  apply wp_bind. unfold wp at 1, st_lift, make_slice.
  destruct (Z.ltb_spec (ec i - sc i) 0); [lia|].
  apply wp_bind. unfold wp at 1, st_get. pose proof (smi_retries _ _ Hinv).
  rewrite int64_id by (unfold in_int64; lia).
  apply wp_fetch_loop; try done; [apply Hinv|by apply (smi_digests _ _ Hinv)|lia..|].
  intros (_ & ? & ?)%Hg. done.
Qed.

Lemma good_set_reader (g : Prop) r m :
  (g → good m) → (g → reader_good r) → g → good (set_reader r m).
Proof. intros Hm Hr Hg. destruct (Hm Hg) as (? & _), (Hr Hg). by split_and!. Qed.
Lemma good_set_cache (g : Prop) c m :
  (g → good m) → (g → healthy c) → g → good (set_cache c m).
Proof. intros Hm Hc Hg. destruct (Hm Hg) as (_ & ? & ?). split_and!; auto. Qed.

(** The other spans are left alone. *)
Definition others_kept (i : Z) m m' : Prop :=
  ∀ j, 0 ≤ j → j ≠ i → index (spans m') j = index (spans m) j.

(** The body of [fetchAndCacheSpan], with the span in state [requested]. *)
Lemma wp_fetch_body (g : Prop) i (u : bool) s m :
  0 ≤ i ≤ n → sm_inv (Some i) m → span_ok None (sm_cache m) i s → (g → good m) →
  wp (compressedBuf <~ fetchSpanWithRetries i;;
      buf <~ (if u then uncompressing s compressedBuf else st_ret compressedBuf);;
      addSpanToCache i buf;;;
      span_setState i (if u then uncompressed else fetched);;;
      st_ret buf) m
    (λ b m', b = (if u then uncomp_span i else comp_span i) ∧ sm_inv None m' ∧
       (g → good m') ∧ span_state m' i (if u then uncompressed else fetched) ∧ others_kept i m m')
    (λ m', sm_inv (Some i) m' ∧ ¬ g).
Proof.
  intros Hi Hinv Hs Hg. apply wp_bind.
  eapply wp_mono; [by apply (wp_fetchSpanWithRetries g (Some i))| |].
  2: { intros m' (r' & -> & ?). split; [by apply sm_inv_reader|done]. }
  intros b m' (-> & r' & -> & Hr). apply wp_bind.
  set (m1 := set_reader r' m). assert (sm_inv (Some i) m1) as Hinv1 by by apply sm_inv_reader.
  pose proof (good_set_reader _ _ _ Hg Hr) as Hg1. fold m1 in Hg1.
  set (buf := if u then uncomp_span i else comp_span i).
  assert (wp (if u then uncompressing s (comp_span i) else st_ret (comp_span i)) m1
    (λ b m', b = buf ∧ m' = m1) (λ _, False)) as Hu.
  { destruct u; [|done]. unfold wp, uncompressing.
    rewrite (uncompressSpan_spec None (sm_cache m) i s m1) by (done || apply Hinv1). done. }
  eapply wp_mono; [exact Hu| |done]. intros _ _ [-> ->]. apply wp_bind.
  eapply wp_mono; [apply (wp_addSpanToCache g); [done|apply Hinv1|by intros (? & _)%Hg1]| |].
  2: { intros m' (c' & -> & ? & ? & Hv). split; [by apply sm_inv_same_view|done]. }
  intros _ m' (c' & -> & Hc' & Hh & Hv).
  destruct (smi_spans _ _ Hinv1 i Hi) as (s1 & Hs1 & Hid & ? & ? & ? & ? & Hst).
  assert (sm_inv (Some i) (set_cache c' m1)) as Hinv2.
  { apply (sm_inv_change i (Some i) (Some i) m1); try done; [|set_solver|set_solver|].
    - intros k Hk. simpl. by rewrite Hv, lookup_insert_ne.
    - exists s1. split; [done|]. split_and!; try done. by destruct (state s1); naive_solver. }
  assert (state s1 = requested) as Hreq by (by destruct (state s1); naive_solver).
  apply wp_bind. unfold wp at 1. rewrite (span_setState_ok i _ s1); [|done|rewrite Hreq; destruct u; set_solver].
  destruct (sm_inv_setState i (Some i) None (if u then uncompressed else fetched) s1 _ Hinv2 Hi Hs1)
    as [Hinv3 Hst3]; [set_solver|set_solver| |].
  { split_and!; try done. simpl. destruct u; simpl; (split; [done|]); by rewrite Hv, lookup_insert_eq. }
  split_and!; [done|done|by apply (good_set_cache g)|done|].
  intros j Hj Hne. apply index_insert_ne; lia.
Qed.

Lemma wp_fetchAndCacheSpan (g : Prop) i (u : bool) m :
  0 ≤ i ≤ n → sm_inv None m → span_state m i unrequested → (g → good m) →
  wp (fetchAndCacheSpan i u) m
    (λ b m', b = (if u then uncomp_span i else comp_span i) ∧ sm_inv None m' ∧
       (g → good m') ∧ span_state m' i (if u then uncompressed else fetched) ∧ others_kept i m m')
    (λ m', sm_inv None m' ∧ ¬ g).
Proof.
  intros Hi Hinv (s & Hs & Hst) Hg. unfold fetchAndCacheSpan.
  destruct (smi_spans _ _ Hinv i Hi) as (s' & Hs' & Hok). assert (s' = s) as -> by congruence.
  apply wp_bind. unfold wp at 1, get_span. rewrite Hs. apply wp_bind. unfold wp at 1.
  rewrite (span_setState_ok i _ s) by (done || rewrite Hst; set_solver).
  pose proof Hok as (? & ? & ? & ? & ? & _).
  destruct (sm_inv_setState i None (Some i) requested s m Hinv Hi Hs) as [Hinv1 _];
    [set_solver|set_solver|by split_and!|].
  set (m1 := set_spans _ m) in *.
  pose proof (wp_fetch_body g i u s m1 Hi Hinv1 Hok Hg) as Hbody.
  unfold wp in *. destruct (st_bind _ _ m1) as [[b|e|] m2]; [| |done].
  { destruct Hbody as (? & ? & ? & ? & Hk). split_and!; try done.
    intros j Hj Hne. rewrite Hk by done. apply index_insert_ne; lia. }
  destruct Hbody as [Hinv2 Hng]. split; [|done].
  destruct (smi_spans _ _ Hinv2 i Hi) as (s2 & Hs2 & Hid & ? & ? & ? & ? & Hst2). rewrite Hs2.
  assert (state s2 = requested) as Hreq by (by destruct (state s2); naive_solver).
  unfold checkState. rewrite bool_decide_true by done.
  rewrite (span_setState_ok i _ s2) by (done || rewrite Hreq; set_solver). simpl.
  destruct (sm_inv_setState i (Some i) None unrequested s2 m2 Hinv2 Hi Hs2) as [? _];
    [set_solver|set_solver|by split_and!|done].
Qed.

Lemma wp_getSpanContent_fetched_case (g : Prop) i a b m :
  0 ≤ i ≤ n → 0 ≤ a ≤ b → b ≤ eu i - su i → sm_inv None m → span_state m i fetched →
  (g → good m) →
  wp (getSpanContent i a b) m
    (λ r m', r = sub (su i + a) (su i + b) uncomp ∧ sm_inv None m' ∧ (g → good m'))
    (λ m', sm_inv None m' ∧ ¬ g).
Proof.
  intros Hi Ha Hb Hinv Hfe Hg. apply (wp_getSpanContent_fetched g); try done.
  { by intros (? & _)%Hg. }
  2: { intros. split; [by apply sm_inv_same_view|done]. }
  intros c1 Hok1 Hh1 Hv1.
  assert (sm_inv None (set_cache c1 m)) as Hinv1 by by apply sm_inv_same_view.
  pose proof (good_set_cache g c1 m Hg Hh1) as Hg1. set (m1 := set_cache c1 m) in *.
  destruct Hfe as (s & Hs & Hst).
  destruct (smi_spans _ _ Hinv i Hi) as (s0 & Hs0 & Hok). assert (s0 = s) as -> by congruence.
  destruct Hok as (? & ? & ? & ? & ? & _). apply wp_bind.
  eapply wp_mono; [apply (wp_addSpanToCache g); [done|apply Hinv1|by intros (? & _)%Hg1]| |].
  2: { intros m' (c2 & -> & ? & ? & Hv). split; [by apply sm_inv_same_view|done]. }
  intros _ m' (c2 & -> & Hc2 & Hh2 & Hv2).
  apply wp_bind. unfold wp at 1.
  rewrite (span_setState_ok i _ s) by (done || rewrite Hst; set_solver).
  eapply wp_mono; [apply (wp_slice_span (λ m', sm_inv None m' ∧ (g → good m'))); [done..|]|done|done].
  split; [|by apply (good_set_cache g)].
  apply (sm_inv_change i None None m1); try done; [..|set_solver|set_solver|].
  + unfold zlen. simpl. by rewrite length_insert.
  + intros j Hj Hne. apply index_insert_ne; lia.
  + intros k Hk. simpl. by rewrite Hv2, lookup_insert_ne.
  + eexists. split; [apply index_insert_eq; subst m1; simpl; rewrite (smi_spans_len _ _ Hinv); lia|].
    split_and!; try done. simpl. split; [done|]. by rewrite Hv2, lookup_insert_eq.
Qed.

Lemma wp_getSpanContent (g : Prop) i a b m :
  0 ≤ i ≤ n → 0 ≤ a ≤ b → b ≤ eu i - su i → sm_inv None m → (g → good m) →
  wp (getSpanContent i a b) m
    (λ r m', r = sub (su i + a) (su i + b) uncomp ∧ sm_inv None m' ∧ (g → good m'))
    (λ m', sm_inv None m' ∧ ¬ g).
Proof.
  intros Hi Ha Hb Hinv Hg. destruct (smi_spans _ _ Hinv i Hi) as (s & Hs & Hok).
  pose proof Hok as (Hid & Hsc & Hec & Hsu & Heu & Hst).
  pose proof (eu_bounds i Hi). destruct (zl_comp (ZinfoLaws:=HL) i Hi) as [Hb1 Hb2].
  destruct (decide (state s = fetched)) as [Hfe|Hfe]; [by apply wp_getSpanContent_fetched_case; [..|by exists s|]|].
  unfold getSpanContent. apply wp_bind. unfold wp at 1, get_span. rewrite Hs, Hid.
  destruct (int64_span a b) as [-> _]; [done|lia|lia|].
  assert (∀ m', g → good m' → healthy (sm_cache m')) as Hh by (intros m' _ (? & _); done).
  unfold checkState. destruct (state s) eqn:Es; try done.
  - rewrite !bool_decide_false by done. apply wp_bind.
    eapply wp_mono; [apply (wp_fetchAndCacheSpan g i true); [done..|by exists s|done]| |done].
    intros r m' (-> & Hinv' & Hg' & _).
    eapply wp_mono; [by apply (wp_slice_span (λ m', sm_inv None m' ∧ (g → good m')))|done|done].
  - rewrite bool_decide_true by done. destruct Hst as [_ Hst].
    eapply wp_mono; [apply (wp_getSpanFromCache g); [apply Hinv|by auto|exact Hst]| |].
    + intros r m' (-> & c' & -> & ? & ? & ?). split_and!.
      * unfold section_content. replace (a + (b - a)) with b by lia. by apply sub_uncomp_span.
      * by apply sm_inv_same_view.
      * by apply (good_set_cache g).
    + intros m' (c' & -> & ? & ? & ?). split; [by apply sm_inv_same_view|done].
Qed.

(** *** Ranges *)

(** The part of the request [a .. b] that lies in span [i], as offsets in the span. *)
Definition lo_in (a i : Z) : Z := Z.max a (su i) - su i.
Definition hi_in (b i : Z) : Z := Z.min b (eu i) - su i.

(** Spans [p .. q] are those of the request. *)
Record request (a b p q : Z) : Prop := {
  rq_p : 0 ≤ p ≤ q;
  rq_q : q ≤ n;
  rq_a : su p ≤ a ∧ a ≤ eu p;
  rq_b : su q ≤ b ∧ b ≤ eu q;
  rq_ab : a ≤ b
}.

Lemma eu_next i : 0 ≤ i < n → eu i = su (i + 1).
Proof. intros. unfold span_end. destruct (Z.eqb_spec i n); [lia|done]. Qed.

Lemma request_bounds a b p q i : request a b p q → p ≤ i ≤ q →
  0 ≤ lo_in a i ≤ hi_in b i ∧ hi_in b i ≤ eu i - su i ∧
  (p < i → Z.max a (su i) = su i) ∧ (i < q → Z.min b (eu i) = su (i + 1)).
Proof.
  intros [Hp Hq Ha Hb Hab] Hi. unfold lo_in, hi_in.
  pose proof (eu_bounds i ltac:(lia)). pose proof (eu_bounds p ltac:(lia)).
  pose proof (su_mono (HL:=HL) i q ltac:(lia) ltac:(lia)).
  assert (p < i → eu p ≤ su i).
  { intros. rewrite eu_next by lia. apply (su_mono (HL:=HL)); lia. }
  assert (i < q → eu i = su (i + 1) ∧ su (i + 1) ≤ su q).
  { intros. split; [apply eu_next; lia|apply (su_mono (HL:=HL)); lia]. }
  assert (i = p → su i = su p ∧ eu i = eu p) by (by intros ->).
  assert (i = q → su i = su q ∧ eu i = eu q) by (by intros ->). lia.
Qed.

Lemma request_exists a b : 0 ≤ a ≤ b → b < zlen uncomp → ∃ p q, request a b p q ∧
  UncompressedOffsetToSpanID zi a = Ok p ∧ UncompressedOffsetToSpanID zi b = Ok q.
Proof.
  intros Ha Hb.
  destruct (zl_find (ZinfoLaws:=HL) a) as (p & Hp & Hp1 & Hp2 & Hp3); [lia|].
  destruct (zl_find (ZinfoLaws:=HL) b) as (q & Hq & Hq1 & Hq2 & Hq3); [lia|].
  assert (∀ k x, 0 ≤ k ≤ n → (k < n → x < su (k + 1)) → x < zlen uncomp → x ≤ eu k) as He.
  { intros k x Hk Hx Hx'. unfold span_end. destruct (Z.eqb_spec k n); [lia|].
    specialize (Hx ltac:(lia)). lia. }
  exists p, q. split; [|done]. split; try lia.
  - split; [lia|]. destruct (Z.le_gt_cases p q) as [|Hgt]; [done|].
    pose proof (su_mono (HL:=HL) (q + 1) p ltac:(lia) ltac:(lia)). lia.
  - split; [done|]. apply He; [lia|done|lia].
  - split; [done|]. by apply He.
Qed.

Lemma span_range_spec busy c a b p q i s : request a b p q → p ≤ i ≤ q →
  span_ok busy c i s → span_range a b s = (lo_in a i, hi_in b i).
Proof.
  intros Hrq Hi (_ & _ & _ & Hsu & Heu & _).
  destruct (request_bounds a b p q i Hrq Hi) as (H1 & H2 & _).
  destruct Hrq as [Hp Hq Ha Hb Hab]. pose proof (eu_bounds i ltac:(lia)).
  pose proof (eu_bounds q ltac:(lia)). pose proof (eu_bounds p ltac:(lia)). unfold span_range. rewrite Hsu, Heu.
  unfold lo_in, hi_in in *. f_equal.
  - destruct (Z.ltb_spec (su i) a); [|lia].
    destruct (int64_span (su i) a) as [-> _]; [done|lia..].
  - destruct (Z.ltb_spec b (eu i)).
    + destruct (int64_span (su i) b) as [-> _]; [done|lia..].
    + destruct (int64_span (su i) (eu i)) as [-> _]; [done|lia..].
Qed.

Lemma span_ranges_spec busy a b p q m (k : nat) i buf :
  request a b p q → sm_inv busy m → p ≤ i → i + Z.of_nat k ≤ q + 1 →
  ∃ idx, span_ranges a b (spans m) i k buf =
    Ok (lo_in a <$> seqZ i (Z.of_nat k), hi_in b <$> seqZ i (Z.of_nat k), idx).
Proof.
  intros Hrq Hinv. pose proof (zl_n (ZinfoLaws:=HL)). pose proof (rq_q _ _ _ _ Hrq). pose proof (rq_p _ _ _ _ Hrq).
  revert i buf. induction k as [|k IH]; intros i buf Hi Hk; [by exists []|].
  cbn [span_ranges]. destruct (smi_spans _ _ Hinv i ltac:(lia)) as (s & Hs & Hok). rewrite Hs.
  cbn [mbind outcome_bind]. rewrite (span_range_spec busy _ a b p q i s Hrq ltac:(lia) Hok).
  rewrite int32_id by (unfold in_int32; lia).
  destruct (IH (i + 1) (int64 (buf + (hi_in b i - lo_in a i))) ltac:(lia) ltac:(lia)) as [idx ->].
  cbn [mbind outcome_bind]. eexists. rewrite (seqZ_cons i) by lia.
  replace (Z.pred (Z.of_nat (S k))) with (Z.of_nat k) by lia.
  by rewrite !fmap_cons, Z.add_1_r.
Qed.

Lemma getSpanInfo_spec busy a b m : 0 ≤ a ≤ b → b < zlen uncomp → sm_inv busy m →
  ∃ p q idx, request a b p q ∧ getSpanInfo a b m =
    Ok (mkSpanInfo p q (lo_in a <$> seqZ p (q - p + 1)) (hi_in b <$> seqZ p (q - p + 1)) idx).
Proof.
  intros Ha Hb Hinv. destruct (request_exists a b Ha Hb) as (p & q & Hrq & Hp & Hq).
  pose proof (rq_q _ _ _ _ Hrq). pose proof (rq_p _ _ _ _ Hrq). pose proof (zl_n (ZinfoLaws:=HL)).
  destruct (span_ranges_spec busy a b p q m (Z.to_nat (q - p + 1)) p 0 Hrq Hinv) as [idx Hidx]; [lia..|].
  exists p, q, idx. split; [done|]. unfold getSpanInfo.
  rewrite (smi_zinfo _ _ Hinv), Hp. cbn [mbind outcome_bind]. rewrite Hq. cbn [mbind outcome_bind].
  rewrite int32_id by (unfold in_int32; lia). unfold make_slice.
  destruct (Z.ltb_spec (q - p + 1) 0); [lia|]. cbn [mbind outcome_bind]. rewrite Hidx.
  cbn [mbind outcome_bind]. by rewrite Z2Nat.id by lia.
Qed.

(** The pieces of the spans, one after the other, are the request. *)
Definition piece (a b i : Z) : bytes := sub (Z.max a (su i)) (Z.min b (eu i)) uncomp.

Lemma concat_pieces_from a b p q (k : nat) i : request a b p q → p ≤ i → i + Z.of_nat k = q →
  concat (piece a b <$> seqZ i (Z.of_nat k + 1)) = sub (Z.max a (su i)) b uncomp.
Proof.
  intros Hrq. revert i. induction k as [|k IH]; intros i Hi Hk.
  - assert (i = q) as -> by lia. rewrite seqZ_cons, seqZ_nil by lia. simpl.
    rewrite app_nil_r. unfold piece. f_equal. destruct (rq_b _ _ _ _ Hrq). lia.
  - rewrite seqZ_cons, fmap_cons by lia. simpl concat.
    replace (Z.pred (Z.of_nat (S k) + 1)) with (Z.of_nat k + 1) by lia.
    replace (Z.succ i) with (i + 1) by lia. rewrite IH by lia. unfold piece.
    destruct (request_bounds a b p q i Hrq) as (H1 & H2 & _ & H3); [lia|].
    destruct (request_bounds a b p q (i + 1) Hrq) as (H4 & H5 & H6 & _); [lia|].
    rewrite H3, H6 by lia. unfold lo_in, hi_in in *.
    pose proof (rq_p _ _ _ _ Hrq). pose proof (eu_bounds i ltac:(destruct Hrq; lia)).
    apply sub_app_split; lia.
Qed.

Lemma concat_pieces a b p q : request a b p q →
  concat (piece a b <$> seqZ p (q - p + 1)) = sub a b uncomp.
Proof.
  intros Hrq. pose proof (rq_p _ _ _ _ Hrq). pose proof (rq_a _ _ _ _ Hrq).
  pose proof (concat_pieces_from a b p q (Z.to_nat (q - p)) p Hrq ltac:(lia) ltac:(lia)) as Hc.
  rewrite Z2Nat.id in Hc by lia. rewrite Hc. f_equal. lia.
Qed.

Lemma index_fmap_seqZ (f : Z → Z) p k j : 0 ≤ j < k → index (f <$> seqZ p k) j = Ok (f (j + p)).
Proof.
  intros Hj. apply index_ok; [lia|]. rewrite list_lookup_fmap, lookup_seqZ_lt by lia.
  simpl. do 2 f_equal. lia.
Qed.

Lemma wp_span_job (g : Prop) a b p q idx j m :
  request a b p q → 0 ≤ j ≤ q - p → sm_inv None m → (g → good m) →
  wp (span_job (mkSpanInfo p q (lo_in a <$> seqZ p (q - p + 1))
                (hi_in b <$> seqZ p (q - p + 1)) idx) j) m
    (λ r m', r = piece a b (p + j) ∧ sm_inv None m' ∧ (g → good m'))
    (λ m', sm_inv None m' ∧ ¬ g).
Proof.
  intros Hrq Hj Hinv Hg. destruct (request_bounds a b p q (p + j) Hrq) as (H1 & H2 & _); [lia|].
  pose proof (rq_q _ _ _ _ Hrq). pose proof (rq_p _ _ _ _ Hrq). pose proof (zl_n (ZinfoLaws:=HL)).
  unfold span_job. simpl. rewrite !index_fmap_seqZ by lia.
  apply wp_bind. unfold wp at 1, st_lift. apply wp_bind. unfold wp at 1.
  rewrite int32_id by (unfold in_int32; lia). rewrite (Z.add_comm j p).
  eapply wp_mono; [apply (wp_getSpanContent g); [lia|lia|lia|done|done]| |done].
  intros r m' (-> & ? & ?). split_and!; [|done|done]. unfold piece, lo_in, hi_in. f_equal; lia.
Qed.

(** Whatever the order of the goroutines, the readers hold their pieces at the end. *)
Lemma wp_run_jobs (g : Prop) a b p q idx sched readers ferr m :
  request a b p q → sm_inv None m → (g → good m) → (g → ferr = None) →
  zlen readers = q - p + 1 → Forall (λ j, Z.of_nat j ≤ q - p) sched →
  (∀ j, Z.of_nat j ≤ q - p → j ∉ sched → ferr = None →
     readers !! j = Some (piece a b (p + Z.of_nat j))) →
  wp (run_jobs (mkSpanInfo p q (lo_in a <$> seqZ p (q - p + 1))
                (hi_in b <$> seqZ p (q - p + 1)) idx) sched readers ferr) m
    (λ rs m', rs = piece a b <$> seqZ p (q - p + 1) ∧ sm_inv None m' ∧ (g → good m'))
    (λ m', sm_inv None m' ∧ ¬ g).
Proof.
  intros Hrq. revert readers ferr m. induction sched as [|j sched IH];
    intros readers ferr m Hinv Hg Hferr Hlen Hall Hdone; cbn [run_jobs].
  - destruct ferr as [e|]; [split; [done|]; by intros ?%Hferr|].
    split_and!; [|done|done]. apply list_eq. intros j. rewrite list_lookup_fmap.
    destruct (decide (Z.of_nat j ≤ q - p)) as [Hj|Hj].
    + rewrite lookup_seqZ_lt by lia. rewrite Hdone; [done|done|by apply not_elem_of_nil|done].
    + rewrite lookup_seqZ_ge by lia. apply lookup_ge_None_2. unfold zlen in Hlen. lia.
  - apply Forall_cons in Hall as [Hj Hall].
    pose proof (wp_span_job g a b p q idx (Z.of_nat j) m Hrq ltac:(lia) Hinv Hg) as Hjob.
    unfold wp in Hjob |- *. destruct (span_job _ _ m) as [[r|e|] m']; [| |done].
    + destruct Hjob as (-> & Hinv' & Hg'). apply IH; try done.
      * unfold zlen in *. by rewrite length_insert.
      * intros j' Hj' Hnot Hf'. destruct (decide (j = j')) as [<-|Hne].
        -- apply list_lookup_insert_eq. unfold zlen in Hlen. lia.
        -- rewrite list_lookup_insert_ne by done. apply Hdone; [done| |done].
           rewrite not_elem_of_cons. auto.
    + destruct Hjob as (Hinv' & Hng). apply IH; try done.
      intros j' Hj' Hnot Hf'. destruct ferr; done.
Qed.

(** *** Theorems *)
Lemma wp_GetContents (g : Prop) order a b m :
  (∀ k, order k ≡ₚ seq 0 k) → 0 ≤ a ≤ b → b < zlen uncomp → sm_inv None m → (g → good m) →
  wp (GetContents order a b) m
    (λ r m', r = sub a b uncomp ∧ sm_inv None m' ∧ (g → good m'))
    (λ m', sm_inv None m' ∧ ¬ g).
Proof.
  intros Hord Ha Hb Hinv Hg.
  destruct (getSpanInfo_spec None a b m Ha Hb Hinv) as (p & q & idx & Hrq & Hsi).
  pose proof (rq_q _ _ _ _ Hrq). pose proof (rq_p _ _ _ _ Hrq). pose proof (zl_n (ZinfoLaws:=HL)).
  unfold GetContents. apply wp_bind. unfold wp at 1, st_get. apply wp_bind.
  unfold wp at 1, st_lift. rewrite Hsi. cbn [si_spanStart si_spanEnd].
  apply wp_bind. rewrite int32_id by (unfold in_int32; lia). unfold make_slice.
  destruct (Z.ltb_spec (q - p + 1) 0); [lia|]. unfold wp at 1. rewrite length_replicate.
  apply wp_bind. eapply wp_mono; [apply (wp_run_jobs g a b); try done| |done].
  - by rewrite zlen_replicate by lia.
  - rewrite Hord. apply Forall_seq. lia.
  - intros j Hj Hnot. destruct Hnot. rewrite Hord. apply elem_of_seq. lia.
  - intros rs m' (-> & ? & ?). split_and!; [|done|done]. by apply concat_pieces.
Qed.


Lemma FetchSingleSpan_spec i m : 0 ≤ i ≤ n → sm_inv None m →
  match FetchSingleSpan i m with
  | (Ok _, m') => sm_inv None m' ∧
      ((span_state m i unrequested ∧ span_state m' i fetched ∧
        view (sm_cache m') !! key i = Some (comp_span i)) ∨
       (¬ span_state m i unrequested ∧ m' = m))
  | (Err _, m') => sm_inv None m' ∧ ¬ good m
  | (Panic, _) => False
  end.
Proof.
  intros Hi Hinv. destruct (smi_spans _ _ Hinv i Hi) as (s & Hs & Hok).
  unfold FetchSingleSpan, st_bind, st_get, get_span, st_ret. rewrite (smi_max _ _ Hinv).
  destruct (Z.ltb_spec n i); [lia|]. rewrite Hs.
  unfold checkState. destruct (decide (state s = unrequested)) as [Hst|Hst].
  - rewrite bool_decide_true by done. simpl.
    pose proof (wp_fetchAndCacheSpan (good m) i false m Hi Hinv ltac:(by exists s) ltac:(done)) as Hwp.
    unfold wp in Hwp. destruct (fetchAndCacheSpan i false m) as [[] m']; [|done|done].
    destruct Hwp as (_ & Hinv' & _ & Hst' & _). split; [done|]. left.
    split_and!; [by exists s|done|]. destruct Hst' as (s' & Hs' & Est').
    destruct (smi_spans _ _ Hinv' i Hi) as (s'' & Hs'' & Hok').
    assert (s'' = s') as -> by congruence. destruct Hok' as (_ & _ & _ & _ & _ & Hv).
    rewrite Est' in Hv. apply Hv.
  - rewrite bool_decide_false by done. simpl. split; [done|]. right. split; [|done].
    intros (s' & ? & ?). congruence.
Qed.

(** Background fetching.  [FetchSingleSpan] moves an [unrequested] span to [fetched]
    with its verified compressed bytes in the cache, leaves every other state alone, and
    keeps the invariant when it fails. *)
Theorem FetchSingleSpan_correct i m :
  0 ≤ i ≤ n → sm_inv None m →
  match FetchSingleSpan i m with
  | (Ok _, m') => sm_inv None m' ∧
      ((span_state m i unrequested ∧ span_state m' i fetched ∧
        view (sm_cache m') !! key i = Some (comp_span i)) ∨
       (¬ span_state m i unrequested ∧ m' = m))
  | (Err _, m') => sm_inv None m' ∧ ¬ good m
  | (Panic, _) => False
  end.
Proof. apply FetchSingleSpan_spec. Qed.

(** [ResolveSpan] fetches and uncompresses an [unrequested] span, is a no-op on an
    [uncompressed] one, and always fails on a span the background fetcher has fetched. *)
Theorem ResolveSpan_cases i m :
  0 ≤ i ≤ n → sm_inv None m →
  (span_state m i uncompressed → ResolveSpan i m = (Ok tt, m)) ∧
  (span_state m i fetched →
     ResolveSpan i m = (Err (Wrap "" errInvalidSpanStateTransition), m)) ∧
  (span_state m i unrequested → good m →
     ∃ m', ResolveSpan i m = (Ok tt, m') ∧ sm_inv None m' ∧ span_state m' i uncompressed).
Proof.
  intros Hi Hinv. unfold ResolveSpan, st_bind, st_get, get_span, st_ret.
  rewrite (smi_max _ _ Hinv). destruct (Z.ltb_spec n i); [lia|].
  split_and!; intros (s & Hs & Hst); rewrite Hs; unfold checkState.
  - by rewrite bool_decide_true.
  - rewrite bool_decide_false by congruence.
    unfold fetchAndCacheSpan, st_bind, get_span, span_setState, setState, validateStateTransition.
    rewrite Hs, Hst. done.
  - intros Hg. rewrite bool_decide_false by congruence.
    pose proof (wp_fetchAndCacheSpan True i true m Hi Hinv ltac:(by exists s) ltac:(done)) as Hwp.
    unfold wp in Hwp. destruct (fetchAndCacheSpan i true m) as [[] m']; naive_solver.
Qed.

(** *** Histories *)
Inductive sm_op :=
| OpFetch (i : SpanID)
| OpResolve (i : SpanID)
| OpGet (order : nat → list nat) (a b : Offset).

(** The calls clients make: spans are not negative and ranges lie inside the layer. *)
Definition sm_op_ok (o : sm_op) : Prop :=
  match o with
  | OpFetch i | OpResolve i => 0 ≤ i
  | OpGet order a b => (∀ k, order k ≡ₚ seq 0 k) ∧ 0 ≤ a ≤ b ∧ b < zlen uncomp
  end.

Definition run_sm_op (o : sm_op) : ST SM () :=
  match o with
  | OpFetch i => FetchSingleSpan i
  | OpResolve i => ResolveSpan i
  | OpGet order a b => GetContents order a b;;; st_ret tt
  end.

Lemma sm_op_inv o m : sm_op_ok o → sm_inv None m →
  (run_sm_op o m).1 ≠ Panic ∧ sm_inv None (run_sm_op o m).2.
Proof.
  intros Ho Hinv. destruct o as [i|i|order a b]; simpl in *.
  - destruct (decide (i ≤ n)) as [Hi|Hi].
    + pose proof (FetchSingleSpan_spec i m ltac:(lia) Hinv) as Hs.
      destruct (FetchSingleSpan i m) as [[] m']; naive_solver.
    + unfold FetchSingleSpan, st_bind, st_get. rewrite (smi_max _ _ Hinv).
      by destruct (Z.ltb_spec n i); [|lia].
  - unfold ResolveSpan, st_bind, st_get, get_span. rewrite (smi_max _ _ Hinv).
    destruct (Z.ltb_spec n i); [done|].
    destruct (smi_spans _ _ Hinv i ltac:(lia)) as (s & Hs & Hok). rewrite Hs.
    unfold checkState. destruct (decide (state s = uncompressed)).
    { by rewrite bool_decide_true. }
    rewrite bool_decide_false by done.
    destruct (decide (state s = unrequested)) as [Hu|Hu].
    + pose proof (wp_fetchAndCacheSpan False i true m ltac:(lia) Hinv ltac:(by exists s) ltac:(done)) as Hw.
      unfold wp in Hw. destruct (fetchAndCacheSpan i true m) as [[] m']; naive_solver.
    + unfold fetchAndCacheSpan, st_bind, get_span, span_setState, setState, validateStateTransition.
      rewrite Hs, bool_decide_false; [done|]. destruct (state s); set_solver.
  - destruct Ho as (Ho & Ha & Hb). unfold st_bind.
    pose proof (wp_GetContents False order a b m Ho Ha Hb Hinv ltac:(done)) as Hw.
    unfold wp in Hw. destruct (GetContents order a b m) as [[] m']; naive_solver.
Qed.

Definition run_sm_ops (ops : list sm_op) m : SM := foldl (λ m o, (run_sm_op o m).2) m ops.

Lemma sm_ops_inv ops m : Forall sm_op_ok ops → sm_inv None m → sm_inv None (run_sm_ops ops m).
Proof.
  intros Hops. revert m. induction Hops as [|o ops Ho Hops IH]; intros m Hinv; [done|].
  simpl. apply IH. by apply sm_op_inv.
Qed.

(** *** Construction *)

(** The ztoc describes the layer, as [BuildZtoc] makes it. *)
Record ztoc_describes (zt : Ztoc Time) : Prop := {
  zd_max : MaxSpanID_ (CInfo zt) = n;
  zd_digests : SpanDigests (CInfo zt) =
    (λ i, digest_FromBytes (comp_span i)) <$> seqZ 0 (n + 1);
  zd_csize : CompressedArchiveSize zt = zlen comp;
  zd_usize : UncompressedArchiveSize zt = zlen uncomp
}.

Lemma build_spans_spec (k : nat) i : 0 ≤ i → i + Z.of_nat k = n + 1 →
  build_spans zi n (zlen comp) (zlen uncomp) i k =
    Ok ((λ j, mkSpan j (sc j) (ec j) (su j) (eu j) unrequested) <$> seqZ i (Z.of_nat k)).
Proof.
  revert i. induction k as [|k IH]; intros i Hi Hk; [done|]. cbn [build_spans].
  rewrite (zl_startC (ZinfoLaws:=HL)), (zl_endC (ZinfoLaws:=HL)), (zl_startU (ZinfoLaws:=HL)),
    (zl_endU (ZinfoLaws:=HL)) by lia. cbn [mbind outcome_bind].
  assert ((i <? n) && ((ec i <=? sc i) || (eu i <=? su i)) = false) as ->.
  { destruct (Z.ltb_spec i n); [|done]. pose proof (zl_comp_mono (ZinfoLaws:=HL) i ltac:(lia)).
    rewrite eu_next by lia. pose proof (zl_mono (ZinfoLaws:=HL) i ltac:(lia)).
    destruct (Z.leb_spec (ec i) (sc i)), (Z.leb_spec (su (i + 1)) (su i)); lia || done. }
  rewrite IH by lia. cbn [mbind outcome_bind]. rewrite (seqZ_cons i) by lia.
  rewrite fmap_cons. do 4 f_equal; lia.
Qed.

Lemma New_with_spec zt r c retries m :
  ztoc_describes zt → cache_ok c → retries < 2 ^ 63 - 1 →
  New_with zi zt r c retries = Ok m → sm_inv None m.
Proof.
  intros [Hm Hd Hcs' Hus] Hc Hr HN. pose proof (zl_n (ZinfoLaws:=HL)) as Hn.
  unfold New_with in HN. rewrite (zl_max (ZinfoLaws:=HL)), Hm in HN. cbn [mbind outcome_bind] in HN.
  destruct (negb (n =? n)); [done|]. destruct (negb _); [done|].
  destruct (StartCompressedOffset zi 0) as [hdr|e|]; [|done|done]. cbn [mbind outcome_bind] in HN.
  destruct (make_slice hdr _) as [zero|e|]; [|done|done]. cbn [mbind outcome_bind] in HN.
  destruct (SectionReader_Read hdr r) as [[got err] r']. destruct err; [done|].
  destruct (VerifyHeader zi _) as [[]|e|]; [|done|done]. cbn [map_err mbind outcome_bind] in HN.
  destruct (make_slice _ _) as [?|e|]; [|done|done]. cbn [mbind outcome_bind] in HN.
  unfold buildAllSpans in HN. cbn [sm_zinfo sm_ztoc] in HN. unfold MaxSpan in HN. simpl in HN.
  rewrite Hm, Hcs', Hus, build_spans_spec in HN by lia. injection HN as <-.
  split; unfold MaxSpan, Digests; simpl; try done.
  - rewrite Hd. unfold zlen. rewrite length_fmap, length_seqZ. lia.
  - intros i Hi. rewrite Hd. apply index_ok; [lia|].
    rewrite list_lookup_fmap, lookup_seqZ_lt by lia. simpl. do 3 f_equal. lia.
  - unfold zlen. rewrite length_fmap, length_seqZ. lia.
  - intros i Hi. eexists. split.
    + apply index_ok; [lia|]. rewrite list_lookup_fmap, lookup_seqZ_lt by lia. done.
    + simpl. replace (0 + Z.of_nat (Z.to_nat i)) with i by lia. by split_and!.
  - unfold defaultSpanVerificationFailureRetries. destruct (Z.ltb_spec retries 0); lia.
Qed.
End correctness.

(** ** Against any layer reader *)
Section hostile.
Context {T C W R Time : Type}.
Context `{HZ : Zinfo T} `{HB : BlobCache C W} `{HR : ReaderAt R} `{HD : Digester}.
Context `{HC : !BlobCacheLaws C W}.
Context {zi : T} {comp uncomp : bytes} {n : Z} {su sc ec : Z → Z}.
Context {HL : ZinfoLaws zi comp uncomp n su sc ec}.
Implicit Types m : SpanManager T C R Time.

(** No reader is trusted; [LostCommit] has the theorems. *)
Definition nobody_honest : HonestReader R comp.
Proof. refine {| honest _ := False |}. done. Defined.
End hostile.

(** ** Retries

    A reader whose state counts its calls and whose [k]-th answer is [answers k]. *)
Definition scripted (answers : nat → bytes) : ReaderAt nat :=
  {| ReadAt n off r := ((answers r, None), S r) |}.

Section retries.
Context {T C W Time : Type} (answers : nat → bytes).
Context `{HZ : Zinfo T} `{HB : BlobCache C W} `{HD : Digester}.
Context `{HC : !BlobCacheLaws C W}.
Context {zi : T} {comp uncomp : bytes} {n : Z} {su sc ec : Z → Z}.
Context {HL : ZinfoLaws zi comp uncomp n su sc ec}.
Context (Hf : fits (comp:=comp) (uncomp:=uncomp)).
Implicit Types m : SpanManager T C nat Time.
#[local] Instance answering : ReaderAt nat := scripted answers.

Definition verifies (i : Z) (b : bytes) : bool :=
  String.eqb (digest_FromBytes b) (digest_FromBytes (sub (sc i) (ec i) comp)).

(** The first of the [tries] answers from number [r] on that verifies. *)
Fixpoint first_good (i : Z) (r tries : nat) : option nat :=
  match tries with
  | O => None
  | S tries' => if verifies i (answers r) then Some r else first_good i (S r) tries'
  end.

Definition after_reads (r : nat) m : SpanManager T C nat Time :=
  set_reader (mkSR r (sr_off (sm_r m)) (sr_limit (sm_r m))) m.

Lemma fetch_loop_scripted i tries last m :
  0 ≤ i ≤ n → sc i < ec i → sr_limit (sm_r m) = zlen comp →
  zlen (Digests m) = n + 1 →
  index (Digests m) i = Ok (digest_FromBytes (sub (sc i) (ec i) comp)) →
  (∀ k, zlen (answers k) = ec i - sc i) → (last = None → (0 < tries)%nat) →
  fetch_loop tries i (sc i) (ec i - sc i) last m =
    match first_good i (sr_r (sm_r m)) tries with
    | Some k => (Ok (answers k), after_reads (S k) m)
    | None => (Err (if decide (tries = 0%nat) then default io_EOF last
                    else Wrap "expected digest differs" ErrIncorrectSpanDigest),
               after_reads (sr_r (sm_r m) + tries) m)
    end.
Proof.
  intros Hi Hne. destruct (zl_comp (ZinfoLaws:=HL) i Hi) as [Hb1 Hb2].
  revert last m. induction tries as [|tries IH]; intros last m Hlim Hlen Hd Hsz Hlast.
  - destruct last as [e|]; [|specialize (Hlast eq_refl); lia]. simpl.
    rewrite Nat.add_0_r. by destruct m as [? ? [] ? ? ? ?].
  - cbn [fetch_loop first_good]. unfold st_bind at 1. unfold on_reader, SectionReader_ReadAt.
    rewrite Hlim. destruct (Z.ltb_spec (sc i) 0), (Z.leb_spec (zlen comp) (sc i)); [lia..|]. simpl orb.
    destruct (Z.ltb_spec (zlen comp - sc i) (ec i - sc i)); [lia|]. simpl ReadAt.
    cbn [st_bind st_ret]. rewrite Hsz, Z.eqb_refl.
    cbn [negb]. cbv beta. rewrite (verify_iff (HL:=HL) i) by done. unfold verifies, comp_span.
    destruct (String.eqb _ _); [by rewrite <-Hlim|].
    rewrite IH by done. simpl.
    destruct (first_good i (S (sr_r (sm_r m))) tries); [by rewrite <-Hlim|].
    rewrite <-Hlim. f_equal; [by destruct tries|].
    unfold after_reads, set_reader. simpl. by rewrite Nat.add_succ_r.
Qed.

(** Retries.  A span is asked for at most [maxSpanVerificationFailureRetries + 1]
    times; the first answer that verifies is returned without further requests, and when
    none does the call fails with [ErrIncorrectSpanDigest] after exactly that many. *)
Theorem fetch_retries busy i m :
  0 ≤ i ≤ n → sc i < ec i → sm_inv (zi:=zi) (comp:=comp) (uncomp:=uncomp) (n:=n)
    (su:=su) (sc:=sc) (ec:=ec) busy m →
  sr_limit (sm_r m) = zlen comp → (∀ k, zlen (answers k) = ec i - sc i) →
  let tries := Z.to_nat (maxSpanVerificationFailureRetries m + 1) in
  fetchSpanWithRetries i m =
    match first_good i (sr_r (sm_r m)) tries with
    | Some k => (Ok (answers k), after_reads (S k) m)
    | None => (Err (Wrap "expected digest differs" ErrIncorrectSpanDigest),
               after_reads (sr_r (sm_r m) + tries) m)
    end.
Proof.
  intros Hi Hne Hinv Hlim Hsz tries. destruct (smi_spans _ _ Hinv i Hi) as (s & Hs & Hok).
  destruct Hok as (_ & Hsc & Hec & _). pose proof (smi_retries _ _ Hinv).
  destruct (zl_comp (ZinfoLaws:=HL) i Hi) as [Hb1 Hb2]. destruct Hf as [Hf1 _].
  unfold fetchSpanWithRetries, st_bind, get_span, st_lift, st_get. rewrite Hs, Hsc, Hec.
  rewrite (int64_id (ec i - sc i)) by (unfold in_int64; lia). unfold make_slice.
  destruct (Z.ltb_spec (ec i - sc i) 0); [lia|].
  rewrite (int64_id (_ + 1)) by (unfold in_int64; lia). fold tries.
  rewrite fetch_loop_scripted; try done.
  - destruct (first_good _ _ _); [done|]. rewrite decide_False by lia. done.
  - apply Hinv.
  - by apply (smi_digests _ _ Hinv).
  - lia.
Qed.
End retries.

(** ** Validation *)
Section validation.
Context {T C W R Time : Type}.
Context `{HZ : Zinfo T} `{HB : BlobCache C W} `{HR : ReaderAt R} `{HD : Digester}.

Lemma build_spans_inv (zinfo : T) mx cs us (k : nat) i ss :
  build_spans zinfo mx cs us i k = Ok ss →
  length ss = k ∧ ∀ j s, ss !! j = Some s →
    id s = i + Z.of_nat j ∧ state s = unrequested ∧
    (id s < mx → startCompOffset s < endCompOffset s ∧ startUncompOffset s < endUncompOffset s).
Proof.
  revert i ss. induction k as [|k IH]; intros i ss Hb; cbn [build_spans] in Hb.
  { by simplify_eq. }
  destruct (StartCompressedOffset zinfo i) as [sc|e|]; try done; cbn [mbind outcome_bind] in Hb.
  destruct (EndCompressedOffset zinfo i cs) as [ec|e|]; try done; cbn [mbind outcome_bind] in Hb.
  destruct (StartUncompressedOffset zinfo i) as [su|e|]; try done; cbn [mbind outcome_bind] in Hb.
  destruct (EndUncompressedOffset zinfo i us) as [eu|e|]; try done; cbn [mbind outcome_bind] in Hb.
  destruct ((i <? mx) && _) eqn:Echk; [done|].
  destruct (build_spans zinfo mx cs us (i + 1) k) as [ss'|e|] eqn:E; try done.
  injection Hb as <-. apply IH in E as [Hlen Hss]. split; [simpl; lia|].
  intros [|j] s Hs; simpl in Hs.
  - injection Hs as <-. simpl. split_and!; [lia|done|]. intros Hlt.
    apply andb_false_iff in Echk as [?%Z.ltb_ge|[?%Z.leb_gt ?%Z.leb_gt]%orb_false_iff]; lia.
  - apply Hss in Hs as (-> & ? & ?). split_and!; [lia|done|done].
Qed.

(** [New] validates.  Whatever the ztoc and its zinfo say, a span manager is only
    built when the ztoc's span count and number of digests agree with the zinfo and every
    span but the last has a non-empty compressed and uncompressed range; all spans start
    out [unrequested], and a negative number of retries is replaced by the default. *)
Theorem New_validates (index : T) (zt : Ztoc Time) (r : SectionReader R) (c : C) retries m :
  New_with index zt r c retries = Ok m →
  MaxSpanID index = Ok (MaxSpanID_ (CInfo zt)) ∧
  int32 (zlen (SpanDigests (CInfo zt))) = int32 (MaxSpanID_ (CInfo zt) + 1) ∧
  length (spans m) = Z.to_nat (MaxSpanID_ (CInfo zt) + 1) ∧
  maxSpanVerificationFailureRetries m = (if retries <? 0 then 3 else retries) ∧
  ∀ j s, spans m !! j = Some s → id s = Z.of_nat j ∧ state s = unrequested ∧
    (id s < MaxSpanID_ (CInfo zt) →
     startCompOffset s < endCompOffset s ∧ startUncompOffset s < endUncompOffset s).
Proof.
  unfold New_with. intros HN.
  destruct (MaxSpanID index) as [mx|e|]; try done. cbn [mbind outcome_bind] in HN.
  destruct (Z.eqb_spec (MaxSpanID_ (CInfo zt)) mx) as [Hmx|]; [|done]. cbn [negb] in HN.
  subst mx. destruct (Z.eqb_spec (int32 (zlen (SpanDigests (CInfo zt)))) (int32 (MaxSpanID_ (CInfo zt) + 1))) as [Hd|]; [|done].
  cbn [negb] in HN.
  destruct (StartCompressedOffset index 0) as [hdr|e|]; try done. cbn [mbind outcome_bind] in HN.
  destruct (make_slice hdr _) as [zero|e|]; try done. cbn [mbind outcome_bind] in HN.
  destruct (SectionReader_Read hdr r) as [[got err] r']. destruct err; [done|].
  destruct (VerifyHeader index _) as [[]|e|]; try done. cbn [map_err mbind outcome_bind] in HN.
  destruct (make_slice _ _) as [?|e|]; try done. cbn [mbind outcome_bind] in HN.
  unfold buildAllSpans in HN. cbn [sm_zinfo sm_ztoc] in HN.
  destruct (build_spans index _ _ _ 0 _) as [ss|e|] eqn:Eb; try done. injection HN as <-.
  apply build_spans_inv in Eb as [Hlen Hss]. unfold MaxSpan in *. simpl in *.
  split_and!; done.
Qed.
End validation.
