(* ===== verification/Encoders.v ===== *)
(** * Integer encodings of the databases

    Models [util/dbutil/encoders.go], the encoders of [metadata/db.go], and what they use
    of [encoding/binary]: unsigned and zig-zag varints of 64 bits, big-endian ids. *)
From Stdlib Require Import ZArith Lia.
From Stdlib Require Import Strings.Byte.
From stdpp Require Import base list gmap strings numbers.
From S2P Require Import Prelude GoLib.
#[local] Open Scope Z_scope.

(** ** [encoding/binary] *)
Definition MaxVarintLen64 : nat := 10.

(** [fuel] bytes may still follow the first one. *)
Fixpoint put_uvarint (fuel : nat) (x : Z) : bytes :=
  match fuel with
  | O => [byte_of_Z x]
  | S fuel' =>
      if x <? 128 then [byte_of_Z x]
      else byte_of_Z (Z.lor (x `mod` 256) 128) :: put_uvarint fuel' (Z.shiftr x 7)
  end.

(** A uint64 needs at most [MaxVarintLen64] bytes. *)
Definition PutUvarint (x : Z) : bytes := put_uvarint 9 x.

(** The loop at byte [i], with the value [x] so far and shift [s]. *)
Fixpoint uvarint_loop (buf : bytes) (i : nat) (x s : Z) : Z * Z :=
  match buf with
  | [] => (0, 0)
  | b :: buf' =>
      if (i =? MaxVarintLen64)%nat then (0, - (Z.of_nat i + 1))
      else if byte_to_Z b <? 128 then
        if (i =? MaxVarintLen64 - 1)%nat && (1 <? byte_to_Z b) then (0, - (Z.of_nat i + 1))
        else (Z.lor x (uint64 (Z.shiftl (byte_to_Z b) s)), Z.of_nat i + 1)
      else uvarint_loop buf' (S i)
             (Z.lor x (uint64 (Z.shiftl (Z.land (byte_to_Z b) 127) s))) (s + 7)
  end.

Definition Uvarint (buf : bytes) : Z * Z := uvarint_loop buf 0 0 0.

Definition PutVarint (x : Z) : bytes :=
  let ux := uint64 (Z.shiftl (uint64 x) 1) in
  PutUvarint (if x <? 0 then uint64 (Z.lnot ux) else ux).

Definition Varint (buf : bytes) : Z * Z :=
  let '(ux, n) := Uvarint buf in
  let x := int64 (Z.shiftr ux 1) in
  (if Z.land ux 1 =? 0 then x else Z.lnot x, n).

(** ** [dbutil] *)
Definition EncodeInt (i : Z) : outcome bytes :=
  let iEncoded := PutVarint i in
  if zlen iEncoded =? 0 then Err (ErrorString "failed encoding integer") else Ok iEncoded.

Definition DecodeInt (data : bytes) : outcome Z :=
  let '(i, n) := Varint data in
  if i =? 0 then
    if n =? 0 then Err (ErrorString "not enough data")
    else if n <? 0 then Err (ErrorString "data overflows int64")
    else Ok i
  else Ok i.

(** ** [metadata/db.go] *)
Definition encodeUint (i : Z) : outcome bytes :=
  let iEncoded := PutUvarint i in
  if zlen iEncoded =? 0 then Err (ErrorString "failed encoding integer") else Ok iEncoded.

Definition encodeID (id : Z) : bytes := be_enc 4 id.
(** [binary.BigEndian.Uint32] panics on fewer than four bytes. *)
Definition decodeID (b : bytes) : outcome Z :=
  if zlen b <? 4 then Panic else Ok (be_dec (take 4 b)).

(** ** Round trips *)
Lemma lor_disjoint a b s : 0 ≤ s → 0 ≤ a < 2 ^ s → 0 ≤ b → Z.lor a (Z.shiftl b s) = a + b * 2 ^ s.
Proof.
  intros Hs Ha Hb. rewrite Z.shiftl_mul_pow2 by lia.
  rewrite <-Z.add_lor_land.
  assert (Z.land a (b * 2 ^ s) = 0) as ->; [|lia].
  apply Z.bits_inj'. intros i Hi. rewrite Z.land_spec, Z.bits_0.
  destruct (Z.lt_ge_cases i s).
  - by rewrite (Z.mul_pow2_bits_low b s i), andb_false_r by lia.
  - destruct (decide (a = 0)) as [->|]; [by rewrite Z.bits_0|].
    rewrite (Z.bits_above_log2 a i); [done|lia|]. apply Z.log2_lt_pow2; [lia|]. pose proof (Z.pow_le_mono_r 2 s i). lia.
Qed.

Lemma lor_128 r : 0 ≤ r < 256 → Z.lor r 128 = r `mod` 128 + 128.
Proof.
  intros Hr.
  assert (Forall (λ r, Z.lor r 128 = r `mod` 128 + 128) (seqZ 0 256)) as Hall.
  { apply (bool_decide_eq_true_1 _). by vm_compute. }
  rewrite list.Forall_forall in Hall. apply Hall, elem_of_seqZ. lia.
Qed.

(** A continuation byte holds the low seven bits. *)
Lemma low_byte x : byte_to_Z (byte_of_Z (Z.lor (x `mod` 256) 128)) = x `mod` 128 + 128.
Proof.
  rewrite byte_to_of_Z, lor_128 by (apply Z.mod_pos_bound; lia).
  rewrite Z.mod_mod_divide by (by exists 2).
  apply Z.mod_small. pose proof (Z.mod_pos_bound x 128 ltac:(lia)). lia.
Qed.

Lemma low_seven x : Z.land (x `mod` 128 + 128) 127 = x `mod` 128.
Proof.
  change 127 with (Z.ones 7). rewrite Z.land_ones by lia. change (2 ^ 7) with 128.
  rewrite <-Z.add_mod_idemp_r, Z.mod_same, Z.add_0_r, Z.mod_mod by lia. done.
Qed.

Lemma uvarint_loop_put (fuel i : nat) a x rest :
  (fuel + i = 9)%nat → 0 ≤ a < 2 ^ (7 * Z.of_nat i) → 0 ≤ x < 2 ^ (64 - 7 * Z.of_nat i) →
  uvarint_loop (put_uvarint fuel x ++ rest) i a (7 * Z.of_nat i) =
    (a + x * 2 ^ (7 * Z.of_nat i), Z.of_nat i + zlen (put_uvarint fuel x)).
Proof.
  revert i a x. induction fuel as [|fuel IH]; intros i a x Hi Ha Hx.
  - assert (i = 9%nat) as -> by lia. change (2 ^ (64 - 7 * Z.of_nat 9)) with 2 in Hx.
    cbn [put_uvarint app uvarint_loop]. rewrite byte_to_of_Z, (Z.mod_small x) by lia.
    destruct (Z.ltb_spec x 128); [|lia]. destruct (Z.ltb_spec 1 x); [lia|].
    simpl ((_ =? _)%nat && _). cbn [andb Nat.eqb MaxVarintLen64].
    rewrite uint64_id by (rewrite Z.shiftl_mul_pow2 by lia; unfold in_uint64; simpl (7 * Z.of_nat 9); lia).
    by rewrite lor_disjoint by lia.
  - assert (2 ^ (64 - 7 * Z.of_nat i) * 2 ^ (7 * Z.of_nat i) = 2 ^ 64) as Hpow.
    { rewrite <-Z.pow_add_r by lia. f_equal. lia. }
    assert (∀ y, 0 ≤ y ≤ x → in_uint64 (Z.shiftl y (7 * Z.of_nat i))) as Hsmall.
    { intros y Hy. rewrite Z.shiftl_mul_pow2 by lia. unfold in_uint64. nia. }
    assert ((i =? MaxVarintLen64)%nat = false) as E1 by (apply Nat.eqb_neq; unfold MaxVarintLen64; lia).
    assert ((i =? MaxVarintLen64 - 1)%nat = false) as E2 by (apply Nat.eqb_neq; unfold MaxVarintLen64; lia).
    cbn [put_uvarint]. destruct (Z.ltb_spec x 128) as [Hlt|Hge]; cbn [app uvarint_loop]; rewrite E1.
    + rewrite byte_to_of_Z, (Z.mod_small x) by lia. destruct (Z.ltb_spec x 128); [|lia].
      rewrite E2. cbn [andb]. rewrite uint64_id by (apply Hsmall; lia).
      by rewrite lor_disjoint by lia.
    + pose proof (Z.mod_pos_bound x 128 ltac:(lia)). pose proof (Z.div_mod x 128 ltac:(lia)).
      rewrite low_byte, low_seven. destruct (Z.ltb_spec (x `mod` 128 + 128) 128); [lia|].
      rewrite uint64_id by (apply Hsmall; lia). rewrite lor_disjoint by lia.
      rewrite Z.shiftr_div_pow2 by lia. change (2 ^ 7) with 128.
      assert (2 ^ (7 * Z.of_nat (S i)) = 128 * 2 ^ (7 * Z.of_nat i)) as HS.
      { replace (7 * Z.of_nat (S i)) with (7 + 7 * Z.of_nat i) by lia. by rewrite Z.pow_add_r by lia. }
      replace (7 * Z.of_nat i + 7) with (7 * Z.of_nat (S i)) by lia.
      rewrite IH; [| lia | rewrite HS; nia |].
      * rewrite zlen_cons, HS. f_equal; [nia|lia].
      * split; [lia|]. apply Z.div_lt_upper_bound; [lia|].
        replace (64 - 7 * Z.of_nat i) with (7 + (64 - 7 * Z.of_nat (S i))) in Hx by lia.
        rewrite Z.pow_add_r in Hx by lia. change (2 ^ 7) with 128 in Hx. lia.
Qed.

Lemma Uvarint_put x rest : in_uint64 x → Uvarint (PutUvarint x ++ rest) = (x, zlen (PutUvarint x)).
Proof.
  intros Hx. unfold Uvarint, PutUvarint.
  change 0 with (7 * Z.of_nat 0) at 2. rewrite (uvarint_loop_put 9 0 0 x rest eq_refl); [|done|exact Hx].
  f_equal. lia.
Qed.

Lemma put_uvarint_pos fuel x : 0 < zlen (put_uvarint fuel x).
Proof. destruct fuel; simpl; [done|]. destruct (x <? 128); [done|]. rewrite zlen_cons. pose proof (zlen_nonneg (put_uvarint fuel (Z.shiftr x 7))). lia. Qed.

(** The zig-zag code of an int64. *)
Definition zigzag (x : Z) : Z := if x <? 0 then - 2 * x - 1 else 2 * x.

Lemma PutVarint_zigzag x : in_int64 x → PutVarint x = PutUvarint (zigzag x) ∧ in_uint64 (zigzag x).
Proof.
  intros Hx. unfold in_int64 in Hx. unfold PutVarint, zigzag. rewrite !Z.shiftl_mul_pow2 by lia.
  change (2 ^ 1) with 2. unfold in_uint64. destruct (Z.ltb_spec x 0).
  - split; [|lia]. f_equal. unfold uint64, wrap_u, Z.lnot.
    rewrite Z.mul_mod_idemp_l by lia.
    rewrite <-Z.sub_1_r. rewrite <-(Zminus_mod_idemp_l _ 1).
    rewrite <-(Z.sub_0_l ((x * 2) `mod` 2 ^ 64)), Zminus_mod_idemp_r, Zminus_mod_idemp_l.
    rewrite Z.mod_small by lia. lia.
  - split; [|lia]. f_equal. rewrite (uint64_id x) by (unfold in_uint64; lia).
    rewrite uint64_id by (unfold in_uint64; lia). lia.
Qed.

Lemma Varint_put x rest : in_int64 x →
  Varint (PutVarint x ++ rest) = (x, zlen (PutVarint x)).
Proof.
  intros Hx. destruct (PutVarint_zigzag x Hx) as [-> Hz].
  unfold Varint. rewrite Uvarint_put by done. f_equal.
  assert (∀ y, Z.land y 1 = y `mod` 2) as Hl by (intros y; by apply (Z.land_ones y 1)).
  unfold in_int64 in Hx. unfold zigzag. destruct (Z.ltb_spec x 0).
  - replace (- 2 * x - 1) with (2 * (- x - 1) + 1) by lia.
    rewrite Z.shiftr_div_pow2 by lia. change (2 ^ 1) with 2.
    rewrite (Z.mul_comm 2), Z.div_add_l, Z.add_0_r by lia.
    rewrite Hl, Z.add_comm, Z.mod_add by lia. simpl. rewrite int64_id by (unfold in_int64; lia).
    unfold Z.lnot. lia.
  - rewrite Z.shiftr_div_pow2 by lia. change (2 ^ 1) with 2.
    rewrite (Z.mul_comm 2), Z.div_mul by lia.
    rewrite Hl, Z.mod_mul by lia. simpl. by apply int64_id.
Qed.

Lemma Varint_put_only x : in_int64 x → (Varint (PutVarint x)).1 = x.
Proof. intros Hx. pose proof (Varint_put x [] Hx) as H. rewrite app_nil_r in H. by rewrite H. Qed.
Lemma Uvarint_put_only x : in_uint64 x → (Uvarint (PutUvarint x)).1 = x.
Proof. intros Hx. pose proof (Uvarint_put x [] Hx) as H. rewrite app_nil_r in H. by rewrite H. Qed.

Lemma EncodeInt_ok x : EncodeInt x = Ok (PutVarint x).
Proof.
  unfold EncodeInt, PutVarint. pose proof (put_uvarint_pos 9
    (if x <? 0 then uint64 (Z.lnot (uint64 (Z.shiftl (uint64 x) 1))) else uint64 (Z.shiftl (uint64 x) 1))) as Hp.
  fold (PutUvarint (if x <? 0 then uint64 (Z.lnot (uint64 (Z.shiftl (uint64 x) 1))) else uint64 (Z.shiftl (uint64 x) 1))) in Hp.
  destruct (Z.eqb_spec (zlen (PutUvarint (if x <? 0 then uint64 (Z.lnot (uint64 (Z.shiftl (uint64 x) 1)))
    else uint64 (Z.shiftl (uint64 x) 1)))) 0); [lia|done].
Qed.

Lemma encodeUint_ok x : encodeUint x = Ok (PutUvarint x).
Proof.
  unfold encodeUint. pose proof (put_uvarint_pos 9 x). fold (PutUvarint x) in *.
  destruct (Z.eqb_spec (zlen (PutUvarint x)) 0); [lia|done].
Qed.

Lemma decode_encodeID id : in_uint32 id → decodeID (encodeID id) = Ok id.
Proof.
  intros Hid. unfold decodeID, encodeID, zlen. rewrite length_be_enc. simpl (_ <? _).
  rewrite take_ge by (rewrite length_be_enc; lia). rewrite be_dec_enc.
  f_equal. apply Z.mod_small. exact Hid.
Qed.

(** What [EncodeInt] stores is what [Varint] and [DecodeInt] read, for every int64 and
    also when other bytes follow, and node ids are decoded back. *)
Theorem integer_encodings_roundtrip x id rest :
  in_int64 x → in_uint32 id →
  EncodeInt x = Ok (PutVarint x) ∧ Varint (PutVarint x ++ rest) = (x, zlen (PutVarint x)) ∧
  DecodeInt (PutVarint x ++ rest) = Ok x ∧ decodeID (encodeID id) = Ok id.
Proof.
  intros Hx Hid. split_and!; [apply EncodeInt_ok|by apply Varint_put| |by apply decode_encodeID].
  unfold DecodeInt. rewrite Varint_put by done. destruct (PutVarint_zigzag x Hx) as [-> _].
  pose proof (put_uvarint_pos 9 (zigzag x)). fold (PutUvarint (zigzag x)) in *. zcases.
Qed.
