(* ===== verification/MetadataDB.v ===== *)
(** * The metadata database

    Models [metadata/metadata.go] ([Attr]) and [metadata/db.go]: how node attributes and
    directory entries are laid out in bbolt buckets, and read back.  A bucket is its
    key/value map with its sub-buckets; the order in which Go ranges over a map is a
    parameter. *)
From Stdlib Require Import ZArith Lia.
From Stdlib Require Import Strings.Byte.
From stdpp Require Import base list gmap strings numbers.
From S2P Require Import Prelude GoLib Compression GzipZinfo Ztoc Encoders.
#[local] Open Scope Z_scope.

(** ** Buckets *)
Record bucket := mkBucket { kv : gmap string bytes; subs : gmap string (gmap string bytes) }.
Definition empty_bucket : bucket := mkBucket ∅ ∅.

Definition ErrKeyRequired := Sentinel "key required".
Definition ErrKeyTooLarge := Sentinel "key too large".
Definition MaxKeySize : Z := 32768.

Definition get (b : bucket) (k : string) : bytes := default [] (kv b !! k).

Definition put_checked (m : gmap string bytes) (k : string) (v : bytes) : outcome (gmap string bytes) :=
  if String.eqb k "" then Err ErrKeyRequired
  else if MaxKeySize <? Z.of_nat (String.length k) then Err ErrKeyTooLarge
  else Ok (<[k := v]> m).

(** [b.Put] with one of the constant keys. *)
Definition put (k : string) (v : bytes) (b : bucket) : bucket :=
  mkBucket (<[k := v]> (kv b)) (subs b).

Definition putInt (k : string) (v : Z) (b : bucket) : outcome bucket :=
  i ← EncodeInt v; Ok (put k i b).

Definition bucketKeySize := "size"%string.
Definition bucketKeyModTime := "modtime"%string.
Definition bucketKeyLinkName := "linkName"%string.
Definition bucketKeyMode := "mode"%string.
Definition bucketKeyUID := "uid"%string.
Definition bucketKeyGID := "gid"%string.
Definition bucketKeyDevMajor := "devMajor"%string.
Definition bucketKeyDevMinor := "devMinor"%string.
Definition bucketKeyXattrKey := "xattrKey"%string.
Definition bucketKeyXattrValue := "xattrValue"%string.
Definition bucketKeyXattrsExtra := "xattrsExtra"%string.
Definition bucketKeyNumLink := "numLink"%string.
Definition bucketKeyChildName := "childName"%string.
Definition bucketKeyChildID := "childID"%string.
Definition bucketKeyChildrenExtra := "childrenExtra"%string.
Definition bucketKeyName := "name"%string.
Definition bucketKeyUncompressedOffset := "uncompressedOffset"%string.
Definition bucketKeyTarHeaderOffset := "tarHeaderOffset"%string.
Definition bucketKeyTarHeaderSize := "tarHeaderSize"%string.

(** ** Attributes *)
Record Attr (Time : Type) := mkAttr {
  a_Size : Z;
  a_ModTime : Time;
  a_LinkName : string;
  a_Mode : Z;
  a_UID : Z;
  a_GID : Z;
  a_DevMajor : Z;
  a_DevMinor : Z;
  a_Xattrs : gmap string bytes;
  a_NumLink : Z
}.
Arguments mkAttr {Time}.
Arguments a_Size {Time}.
Arguments a_ModTime {Time}.
Arguments a_LinkName {Time}.
Arguments a_Mode {Time}.
Arguments a_UID {Time}.
Arguments a_GID {Time}.
Arguments a_DevMajor {Time}.
Arguments a_DevMinor {Time}.
Arguments a_Xattrs {Time}.
Arguments a_NumLink {Time}.

Section attrs.
Context {Time : Type} `{GoTime Time} `{MapRange}.
Implicit Types (attr : Attr Time) (b : bucket).

Definition zeroAttr : Attr Time := mkAttr 0 time_zero "" 0 0 0 0 0 ∅ 0.

(** [if v != 0 { putInt(b, k, v) }], the error of [putInt] dropped. *)
Definition putInt_nonzero (k : string) (v : Z) b : bucket :=
  if v =? 0 then b else match putInt k v b with Ok b' => b' | _ => b end.

(** The loop over the extended attributes that are not the first. *)
Fixpoint put_extras (firstK : string) (xs : list (string * bytes))
    (xbkt : option (gmap string bytes)) : outcome (option (gmap string bytes)) :=
  match xs with
  | [] => Ok xbkt
  | (k, v) :: xs' =>
      if String.eqb k firstK || (zlen v =? 0) then put_extras firstK xs' xbkt
      else
        m ← map_err (Wrap "failed to set xattr") (put_checked (default ∅ xbkt) k v);
        put_extras firstK xs' (Some m)
  end.

Definition write_xattrs (xattrs : gmap string bytes) b : outcome bucket :=
  match map_range xattrs with
  | [] => Ok b
  | (firstK, firstV) :: _ =>
      x ← put_extras firstK (map_range xattrs) None;
      let b := match x with
               | Some m => mkBucket (kv b) (<[bucketKeyXattrsExtra := m]> (subs b))
               | None => b
               end in
      Ok (put bucketKeyXattrValue firstV (put bucketKeyXattrKey (to_bytes firstK) b))
  end.

Definition put_modtime (t : Time) b : outcome bucket :=
  if time_IsZero t then Ok b
  else match time_GobEncode t with
       | Some te => Ok (put bucketKeyModTime te b)
       | None => Err (ErrorString "Time.MarshalBinary")
       end.

Definition writeNodeEntry b attr : outcome bucket :=
  let b := putInt_nonzero bucketKeyDevMajor (a_DevMajor attr) b in
  let b := putInt_nonzero bucketKeyDevMinor (a_DevMinor attr) b in
  let b := putInt_nonzero bucketKeyGID (a_GID attr) b in
  let b := if String.eqb (a_LinkName attr) "" then b
           else put bucketKeyLinkName (to_bytes (a_LinkName attr)) b in
  b ← (if a_Mode attr =? 0 then Ok b
       else val ← encodeUint (a_Mode attr); Ok (put bucketKeyMode val b));
  b ← put_modtime (a_ModTime attr) b;
  let b := if a_NumLink attr =? 0 then b
           else match putInt bucketKeyNumLink (a_NumLink attr - 1) b with Ok b' => b' | _ => b end in
  let b := putInt_nonzero bucketKeySize (a_Size attr) b in
  let b := putInt_nonzero bucketKeyUID (a_UID attr) b in
  write_xattrs (a_Xattrs attr) b.

(** A value of the bucket read as a varint, or the attribute left alone. *)
Definition read_int b (k : string) (old : Z) : Z :=
  match kv b !! k with Some v => (Varint v).1 | None => old end.

Definition readNodeEntryToAttr b attr : outcome (Attr Time) :=
  t ← (match kv b !! bucketKeyModTime with
       | Some v => match time_GobDecode v with
                   | Some t => Ok t
                   | None => Err (ErrorString "Time.UnmarshalBinary") end
       | None => Ok (a_ModTime attr)
       end);
  let xattrs := match kv b !! bucketKeyXattrKey with
                | Some k => <[of_bytes k := get b bucketKeyXattrValue]> (a_Xattrs attr)
                | None => a_Xattrs attr
                end in
  let xattrs := match subs b !! bucketKeyXattrsExtra with
                | Some m => m ∪ xattrs
                | None => xattrs
                end in
  Ok (mkAttr (read_int b bucketKeySize (a_Size attr)) t
        (match kv b !! bucketKeyLinkName with Some v => of_bytes v | None => a_LinkName attr end)
        (match kv b !! bucketKeyMode with
         | Some v => uint32 (Uvarint v).1 | None => a_Mode attr end)
        (read_int b bucketKeyUID (a_UID attr)) (read_int b bucketKeyGID (a_GID attr))
        (read_int b bucketKeyDevMajor (a_DevMajor attr))
        (read_int b bucketKeyDevMinor (a_DevMinor attr)) xattrs
        (match kv b !! bucketKeyNumLink with
         | Some v => int64 ((Varint v).1 + 1) | None => a_NumLink attr end)).

Definition readNumLink b : Z := int64 ((Varint (get b bucketKeyNumLink)).1 + 1).
End attrs.

(** ** Directory entries *)
Record childEntry := mkChild { c_base : string; c_id : Z }.

Record metadataEntry := mkME {
  m_children : gmap string childEntry;
  m_UncompressedOffset : Z;
  m_UncompressedSize : Z;
  m_TarName : string;
  m_TarHeaderOffset : Z;
  m_TarHeaderSize : Z
}.

Definition emptyME : metadataEntry := mkME ∅ 0 0 "" 0 0.

Section entries.
Context `{MapRange}.
Implicit Types (md : bucket).

Definition readChild md (base : string) : outcome Z :=
  if String.eqb base (of_bytes (get md bucketKeyChildName))
  then decodeID (get md bucketKeyChildID)
  else match subs md !! bucketKeyChildrenExtra with
  | None => Err (ErrorString "extra children not found")
  | Some cbkt =>
      let eid := default [] (cbkt !! base) in
      if zlen eid =? 0 then Err (ErrorString "children not found") else decodeID eid
  end.

(** The loop over the children that are not the first; bbolt keeps the keys sorted, so
    the order of the puts does not show. *)
Fixpoint put_children (firstChildName : string) (cs : list (string * childEntry))
    (cbkt : gmap string bytes) : outcome (gmap string bytes) :=
  match cs with
  | [] => Ok cbkt
  | (name, c) :: cs' =>
      if String.eqb name firstChildName then put_children firstChildName cs' cbkt
      else
        m ← map_err (Wrap "failed to add child ID") (put_checked cbkt (c_base c) (encodeID (c_id c)));
        put_children firstChildName cs' m
  end.

Definition write_children (children : gmap string childEntry) md : outcome bucket :=
  match map_range children with
  | [] => Ok md
  | (firstChildName, firstChild) :: rest =>
      md ← (match rest with
            | [] => Ok md
            | _ => m ← put_children firstChildName (map_range children) ∅;
                   Ok (mkBucket (kv md) (<[bucketKeyChildrenExtra := m]> (subs md)))
            end);
      Ok (put bucketKeyChildName (to_bytes firstChildName)
            (put bucketKeyChildID (encodeID (c_id firstChild)) md))
  end.

Definition writeMetadataEntry md (m : metadataEntry) : outcome bucket :=
  md ← write_children (m_children m) md;
  let md := put bucketKeyName (to_bytes (m_TarName m)) md in
  md ← map_err (Wrap "failed to set TarHeaderOffset value")
         (putInt bucketKeyTarHeaderOffset (m_TarHeaderOffset m) md);
  md ← map_err (Wrap "failed to set TarHeaderSize value")
         (putInt bucketKeyTarHeaderSize (m_TarHeaderSize m) md);
  map_err (Wrap "failed to set UncompressedOffset value")
    (putInt bucketKeyUncompressedOffset (m_UncompressedOffset m) md).

Definition getMetadataEntry md : metadataEntry :=
  mkME ∅ (Varint (get md bucketKeyUncompressedOffset)).1 0 (of_bytes (get md bucketKeyName))
    (Varint (get md bucketKeyTarHeaderOffset)).1 (Varint (get md bucketKeyTarHeaderSize)).1.
End entries.

(** ** What is written

    [pif c k v b] puts [v] unless [c]. *)
Definition pif (c : bool) (k : string) (v : bytes) (b : bucket) : bucket :=
  if c then b else put k v b.

Lemma kv_pif_eq c k v b : kv (pif c k v b) !! k = if c then kv b !! k else Some v.
Proof. destruct c; [done|]. apply lookup_insert_eq. Qed.
Lemma kv_pif_ne c k v b k' : k ≠ k' → kv (pif c k v b) !! k' = kv b !! k'.
Proof. intros. destruct c; [done|]. by apply lookup_insert_ne. Qed.
Lemma kv_put_eq k v b : kv (put k v b) !! k = Some v.
Proof. apply lookup_insert_eq. Qed.
Lemma kv_put_ne k v b k' : k ≠ k' → kv (put k v b) !! k' = kv b !! k'.
Proof. apply lookup_insert_ne. Qed.
Lemma subs_pif c k v b : subs (pif c k v b) = subs b.
Proof. by destruct c. Qed.

Create Rewrite HintDb bucket.
#[export] Hint Rewrite kv_pif_eq kv_put_eq subs_pif : bucket.
#[export] Hint Rewrite kv_pif_ne kv_put_ne using done : bucket.

Section written.
Context {Time : Type} `{GoTime Time} `{MapRange}.
Implicit Types (attr : Attr Time) (b : bucket).

Lemma putInt_nonzero_pif k v b : putInt_nonzero k v b = pif (v =? 0) k (PutVarint v) b.
Proof. unfold putInt_nonzero, putInt. rewrite EncodeInt_ok. done. Qed.

(** Everything but the extended attributes. *)
Definition plain_fields b attr (te : bytes) : bucket :=
  pif (a_UID attr =? 0) bucketKeyUID (PutVarint (a_UID attr)) (
  pif (a_Size attr =? 0) bucketKeySize (PutVarint (a_Size attr)) (
  pif (a_NumLink attr =? 0) bucketKeyNumLink (PutVarint (a_NumLink attr - 1)) (
  pif (time_IsZero (a_ModTime attr)) bucketKeyModTime te (
  pif (a_Mode attr =? 0) bucketKeyMode (PutUvarint (a_Mode attr)) (
  pif (String.eqb (a_LinkName attr) "") bucketKeyLinkName (to_bytes (a_LinkName attr)) (
  pif (a_GID attr =? 0) bucketKeyGID (PutVarint (a_GID attr)) (
  pif (a_DevMinor attr =? 0) bucketKeyDevMinor (PutVarint (a_DevMinor attr)) (
  pif (a_DevMajor attr =? 0) bucketKeyDevMajor (PutVarint (a_DevMajor attr)) b)))))))).

Lemma writeNodeEntry_plain b attr b' : writeNodeEntry b attr = Ok b' →
  ∃ te, (time_IsZero (a_ModTime attr) = true ∨ time_GobEncode (a_ModTime attr) = Some te) ∧
    write_xattrs (a_Xattrs attr) (plain_fields b attr te) = Ok b'.
Proof.
  unfold writeNodeEntry. rewrite !putInt_nonzero_pif, encodeUint_ok.
  intros Hw. unfold put_modtime in Hw.
  assert (∀ b0, (if a_Mode attr =? 0 then Ok b0 else val ← Ok (PutUvarint (a_Mode attr)); Ok (put bucketKeyMode val b0))
    = Ok (pif (a_Mode attr =? 0) bucketKeyMode (PutUvarint (a_Mode attr)) b0)) as Hmode
    by (intros; by destruct (a_Mode attr =? 0)).
  rewrite Hmode in Hw. cbn [mbind outcome_bind] in Hw.
  assert (∀ b0, (if a_NumLink attr =? 0 then b0 else
      match putInt bucketKeyNumLink (a_NumLink attr - 1) b0 with Ok b' => b' | _ => b0 end)
    = pif (a_NumLink attr =? 0) bucketKeyNumLink (PutVarint (a_NumLink attr - 1)) b0) as Hnl.
  { intros. unfold putInt. by rewrite EncodeInt_ok. }
  unfold plain_fields. destruct (time_IsZero (a_ModTime attr)).
  - exists []. split; [by left|]. cbn [mbind outcome_bind] in Hw.
    by rewrite Hnl, !putInt_nonzero_pif in Hw.
  - destruct (time_GobEncode (a_ModTime attr)) as [te|]; [|done]. exists te. split; [by right|].
    cbn [mbind outcome_bind] in Hw. by rewrite Hnl, !putInt_nonzero_pif in Hw.
Qed.

Lemma put_checked_ok m k v m' : put_checked m k v = Ok m' → m' = <[k := v]> m ∧ k ≠ ""%string.
Proof.
  unfold put_checked. destruct (String.eqb_spec k ""); [done|].
  destruct (MaxKeySize <? _); [done|]. intros [= <-]. done.
Qed.

(** The extra attributes are all but the first, empty values left out. *)
Lemma put_extras_spec firstK xs x x' : NoDup xs.*1 → put_extras firstK xs x = Ok x' →
  (∀ k v, (k, v) ∈ xs → default ∅ x !! k = None) →
  ∀ k v, default ∅ x' !! k = Some v ↔
    default ∅ x !! k = Some v ∨ (k, v) ∈ xs ∧ k ≠ firstK ∧ v ≠ [].
Proof.
  revert x. induction xs as [|[k1 v1] xs IH]; intros x Hnd Hput Hfresh k v.
  - injection Hput as <-. rewrite elem_of_nil. naive_solver.
  - simpl in Hnd. apply list.NoDup_cons in Hnd as [Hk1 Hnd]. cbn [put_extras] in Hput.
    destruct (String.eqb k1 firstK || (zlen v1 =? 0)) eqn:Eskip.
    + rewrite (IH x); [|done|done|]. 2: { intros k' v' Hin. eapply Hfresh. by right. }
      rewrite elem_of_cons. split; [naive_solver|].
      intros [?|([Heq|?] & ? & ?)]; [by left| |by right]. injection Heq as -> ->. exfalso.
      apply orb_true_iff in Eskip as [?%String.eqb_eq|Hz%Z.eqb_eq]; [done|].
      destruct v1; [done|]. rewrite zlen_cons in Hz. pose proof (zlen_nonneg v1). lia.
    + destruct (put_checked (default ∅ x) k1 v1) as [m|e|] eqn:Ep; try done.
      apply put_checked_ok in Ep as [-> _]. cbn [map_err mbind outcome_bind] in Hput.
      apply orb_false_iff in Eskip as [Hne%String.eqb_neq Hz%Z.eqb_neq].
      assert (v1 ≠ []) by (by intros ->).
      rewrite (IH (Some (<[k1 := v1]> (default ∅ x)))); [|done|done|].
      2: { intros k' v' Hin. simpl. rewrite lookup_insert_ne; [eapply Hfresh; by right|].
           intros ->. apply Hk1. apply list_elem_of_fmap. by exists (k', v'). }
      simpl. rewrite lookup_insert_Some, elem_of_cons.
      assert (default ∅ x !! k1 = None) as Hn by (eapply Hfresh; by left).
      split; [naive_solver|]. intros [Hx|([Heq|Hin] & ? & ?)]; [|injection Heq as -> ->; by left; left|by right].
      left. right. split; [|done]. intros ->. congruence.
Qed.

Lemma write_xattrs_spec xs b b' : write_xattrs xs b = Ok b' → subs b !! bucketKeyXattrsExtra = None →
  (∀ k, k ≠ bucketKeyXattrKey → k ≠ bucketKeyXattrValue → kv b' !! k = kv b !! k) ∧
  (xs = ∅ ∧ b' = b ∨
   ∃ k1 v1, xs !! k1 = Some v1 ∧ kv b' !! bucketKeyXattrKey = Some (to_bytes k1) ∧
     kv b' !! bucketKeyXattrValue = Some v1 ∧
     ∀ k v, default ∅ (subs b' !! bucketKeyXattrsExtra) !! k = Some v ↔
       xs !! k = Some v ∧ k ≠ k1 ∧ v ≠ []).
Proof.
  unfold write_xattrs. intros Hw Hsub. pose proof (map_range_perm xs) as Hperm.
  destruct (map_range xs) as [|[k1 v1] rest] eqn:E.
  { injection Hw as <-. split; [done|]. left. split; [|done].
    apply map_to_list_empty_iff. by apply Permutation_nil_l in Hperm. }
  destruct (put_extras k1 ((k1, v1) :: rest) None) as [x|e|] eqn:Ex; try done.
  cbn [mbind outcome_bind] in Hw. injection Hw as <-.
  assert (∀ k v, (k, v) ∈ (k1, v1) :: rest ↔ xs !! k = Some v) as Hin.
  { intros k v. rewrite Hperm. apply elem_of_map_to_list. }
  split.
  { intros k Hk1 Hk2. rewrite !kv_put_ne by done. by destruct x. }
  right. exists k1, v1. split_and!.
  - apply Hin. left.
  - by rewrite kv_put_ne, kv_put_eq.
  - by rewrite kv_put_eq.
  - intros k v. assert (default ∅ (subs (put bucketKeyXattrValue v1 (put bucketKeyXattrKey (to_bytes k1)
      (match x with Some m => mkBucket (kv b) (<[bucketKeyXattrsExtra:=m]> (subs b)) | None => b end)))
      !! bucketKeyXattrsExtra) = default ∅ x) as ->.
    { simpl. destruct x as [m|]; simpl; [by rewrite lookup_insert_eq|by rewrite Hsub]. }
    rewrite (put_extras_spec k1 ((k1, v1) :: rest) None x); [|by rewrite Hperm; apply NoDup_fst_map_to_list|done|done].
    change (default ∅ None) with (∅ : gmap string bytes). rewrite lookup_empty, Hin. naive_solver.
Qed.

(** ** Round trips *)

(** The attributes a database can hold: integers of their Go types, extended attributes
    with values, and at least one link. *)
Record attr_ok attr : Prop := {
  ao_size : in_int64 (a_Size attr);
  ao_mode : in_uint32 (a_Mode attr);
  ao_uid : in_int64 (a_UID attr);
  ao_gid : in_int64 (a_GID attr);
  ao_major : in_int64 (a_DevMajor attr);
  ao_minor : in_int64 (a_DevMinor attr);
  ao_nlink : 1 ≤ a_NumLink attr < 2 ^ 63;
  ao_xattrs : map_Forall (λ _ v, v ≠ []) (a_Xattrs attr)
}.

(** [encoding/gob] of times: decoding inverts encoding, and only one time is zero. *)
Class GobTime : Prop := {
  gob_roundtrip (t : Time) te : time_GobEncode t = Some te → time_GobDecode te = Some t;
  zero_unique (t : Time) : time_IsZero t = true → t = time_zero
}.

Lemma read_int_pif b k v : (kv b !! k = if v =? 0 then None else Some (PutVarint v)) →
  in_int64 v → read_int b k 0 = v.
Proof.
  intros Hk Hv. unfold read_int. rewrite Hk. destruct (Z.eqb_spec v 0); [done|].
  by apply Varint_put_only.
Qed.

Lemma xattrs_union (xs m : gmap string bytes) k1 v1 :
  xs !! k1 = Some v1 → map_Forall (λ _ v, v ≠ []) xs →
  (∀ k v, m !! k = Some v ↔ xs !! k = Some v ∧ k ≠ k1 ∧ v ≠ []) →
  m ∪ <[k1 := v1]> ∅ = xs.
Proof.
  intros Hk1 Hall Hm. apply map_eq. intros k. apply option_eq. intros v.
  rewrite lookup_union_Some_raw, Hm.
  destruct (decide (k = k1)) as [->|Hne].
  - rewrite lookup_insert_eq. split; [naive_solver|]. intros ?. simplify_eq. right.
    split; [|done]. destruct (m !! k1) eqn:E; [|done]. apply Hm in E. naive_solver.
  - rewrite lookup_insert_ne, lookup_empty by done. split; [naive_solver|].
    intros Hk. left. split_and!; [done|done|]. by apply (Hall k v).
Qed.

(** The value of a plain key in the written bucket. *)
Ltac plain Hread := apply Hread; [done|done|]; unfold plain_fields; by autorewrite with bucket.

Lemma node_entry_reads `{GobTime} attr b : attr_ok attr → writeNodeEntry empty_bucket attr = Ok b →
  readNodeEntryToAttr b zeroAttr = Ok attr.
Proof.
  intros [] (te & Hte & Hx)%writeNodeEntry_plain.
  apply write_xattrs_spec in Hx as [Hkv Hxs]; [|unfold plain_fields; by rewrite !subs_pif].
  assert (∀ k v, k ≠ bucketKeyXattrKey → k ≠ bucketKeyXattrValue →
    kv (plain_fields empty_bucket attr te) !! k = v → kv b !! k = v) as Hread.
  { intros k v ? ? <-. by apply Hkv. }
  unfold readNodeEntryToAttr. cbn [a_Size a_ModTime a_LinkName a_Mode a_UID a_GID a_DevMajor a_DevMinor
    a_Xattrs a_NumLink zeroAttr].
  assert (kv b !! bucketKeyModTime = if time_IsZero (a_ModTime attr) then None else Some te) as ->
    by plain Hread.
  replace (match (if time_IsZero (a_ModTime attr) then None else Some te) with
    | Some v => match time_GobDecode v with Some t => Ok t | None => Err (ErrorString "Time.UnmarshalBinary") end
    | None => Ok time_zero end) with (Ok (a_ModTime attr)).
  2: { destruct (time_IsZero (a_ModTime attr)) eqn:Ez; simpl.
       - by rewrite (zero_unique _ Ez).
       - destruct Hte as [?|Hte]; [done|]. by rewrite (gob_roundtrip _ _ Hte). }
  cbn [mbind outcome_bind].
  rewrite (read_int_pif b bucketKeySize (a_Size attr)), (read_int_pif b bucketKeyUID (a_UID attr)),
    (read_int_pif b bucketKeyGID (a_GID attr)), (read_int_pif b bucketKeyDevMajor (a_DevMajor attr)),
    (read_int_pif b bucketKeyDevMinor (a_DevMinor attr)) by (done || plain Hread).
  assert (kv b !! bucketKeyLinkName = if String.eqb (a_LinkName attr) "" then None
    else Some (to_bytes (a_LinkName attr))) as -> by plain Hread.
  assert (kv b !! bucketKeyMode = if a_Mode attr =? 0 then None
    else Some (PutUvarint (a_Mode attr))) as -> by plain Hread.
  assert (kv b !! bucketKeyNumLink = if a_NumLink attr =? 0 then None
    else Some (PutVarint (a_NumLink attr - 1))) as -> by plain Hread.
  f_equal. destruct attr as [sz mt ln mo uid gid maj mi xs nl]; simpl in *. f_equal.
  - destruct (String.eqb_spec ln ""); [done|]. by rewrite of_to_bytes.
  - destruct (Z.eqb_spec mo 0); [done|]. unfold in_uint32 in *.
    rewrite Uvarint_put_only by (unfold in_uint64; lia). by apply uint32_id.
  - destruct Hxs as [[-> ->]|(k1 & v1 & Hk1 & -> & Hv & Hm)].
    + unfold plain_fields. autorewrite with bucket. done.
    + unfold get. rewrite Hv, of_to_bytes. cbn [default from_option id].
      rewrite <-(xattrs_union xs (default ∅ (subs b !! bucketKeyXattrsExtra)) k1 v1) by done.
      destruct (subs b !! bucketKeyXattrsExtra); [done|]. simpl. by rewrite (left_id_L ∅ (∪)).
  - destruct (Z.eqb_spec nl 0); [lia|].
    rewrite Varint_put_only by (unfold in_int64; lia). rewrite int64_id by (unfold in_int64; lia). lia.
Qed.

(** A name bbolt accepts as a key. *)
Definition valid_key (k : string) : Prop := k ≠ ""%string ∧ Z.of_nat (String.length k) ≤ MaxKeySize.

Lemma put_checked_total m k v : valid_key k → put_checked m k v = Ok (<[k := v]> m).
Proof.
  intros [Hne Hlen]. unfold put_checked. destruct (String.eqb_spec k ""); [done|].
  destruct (Z.ltb_spec MaxKeySize (Z.of_nat (String.length k))); [lia|done].
Qed.

Lemma put_extras_total firstK xs x :
  Forall (λ p, valid_key p.1) xs → ∃ x', put_extras firstK xs x = Ok x'.
Proof.
  intros Hall. revert x. induction Hall as [|[k v] xs Hk _ IH]; intros x; [by eexists|].
  cbn [put_extras]. destruct (_ || _); [apply IH|].
  rewrite put_checked_total by done. apply IH.
Qed.

Lemma keys_valid {A} (m : gmap string A) :
  (∀ k, is_Some (m !! k) → valid_key k) → Forall (λ p, valid_key p.1) (map_range m).
Proof.
  intros Hm. apply list.Forall_forall. intros [k v] Hin. rewrite map_range_perm in Hin.
  apply elem_of_map_to_list in Hin. apply Hm. by exists v.
Qed.

Lemma writeNodeEntry_total b attr :
  (time_IsZero (a_ModTime attr) = false → is_Some (time_GobEncode (a_ModTime attr))) →
  (∀ k, is_Some (a_Xattrs attr !! k) → valid_key k) →
  ∃ b', writeNodeEntry b attr = Ok b'.
Proof.
  intros Ht Hx. assert (∀ b0, ∃ b', write_xattrs (a_Xattrs attr) b0 = Ok b') as Hw.
  { intros b0. unfold write_xattrs. pose proof (keys_valid _ Hx) as Hall.
    destruct (map_range (a_Xattrs attr)) as [|[k v] rest]; [by eexists|].
    destruct (put_extras_total k ((k, v) :: rest) None Hall) as [x ->]. by eexists. }
  unfold writeNodeEntry. rewrite encodeUint_ok. unfold put_modtime.
  destruct (a_Mode attr =? 0), (time_IsZero (a_ModTime attr)); cbn [mbind outcome_bind]; try apply Hw;
    destruct (Ht eq_refl) as [te ->]; apply Hw.
Qed.

(** A node's attributes are stored and read back, the extended attributes included,
    whatever order Go ranges over the map in. *)
Theorem node_entry_roundtrip `{GobTime} attr :
  attr_ok attr →
  (time_IsZero (a_ModTime attr) = false → is_Some (time_GobEncode (a_ModTime attr))) →
  (∀ k, is_Some (a_Xattrs attr !! k) → valid_key k) →
  ∃ b, writeNodeEntry empty_bucket attr = Ok b ∧
    readNodeEntryToAttr b zeroAttr = Ok attr ∧ readNumLink b = a_NumLink attr.
Proof.
  intros Hok Ht Hx. destruct (writeNodeEntry_total empty_bucket attr Ht Hx) as [b Hw].
  exists b. split; [done|]. pose proof (node_entry_reads attr b Hok Hw) as Hr. split; [done|].
  unfold readNodeEntryToAttr in Hr.
  destruct (match kv b !! bucketKeyModTime with Some _ => _ | None => _ end); try done.
  injection Hr as <-. simpl. unfold readNumLink, get.
  destruct (kv b !! bucketKeyNumLink) eqn:E; [done|]. exfalso.
  destruct Hok. simpl in *. lia.
Qed.

(** Rewriting a directory keeps stale attributes.  An attribute of the new entry that
    is zero does not replace a non-zero one that is stored already: the owner stays the
    first entry's. *)
Theorem rewritten_node_keeps_stale_owner b attr b' a0 a1 :
  writeNodeEntry b attr = Ok b' → subs b !! bucketKeyXattrsExtra = None → a_UID attr = 0 →
  readNodeEntryToAttr b zeroAttr = Ok a0 → readNodeEntryToAttr b' zeroAttr = Ok a1 →
  a_UID a1 = a_UID a0.
Proof.
  intros (te & _ & Hx)%writeNodeEntry_plain Hsub Huid Hr0 Hr1.
  apply write_xattrs_spec in Hx as [Hkv _]; [|unfold plain_fields; by rewrite !subs_pif].
  assert (kv b' !! bucketKeyUID = kv b !! bucketKeyUID) as Heq.
  { rewrite Hkv by done. unfold plain_fields. autorewrite with bucket. by rewrite Huid. }
  unfold readNodeEntryToAttr in Hr0, Hr1.
  destruct (match kv b !! bucketKeyModTime with Some _ => _ | None => _ end); try done.
  destruct (match kv b' !! bucketKeyModTime with Some _ => _ | None => _ end); try done.
  injection Hr0 as <-. injection Hr1 as <-. simpl. unfold read_int. by rewrite Heq.
Qed.
End written.

Section children.
Context `{MapRange}.
Implicit Types (md : bucket).

(** [setChild] stores a child under its base name; ids are uint32. *)
Definition children_ok (cs : gmap string childEntry) : Prop :=
  map_Forall (λ name c, c_base c = name ∧ name ≠ ""%string ∧ in_uint32 (c_id c)) cs.

Lemma put_children_spec first cs m m' :
  NoDup cs.*1 → put_children first cs m = Ok m' →
  (∀ name c, (name, c) ∈ cs → c_base c = name ∧ m !! name = None) →
  ∀ k v, m' !! k = Some v ↔
    m !! k = Some v ∨ ∃ c, (k, c) ∈ cs ∧ k ≠ first ∧ v = encodeID (c_id c).
Proof.
  revert m. induction cs as [|[n1 c1] cs IH]; intros m Hnd Hput Hcs k v.
  - injection Hput as <-. setoid_rewrite elem_of_nil. naive_solver.
  - simpl in Hnd. apply list.NoDup_cons in Hnd as [Hn1 Hnd]. cbn [put_children] in Hput.
    destruct (Hcs n1 c1) as [Hbase Hnone]; [left|].
    destruct (String.eqb_spec n1 first) as [->|Hne].
    + rewrite (IH m); [|done|done|]. 2: { intros. apply Hcs. by right. }
      setoid_rewrite elem_of_cons. split; [naive_solver|]. naive_solver.
    + destruct (put_checked m (c_base c1) (encodeID (c_id c1))) as [m1|e|] eqn:Ep; try done.
      rewrite Hbase in Ep. apply put_checked_ok in Ep as [-> _]. cbn [map_err mbind outcome_bind] in Hput.
      rewrite (IH (<[n1 := encodeID (c_id c1)]> m)); [|done|done|].
      2: { intros n c Hin. destruct (Hcs n c) as [? ?]; [by right|]. split; [done|].
           rewrite lookup_insert_ne; [done|]. intros ->. apply Hn1, list_elem_of_fmap. by exists (n, c). }
      rewrite lookup_insert_Some. setoid_rewrite elem_of_cons. split; [naive_solver|].
      intros [Hm|(c & [Heq|Hin] & ? & ->)]; [|injection Heq as -> ->; by left; left|by eauto].
      left. right. split; [|done]. intros ->. congruence.
Qed.

Lemma write_children_spec cs md md' : children_ok cs → write_children cs md = Ok md' →
  kv md !! bucketKeyChildName = None → subs md !! bucketKeyChildrenExtra = None →
  (∀ k, k ≠ bucketKeyChildName → k ≠ bucketKeyChildID → kv md' !! k = kv md !! k) ∧
  (cs = ∅ ∧ md' = md ∨
   ∃ n1 c1, cs !! n1 = Some c1 ∧ kv md' !! bucketKeyChildName = Some (to_bytes n1) ∧
     kv md' !! bucketKeyChildID = Some (encodeID (c_id c1)) ∧
     ∀ k v, default ∅ (subs md' !! bucketKeyChildrenExtra) !! k = Some v ↔
       ∃ c, cs !! k = Some c ∧ k ≠ n1 ∧ v = encodeID (c_id c)).
Proof.
  intros Hok Hw Hnone Hsub. unfold write_children in Hw. pose proof (map_range_perm cs) as Hperm.
  destruct (map_range cs) as [|[n1 c1] rest] eqn:E.
  { injection Hw as <-. split; [done|]. left. split; [|done].
    apply map_to_list_empty_iff. by apply Permutation_nil_l in Hperm. }
  assert (∀ k v, (k, v) ∈ (n1, c1) :: rest ↔ cs !! k = Some v) as Hin.
  { intros k v. rewrite Hperm. apply elem_of_map_to_list. }
  assert (cs !! n1 = Some c1) as Hc1 by (apply Hin; left).
  assert (∃ md1, md' = put bucketKeyChildName (to_bytes n1) (put bucketKeyChildID (encodeID (c_id c1)) md1) ∧
    kv md1 = kv md ∧ ∀ k v, default ∅ (subs md1 !! bucketKeyChildrenExtra) !! k = Some v ↔
    ∃ c, cs !! k = Some c ∧ k ≠ n1 ∧ v = encodeID (c_id c)) as (md1 & -> & Hkv & Hm).
  { destruct rest as [|r rest].
    - cbn [mbind outcome_bind] in Hw. injection Hw as <-. exists md. split_and!; [done|done|].
      intros k v. rewrite Hsub. simpl. rewrite lookup_empty.
      split; [done|]. intros (c & Hk & Hne & _). apply Hin, list_elem_of_singleton in Hk. by simplify_eq.
    - destruct (put_children n1 ((n1, c1) :: r :: rest) ∅) as [m|e|] eqn:Ep; try done.
      cbn [mbind outcome_bind] in Hw. injection Hw as <-. eexists. split; [done|]. split; [done|].
      intros k v. simpl. rewrite lookup_insert_eq. simpl.
      rewrite (put_children_spec n1 ((n1, c1) :: r :: rest) ∅ m);
        [|by rewrite Hperm; apply NoDup_fst_map_to_list|done|].
      + rewrite lookup_empty. setoid_rewrite Hin. naive_solver.
      + intros name c Hk%Hin. split; [by apply (Hok name c)|done]. }
  split.
  - intros k ? ?. by rewrite !kv_put_ne, Hkv by done.
  - right. exists n1, c1. rewrite kv_put_eq, kv_put_ne, kv_put_eq by done. by split_and!.
Qed.

Lemma readChild_written cs md' base : children_ok cs → base ≠ ""%string →
  (cs = ∅ ∧ kv md' !! bucketKeyChildName = None ∧ subs md' !! bucketKeyChildrenExtra = None ∨
   ∃ n1 c1, cs !! n1 = Some c1 ∧ kv md' !! bucketKeyChildName = Some (to_bytes n1) ∧
     kv md' !! bucketKeyChildID = Some (encodeID (c_id c1)) ∧
     ∀ k v, default ∅ (subs md' !! bucketKeyChildrenExtra) !! k = Some v ↔
       ∃ c, cs !! k = Some c ∧ k ≠ n1 ∧ v = encodeID (c_id c)) →
  match cs !! base with
  | Some c => readChild md' base = Ok (c_id c)
  | None => ∃ e, readChild md' base = Err e
  end.
Proof.
  intros Hok Hb [(-> & Hn & Hs)|(n1 & c1 & Hc1 & Hn & Hid & Hm)]; unfold readChild, get; rewrite Hn.
  - rewrite lookup_empty, Hs. cbn [default from_option].
    destruct (String.eqb_spec base (of_bytes [])); [done|]. by eexists.
  - cbn [default from_option Datatypes.id]. rewrite Hid, of_to_bytes.
    destruct (String.eqb_spec base n1) as [->|Hne].
    { rewrite Hc1. apply decode_encodeID. by apply (Hok n1 c1). }
    destruct (cs !! base) as [c|] eqn:Ec.
    + assert (default ∅ (subs md' !! bucketKeyChildrenExtra) !! base = Some (encodeID (c_id c))) as Hx
        by (apply Hm; by eauto).
      destruct (subs md' !! bucketKeyChildrenExtra) as [m|]; [|done].
      simpl in Hx. rewrite Hx. cbn [default from_option Datatypes.id].
      rewrite decode_encodeID by (by apply (Hok base c)). unfold encodeID, zlen.
      by rewrite length_be_enc.
    + assert (default ∅ (subs md' !! bucketKeyChildrenExtra) !! base = None) as Hx.
      { destruct (default ∅ (subs md' !! bucketKeyChildrenExtra) !! base) eqn:E; [|done].
        apply Hm in E as (? & ? & _). congruence. }
      destruct (subs md' !! bucketKeyChildrenExtra) as [m|]; [|by eexists].
      simpl in Hx. rewrite Hx. simpl. by eexists.
Qed.

Lemma writeMetadataEntry_inv m md' : writeMetadataEntry empty_bucket m = Ok md' →
  ∃ md1, write_children (m_children m) empty_bucket = Ok md1 ∧
    md' = put bucketKeyUncompressedOffset (PutVarint (m_UncompressedOffset m)) (
          put bucketKeyTarHeaderSize (PutVarint (m_TarHeaderSize m)) (
          put bucketKeyTarHeaderOffset (PutVarint (m_TarHeaderOffset m)) (
          put bucketKeyName (to_bytes (m_TarName m)) md1))).
Proof.
  unfold writeMetadataEntry, putInt. rewrite !EncodeInt_ok.
  destruct (write_children (m_children m) empty_bucket) as [md1|e|]; try done.
  cbn [map_err mbind outcome_bind]. intros Hw%(inj Ok). by exists md1.
Qed.

(** What a written directory entry gives back. *)
Definition entry_reads (m : metadataEntry) md : Prop :=
  getMetadataEntry md = mkME ∅ (m_UncompressedOffset m) 0 (m_TarName m) (m_TarHeaderOffset m)
    (m_TarHeaderSize m) ∧
  ∀ base, base ≠ ""%string →
    match m_children m !! base with
    | Some c => readChild md base = Ok (c_id c)
    | None => ∃ e, readChild md base = Err e
    end.

Lemma entry_written m md : children_ok (m_children m) →
  in_int64 (m_UncompressedOffset m) → in_int64 (m_TarHeaderOffset m) → in_int64 (m_TarHeaderSize m) →
  writeMetadataEntry empty_bucket m = Ok md → entry_reads m md.
Proof.
  intros Hok H1 H2 H3 (md1 & Hw & ->)%writeMetadataEntry_inv.
  apply write_children_spec in Hw as [Hkv Hc]; [|done|done|done]. split.
  - unfold getMetadataEntry, get. autorewrite with bucket. cbn [default from_option Datatypes.id].
    rewrite !Varint_put_only, of_to_bytes by done. done.
  - intros base Hb. apply readChild_written; [done|done|].
    destruct Hc as [[-> ->]|(n1 & c1 & ? & Hn & Hi & Hm)]; [left; done|right].
    exists n1, c1. autorewrite with bucket. by split_and!.
Qed.

Lemma put_children_total first cs m :
  Forall (λ p, valid_key (c_base p.2)) cs → ∃ m', put_children first cs m = Ok m'.
Proof.
  intros Hall. revert m. induction Hall as [|[k c] cs Hk _ IH]; intros m; [by eexists|].
  cbn [put_children]. destruct (String.eqb k first); [apply IH|].
  rewrite put_checked_total by done. apply IH.
Qed.

Lemma writeMetadataEntry_total md m :
  map_Forall (λ _ c, valid_key (c_base c)) (m_children m) → ∃ md', writeMetadataEntry md m = Ok md'.
Proof.
  intros Hall. assert (∃ md1, write_children (m_children m) md = Ok md1) as [md1 Hw].
  { unfold write_children. assert (Forall (λ p, valid_key (c_base p.2)) (map_range (m_children m))) as Hf.
    { apply list.Forall_forall. intros [k c] Hin. rewrite map_range_perm in Hin.
      apply elem_of_map_to_list in Hin. by apply (Hall k c). }
    destruct (map_range (m_children m)) as [|[k c] rest]; [by eexists|].
    destruct rest as [|p rest]; [by eexists|].
    destruct (put_children_total k ((k, c) :: p :: rest) ∅ Hf) as [m' ->]. by eexists. }
  unfold writeMetadataEntry, putInt. rewrite !EncodeInt_ok, Hw. by eexists.
Qed.

(** A directory's metadata entry is stored and read back: every child is found under its
    name with its id, no other name is found, and the offsets and the tar name are kept. *)
Theorem metadata_entry_roundtrip m :
  children_ok (m_children m) → map_Forall (λ name _, valid_key name) (m_children m) →
  in_int64 (m_UncompressedOffset m) → in_int64 (m_TarHeaderOffset m) → in_int64 (m_TarHeaderSize m) →
  ∃ md, writeMetadataEntry empty_bucket m = Ok md ∧ entry_reads m md.
Proof.
  intros Hok Hkeys H1 H2 H3. destruct (writeMetadataEntry_total empty_bucket m) as [md Hw].
  { intros name c Hc. destruct (Hok _ _ Hc) as [-> _]. by apply (Hkeys name c). }
  exists md. split; [done|]. by apply entry_written.
Qed.
End children.
