(* ===== verification/MetadataTree.v ===== *)
(** * The metadata store

    Models [metadata/reader.go]: the tree of nodes built from a table of contents in the
    metadata database, and the lookups on it.  Node and metadata buckets are keyed by node
    id ([encodeID] is injective). *)
From Stdlib Require Import ZArith Lia Ascii.
From stdpp Require Import base list gmap strings numbers.
From S2P Require Import Prelude GoLib Compression GzipZinfo Ztoc Encoders MetadataDB.
#[local] Open Scope Z_scope.
#[local] Open Scope go_scope.

(** ** Paths ([path/filepath]) *)

(** The pieces between separators. *)
Fixpoint split_slash (s : string) : list string :=
  match s with
  | EmptyString => [EmptyString]
  | String c s' =>
      if Ascii.eqb c "/"%char then EmptyString :: split_slash s'
      else match split_slash s' with
           | x :: xs => String c x :: xs
           | [] => [String c EmptyString]
           end
  end.

(** One element of a rooted path in [filepath.Clean]; [acc] is reversed. *)
Definition clean_push (acc : list string) (comp : string) : list string :=
  if String.eqb comp "" || String.eqb comp "." then acc
  else if String.eqb comp ".." then tail acc
  else comp :: acc.

Definition clean_components (path : string) : list string :=
  reverse (foldl clean_push [] (split_slash path)).

Definition join (cs : list string) : string := String.concat "/" cs.

(** [strings.TrimPrefix(filepath.Clean("/" + path), "/")]. *)
Definition cleanEntryPath (path : string) : string := join (clean_components path).

(** [path.Clean] and [path.Join] of two elements, which on Unix are those of [filepath]. *)
Definition rel_push (acc : list string) (comp : string) : list string :=
  if String.eqb comp "" || String.eqb comp "." then acc
  else if String.eqb comp ".." then
    match acc with
    | [] => [comp]
    | top :: rest => if String.eqb top ".." then comp :: acc else rest
    end
  else comp :: acc.
Definition path_Clean (p : string) : string :=
  if HasPrefix p "/" then "/" +:+ cleanEntryPath p
  else match reverse (foldl rel_push [] (split_slash p)) with [] => "." | cs => join cs end.
Definition path_Join (a b : string) : string :=
  match filter (λ x, x ≠ ""%string) [a; b] with
  | [] => ""
  | es => path_Clean (join es)
  end.

(** [filepath.Split]: up to and including the last separator, and the rest. *)
Fixpoint filepath_Split (path : string) : string * string :=
  match path with
  | EmptyString => (EmptyString, EmptyString)
  | String c p' =>
      let '(d, b) := filepath_Split p' in
      match d with
      | EmptyString => if Ascii.eqb c "/"%char then (String c EmptyString, b) else (EmptyString, String c b)
      | _ => (String c d, b)
      end
  end.

Definition filepath_Base (path : string) : string :=
  match path with
  | EmptyString => "."
  | _ => default "/"%string (List.last (Some <$> filter (λ x, x ≠ EmptyString) (split_slash path)) None)
  end.

Definition parentDir (path : string) : string := (filepath_Split path).1.

(** ** [partition] *)
Fixpoint partition_loop {A} (fuel : nat) (data : list A) (chunkSize : nat) : list (list A) :=
  match fuel with
  | O => [data]
  | S fuel' =>
      if (chunkSize <? length data)%nat
      then take chunkSize data :: partition_loop fuel' (drop chunkSize data) chunkSize
      else [data]
  end.

Definition partition {A} (data : list A) (chunkSize : Z) : list (list A) :=
  if (zlen data =? 0) || (chunkSize <=? 0) then []
  else partition_loop (length data) data (Z.to_nat chunkSize).

(** ** Building the tree *)
Record builder := mkB { nodes : gmap Z bucket; curID : Z; mdmap : gmap Z metadataEntry }.

Definition MaxUint32 : Z := 2 ^ 32 - 1.

Definition nextID : ST builder Z := λ r,
  if curID r =? MaxUint32 then (Err (ErrorString "sequence id too large"), r)
  else (Ok (curID r + 1), mkB (nodes r) (curID r + 1) (mdmap r)).

(** The lookup of one name in a directory, as [getIDByName] does it.  The map of the children is
    made with the first child, so that an empty one is nil. *)
Definition child_id (md : gmap Z metadataEntry) (parentID : Z) (base : string) : outcome Z :=
  match md !! parentID with
  | None => Err (ErrorString "not found metadata")
  | Some m => if (stdpp.base.size (m_children m) =? 0)%nat then Err (ErrorString "not found children")
              else match m_children m !! base with
              | Some c => Ok (c_id c)
              | None => Err (ErrorString "not found child")
              end
  end.

(** Every call of the recursion drops the last element of the path. *)
Fixpoint getIDByName_loop (fuel : nat) (md : gmap Z metadataEntry) (path : string) (rootID : Z)
  : option (outcome Z) :=
  match fuel with
  | O => None
  | S fuel' =>
      if String.eqb path "" then Some (Ok rootID)
      else
        let '(parentDirectory, base) := filepath_Split (cleanEntryPath path) in
        match getIDByName_loop fuel' md parentDirectory rootID with
        | None => None
        | Some (Ok parentID) => Some (child_id md parentID base)
        | Some o => Some o
        end
  end.

(** Fuel for every element of the path. *)
Definition getIDByName (md : gmap Z metadataEntry) (path : string) (rootID : Z) : option (outcome Z) :=
  getIDByName_loop (S (S (length (clean_components path)))) md path rootID.

Section tree.
Context {Time : Type} `{GoTime Time} `{MapRange}.

Definition get_node (id : Z) : ST builder bucket := λ r,
  (match nodes r !! id with
   | Some b => Ok b
   | None => Err (ErrorString "node bucket not found")
   end, r).
Definition set_node (id : Z) (b : bucket) : ST builder () :=
  st_modify (λ r, mkB (<[id := b]> (nodes r)) (curID r) (mdmap r)).

(** [nodes.CreateBucket]. *)
Definition create_node (id : Z) : ST builder () := λ r,
  match nodes r !! id with
  | Some _ => (Err (Sentinel "bucket already exists"), r)
  | None => (Ok tt, mkB (<[id := empty_bucket]> (nodes r)) (curID r) (mdmap r))
  end.

Definition write_node (id : Z) (attr : Attr Time) : ST builder () :=
  b <~ get_node id;;
  b' <~ st_lift (writeNodeEntry b attr);;
  set_node id b'.

(** [numLink + 1] of a node, in the database's encoding. *)
Definition bump_links (id : Z) : ST builder () :=
  b <~ get_node id;;
  b' <~ st_lift (putInt bucketKeyNumLink (int64 ((Varint (get b bucketKeyNumLink)).1 + 1)) b);;
  set_node id b'.

Definition setChild (parentID : Z) (base : string) (id : Z) (isDir : bool) : ST builder () :=
  st_modify (λ r,
    let m := default emptyME (mdmap r !! parentID) in
    mkB (nodes r) (curID r)
      (<[parentID := mkME (<[base := mkChild base id]> (m_children m)) (m_UncompressedOffset m)
          (m_UncompressedSize m) (m_TarName m) (m_TarHeaderOffset m) (m_TarHeaderSize m)]>
        (mdmap r)));;;
  if isDir then bump_links parentID else st_ret tt.

Definition dirAttr : Attr Time :=
  mkAttr 0 time_zero "" (Z.lor ModeDir 493) 0 0 0 0 ∅ 2.

(** Creates the directory, then its parents, from the bottom up. *)
Fixpoint getOrCreateDir_loop (fuel : nat) (dir : string) (rootID : Z) : ST builder Z := λ r,
  match fuel with
  | O => (Panic, r)
  | S fuel' =>
      match getIDByName (mdmap r) dir rootID with
      | None => (Panic, r)
      | Some (Ok id) => (b <~ get_node id;; st_ret id) r
      | Some _ =>
          (id <~ nextID;;
           create_node id;;;
           write_node id dirAttr;;;
           parentID <~ getOrCreateDir_loop fuel' (parentDir (cleanEntryPath dir)) rootID;;
           setChild parentID (filepath_Base dir) id true;;;
           st_ret id) r
      end
  end.

Definition getOrCreateDir (dir : string) (rootID : Z) : ST builder Z :=
  getOrCreateDir_loop (S (S (length (clean_components dir)))) dir rootID.

Definition attrFromZtocEntry (src : FileMetadata Time) (numLink : Z) : Attr Time :=
  mkAttr (UncompressedSize src) (ModTime src) (Linkname src) (FileMode src) (UID src) (GID src)
    (Devmajor src) (Devminor src) (to_bytes <$> FileMetadata_Xattrs src) numLink.

(** The node of an entry that is not a hard link: an existing directory is overwritten. *)
Definition node_of_entry (ent : FileMetadata Time) (cleanName : string) (isDir : bool) (rootID : Z)
  : ST builder Z := λ r,
  let fresh := (id <~ nextID;;
                create_node id;;;
                write_node id (attrFromZtocEntry ent (if isDir then 2 else 1));;;
                st_ret id) in
  if isDir then
    match getIDByName (mdmap r) cleanName rootID with
    | None => (Panic, r)
    | Some (Ok id) =>
        (b <~ get_node id;;
         write_node id (attrFromZtocEntry ent (readNumLink b));;;
         st_ret id) r
    | Some _ => fresh r
    end
  else fresh r.

Definition link_target (cleanLinkName : string) (rootID : Z) : ST builder Z := λ r,
  match getIDByName (mdmap r) cleanLinkName rootID with
  | None => (Panic, r)
  | Some (Ok id) => (bump_links id;;; st_ret id) r
  | Some (Err e) => (Err (Wrap "received a hardlink but cannot get link destination" e), r)
  | Some Panic => (Panic, r)
  end.

Definition record_offsets (id : Z) (ent : FileMetadata Time) : ST builder () :=
  st_modify (λ r,
    let m := default emptyME (mdmap r !! id) in
    mkB (nodes r) (curID r)
      (<[id := mkME (m_children m) (UncompressedOffset ent) (m_UncompressedSize m) (Name ent)
          (TarHeaderOffset ent) (int64 (UncompressedOffset ent - TarHeaderOffset ent))]> (mdmap r))).

Definition process_entry (rootID : Z) (ent : FileMetadata Time) : ST builder () :=
  let cleanName := cleanEntryPath (Name ent) in
  let cleanLinkName := cleanEntryPath (Linkname ent) in
  let isLink := String.eqb (Type_ ent) "hardlink" in
  let isDir := String.eqb (Type_ ent) "dir" in
  id <~ (if isLink then link_target cleanLinkName rootID
         else node_of_entry ent cleanName isDir rootID);;
  parentID <~ getOrCreateDir (parentDir cleanName) rootID;;
  setChild parentID (filepath_Base cleanName) id isDir;;;
  if isLink then st_ret tt else record_offsets id ent.

Fixpoint for_each {A} (f : A → ST builder ()) (l : list A) : ST builder () :=
  match l with
  | [] => st_ret tt
  | x :: l' => f x;;; for_each f l'
  end.

(** The metadata buckets written at the end. *)
Fixpoint write_entries (l : list (Z * metadataEntry)) (meta : gmap Z bucket) : outcome (gmap Z bucket) :=
  match l with
  | [] => Ok meta
  | (id, m) :: l' =>
      md ← writeMetadataEntry empty_bucket m;
      write_entries l' (<[id := md]> meta)
  end.

(** ** The reader *)
Record reader := mkReader { rd_nodes : gmap Z bucket; rd_meta : gmap Z bucket; rootID : Z }.

Definition initRootNode : ST builder Z :=
  id <~ nextID;;
  create_node id;;;
  write_node id dirAttr;;;
  st_ret id.

Definition initNodes (toc : list (FileMetadata Time)) (insertionChunkSize rootID : Z)
  : ST builder (gmap Z bucket) :=
  for_each (for_each (process_entry rootID)) (partition toc insertionChunkSize);;;
  r <~ st_get;;
  st_lift (write_entries (map_to_list (mdmap r)) ∅).

Definition defaultInsertionChunkSize : Z := 5000.

Definition NewReader (toc : list (FileMetadata Time)) (insertionChunkSize : Z) : outcome reader :=
  let chunkSize := if insertionChunkSize <=? 0 then defaultInsertionChunkSize else insertionChunkSize in
  match (root <~ initRootNode;; meta <~ initNodes toc chunkSize root;; st_ret (root, meta)) (mkB ∅ 0 ∅) with
  | (Ok (root, meta), b) => Ok (mkReader (nodes b) meta root)
  | (Err e, _) => Err (Wrap "failed to initialize metadata" e)
  | (Panic, _) => Panic
  end.

Definition GetAttr (r : reader) (id : Z) : outcome (Attr Time) :=
  match rd_nodes r !! id with
  | None => Err (ErrorString "failed to get attr bucket")
  | Some b => readNodeEntryToAttr b zeroAttr
  end.

Definition GetChild (r : reader) (pid : Z) (base : string) : outcome (Z * Attr Time) :=
  match rd_meta r !! pid with
  | None => Err (ErrorString "failed to get parent metadata")
  | Some md =>
      id ← map_err (Wrap "failed to read child") (readChild md base);
      attr ← GetAttr r id;
      Ok (id, attr)
  end.

(** [mde] stays zero when the node has no metadata bucket. *)
Definition OpenFile (r : reader) (id : Z) : outcome metadataEntry :=
  match rd_nodes r !! id with
  | None => Err (ErrorString "failed to get file bucket")
  | Some b =>
      let m := uint32 (Uvarint (get b bucketKeyMode)).1 in
      if negb (Z.land m ModeType =? 0) then Err (ErrorString "not a regular file")
      else
        let mde := match rd_meta r !! id with Some md => getMetadataEntry md | None => emptyME end in
        Ok (mkME ∅ (m_UncompressedOffset mde) (Varint (get b bucketKeySize)).1 (m_TarName mde)
              (m_TarHeaderOffset mde) (m_TarHeaderSize mde))
  end.

(** The children a callback is shown: name, id and mode. *)
Definition child_mode (r : reader) (id : Z) : outcome (Z * Z) :=
  match rd_nodes r !! id with
  | None => Err (ErrorString "failed to get child bucket")
  | Some b => Ok (id, uint32 (Uvarint (get b bucketKeyMode)).1)
  end.

Fixpoint extra_children (r : reader) (l : list (string * bytes)) (acc : gmap string (Z * Z))
  : outcome (gmap string (Z * Z)) :=
  match l with
  | [] => Ok acc
  | (k, v) :: l' =>
      id ← decodeID v;
      c ← child_mode r id;
      extra_children r l' (<[k := c]> acc)
  end.

Definition ForeachChild (r : reader) (id : Z) : outcome (gmap string (Z * Z)) :=
  match rd_meta r !! id with
  | None => Ok ∅
  | Some md =>
      first ← (let firstName := get md bucketKeyChildName in
               if zlen firstName =? 0 then Ok ∅
               else firstID ← decodeID (get md bucketKeyChildID);
                    c ← child_mode r firstID;
                    Ok {[ of_bytes firstName := c ]});
      match subs md !! bucketKeyChildrenExtra with
      | None => Ok first
      | Some cbkt => extra_children r (map_to_list cbkt) first
      end
  end.
End tree.

(** ** Path lemmas *)
Definition no_slash (s : string) : Prop := "/"%char ∉ String.list_ascii_of_string s.

(** The elements of a clean path. *)
Definition valid_comp (c : string) : Prop :=
  c ≠ ""%string ∧ c ≠ "."%string ∧ c ≠ ".."%string ∧ no_slash c.

Lemma no_slash_nil : no_slash "".
Proof. apply not_elem_of_nil. Qed.
Lemma no_slash_cons c a : no_slash (String c a) ↔ c ≠ "/"%char ∧ no_slash a.
Proof. unfold no_slash. simpl. rewrite not_elem_of_cons. naive_solver. Qed.

Lemma split_slash_nonempty s : split_slash s ≠ [].
Proof.
  destruct s as [|c s]; cbn [split_slash]; [done|].
  destruct (Ascii.eqb c "/"%char); [done|]. by destruct (split_slash s).
Qed.

Lemma split_slash_no_slash s : Forall no_slash (split_slash s).
Proof.
  induction s as [|c s IH]; simpl; [repeat constructor; apply no_slash_nil|].
  destruct (Ascii.eqb_spec c "/"%char) as [->|Hne]; [constructor; [apply no_slash_nil|done]|].
  destruct (split_slash s) as [|x xs].
  - repeat constructor. apply no_slash_cons; split; [done|apply no_slash_nil].
  - apply list.Forall_cons in IH as [Hx Hxs]. constructor; [by apply no_slash_cons|done].
Qed.

Lemma split_slash_app a s : no_slash a →
  split_slash (a +:+ s) = match split_slash s with x :: xs => (a +:+ x) :: xs | [] => [a] end.
Proof.
  induction a as [|c a IH]; intros Hns.
  - change ("" +:+ s) with s.
    destruct (split_slash s) eqn:E; [|done]. by apply split_slash_nonempty in E.
  - apply no_slash_cons in Hns as [Hc Ha].
    change (String c a +:+ s) with (String c (a +:+ s)). cbn [split_slash].
    destruct (Ascii.eqb_spec c "/"%char) as [->|]; [done|].
    rewrite IH by done. destruct (split_slash s) eqn:E; [by apply split_slash_nonempty in E|done].
Qed.

Lemma split_slash_single a : no_slash a → split_slash a = [a].
Proof.
  intros Ha. pose proof (split_slash_app a "" Ha) as H. rewrite string_app_nil_r in H.
  rewrite H. simpl. by rewrite string_app_nil_r.
Qed.

Lemma split_slash_sep a s : no_slash a → split_slash (a +:+ String "/" s) = a :: split_slash s.
Proof. intros Ha. rewrite split_slash_app by done. simpl. by rewrite string_app_nil_r. Qed.

Lemma split_join cs : Forall valid_comp cs → cs ≠ [] → split_slash (join cs) = cs.
Proof.
  induction 1 as [|c cs (? & ? & ? & Hc) Hcs IH]; intros Hne; [done|].
  destruct cs as [|c' cs].
  - by apply split_slash_single.
  - change (join (c :: c' :: cs)) with (c +:+ String "/" (join (c' :: cs))).
    rewrite split_slash_sep by done. f_equal. by apply IH.
Qed.

(** A directory name: the path with a trailing separator, or nothing for the root. *)
Definition dir_of (cs : list string) : string :=
  match cs with [] => "" | _ => join cs +:+ "/" end.

Lemma split_join_sep cs s : Forall valid_comp cs → cs ≠ [] →
  split_slash (join cs +:+ String "/" s) = cs ++ split_slash s.
Proof.
  intros Hcs. induction Hcs as [|c cs (_ & _ & _ & Hc) Hcs IH]; intros Hne; [done|].
  destruct cs as [|c' cs].
  - change (join [c]) with c. by rewrite split_slash_sep.
  - change (join (c :: c' :: cs)) with (c +:+ String "/" (join (c' :: cs))).
    rewrite string_app_assoc.
    change (String "/" (join (c' :: cs)) +:+ String "/" s) with (String "/" (join (c' :: cs) +:+ String "/" s)).
    rewrite split_slash_sep, IH by done. done.
Qed.

Lemma clean_push_valid acc cs : Forall valid_comp cs → foldl clean_push acc cs = reverse cs ++ acc.
Proof.
  intros Hcs. revert acc. induction Hcs as [|c cs (H1 & H2 & H3 & _) Hcs IH]; intros acc; [done|].
  simpl. rewrite IH, reverse_cons, <-(assoc_L (++)). f_equal. unfold clean_push.
  destruct (String.eqb_spec c ""), (String.eqb_spec c "."), (String.eqb_spec c ".."); done.
Qed.

Lemma clean_push_acc acc cs : Forall valid_comp acc → Forall no_slash cs →
  Forall valid_comp (foldl clean_push acc cs).
Proof.
  intros Hacc Hcs. revert acc Hacc. induction Hcs as [|c cs Hc Hcs IH]; intros acc Hacc; [done|].
  simpl. apply IH. unfold clean_push.
  destruct (String.eqb_spec c ""), (String.eqb_spec c "."), (String.eqb_spec c ".."); simpl; try done.
  - destruct Hacc; [constructor|done].
  - constructor; [|done]. by split_and!.
Qed.

Lemma clean_components_valid path : Forall valid_comp (clean_components path).
Proof.
  unfold clean_components. apply Forall_reverse, clean_push_acc; [constructor|apply split_slash_no_slash].
Qed.

Lemma clean_join cs : Forall valid_comp cs → clean_components (join cs) = cs.
Proof.
  intros Hcs. destruct (decide (cs = [])) as [->|Hne]; [done|].
  unfold clean_components. rewrite split_join, clean_push_valid by done.
  by rewrite app_nil_r, reverse_involutive.
Qed.

Lemma clean_dir cs : Forall valid_comp cs → clean_components (dir_of cs) = cs.
Proof.
  intros Hcs. destruct cs as [|c cs]; [done|]. unfold clean_components, dir_of.
  rewrite (split_join_sep (c :: cs) "") by done.
  rewrite foldl_app, (clean_push_valid [] (c :: cs)) by done. cbn [split_slash foldl].
  unfold clean_push. cbn [String.eqb orb].
  by rewrite app_nil_r, reverse_involutive.
Qed.

Lemma join_snoc cs c : cs ≠ [] → join (cs ++ [c]) = join cs +:+ String "/" c.
Proof.
  induction cs as [|c1 cs IH]; intros Hne; [done|]. destruct cs as [|c2 cs]; [done|].
  change (join ((c1 :: c2 :: cs) ++ [c])) with (c1 +:+ String "/" (join ((c2 :: cs) ++ [c]))).
  rewrite IH by done.
  change (join (c1 :: c2 :: cs)) with (c1 +:+ String "/" (join (c2 :: cs))).
  by rewrite string_app_assoc.
Qed.

Lemma Split_app a b : no_slash b → filepath_Split (a +:+ String "/" b) = (a +:+ "/", b)%string.
Proof.
  intros Hb. induction a as [|c a IH].
  - change ("" +:+ String "/" b) with (String "/" b). cbn [filepath_Split].
    assert (filepath_Split b = (""%string, b)) as ->; [|done].
    induction b as [|c b IH]; [done|]. apply no_slash_cons in Hb as [Hc Hb].
    cbn [filepath_Split]. rewrite IH by done. by destruct (Ascii.eqb_spec c "/"%char).
  - change (String c a +:+ String "/" b) with (String c (a +:+ String "/" b)).
    cbn [filepath_Split]. rewrite IH. by destruct a.
Qed.

Lemma Split_single b : no_slash b → filepath_Split b = (""%string, b).
Proof.
  intros Hb. induction b as [|c b IH]; [done|]. apply no_slash_cons in Hb as [Hc Hb].
  cbn [filepath_Split]. rewrite IH by done. by destruct (Ascii.eqb_spec c "/"%char).
Qed.

Lemma Split_join cs c : Forall valid_comp (cs ++ [c]) →
  filepath_Split (join (cs ++ [c])) = (dir_of cs, c).
Proof.
  intros [Hcs Hc]%Forall_app. apply list.Forall_cons in Hc as [(_ & _ & _ & Hc) _].
  destruct cs as [|c1 cs]; [by apply Split_single|].
  rewrite join_snoc by done. by apply Split_app.
Qed.

Lemma dir_of_nonempty cs : cs ≠ [] → dir_of cs ≠ ""%string.
Proof.
  destruct cs as [|c cs]; [done|]. intros _. unfold dir_of. by destruct (join (c :: cs)).
Qed.

Lemma Base_join cs c : Forall valid_comp (cs ++ [c]) → filepath_Base (join (cs ++ [c])) = c.
Proof.
  intros Hv. assert (cs ++ [c] ≠ []) by (by destruct cs). unfold filepath_Base.
  destruct (join (cs ++ [c])) eqn:E.
  { pose proof (clean_join (cs ++ [c]) Hv) as Hc. rewrite E in Hc. by destruct cs. }
  rewrite <-E, split_join by done.
  rewrite (list.filter_app), (filter_cons_True _ c) by (by apply Forall_app in Hv as [_ [(? & _) _]%list.Forall_cons]).
  rewrite filter_nil, fmap_app. simpl. by rewrite List.last_last.
Qed.

Lemma Base_dir cs c : Forall valid_comp (cs ++ [c]) → filepath_Base (dir_of (cs ++ [c])) = c.
Proof.
  intros Hv. assert (dir_of (cs ++ [c]) = join (cs ++ [c]) +:+ String "/" "") as Hd by (by destruct cs).
  assert (split_slash (dir_of (cs ++ [c])) = (cs ++ [c]) ++ [""%string]) as Hs.
  { rewrite Hd, split_join_sep; [done|done|by destruct cs]. }
  unfold filepath_Base. destruct (dir_of (cs ++ [c])) eqn:E.
  { exfalso. apply (dir_of_nonempty (cs ++ [c])); [by destruct cs|done]. }
  rewrite Hs, !list.filter_app, (filter_cons_True _ c)
    by (by apply Forall_app in Hv as [_ [(? & _) _]%list.Forall_cons]).
  rewrite filter_cons_False, filter_nil, app_nil_r, fmap_app by naive_solver.
  simpl. by rewrite List.last_last.
Qed.

(** ** Lookup by path *)

(** Following names from a directory. *)
Definition walk (md : gmap Z metadataEntry) (root : Z) (cs : list string) : outcome Z :=
  foldl (λ o c, pid ← o; child_id md pid c) (Ok root) cs.

Lemma walk_snoc md root cs c : walk md root (cs ++ [c]) = (pid ← walk md root cs; child_id md pid c).
Proof. unfold walk. by rewrite foldl_app. Qed.

Lemma getIDByName_loop_S fuel md path root :
  getIDByName_loop (S fuel) md path root =
    if String.eqb path "" then Some (Ok root)
    else
      let '(parentDirectory, base) := filepath_Split (cleanEntryPath path) in
      match getIDByName_loop fuel md parentDirectory root with
      | None => None
      | Some (Ok parentID) => Some (child_id md parentID base)
      | Some o => Some o
      end.
Proof. done. Qed.

Lemma getIDByName_dir md root cs fuel : Forall valid_comp cs → (length cs < fuel)%nat →
  getIDByName_loop fuel md (dir_of cs) root = Some (walk md root cs).
Proof.
  revert cs. induction fuel as [|fuel IH]; intros cs Hv Hf; [lia|]. rewrite getIDByName_loop_S.
  destruct (decide (cs = [])) as [->|Hne]; [done|].
  destruct (String.eqb_spec (dir_of cs) "") as [E|_]; [by apply dir_of_nonempty in E|].
  unfold cleanEntryPath. rewrite clean_dir by done.
  destruct cs as [|c cs _] using rev_ind; [done|]. rewrite Split_join by done.
  rewrite IH; [|by apply Forall_app in Hv as [? _]|rewrite length_app in Hf; simpl in Hf; lia].
  rewrite walk_snoc. by destruct (walk md root cs).
Qed.

Lemma getIDByName_clean md root cs : Forall valid_comp cs →
  getIDByName md (join cs) root = Some (walk md root cs) ∧
  getIDByName md (dir_of cs) root = Some (walk md root cs).
Proof.
  intros Hv. unfold getIDByName. rewrite clean_join, clean_dir by done. split.
  - destruct (decide (cs = [])) as [->|Hne]; [done|]. rewrite getIDByName_loop_S.
    destruct (String.eqb_spec (join cs) "") as [E|_].
    { pose proof (clean_join cs Hv) as Hc. by rewrite E in Hc. }
    unfold cleanEntryPath. rewrite clean_join by done.
    destruct cs as [|c cs _] using rev_ind; [done|]. rewrite Split_join by done.
    rewrite getIDByName_dir; [|by apply Forall_app in Hv as [? _]|rewrite length_app; simpl; lia].
    rewrite walk_snoc. by destruct (walk md root cs).
  - apply getIDByName_dir; [done|lia].
Qed.

(** C33: looking a path up returns.  [getIDByName] terminates on every entry name, and
    finds what following the elements of the cleaned path one by one from the root
    finds, errors included. *)
Theorem getIDByName_walks md root name :
  getIDByName md (cleanEntryPath name) root = Some (walk md root (clean_components name)).
Proof. apply getIDByName_clean, clean_components_valid. Qed.

(** ** Chunks *)
Lemma partition_loop_spec {A} fuel (data : list A) k : (0 < k)%nat → (length data ≤ fuel)%nat →
  data ≠ [] → concat (partition_loop fuel data k) = data ∧
  Forall (λ c, c ≠ [] ∧ (length c ≤ k)%nat) (partition_loop fuel data k).
Proof.
  intros Hk. revert data. induction fuel as [|fuel IH]; intros data Hlen Hne.
  { by destruct data; simpl in Hlen; [|lia]. }
  cbn [partition_loop]. destruct (Nat.ltb_spec k (length data)).
  - destruct (IH (drop k data)) as [Hc Hall].
    { rewrite length_drop. lia. }
    { intros E%(f_equal length). rewrite length_drop in E. simpl in E. lia. }
    cbn [concat]. rewrite Hc, take_drop. split; [done|]. constructor; [|done].
    split; [|rewrite length_take; lia]. intros E%(f_equal length). rewrite length_take in E. simpl in E. lia.
  - simpl. rewrite app_nil_r. split; [done|]. repeat constructor; [done|lia].
Qed.

(** [partition] cuts a slice into non-empty chunks of at most the given size which
    together are the slice, and it returns for every positive size. *)
Theorem partition_correct {A} (data : list A) chunkSize :
  0 < chunkSize →
  concat (partition data chunkSize) = data ∧
  Forall (λ c, c ≠ [] ∧ zlen c ≤ chunkSize) (partition data chunkSize).
Proof.
  intros Hk. unfold partition. destruct (Z.leb_spec chunkSize 0); [lia|]. rewrite orb_false_r.
  destruct data as [|x data]; [done|].
  destruct (Z.eqb_spec (zlen (x :: data)) 0) as [E|_].
  { rewrite zlen_cons in E. pose proof (zlen_nonneg data). lia. }
  destruct (partition_loop_spec (length (x :: data)) (x :: data) (Z.to_nat chunkSize)) as [Hc Hall];
    [lia|lia|done|].
  split; [done|]. eapply list.Forall_impl; [exact Hall|]. intros c [? ?]. split; [done|]. unfold zlen. lia.
Qed.
