(* ===== verification/FileReader.v ===== *)
(** * Reading files

    Models [fs/reader/reader.go]: files are opened through the metadata store, verified
    against the tar header in the layer, and read through the span manager.  The tar
    parser is a parameter; layer reader and cache are arbitrary. *)
From Stdlib Require Import ZArith Lia.
From stdpp Require Import base list gmap strings numbers.
From S2P Require Import Prelude GoLib Compression GzipZinfo Ztoc ZtocBuilder BlobCache SpanManager.
From S2P Require Import Encoders MetadataDB MetadataTree.
#[local] Open Scope Z_scope.
#[local] Open Scope go_scope.

(** [archive/tar]: the first header of a stream, with the bytes read to get it. *)
Class TarParser (Time : Type) := {
  tar_Next : bytes → outcome (tar_Header Time * Z)
}.

Section reader.
Context {T C W R Time : Type}.
Context `{HZ : Zinfo T} `{HB : BlobCache C W} `{HR : ReaderAt R} `{HD : Digester}.
Context `{HT : GoTime Time} `{HM : MapRange} `{HP : TarParser Time}.

(** [lastReadTime] is the number of reads that set it. *)
Record reader := mkR {
  spanManager : SpanManager T C R Time;
  r_metadata : MetadataTree.reader;
  r_closed : bool;
  disableVerification : bool;
  lastReadTime : nat
}.

Definition NewReader (r : MetadataTree.reader) (m : SpanManager T C R Time) (disable : bool) : reader :=
  mkR m r false disable 0.

Record file := mkFile { f_id : Z; fr : metadataEntry; verified : bool }.

Definition errReaderClosed : error := ErrorString "reader is already closed".

Definition OpenFile (gr : reader) (id : Z) : outcome file :=
  if r_closed gr then Err errReaderClosed
  else fr ← map_err (Wrap "failed to open file") (MetadataTree.OpenFile (r_metadata gr) id);
       Ok (mkFile id fr false).

(** Closes the span manager once; closing the metadata drops its buckets. *)
Definition Close (gr : reader) : reader :=
  if r_closed gr then gr
  else mkR (SpanManager.Close (spanManager gr)).2 (MetadataTree.mkReader ∅ ∅ (rootID (r_metadata gr)))
         true (disableVerification gr) (lastReadTime gr).

Definition attrMatchesTarHeader (attr : Attr Time) (tarh : tar_Header Time) : bool :=
  (a_Size attr =? h_Size tarh)
  && time_Equal (a_ModTime attr) (h_ModTime tarh)
  && String.eqb (a_LinkName attr) (h_Linkname tarh)
  && (a_Mode attr =? tar_FileInfo_Mode (h_Mode tarh) (h_Typeflag tarh))
  && (a_UID attr =? h_Uid tarh) && (a_GID attr =? h_Gid tarh)
  && (a_DevMajor attr =? h_Devmajor tarh) && (a_DevMinor attr =? h_Devminor tarh)
  && (let tarXattrs := Xattrs (h_PAXRecords tarh) in
      (base.size (a_Xattrs attr) =? base.size tarXattrs)%nat
      && forallb (λ '(k, v), bool_decide (v = to_bytes (default ""%string (tarXattrs !! k))))
           (map_to_list (a_Xattrs attr))).

(** The state of a call on a file: the shared reader and the file. *)
Definition state : Type := reader * file.

Definition on_spans (order : nat → list nat) (a b : Offset) : ST state bytes := λ s,
  let '(o, m) := GetContents order a b (spanManager s.1) in
  (o, (mkR m (r_metadata s.1) (r_closed s.1) (disableVerification s.1) (lastReadTime s.1), s.2)).

(** What [Verify] demands of the header bytes, the attributes and the name. *)
Definition header_check (attr : Attr Time) (f : metadataEntry) (hdr : bytes) : outcome () :=
  match tar_Next hdr with
  | Ok (tarHeader, pos) =>
      if negb (pos =? m_TarHeaderSize f) then Err (ErrorString "incorrect tar header size")
      else if negb (attrMatchesTarHeader attr tarHeader)
      then Err (ErrorString "file attributes do not match tar header")
      else if negb (String.eqb (m_TarName f) (h_Name tarHeader))
      then Err (ErrorString "file name does not match tar header")
      else Ok tt
  | Err e => Err (Wrap "error reading tar header" e)
  | Panic => Panic
  end.

Definition set_verified : ST state () :=
  st_modify (λ s, (s.1, mkFile (f_id s.2) (fr s.2) true)).

Definition Verify (order : nat → list nat) : ST state () :=
  s <~ st_get;;
  if verified s.2 then st_ret tt
  else
    attr <~ st_lift (GetAttr (r_metadata s.1) (f_id s.2));;
    let f := fr s.2 in
    if m_TarHeaderSize f <? 0 then st_err (ErrorString "invalid tar header size")
    else
      hdr <~ on_spans order (m_TarHeaderOffset f) (int64 (m_TarHeaderOffset f + m_TarHeaderSize f));;
      st_lift (header_check attr f hdr);;;
      set_verified.

(** The bytes read into [p], of length [n]. *)
Definition ReadAt (order : nat → list nat) (n : Z) (offset : Z) : ST state bytes :=
  s <~ st_get;;
  (if disableVerification s.1 then st_ret tt else Verify order);;;
  if n =? 0 then st_ret []
  else
    let uncompFileSize := m_UncompressedSize (fr s.2) in
    if uncompFileSize <=? offset then st_err io_EOF
    else
      let expectedSize := Z.min (int64 (uncompFileSize - offset)) n in
      let fileOffsetStart := int64 (m_UncompressedOffset (fr s.2) + offset) in
      let fileOffsetEnd := int64 (fileOffsetStart + expectedSize) in
      r <~ st_map_err (Wrap "failed to read the file") (on_spans order fileOffsetStart fileOffsetEnd);;
      st_modify (λ s, (mkR (spanManager s.1) (r_metadata s.1) (r_closed s.1) (disableVerification s.1)
                         (S (lastReadTime s.1)), s.2));;;
      (* [io.ReadFull] of [expectedSize] bytes *)
      if zlen r <? expectedSize then st_err (Wrap "unexpected copied data size" io_ErrUnexpectedEOF)
      else st_ret (sub 0 expectedSize r).
End reader.
Arguments reader : clear implicits.

(** ** Correctness *)
Section correctness.
Context {T C W R Time : Type}.
Context `{HZ : Zinfo T} `{HB : BlobCache C W} `{HR : SpanManager.ReaderAt R} `{HD : Digester}.
Context `{HT : GoTime Time} `{HM : MapRange} `{HP : TarParser Time}.
Context `{HC : !BlobCacheLaws C W}.
Context {zi : T} {comp uncomp : bytes} {n : Z} {su sc ec : Z → Z}.
Context {HL : ZinfoLaws zi comp uncomp n su sc ec}.
Context `{HH : !HonestReader R comp}.
Context (Hcf : collision_free (n:=n) (comp:=comp) (sc:=sc) (ec:=ec)).
Context (Hcs : commits_succeed (C:=C) (W:=W)) (Hf : fits (comp:=comp) (uncomp:=uncomp)).
Context (Htar : ∀ b, tar_Next b ≠ Panic).
Context (order : nat → list nat) (Hord : ∀ k, order k ≡ₚ seq 0 k).

Abbreviation inv := (sm_inv (zi:=zi) (comp:=comp) (uncomp:=uncomp) (n:=n) (su:=su) (sc:=sc) (ec:=ec) None).
Implicit Types (gr : reader T C R Time) (f : file).

(** The header and the data of the file lie inside the layer. *)
Record in_layer (e : metadataEntry) : Prop := {
  il_off : 0 ≤ m_UncompressedOffset e;
  il_size : 0 ≤ m_UncompressedSize e;
  il_end : m_UncompressedOffset e + m_UncompressedSize e < zlen uncomp;
  il_hoff : 0 ≤ m_TarHeaderOffset e;
  il_hend : 0 ≤ m_TarHeaderSize e → m_TarHeaderOffset e + m_TarHeaderSize e < zlen uncomp
}.

(** What the tar header at the front of [hdr] has to say about the file. *)
Record attr_agrees (attr : Attr Time) (h : tar_Header Time) : Prop := {
  aa_size : a_Size attr = h_Size h;
  aa_time : time_Equal (a_ModTime attr) (h_ModTime h) = true;
  aa_link : a_LinkName attr = h_Linkname h;
  aa_mode : a_Mode attr = tar_FileInfo_Mode (h_Mode h) (h_Typeflag h);
  aa_owner : a_UID attr = h_Uid h ∧ a_GID attr = h_Gid h;
  aa_device : a_DevMajor attr = h_Devmajor h ∧ a_DevMinor attr = h_Devminor h;
  aa_xattrs_size : base.size (a_Xattrs attr) = base.size (Xattrs (h_PAXRecords h));
  aa_xattrs k v : a_Xattrs attr !! k = Some v →
    v = to_bytes (default ""%string (h_PAXRecords h !! (schilyXattrPrefix +:+ k)%string))
}.
Definition header_agrees (attr : Attr Time) (e : metadataEntry) (hdr : bytes) : Prop :=
  ∃ h, tar_Next hdr = Ok (h, m_TarHeaderSize e) ∧ attr_agrees attr h ∧ m_TarName e = h_Name h.

Lemma attrMatchesTarHeader_iff attr h : attrMatchesTarHeader attr h = true ↔ attr_agrees attr h.
Proof.
  unfold attrMatchesTarHeader. rewrite !andb_true_iff, !Z.eqb_eq, String.eqb_eq, Nat.eqb_eq, forallb_forall.
  assert ((∀ x, In x (map_to_list (a_Xattrs attr)) →
      (let '(k, v) := x in bool_decide (v = to_bytes (default ""%string (Xattrs (h_PAXRecords h) !! k)))) = true)
    ↔ ∀ k v, a_Xattrs attr !! k = Some v →
        v = to_bytes (default ""%string (h_PAXRecords h !! (schilyXattrPrefix +:+ k)%string))) as ->.
  { split.
    - intros Hall k v Hk. rewrite <-Xattrs_get. apply elem_of_map_to_list, list_elem_of_In in Hk.
      by apply Hall, bool_decide_eq_true in Hk.
    - intros Hall [k v] Hin%list_elem_of_In%elem_of_map_to_list. apply bool_decide_eq_true.
      rewrite Xattrs_get. by apply Hall. }
  split; [intros ?; destruct_and!; by split|intros []; by destruct_and!; split_and!].
Qed.

Lemma header_check_iff attr e hdr : header_check attr e hdr = Ok tt ↔ header_agrees attr e hdr.
Proof.
  unfold header_check, header_agrees. destruct (tar_Next hdr) as [[h pos]|e'|];
    [|split; [done|by intros (? & ? & _)]..].
  destruct (Z.eqb_spec pos (m_TarHeaderSize e)) as [->|]; simpl;
    [|split; [done|intros (h' & ? & _); congruence]].
  pose proof (attrMatchesTarHeader_iff attr h) as Hiff.
  destruct (attrMatchesTarHeader attr h); simpl;
    [|split; [done|intros (h' & [= ->] & Ha%Hiff & _); done]].
  destruct (String.eqb_spec (m_TarName e) (h_Name h)); simpl;
    split; try done; [|intros (h' & [= ->] & _ & ?); done].
  intros _. exists h. split_and!; [done|by apply Hiff|done].
Qed.

(** The tar header in the layer agrees with the attributes and the name. *)
Definition header_ok (md : MetadataTree.reader) f : Prop :=
  0 ≤ m_TarHeaderSize (fr f) ∧
  ∃ attr, GetAttr md (f_id f) = Ok attr ∧
    header_agrees attr (fr f)
      (sub (m_TarHeaderOffset (fr f)) (m_TarHeaderOffset (fr f) + m_TarHeaderSize (fr f)) uncomp).

(** The span manager is sound, and a file that is marked verified is. *)
Record state_ok (s : state (T:=T) (C:=C) (R:=R) (Time:=Time)) : Prop := {
  so_inv : inv (spanManager s.1);
  so_verified : verified s.2 = true → header_ok (r_metadata s.1) s.2
}.

(** The parts of the state that calls leave alone. *)
Definition same_file (s s' : state (T:=T) (C:=C) (R:=R) (Time:=Time)) : Prop :=
  r_metadata s'.1 = r_metadata s.1 ∧ f_id s'.2 = f_id s.2 ∧ fr s'.2 = fr s.2 ∧
  disableVerification s'.1 = disableVerification s.1.

Lemma wp_on_spans (g : Prop) a b s : 0 ≤ a ≤ b → b < zlen uncomp → state_ok s →
  (g → good (comp:=comp) (spanManager s.1)) →
  wp (on_spans order a b) s
    (λ r s', r = sub a b uncomp ∧ state_ok s' ∧ same_file s s' ∧ verified s'.2 = verified s.2 ∧
       (g → good (comp:=comp) (spanManager s'.1)))
    (λ s', state_ok s' ∧ ¬ g).
Proof.
  intros Ha Hb [Hinv Hver] Hg. unfold wp, on_spans.
  pose proof (wp_GetContents Hcf Hcs Hf g order a b (spanManager s.1) Hord Ha Hb Hinv Hg) as Hwp.
  unfold wp in Hwp. destruct (GetContents order a b (spanManager s.1)) as [[r|e|] m]; [| |done].
  - destruct Hwp as (-> & Hinv' & Hg'). split_and!; try done.
  - destruct Hwp as (Hinv' & Hng). split_and!; done.
Qed.

Lemma GetAttr_no_panic md id : GetAttr (Time:=Time) md id ≠ Panic.
Proof.
  unfold GetAttr, readNodeEntryToAttr. destruct (rd_nodes md !! id) as [b|]; [|done].
  destruct (kv b !! bucketKeyModTime) as [v|]; [|done]. by destruct (time_GobDecode v).
Qed.

Lemma header_check_no_panic attr e hdr : header_check (Time:=Time) attr e hdr ≠ Panic.
Proof.
  unfold header_check. pose proof (Htar hdr). destruct (tar_Next hdr) as [[h pos]|e'|]; try done.
  by repeat case_match.
Qed.

Lemma wp_Verify (g : Prop) s : in_layer (fr s.2) → state_ok s →
  (g → good (comp:=comp) (spanManager s.1) ∧ header_ok (r_metadata s.1) s.2) →
  wp (Verify order) s
    (λ _ s', state_ok s' ∧ same_file s s' ∧ header_ok (r_metadata s'.1) s'.2 ∧
       (g → good (comp:=comp) (spanManager s'.1)))
    (λ s', state_ok s' ∧ ¬ g).
Proof.
  intros Hin Hok Hg. unfold Verify. apply wp_bind. unfold wp at 1, st_get.
  destruct (verified s.2) eqn:Ev.
  { unfold wp, st_ret. split_and!; try done; [by apply (so_verified _ Hok)|]. by intros [? _]%Hg. }
  apply wp_bind. unfold wp at 1, st_lift.
  destruct (GetAttr (r_metadata s.1) (f_id s.2)) as [attr|e|] eqn:Ea;
    [|split; [done|]; intros (_ & _ & attr & Ha & _)%Hg; congruence|by apply GetAttr_no_panic in Ea].
  destruct (Z.ltb_spec (m_TarHeaderSize (fr s.2)) 0) as [Hneg|Hpos].
  { unfold wp, st_err. split; [done|]. intros (_ & Hp & _)%Hg. lia. }
  destruct Hin as [_ _ _ Hho Hhe]. specialize (Hhe Hpos). destruct Hf as [_ Hf2].
  rewrite int64_id by (unfold in_int64; lia). apply wp_bind.
  eapply wp_mono; [apply (wp_on_spans g); [lia|lia|done|by intros [? _]%Hg]| |done].
  intros hdr s' (-> & Hok' & Hsame & Hv' & Hg'). destruct Hsame as (Hs1 & Hs2 & Hs3 & Hs4).
  apply wp_bind. unfold wp at 1, st_lift.
  destruct (header_check attr (fr s.2) _) as [[]|e|] eqn:Eh;
    [|split; [done|]; intros (_ & _ & attr' & Ha & Hh%header_check_iff)%Hg; congruence
     |by apply header_check_no_panic in Eh].
  apply header_check_iff in Eh.
  assert (header_ok (r_metadata s'.1) (mkFile (f_id s'.2) (fr s'.2) true)) as Hhok.
  { unfold header_ok. simpl. rewrite Hs1, Hs2, Hs3. eauto. }
  unfold wp, set_verified, st_modify. split_and!; try done. by apply Build_state_ok; [apply Hok'|].
Qed.

(** What a read of [len] bytes at [offset] is to return. *)
Definition file_bytes (e : metadataEntry) (len offset : Z) : bytes :=
  sub (m_UncompressedOffset e + offset)
      (m_UncompressedOffset e + offset + Z.min (m_UncompressedSize e - offset) len) uncomp.

Lemma wp_ReadAt (g : Prop) len offset s :
  0 ≤ len → 0 ≤ offset → in_layer (fr s.2) → state_ok s →
  (g → good (comp:=comp) (spanManager s.1) ∧ offset < m_UncompressedSize (fr s.2) ∧
       (disableVerification s.1 = false → header_ok (r_metadata s.1) s.2)) →
  wp (ReadAt order len offset) s
    (λ bs s', state_ok s' ∧ (len = 0 ∧ bs = [] ∨
        0 < len ∧ offset < m_UncompressedSize (fr s.2) ∧ bs = file_bytes (fr s.2) len offset) ∧
        (disableVerification s.1 = false → header_ok (r_metadata s.1) s.2))
    (λ s', state_ok s' ∧ (0 < len → ¬ g)).
Proof.
  intros Hlen Hoff Hin Hok Hg. unfold ReadAt. apply wp_bind. unfold wp at 1, st_get. apply wp_bind.
  assert (wp (if disableVerification s.1 then st_ret tt else Verify order) s
    (λ _ s', state_ok s' ∧ (g → good (comp:=comp) (spanManager s'.1)) ∧
       (disableVerification s.1 = false → header_ok (r_metadata s.1) s.2))
    (λ s', state_ok s' ∧ (0 < len → ¬ g))) as Hv.
  { destruct (disableVerification s.1).
    - unfold wp, st_ret. split_and!; [done|by intros [? _]%Hg|done].
    - eapply wp_mono; [apply (wp_Verify g); [done|done|]| |].
      { intros (? & ? & ?)%Hg. split; auto. }
      2: { intros s' [? ?]. by split. }
      intros _ s' (? & (Hs1 & Hs2 & Hs3 & _) & Hh & ?). split_and!; try done. intros _.
      unfold header_ok in *. by rewrite <-Hs1, <-Hs2, <-Hs3. }
  eapply wp_mono; [exact Hv| |done]. intros _ s1 (Hok1 & Hg1 & Hh).
  destruct (Z.eqb_spec len 0) as [->|Hne].
  { unfold wp, st_ret. split_and!; [done|by left|done]. }
  destruct Hin as [Ho Hs He _ _]. destruct Hf as [_ Hf2].
  destruct (Z.leb_spec (m_UncompressedSize (fr s.2)) offset).
  { unfold wp, st_err. split; [done|]. intros _ (_ & ? & _)%Hg. lia. }
  rewrite !int64_id by (rewrite ?int64_id; unfold in_int64; rewrite ?int64_id; unfold in_int64; lia).
  apply wp_bind, wp_map_err. eapply wp_mono; [apply (wp_on_spans g); [lia|lia|done|done]| |].
  2: { intros s' [? ?]. by split. }
  intros r s2 (-> & Hok2 & _ & _ & _). apply wp_bind. unfold wp at 1, st_modify.
  set (k := Z.min (m_UncompressedSize (fr s.2) - offset) len) in *.
  rewrite zlen_sub by lia.
  destruct (Z.ltb_spec (m_UncompressedOffset (fr s.2) + offset + k - (m_UncompressedOffset (fr s.2) + offset)) k); [lia|].
  unfold wp, st_ret. split_and!.
  - destruct Hok2. by split.
  - right. split_and!; [lia|lia|]. unfold file_bytes. fold k. rewrite sub_sub by lia. f_equal; lia.
  - done.
Qed.

(** A read succeeds.  With an honest layer reader, a cache that works and a file whose
    tar header agrees with its attributes, a read that starts inside the file returns its
    bytes, up to the end of the file. *)
Theorem file_read_succeeds len offset s :
  0 < len → 0 ≤ offset < m_UncompressedSize (fr s.2) → in_layer (fr s.2) → state_ok s →
  good (comp:=comp) (spanManager s.1) → header_ok (r_metadata s.1) s.2 →
  ∃ s', ReadAt order len offset s = (Ok (file_bytes (fr s.2) len offset), s').
Proof.
  intros Hlen Hoff Hin Hok Hg Hh.
  pose proof (wp_ReadAt True len offset s ltac:(lia) ltac:(lia) Hin Hok) as Hwp.
  unfold wp in Hwp. destruct (ReadAt order len offset s) as [[bs|e|] s'].
  - destruct Hwp as (_ & Hbs & _); [by intros _; split_and!; [done|lia|done]|].
    exists s'. destruct Hbs as [[? _]|(_ & _ & ->)]; [lia|done].
  - destruct Hwp as [_ Hng]; [by intros _; split_and!; [done|lia|done]|]. by destruct Hng.
  - destruct Hwp. intros _. split_and!; [done|lia|done].
Qed.
End correctness.

(** ** Verification accepts what the builder recorded *)
Section built.
Context {Time : Type} `{HT : GoTime Time}.

Lemma getType_flag (h : tar_Header Time) ty : getType h = Ok ty →
  TypeReg ≤ h_Typeflag h ≤ TypeFifo ∧ ty = type_of_flag (h_Typeflag h).
Proof.
  unfold getType, type_of_flag, TypeReg, TypeLink, TypeSymlink, TypeChar, TypeBlock, TypeDir, TypeFifo.
  intros Hg. zcases; injection Hg as <-; split; done || lia.
Qed.

(** No false alarms.  The attributes the metadata store derives from the ztoc entry of
    a tar header match that header, so files of a layer whose ztoc was built from it pass
    verification. *)
Theorem verification_accepts_built (h : tar_Header Time) ty pos off nl :
  (∀ t : Time, time_Equal t t = true) → 0 ≤ h_Mode h < 4096 → getType h = Ok ty →
  attrMatchesTarHeader (attrFromZtocEntry (entry_of_header h ty pos off) nl) h = true.
Proof.
  intros Heq Hm Ht. apply getType_flag in Ht as [Hflag ->]. unfold attrMatchesTarHeader, attrFromZtocEntry.
  cbn [a_Size a_ModTime a_LinkName a_Mode a_UID a_GID a_DevMajor a_DevMinor a_Xattrs].
  unfold FileMetadata_Xattrs. cbn [entry_of_header UncompressedSize ModTime Linkname UID GID Devmajor Devminor PAXHeaders].
  rewrite (FileMode_matches_tar _ (h_Typeflag h)) by done. cbn [entry_of_header Mode].
  rewrite !Z.eqb_refl, Heq, String.eqb_refl, map_size_fmap, Nat.eqb_refl. cbn [andb].
  apply forallb_forall. intros [k v] Hin%list_elem_of_In%elem_of_map_to_list.
  rewrite lookup_fmap in Hin. apply fmap_Some in Hin as (x & Hx & ->).
  apply bool_decide_eq_true. by rewrite Hx.
Qed.
End built.
