(* ===== verification/LostCommit.v ===== *)
(** * Reads when commits may fail

    The span manager drops the error of [Commit] ([fs/span-manager/span_manager.go],
    [addSpanToCache]).  What a read returns is therefore only right as long as no commit was
    lost.  A cache may keep track of that ([CommitLog]); the theorems here say that reads are
    exact, or a commit was lost.

    The proofs compare two runs of the span manager.  The other cache ([ghost]) is the real
    one until a commit fails; from then on it is a map that holds what should have been
    committed.  Its commits never fail, so that the theorems of [SpanManager] and [FileReader]
    apply to it, and until a commit is lost the two runs are the same. *)
From Stdlib Require Import ZArith Lia.
From stdpp Require Import base list gmap strings numbers.
From S2P Require Import Prelude GoLib Compression GzipZinfo Ztoc ZtocBuilder BlobCache SpanManager.
From S2P Require Import Encoders MetadataDB MetadataTree FileReader.
#[local] Open Scope Z_scope.
#[local] Open Scope go_scope.

(** ** Caches that know whether a commit was lost *)
Class CommitLog (C W : Type) `{HB : BlobCache C W} `{HC : !BlobCacheLaws C W} := {
  lost : C → Prop;
  lost_commit w c k b e c' :
    cache_ok c → pending w c = Some (k, b) → writer_Commit w c = (Err e, c') → lost c';
  lost_Add k c : lost c → lost (cache_Add k c).2;
  lost_Get k c : lost c → lost (cache_Get k c).2;
  lost_Write w p c : lost c → lost (writer_Write w p c).2;
  lost_Commit w c : lost c → lost (writer_Commit w c).2;
  lost_Abort w c : lost c → lost (writer_Abort w c).2;
  lost_Close w c : lost c → lost (writer_Close w c).2
}.
Create HintDb lost.
#[global] Hint Resolve lost_Add lost_Get lost_Write lost_Commit lost_Abort lost_Close : lost.

(** The memory cache never loses one. *)
#[global, refine] Instance memory_log : CommitLog MemoryCache.t MemoryCache.writer := {| lost _ := False |}.
Proof. all: done. Defined.

(** Any cache can be watched: the flag is set when [Commit] returns an error. *)
Section watched.
Context {C W : Type} `{HB : BlobCache C W} `{HC : !BlobCacheLaws C W}.

Record watched := mkWatched { w_cache : C; w_lost : bool }.

Definition watch {A} (op : ST C A) : ST watched A := λ c,
  let '(o, c') := op (w_cache c) in (o, mkWatched c' (w_lost c)).
Definition watch_Commit (w : W) : ST watched () := λ c,
  let '(o, c') := writer_Commit w (w_cache c) in
  (o, mkWatched c' (w_lost c || match o with Err _ => true | _ => false end)).

#[global] Instance watched_cache : BlobCache watched W := {|
  cache_Add k := watch (cache_Add k); cache_Get k := watch (cache_Get k); cache_Close := watch cache_Close;
  writer_Write w p := watch (writer_Write w p); writer_Commit := watch_Commit;
  writer_Abort w := watch (writer_Abort w); writer_Close w := watch (writer_Close w) |}.

#[global, refine] Instance watched_laws : BlobCacheLaws watched W := {|
  view c := view (w_cache c); pending w c := pending w (w_cache c);
  cache_ok c := cache_ok (w_cache c); healthy c := healthy (w_cache c) |}.
Proof.
  - intros k c Hok. pose proof (add_law k _ Hok) as H. simpl. unfold watch. by destruct (cache_Add k (w_cache c)) as [[] ?].
  - intros w p k b c Hok Hp. pose proof (write_law w p _ _ _ Hok Hp) as H. simpl. unfold watch.
    by destruct (writer_Write w p (w_cache c)) as [[] ?].
  - intros w k b c Hok Hp. pose proof (commit_law w _ _ _ Hok Hp) as H. simpl. unfold watch_Commit.
    by destruct (writer_Commit w (w_cache c)) as [[] ?].
  - intros w c Hok. pose proof (abort_law w _ Hok) as H. simpl. unfold watch. by destruct (writer_Abort w (w_cache c)).
  - intros w c Hok. pose proof (close_law w _ Hok) as H. simpl. unfold watch. by destruct (writer_Close w (w_cache c)).
  - intros k c Hok. pose proof (get_law k _ Hok) as H. simpl. unfold watch. by destruct (cache_Get k (w_cache c)) as [[] ?].
Defined.

Lemma watch_lost {A} (op : ST C A) c : w_lost c = true → w_lost (watch op c).2 = true.
Proof. unfold watch. by destruct (op (w_cache c)). Qed.

#[global, refine] Instance watched_log : CommitLog watched W := {| lost c := w_lost c = true |}.
Proof.
  - intros w c k b e c' _ _. simpl. unfold watch_Commit. destruct (writer_Commit w (w_cache c)) as [o c1].
    intros [= -> <-]. apply orb_true_r.
  - intros. by apply watch_lost.
  - intros. by apply watch_lost.
  - intros. by apply watch_lost.
  - intros w c Hl. simpl. unfold watch_Commit. destruct (writer_Commit w (w_cache c)). simpl. by rewrite Hl.
  - intros. by apply watch_lost.
  - intros. by apply watch_lost.
Defined.
End watched.
Arguments watched : clear implicits.

(** ** The ghost cache *)
Record shadow := mkShadow { sh_view : gmap string bytes; sh_open : list (string * bytes) }.

Section ghost.
Context {C W : Type} `{HB : BlobCache C W} `{HC : !BlobCacheLaws C W}.

Definition ghost : Type := C + shadow.
Definition ghost_writer : Type := W + nat.

Definition real {A B} (f : A → B) (r : outcome A * C) : outcome B * ghost :=
  (match r.1 with Ok a => Ok (f a) | Err e => Err e | Panic => Panic end, inl r.2).
Definition refused {A} (g : ghost) : outcome A * ghost := (Err (ErrorString "writer of another cache"), g).

Definition g_Add (k : string) : ST ghost ghost_writer := λ g,
  match g with
  | inl c => real inl (cache_Add k c)
  | inr s => (Ok (inr (length (sh_open s))), inr (mkShadow (sh_view s) (sh_open s ++ [(k, [])])))
  end.
Definition g_Get (k : string) : ST ghost bytes := λ g,
  match g with
  | inl c => real Datatypes.id (cache_Get k c)
  | inr s => (match sh_view s !! k with Some b => Ok b | None => Err (ErrorString "missed cache") end, inr s)
  end.
Definition g_Write (w : ghost_writer) (p : bytes) : ST ghost Z := λ g,
  match w, g with
  | inl w, inl c => real Datatypes.id (writer_Write w p c)
  | inr w, inr s => (Ok (zlen p), inr (mkShadow (sh_view s) (alter (λ x, (x.1, x.2 ++ p)) w (sh_open s))))
  | _, _ => refused g
  end.
(** A commit that fails is made up for. *)
Definition g_Commit (w : ghost_writer) : ST ghost () := λ g,
  match w, g with
  | inl w, inl c =>
      match writer_Commit w c, pending w c with
      | (Err _, _), Some (k, b) => (Ok tt, inr (mkShadow (<[k := b]> (view c)) []))
      | r, _ => real Datatypes.id r
      end
  | inr w, inr s =>
      match sh_open s !! w with
      | Some (k, b) => (Ok tt, inr (mkShadow (<[k := b]> (sh_view s)) (sh_open s)))
      | None => refused g
      end
  | _, _ => refused g
  end.
Definition g_Abort (w : ghost_writer) : ST ghost () := λ g,
  match w, g with inl w, inl c => real Datatypes.id (writer_Abort w c) | _, _ => (Ok tt, g) end.
Definition g_CloseWriter (w : ghost_writer) : ST ghost () := λ g,
  match w, g with inl w, inl c => real Datatypes.id (writer_Close w c) | _, _ => (Ok tt, g) end.
Definition g_Close : ST ghost () := λ g,
  match g with inl c => real Datatypes.id (cache_Close c) | inr s => (Ok tt, inr s) end.

#[global] Instance ghost_cache : BlobCache ghost ghost_writer := {|
  cache_Add := g_Add; cache_Get := g_Get; cache_Close := g_Close;
  writer_Write := g_Write; writer_Commit := g_Commit; writer_Abort := g_Abort; writer_Close := g_CloseWriter |}.

Definition g_view (g : ghost) : gmap string bytes := match g with inl c => view c | inr s => sh_view s end.
Definition g_pending (w : ghost_writer) (g : ghost) : option (string * bytes) :=
  match w, g with inl w, inl c => pending w c | inr w, inr s => sh_open s !! w | _, _ => None end.
Definition g_ok (g : ghost) : Prop := match g with inl c => cache_ok c | inr _ => True end.
Definition g_healthy (g : ghost) : Prop := match g with inl c => healthy c | inr _ => True end.

#[global, refine] Instance ghost_laws : BlobCacheLaws ghost ghost_writer := {|
  view := g_view; pending := g_pending; cache_ok := g_ok; healthy := g_healthy |}.
Proof.
  - intros k [c|s] Hok; simpl in *.
    + pose proof (add_law k c Hok). by destruct (cache_Add k c) as [[] ?].
    + by rewrite lookup_app_r, Nat.sub_diag by lia.
  - intros [w|w] p k b [c|s] Hok Hp; simpl in *; try done.
    + pose proof (write_law w p _ _ c Hok Hp). by destruct (writer_Write w p c) as [[] ?].
    + split_and!; [done..| |done]. by rewrite list_lookup_alter_eq, Hp.
  - intros [w|w] k b [c|s] Hok Hp; simpl in *; try done.
    + pose proof (commit_law w _ _ c Hok Hp) as Hc. rewrite Hp.
      destruct (writer_Commit w c) as [[[]|e|] c']; simpl in *; [done| |done]. by split_and!.
    + by rewrite Hp.
  - intros [w|w] [c|s] Hok; simpl in *; try done.
    pose proof (abort_law w c Hok). by destruct (writer_Abort w c) as [[] ?].
  - intros [w|w] [c|s] Hok; simpl in *; try done.
    pose proof (close_law w c Hok). by destruct (writer_Close w c) as [[] ?].
  - intros k [c|s] Hok; simpl in *.
    + pose proof (get_law k c Hok). by destruct (cache_Get k c) as [[] ?].
    + by destruct (sh_view s !! k).
Defined.

Lemma ghost_commits_succeed : commits_succeed (C:=ghost) (W:=ghost_writer).
Proof.
  intros [w|w] [c|s] k b Hok Hp; simpl in *; try done; [|by rewrite Hp].
  pose proof (commit_law w _ _ c Hok Hp) as Hc. rewrite Hp. by destruct (writer_Commit w c) as [[[]|e|] c'].
Qed.
End ghost.
Arguments ghost : clear implicits.
Arguments ghost_writer : clear implicits.

(** ** Two runs

    [gh] embeds the states of one run into those of the other.  From a state that is [ok] the
    second run does the same as the first, or a commit was lost; what was lost stays lost. *)
Section runs.
Context {S SG : Type} (gh : S → SG) (ok lst : S → Prop).

Record Sim {A} (op : ST S A) (opG : ST SG A) : Prop := {
  sim_run s : ok s → lst (op s).2 ∨ ok (op s).2 ∧ opG (gh s) = ((op s).1, gh (op s).2);
  sim_lost s : lst s → lst (op s).2
}.

Lemma Sim_lift {A} (o : outcome A) : Sim (st_lift o) (st_lift o).
Proof. split; simpl; auto. Qed.
Lemma Sim_ret {A} (a : A) : Sim (st_ret a) (st_ret a).
Proof. apply (Sim_lift (Ok a)). Qed.
Lemma Sim_err {A} e : Sim (A:=A) (st_err e) (st_err e).
Proof. apply (Sim_lift (Err e)). Qed.

Lemma Sim_bind {A B} (op : ST S A) opG (f : A → ST S B) fG :
  Sim op opG → (∀ a, Sim (f a) (fG a)) → Sim (st_bind op f) (st_bind opG fG).
Proof.
  intros [Hr Hl] Hf. split; unfold st_bind.
  - intros s Hok. specialize (Hr s Hok). destruct (op s) as [[a|e|] s1]; simpl in *.
    + destruct Hr as [Hlost|[Hok1 ->] ]; [left; by apply (Hf a)|by apply (Hf a)].
    + destruct Hr as [?|[? ->] ]; auto.
    + destruct Hr as [?|[? ->] ]; auto.
  - intros s Hlst%Hl. destruct (op s) as [[a|e|] s1]; simpl in *; [by apply (Hf a)|done..].
Qed.

Lemma Sim_get {A} (f : S → ST S A) fG : (∀ s, Sim (f s) (fG (gh s))) → Sim (st_bind st_get f) (st_bind st_get fG).
Proof. intros Hf. split; intros s; apply (Hf s). Qed.

Lemma Sim_map_err {A} f (op : ST S A) opG : Sim op opG → Sim (st_map_err f op) (st_map_err f opG).
Proof.
  intros [Hr Hl]. split; unfold st_map_err; intros s Hs; [specialize (Hr s Hs)|specialize (Hl s Hs)];
    destruct (op s) as [o s']; simpl in *; [|done].
  destruct Hr as [?|[? ->] ]; auto.
Qed.

(** What reads the state and may change it, but not the cache. *)
Lemma Sim_pure {A} (op : ST S A) opG :
  (∀ s, opG (gh s) = ((op s).1, gh (op s).2)) → (∀ s, ok s → ok (op s).2) → (∀ s, lst s → lst (op s).2) → Sim op opG.
Proof. intros H1 H2 H3. split; auto. Qed.
End runs.

Section manager.
Context {T C W R Time : Type}.
Context `{HZ : Zinfo T} `{HB : BlobCache C W} `{HR : ReaderAt R} `{HD : Digester}.
Context `{HC : !BlobCacheLaws C W} `{HLog : !CommitLog C W}.

Abbreviation SM := (SpanManager T C R Time).
Abbreviation SMG := (SpanManager T (ghost C) R Time).

Definition ghostly (m : SM) : SMG :=
  mkSM (inl (sm_cache m)) (sm_zinfo m) (sm_r m) (spans m) (sm_ztoc m)
    (maxSpanVerificationFailureRetries m) (sm_closed m).
Definition m_ok (m : SM) : Prop := cache_ok (sm_cache m).
Definition m_lost (m : SM) : Prop := lost (sm_cache m).
Abbreviation simulated := (Sim ghostly m_ok m_lost).

Lemma sim_addSpanToCache i b : simulated (addSpanToCache i b) (addSpanToCache i b).
Proof.
  split.
  - intros m Hok. unfold addSpanToCache, st_bind, on_cache, deferring, m_lost, m_ok in *. simpl.
    pose proof (add_law (key i) (sm_cache m) Hok) as Ha.
    destruct (cache_Add (key i) (sm_cache m)) as [[w|e|] c1] eqn:Ea; simpl; [|naive_solver|done].
    destruct Ha as (Hok1 & Hv1 & Hp1 & _). pose proof (write_law w b _ _ _ Hok1 Hp1) as Hw.
    destruct (writer_Write w b c1) as [[x|e|] c2] eqn:Ew; simpl; [| |done].
    + destruct Hw as (Hok2 & Hv2 & Hp2 & _). pose proof (commit_law w _ _ c2 Hok2 Hp2) as Hc.
      destruct (writer_Commit w c2) as [[[]|e|] c3] eqn:Ec; simpl; [| |done].
      * destruct Hc as (Hok3 & _). pose proof (close_law w c3 Hok3) as (_ & Hok4 & _).
        destruct (writer_Close w c3) as [o4 c4]; simpl in *. auto.
      * left. pose proof (lost_commit _ _ _ _ _ _ Hok2 Hp2 Ec) as Hl.
        pose proof (lost_Close w _ Hl) as Hl'. by destruct (writer_Close w c3).
    + destruct Hw as (Hok2 & Hv2 & _). pose proof (abort_law w c2 Hok2) as (_ & Hok3 & _).
      destruct (writer_Abort w c2) as [o3 c3]; simpl in *. pose proof (close_law w c3 Hok3) as (_ & Hok4 & _).
      destruct (writer_Close w c3) as [o4 c4]; simpl in *. auto.
  - intros m Hl. unfold addSpanToCache, st_bind, on_cache, deferring, m_lost in *.
    pose proof (lost_Add (key i) _ Hl) as H1. destruct (cache_Add (key i) (sm_cache m)) as [[w|e|] c1]; simpl in *; [|done..].
    pose proof (lost_Write w b _ H1) as H2. destruct (writer_Write w b c1) as [[x|e|] c2]; simpl in *.
    + pose proof (lost_Commit w _ H2) as H3. destruct (writer_Commit w c2) as [o3 c3]; simpl in *.
      pose proof (lost_Close w _ H3) as H4. by destruct (writer_Close w c3).
    + pose proof (lost_Abort w _ H2) as H3. destruct (writer_Abort w c2) as [o3 c3]; simpl in *.
      pose proof (lost_Close w _ H3) as H4. by destruct (writer_Close w c3).
    + pose proof (lost_Close w _ H2) as H4. by destruct (writer_Close w c2).
Qed.

Lemma sim_getSpanFromCache i a b : simulated (getSpanFromCache i a b) (getSpanFromCache i a b).
Proof.
  split; intros m Hm; unfold getSpanFromCache, on_cache, m_ok, m_lost in *; simpl.
  - pose proof (get_law (key i) (sm_cache m) Hm) as Hg.
    destruct (cache_Get (key i) (sm_cache m)) as [[x|e|] c]; simpl; [| |done]; destruct Hg as (? & _); auto.
  - pose proof (lost_Get (key i) _ Hm) as Hg. by destruct (cache_Get (key i) (sm_cache m)) as [[] ?].
Qed.

Lemma sim_get_span i : simulated (get_span i) (get_span i).
Proof. by apply Sim_pure. Qed.
Lemma sim_uncompressing s b : simulated (uncompressing s b) (uncompressing s b).
Proof. by apply Sim_pure. Qed.
Lemma sim_span_setState i st : simulated (span_setState i st) (span_setState i st).
Proof.
  apply Sim_pure; intros m; unfold span_setState, m_ok, m_lost; simpl;
    destruct (index (spans m) i) as [s| |]; try done; by destruct (setState s st).
Qed.
Lemma sim_on_reader n off : simulated (on_reader n off) (on_reader n off).
Proof.
  apply Sim_pure; intros m; unfold on_reader, m_ok, m_lost; simpl; by destruct (SectionReader_ReadAt n off (sm_r m)).
Qed.

Lemma sim_fetch_loop k i off sz last : simulated (fetch_loop k i off sz last) (fetch_loop k i off sz last).
Proof.
  revert last. induction k as [|k IH]; intros last; cbn [fetch_loop].
  { destruct last; [apply Sim_err|apply Sim_ret]. }
  apply Sim_bind; [apply sim_on_reader|]. intros [buf err]. apply Sim_bind.
  { destruct err as [e|]; [destruct (errors_Is e io_EOF)|]; first [apply Sim_ret|apply Sim_err]. }
  intros _. destruct (negb _); [apply Sim_err|]. split; intros m Hm.
  - change (verifySpanContents buf i (ghostly m)) with (verifySpanContents buf i m).
    destruct (verifySpanContents buf i m); [by auto|by apply IH|by auto].
  - destruct (verifySpanContents buf i m); [done|by apply (IH (Some e))|done].
Qed.

Lemma sim_fetchSpanWithRetries i : simulated (fetchSpanWithRetries i) (fetchSpanWithRetries i).
Proof.
  apply Sim_bind; [apply sim_get_span|]. intros s. apply Sim_bind; [apply Sim_lift|]. intros _.
  apply Sim_get. intros m. apply sim_fetch_loop.
Qed.

Lemma sim_fetchAndCacheSpan i u : simulated (fetchAndCacheSpan i u) (fetchAndCacheSpan i u).
Proof.
  unfold fetchAndCacheSpan. apply Sim_bind; [apply sim_get_span|]. intros s.
  apply Sim_bind; [apply sim_span_setState|]. intros _.
  assert (simulated
    (compressedBuf <~ fetchSpanWithRetries i;;
     buf <~ (if u then uncompressing s compressedBuf else st_ret compressedBuf);;
     addSpanToCache i buf;;;
     span_setState i (if u then uncompressed else fetched);;;
     st_ret buf)
    (compressedBuf <~ fetchSpanWithRetries i;;
     buf <~ (if u then uncompressing s compressedBuf else st_ret compressedBuf);;
     addSpanToCache i buf;;;
     span_setState i (if u then uncompressed else fetched);;;
     st_ret buf)) as [Hr Hl].
  { apply Sim_bind; [apply sim_fetchSpanWithRetries|]. intros b.
    apply Sim_bind; [destruct u; [apply sim_uncompressing|apply Sim_ret]|]. intros buf.
    apply Sim_bind; [apply sim_addSpanToCache|]. intros _.
    apply Sim_bind; [apply sim_span_setState|]. intros _. apply Sim_ret. }
  destruct (sim_span_setState i unrequested) as [Hrs Hls].
  split; intros m Hm; [specialize (Hr m Hm)|specialize (Hl m Hm)]; destruct (st_bind _ _ m) as [[b|e|] m']; simpl in *;
    try done.
  - destruct Hr as [?|[? ->] ]; auto.
  - destruct Hr as [Hlost|[Hok ->] ]; simpl.
    + left. destruct (index (spans m') i) as [s'| |]; try done. destruct (checkState s' requested); [by apply Hls|done].
    + destruct (index (spans m') i) as [s'| |]; auto. destruct (checkState s' requested); [|by auto].
      destruct (Hrs m' Hok) as [?|[? ->] ]; auto.
  - destruct Hr as [?|[? ->] ]; auto.
  - destruct (index (spans m') i) as [s'| |]; try done. destruct (checkState s' requested); [by apply Hls|done].
Qed.

Lemma sim_FetchSingleSpan i : simulated (FetchSingleSpan i) (FetchSingleSpan i).
Proof.
  apply Sim_get. intros m. change (MaxSpan (ghostly m)) with (MaxSpan m). destruct (_ <? _); [apply Sim_err|].
  apply Sim_bind; [apply sim_get_span|]. intros s. destruct (negb _); [apply Sim_ret|].
  apply Sim_bind; [apply sim_fetchAndCacheSpan|]. intros _. apply Sim_ret.
Qed.
Lemma sim_ResolveSpan i : simulated (ResolveSpan i) (ResolveSpan i).
Proof.
  apply Sim_get. intros m. change (MaxSpan (ghostly m)) with (MaxSpan m). destruct (_ <? _); [apply Sim_err|].
  apply Sim_bind; [apply sim_get_span|]. intros s. destruct (checkState _ _); [apply Sim_ret|].
  apply Sim_bind; [apply sim_fetchAndCacheSpan|]. intros _. apply Sim_ret.
Qed.
Lemma sim_getSpanContent i a b : simulated (getSpanContent i a b) (getSpanContent i a b).
Proof.
  apply Sim_bind; [apply sim_get_span|]. intros s. destruct (checkState s uncompressed); [apply sim_getSpanFromCache|].
  destruct (checkState s fetched).
  - apply Sim_bind; [apply sim_getSpanFromCache|]. intros x. apply Sim_bind; [apply sim_uncompressing|]. intros y.
    apply Sim_bind; [apply sim_addSpanToCache|]. intros _. apply Sim_bind; [apply sim_span_setState|]. intros _.
    apply Sim_lift.
  - apply Sim_bind; [apply sim_fetchAndCacheSpan|]. intros x. apply Sim_lift.
Qed.

Lemma sim_run_jobs si sched rs ferr : simulated (run_jobs si sched rs ferr) (run_jobs si sched rs ferr).
Proof.
  revert rs ferr. induction sched as [|j sched IH]; intros rs ferr; cbn [run_jobs].
  { destruct ferr; [apply Sim_err|apply Sim_ret]. }
  assert (simulated (span_job si (Z.of_nat j)) (span_job si (Z.of_nat j))) as [Hr Hl].
  { apply Sim_bind; [apply Sim_lift|]. intros x. apply Sim_bind; [apply Sim_lift|]. intros y. apply sim_getSpanContent. }
  split; intros m Hm; [specialize (Hr m Hm)|specialize (Hl m Hm)];
    destruct (span_job si (Z.of_nat j) m) as [[b|e|] m']; simpl in *; try done.
  - destruct Hr as [?|[? ->] ]; [left|]; by apply IH.
  - destruct Hr as [?|[? ->] ]; [left|]; by apply IH.
  - destruct Hr as [?|[? ->] ]; auto.
  - by apply IH.
  - by apply IH.
Qed.

Lemma sim_GetContents order a b : simulated (GetContents order a b) (GetContents order a b).
Proof.
  apply Sim_get. intros m. change (getSpanInfo a b (ghostly m)) with (getSpanInfo a b m).
  apply Sim_bind; [apply Sim_lift|]. intros si. apply Sim_bind; [apply Sim_lift|]. intros rs.
  apply Sim_bind; [apply sim_run_jobs|]. intros x. apply Sim_ret.
Qed.

Lemma sim_run_sm_op o : simulated (run_sm_op o) (run_sm_op o).
Proof.
  destruct o; simpl; [apply sim_FetchSingleSpan|apply sim_ResolveSpan|].
  apply Sim_bind; [apply sim_GetContents|]. intros _. apply Sim_ret.
Qed.

Lemma run_sm_ops_lost ops m : m_lost m → m_lost (run_sm_ops ops m).
Proof. revert m. induction ops as [|o ops IH]; intros m Hm; [done|]. apply IH. by apply sim_run_sm_op. Qed.
Lemma run_sm_ops_ghostly ops m : m_ok m →
  m_lost (run_sm_ops ops m) ∨ m_ok (run_sm_ops ops m) ∧ run_sm_ops ops (ghostly m) = ghostly (run_sm_ops ops m).
Proof.
  revert m. induction ops as [|o ops IH]; intros m Hm; [by right|]. simpl.
  destruct (sim_run _ _ _ _ _ (sim_run_sm_op o) m Hm) as [Hl|[Hok ->] ].
  - left. by apply run_sm_ops_lost.
  - by apply IH.
Qed.
End manager.

(** ** Exact, or a commit was lost *)
Section exact.
Context {T C W R Time : Type}.
Context `{HZ : Zinfo T} `{HB : BlobCache C W} `{HR : SpanManager.ReaderAt R} `{HD : Digester}.
Context `{HC : !BlobCacheLaws C W} `{HLog : !CommitLog C W}.
Context {zi : T} {comp uncomp : bytes} {n : Z} {su sc ec : Z → Z}.
Context {HL : ZinfoLaws zi comp uncomp n su sc ec}.
Context (Hcf : collision_free (n:=n) (comp:=comp) (sc:=sc) (ec:=ec)) (Hf : fits (comp:=comp) (uncomp:=uncomp)).
Implicit Types m : SpanManager T C R Time.

Abbreviation inv := (sm_inv (zi:=zi) (comp:=comp) (uncomp:=uncomp) (n:=n) (su:=su) (sc:=sc) (ec:=ec) None).

Lemma ghostly_inv m : inv m → inv (ghostly m).
Proof. by intros []. Qed.
Lemma unghostly_inv m : inv (ghostly m) → inv m.
Proof. by intros []. Qed.

Lemma GetContents_or_lost order a b m :
  (∀ k, order k ≡ₚ seq 0 k) → 0 ≤ a ≤ b → b < zlen uncomp → inv m →
  m_lost (GetContents order a b m).2 ∨
  inv (GetContents order a b m).2 ∧
  match (GetContents order a b m).1 with Ok bs => bs = sub a b uncomp | Err _ => True | Panic => False end.
Proof.
  intros Ho Ha Hb Hinv.
  destruct (sim_run _ _ _ _ _ (sim_GetContents order a b) m (smi_cache _ _ Hinv)) as [?|[_ Heq] ]; [by left|right].
  pose proof (wp_GetContents (HH:=nobody_honest) Hcf ghost_commits_succeed Hf False order a b _ Ho Ha Hb
    (ghostly_inv m Hinv) ltac:(done)) as Hwp.
  unfold wp in Hwp. rewrite Heq in Hwp. destruct (GetContents order a b m) as [[bs|e|] m']; simpl in *; [| |done].
  - destruct Hwp as (-> & Hi & _). split; [by apply unghostly_inv|done].
  - destruct Hwp as [Hi _]. split; [by apply unghostly_inv|done].
Qed.

Lemma run_sm_ops_or_lost ops m : Forall (sm_op_ok (uncomp:=uncomp)) ops → inv m →
  m_lost (run_sm_ops ops m) ∨ inv (run_sm_ops ops m).
Proof.
  intros Hops Hinv. destruct (run_sm_ops_ghostly ops m (smi_cache _ _ Hinv)) as [?|[_ Heq] ]; [by left|right].
  apply unghostly_inv. rewrite <-Heq.
  by apply (sm_ops_inv (HH:=nobody_honest) Hcf ghost_commits_succeed Hf); [|apply ghostly_inv].
Qed.

(** After any operations. *)
Lemma served_or_lost ops order a b m :
  inv m → Forall (sm_op_ok (uncomp:=uncomp)) ops → (∀ k, order k ≡ₚ seq 0 k) → 0 ≤ a ≤ b → b < zlen uncomp →
  match GetContents order a b (run_sm_ops ops m) with
  | (Ok bs, m') => bs = sub a b uncomp ∨ m_lost m'
  | (Err _, _) => True
  | (Panic, m') => m_lost m'
  end.
Proof.
  intros Hinv Hops Ho Ha Hb. destruct (run_sm_ops_or_lost ops m Hops Hinv) as [Hl|Hinv'].
  - pose proof (sim_lost _ _ _ _ _ (sim_GetContents order a b) _ Hl) as Hl'.
    destruct (GetContents order a b (run_sm_ops ops m)) as [[] m']; simpl in *; auto.
  - destruct (GetContents_or_lost order a b _ Ho Ha Hb Hinv') as [Hl|[_ Hr] ];
      destruct (GetContents order a b (run_sm_ops ops m)) as [[] m']; simpl in *; auto; done.
Qed.

(** *** Files *)
Context `{HT : GoTime Time} `{HM : MapRange} `{HP : TarParser Time} (Htar : ∀ b, tar_Next b ≠ Panic).
Abbreviation st := (FileReader.state (T:=T) (C:=C) (R:=R) (Time:=Time)).
Abbreviation stG := (FileReader.state (T:=T) (C:=ghost C) (R:=R) (Time:=Time)).

Definition ghostly_reader (s : st) : stG :=
  (mkR (ghostly (spanManager s.1)) (r_metadata s.1) (r_closed s.1) (disableVerification s.1) (lastReadTime s.1), s.2).
Definition r_ok (s : st) : Prop := m_ok (spanManager s.1).
Definition r_lost (s : st) : Prop := m_lost (spanManager s.1).
Abbreviation simulated := (Sim ghostly_reader r_ok r_lost).

Lemma sim_on_spans order a b : simulated (on_spans order a b) (on_spans order a b).
Proof.
  destruct (sim_GetContents (W:=W) (R:=R) (Time:=Time) order a b) as [Hr Hl].
  split; intros s Hs; unfold on_spans, r_ok, r_lost in *; simpl.
  - specialize (Hr _ Hs). destruct (GetContents order a b (spanManager s.1)) as [o m]; simpl in *.
    destruct Hr as [?|[? ->] ]; auto.
  - specialize (Hl _ Hs). by destruct (GetContents order a b (spanManager s.1)).
Qed.

Lemma sim_Verify order : simulated (Verify order) (Verify order).
Proof.
  apply Sim_get. intros s. simpl. destruct (verified s.2); [apply Sim_ret|].
  apply Sim_bind; [apply Sim_lift|]. intros attr. destruct (_ <? 0); [apply Sim_err|].
  apply Sim_bind; [apply sim_on_spans|]. intros hdr. apply Sim_bind; [apply Sim_lift|]. intros _. by apply Sim_pure.
Qed.

Lemma sim_ReadAt order len off : simulated (ReadAt order len off) (ReadAt order len off).
Proof.
  apply Sim_get. intros s. simpl. apply Sim_bind; [destruct (disableVerification s.1); [apply Sim_ret|apply sim_Verify]|].
  intros _. destruct (len =? 0); [apply Sim_ret|]. destruct (_ <=? off); [apply Sim_err|].
  apply Sim_bind; [apply Sim_map_err, sim_on_spans|]. intros r. apply Sim_bind; [by apply Sim_pure|]. intros _.
  destruct (_ <? _); [apply Sim_err|apply Sim_ret].
Qed.

Abbreviation sok := (state_ok (zi:=zi) (comp:=comp) (uncomp:=uncomp) (n:=n) (su:=su) (sc:=sc) (ec:=ec)).
Lemma ghostly_state_ok (s : st) : sok s → sok (ghostly_reader s).
Proof. intros [Hi Hv]. split; [by apply ghostly_inv|done]. Qed.

Lemma read_or_lost order len offset (s : st) :
  (∀ k, order k ≡ₚ seq 0 k) → 0 < len → 0 ≤ offset → in_layer (uncomp:=uncomp) (fr s.2) → sok s →
  match ReadAt order len offset s with
  | (Ok bs, s') => r_lost s' ∨ offset < m_UncompressedSize (fr s.2) ∧
      bs = file_bytes (uncomp:=uncomp) (fr s.2) len offset ∧
      (disableVerification s.1 = false → header_ok (uncomp:=uncomp) (r_metadata s.1) s.2)
  | (Err _, _) => True
  | (Panic, s') => r_lost s'
  end.
Proof.
  intros Ho Hlen Hoff Hin Hs.
  assert (r_ok s) as Hrs by apply (so_inv _ Hs).
  pose proof (sim_run _ _ _ _ _ (sim_ReadAt order len offset) s Hrs) as Hsim.
  pose proof (wp_ReadAt (HH:=nobody_honest) Hcf ghost_commits_succeed Hf Htar order Ho False len offset (ghostly_reader s)
    ltac:(lia) Hoff Hin (ghostly_state_ok s Hs) ltac:(done)) as Hwp. unfold wp in Hwp.
  destruct (ReadAt order len offset s) as [[bs|e|] s']; simpl in Hsim; [|done|].
  - destruct Hsim as [?|[_ Heq] ]; [by left|]. right. rewrite Heq in Hwp.
    destruct Hwp as (_ & [[? _]|(_ & ? & ->)] & Hh); [lia|done].
  - destruct Hsim as [?|[_ Heq] ]; [done|]. by rewrite Heq in Hwp.
Qed.
End exact.

(** ** Against any layer reader *)
Section hostile.
Context {T C W R Time : Type}.
Context `{HZ : Zinfo T} `{HB : BlobCache C W} `{HR : SpanManager.ReaderAt R} `{HD : Digester}.
Context `{HC : !BlobCacheLaws C W} `{HLog : !CommitLog C W}.
Context {zi : T} {comp uncomp : bytes} {n : Z} {su sc ec : Z → Z}.
Context {HL : ZinfoLaws zi comp uncomp n su sc ec}.

(** C2: served bytes are exact.  Take the span manager [New] builds from a ztoc that
    describes the layer, and any sequence of fetches, resolves and reads inside the layer on
    it, with a layer reader that may answer anything and a cache any of whose calls may fail.
    If no other content has the digest of a span, [GetContents] of a range that ends before
    the end of the layer, with its goroutines in any order, returns exactly the requested
    bytes of the uncompressed layer or an error and never panics -- unless a [Commit] of the
    cache has failed before, an error which the code drops. *)
Theorem served_bytes_exact zt r c retries (m : SpanManager T C R Time) ops order a b :
  collision_free (n:=n) (comp:=comp) (sc:=sc) (ec:=ec) → fits (comp:=comp) (uncomp:=uncomp) →
  ztoc_describes (comp:=comp) (uncomp:=uncomp) (n:=n) (sc:=sc) (ec:=ec) zt →
  cache_ok c → retries < 2 ^ 63 - 1 → New_with zi zt r c retries = Ok m →
  Forall (sm_op_ok (uncomp:=uncomp)) ops →
  (∀ k, order k ≡ₚ seq 0 k) → 0 ≤ a ≤ b → b < zlen uncomp →
  match GetContents order a b (run_sm_ops ops m) with
  | (Ok bs, m') => bs = sub a b uncomp ∨ lost (sm_cache m')
  | (Err _, _) => True
  | (Panic, m') => lost (sm_cache m')
  end.
Proof.
  intros Hcf Hf Hzt Hc Hr HN. apply served_or_lost; [done..|].
  by apply (New_with_spec (HL:=HL) zt r c retries m Hzt Hc Hr HN).
Qed.

(** C3: a file read is exact.  Whatever the layer reader answers and whichever calls of the
    cache fail, a read of a file that lies inside the layer either fails or returns exactly
    the bytes of the file at the offset, up to its end; and unless verification is disabled,
    data is only returned when the tar header in the layer agrees with the file's attributes
    and name -- all unless a [Commit] of the cache has failed, an error which the code
    drops.  No other content has the digest of a span, and the tar parser does not panic. *)
Theorem file_read_exact `{HT : GoTime Time} `{HM : MapRange} `{HP : TarParser Time}
    order len offset (s : state (T:=T) (C:=C) (R:=R) (Time:=Time)) :
  collision_free (n:=n) (comp:=comp) (sc:=sc) (ec:=ec) → fits (comp:=comp) (uncomp:=uncomp) →
  (∀ b, tar_Next b ≠ Panic) →
  (∀ k, order k ≡ₚ seq 0 k) → 0 < len → 0 ≤ offset → in_layer (uncomp:=uncomp) (fr s.2) →
  state_ok (zi:=zi) (comp:=comp) (uncomp:=uncomp) (n:=n) (su:=su) (sc:=sc) (ec:=ec) s →
  match ReadAt order len offset s with
  | (Ok bs, s') => lost (sm_cache (spanManager s'.1)) ∨ offset < m_UncompressedSize (fr s.2) ∧
      bs = file_bytes (uncomp:=uncomp) (fr s.2) len offset ∧
      (disableVerification s.1 = false → header_ok (uncomp:=uncomp) (r_metadata s.1) s.2)
  | (Err _, _) => True
  | (Panic, s') => lost (sm_cache (spanManager s'.1))
  end.
Proof. intros Hcf Hf Htar. by apply read_or_lost. Qed.
End hostile.
