(* ===== verification/BackgroundFetcher.v ===== *)
(** * The background fetcher

    Models [fs/backgroundfetcher/background_fetcher.go] and [resolver.go]: the bounded
    work queue with its drop policies, the pause signal, the [Run] loop with the
    goroutines it starts as a transition system, the shutdown channel, and the resolver
    that fetches the spans of a layer one after the other. *)
From Stdlib Require Import ZArith Lia.
From stdpp Require Import base list gmap strings numbers.
From S2P Require Import Prelude GoLib Compression GzipZinfo Ztoc ZtocBuilder BlobCache SpanManager.
#[local] Open Scope Z_scope.

Definition DropPolicyOldest : string := "oldest".
Definition DropPolicyNewest : string := "newest".

(** ** The queue

    Resolvers are known by a number; [in_flight] are those a goroutine is resolving. *)
Record BackgroundFetcher := mkBF {
  maxQueueSize : Z;
  dropPolicy : string;
  workQueue : list nat;
  pauseChan : bool;          (* capacity one: whether a signal is pending *)
  in_flight : list nat;
  pauses : nat               (* calls of [bfPauser.pause] so far *)
}.

Definition set_queue (q : list nat) (bf : BackgroundFetcher) : BackgroundFetcher :=
  mkBF (maxQueueSize bf) (dropPolicy bf) q (pauseChan bf) (in_flight bf) (pauses bf).
Definition set_in_flight (f : list nat) (bf : BackgroundFetcher) : BackgroundFetcher :=
  mkBF (maxQueueSize bf) (dropPolicy bf) (workQueue bf) (pauseChan bf) f (pauses bf).

Definition Add (resolver : nat) (bf : BackgroundFetcher) : BackgroundFetcher :=
  if (0 <? maxQueueSize bf) && (maxQueueSize bf <=? zlen (workQueue bf)) then
    if String.eqb (dropPolicy bf) DropPolicyOldest
    then set_queue (tail (workQueue bf) ++ [resolver]) bf
    else bf
  else set_queue (workQueue bf ++ [resolver]) bf.

Definition pop (bf : BackgroundFetcher) : option nat * BackgroundFetcher :=
  match workQueue bf with
  | [] => (None, bf)
  | lr :: q => (Some lr, set_queue q bf)
  end.

Definition queueSize (bf : BackgroundFetcher) : Z := zlen (workQueue bf).

(** The send is dropped when a signal is pending. *)
Definition Pause (bf : BackgroundFetcher) : BackgroundFetcher :=
  mkBF (maxQueueSize bf) (dropPolicy bf) (workQueue bf) true (in_flight bf) (pauses bf).

(** Drains the channel, then pauses once if there was a signal. *)
Definition pause (bf : BackgroundFetcher) : BackgroundFetcher :=
  mkBF (maxQueueSize bf) (dropPolicy bf) (workQueue bf) false (in_flight bf)
    (if pauseChan bf then S (pauses bf) else pauses bf).

(** One iteration of [Run] that is neither closed nor cancelled: pause if asked to, take
    the next resolver and start its goroutine unless it is closed. *)
Definition run_iteration (closed : nat → bool) (bf : BackgroundFetcher) : BackgroundFetcher :=
  let '(o, bf) := pop (pause bf) in
  match o with
  | None => bf
  | Some lr => if closed lr then bf else set_in_flight (lr :: in_flight bf) bf
  end.

(** A goroutine ends: the resolver goes back to the queue if there is more to fetch. *)
Definition resolved (lr : nat) (more : bool) (bf : BackgroundFetcher) : BackgroundFetcher :=
  let bf := set_in_flight (filter (λ x, x ≠ lr) (in_flight bf)) bf in
  if more then Add lr bf else bf.

Inductive bf_step : BackgroundFetcher → BackgroundFetcher → Prop :=
| bf_add bf lr : lr ∉ workQueue bf → lr ∉ in_flight bf → bf_step bf (Add lr bf)  (* a new layer *)
| bf_pause bf : bf_step bf (Pause bf)
| bf_run bf closed : bf_step bf (run_iteration closed bf)
| bf_resolved bf lr more : lr ∈ in_flight bf → bf_step bf (resolved lr more bf).

Definition NewBackgroundFetcher (size : Z) (policy : string) : BackgroundFetcher :=
  mkBF size policy [] false [] 0.

(** ** Queue properties *)
Record bf_inv (bf : BackgroundFetcher) : Prop := {
  bi_bound : 0 < maxQueueSize bf → zlen (workQueue bf) ≤ maxQueueSize bf;
  bi_nodup : NoDup (workQueue bf ++ in_flight bf)
}.

Lemma Add_cases lr bf : bf_inv bf →
  bf_inv (set_queue (workQueue bf) bf) ∧
  (workQueue (Add lr bf) = workQueue bf ++ [lr] ∧ (0 < maxQueueSize bf → zlen (workQueue bf) < maxQueueSize bf) ∨
   workQueue (Add lr bf) = tail (workQueue bf) ++ [lr] ∧ 0 < maxQueueSize bf ∧ zlen (workQueue bf) = maxQueueSize bf ∨
   workQueue (Add lr bf) = workQueue bf ∧ 0 < maxQueueSize bf) ∧
  in_flight (Add lr bf) = in_flight bf ∧ maxQueueSize (Add lr bf) = maxQueueSize bf.
Proof.
  intros Hi. split; [by destruct bf|]. destruct Hi as [Hb _]. unfold Add.
  destruct (Z.ltb_spec 0 (maxQueueSize bf)), (Z.leb_spec (maxQueueSize bf) (zlen (workQueue bf))); simpl.
  - destruct (String.eqb _ _); simpl; split_and!; try done; [right; left|right; right]; split_and!; try done. lia.
  - split_and!; try done. left. split; [done|]. lia.
  - split_and!; try done. left. split; [done|]. lia.
  - split_and!; try done. left. split; [done|]. lia.
Qed.

Lemma NoDup_tail (l : list nat) : NoDup l → NoDup (tail l).
Proof. destruct l; [done|]. by intros [_ ?]%list.NoDup_cons. Qed.

Lemma bf_inv_Add lr bf : bf_inv bf → lr ∉ workQueue bf → lr ∉ in_flight bf → bf_inv (Add lr bf).
Proof.
  intros Hi Hq Hf. destruct (Add_cases lr bf Hi) as (_ & Hc & Hfl & Hm).
  destruct Hi as [Hb Hn]. split; rewrite ?Hm, ?Hfl.
  - intros Hpos. destruct Hc as [[-> Hlt]|[(-> & _ & Heq)|[-> _] ] ]; [| |by auto].
    + rewrite zlen_app, zlen_cons, zlen_nil. specialize (Hlt Hpos). lia.
    + destruct (workQueue bf) as [|x q]; [unfold zlen in Heq; simpl in Heq; lia|].
      simpl. rewrite zlen_app, !zlen_cons, zlen_nil in *. lia.
  - assert (NoDup ((workQueue bf ++ [lr]) ++ in_flight bf)) as Hgood.
    { rewrite <-(assoc_L (++)). apply list.NoDup_app in Hn as (H1 & H2 & H3).
      apply list.NoDup_app. split_and!; [done| |].
      - intros x Hx [->|Hxf]%elem_of_cons; [done|]. by apply (H2 x).
      - simpl. by apply list.NoDup_cons. }
    destruct Hc as [[-> _]|[(-> & _)|[-> _] ] ]; [done| |done].
    destruct (workQueue bf) as [|x q]; [done|]. simpl in *. by apply list.NoDup_cons in Hgood as [_ ?].
Qed.

Lemma bf_inv_step bf bf' : bf_step bf bf' → bf_inv bf → bf_inv bf'.
Proof.
  intros Hs Hi. destruct Hs as [bf lr Hq Hf|bf|bf closed|bf lr more Hlr].
  - by apply bf_inv_Add.
  - by destruct Hi.
  - destruct Hi as [Hb Hn]. unfold run_iteration, pop. simpl.
    destruct (workQueue bf) as [|lr q] eqn:E; [by split; simpl; rewrite ?E|].
    rewrite zlen_cons in Hb. simpl in Hn. apply list.NoDup_cons in Hn as [Hlr Hn].
    destruct (closed lr); split; simpl; try done; try (intros Hp; specialize (Hb Hp); simpl in *; lia).
    apply list.NoDup_app in Hn as (H1 & H2 & H3). apply not_elem_of_app in Hlr as [Hlr1 Hlr2].
    apply list.NoDup_app. split_and!; [done| |].
    + intros x Hx [->|Hxf]%elem_of_cons; [done|]. by apply (H2 x).
    + apply list.NoDup_cons. split; [done|done].
  - unfold resolved. set (bf1 := set_in_flight _ bf). destruct Hi as [Hb Hn].
    apply list.NoDup_app in Hn as (H1 & H2 & H3).
    assert (bf_inv bf1) as Hi1.
    { split; [done|]. simpl. apply list.NoDup_app. split_and!; [done| |by apply list.NoDup_filter].
      intros x Hx [_ ?]%list_elem_of_filter. by apply (H2 x). }
    destruct more; [|done]. apply bf_inv_Add; [done| |].
    + intros Hx. by apply (H2 lr).
    + simpl. rewrite list_elem_of_filter. naive_solver.
Qed.

Lemma bf_inv_reachable size policy bf : rtc bf_step (NewBackgroundFetcher size policy) bf → bf_inv bf.
Proof.
  intros Hs. cut (∀ bf0, bf_inv bf0 → rtc bf_step bf0 bf → bf_inv bf).
  - intros Hc. eapply Hc; [|exact Hs]. split; simpl; [unfold zlen; simpl; lia|constructor].
  - clear Hs. intros bf0 H0 Hs. induction Hs; eauto using bf_inv_step.
Qed.

(** Whatever layers are added, whenever the fetcher runs and in whatever order its
    goroutines end, the work queue never exceeds its bound and no layer is queued twice
    or queued while it is being resolved. *)
Theorem queue_bounded_no_duplicates size policy bf :
  rtc bf_step (NewBackgroundFetcher size policy) bf →
  (0 < maxQueueSize bf → queueSize bf ≤ maxQueueSize bf) ∧
  NoDup (workQueue bf ++ in_flight bf).
Proof. intros [Hb Hn]%bf_inv_reachable. done. Qed.

(** [Add] never loses a layer of an unlimited or not yet full queue; a full queue
    loses its oldest entry or refuses the new one, as the policy says. *)
Theorem Add_policy lr bf :
  (maxQueueSize bf ≤ 0 ∨ queueSize bf < maxQueueSize bf → workQueue (Add lr bf) = workQueue bf ++ [lr]) ∧
  (0 < maxQueueSize bf → maxQueueSize bf ≤ queueSize bf →
   workQueue (Add lr bf) =
     if String.eqb (dropPolicy bf) DropPolicyOldest then tail (workQueue bf) ++ [lr] else workQueue bf).
Proof.
  unfold Add, queueSize. split.
  - intros Hc. destruct (Z.ltb_spec 0 (maxQueueSize bf)), (Z.leb_spec (maxQueueSize bf) (zlen (workQueue bf)));
      simpl; done || lia.
  - intros H1 H2. destruct (Z.ltb_spec 0 (maxQueueSize bf)), (Z.leb_spec (maxQueueSize bf) (zlen (workQueue bf))); try lia.
    simpl. by destruct (String.eqb _ _).
Qed.

(** Any number of pause requests made before an iteration lead to one pause. *)
Theorem pauses_coalesce bf (n : nat) :
  pauses (pause (Nat.iter (S n) Pause bf)) = S (pauses bf) ∧
  pauseChan (pause (Nat.iter (S n) Pause bf)) = false.
Proof.
  assert (pauses (Nat.iter (S n) Pause bf) = pauses bf ∧ pauseChan (Nat.iter (S n) Pause bf) = true) as [H1 H2].
  { induction n as [|n [IH1 IH2]]; [done|]. split; [|done]. exact IH1. }
  generalize dependent (Nat.iter (S n) Pause bf). intros b H1 H2.
  unfold pause. simpl. by rewrite H2, H1.
Qed.

(** ** Shutdown

    [Close] sends one value on the unbuffered [closeChan]; both [Run], when it polls, and
    the goroutine that emits the metrics receive from it. *)
Record shutdown := mkSD { runs : bool; emits : bool; closing : nat; closed_calls : nat }.

Inductive sd_step : shutdown → shutdown → Prop :=
| sd_close s : sd_step s (mkSD (runs s) (emits s) (S (closing s)) (closed_calls s))
| sd_recv_run s k : runs s = true → closing s = S k →
    sd_step s (mkSD false (emits s) k (S (closed_calls s)))
| sd_recv_emit s k : emits s = true → closing s = S k →
    sd_step s (mkSD (runs s) false k (S (closed_calls s))).

(** [Close] can return while [Run] goes on: the metrics goroutine takes the only
    value sent, and then nothing is left to stop [Run]. *)
Theorem Close_may_not_stop_Run :
  ∃ s, rtc sd_step (mkSD true true 0 0) s ∧ closed_calls s = 1%nat ∧ closing s = 0%nat ∧ runs s = true.
Proof.
  exists (mkSD true false 0 1). split; [|done].
  eapply rtc_l; [apply sd_close|]. eapply rtc_l; [by apply (sd_recv_emit _ 0)|]. apply rtc_refl.
Qed.

(** ** The sequential resolver *)
Record sequentialLayerResolver (T C R Time : Type) := mkSLR {
  lr_sm : SpanManager T C R Time;
  nextSpanFetchID : SpanID
}.
Arguments mkSLR {T C R Time}.
Arguments lr_sm {T C R Time}.
Arguments nextSpanFetchID {T C R Time}.

Section resolver.
Context {T C W R Time : Type}.
Context `{HZ : Zinfo T} `{HB : BlobCache C W} `{HR : ReaderAt R} `{HD : Digester}.

Definition NewSequentialResolver (m : SpanManager T C R Time) : sequentialLayerResolver T C R Time :=
  mkSLR m 0.

(** Whether there is more to fetch, and the error. *)
Definition Resolve (lr : sequentialLayerResolver T C R Time)
  : outcome (bool * option error) * sequentialLayerResolver T C R Time :=
  match FetchSingleSpan (nextSpanFetchID lr) (lr_sm lr) with
  | (Ok _, m) => (Ok (true, None), mkSLR m (int32 (nextSpanFetchID lr + 1)))
  | (Err e, m) =>
      (Ok (false, if errors_Is e ErrExceedMaxSpan then None
                  else Some (Wrap "error trying to fetch span" e)),
       mkSLR m (nextSpanFetchID lr))
  | (Panic, m) => (Panic, mkSLR m (nextSpanFetchID lr))
  end.

(** [k] calls of [Resolve], all of them saying there is more. *)
Fixpoint resolve_all (k : nat) (lr : sequentialLayerResolver T C R Time)
  : option (sequentialLayerResolver T C R Time) :=
  match k with
  | O => Some lr
  | S k' => match Resolve lr with
            | (Ok (true, None), lr') => resolve_all k' lr'
            | _ => None
            end
  end.

Context `{HC : !BlobCacheLaws C W}.
Context {zi : T} {comp uncomp : bytes} {n : Z} {su sc ec : Z → Z}.
Context {HL : ZinfoLaws zi comp uncomp n su sc ec}.
Context `{HH : !HonestReader R comp}.
Context (Hcf : collision_free (n:=n) (comp:=comp) (sc:=sc) (ec:=ec)).
Context (Hcs : commits_succeed (C:=C) (W:=W)) (Hf : fits (comp:=comp) (uncomp:=uncomp)).

Abbreviation inv := (sm_inv (zi:=zi) (comp:=comp) (uncomp:=uncomp) (n:=n) (su:=su) (sc:=sc) (ec:=ec) None).
Abbreviation in_cache m i :=
  (view (sm_cache m) !! key i = Some (comp_span (comp:=comp) (sc:=sc) (ec:=ec) i) ∨
   view (sm_cache m) !! key i = Some (uncomp_span (uncomp:=uncomp) (n:=n) (su:=su) i)).

Lemma resting_in_cache (m : SpanManager T C R Time) i : 0 ≤ i ≤ n → inv m →
  ¬ span_state m i unrequested → in_cache m i.
Proof.
  intros Hi Hinv Hst. destruct (smi_spans _ _ Hinv i Hi) as (s & Hs & _ & _ & _ & _ & _ & Hok).
  destruct (state s) eqn:E; [by destruct Hst; exists s|done| |]; naive_solver.
Qed.

Lemma FetchSingleSpan_good i (m : SpanManager T C R Time) :
  0 ≤ i ≤ n → inv m → good (comp:=comp) m →
  ∃ m', FetchSingleSpan i m = (Ok tt, m') ∧ inv m' ∧ good (comp:=comp) m' ∧
    ¬ span_state m' i unrequested ∧ others_kept i m m'.
Proof.
  intros Hi Hinv Hg. destruct (smi_spans _ _ Hinv i Hi) as (s & Hs & Hok).
  unfold FetchSingleSpan, st_bind, st_get, get_span, st_ret. rewrite (smi_max _ _ Hinv).
  destruct (Z.ltb_spec n i); [lia|]. rewrite Hs. unfold checkState.
  destruct (decide (state s = unrequested)) as [Hst|Hst].
  - rewrite bool_decide_true by done. simpl.
    pose proof (wp_fetchAndCacheSpan Hcf Hcs Hf True i false m Hi Hinv ltac:(by exists s) ltac:(done)) as Hwp.
    unfold wp in Hwp. destruct (fetchAndCacheSpan i false m) as [[b|e|] m']; [|naive_solver|done].
    destruct Hwp as (_ & Hinv' & Hg' & (s' & Hs' & Hst') & Hk). exists m'. split_and!; auto.
    intros (s'' & ? & ?). congruence.
  - rewrite bool_decide_false by done. simpl. exists m. split_and!; try done.
    intros (s'' & ? & ?). congruence.
Qed.

Lemma resolve_all_spec (k : nat) lr : inv (lr_sm lr) → good (comp:=comp) (lr_sm lr) →
  0 ≤ nextSpanFetchID lr → nextSpanFetchID lr + Z.of_nat k ≤ n + 1 →
  (∀ i, 0 ≤ i < nextSpanFetchID lr → ¬ span_state (lr_sm lr) i unrequested) →
  ∃ lr', resolve_all k lr = Some lr' ∧ inv (lr_sm lr') ∧
    nextSpanFetchID lr' = nextSpanFetchID lr + Z.of_nat k ∧
    ∀ i, 0 ≤ i < nextSpanFetchID lr' → ¬ span_state (lr_sm lr') i unrequested.
Proof.
  pose proof (zl_n (ZinfoLaws:=HL)) as Hn. revert lr.
  induction k as [|k IH]; intros lr Hinv Hg Hlo Hhi Hdone.
  { exists lr. split_and!; try done. lia. }
  destruct (FetchSingleSpan_good (nextSpanFetchID lr) (lr_sm lr)) as (m' & Hf' & Hinv' & Hg' & Hst & Hk);
    [lia|done|done|].
  cbn [resolve_all]. unfold Resolve. rewrite Hf'.
  rewrite int32_id by (unfold in_int32; lia).
  destruct (IH (mkSLR m' (nextSpanFetchID lr + 1))) as (lr' & ? & ? & Hid & ?); simpl; try done; try lia.
  - intros i Hi (s & Hs & Es). destruct (decide (i = nextSpanFetchID lr)) as [->|Hne].
    + apply Hst. by exists s.
    + apply (Hdone i); [lia|]. exists s. by rewrite <-Hk by lia.
  - exists lr'. simpl in Hid. split_and!; try done. lia.
Qed.

(** C30: with an honest reader and a cache that works, resolving a layer one span at a
    time ends with every span of the layer in the cache: [n + 1] calls report more work,
    the next one reports that the layer is done, without an error. *)
Theorem sequential_resolver_completes m :
  inv m → good (comp:=comp) m →
  ∃ lr, resolve_all (Z.to_nat (n + 1)) (NewSequentialResolver m) = Some lr ∧
    (∀ i, 0 ≤ i ≤ n → in_cache (lr_sm lr) i) ∧
    (Resolve lr).1 = Ok (false, None).
Proof.
  intros Hinv Hg. pose proof (zl_n (ZinfoLaws:=HL)) as Hn.
  destruct (resolve_all_spec (Z.to_nat (n + 1)) (NewSequentialResolver m)) as (lr & Hr & Hinv' & Hid & Hall);
    simpl; try done; try lia.
  exists lr. split_and!; [done| |].
  - intros i Hi. apply resting_in_cache; [done|done|]. apply Hall. simpl in Hid. lia.
  - unfold Resolve, FetchSingleSpan, st_bind, st_get. rewrite (smi_max _ _ Hinv'). simpl in Hid.
    destruct (Z.ltb_spec n (nextSpanFetchID lr)); [|lia]. done.
Qed.
End resolver.
