(* ===== verification/IDMap.v ===== *)
(** * User id mappings

    Models [idtools/idmap.go] except for the walks over the file system: parsing the
    mapping labels and translating container ids to host ids, at the width of uint32. *)
From Stdlib Require Import ZArith Lia Ascii.
From stdpp Require Import base list gmap strings numbers pretty.
From S2P Require Import Prelude GoLib.
#[local] Open Scope Z_scope.

Definition invalidID : Z := 2 ^ 32 - 1.

Record User := mkUser { Uid : Z; Gid : Z }.
Definition invalidUser : User := mkUser invalidID invalidID.

(** [specs.LinuxIDMapping]. *)
Record LinuxIDMapping := mkMapping { ContainerID : Z; HostID : Z; Size : Z }.

#[global] Instance LinuxIDMapping_eq_dec : EqDecision LinuxIDMapping.
Proof. solve_decision. Defined.

(** [None] is a nil slice. *)
Record IDMap := mkIDMap { UidMap : option (list LinuxIDMapping); GidMap : option (list LinuxIDMapping) }.

Definition safeSum (x y : Z) : outcome Z :=
  let z := uint32 (x + y) in
  if (z <? x) || (z <? y) then Err (ErrorString "ID overflow") else Ok z.

Definition unmapped : error := ErrorString "container ID cannot be mapped to a host ID".

(** The loop: an overflow, or an invalid host id, stops it. *)
Fixpoint toHost_loop (contID : Z) (idMap : list LinuxIDMapping) : outcome Z :=
  match idMap with
  | [] => Err unmapped
  | m :: rest =>
      match safeSum (ContainerID m) (Size m) with
      | Ok high =>
          if (ContainerID m <=? contID) && (contID <? high) then
            match safeSum (HostID m) (uint32 (contID - ContainerID m)) with
            | Ok hostID => if hostID =? invalidID then Err unmapped else Ok hostID
            | _ => Err unmapped
            end
          else toHost_loop contID rest
      | _ => Err unmapped
      end
  end.

Definition toHost (contID : Z) (idMap : option (list LinuxIDMapping)) : outcome Z :=
  match idMap with
  | None => Ok contID
  | Some l => toHost_loop contID l
  end.

Definition nil_len {A} (o : option (list A)) : Z := zlen (default [] o).

Definition Empty (i : IDMap) : bool := (nil_len (UidMap i) =? 0) && (nil_len (GidMap i) =? 0).

(** The error comes with [invalidUser]. *)
Definition ToHost (i : IDMap) (pair : User) : outcome User :=
  if Empty i then Ok pair
  else
    u ← toHost (Uid pair) (UidMap i);
    g ← toHost (Gid pair) (GidMap i);
    Ok (mkUser u g).

(** ** Parsing *)
Definition is_digit (c : ascii) : bool := (48 <=? Z.of_N (N_of_ascii c)) && (Z.of_N (N_of_ascii c) <=? 57).
Definition digit (c : ascii) : Z := Z.of_N (N_of_ascii c) - 48.
Definition is_space (c : ascii) : bool :=
  let n := Z.of_N (N_of_ascii c) in
  (n =? 32) || (n =? 9) || (n =? 11) || (n =? 12) || (n =? 13).

Fixpoint skip_space (s : string) : string :=
  match s with
  | String c s' => if is_space c then skip_space s' else s
  | EmptyString => s
  end.

(** The digits at the front, as a number if there is one. *)
Fixpoint scan_digits (acc : option Z) (s : string) : option Z * string :=
  match s with
  | String c s' => if is_digit c then scan_digits (Some (10 * default 0 acc + digit c)) s' else (acc, s)
  | EmptyString => (acc, s)
  end.

(** [%d] of [fmt.Sscanf] into an int64. *)
Definition scan_int (s : string) : option (Z * string) :=
  let s := skip_space s in
  let '(neg, s) := match s with
    | String c s' => if Ascii.eqb c "-" then (true, s')
                     else if Ascii.eqb c "+" then (false, s') else (false, s)
    | EmptyString => (false, s)
    end in
  match scan_digits None s with
  | (Some v, rest) =>
      let v := if neg : bool then - v else v in
      if bool_decide (in_int64 v) then Some (v, rest) else None
  | (None, _) => None
  end.

Definition scan_colon (s : string) : option string :=
  match s with
  | String c s' => if Ascii.eqb c ":" then Some s' else None
  | EmptyString => None
  end.

(** [fmt.Sscanf(str, "%d:%d:%d", ...)]; what follows is ignored. *)
Definition Sscanf_ddd (str : string) : option (Z * Z * Z) :=
  '(a, s) ← scan_int str;
  s ← scan_colon s;
  '(b, s) ← scan_int s;
  s ← scan_colon s;
  '(c, _) ← scan_int s;
  Some (a, b, c).

Definition deserializeLinuxIDMapping (str : string) : outcome LinuxIDMapping :=
  match Sscanf_ddd str with
  | None => Err (ErrorString "input value unparsable")
  | Some (ctrID, hostID, length) =>
      if (ctrID <? 0) || (invalidID <=? ctrID) || (hostID <? 0) || (invalidID <=? hostID)
         || (length <? 0) || (invalidID <=? length)
      then Err (ErrorString "invalid mapping")
      else Ok (mkMapping (uint32 ctrID) (uint32 hostID) (uint32 length))
  end.

(** [strings.Split(str, ",")]. *)
Fixpoint split_comma (s : string) : list string :=
  match s with
  | EmptyString => [EmptyString]
  | String c s' =>
      if Ascii.eqb c "," then EmptyString :: split_comma s'
      else match split_comma s' with
           | x :: xs => String c x :: xs
           | [] => [String c EmptyString]
           end
  end.

Fixpoint deserialize_all (l : list string) : outcome (list LinuxIDMapping) :=
  match l with
  | [] => Ok []
  | s :: l' =>
      m ← deserializeLinuxIDMapping s;
      ms ← deserialize_all l';
      Ok (m :: ms)
  end.

(** Appends to a slice, nil when nothing is appended to nil. *)
Definition append_nil {A} (o : option (list A)) (l : list A) : option (list A) :=
  match l with [] => o | _ => Some (default [] o ++ l) end.

Definition unmarshal (str : string) (old : option (list LinuxIDMapping))
  : outcome (option (list LinuxIDMapping)) :=
  if String.eqb str "" then Ok old
  else ms ← deserialize_all (split_comma str); Ok (append_nil old ms).

Definition Unmarshal (i : IDMap) (uidMap gidMap : string) : outcome IDMap :=
  u ← unmarshal uidMap (UidMap i);
  g ← unmarshal gidMap (GidMap i);
  Ok (mkIDMap u g).

Definition LabelSnapshotUIDMapping : string := "containerd.io/snapshot/uidmapping".
Definition LabelSnapshotGIDMapping : string := "containerd.io/snapshot/gidmapping".

Definition LoadIDMap (labels : gmap string string) : outcome IDMap :=
  match labels !! LabelSnapshotUIDMapping, labels !! LabelSnapshotGIDMapping with
  | Some uidmap, Some gidmap => Unmarshal (mkIDMap None None) uidmap gidmap
  | _, _ => Ok (mkIDMap None None)
  end.

(** ** Translation *)
Definition mapping_ok (m : LinuxIDMapping) : Prop :=
  in_uint32 (ContainerID m) ∧ in_uint32 (HostID m) ∧ in_uint32 (Size m).

Definition covers (m : LinuxIDMapping) (id : Z) : Prop :=
  ContainerID m ≤ id < ContainerID m + Size m.

Lemma safeSum_spec x y : in_uint32 x → in_uint32 y →
  safeSum x y = if decide (x + y < 2 ^ 32) then Ok (x + y) else Err (ErrorString "ID overflow").
Proof.
  unfold in_uint32, safeSum. intros Hx Hy. destruct (decide (x + y < 2 ^ 32)).
  - rewrite uint32_id by (unfold in_uint32; lia). zcases.
  - assert (uint32 (x + y) = x + y - 2 ^ 32) as ->.
    { unfold uint32, wrap_u. symmetry. apply (Z.mod_unique_pos _ _ 1); lia. }
    zcases.
Qed.

Lemma toHost_loop_ok id idMap h : Forall mapping_ok idMap → in_uint32 id →
  toHost_loop id idMap = Ok h →
  ∃ m, m ∈ idMap ∧ covers m id ∧ h = HostID m + (id - ContainerID m) ∧ 0 ≤ h < invalidID.
Proof.
  intros Hok Hid. induction Hok as [|m idMap (Hc & Hh & Hs) _ IH]; [done|]. cbn [toHost_loop].
  rewrite safeSum_spec by done. destruct (decide (ContainerID m + Size m < 2 ^ 32)); [|done].
  destruct (Z.leb_spec (ContainerID m) id), (Z.ltb_spec id (ContainerID m + Size m)); simpl;
    try (intros (m' & ? & ?)%IH; exists m'; split; [by right|done]).
  unfold in_uint32 in *. rewrite uint32_id by (unfold in_uint32; lia).
  rewrite safeSum_spec by (unfold in_uint32; lia).
  destruct (decide (HostID m + (id - ContainerID m) < 2 ^ 32)); [|done].
  destruct (Z.eqb_spec (HostID m + (id - ContainerID m)) invalidID); [done|]. intros [= <-].
  exists m. unfold covers, invalidID in *. split_and!; try lia. left.
Qed.

(** A translated id is exact: it lies in one of the mappings at the same distance
    from its start, no addition wraps around, and it is never the invalid id. *)
Theorem toHost_exact id idMap h :
  Forall mapping_ok idMap → in_uint32 id → toHost id (Some idMap) = Ok h →
  ∃ m, m ∈ idMap ∧ covers m id ∧ h = HostID m + (id - ContainerID m) ∧ 0 ≤ h < invalidID.
Proof. apply toHost_loop_ok. Qed.

(** Two container ids never become the same host id when the host ranges of the
    mappings are disjoint. *)
Theorem toHost_injective id id' idMap h :
  Forall mapping_ok idMap → in_uint32 id → in_uint32 id' →
  (∀ m m' x, m ∈ idMap → m' ∈ idMap → HostID m ≤ x < HostID m + Size m →
     HostID m' ≤ x < HostID m' + Size m' → m = m') →
  toHost id (Some idMap) = Ok h → toHost id' (Some idMap) = Ok h → id = id'.
Proof.
  intros Hok Hid Hid' Hdisj (m & Hm & Hc & -> & _)%toHost_loop_ok (m' & Hm' & Hc' & Heq & _)%toHost_loop_ok; try done.
  unfold covers in *. assert (m = m') as <-; [|lia].
  apply (Hdisj m m' (HostID m + (id - ContainerID m))); auto; lia.
Qed.

(** ** Loading *)
Lemma deserialize_ok s m : deserializeLinuxIDMapping s = Ok m → mapping_ok m.
Proof.
  unfold deserializeLinuxIDMapping. destruct (Sscanf_ddd s) as [[[c h] l]|]; [|done].
  case_match; [done|]. intros [= <-]. split_and!; apply uint32_range.
Qed.

Lemma deserialize_all_ok l ms : deserialize_all l = Ok ms → Forall mapping_ok ms.
Proof.
  revert ms. induction l as [|s l IH]; intros ms; cbn [deserialize_all].
  { intros [= <-]. constructor. }
  destruct (deserializeLinuxIDMapping s) as [m|e|] eqn:E; try done. cbn [mbind outcome_bind].
  destruct (deserialize_all l) as [ms'|e|]; try done. intros [= <-].
  constructor; [by eapply deserialize_ok|by apply IH].
Qed.

Lemma unmarshal_ok s o : unmarshal s None = Ok o → ∀ l, o = Some l → Forall mapping_ok l ∧ l ≠ [].
Proof.
  unfold unmarshal. destruct (String.eqb s ""); [by intros [= <-]|].
  destruct (deserialize_all (split_comma s)) as [ms|e|] eqn:E; try done.
  intros [= <-] l. apply deserialize_all_ok in E. destruct ms; [done|]. simpl. intros [= <-]. done.
Qed.

(** Mappings that were loaded from the labels translate ids exactly, or not at all:
    with no mapping for one kind the id is kept, otherwise it is translated by one of
    the loaded mappings, and an id outside of them is an error. *)
Theorem loaded_mappings_exact labels i u u' :
  LoadIDMap labels = Ok i → in_uint32 (Uid u) → in_uint32 (Gid u) → ToHost i u = Ok u' →
  (match UidMap i with
   | None => Uid u' = Uid u
   | Some l => ∃ m, m ∈ l ∧ covers m (Uid u) ∧ Uid u' = HostID m + (Uid u - ContainerID m) ∧
       Uid u' < invalidID
   end) ∧
  (match GidMap i with
   | None => Gid u' = Gid u
   | Some l => ∃ m, m ∈ l ∧ covers m (Gid u) ∧ Gid u' = HostID m + (Gid u - ContainerID m) ∧
       Gid u' < invalidID
   end).
Proof.
  intros HL Hu Hg HT.
  assert (∀ l, UidMap i = Some l ∨ GidMap i = Some l → Forall mapping_ok l ∧ l ≠ []) as Hok.
  { unfold LoadIDMap in HL. destruct (labels !! LabelSnapshotUIDMapping) as [su|];
      [|injection HL as <-; naive_solver].
    destruct (labels !! LabelSnapshotGIDMapping) as [sg|]; [|injection HL as <-; naive_solver].
    unfold Unmarshal in HL. simpl in HL.
    destruct (unmarshal su None) as [o|e|] eqn:Eu; try done. cbn [mbind outcome_bind] in HL.
    destruct (unmarshal sg None) as [o'|e|] eqn:Eg; try done. injection HL as <-. simpl.
    intros l [Hl|Hl]; [by apply (unmarshal_ok _ _ Eu)|by apply (unmarshal_ok _ _ Eg)]. }
  unfold ToHost in HT. destruct (Empty i) eqn:Ee.
  - injection HT as <-. unfold Empty, nil_len in Ee. apply andb_true_iff in Ee as [E1 E2].
    apply Z.eqb_eq in E1, E2.
    split; [destruct (UidMap i) as [l|] eqn:Em|destruct (GidMap i) as [l|] eqn:Em]; try done; exfalso.
    + destruct (Hok l) as [_ Hne]; [by left|]. by apply Hne, zlen_zero.
    + destruct (Hok l) as [_ Hne]; [by right|]. by apply Hne, zlen_zero.
  - destruct (toHost (Uid u) (UidMap i)) as [hu|e|] eqn:Eu; try done. cbn [mbind outcome_bind] in HT.
    destruct (toHost (Gid u) (GidMap i)) as [hg|e|] eqn:Eg; try done. injection HT as <-. simpl. split.
    + destruct (UidMap i) as [l|]; simpl in Eu; [|congruence].
      destruct (Hok l) as [Hl _]; [by left|].
      destruct (toHost_loop_ok _ _ _ Hl Hu Eu) as (m & ? & ? & ? & ?). exists m. naive_solver lia.
    + destruct (GidMap i) as [l|]; simpl in Eg; [|congruence].
      destruct (Hok l) as [Hl _]; [by right|].
      destruct (toHost_loop_ok _ _ _ Hl Hg Eg) as (m & ? & ? & ? & ?). exists m. naive_solver lia.
Qed.
