(* ===== verification/ForeignErrors.v ===== *)
(** * Errors that do not leave their package

    A sentinel that a package keeps to itself is never what another package returns.  The
    rules by which this is shown of a computation, and that the ztoc builder and the ztoc
    marshaller return no sentinel but their own, whatever the tar readers do. *)
From Stdlib Require Import ZArith Lia.
From stdpp Require Import base list gmap strings numbers.
From S2P Require Import Prelude GoLib Compression GzipZinfo Ztoc ZtocBuilder ZtocMarshal.
#[local] Open Scope Z_scope.

(** [m] does not return the sentinel [name]. *)
Definition foreign {A} (name : string) (m : outcome A) : Prop :=
  ∀ e, m = Err e → errors_Is e (Sentinel name) = false.

Section rules.
Context (name : string).

Lemma foreign_Ok {A} (x : A) : foreign name (Ok x).
Proof. by intros e [=]. Qed.
Lemma foreign_Panic {A} : foreign name (@Panic A).
Proof. by intros e [=]. Qed.
Lemma foreign_Err {A} e : errors_Is e (Sentinel name) = false → foreign name (Err (A:=A) e).
Proof. by intros He e' [= <-]. Qed.
Lemma foreign_bind {A B} (m : outcome A) (f : A → outcome B) :
  foreign name m → (∀ x, foreign name (f x)) → foreign name (m ≫= f).
Proof. intros Hm Hf. destruct m as [x|e|]; [apply Hf| |done]. intros e' [= <-]. by apply Hm. Qed.
Lemma foreign_fmap {A B} (m : outcome A) (f : A → B) : foreign name m → foreign name (f <$> m).
Proof. intros Hm. destruct m as [x|e|]; [done| |done]. intros e' [= <-]. by apply Hm. Qed.
Lemma foreign_wrap {A} (m : outcome A) msg : foreign name m → foreign name (map_err (Wrap msg) m).
Proof. intros Hm. destruct m as [x|e|]; [done| |done]. intros e' [= <-]. simpl. by apply Hm. Qed.
Lemma foreign_st_bind {S A B} (m : ST S A) (k : A → ST S B) s :
  foreign name (m s).1 → (∀ a s', foreign name (k a s').1) → foreign name (st_bind m k s).1.
Proof. intros Hm Hk. unfold st_bind. destruct (m s) as [[a|e|] s1]; [apply Hk|intros e' [= <-]; by apply Hm|done]. Qed.
Lemma foreign_st_wrap {S A} msg (m : ST S A) s : foreign name (m s).1 → foreign name (st_map_err (Wrap msg) m s).1.
Proof. intros Hm. unfold st_map_err. destruct (m s) as [r s1]. by apply foreign_wrap. Qed.
End rules.

(** The case analysis of a computation whose errors are made on the spot. *)
Ltac foreign_step :=
  match goal with
  | |- foreign _ (Ok _) => apply foreign_Ok
  | |- foreign _ Panic => apply foreign_Panic
  | |- foreign _ (Err (ErrorString _)) => by apply foreign_Err
  | |- foreign _ (mbind _ _) => apply foreign_bind; [|intros]
  | |- foreign _ (fmap _ _) => apply foreign_fmap
  | |- foreign _ (map_err (Wrap _) _) => apply foreign_wrap
  | |- foreign _ (match ?x with _ => _ end) => destruct x
  end.
Ltac foreign_solve := repeat foreign_step; try done.

(** ** The ztoc packages *)
Section ztoc.
Context (name : string) (Hexist : name ≠ "file does not exist"%string) (Htoc : name ≠ "invalid toc entry"%string).

Lemma foreign_not_exist {A} : foreign name (Err (A:=A) (Sentinel "file does not exist")).
Proof. apply foreign_Err. simpl. rewrite orb_false_r. apply bool_decide_eq_false. congruence. Qed.
Lemma foreign_open {A} msg : foreign name (Err (A:=A) (Wrap msg (Sentinel "file does not exist"))).
Proof. apply (foreign_wrap name (Err _) msg), foreign_not_exist. Qed.

Lemma foreign_div a b : foreign name (go_div a b).
Proof. unfold go_div. foreign_solve. Qed.
Lemma foreign_rem a b : foreign name (go_rem a b).
Proof. unfold go_rem. foreign_solve. Qed.
Lemma foreign_index {A} (l : list A) i : foreign name (index l i).
Proof. unfold index, must. foreign_solve. Qed.

Section zinfo.
Context `{GzipC, TarZinfoFlatbuf}.

Lemma foreign_NewZinfoFromFile fs algo file span : foreign name (NewZinfoFromFile fs algo file span).
Proof.
  unfold NewZinfoFromFile, GzipZinfo.newGzipZinfoFromFile, TarZinfo.newTarZinfoFromFile.
  foreign_solve; apply foreign_open.
Qed.
Lemma foreign_MaxSpanID (z : AnyZinfo) : foreign name (MaxSpanID z).
Proof.
  destruct z; cbn; unfold GzipZinfo.MaxSpanID, TarZinfo.MaxSpanID; foreign_solve;
    [apply foreign_div|apply foreign_rem].
Qed.
Lemma foreign_StartCompressedOffset (z : AnyZinfo) i : foreign name (StartCompressedOffset z i).
Proof.
  destruct z; cbn; unfold GzipZinfo.StartCompressedOffset, GzipZinfo.getCompressedOffset, GzipZinfo.hasBits,
    TarZinfo.StartCompressedOffset, get_comp_off, has_bits; foreign_solve; apply foreign_index.
Qed.
Lemma foreign_EndCompressedOffset (z : AnyZinfo) i sz : foreign name (EndCompressedOffset z i sz).
Proof.
  destruct z; cbn; unfold GzipZinfo.EndCompressedOffset, TarZinfo.EndCompressedOffset, GzipZinfo.getCompressedOffset,
    get_comp_off; foreign_solve; first [apply (foreign_MaxSpanID (ZGzip _))|apply (foreign_MaxSpanID (ZTar _))|apply foreign_index].
Qed.
Lemma foreign_Bytes (z : AnyZinfo) : foreign name (Bytes z).
Proof. destruct z; cbn; unfold GzipZinfo.Bytes, TarZinfo.Bytes, zinfo_to_blob, packed_checkpoints; cbn zeta; foreign_solve. Qed.

Context {Time : Type} `{GoTime Time, Digester, FlatbufZtoc, GoSort}.

Lemma foreign_span_digests data fileSize (z : AnyZinfo) i k : foreign name (span_digests data fileSize z i k).
Proof.
  revert i. induction k as [|k IH]; intros i; cbn [span_digests]; [apply foreign_Ok|].
  apply foreign_bind; [apply foreign_StartCompressedOffset|intros so].
  apply foreign_bind; [apply foreign_EndCompressedOffset|intros eo].
  apply foreign_bind; [|intros b; apply foreign_bind; [apply IH|intros; apply foreign_Ok]].
  destruct (section_read _ _ _); cbn [map_err]; foreign_solve.
Qed.

Lemma foreign_build_zinfo algo fs file span : foreign name (build_zinfo algo fs file span).
Proof.
  unfold build_zinfo, getFileSize, getPerSpanDigests.
  apply foreign_bind; [apply foreign_NewZinfoFromFile|intros z].
  apply foreign_bind; [destruct (fs !! file); [apply foreign_Ok|apply foreign_not_exist]|intros sz].
  apply foreign_bind.
  { destruct (fs !! file); [|apply foreign_open]. apply foreign_bind; [apply foreign_MaxSpanID|].
    intros. apply foreign_span_digests. }
  intros ds. apply foreign_bind; [apply foreign_Bytes|intros cp].
  apply foreign_bind; [apply foreign_MaxSpanID|intros m; apply foreign_Ok].
Qed.

(** A tar stream that ends with an error of its own. *)
Fixpoint stream_foreign (r : tar_stream Time) : Prop :=
  match r with
  | tar_end _ => True
  | tar_error e => errors_Is e (Sentinel name) = false
  | tar_next _ _ rest => stream_foreign rest
  end.
(** [archive/tar] and the decompressors do not return it either. *)
Definition provider_foreign (p : TarProvider Time) : Prop :=
  ∀ data, foreign name (p data) ∧ ∀ r, p data = Ok r → stream_foreign r.

Lemma foreign_metadata r o : stream_foreign r → foreign name (metadataFromTarReader r o).
Proof.
  revert o. induction r as [pos|e|h pos rest IH]; intros o Hr; cbn [metadataFromTarReader stream_foreign] in *.
  - apply foreign_Ok.
  - by apply (foreign_wrap name (Err e)), foreign_Err.
  - apply foreign_bind; [unfold getType; foreign_solve|intros ty].
    apply foreign_bind; [by apply IH|]. intros [md total]. apply foreign_Ok.
Qed.

Lemma foreign_TocFromFile tb fs algo file :
  (∀ a p, provider_of tb a = Some p → provider_foreign p) → foreign name (TocFromFile tb fs algo file).
Proof.
  intros Hp. unfold TocFromFile, getFileMetadata. destruct (negb _); [by apply foreign_Err|].
  destruct (fs !! file) as [data|]; [|apply foreign_open]. destruct (provider_of tb algo) as [p|] eqn:E; [|apply foreign_Panic].
  destruct (Hp algo p E data) as [Hf Hs]. destruct (p data) as [r|e|]; [|by apply foreign_Err, Hf|apply foreign_Panic].
  apply (foreign_metadata r 0). by apply Hs.
Qed.

(** The builder only passes on errors of its tar providers. *)
Lemma BuildZtoc_foreign (b : Builder Time) fs file span algo :
  (∀ a p, provider_of (tocBuilder b) a = Some p → provider_foreign p) →
  foreign name (BuildZtoc b fs file span [WithCompression algo]).
Proof.
  intros Hp. unfold BuildZtoc. destruct (String.eqb file ""); [by apply foreign_Err|].
  cbn [apply_options WithCompression mbind outcome_bind]. destruct (negb _); [by apply foreign_Err|].
  destruct (zinfoBuilder_of b algo) as [zb|]; [|apply foreign_Panic].
  apply foreign_bind; [destruct zb; apply foreign_build_zinfo|intros [ci sz]].
  apply foreign_bind; [by apply foreign_TocFromFile|intros [toc total]; apply foreign_Ok].
Qed.

Lemma Marshal_foreign (zt : Ztoc Time) : foreign name (Marshal zt).
Proof. unfold Marshal, ztocToFlatbuffer, compressionAlgorithmToFlatbuf. foreign_solve. Qed.

Lemma foreign_header_offsets o (toc : list (FileMetadata Time)) : foreign name (set_header_offsets o toc).
Proof.
  revert o. induction toc as [|e toc IH]; intros o; cbn [set_header_offsets]; [apply foreign_Ok|].
  destruct (_ <? _).
  - apply foreign_Err. simpl. rewrite orb_false_r. apply bool_decide_eq_false. unfold ErrInvalidTOCEntry. congruence.
  - apply foreign_bind; [apply IH|intros; apply foreign_Ok].
Qed.
Lemma Unmarshal_foreign c : foreign name (ZtocMarshal.Unmarshal (Time:=Time) (Ok c)).
Proof.
  unfold ZtocMarshal.Unmarshal, flatbufToZtoc, flatbufferToTOC. cbn [mbind outcome_bind].
  foreign_solve. apply foreign_header_offsets.
Qed.
End zinfo.
End ztoc.
