(* ===== verification/FuseAttr.v ===== *)
(** * Attributes, inode numbers and the state file of the FUSE nodes

    Models the leaf parts of [fs/layer/node.go]: the modes and attributes shown to the
    kernel, the partition of inode numbers, the operation counters, and the state file a
    layer reports errors in.  [unix.Mkdev], [unix.Statfs] and the text [encoding/json]
    writes are parameters. *)
From Stdlib Require Import ZArith Lia Floats.SpecFloat.
From stdpp Require Import base list gmap strings numbers.
From S2P Require Import Prelude GoLib Ztoc MetadataDB IDMap Remote.
#[local] Open Scope Z_scope.

(** [syscall.Errno] values are errors. *)
Definition EIO : error := Sentinel "EIO".
Definition ENOENT : error := Sentinel "ENOENT".
Definition ERANGE : error := Sentinel "ERANGE".
Definition ENODATA : error := Sentinel "ENODATA".

(** ** Modes *)
Definition S_IFMT : Z := 61440.   (* 0170000 *)
Definition S_IFSOCK : Z := 49152.
Definition S_IFLNK : Z := 40960.
Definition S_IFREG : Z := 32768.
Definition S_IFBLK : Z := 24576.
Definition S_IFDIR : Z := 16384.
Definition S_IFCHR : Z := 8192.
Definition S_IFIFO : Z := 4096.
Definition S_ISUID : Z := 2048.
Definition S_ISGID : Z := 1024.
Definition S_ISVTX : Z := 512.

Definition blockSize : Z := 4096.
Definition physicalBlockRatio : Z := blockSize / 512.
Definition statFileMode : Z := Z.lor S_IFREG 256.   (* 0400 *)
Definition stateDirMode : Z := Z.lor S_IFDIR 320.   (* 0500 *)

Definition system_type (m : Z) : Z :=
  let t := Z.land m ModeType in
  if t =? ModeDevice then S_IFBLK
  else if t =? Z.lor ModeDevice ModeCharDevice then S_IFCHR
  else if t =? ModeDir then S_IFDIR
  else if t =? ModeNamedPipe then S_IFIFO
  else if t =? ModeSymlink then S_IFLNK
  else if t =? ModeSocket then S_IFSOCK
  else S_IFREG.

Definition fileModeToSystemMode (m : Z) : Z :=
  let res := uint32 (Z.land m ModePerm) in
  let res := Z.lor res (system_type m) in
  let res := if Z.land m ModeSetuid =? 0 then res else Z.lor res S_ISUID in
  let res := if Z.land m ModeSetgid =? 0 then res else Z.lor res S_ISGID in
  if Z.land m ModeSticky =? 0 then res else Z.lor res S_ISVTX.

(** ** Attributes *)
Record StableAttr := mkStable { sa_Mode : Z; sa_Ino : Z }.

(** [fuse.Attr]; no access and change time are ever set, [None] is the zero time. *)
Record fuse_Attr (Time : Type) := mkFA {
  at_Ino : Z;
  at_Size : Z;
  at_Blocks : Z;
  at_Mtime : option Time;
  at_Mode : Z;
  at_Nlink : Z;
  at_Owner : User;
  at_Rdev : Z;
  at_Blksize : Z
}.
Arguments mkFA {Time}.
Arguments at_Ino {Time}.
Arguments at_Size {Time}.
Arguments at_Blocks {Time}.
Arguments at_Mtime {Time}.
Arguments at_Mode {Time}.
Arguments at_Nlink {Time}.
Arguments at_Owner {Time}.
Arguments at_Rdev {Time}.
Arguments at_Blksize {Time}.

Definition stable {Time} (a : fuse_Attr Time) : StableAttr := mkStable (at_Mode a) (at_Ino a).

Definition StatfsOut : Type := Z * Z * Z * Z * Z * Z * Z * Z.

(** [unix.Mkdev] and [unix.Statfs] (blocks, free, available, files, free files, block and
    fragment size). *)
Class Unix := {
  Mkdev : Z → Z → Z;
  Statfs : string → outcome (Z * Z * Z * Z * Z * Z * Z)
}.

(** 512 byte blocks of the whole 4096 byte blocks a size takes, in uint64. *)
Definition blocks_of (size : Z) : Z :=
  uint64 (Z.quot (uint64 (uint64 (size + blockSize) - 1)) blockSize * physicalBlockRatio).

Section attrs.
Context {Time : Type} `{Unix}.

Definition owner_of (idMapper : IDMap) (e : Attr Time) : User :=
  match ToHost idMapper (mkUser (uint32 (a_UID e)) (uint32 (a_GID e))) with
  | Ok u => u
  | _ => invalidUser
  end.

Definition entryToAttr (idMapper : IDMap) (ino : Z) (e : Attr Time) : fuse_Attr Time :=
  let size := if Z.land (a_Mode e) ModeSymlink =? 0 then uint64 (a_Size e)
              else uint64 (str_len (a_LinkName e)) in
  let nlink := uint32 (a_NumLink e) in
  mkFA ino size (blocks_of size) (Some (a_ModTime e)) (fileModeToSystemMode (a_Mode e))
    (if nlink =? 0 then 1 else nlink) (owner_of idMapper e)
    (uint32 (Mkdev (uint32 (a_DevMajor e)) (uint32 (a_DevMinor e)))) blockSize.

Definition entryToWhAttr (ino : Z) (e : Attr Time) : fuse_Attr Time :=
  mkFA ino 0 0 (Some (a_ModTime e)) S_IFCHR 1 (mkUser 0 0) (uint32 (Mkdev 0 0)) blockSize.

(** ** Inode numbers *)
Definition inodeOfState (baseInode : Z) : Z := Z.lor (uint64 (Z.shiftl baseInode 32)) 1.
Definition inodeOfStatFile (baseInode : Z) : Z := Z.lor (uint64 (Z.shiftl baseInode 32)) 2.
Definition inodeOfID (baseInode id : Z) : outcome Z :=
  if 2 ^ 32 - 1 - 3 <? id then Err (ErrorString "too many inodes")
  else Ok (Z.lor (uint64 (Z.shiftl baseInode 32)) (uint32 (3 + id))).

Definition stateToAttr (baseInode : Z) : fuse_Attr Time :=
  mkFA (inodeOfState baseInode) 0 0 None stateDirMode 1 (mkUser 0 0) 0 blockSize.
Definition statFileToAttr (baseInode size : Z) : fuse_Attr Time :=
  mkFA (inodeOfStatFile baseInode) size (blocks_of size) None statFileMode 1 (mkUser 0 0) 0 blockSize.

(** ** [statfs] *)
Definition defaultStatfs : StatfsOut := (0, 0, 0, 0, 0, blockSize, blockSize, 255).
Definition fillStatfs (statfsBase : string) : StatfsOut :=
  if String.eqb statfsBase "" then defaultStatfs
  else match Statfs statfsBase with
  | Ok (blocks, bfree, bavail, files, ffree, bsize, frsize) =>
      (blocks, bfree, bavail, files, ffree, uint32 bsize, uint32 frsize, 255)
  | _ => defaultStatfs
  end.
End attrs.

(** ** Operation counters *)
Definition fuseOpGetattr : string := "node.Getattr".
Definition fuseOpGetxattr : string := "node.Getxattr".
Definition fuseOpListxattr : string := "node.Listxattr".
Definition fuseOpLookup : string := "node.Lookup".
Definition fuseOpOpen : string := "node.Open".
Definition fuseOpReaddir : string := "node.Readdir".
Definition fuseOpReadLink : string := "node.Readlink".
Definition fuseOpFileRead : string := "file.Read".
Definition fuseOpFileGetattr : string := "file.Getattr".
Definition fuseOpWhiteoutGetattr : string := "whiteout.Getattr".

Definition FuseOpsList : list string :=
  [fuseOpGetattr; fuseOpGetxattr; fuseOpListxattr; fuseOpLookup; fuseOpOpen; fuseOpReaddir;
   fuseOpReadLink; fuseOpFileRead; fuseOpFileGetattr; fuseOpWhiteoutGetattr].

Definition fuseOpFailureMetrics : gmap string string :=
  {[ fuseOpGetattr := "fuse_node_getattr_failure_count";
     fuseOpListxattr := "fuse_node_listxattr_failure_count";
     fuseOpLookup := "fuse_node_lookup_failure_count";
     fuseOpOpen := "fuse_node_open_failure_count";
     fuseOpReaddir := "fuse_node_readdir_failure_count";
     fuseOpFileRead := "fuse_file_read_failure_count";
     fuseOpFileGetattr := "fuse_file_getattr_failure_count";
     fuseOpWhiteoutGetattr := "fuse_whiteout_getattr_failure_count" ]}.
Definition FuseUnknownFailureCount : string := "fuse_unknown_operation_failure_count".

Record FuseOperationCounter := mkFOC {
  opCounts : gmap string Z;   (* int32 *)
  waitPeriod : Z;
  imageDigest : string
}.

Definition NewFuseOperationCounter (imgDigest : string) (wait : Z) : FuseOperationCounter :=
  mkFOC (foldr (λ m counts, <[m := 0]> counts) ∅ FuseOpsList) wait imgDigest.

Definition Inc (op : string) (f : FuseOperationCounter) : FuseOperationCounter :=
  match opCounts f !! op with
  | None => f
  | Some c => mkFOC (<[op := int32 (c + 1)]> (opCounts f)) (waitPeriod f) (imageDigest f)
  end.

(** The counts [Run] reports: none when its context ends before the wait period. *)
Definition Run `{MapRange} (cancelled : bool) (f : FuseOperationCounter) : list (string * string * Z) :=
  if cancelled then [] else (λ kc, (kc.1, imageDigest f, kc.2)) <$> map_range (opCounts f).

(** ** The state file *)
Definition float64 (z : Z) : spec_float := binary_normalize 53 1024 z 0 false.

(** [Error] holds the reported error itself, [None] for the empty string. *)
Record statJSON := mkStat {
  sj_Error : option error;
  sj_Digest : string;
  sj_Size : Z;
  sj_FetchedSize : Z;
  sj_FetchedPercent : spec_float
}.

(** What the state file needs of [remote.Blob]. *)
Class StatBlob (B : Type) := {
  b_Size : B → Z;
  b_FetchedSize : B → Z
}.
#[global] Instance remote_blob_stat {F} : StatBlob (blob F) :=
  {| b_Size := blob_size; b_FetchedSize := blob_FetchedSize |}.

Class JSON := { json_Marshal : statJSON → outcome bytes }.
(** [encoding/json] encodes every float but infinities and not-a-number, on which it
    returns an error. *)
Definition finite (f : spec_float) : bool :=
  match f with S754_zero _ | S754_finite _ _ _ => true | _ => false end.
Class JSONLaws `{JSON} : Prop := {
  json_finite st : finite (sj_FetchedPercent st) = true → ∃ bs, json_Marshal st = Ok bs;
  json_not_finite st : finite (sj_FetchedPercent st) = false → ∃ e, json_Marshal st = Err e
}.

Section statfile.
Context {B Time : Type} `{StatBlob B} `{JSON}.

Record statFile := mkSF { sf_name : string; sf_blob : B; sf_json : statJSON }.

Definition newState (layerDigest : string) (b : B) : statFile :=
  mkSF (layerDigest +:+ ".json") b
    (mkStat None layerDigest (b_Size b) 0 (S754_zero false)).

Definition report (err : error) (sf : statFile) : statFile :=
  let j := sf_json sf in
  mkSF (sf_name sf) (sf_blob sf)
    (mkStat (Some err) (sj_Digest j) (sj_Size j) (sj_FetchedSize j) (sj_FetchedPercent j)).

Definition updateStatUnlocked : ST statFile bytes := λ sf,
  let j := sf_json sf in
  let fetched := b_FetchedSize (sf_blob sf) in
  let percent := SFmul 53 1024 (SFdiv 53 1024 (float64 fetched) (float64 (sj_Size j))) (float64 100) in
  let j := mkStat (sj_Error j) (sj_Digest j) (sj_Size j) fetched percent in
  let sf := mkSF (sf_name sf) (sf_blob sf) j in
  match json_Marshal j with
  | Ok bs => (Ok (bs ++ to_bytes (String (Ascii.ascii_of_nat 10) "")), sf)
  | Err e => (Err e, sf)
  | Panic => (Panic, sf)
  end.

(** [bytes.NewReader(st).ReadAt(dest, off)], [n] the length of [dest]. *)
Definition bytes_ReadAt (st : bytes) (n off : Z) : outcome bytes :=
  if off <? 0 then Err (ErrorString "bytes.Reader.ReadAt: negative offset")
  else if zlen st <=? off then Err io_EOF
  else Ok (sub off (Z.min (off + n) (zlen st)) st).

Definition statFile_Read (n off : Z) : ST statFile bytes := λ sf,
  match updateStatUnlocked sf with
  | (Ok st, sf') =>
      match bytes_ReadAt st n off with
      | Ok bs => (Ok bs, sf')
      | Err e => (if errors_Is e io_EOF then Ok [] else Err EIO, sf')
      | Panic => (Panic, sf')
      end
  | (Err _, sf') => (Err EIO, sf')
  | (Panic, sf') => (Panic, sf')
  end.

Definition statFile_attr (baseInode : Z) : ST statFile (fuse_Attr Time) := λ sf,
  match updateStatUnlocked sf with
  | (Ok st, sf') => (Ok (statFileToAttr baseInode (uint64 (zlen st))), sf')
  | (Err _, sf') => (Err EIO, sf')
  | (Panic, sf') => (Panic, sf')
  end.

(** The state directory: its one entry, and the lookup of it. *)
Definition state_Readdir (baseInode : Z) (sf : statFile) : list (string * Z * Z) :=
  [(sf_name sf, statFileMode, inodeOfStatFile baseInode)].
Definition state_Lookup (baseInode : Z) (name : string) : ST statFile (fuse_Attr Time) := λ sf,
  if String.eqb name (sf_name sf) then statFile_attr baseInode sf else (Err ENOENT, sf).
End statfile.
Arguments statFile : clear implicits.

(** ** Inode numbers do not collide *)
Lemma base_inode_value b low : in_uint32 b → in_uint32 low →
  Z.lor (uint64 (Z.shiftl b 32)) low = b * 2 ^ 32 + low.
Proof.
  unfold in_uint32. intros Hb Hl. rewrite Z.shiftl_mul_pow2, uint64_id by (unfold in_uint64; lia).

  rewrite <-(Z.lor_comm low), Z.add_comm. apply Z.bits_inj'. intros n Hn.
  rewrite Z.lor_spec. destruct (Z.ltb_spec n 32).
  - rewrite <-(Z.mod_pow2_bits_low (low + _) 32 n), Z.mod_add, Z.mod_pow2_bits_low by lia.
    rewrite Z.mul_pow2_bits_low, orb_false_r by lia. done.
  - replace n with (n - 32 + 32) by lia. rewrite <-!Z.div_pow2_bits by lia.
    rewrite Z.div_add, (Z.div_small low), Z.div_mul by lia.
    by rewrite Z.add_0_l, Z.testbit_0_l by lia.
Qed.

Lemma inodeOfID_value b id ino : in_uint32 b → in_uint32 id →
  inodeOfID b id = Ok ino ↔ id ≤ 2 ^ 32 - 4 ∧ ino = b * 2 ^ 32 + (3 + id).
Proof.
  unfold inodeOfID. intros Hb Hid. destruct (Z.ltb_spec (2 ^ 32 - 1 - 3) id); [naive_solver lia|].
  assert (in_uint32 (3 + id)) by (unfold in_uint32 in *; lia).
  rewrite base_inode_value, uint32_id by (done || by apply uint32_range). naive_solver lia.
Qed.

(** Inode numbers of different base inodes do not meet: two nodes have the same number only if
    they have the same id below the same base inode; no node has a number of the state directory
    or state file of any base inode, nor 0 or a number past 64 bits; an id has no number only
    when its number would reach into those of the next base inode.  The service mounts every
    layer with base inode 0, each as a file system of its own. *)
Theorem inode_numbers_unique b b' id id' :
  in_uint32 b → in_uint32 b' → in_uint32 id → in_uint32 id' →
  (∀ ino, inodeOfID b id = Ok ino → in_uint64 ino ∧ ino ≠ 0 ∧
     ino ≠ inodeOfState b' ∧ ino ≠ inodeOfStatFile b' ∧
     (inodeOfID b' id' = Ok ino → b = b' ∧ id = id')) ∧
  inodeOfState b ≠ inodeOfStatFile b' ∧
  ((∃ e, inodeOfID b id = Err e) ↔ (b + 1) * 2 ^ 32 ≤ b * 2 ^ 32 + (3 + id)).
Proof.
  intros Hb Hb' Hid Hid'. unfold inodeOfState, inodeOfStatFile.
  rewrite !base_inode_value by (done || unfold in_uint32; lia). split_and!.
  - intros ino Hino. rewrite inodeOfID_value in * by done. unfold in_uint32, in_uint64 in *. lia.
  - unfold in_uint32 in *. lia.
  - unfold inodeOfID. destruct (Z.ltb_spec (2 ^ 32 - 1 - 3) id); naive_solver lia.
Qed.

(** ** The mode of a tar header reaches the kernel unchanged *)
Definition system_type_of_flag (flag : Z) : Z :=
  if flag =? TypeSymlink then S_IFLNK
  else if flag =? TypeChar then S_IFCHR
  else if flag =? TypeBlock then S_IFBLK
  else if flag =? TypeDir then S_IFDIR
  else if flag =? TypeFifo then S_IFIFO
  else S_IFREG.

Lemma system_mode_table : forallb (λ m, forallb (λ f,
    fileModeToSystemMode (tar_FileInfo_Mode m f) =? Z.lor m (system_type_of_flag f))
  (seqZ 48 7)) (seqZ 0 4096) = true.
Proof. vm_compute. reflexivity. Qed.

(** Modes are served unchanged.  The mode the kernel is shown for a file of the table
    of contents is the tar header's permission, set-id and sticky bits together with the
    type bits of the header's type flag, for each of the seven entry types. *)
Theorem served_mode_is_tar_mode {Time} (fm : FileMetadata Time) flag :
  0 ≤ Mode fm < 4096 → TypeReg ≤ flag ≤ TypeFifo → Type_ fm = type_of_flag flag →
  fileModeToSystemMode (FileMode fm) = Z.lor (Mode fm) (system_type_of_flag flag).
Proof.
  intros Hm Hf Hty. rewrite (FileMode_matches_tar fm flag Hm Hf Hty).
  unfold TypeReg, TypeFifo in Hf. pose proof system_mode_table as Ht.
  rewrite forallb_forall in Ht. specialize (Ht (Mode fm)). rewrite forallb_forall in Ht.
  apply Z.eqb_eq, Ht; apply list_elem_of_In, elem_of_seqZ; lia.
Qed.

(** ** Sizes *)
Lemma blocks_of_value size : 0 ≤ size < 2 ^ 63 →
  blocks_of size = 8 * ((size + 4095) / 4096).
Proof.
  intros Hs. unfold blocks_of, blockSize, physicalBlockRatio, blockSize.
  rewrite (uint64_id (size + 4096)), (uint64_id (size + 4096 - 1)) by (unfold in_uint64; lia).
  rewrite Z.quot_div_nonneg by lia. change (4096 / 512) with 8.
  replace (size + 4096 - 1) with (size + 4095) by lia.
  pose proof (Z.div_le_upper_bound (size + 4095) 4096 (2 ^ 52)).
  pose proof (Z.div_pos (size + 4095) 4096).
  rewrite uint64_id by (unfold in_uint64; lia). lia.
Qed.

(** ** The state file *)
Section statfile_facts.
Context {B Time : Type} `{StatBlob B} `{JSON}.
Implicit Types sf : statFile B.

(** The stat of a blob, as the state file is written with. *)
Definition current_stat sf : statJSON :=
  let j := sf_json sf in
  mkStat (sj_Error j) (sj_Digest j) (sj_Size j) (b_FetchedSize (sf_blob sf))
    (SFmul 53 1024 (SFdiv 53 1024 (float64 (b_FetchedSize (sf_blob sf))) (float64 (sj_Size j))) (float64 100)).

Lemma updateStat_current sf :
  (updateStatUnlocked sf).2 = mkSF (sf_name sf) (sf_blob sf) (current_stat sf) ∧
  current_stat (mkSF (sf_name sf) (sf_blob sf) (current_stat sf)) = current_stat sf.
Proof.
  split; [|done]. unfold updateStatUnlocked. fold (current_stat sf).
  by destruct (json_Marshal _).
Qed.

(** The file has the size its attributes say: whatever is reported in between is part of
    both, and a read of that many bytes at 0 returns the whole text, newline included. *)
Theorem stat_size_is_content sf base bs : zlen bs < 2 ^ 63 - 1 →
  json_Marshal (current_stat sf) = Ok bs →
  let '(a, sf1) := statFile_attr (Time:=Time) base sf in
  ∃ at_, a = Ok at_ ∧ at_Size at_ = zlen bs + 1 ∧
    statFile_Read (at_Size at_) 0 sf1 = (Ok (bs ++ to_bytes (String (Ascii.ascii_of_nat 10) "")), sf1).
Proof.
  intros Hlen Hj. unfold statFile_attr, statFile_Read. destruct (updateStat_current sf) as [E1 E2].
  set (nl := to_bytes _). assert (zlen (bs ++ nl) = zlen bs + 1) as Hz by (by rewrite zlen_app).
  pose proof (zlen_nonneg bs).
  assert (∀ sf0, current_stat sf0 = current_stat sf → (updateStatUnlocked sf0).1 = Ok (bs ++ nl)) as Hup.
  { intros sf0 H0'. unfold updateStatUnlocked. fold (current_stat sf0). by rewrite H0', Hj. }
  destruct (updateStatUnlocked sf) as [r sf1] eqn:Eu. simpl in E1. subst sf1.
  pose proof (Hup sf eq_refl) as Hr. rewrite Eu in Hr. simpl in Hr. subst r.
  eexists. split; [done|]. cbn [at_Size statFileToAttr].
  rewrite uint64_id by (unfold in_uint64; lia). split; [lia|].
  set (sf1 := mkSF _ _ _) in *. pose proof (Hup sf1 E2) as Hr1.
  destruct (updateStat_current sf1) as [E3 _]. rewrite E2 in E3.
  destruct (updateStatUnlocked sf1) as [r1 sf2]. simpl in Hr1, E3. subst.
  unfold bytes_ReadAt. destruct (Z.leb_spec (zlen (bs ++ nl)) 0); [lia|]. simpl.
  by rewrite Z.min_id, sub_full.
Qed.

(** The state file of an empty layer cannot be read: the fetched percentage is 0/0,
    which JSON cannot hold, so every read and every attribute query fails. *)
Theorem empty_blob_state_unreadable `{!JSONLaws} sf base n off :
  sj_Size (sf_json sf) = 0 → b_FetchedSize (sf_blob sf) = 0 →
  (statFile_Read n off sf).1 = Err EIO ∧ (statFile_attr (Time:=Time) base sf).1 = Err EIO ∧
  (state_Lookup (Time:=Time) base (sf_name sf) sf).1 = Err EIO.
Proof.
  intros Hs Hf. assert (sj_FetchedPercent (current_stat sf) = S754_nan) as Hn.
  { unfold current_stat. cbn [sj_FetchedPercent]. by rewrite Hs, Hf. }
  destruct (json_not_finite (current_stat sf)) as [e He]; [by rewrite Hn|].
  assert (updateStatUnlocked sf = (Err e, mkSF (sf_name sf) (sf_blob sf) (current_stat sf))) as Hu.
  { unfold updateStatUnlocked. fold (current_stat sf). by rewrite He. }
  unfold state_Lookup. rewrite String.eqb_refl.
  unfold statFile_Read, statFile_attr. rewrite Hu. done.
Qed.
End statfile_facts.

(** ** Counters *)
Definition count_of (op : string) (ops : list string) : Z :=
  Z.of_nat (length (filter (λ o, o = op) ops)).

Lemma NewFuseOperationCounter_zero d w op :
  opCounts (NewFuseOperationCounter d w) !! op = if decide (op ∈ FuseOpsList) then Some 0 else None.
Proof.
  unfold NewFuseOperationCounter. cbn [opCounts]. induction FuseOpsList as [|o l IH]; [done|].
  cbn [foldr]. destruct (decide (op = o)) as [->|Hne].
  - rewrite lookup_insert_eq, decide_True; [done|left].
  - rewrite lookup_insert_ne, IH by done.
    destruct (decide (op ∈ l)); destruct (decide (op ∈ o :: l)); set_solver.
Qed.

(** Each counter counts its operation exactly, modulo the width of an int32; operations
    that are not in the list are not counted and add no counter. *)
Theorem counters_count d w ops op :
  opCounts (foldl (λ f o, Inc o f) (NewFuseOperationCounter d w) ops) !! op =
    if decide (op ∈ FuseOpsList) then Some (int32 (count_of op ops)) else None.
Proof.
  induction ops as [|o ops IH] using rev_ind.
  { cbn [foldl]. by rewrite NewFuseOperationCounter_zero. }
  rewrite foldl_app. cbn [foldl]. set (f := foldl _ _ ops) in *. unfold Inc, count_of.
  rewrite list.filter_app, length_app, list.filter_cons, list.filter_nil.
  destruct (opCounts f !! o) as [c|] eqn:Eo.
  - cbn [opCounts]. destruct (decide (o = op)) as [->|Hne].
    + rewrite lookup_insert_eq. rewrite Eo in IH. destruct (decide _); [|done].
      injection IH as ->. f_equal. unfold count_of, int32, wrap_s. simpl length.
      rewrite Nat2Z.inj_add. change (Z.of_nat 1) with 1. set (k := Z.of_nat _).
      replace (k + 1 + 2 ^ (32 - 1)) with (k + 2 ^ (32 - 1) + 1) by lia.
      rewrite <-(Zplus_mod_idemp_l (k + 2 ^ (32 - 1)) 1). do 2 f_equal. lia.
    + rewrite lookup_insert_ne, IH by done. simpl. by rewrite Nat.add_0_r.
  - rewrite IH. destruct (decide (o = op)) as [->|Hne]; [|simpl; by rewrite Nat.add_0_r].
    rewrite Eo in IH. by destruct (decide (op ∈ FuseOpsList)).
Qed.
