(* ===== verification/FuseNode.v ===== *)
(** * FUSE nodes: directories, files and whiteouts of a layer

    Models the node operations of [fs/layer/node.go].  A layer is mounted as one of the
    lower directories of an overlayfs, so entries named [.wh.<name>] are shown as
    character devices called [<name>] and a directory holding [.wh..wh..opq] carries the
    opaque attribute.  The reader of the layer is the class [LayerReader], implemented by
    [FileReader] over [MetadataTree]; go-fuse's tree of inodes in memory is the map
    [n_children] of a node, which the bridge fills with the inodes [Lookup] returns. *)
From Stdlib Require Import ZArith Lia Floats.SpecFloat.
From stdpp Require Import base list gmap strings numbers sorting.
From S2P Require Import Prelude GoLib Ztoc MetadataDB IDMap FuseAttr.
#[local] Open Scope Z_scope.

Definition whiteoutPrefix : string := ".wh.".
Definition whiteoutOpaqueDir : string := whiteoutPrefix +:+ whiteoutPrefix +:+ ".opq".
Definition opaqueXattrValue : string := "y".
Definition stateDirName : string := ".soci-snapshotter".

Inductive OverlayOpaqueType := OverlayOpaqueAll | OverlayOpaqueTrusted | OverlayOpaqueUser.

Definition opaqueXattrs_of (t : OverlayOpaqueType) : list string :=
  match t with
  | OverlayOpaqueAll => ["trusted.overlay.opaque"; "user.overlay.opaque"]
  | OverlayOpaqueTrusted => ["trusted.overlay.opaque"]
  | OverlayOpaqueUser => ["user.overlay.opaque"]
  end%string.

(** ** What a node needs of [reader.Reader] and of its [metadata.Reader] *)
Class LayerReader (Rd Fl Time : Type) := {
  lr_RootID : Rd → Z;
  lr_GetAttr : Rd → Z → outcome (Attr Time);
  lr_GetChild : Rd → Z → string → outcome (Z * Attr Time);
  (* the children [ForeachChild] ranges over: id and mode *)
  lr_Children : Rd → Z → outcome (gmap string (Z * Z));
  lr_OpenFile : Rd → Z → outcome Fl;
  lr_ReadAt : Z → Z → ST (Rd * Fl) bytes
}.

Record DirEntry := mkDE { de_Mode : Z; de_Name : string; de_Ino : Z }.

(** What an inode in memory does, and the inode. *)
Inductive ops (Time : Type) :=
| ONode (id : Z) (attr : Attr Time)
| OWhiteout (id : Z) (attr : Attr Time)
| OState.
Arguments ONode {Time}.
Arguments OWhiteout {Time}.
Arguments OState {Time}.

Record inode (Time : Type) := mkInode { i_ops : ops Time; i_stable : StableAttr }.
Arguments mkInode {Time}.
Arguments i_ops {Time}.
Arguments i_stable {Time}.

Record node (Time : Type) := mkNode {
  n_id : Z;
  n_attr : Attr Time;
  idMapper : IDMap;
  ents : list DirEntry;
  entsCached : bool;
  n_children : gmap string (inode Time)
}.
Arguments mkNode {Time}.
Arguments n_id {Time}.
Arguments n_attr {Time}.
Arguments idMapper {Time}.
Arguments ents {Time}.
Arguments entsCached {Time}.
Arguments n_children {Time}.

Section node.
Context {Rd Fl B Time : Type}.
Context `{HLR : !LayerReader Rd Fl Time} `{HU : Unix} `{HM : MapRange} `{HS : GoSort} `{HSB : !StatBlob B}.

(** [failures] are the failure metrics reported so far. *)
Record fs := mkFS {
  f_r : Rd;
  f_s : statFile B;
  layerDigest : string;
  baseInode : Z;
  rootID : Z;
  opaqueXattrs : list string;
  operationCounter : option FuseOperationCounter;
  statfsBase : string;
  failures : list string
}.

Definition newNode (r : Rd) (layer_digest : string) (b : B) (overlayOpaqueType : OverlayOpaqueType)
    (counter : option FuseOperationCounter) (rootDir : string) (base : Z) (idm : IDMap)
    : outcome (fs * node Time) :=
  let root := lr_RootID r in
  rootAttr ← lr_GetAttr r root;
  Ok (mkFS r (newState layer_digest b) layer_digest base root (opaqueXattrs_of overlayOpaqueType)
        counter rootDir [],
      mkNode root rootAttr idm [] false ∅).

Definition state : Type := fs * node Time.

Definition with_counter (c : option FuseOperationCounter) (f : fs) : fs :=
  mkFS (f_r f) (f_s f) (layerDigest f) (baseInode f) (rootID f) (opaqueXattrs f) c (statfsBase f) (failures f).

(** Logging apart. *)
Definition logAndIncrementOpCounter (op : string) : ST state () :=
  st_modify (λ s, (with_counter (Inc op <$> operationCounter s.1) s.1, s.2)).

Definition reportFailure (op : string) (err : error) (f : fs) : fs :=
  let metric := default FuseUnknownFailureCount (fuseOpFailureMetrics !! op) in
  mkFS (f_r f) (report err (f_s f)) (layerDigest f) (baseInode f) (rootID f) (opaqueXattrs f)
    (operationCounter f) (statfsBase f) (failures f ++ [metric]).

(** Report, then return an errno. *)
Definition fail_with {A} (op : string) (err : error) : ST state A := λ s,
  (Err EIO, (reportFailure op (Wrap op err) s.1, s.2)).

Definition set_ents (es : list DirEntry) (n : node Time) : node Time :=
  mkNode (n_id n) (n_attr n) (idMapper n) es true (n_children n).
Definition set_children (c : gmap string (inode Time)) (n : node Time) : node Time :=
  mkNode (n_id n) (n_attr n) (idMapper n) (ents n) (entsCached n) c.

Definition isRootNode (s : state) : bool := n_id s.2 =? rootID s.1.

Definition isOpaque (s : state) : outcome bool :=
  match lr_GetChild (f_r s.1) (n_id s.2) whiteoutOpaqueDir with
  | Ok _ => Ok true
  | Err _ => Ok false
  | Panic => Panic
  end.

(** ** [readdir] *)

(** The callback of [ForeachChild] on the children in the order they are ranged over. *)
Fixpoint readdir_children (base : Z) (l : list (string * (Z * Z))) (es : list DirEntry)
    (whiteouts : gmap string Z) (normalEnts : gset string)
    : outcome (list DirEntry * gmap string Z * gset string) :=
  match l with
  | [] => Ok (es, whiteouts, normalEnts)
  | (name, (id, mode)) :: l' =>
      if HasPrefix name whiteoutPrefix then
        if String.eqb name whiteoutOpaqueDir then readdir_children base l' es whiteouts normalEnts
        else readdir_children base l' es (<[name := id]> whiteouts) normalEnts
      else
        ino ← inodeOfID base id;
        readdir_children base l' (es ++ [mkDE (fileModeToSystemMode mode) name ino]) whiteouts
          ({[name]} ∪ normalEnts)
  end.

Definition whiteout_target (w : string) : string := str_drop (String.length whiteoutPrefix) w.

Fixpoint readdir_whiteouts (base : Z) (l : list (string * Z)) (normalEnts : gset string)
    (es : list DirEntry) : outcome (list DirEntry) :=
  match l with
  | [] => Ok es
  | (w, id) :: l' =>
      if bool_decide (whiteout_target w ∈ normalEnts) then readdir_whiteouts base l' normalEnts es
      else
        ino ← inodeOfID base id;
        readdir_whiteouts base l' normalEnts (es ++ [mkDE S_IFCHR (whiteout_target w) ino])
  end.

Definition list_entries (s : state) : outcome (list DirEntry) :=
  children ← lr_Children (f_r s.1) (n_id s.2);
  '(es, whiteouts, normalEnts) ← readdir_children (baseInode s.1) (map_range children) [] ∅ ∅;
  es ← readdir_whiteouts (baseInode s.1) (map_range whiteouts) normalEnts es;
  Ok (sort_Slice (λ a b, String.ltb (de_Name a) (de_Name b)) es).

Definition readdir : ST state (list DirEntry) := λ s,
  if entsCached s.2 then (Ok (ents s.2), s)
  else match list_entries s with
  | Ok es => (Ok es, (s.1, set_ents es s.2))
  | Err e => fail_with fuseOpReaddir e s
  | Panic => (Panic, s)
  end.

Definition Readdir : ST state (list DirEntry) :=
  (logAndIncrementOpCounter fuseOpReaddir;;; readdir)%go.

(** ** [Lookup] *)
Definition newInode (o : ops Time) (out : fuse_Attr Time) : inode Time * fuse_Attr Time :=
  (mkInode o (stable out), out).

(** A child that is in memory already. *)
Definition lookup_memory (cn : inode Time) : ST state (inode Time * fuse_Attr Time) := λ s,
  let answer id attr :=
    match inodeOfID (baseInode s.1) id with
    | Ok ino => (Ok (cn, entryToAttr (idMapper s.2) ino attr), s)
    | Err e => fail_with fuseOpLookup e s
    | Panic => (Panic, s)
    end in
  match i_ops cn with
  | ONode id attr => answer id attr
  | OWhiteout id attr => answer id attr
  | OState => fail_with fuseOpLookup (ErrorString "unknown node type detected") s
  end.

Definition lookup_whiteout (whID : Z) (wh : Attr Time) : ST state (inode Time * fuse_Attr Time) := λ s,
  match inodeOfID (baseInode s.1) whID with
  | Ok ino => (Ok (newInode (OWhiteout whID wh) (entryToWhAttr ino wh)), s)
  | Err e => fail_with fuseOpLookup e s
  | Panic => (Panic, s)
  end.

Definition lookup_metadata (name : string) : ST state (inode Time * fuse_Attr Time) := λ s,
  match lr_GetChild (f_r s.1) (n_id s.2) name with
  | Ok (id, ce) =>
      match inodeOfID (baseInode s.1) id with
      | Ok ino => (Ok (newInode (ONode id ce) (entryToAttr (idMapper s.2) ino ce)), s)
      | Err e => fail_with fuseOpLookup e s
      | Panic => (Panic, s)
      end
  | Panic => (Panic, s)
  | Err _ =>
      match lr_GetChild (f_r s.1) (n_id s.2) (whiteoutPrefix +:+ name) with
      | Ok (whID, wh) => lookup_whiteout whID wh s
      | Panic => (Panic, s)
      | Err _ =>
          match readdir s with   (* caches the entries; its error is dropped *)
          | (Panic, s') => (Panic, s')
          | (_, s') => (Err ENOENT, s')
          end
      end
  end.

Definition node_Lookup (name : string) : ST state (inode Time * fuse_Attr Time) :=
  (logAndIncrementOpCounter fuseOpLookup;;;
   s <~ st_get;;
   if HasPrefix name whiteoutPrefix then st_err ENOENT
   else if isRootNode s && String.eqb name stateDirName
   then st_ret (newInode OState (stateToAttr (baseInode s.1)))
   else match n_children s.2 !! name with
   | Some cn => lookup_memory cn
   | None =>
       if entsCached s.2 && negb (existsb (λ e, String.eqb (de_Name e) name) (ents s.2))
       then st_err ENOENT
       else lookup_metadata name
   end)%go.

(** ** The other node operations *)
Definition Getattr_of (op : string) (id : Z) (conv : Z → fuse_Attr Time) : ST state (fuse_Attr Time) :=
  (logAndIncrementOpCounter op;;; λ s,
   match inodeOfID (baseInode s.1) id with
   | Ok ino => (Ok (conv ino), s)
   | Err e => fail_with op e s
   | Panic => (Panic, s)
   end)%go.

Definition node_Getattr : ST state (fuse_Attr Time) := λ s,
  Getattr_of fuseOpGetattr (n_id s.2) (λ ino, entryToAttr (idMapper s.2) ino (n_attr s.2)) s.

(** The count returned and what is copied to [dest], of length [n]. *)
Definition copy_xattr (n : Z) (v : bytes) : Z * outcome bytes :=
  if n <? zlen v then (uint32 (zlen v), Err ERANGE) else (uint32 (zlen v), Ok v).

Definition node_Getxattr (attr : string) (n : Z) : ST state (Z * outcome bytes) :=
  (logAndIncrementOpCounter fuseOpGetxattr;;;
   s <~ st_get;;
   opq <~ st_lift (isOpaque s);;
   if existsb (String.eqb attr) (opaqueXattrs s.1) && opq
   then st_ret (copy_xattr n (to_bytes opaqueXattrValue))
   else match a_Xattrs (n_attr s.2) !! attr with
   | Some v => st_ret (copy_xattr n v)
   | None => st_ret (0, Err ENODATA)
   end)%go.

Definition nul : bytes := [Byte.x00].

Definition node_Listxattr (n : Z) : ST state (Z * outcome bytes) :=
  (logAndIncrementOpCounter fuseOpListxattr;;;
   s <~ st_get;;
   opq <~ st_lift (isOpaque s);;
   let opaque := if opq then opaqueXattrs s.1 else [] in
   let own := (map_range (a_Xattrs (n_attr s.2))).*1 in
   st_ret (copy_xattr n (concat ((λ k, to_bytes k ++ nul) <$> (opaque ++ own)))))%go.

Definition node_Readlink : ST state bytes :=
  (logAndIncrementOpCounter fuseOpReadLink;;;
   s <~ st_get;;
   st_ret (to_bytes (a_LinkName (n_attr s.2))))%go.

Definition node_Statfs (s : state) : StatfsOut := fillStatfs (statfsBase s.1).

(** ** Files and whiteouts *)
Definition FOPEN_KEEP_CACHE : Z := 2.

Definition node_Open : ST state (Fl * Z) :=
  (logAndIncrementOpCounter fuseOpOpen;;; λ s,
   match lr_OpenFile (f_r s.1) (n_id s.2) with
   | Ok ra => (Ok (ra, FOPEN_KEEP_CACHE), s)
   | Err e => fail_with fuseOpOpen e s
   | Panic => (Panic, s)
   end)%go.

Definition with_reader (r : Rd) (f : fs) : fs :=
  mkFS r (f_s f) (layerDigest f) (baseInode f) (rootID f) (opaqueXattrs f) (operationCounter f)
    (statfsBase f) (failures f).

(** A file handle: its node with the file system, and the open file. *)
Definition file_Read (n off : Z) : ST (state * Fl) bytes := λ sf,
  let '(_, s) := logAndIncrementOpCounter fuseOpFileRead sf.1 in
  let '(res, (r, fl)) := lr_ReadAt n off (f_r s.1, sf.2) in
  let s := (with_reader r s.1, s.2) in
  match res with
  | Ok bs => (Ok bs, (s, fl))
  | Panic => (Panic, (s, fl))
  | Err e =>
      if bool_decide (e = io_EOF) then (Ok [], (s, fl))
      else let '(_, s') := fail_with (A:=bytes) fuseOpFileRead e s in (Err EIO, (s', fl))
  end.

Definition file_Getattr : ST state (fuse_Attr Time) := λ s,
  Getattr_of fuseOpFileGetattr (n_id s.2) (λ ino, entryToAttr (idMapper s.2) ino (n_attr s.2)) s.

(** [id] and [attr] are the whiteout's. *)
Definition whiteout_Getattr (id : Z) (attr : Attr Time) : ST state (fuse_Attr Time) :=
  Getattr_of fuseOpWhiteoutGetattr id (λ ino, entryToWhAttr ino attr).
End node.
Arguments fs : clear implicits.
Arguments state : clear implicits.

(** ** What a directory shows

    [dir_view r id m]: the reader shows the directory [id] as the map [m], the same by
    iteration and by name.  Names of directory entries are never empty. *)
Section view.
Context {Rd Fl Time : Type} `{HLR : !LayerReader Rd Fl Time}.

Record dir_view (r : Rd) (id : Z) (m : gmap string (Z * Z)) : Prop := {
  dv_children : lr_Children r id = Ok m;
  dv_found name cid mode : m !! name = Some (cid, mode) → name ≠ ""%string ∧ in_uint32 cid ∧
    ∃ a, lr_GetChild r id name = Ok (cid, a) ∧ a_Mode a = mode;
  dv_missing name : name ≠ ""%string → m !! name = None → ∃ e, lr_GetChild r id name = Err e
}.
End view.

(** The ids of a directory's children leave room for the reserved inode numbers. *)
Definition ids_fit (m : gmap string (Z * Z)) : Prop :=
  map_Forall (λ _ c, in_uint32 c.1 ∧ c.1 ≤ 2 ^ 32 - 4) m.

(** The specification: an entry is shown under its name with its mode, a whiteout under
    the name it hides as a character device, the opaque marker not at all. *)
Definition visible (m : gmap string (Z * Z)) (name : string) : option (Z * Z) :=
  match (if HasPrefix name whiteoutPrefix then None else m !! name) with
  | Some (id, mode) => Some (id, fileModeToSystemMode mode)
  | None =>
      let w := whiteoutPrefix +:+ name in
      if String.eqb w whiteoutOpaqueDir then None else (λ c, (c.1, S_IFCHR)) <$> m !! w
  end.

Definition shown (m : gmap string (Z * Z)) (base : Z) (e : DirEntry) : Prop :=
  ∃ id, visible m (de_Name e) = Some (id, de_Mode e) ∧ inodeOfID base id = Ok (de_Ino e).

Definition name_lt (a b : DirEntry) : Prop := String.ltb (de_Name a) (de_Name b) = true.

Definition is_listing (m : gmap string (Z * Z)) (base : Z) (es : list DirEntry) : Prop :=
  StronglySorted name_lt es ∧ ∀ e, e ∈ es ↔ shown m base e.

Lemma string_ltb_irrefl s : String.ltb s s = false.
Proof. by apply string_ltb_false. Qed.

Lemma name_lt_asym a b : name_lt a b → name_lt b a → False.
Proof. unfold name_lt. intros H1 H2. apply (less_asym (less:=λ a b, String.ltb (de_Name a) (de_Name b))) in H1. congruence. Qed.

(** A listing is unique: it depends neither on the order of iteration nor on the sort. *)
Lemma is_listing_unique m base es es' : is_listing m base es → is_listing m base es' → es = es'.
Proof.
  assert (∀ l, StronglySorted name_lt l → NoDup l) as Hnd.
  { induction 1 as [|x l Hl IH Hx]; constructor; [|done]. intros Hin.
    rewrite list.Forall_forall in Hx. specialize (Hx x Hin). unfold name_lt in Hx.
    by rewrite string_ltb_irrefl in Hx. }
  intros [H1 H2] [H3 H4]. apply (StronglySorted_unique_strong name_lt); [|done|done|].
  - intros x y _ _ Hxy Hyx. by destruct (name_lt_asym x y).
  - apply NoDup_Permutation; [by apply Hnd..|]. intros e. by rewrite H2, H4.
Qed.

Section listing.
Context `{HM : MapRange} `{HS : GoSort} `{HSL : !GoSortLaws}.

Definition normal_of (base : Z) (c : string * (Z * Z)) : option DirEntry :=
  if HasPrefix c.1 whiteoutPrefix then None
  else match inodeOfID base c.2.1 with
  | Ok ino => Some (mkDE (fileModeToSystemMode c.2.2) c.1 ino)
  | _ => None
  end.
Definition whiteout_of (base : Z) (normalEnts : gset string) (c : string * Z) : option DirEntry :=
  if bool_decide (whiteout_target c.1 ∈ normalEnts) then None
  else match inodeOfID base c.2 with
  | Ok ino => Some (mkDE S_IFCHR (whiteout_target c.1) ino)
  | _ => None
  end.

Lemma inodeOfID_ok base id : in_uint32 base → in_uint32 id → id ≤ 2 ^ 32 - 4 →
  inodeOfID base id = Ok (base * 2 ^ 32 + (3 + id)).
Proof. intros. by apply inodeOfID_value. Qed.

(** A prefixed name adds nothing to the normal entries. *)
Lemma prefixed_not_normal (nrm : gset string) name (c0 : Z * Z) l x :
  HasPrefix name whiteoutPrefix = true →
  (x ∈ nrm ∨ HasPrefix x whiteoutPrefix = false ∧ ∃ c, (x, c) ∈ l) ↔
  (x ∈ nrm ∨ HasPrefix x whiteoutPrefix = false ∧ ∃ c, (x, c) ∈ (name, c0) :: l).
Proof.
  intros Hp. split.
  - intros [?|(? & c & ?)]; [by left|right]. split; [done|]. exists c. by right.
  - intros [?|(? & c & [?|?]%elem_of_cons)]; [by left|simplify_eq; congruence|right]. by eauto.
Qed.

Lemma readdir_children_spec base l es wh nrm : in_uint32 base → NoDup l.*1 →
  (∀ name c, (name, c) ∈ l → in_uint32 c.1 ∧ c.1 ≤ 2 ^ 32 - 4 ∧ wh !! name = None) →
  ∃ wh' nrm', readdir_children base l es wh nrm = Ok (es ++ omap (normal_of base) l, wh', nrm') ∧
    (∀ w id, wh' !! w = Some id ↔ wh !! w = Some id ∨
       HasPrefix w whiteoutPrefix = true ∧ w ≠ whiteoutOpaqueDir ∧ ∃ mode, (w, (id, mode)) ∈ l) ∧
    (∀ x, x ∈ nrm' ↔ x ∈ nrm ∨ HasPrefix x whiteoutPrefix = false ∧ ∃ c, (x, c) ∈ l).
Proof.
  intros Hb. revert es wh nrm. induction l as [|[name [id mode]] l IH]; intros es wh nrm Hnd Hl.
  { exists wh, nrm. rewrite app_nil_r. split; [done|]. setoid_rewrite elem_of_nil. naive_solver. }
  simpl in Hnd. apply list.NoDup_cons in Hnd as [Hname Hnd].
  destruct (Hl name (id, mode)) as (Hid & Hfit & Hwh); [left|]. simpl in Hid, Hfit.
  assert (∀ n c, (n, c) ∈ l → in_uint32 c.1 ∧ c.1 ≤ 2 ^ 32 - 4 ∧ wh !! n = None ∧ n ≠ name) as Hl'.
  { intros n c Hn. destruct (Hl n c) as (? & ? & ?); [by right|]. split_and!; try done.
    intros ->. apply Hname, list_elem_of_fmap. by exists (name, c). }
  cbn [readdir_children omap list_omap]. unfold normal_of at 1. cbn [fst snd].
  destruct (HasPrefix name whiteoutPrefix) eqn:Hp.
  - destruct (String.eqb_spec name whiteoutOpaqueDir) as [Ho|Ho].
    + destruct (IH es wh nrm) as (wh' & nrm' & -> & H1 & H2); [done|by intros n c Hn; destruct (Hl' n c Hn) as (? & ? & ? & ?)|].
      exists wh', nrm'. split_and!; [done| |]; [clear - H1 Ho|clear - H2 Hp].
      * intros w i. rewrite H1. split.
        -- intros [?|(? & ? & mo & ?)]; [by left|right]. split_and!; [done..|]. exists mo. by right.
        -- intros [?|(? & ? & mo & [?|?]%elem_of_cons)]; [by left|by simplify_eq|right]. by eauto.
      * intros x. rewrite H2. by apply prefixed_not_normal.
    + destruct (IH es (<[name := id]> wh) nrm) as (wh' & nrm' & -> & H1 & H2); [done| |].
      { intros n c Hn. destruct (Hl' n c Hn) as (? & ? & ? & ?). by rewrite lookup_insert_ne. }
      exists wh', nrm'. split_and!; [done| |]; [clear - H1 Ho Hp Hwh|clear - H2 Hp].
      * intros w i. rewrite H1, lookup_insert_Some. split.
        -- intros [[[<- <-]|[??]]|(? & ? & mo & ?)]; [right|by left|right].
           ++ split_and!; [done..|]. exists mode. by left.
           ++ split_and!; [done..|]. exists mo. by right.
        -- intros [?|(? & ? & mo & [?|?]%elem_of_cons)]; [left; right| |right; by eauto].
           ++ split; [|done]. intros ->. congruence.
           ++ simplify_eq. left. by left.
      * intros x. rewrite H2. by apply prefixed_not_normal.
  - rewrite inodeOfID_ok by done. cbn [mbind outcome_bind].
    destruct (IH (es ++ [mkDE (fileModeToSystemMode mode) name (base * 2 ^ 32 + (3 + id))]) wh
      ({[name]} ∪ nrm)) as (wh' & nrm' & -> & H1 & H2);
      [done|by intros n c Hn; destruct (Hl' n c Hn) as (? & ? & ? & ?)|].
    exists wh', nrm'. rewrite <-app_assoc. split_and!; [done| |]; [clear - H1 Hp|clear - H2 Hp].
    + intros w i. rewrite H1. split.
      * intros [?|(? & ? & mo & ?)]; [by left|right]. split_and!; [done..|]. exists mo. by right.
      * intros [?|(? & ? & mo & [?|?]%elem_of_cons)]; [by left|simplify_eq; congruence|right]. by eauto.
    + intros x. rewrite H2, elem_of_union, elem_of_singleton. split.
      * intros [[->|?]|(? & c & ?)]; [right|by left|right].
        -- split; [done|]. exists (id, mode). by left.
        -- split; [done|]. exists c. by right.
      * intros [?|(? & c & [?|?]%elem_of_cons)]; [by left; right|simplify_eq; by left; left|right]. by eauto.
Qed.

Lemma readdir_whiteouts_spec base l nrm es : in_uint32 base →
  (∀ w id, (w, id) ∈ l → in_uint32 id ∧ id ≤ 2 ^ 32 - 4) →
  readdir_whiteouts base l nrm es = Ok (es ++ omap (whiteout_of base nrm) l).
Proof.
  intros Hb. revert es. induction l as [|[w id] l IH]; intros es Hl; [by rewrite app_nil_r|].
  destruct (Hl w id) as [Hid Hfit]; [left|].
  cbn [readdir_whiteouts omap list_omap]. unfold whiteout_of at 1. cbn [fst snd].
  assert (∀ w' i, (w', i) ∈ l → in_uint32 i ∧ i ≤ 2 ^ 32 - 4) as Hl' by (intros w' i Hi; apply (Hl w'); by right).
  case_bool_decide; [by apply IH|].
  rewrite inodeOfID_ok by done. cbn [mbind outcome_bind]. rewrite IH by done.
  by rewrite <-app_assoc.
Qed.

Lemma visible_spec m name id smode : visible m name = Some (id, smode) ↔
  HasPrefix name whiteoutPrefix = false ∧ (∃ mode, m !! name = Some (id, mode) ∧ smode = fileModeToSystemMode mode) ∨
  (HasPrefix name whiteoutPrefix = true ∨ m !! name = None) ∧ smode = S_IFCHR ∧
    whiteoutPrefix +:+ name ≠ whiteoutOpaqueDir ∧ ∃ mode, m !! (whiteoutPrefix +:+ name) = Some (id, mode).
Proof.
  unfold visible. destruct (HasPrefix name whiteoutPrefix) eqn:Hp.
  2: destruct (m !! name) as [[i mo]|] eqn:Hn.
  2: { split; [intros [= -> <-]; left; eauto|]. intros [(_ & mode & [= -> ->] & ->)|([?|?] & _)]; done. }
  all: destruct (String.eqb_spec (whiteoutPrefix +:+ name) whiteoutOpaqueDir) as [He|He];
    [split; [done|]; intros [(? & ? & ? & _)|(_ & _ & ? & _)]; done|].
  all: rewrite fmap_Some; split;
    [intros ([i mo] & Hm & [= -> ->]); right; eauto 8|].
  all: intros [(? & ? & ? & _)|(_ & -> & _ & mode & Hm)]; try done; by exists (id, mode).
Qed.

Lemma whiteout_target_app name : whiteout_target (whiteoutPrefix +:+ name) = name.
Proof. apply str_drop_app. Qed.
Lemma whiteout_target_inv w : HasPrefix w whiteoutPrefix = true → w = whiteoutPrefix +:+ whiteout_target w.
Proof. apply HasPrefix_inv. Qed.

Lemma elem_of_normals base m e : e ∈ omap (normal_of base) (map_range m) ↔
  HasPrefix (de_Name e) whiteoutPrefix = false ∧ ∃ id mode, m !! de_Name e = Some (id, mode) ∧
    de_Mode e = fileModeToSystemMode mode ∧ inodeOfID base id = Ok (de_Ino e).
Proof.
  rewrite list_elem_of_omap. unfold normal_of. split.
  - intros ([name [id mode]] & Hin%elem_of_map_range & He). cbn [fst snd] in He.
    destruct (HasPrefix name whiteoutPrefix) eqn:Hp; [done|].
    destruct (inodeOfID base id) eqn:Ei; simplify_eq. eauto 8.
  - intros (Hp & id & mode & Hm & Hmode & Hino). exists (de_Name e, (id, mode)).
    cbn [fst snd]. rewrite elem_of_map_range, Hp, Hino. split; [done|]. rewrite <-Hmode. by destruct e.
Qed.

Lemma elem_of_whiteouts base nrm wh e :
  (∀ w id, wh !! w = Some id → HasPrefix w whiteoutPrefix = true) →
  e ∈ omap (whiteout_of base nrm) (map_range wh) ↔
  (de_Name e ∉ nrm) ∧ de_Mode e = S_IFCHR ∧
    ∃ id, wh !! (whiteoutPrefix +:+ de_Name e) = Some id ∧ inodeOfID base id = Ok (de_Ino e).
Proof.
  intros Hp. rewrite list_elem_of_omap. unfold whiteout_of. split.
  - intros ([w id] & Hin%elem_of_map_range & He). cbn [fst snd] in He.
    pose proof (whiteout_target_inv w (Hp w id Hin)) as Hw.
    case_bool_decide; [done|]. destruct (inodeOfID base id) eqn:Ei; simplify_eq.
    cbn [de_Name de_Mode de_Ino]. rewrite <-Hw. eauto 8.
  - intros (Hn & Hmode & id & Hw & Hino). exists (whiteoutPrefix +:+ de_Name e, id).
    cbn [fst snd]. rewrite elem_of_map_range, whiteout_target_app, bool_decide_false, Hino by done.
    split; [done|]. rewrite <-Hmode. by destruct e.
Qed.

(** Sorting entries with distinct names gives a listing of what they show. *)
Lemma sorted_listing m base l : NoDup (de_Name <$> l) → (∀ e, e ∈ l ↔ shown m base e) →
  is_listing m base (sort_Slice (λ a b, String.ltb (de_Name a) (de_Name b)) l).
Proof.
  intros Hnd Hin. split; [|intros e; by rewrite sort_Slice_perm].
  pose proof (sort_Slice_strings de_Name l) as Hs. revert Hs.
  assert (NoDup (de_Name <$> sort_Slice (λ a b, String.ltb (de_Name a) (de_Name b)) l)) as Hnd'
    by (by rewrite sort_Slice_perm).
  revert Hnd'. generalize (sort_Slice (λ a b, String.ltb (de_Name a) (de_Name b)) l) as k.
  clear. intros k Hnd Hs. induction Hs as [|x k Hk IH Hx]; [constructor|].
  apply list.NoDup_cons in Hnd as [Hn Hnd]. constructor; [by apply IH|].
  rewrite list.Forall_forall in Hx |- *. intros y Hy. unfold name_lt.
  destruct (String.ltb (de_Name x) (de_Name y)) eqn:E; [done|]. exfalso. apply string_ltb_false in E.
  apply Hn. rewrite (anti_symm String.le (de_Name x) (de_Name y) (Hx y Hy) E).
  by apply list_elem_of_fmap_2.
Qed.

Lemma list_entries_listing {Rd Fl Time B} `{!LayerReader Rd Fl Time} (s : state Rd B Time) m :
  in_uint32 (baseInode s.1) → lr_Children (f_r s.1) (n_id s.2) = Ok m → ids_fit m →
  ∃ es, list_entries s = Ok es ∧ is_listing m (baseInode s.1) es.
Proof.
  intros Hb Hm Hfit. unfold list_entries. rewrite Hm. cbn [mbind outcome_bind].
  set (base := baseInode s.1) in *.
  destruct (readdir_children_spec base (map_range m) [] ∅ ∅) as (wh & nrm & -> & Hwh & Hnrm);
    [done|apply NoDup_fst_map_range| |].
  { intros name c Hc%elem_of_map_range. destruct (Hfit name c Hc). by rewrite lookup_empty. }
  setoid_rewrite lookup_empty in Hwh. setoid_rewrite elem_of_map_range in Hwh.
  setoid_rewrite elem_of_empty in Hnrm. setoid_rewrite elem_of_map_range in Hnrm.
  cbn [mbind outcome_bind]. rewrite readdir_whiteouts_spec; [|done|].
  2: { intros w id [?|(_ & _ & mode & Hc)]%elem_of_map_range%Hwh; [done|]. by apply (Hfit w (id, mode)). }
  cbn [mbind outcome_bind]. rewrite app_nil_l. eexists. split; [done|].
  apply sorted_listing.
  - assert (∀ w id, wh !! w = Some id → HasPrefix w whiteoutPrefix = true) as Hp by (intros w id ?%Hwh; naive_solver).
    rewrite fmap_app. apply list.NoDup_app. split_and!.
    + apply (NoDup_fmap_omap de_Name); [apply NoDup_fst_map_range|]. intros x y e e' _ _. unfold normal_of.
      destruct (HasPrefix x.1 _), (HasPrefix y.1 _), (inodeOfID base x.2.1), (inodeOfID base y.2.1); naive_solver.
    + intros name (e & -> & (Hnp & id & mode & He & _)%elem_of_normals)%list_elem_of_fmap
        (e' & Hn & (Hnn & _)%elem_of_whiteouts)%list_elem_of_fmap; [|done].
      apply Hnn, Hnrm. right. rewrite <-Hn. eauto.
    + apply (NoDup_fmap_omap de_Name); [apply NoDup_fst_map_range|].
      intros [x i] [y j] e e' Hx%elem_of_map_range Hy%elem_of_map_range. unfold whiteout_of. cbn [fst snd].
      intros H1 H2 Hn. rewrite (whiteout_target_inv x), (whiteout_target_inv y) by eauto.
      repeat case_bool_decide; try done.
      destruct (inodeOfID base i), (inodeOfID base j); simplify_eq. simpl in Hn. by rewrite Hn.
  - intros e. rewrite elem_of_app, elem_of_normals, elem_of_whiteouts
      by (intros w id ?%Hwh; naive_solver).
    unfold shown. setoid_rewrite visible_spec. setoid_rewrite Hwh. rewrite Hnrm. split.
    + intros [(Hp & id & mode & Hn & Hmode & Hino)|(Hn & Hmode & id & [?|(_ & Ho & Hw)] & Hino)]; [by eauto 10|done|].
      exists id. split; [|done]. right. split_and!; [|done..].
      destruct (HasPrefix (de_Name e) whiteoutPrefix); [by left|right].
      destruct (m !! de_Name e); [|done]. destruct Hn. by eauto.
    + intros (id & [(Hp & mode & Hn & Hmode)|(Hn & Hmode & Ho & Hw)] & Hino); [by eauto 10|right].
      split_and!; [|done|]; [|exists id; split; [|done]; right; by split_and!; [apply HasPrefix_app|..]].
      intros [?|[Hp [c Hc]]]; [done|]. destruct Hn; congruence.
Qed.
End listing.

(** ** A directory over time *)
Section steps.
Context {Rd Fl B Time : Type}.
Context `{HLR : !LayerReader Rd Fl Time} `{HU : Unix} `{HM : MapRange} `{HS : GoSort} `{HSB : !StatBlob B}.
Context `{HSL : !GoSortLaws}.
Implicit Types (s : state Rd B Time) (r : Rd) (cn : inode Time) (m : gmap string (Z * Z)).

(** The bridge keeps the inode [Lookup] returns as a child of the directory. *)
Definition after_lookup (name : string) s : state Rd B Time :=
  match node_Lookup name s with
  | (Ok (cn, _), s') => (s'.1, set_children (<[name := cn]> (n_children s'.2)) s'.2)
  | (_, s') => s'
  end.

Definition same_metadata r r' : Prop :=
  ∀ id, lr_Children r' id = lr_Children r id ∧ ∀ name, lr_GetChild r' id name = lr_GetChild r id name.

(** What happens to a directory: the kernel lists it, looks a name up or forgets one;
    other nodes report failures, count operations and read files. *)
Inductive dir_step : state Rd B Time → state Rd B Time → Prop :=
| step_readdir s : dir_step s (Readdir s).2
| step_lookup s name : name ≠ ""%string → dir_step s (after_lookup name s)
| step_forget s name : dir_step s (s.1, set_children (delete name (n_children s.2)) s.2)
| step_report s op err : dir_step s (reportFailure op err s.1, s.2)
| step_count s c : dir_step s (with_counter c s.1, s.2)
| step_read s r' : same_metadata (f_r s.1) r' → dir_step s (with_reader r' s.1, s.2).

Definition memory_ok s (name : string) cn : Prop :=
  HasPrefix name whiteoutPrefix = false ∧ name ≠ ""%string ∧
  match i_ops cn with
  | ONode id a => lr_GetChild (f_r s.1) (n_id s.2) name = Ok (id, a) ∧
      ∃ ino, inodeOfID (baseInode s.1) id = Ok ino ∧ i_stable cn = mkStable (fileModeToSystemMode (a_Mode a)) ino
  | OWhiteout id a => (∃ e, lr_GetChild (f_r s.1) (n_id s.2) name = Err e) ∧
      lr_GetChild (f_r s.1) (n_id s.2) (whiteoutPrefix +:+ name) = Ok (id, a) ∧
      ∃ ino, inodeOfID (baseInode s.1) id = Ok ino ∧ i_stable cn = mkStable S_IFCHR ino
  | OState => isRootNode s = true ∧ name = stateDirName
  end.

Record dir_inv m s : Prop := {
  di_base : in_uint32 (baseInode s.1);
  di_view : dir_view (f_r s.1) (n_id s.2) m;
  di_fit : ids_fit m;
  di_ents : entsCached s.2 = true → is_listing m (baseInode s.1) (ents s.2);
  di_memory : map_Forall (memory_ok s) (n_children s.2)
}.

(** The invariant looks at these parts of the state only. *)
Lemma dir_inv_frame m s s' : dir_inv m s → same_metadata (f_r s.1) (f_r s'.1) →
  baseInode s'.1 = baseInode s.1 → rootID s'.1 = rootID s.1 → n_id s'.2 = n_id s.2 →
  (entsCached s'.2 = true → is_listing m (baseInode s.1) (ents s'.2)) →
  map_Forall (memory_ok s) (n_children s'.2) → dir_inv m s'.
Proof.
  intros [Hb [Hv1 Hv2 Hv3] Hf He Hm] Hr Eb Er En Hents Hch. destruct (Hr (n_id s.2)) as [Hr1 Hr2].
  split; rewrite ?Eb, ?En; [done|split|done|done|].
  - by rewrite Hr1.
  - intros. rewrite Hr2. eauto.
  - intros. rewrite Hr2. eauto.
  - intros name cn Hc. specialize (Hch name cn Hc). unfold memory_ok, isRootNode in *.
    rewrite Eb, Er, En, !Hr2. done.
Qed.
Lemma same_metadata_refl r : same_metadata r r.
Proof. by intros id. Qed.

Lemma readdir_inv m s : dir_inv m s →
  ∃ es, readdir s = (Ok es, (s.1, set_ents es s.2)) ∧ is_listing m (baseInode s.1) es ∧
    dir_inv m (s.1, set_ents es s.2).
Proof.
  intros Hi. pose proof Hi as [Hb Hv Hf He Hm]. unfold readdir.
  destruct (entsCached s.2) eqn:Ec.
  - exists (ents s.2). assert (set_ents (ents s.2) s.2 = s.2) as Hs
      by (unfold set_ents; rewrite <-Ec; by destruct (s.2)).
    rewrite Hs. destruct s as [f n]. split_and!; [done|by apply He|done].
  - destruct (list_entries_listing s m) as (es & -> & Hes); [done|apply Hv|done|].
    exists es. split_and!; [done|done|].
    apply (dir_inv_frame m s); [done|apply same_metadata_refl|done..|]. exact Hm.
Qed.

Lemma isRoot_counter s c : isRootNode (with_counter c s.1, s.2) = isRootNode s.
Proof. done. Qed.

(** *** What [Lookup] answers *)
Lemma visible_child m s name : dir_inv m s → name ≠ ""%string → HasPrefix name whiteoutPrefix = false →
  match lr_GetChild (f_r s.1) (n_id s.2) name with
  | Ok (id, a) => visible m name = Some (id, fileModeToSystemMode (a_Mode a)) ∧
      ∃ ino, inodeOfID (baseInode s.1) id = Ok ino
  | Err _ => match lr_GetChild (f_r s.1) (n_id s.2) (whiteoutPrefix +:+ name) with
    | Ok (id, a) => visible m name = Some (id, S_IFCHR) ∧ ∃ ino, inodeOfID (baseInode s.1) id = Ok ino
    | Err _ => visible m name = None
    | Panic => False
    end
  | Panic => False
  end.
Proof.
  intros [Hb [_ Hfound Hmiss] Hf _ _] Hn Hp.
  assert (whiteoutPrefix +:+ name ≠ whiteoutOpaqueDir) as Ho.
  { intros He. by rewrite (string_app_inj whiteoutPrefix _ _ He) in Hp. }
  unfold visible. rewrite Hp. apply String.eqb_neq in Ho. rewrite Ho.
  destruct (m !! name) as [[id mode]|] eqn:Em.
  - destruct (Hfound name id mode Em) as (_ & _ & a & -> & <-). split; [done|].
    destruct (Hf name _ Em). eexists. by apply inodeOfID_ok.
  - destruct (Hmiss name Hn Em) as [e ->].
    destruct (m !! (whiteoutPrefix +:+ name)) as [[id mode]|] eqn:Ew.
    + destruct (Hfound _ id mode Ew) as (_ & _ & a & -> & <-). split; [done|].
      destruct (Hf _ _ Ew). eexists. by apply inodeOfID_ok.
    + by destruct (Hmiss (whiteoutPrefix +:+ name) ltac:(done) Ew) as [e' ->].
Qed.

Definition whiteout_in_memory s (name : string) : Prop :=
  ∃ cn id a, n_children s.2 !! name = Some cn ∧ i_ops cn = OWhiteout id a.

Definition lookup_spec m s (name : string) (out : outcome (inode Time * fuse_Attr Time)) : Prop :=
  match visible m name with
  | None => out = Err ENOENT
  | Some (id, mode) => ∃ cn at_ ino, out = Ok (cn, at_) ∧ inodeOfID (baseInode s.1) id = Ok ino ∧
      i_stable cn = mkStable mode ino ∧ at_Ino at_ = ino ∧ memory_ok s name cn ∧
      (at_Mode at_ = mode ∨ whiteout_in_memory s name)
  end.

(** The parts of a state a lookup leaves alone. *)
Definition kept s s' : Prop :=
  f_r s'.1 = f_r s.1 ∧ baseInode s'.1 = baseInode s.1 ∧ rootID s'.1 = rootID s.1 ∧
  n_id s'.2 = n_id s.2 ∧ n_children s'.2 = n_children s.2.

Definition lookup_ok m s name (res : outcome (inode Time * fuse_Attr Time) * state Rd B Time) : Prop :=
  lookup_spec m s name res.1 ∧ dir_inv m res.2 ∧ kept s res.2.

Lemma lookup_memory_ok m s name cn : dir_inv m s → isRootNode s && String.eqb name stateDirName = false →
  n_children s.2 !! name = Some cn → lookup_ok m s name (lookup_memory cn s).
Proof.
  intros Hi Hroot Hc. pose proof (di_memory _ _ Hi name cn Hc) as Hm. pose proof Hm as (Hp & Hn & Ho).
  pose proof (visible_child m s name Hi Hn Hp) as Hv. unfold lookup_memory, lookup_ok, lookup_spec.
  destruct (i_ops cn) as [id a|id a|] eqn:Eo.
  - destruct Ho as (Hg & ino & Hino & Hst). rewrite Hg in Hv. destruct Hv as [-> _]. rewrite Hino.
    split; [|done]. exists cn, (entryToAttr (idMapper s.2) ino a), ino. by split_and!; try left.
  - destruct Ho as ([e He] & Hg & ino & Hino & Hst). rewrite He, Hg in Hv. destruct Hv as [-> _]. rewrite Hino.
    split; [|done]. exists cn, (entryToAttr (idMapper s.2) ino a), ino.
    split_and!; try done. right. by exists cn, id, a.
  - destruct Ho as [Hr ->]. by rewrite Hr in Hroot.
Qed.

Lemma lookup_metadata_ok m s name : dir_inv m s → name ≠ ""%string → HasPrefix name whiteoutPrefix = false →
  lookup_ok m s name (lookup_metadata name s).
Proof.
  intros Hi Hn Hp. pose proof (visible_child m s name Hi Hn Hp) as Hv.
  unfold lookup_metadata, lookup_ok, lookup_spec.
  destruct (lr_GetChild (f_r s.1) (n_id s.2) name) as [[id a]|e|] eqn:Eg; [| |done].
  - destruct Hv as [-> [ino Hino]]. rewrite Hino. split; [|done].
    eexists _, _, ino. split_and!; [done..| |by left]. split_and!; [done..|]. simpl. by eauto.
  - destruct (lr_GetChild (f_r s.1) (n_id s.2) (whiteoutPrefix +:+ name)) as [[id a]|e'|] eqn:Ew; [| |done].
    + destruct Hv as [-> [ino Hino]]. unfold lookup_whiteout. rewrite Hino. split; [|done].
      eexists _, _, ino. split_and!; [done..| |by left]. split_and!; [done..|]. simpl. by eauto 8.
    + rewrite Hv. destruct (readdir_inv m s Hi) as (es & -> & _ & Hi'). done.
Qed.

Lemma Lookup_answers m s name : dir_inv m s → name ≠ ""%string → HasPrefix name whiteoutPrefix = false →
  isRootNode s && String.eqb name stateDirName = false → lookup_ok m s name (node_Lookup name s).
Proof.
  intros Hi Hn Hp Hroot.
  assert (∀ c, dir_inv m (with_counter c s.1, s.2)) as Hi'.
  { intros c. by apply (dir_inv_frame m s); [done|apply same_metadata_refl|..]; try apply Hi. }
  unfold node_Lookup, logAndIncrementOpCounter, st_bind, st_modify, st_get, st_err, st_ret.
  rewrite Hp, isRoot_counter, Hroot. cbn [fst snd].
  set (s0 := (with_counter (Inc fuseOpLookup <$> operationCounter s.1) s.1, s.2)).
  change (lookup_ok m s0 name (match n_children s.2 !! name with
    | Some cn => lookup_memory cn
    | None => if entsCached s.2 && negb (existsb (λ e, String.eqb (de_Name e) name) (ents s.2))
              then λ s', (Err ENOENT, s') else lookup_metadata name end s0)).
  destruct (n_children s.2 !! name) as [cn|] eqn:Ec; [by apply lookup_memory_ok; [apply Hi'|..]|].
  destruct (entsCached s.2 && _) eqn:Ee; [|by apply lookup_metadata_ok; [apply Hi'|..]].
  apply andb_true_iff in Ee as [Ee1 Ee2]. split; [|split; [apply Hi'|done]]. unfold lookup_spec.
  destruct (visible m name) as [[id mode]|] eqn:Ev; [exfalso|done].
  pose proof (visible_child m s name Hi Hn Hp) as Hv. rewrite Ev in Hv.
  assert (∃ ino, inodeOfID (baseInode s.1) id = Ok ino) as [ino Hino].
  { destruct (lr_GetChild _ _ name) as [[??]|?|]; [| |done].
    - destruct Hv as [[= <- _] ?]. done.
    - destruct (lr_GetChild _ _ _) as [[??]|?|]; [|congruence|done]. destruct Hv as [[= <- _] ?]. done. }
  assert (mkDE mode name ino ∈ ents s.2) as Hin by (apply (di_ents m s Hi Ee1); by exists id).
  apply negb_true_iff in Ee2. rewrite (proj2 (existsb_exists _ _)) in Ee2; [done|].
  exists (mkDE mode name ino). split; [by apply list_elem_of_In|apply String.eqb_refl].
Qed.

Lemma kept_frame m s s' ch : kept s s' → dir_inv m s' → map_Forall (memory_ok s) ch →
  dir_inv m (s'.1, set_children ch s'.2).
Proof.
  intros (Er & Eb & Ero & En & _) Hi Hch.
  apply (dir_inv_frame m s'); [done|apply same_metadata_refl|done..|apply Hi|].
  intros name cn Hc. specialize (Hch name cn Hc). unfold memory_ok, isRootNode in *. cbn [fst snd] in *.
  by rewrite Er, Eb, Ero, En.
Qed.

Lemma after_lookup_inv m s name : dir_inv m s → name ≠ ""%string → dir_inv m (after_lookup name s).
Proof.
  intros Hi Hn. unfold after_lookup.
  assert (∀ c, dir_inv m (with_counter c s.1, s.2)) as Hi'.
  { intros c. by apply (dir_inv_frame m s); [done|apply same_metadata_refl|..]; try apply Hi. }
  destruct (HasPrefix name whiteoutPrefix) eqn:Hp.
  { unfold node_Lookup, logAndIncrementOpCounter, st_bind, st_modify, st_get, st_err. rewrite Hp. apply Hi'. }
  destruct (isRootNode s && String.eqb name stateDirName) eqn:Hroot.
  - unfold node_Lookup, logAndIncrementOpCounter, st_bind, st_modify, st_get, st_ret.
    rewrite Hp, isRoot_counter, Hroot. cbn [fst snd newInode].
    apply (kept_frame m s (with_counter _ s.1, s.2)); [done|apply Hi'|].
    apply map_Forall_insert_2; [|apply (di_memory _ _ Hi)]. apply andb_true_iff in Hroot as [Hr He].
    apply String.eqb_eq in He. by split_and!.
  - destruct (Lookup_answers m s name Hi Hn Hp Hroot) as (Hs & Hinv & Hk).
    destruct (node_Lookup name s) as [[[cn at_]|e|] s']; [|done..]. simpl in Hs, Hinv, Hk.
    apply (kept_frame m s s'); [done|done|]. pose proof Hk as (_ & _ & _ & _ & ->).
    apply map_Forall_insert_2; [|apply (di_memory _ _ Hi)].
    unfold lookup_spec in Hs. destruct (visible m name) as [[id mode]|]; [|done].
    destruct Hs as (cn' & at' & ino & [= <- <-] & _ & _ & _ & Hm & _). done.
Qed.

Lemma dir_step_inv m s s' : dir_inv m s → dir_step s s' → dir_inv m s'.
Proof.
  intros Hi Hs. destruct Hs as [s|s name Hn|s name|s op err|s c|s r' Hr];
    [|by apply after_lookup_inv|..].
  - unfold Readdir, logAndIncrementOpCounter, st_bind, st_modify.
    edestruct (readdir_inv m) as (es & -> & _ & Hi'); [|exact Hi'].
    by apply (dir_inv_frame m s); [done|apply same_metadata_refl|..]; try apply Hi.
  - apply (kept_frame m s s); [done|done|]. apply map_Forall_delete, Hi.
  - by apply (dir_inv_frame m s); [done|apply same_metadata_refl|..]; try apply Hi.
  - by apply (dir_inv_frame m s); [done|apply same_metadata_refl|..]; try apply Hi.
  - by apply (dir_inv_frame m s); [done|done|..]; try apply Hi.
Qed.

Lemma dir_steps_inv m s s' : dir_inv m s → rtc dir_step s s' → dir_inv m s'.
Proof. intros Hi Hs. induction Hs; eauto using dir_step_inv. Qed.

Lemma fresh_dir_inv m s : in_uint32 (baseInode s.1) → dir_view (f_r s.1) (n_id s.2) m → ids_fit m →
  entsCached s.2 = false → n_children s.2 = ∅ → dir_inv m s.
Proof. intros Hb Hv Hf He Hc. split; [done..|congruence|]. rewrite Hc. apply map_Forall_empty. Qed.

(** The extended attributes that are listed are the ones that can be read; with a buffer
    that is too small both calls return the size that is needed. *)
Theorem listed_attributes_readable s opq : isOpaque s = Ok opq →
  ∃ names, (∀ n, (node_Listxattr n s).1 = Ok (copy_xattr n (concat ((λ k, to_bytes k ++ nul) <$> names)))) ∧
    ∀ name n, (name ∈ names ↔ ∃ v, (node_Getxattr name n s).1 = Ok (copy_xattr n v)) ∧
      (name ∉ names → (node_Getxattr name n s).1 = Ok (0, Err ENODATA)).
Proof.
  intros Ho. exists ((if opq then opaqueXattrs s.1 else []) ++ (map_range (a_Xattrs (n_attr s.2))).*1).
  assert (∀ c, isOpaque (with_counter c s.1, s.2) = Ok opq) as Ho' by (intros; exact Ho). split.
  - intros n. unfold node_Listxattr, logAndIncrementOpCounter, st_bind, st_modify, st_get, st_lift, st_ret.
    by rewrite Ho'.
  - intros name n.
    assert ((node_Getxattr name n s).1 = Ok (if existsb (String.eqb name) (opaqueXattrs s.1) && opq
      then copy_xattr n (to_bytes opaqueXattrValue) else match a_Xattrs (n_attr s.2) !! name with
      | Some v => copy_xattr n v | None => (0, Err ENODATA) end)) as ->.
    { unfold node_Getxattr, logAndIncrementOpCounter, st_bind, st_modify, st_get, st_lift, st_ret.
      rewrite Ho'. cbn [fst snd with_counter opaqueXattrs]. destruct (_ && opq); [done|].
      by destruct (a_Xattrs (n_attr s.2) !! name). }
    assert (name ∈ (if opq then opaqueXattrs s.1 else []) ++ (map_range (a_Xattrs (n_attr s.2))).*1 ↔
      existsb (String.eqb name) (opaqueXattrs s.1) && opq = true ∨ is_Some (a_Xattrs (n_attr s.2) !! name)) as Hin.
    { rewrite elem_of_app, list_elem_of_fmap, andb_true_iff, existsb_exists. setoid_rewrite <-list_elem_of_In.
      apply Morphisms_Prop.or_iff_morphism; [destruct opq|].
      - split; [intros; split; [|done]; exists name; split; [done|apply String.eqb_refl]|].
        intros [(x & Hx & ->%String.eqb_eq) _]. done.
      - split; [by intros ?%elem_of_nil|by intros [_ ?]].
      - split; [intros ([k v] & -> & Hk%elem_of_map_range); by exists v|].
        intros [v Hv]. exists (name, v). by rewrite elem_of_map_range. }
    rewrite Hin. destruct (existsb (String.eqb name) (opaqueXattrs s.1) && opq); [split; [|naive_solver]; split; eauto|].
    destruct (a_Xattrs (n_attr s.2) !! name) as [v|]; [split; [|naive_solver]; split; eauto|].
    split; [|done]. split; [intros [?|[? ?]]; done|]. intros [v Hv]. unfold copy_xattr in Hv. by destruct (n <? zlen v).
Qed.

(** C6: a directory looks the same for ever.  Whatever is listed, looked up, forgotten, read
    or reported before, listing a directory returns its visible entries and nothing else,
    each once and in the order of their names; looking a name up finds an inode with the
    number and mode the listing shows for it, and [ENOENT] for a name it does not show;
    whiteout files themselves are never found.  The entry cache and the order Go ranges over
    maps in make no difference.  The attributes that come with the inode have the mode of the
    listing, too, except those of a whiteout whose inode is in memory already (see below).
    Not covered: the empty name, and the name of the state directory in the root. *)
Theorem directory_refines_view m s0 s name :
  in_uint32 (baseInode s0.1) → dir_view (f_r s0.1) (n_id s0.2) m → ids_fit m →
  entsCached s0.2 = false → n_children s0.2 = ∅ → rtc dir_step s0 s → name ≠ ""%string →
  (∃ es, (Readdir s).1 = Ok es ∧ is_listing m (baseInode s.1) es) ∧
  (HasPrefix name whiteoutPrefix = true → (node_Lookup name s).1 = Err ENOENT) ∧
  (HasPrefix name whiteoutPrefix = false → isRootNode s && String.eqb name stateDirName = false →
   lookup_spec m s name (node_Lookup name s).1).
Proof.
  intros Hb Hv Hf He Hc Hs Hn.
  assert (dir_inv m s) as Hi by (by eapply dir_steps_inv; [apply fresh_dir_inv|]). split_and!.
  - unfold Readdir, logAndIncrementOpCounter, st_bind, st_modify.
    edestruct (readdir_inv m (with_counter (Inc fuseOpReaddir <$> operationCounter s.1) s.1, s.2))
      as (es & -> & Hes & _); [|by exists es].
    by apply (dir_inv_frame m s); [done|apply same_metadata_refl|..]; try apply Hi.
  - intros Hp. unfold node_Lookup, logAndIncrementOpCounter, st_bind, st_modify, st_get, st_err. by rewrite Hp.
  - intros Hp Hroot. by apply Lookup_answers.
Qed.

(** A whiteout that is looked up again has other attributes.  The first lookup shows a
    character device of size 0 owned by root; once its inode is in memory, a lookup shows
    the mode, the size and the owner of the [.wh.] file instead. *)
Theorem whiteout_attributes_change m s name id a :
  dir_inv m s → name ≠ ""%string → HasPrefix name whiteoutPrefix = false →
  isRootNode s && String.eqb name stateDirName = false →
  m !! name = None → lr_GetChild (f_r s.1) (n_id s.2) (whiteoutPrefix +:+ name) = Ok (id, a) →
  n_children s.2 = ∅ → entsCached s.2 = false →
  ∃ cn ino, (node_Lookup name s).1 = Ok (cn, entryToWhAttr ino a) ∧
    (node_Lookup name (after_lookup name s)).1 = Ok (cn, entryToAttr (idMapper s.2) ino a).
Proof.
  intros Hi Hn Hp Hroot Hm Hg Hc He.
  destruct (dv_missing _ _ _ (di_view _ _ Hi) name Hn Hm) as [e Hmiss].
  pose proof (visible_child m s name Hi Hn Hp) as Hv. rewrite Hmiss, Hg in Hv.
  destruct Hv as [_ [ino Hino]].
  exists (mkInode (OWhiteout id a) (stable (entryToWhAttr ino a))), ino.
  assert (node_Lookup name s = (Ok (mkInode (OWhiteout id a) (stable (entryToWhAttr ino a)), entryToWhAttr ino a),
    (with_counter (Inc fuseOpLookup <$> operationCounter s.1) s.1, s.2))) as Hl.
  { unfold node_Lookup, logAndIncrementOpCounter, st_bind, st_modify, st_get, st_err, st_ret.
    rewrite Hp, isRoot_counter, Hroot. cbn [fst snd]. rewrite Hc, lookup_empty, He.
    cbn [andb]. set (s0 := (_, s.2)). unfold lookup_metadata. change (f_r s0.1) with (f_r s.1).
    change (n_id s0.2) with (n_id s.2). rewrite Hmiss, Hg.
    unfold lookup_whiteout. change (baseInode s0.1) with (baseInode s.1). by rewrite Hino. }
  split; [by rewrite Hl|]. unfold after_lookup. rewrite Hl. cbn [fst snd].
  unfold node_Lookup, logAndIncrementOpCounter, st_bind, st_modify, st_get, st_err, st_ret.
  rewrite Hp. cbn [fst snd set_children n_children]. rewrite lookup_insert_eq.
  unfold isRootNode in *. cbn [fst snd set_children n_id with_counter rootID]. rewrite Hroot.
  unfold lookup_memory. cbn [i_ops fst snd with_counter baseInode set_children idMapper]. by rewrite Hino.
Qed.
End steps.
