(* ===== verification/FuseMount.v ===== *)
(** * A mounted layer

    Puts [FuseNode], [FileReader] and [MetadataTree] together: the reader of a layer is a
    [LayerReader]; a directory whose entry [writeMetadataEntry] stored has the view its
    children describe; what a container reads from an open file is the file's bytes. *)
From Stdlib Require Import ZArith Lia.
From stdpp Require Import base list gmap strings numbers.
From S2P Require Import Prelude GoLib Compression GzipZinfo Ztoc ZtocBuilder ZtocMarshal BlobCache.
From S2P Require Import SpanManager Encoders MetadataDB MetadataTree FileReader LostCommit IDMap FuseAttr FuseNode.
#[local] Open Scope Z_scope.

Section instance.
Context {T C W R Time : Type}.
Context `{HZ : Zinfo T} `{HB : BlobCache C W} `{HR : SpanManager.ReaderAt R} `{HD : Digester}.
Context `{HT : GoTime Time} `{HM : MapRange} `{HP : TarParser Time}.

(** [order] is the order in which the goroutines of [GetContents] finish. *)
Definition layer_reader_of (order : nat → list nat) :
  LayerReader (FileReader.reader T C R Time) FileReader.file Time := {|
  lr_RootID r := MetadataTree.rootID (r_metadata r);
  lr_GetAttr r id := MetadataTree.GetAttr (r_metadata r) id;
  lr_GetChild r id name := MetadataTree.GetChild (r_metadata r) id name;
  lr_Children r id := MetadataTree.ForeachChild (r_metadata r) id;
  lr_OpenFile r id := FileReader.OpenFile r id;
  lr_ReadAt n off := FileReader.ReadAt order n off
|}.

(** ** Stored directories *)
Definition node_mode (r : MetadataTree.reader) (id : Z) : Z :=
  match rd_nodes r !! id with Some b => uint32 (Uvarint (get b bucketKeyMode)).1 | None => 0 end.

Definition child_view (r : MetadataTree.reader) (cs : gmap string childEntry) : gmap string (Z * Z) :=
  (λ c, (c_id c, node_mode r (c_id c))) <$> cs.

Record stored_dir (r : MetadataTree.reader) (id : Z) (cs : gmap string childEntry) : Prop := {
  sd_children : children_ok cs;
  sd_written : ∃ m md, m_children m = cs ∧ in_int64 (m_UncompressedOffset m) ∧
    in_int64 (m_TarHeaderOffset m) ∧ in_int64 (m_TarHeaderSize m) ∧
    writeMetadataEntry empty_bucket m = Ok md ∧ rd_meta r !! id = Some md;
  sd_nodes : map_Forall (λ _ c, ∃ b a, rd_nodes r !! c_id c = Some b ∧
    readNodeEntryToAttr (Time:=Time) b zeroAttr = Ok a) cs
}.

Lemma read_mode b a : readNodeEntryToAttr (Time:=Time) b zeroAttr = Ok a →
  a_Mode a = uint32 (Uvarint (get b bucketKeyMode)).1.
Proof.
  unfold readNodeEntryToAttr, get. intros H. ok_inv H. apply (inj Ok) in H. subst a. cbn [a_Mode].
  by destruct (kv b !! bucketKeyMode).
Qed.

Lemma extra_children_spec r l acc : NoDup l.*1 →
  (∀ k v, (k, v) ∈ l → acc !! k = None ∧ ∃ id b, decodeID v = Ok id ∧ rd_nodes r !! id = Some b) →
  ∃ m, extra_children r l acc = Ok m ∧ ∀ k c, m !! k = Some c ↔ acc !! k = Some c ∨
    ∃ v id, (k, v) ∈ l ∧ decodeID v = Ok id ∧ c = (id, node_mode r id).
Proof.
  revert acc. induction l as [|[k v] l IH]; intros acc Hnd Hl.
  { exists acc. split; [done|]. setoid_rewrite elem_of_nil. naive_solver. }
  simpl in Hnd. apply list.NoDup_cons in Hnd as [Hk Hnd].
  destruct (Hl k v) as (Hacc & id & b & Hdec & Hb); [left|].
  cbn [extra_children]. rewrite Hdec. unfold child_mode at 1. cbn [mbind outcome_bind]. rewrite Hb.
  cbn [mbind outcome_bind].
  destruct (IH (<[k := (id, uint32 (Uvarint (get b bucketKeyMode)).1)]> acc)) as (m & -> & Hm); [done| |].
  { intros k' v' Hin. destruct (Hl k' v') as (? & ?); [by right|]. rewrite lookup_insert_ne; [done|].
    intros ->. apply Hk, list_elem_of_fmap. by exists (k', v'). }
  exists m. split; [done|]. intros k' c. rewrite Hm, lookup_insert_Some. unfold node_mode.
  split; [intros [[[<- <-]|[??]]|(? & ? & ? & ? & ->)]|
          intros [?|(v' & i' & [[= -> ->]|?]%elem_of_cons & ? & ->)]]; eauto 8 using list_elem_of_further.
  - right. exists v, id. rewrite Hb. by split_and!; [left|..].
  - left. right. split; [|done]. intros ->. congruence.
  - left. left. rewrite Hdec in *. simplify_eq. by rewrite Hb.
Qed.

(** What the iteration over a stored directory yields. *)
Lemma ForeachChild_stored r id cs : stored_dir r id cs → ForeachChild r id = Ok (child_view r cs).
Proof.
  intros [Hok (m & md & <- & _ & _ & _ & (md1 & Hw & ->)%writeMetadataEntry_inv & Hmeta) Hnodes].
  unfold ForeachChild. rewrite Hmeta.
  apply write_children_spec in Hw as [_ Hc]; [|done|done|done].
  destruct Hc as [[Hcs ->]|(n1 & c1 & Hc1 & Hn & Hi & Hm)].
  { unfold child_view. rewrite Hcs, fmap_empty. done. }
  unfold get. autorewrite with bucket. rewrite Hn, Hi. cbn [default from_option Datatypes.id].
  destruct (Hok n1 c1 Hc1) as (_ & Hne & Hid1). destruct (Hnodes n1 c1 Hc1) as (b1 & a1 & Hb1 & _).
  assert ((zlen (to_bytes n1) =? 0) = false) as ->.
  { apply Z.eqb_neq. intros Hz. by apply Hne, to_bytes_nil, zlen_zero. }
  rewrite decode_encodeID by done. unfold child_mode. cbn [mbind outcome_bind]. rewrite Hb1, of_to_bytes.
  cbn [mbind outcome_bind]. set (mode1 := uint32 _).
  assert (∀ m', (∀ k c, m' !! k = Some c ↔ ({[n1 := (c_id c1, mode1)]} : gmap string (Z * Z)) !! k = Some c ∨
    ∃ cc, m_children m !! k = Some cc ∧ k ≠ n1 ∧ c = (c_id cc, node_mode r (c_id cc))) →
    m' = child_view r (m_children m)) as Hfinal.
  { intros m' Hm'. apply map_eq. intros k. apply option_eq. intros c. rewrite Hm'. unfold child_view.
    rewrite lookup_fmap, fmap_Some, lookup_singleton_Some.
    assert (mode1 = node_mode r (c_id c1)) as -> by (unfold node_mode; by rewrite Hb1).
    split; [intros [[<- <-]|(cc & ? & ? & ->)]; eauto|]. intros (cc & Hcc & ->).
    destruct (decide (k = n1)) as [->|]; [left; by simplify_eq|right; eauto]. }
  cbn [subs put]. destruct (subs md1 !! bucketKeyChildrenExtra) as [cbkt|] eqn:Es; cbn [default from_option Datatypes.id] in Hm.
  - destruct (extra_children_spec r (map_to_list cbkt) {[n1 := (c_id c1, mode1)]}) as (m' & -> & Hm');
      [apply NoDup_fst_map_to_list| |].
    { intros k v (cc & Hcc & Hk & ->)%elem_of_map_to_list%Hm. split; [by rewrite lookup_singleton_ne|].
      destruct (Hnodes k cc Hcc) as (b & _ & Hb & _). exists (c_id cc), b.
      split; [|done]. apply decode_encodeID. by apply (Hok k cc). }
    f_equal. apply Hfinal. intros k c. rewrite Hm'. apply or_iff_compat_l.
    setoid_rewrite elem_of_map_to_list. setoid_rewrite Hm. split.
    + intros (v & i & (cc & Hcc & Hk & ->) & Hd & ->). exists cc.
      rewrite decode_encodeID in Hd by (by apply (Hok k cc)). by simplify_eq.
    + intros (cc & Hcc & Hk & ->). exists (encodeID (c_id cc)), (c_id cc). split_and!; [by eauto| |done].
      apply decode_encodeID. by apply (Hok k cc).
  - f_equal. apply Hfinal. intros k c. split; [by left|]. intros [?|(cc & Hcc & Hk & ->)]; [done|].
    assert ((∅ : gmap string bytes) !! k = Some (encodeID (c_id cc))) as Hx by (apply Hm; eauto). done.
Qed.

(** Iteration and lookup agree on a stored directory: both show exactly the children that
    were stored, with their ids and modes. *)
Lemma stored_dir_view order r id cs : stored_dir (r_metadata r) id cs →
  dir_view (HLR := layer_reader_of order) r id (child_view (r_metadata r) cs).
Proof.
  intros Hsd. pose proof Hsd as [Hok (m & md & <- & H1 & H2 & H3 & Hw & Hmeta) Hnodes].
  destruct (entry_written m md Hok H1 H2 H3 Hw) as [_ Hread].
  split; cbn [layer_reader_of lr_Children lr_GetChild].
  - by apply ForeachChild_stored.
  - intros name cid mode. unfold child_view. rewrite lookup_fmap, fmap_Some.
    intros (c & Hc & [= -> ->]). destruct (Hok name c Hc) as (_ & Hne & Hid). split_and!; [done|done|].
    destruct (Hnodes name c Hc) as (b & a & Hb & Ha). exists a.
    specialize (Hread name Hne). rewrite Hc in Hread. unfold GetChild, GetAttr. rewrite Hmeta, Hread.
    cbn [map_err mbind outcome_bind]. rewrite Hb, Ha. split; [done|].
    rewrite (read_mode b a Ha). unfold node_mode. by rewrite Hb.
  - intros name Hne. unfold child_view. rewrite lookup_fmap, fmap_None. intros Hc.
    specialize (Hread name Hne). rewrite Hc in Hread. destruct Hread as [e He].
    unfold GetChild. rewrite Hmeta, He. eexists. done.
Qed.
End instance.

(** ** Reading a file of a mounted layer *)
Section read.
Context {T C W R Time B : Type}.
Context `{HZ : Zinfo T} `{HB : BlobCache C W} `{HR : SpanManager.ReaderAt R} `{HD : Digester}.
Context `{HT : GoTime Time} `{HM : MapRange} `{HP : TarParser Time} `{HSB : !StatBlob B}.
Context `{HC : !BlobCacheLaws C W} `{HLog : !CommitLog C W}.
Context {zi : T} {comp uncomp : bytes} {n : Z} {su sc ec : Z → Z}.
Context {HL : ZinfoLaws zi comp uncomp n su sc ec}.

(** [io.EOF] itself comes from the end of the file, or from verification. *)
Lemma ReadAt_EOF order len offset (s s' : FileReader.state (T:=T) (C:=C) (R:=R) (Time:=Time)) :
  FileReader.ReadAt order len offset s = (Err io_EOF, s') →
  m_UncompressedSize (fr s.2) ≤ offset ∨
  disableVerification s.1 = false ∧ (Verify order s).1 = Err io_EOF.
Proof.
  unfold FileReader.ReadAt, st_bind, st_get, st_ret, st_err, st_map_err.
  destruct (disableVerification s.1); [|destruct (Verify order s) as [[[]|e|] s1] eqn:Ev]; simpl.
  all: repeat match goal with
  | |- context [if ?c then _ else _] => destruct c eqn:?
  | |- context [on_spans ?o ?a ?b ?x] => destruct (on_spans o a b x) as [[?|?|] ?]
  end; simpl; try done; intros Heq; zcases; auto.
  all: injection Heq as -> _; auto.
Qed.

Definition read_result (e : metadataEntry) (len offset : Z) : bytes :=
  if m_UncompressedSize e <=? offset then [] else file_bytes (uncomp:=uncomp) e len offset.

(** C5: what a container reads is the file.  Whatever the registry answers and whichever calls of
    the cache fail, a read of an open file that lies inside the layer, through the FUSE handle,
    returns exactly the bytes of the file at the offset, up to its end and nothing past it, or
    fails with [EIO], with the failure counted and reported in the state file; the only other
    ways to return anything else are an [io.EOF] from verifying the file's header, which gives
    no data, and a [Commit] of the cache that has failed, an error which the code drops.  No
    other content has the digest of a span, and the tar parser does not panic. *)
Theorem fuse_read_exact order len offset (s : FuseNode.state (FileReader.reader T C R Time) B Time) fl :
  collision_free (n:=n) (comp:=comp) (sc:=sc) (ec:=ec) →
  fits (comp:=comp) (uncomp:=uncomp) → (∀ b, tar_Next b ≠ Panic) →
  (∀ k, order k ≡ₚ seq 0 k) → 0 < len → 0 ≤ offset → in_layer (uncomp:=uncomp) (fr fl) →
  state_ok (zi:=zi) (comp:=comp) (uncomp:=uncomp) (n:=n) (su:=su) (sc:=sc) (ec:=ec) (f_r s.1, fl) →
  match file_Read (HLR:=layer_reader_of order) len offset (s, fl) with
  | (Ok bs, (s', _)) => bs = read_result (fr fl) len offset ∨
      bs = [] ∧ (Verify order (f_r s.1, fl)).1 = Err io_EOF ∨ lost (sm_cache (spanManager (f_r s'.1)))
  | (Err e, (s', _)) => e = EIO ∧ failures s'.1 = failures s.1 ++ ["fuse_file_read_failure_count"%string] ∧
      ∃ err, sj_Error (sf_json (f_s s'.1)) = Some err
  | (Panic, (s', _)) => lost (sm_cache (spanManager (f_r s'.1)))
  end.
Proof.
  intros Hcf Hf Htar Hord Hlen Hoff Hin Hok.
  pose proof (read_or_lost Hcf Hf Htar order len offset (f_r s.1, fl) Hord Hlen Hoff Hin Hok) as Hwp.
  pose proof (ReadAt_EOF order len offset (f_r s.1, fl)) as Heof.
  unfold file_Read, logAndIncrementOpCounter, st_modify. cbn [fst snd with_counter f_r lr_ReadAt layer_reader_of].
  destruct (FileReader.ReadAt order len offset (f_r s.1, fl)) as [[bs|e|] [r' fl']]; [| |exact Hwp].
  - destruct Hwp as [Hl|(Hlt & -> & _)]; [by right; right|]. left. cbn [fst snd] in *.
    unfold read_result. by destruct (Z.leb_spec (m_UncompressedSize (fr fl)) offset); [lia|].
  - destruct (bool_decide_reflect (e = io_EOF)) as [->|Hne].
    + destruct (Heof _ eq_refl) as [Hle|[_ Hv]]; [left|by right; left]. unfold read_result. cbn [fst snd] in Hle.
      by destruct (Z.leb_spec (m_UncompressedSize (fr fl)) offset); [|lia].
    + cbn. split_and!; [done..|]. by eexists.
Qed.
End read.
