(* ===== verification/Oci.v ===== *)
(** * OCI documents and stores

    The data the SOCI packages exchange with registries and containerd: descriptors,
    platforms, manifests and image indexes (fields the program reads or writes), the
    interface of the blob store ([soci/store/store.go]), and what the program uses of
    containerd ([images], [platforms], its content store) and of [encoding/json], as
    classes. *)
From Stdlib Require Import ZArith Lia.
From stdpp Require Import base list gmap strings numbers.
From S2P Require Import Prelude GoLib.
#[local] Open Scope Z_scope.

Record Platform := mkPlatform { Architecture : string; OS : string; Variant : string }.
#[global] Instance Platform_eq_dec : EqDecision Platform.
Proof. solve_decision. Defined.

Record Descriptor := mkDesc {
  d_MediaType : string;
  d_Digest : string;
  d_Size : Z;
  d_Annotations : gmap string string;
  d_Platform : option Platform;
  d_ArtifactType : string
}.
#[global] Instance Descriptor_eq_dec : EqDecision Descriptor.
Proof. solve_decision. Defined.

Definition emptyDescriptor : Descriptor := mkDesc "" "" 0 ∅ None "".
Definition content_desc (mt dg : string) (size : Z) : Descriptor := mkDesc mt dg size ∅ None "".

Record Manifest := mkManifest {
  m_SchemaVersion : Z;
  m_MediaType : string;
  m_Config : Descriptor;
  m_Layers : list Descriptor;
  m_Subject : option Descriptor;
  m_Annotations : gmap string string
}.

Record OciIndex := mkOciIndex {
  x_SchemaVersion : Z;
  x_MediaType : string;
  x_Manifests : list Descriptor;
  x_Annotations : gmap string string
}.

Definition MediaTypeImageManifest : string := "application/vnd.oci.image.manifest.v1+json".
Definition MediaTypeImageIndex : string := "application/vnd.oci.image.index.v1+json".
Definition MediaTypeImageConfig : string := "application/vnd.oci.image.config.v1+json".
Definition MediaTypeImageLayer : string := "application/vnd.oci.image.layer.v1.tar".

(** ** Errors of stores *)
Definition errdefs_ErrAlreadyExists : error := Sentinel "already exists".
Definition oras_ErrAlreadyExists : error := Sentinel "oras: already exists".
Definition errdefs_ErrNotFound : error := Sentinel "not found".
Definition errdefs_ErrFailedPrecondition : error := Sentinel "failed precondition".

Definition IsErrAlreadyExists (err : error) : bool :=
  errors_Is err errdefs_ErrAlreadyExists || errors_Is err oras_ErrAlreadyExists.

(** ** [store.Store] *)
Class Store (S : Type) := {
  s_Exists : Descriptor → ST S bool;
  s_Fetch : Descriptor → ST S bytes;
  s_Push : Descriptor → bytes → ST S ();
  s_Label : Descriptor → string → string → ST S ();
  s_Delete : string → ST S ();
  s_BatchOpen : ST S ();
  s_BatchDone : S → S
}.

(** ** containerd's content store, through [images] *)
Class ContentStore (CS : Type) := {
  images_Manifest : CS → Descriptor → option Platform → outcome Manifest;
  images_Children : CS → Descriptor → outcome (list Descriptor);
  images_Platforms : CS → Descriptor → outcome (list Platform);
  cs_ReadAll : CS → Descriptor → outcome bytes
}.

(** [images.IsLayerType], [IsIndexType], [IsManifestType], [DiffCompression]. *)
Class MediaTypes := {
  IsLayerType : string → bool;
  IsIndexType : string → bool;
  IsManifestType : string → bool;
  DiffCompression : string → outcome string
}.

(** [github.com/containerd/platforms]. *)
Class Platforms := {
  platforms_Normalize : Platform → Platform;
  platforms_OnlyStrict : Platform → Platform → bool;   (* the matcher's [Match] *)
  platforms_Format : Platform → string;
  platforms_DefaultSpec : Platform
}.
(** A strict matcher matches a platform exactly when it normalises to the same one. *)
Class PlatformsLaws `{Platforms} : Prop := {
  OnlyStrict_spec p q :
    platforms_OnlyStrict p q = true ↔ platforms_Normalize p = platforms_Normalize q;
  Normalize_idem p : platforms_Normalize (platforms_Normalize p) = platforms_Normalize p
}.

(** [encoding/json] on manifests and image indexes; [decodes_as_index] is decoding into
    [soci.Index], whose result is overwritten except for the error. *)
Class DocJSON := {
  manifest_Marshal : Manifest → outcome bytes;
  manifest_Unmarshal : bytes → outcome Manifest;
  decodes_as_index : bytes → outcome ();
  ociindex_Marshal : OciIndex → outcome bytes;
  ociindex_Unmarshal : bytes → outcome OciIndex
}.
(** Encoding these documents does not fail and decoding gives them back. *)
Class DocJSONLaws `{DocJSON} : Prop := {
  manifest_json m : ∃ b, manifest_Marshal m = Ok b ∧ manifest_Unmarshal b = Ok m ∧ decodes_as_index b = Ok ();
  ociindex_json x : ∃ b, ociindex_Marshal x = Ok b ∧ ociindex_Unmarshal b = Ok x
}.

(** ** Labels for containerd's garbage collector *)
Section labels.
Context `{Store BS}.
(** [now] is the current time in RFC 3339. *)
Definition LabelGCRoot (now : string) (target : Descriptor) : ST BS () :=
  s_Label target "containerd.io/gc.root" now.
Definition LabelGCRefContent (target : Descriptor) (ref digest : string) : ST BS () :=
  let ref := if String.eqb ref "" then ref else "." +:+ ref in
  s_Label target ("containerd.io/gc.ref.content" +:+ ref) digest.
End labels.

(** ** Content store types ([soci/store/store.go]) *)
Definition ContainerdContentStoreType : string := "containerd".
Definition SociContentStoreType : string := "soci".
Definition DefaultContentStoreType : string := "containerd".
Definition DefaultContainerdContentStorePath : string := "/var/lib/containerd/io.containerd.content.v1.content".
Definition DefaultSociContentStorePath : string := "/var/lib/soci-snapshotter-grpc/content".

Definition CanonicalizeContentStoreType (t : string) : outcome string :=
  if String.eqb t "" then Ok DefaultContentStoreType
  else if String.eqb t ContainerdContentStoreType || String.eqb t SociContentStoreType then Ok t
  else Err (ErrorString "unknown content store type").

(** [filepath.Join] is a parameter of two elements here. *)
Definition GetContentStorePath (filepath_Join : string → string → string) (t root : string) : outcome string :=
  t ← CanonicalizeContentStoreType t;
  if String.eqb t ContainerdContentStoreType then Ok DefaultContainerdContentStorePath
  else if String.eqb t SociContentStoreType then
    if String.eqb root "" then Ok DefaultSociContentStorePath else Ok (filepath_Join root "content")
  else Err (ErrorString "unexpectedly reached end of GetContentStorePath").

(** ** [util/ociutil] *)
Section ociutil.
Context `{Platforms}.

Fixpoint dedupe_loop (ps matchers res : list Platform) : list Platform :=
  match ps with
  | [] => res
  | p :: ps' =>
      if existsb (λ m, platforms_OnlyStrict m (platforms_Normalize p)) matchers
      then dedupe_loop ps' matchers res
      else dedupe_loop ps' (matchers ++ [platforms_Normalize p]) (res ++ [p])
  end.
Definition DedupePlatforms (ps : list Platform) : list Platform := dedupe_loop ps [] [].
End ociutil.

(** [json.Unmarshal] into [UnknownDocument]: its media type and which of config, layers,
    manifests and fsLayers are present. *)
Record UnknownDocument := mkUD {
  ud_MediaType : string; ud_Config : bool; ud_Layers : bool; ud_Manifests : bool; ud_FSLayers : bool
}.
Class UnknownJSON := { unknown_Unmarshal : bytes → outcome UnknownDocument }.

Definition ValidateMediaType `{MediaTypes, UnknownJSON} (b : bytes) (mt : string) : outcome () :=
  doc ← unknown_Unmarshal b;
  if ud_FSLayers doc then Err (ErrorString "media-type: schema 1 not supported")
  else if IsManifestType mt && (ud_Manifests doc || IsIndexType (ud_MediaType doc))
  then Err (ErrorString "media-type: expected manifest but found index")
  else if IsIndexType mt && (ud_Config doc || ud_Layers doc || IsManifestType (ud_MediaType doc))
  then Err (ErrorString "media-type: expected index but found manifest")
  else Ok ().

(** ** The content-addressed store the [containerd] client wraps *)
Section containerd_store.
Context {CS : Type}.

(** [client.ContentStore()]: [Info], [ReaderAt], a writer's [Commit], [Update] and
    [Delete]. *)
Class ContainerdContent := {
  c_Info : string → CS → outcome ();
  c_ReaderAt : Descriptor → CS → outcome bytes;
  c_OpenWriter : string → ST CS ();
  c_Commit : bytes → Z → string → ST CS ();
  c_UpdateLabel : string → string → string → ST CS ();
  c_Delete : string → ST CS ();
  c_WithLease : ST CS ()
}.
Context `{ContainerdContent}.
Local Open Scope go_scope.

Definition ctd_Exists (target : Descriptor) : ST CS bool := λ s,
  match c_Info (d_Digest target) s with
  | Ok _ => (Ok true, s)
  | Err e => if errors_Is e errdefs_ErrNotFound then (Ok false, s) else (Err e, s)
  | Panic => (Panic, s)
  end.

Definition ctd_Fetch (target : Descriptor) : ST CS bytes := λ s, (c_ReaderAt target s, s).

(** The copy loop: everything the reader yields, up to its end or its error, is written. *)
Definition ctd_Push (expected : Descriptor) (content : bytes) : ST CS () :=
  exists_ <~ ctd_Exists expected;;
  if exists_ : bool then st_err errdefs_ErrAlreadyExists
  else
    c_OpenWriter (d_Digest expected);;;
    let totalWritten := zlen content in
    if (0 <? d_Size expected) && negb (d_Size expected =? totalWritten)
    then st_err (Wrap "unexpected copy size" errdefs_ErrFailedPrecondition)
    else c_Commit content (d_Size expected) (d_Digest expected).

Definition ctd_Label (target : Descriptor) (name value : string) : ST CS () :=
  c_UpdateLabel (d_Digest target) name value.

#[global] Instance containerd_store : Store CS := {|
  s_Exists := ctd_Exists;
  s_Fetch := ctd_Fetch;
  s_Push := ctd_Push;
  s_Label := ctd_Label;
  s_Delete := c_Delete;
  s_BatchOpen := st_map_err (Wrap "unable to open batch") c_WithLease;
  s_BatchDone s := s
|}.
End containerd_store.
Arguments ContainerdContent : clear implicits.

(** ** Facts *)
Section dedupe.
Context `{PlatformsLaws}.

Lemma dedupe_loop_spec ps matchers res : matchers = platforms_Normalize <$> res → NoDup matchers →
  let r := dedupe_loop ps matchers res in
  NoDup (platforms_Normalize <$> r) ∧ res `prefix_of` r ∧ r `sublist_of` res ++ ps ∧
  ∀ p, p ∈ res ++ ps → platforms_Normalize p ∈ platforms_Normalize <$> r.
Proof.
  revert matchers res. induction ps as [|p ps IH]; intros matchers res -> Hnd; simpl.
  { rewrite app_nil_r. split_and!; [done..|]. intros p Hp. by apply list_elem_of_fmap_2. }
  destruct (existsb _ _) eqn:E.
  - apply existsb_exists in E as (m & Hm & Hs). apply list_elem_of_In in Hm.
    apply OnlyStrict_spec in Hs. rewrite Normalize_idem in Hs.
    destruct (IH (platforms_Normalize <$> res) res eq_refl Hnd) as (H1 & H2 & H3 & H4).
    split_and!; [done|done| |].
    + etrans; [exact H3|]. apply sublist_app; [done|]. by apply sublist_cons.
    + intros q [Hq|[->|Hq]%elem_of_cons]%elem_of_app; [apply H4, elem_of_app; by left| |apply H4, elem_of_app; by right].
      apply list_elem_of_fmap in Hm as (q & -> & Hq). rewrite Normalize_idem in Hs. rewrite <-Hs.
      apply H4, elem_of_app. by left.
  - destruct (IH ((platforms_Normalize <$> res) ++ [platforms_Normalize p]) (res ++ [p])) as (H1 & H2 & H3 & H4).
    { by rewrite fmap_app. }
    { apply list.NoDup_app. split_and!; [done| |apply NoDup_singleton].
      intros x Hx ->%list_elem_of_singleton.
      assert (existsb (λ m, platforms_OnlyStrict m (platforms_Normalize p)) (platforms_Normalize <$> res) = true); [|congruence].
      apply existsb_exists. exists (platforms_Normalize p). split; [by apply list_elem_of_In|]. by apply OnlyStrict_spec. }
    rewrite <-app_assoc in *. split_and!; [done| |done|done].
    by eapply prefix_app_l.
Qed.

(** [DedupePlatforms] keeps the first platform of every normal form, in order. *)
Theorem DedupePlatforms_spec ps :
  NoDup (platforms_Normalize <$> DedupePlatforms ps) ∧ DedupePlatforms ps `sublist_of` ps ∧
  ∀ p, p ∈ ps → platforms_Normalize p ∈ platforms_Normalize <$> DedupePlatforms ps.
Proof. destruct (dedupe_loop_spec ps [] []) as (? & _ & ? & ?); [done|constructor|done]. Qed.
End dedupe.
