(* ===== verification/ArtifactsDb.v ===== *)
(** * The artifacts database

    Models [soci/artifacts.go]: a bbolt database with a bucket [soci_artifacts] that holds
    one bucket per artifact digest.  A write transaction that fails is rolled back.  bbolt
    iterates over keys in byte order.  The walk over the files of the blob store is the
    list of files found. *)
From Stdlib Require Import ZArith Lia Ascii.
From stdpp Require Import base list gmap strings numbers sorting.
From S2P Require Import Prelude GoLib Ztoc Encoders MetadataDB IDMap Oci.
#[local] Open Scope Z_scope.

(** ** [strconv.ParseInt(s, 10, 64)] and [strconv.FormatInt(i, 10)] *)
Fixpoint parse_digits (acc : Z) (s : string) : option Z :=
  match s with
  | EmptyString => Some acc
  | String c s' => if is_digit c then parse_digits (10 * acc + digit c) s' else None
  end.
Definition parse_nat (s : string) : option Z :=
  if String.eqb s "" then None else parse_digits 0 s.

Definition ParseInt (s : string) : outcome Z :=
  let '(neg, ds) := match s with
                    | String "-" s' => (true, s')
                    | String "+" s' => (false, s')
                    | _ => (false, s)
                    end%char in
  match parse_nat ds with
  | None => Err (ErrorString "invalid syntax")
  | Some n => let z := if neg : bool then - n else n in
      if bool_decide (in_int64 z) then Ok z else Err (ErrorString "value out of range")
  end.

Definition digit_char (d : Z) : Ascii.ascii := Ascii.ascii_of_N (Z.to_N (48 + d)).
Fixpoint format_nat (fuel : nat) (n : Z) (acc : string) : string :=
  match fuel with
  | O => acc
  | S fuel => let acc := String (digit_char (n mod 10)) acc in
      if n / 10 =? 0 then acc else format_nat fuel (n / 10) acc
  end.
(** Twenty digits are enough for 64 bits. *)
Definition FormatInt (i : Z) : string :=
  if i <? 0 then String "-" (format_nat 20 (- i) "") else format_nat 20 i "".

(** ** Entries *)
Definition bucketKeySize : string := "size".
Definition bucketKeyOriginalDigest : string := "oci_digest".
Definition bucketKeyImageDigest : string := "image_digest".
Definition bucketKeyPlatform : string := "platform".
Definition bucketKeyLocation : string := "location".
Definition bucketKeyType : string := "type".
Definition bucketKeyMediaType : string := "media_type".
Definition bucketKeyArtifactType : string := "artifact_type".
Definition bucketKeyCreatedAt : string := "created_at".
Definition bucketKeySpanSize : string := "span_size".

Definition ArtifactEntryTypeIndex : string := "soci_index".
Definition ArtifactEntryTypeLayer : string := "soci_layer".
Definition ArtifactEntryTypePrefetch : string := "soci_prefetch".

Definition ErrArtifactBucketNotFound : error := Sentinel "soci_artifacts not found".

Record ArtifactEntry (Time : Type) := mkAE {
  ae_Size : Z;
  ae_Digest : string;
  ae_OriginalDigest : string;
  ae_ImageDigest : string;
  ae_Platform : string;
  ae_Location : string;
  ae_Type : string;
  ae_MediaType : string;
  ae_ArtifactType : string;
  ae_CreatedAt : Time;
  ae_SpanSize : Z
}.
Arguments mkAE {Time}.
Arguments ae_Size {Time}.
Arguments ae_Digest {Time}.
Arguments ae_OriginalDigest {Time}.
Arguments ae_ImageDigest {Time}.
Arguments ae_Platform {Time}.
Arguments ae_Location {Time}.
Arguments ae_Type {Time}.
Arguments ae_MediaType {Time}.
Arguments ae_ArtifactType {Time}.
Arguments ae_CreatedAt {Time}.
Arguments ae_SpanSize {Time}.

(** ** The database: [None] until the first write creates the bucket [soci_artifacts] *)
Definition abucket : Type := gmap string bytes.
Definition adb : Type := option (gmap string abucket).

Definition aget (b : abucket) (k : string) : bytes := default [] (b !! k).

(** The buckets in the order bbolt iterates over them. *)
Definition bolt_order (m : gmap string abucket) : list (string * abucket) :=
  merge_sort (λ a b, String.le a.1 b.1) (map_to_list m).

Definition Update {A} (f : ST adb A) : ST adb A := λ d,
  match f d with
  | (Ok a, d') => (Ok a, d')
  | (Err e, _) => (Err e, d)
  | (Panic, _) => (Panic, d)
  end.

Section entries.
Context {Time : Type} `{GoTime Time}.
Implicit Types (ae : ArtifactEntry Time) (d : adb).
Local Open Scope go_scope.

Definition loadArtifact (b : abucket) (digest : string) : outcome (ArtifactEntry Time) :=
  size ← DecodeInt (aget b bucketKeySize);
  spanSize ← (let e := aget b bucketKeySpanSize in
              if 0 <? zlen e then DecodeInt e else Ok 0);
  createdAt ← match b !! bucketKeyCreatedAt with
              | None => Ok time_zero
              | Some v => match time_GobDecode v with
                          | Some t => Ok t
                          | None => Err (ErrorString "cannot unmarshal CreatedAt time")
                          end
              end;
  let str k := of_bytes (aget b k) in
  Ok (mkAE size digest (str bucketKeyOriginalDigest) (str bucketKeyImageDigest) (str bucketKeyPlatform)
        (str bucketKeyLocation) (str bucketKeyType) (str bucketKeyMediaType) (str bucketKeyArtifactType)
        createdAt spanSize).

Definition entry_updates ae (sizeInBytes createdAt spanSizeInBytes : bytes) : list (string * bytes) :=
  [(bucketKeySize, sizeInBytes);
   (bucketKeyLocation, to_bytes (ae_Location ae));
   (bucketKeyOriginalDigest, to_bytes (ae_OriginalDigest ae));
   (bucketKeyImageDigest, to_bytes (ae_ImageDigest ae));
   (bucketKeyPlatform, to_bytes (ae_Platform ae));
   (bucketKeyType, to_bytes (ae_Type ae));
   (bucketKeyMediaType, to_bytes (ae_MediaType ae));
   (bucketKeyArtifactType, to_bytes (ae_ArtifactType ae));
   (bucketKeyCreatedAt, createdAt);
   (bucketKeySpanSize, spanSizeInBytes)].

Definition putArtifactEntry ae (artifacts : gmap string abucket) : outcome (gmap string abucket) :=
  if String.eqb (ae_Digest ae) "" then Err (Sentinel "bucket name required")
  else
    let artifactBkt := default ∅ (artifacts !! ae_Digest ae) in
    sizeInBytes ← EncodeInt (ae_Size ae);
    spanSizeInBytes ← EncodeInt (ae_SpanSize ae);
    match time_GobEncode (ae_CreatedAt ae) with
    | None => Err (ErrorString "Time.MarshalBinary")
    | Some createdAt =>
        let b := foldl (λ m u, <[u.1 := u.2]> m) artifactBkt
                   (entry_updates ae sizeInBytes createdAt spanSizeInBytes) in
        Ok (<[ae_Digest ae := b]> artifacts)
    end.

Definition writeArtifactEntry ae : ST adb () := λ d,
  match putArtifactEntry ae (default ∅ d) with
  | Ok m => (Ok tt, Some m)
  | Err e => (Err e, d)
  | Panic => (Panic, d)
  end.

Definition WriteArtifactEntry (entry : option (ArtifactEntry Time)) : ST adb () :=
  match entry with
  | None => st_err (ErrorString "no entry to write")
  | Some ae => Update (writeArtifactEntry ae)
  end.

Definition getArtifactsBucket d : outcome (gmap string abucket) :=
  match d with None => Err ErrArtifactBucketNotFound | Some m => Ok m end.

Definition getArtifactEntryByDigest (m : gmap string abucket) (digest : string) : outcome (ArtifactEntry Time) :=
  match m !! digest with
  | None => Err (Wrap "couldn't retrieve artifact" errdefs_ErrNotFound)
  | Some b => loadArtifact b digest
  end.

Definition GetArtifactEntry (digest : string) d : outcome (ArtifactEntry Time) :=
  m ← getArtifactsBucket d; getArtifactEntryByDigest m digest.

Definition GetArtifactType (digest : string) d : outcome string :=
  ae ← GetArtifactEntry digest d; Ok (ae_Type ae).

(** [f] is called with each entry and the variables it captures; it may ask to stop, as may
    an entry that does not load.  [Walk] drops the error that stopped it. *)
Fixpoint walk_loop {A} (f : ArtifactEntry Time → A → A * bool) (l : list (string * abucket)) (acc : A) : A :=
  match l with
  | [] => acc
  | (k, b) :: l' =>
      match loadArtifact b k with
      | Ok ae => let '(acc', stop) := f ae acc in if stop then acc' else walk_loop f l' acc'
      | _ => acc
      end
  end.
Definition Walk {A} (f : ArtifactEntry Time → A → A * bool) (acc : A) d : A :=
  match d with None => acc | Some m => walk_loop f (bolt_order m) acc end.

Definition getIndexArtifactEntries (indexDigest : string) d : list (ArtifactEntry Time) :=
  Walk (λ ae acc, (if String.eqb (ae_Type ae) ArtifactEntryTypeIndex &&
                      String.eqb (ae_OriginalDigest ae) indexDigest then acc ++ [ae] else acc, false)) [] d.

(** ** Removing entries *)
Definition indexBucket (b : abucket) : bool :=
  String.eqb (of_bytes (aget b bucketKeyMediaType)) MediaTypeImageManifest.
Definition hasImageDigest (b : abucket) (digest : string) : bool :=
  String.eqb digest (of_bytes (aget b bucketKeyImageDigest)).

Definition RemoveArtifactEntryByIndexDigest (digest : string) : ST adb () := Update (λ d,
  match d with
  | None => (Err ErrArtifactBucketNotFound, d)
  | Some m =>
      match m !! digest with
      | None => (Err (ErrorString "the index of the digest doesn't exist"), d)
      | Some b => if indexBucket b then (Ok tt, Some (delete digest m))
                  else (Err (ErrorString "the digest does not correspond to an index"), d)
      end
  end).

Definition GetArtifactEntriesByImageDigest (digest : string) d : outcome (list string) :=
  m ← getArtifactsBucket d;
  Ok (List.filter (λ kb, indexBucket kb.2 && hasImageDigest kb.2 digest) (bolt_order m)).*1.

Definition updateSociV2ArtifactReference (indexDigest manifestDigest imageDigest : string) : ST adb () :=
  Update (λ d,
    match GetArtifactEntry indexDigest d with
    | Ok ae => writeArtifactEntry (mkAE (ae_Size ae) (ae_Digest ae) manifestDigest imageDigest (ae_Platform ae)
                 (ae_Location ae) (ae_Type ae) (ae_MediaType ae) (ae_ArtifactType ae) (ae_CreatedAt ae)
                 (ae_SpanSize ae)) d
    | Err e => (Err e, d)
    | Panic => (Panic, d)
    end).

Section store.
Context {BS : Type} `{Store BS}.

(** The digests of entries the store does not hold; an error ends the iteration and is
    dropped. *)
Fixpoint old_artifacts (l : list (string * abucket)) (acc : list string) (s : BS) : list string * BS :=
  match l with
  | [] => (acc, s)
  | (k, b) :: l' =>
      match loadArtifact b k with
      | Ok ae =>
          match s_Exists (content_desc (ae_MediaType ae) (ae_Digest ae) 0) s with
          | (Ok true, s') => old_artifacts l' acc s'
          | (Ok false, s') => old_artifacts l' (acc ++ [k]) s'
          | (_, s') => (acc, s')
          end
      | _ => (acc, s)
      end
  end.

Definition RemoveOldArtifacts : ST (adb * BS) () := λ '(d, s),
  match d with
  | None => (Ok tt, (d, s))
  | Some m => let '(old, s') := old_artifacts (bolt_order m) [] s in
      (Ok tt, (Some (foldl (λ m k, delete k m) m old), s'))
  end.
End store.
End entries.

(** ** Numbers survive *)
Lemma digit_digit_char d : 0 ≤ d < 10 → is_digit (digit_char d) = true ∧ digit (digit_char d) = d.
Proof.
  intros Hd. unfold is_digit, digit, digit_char. rewrite N_ascii_embedding by lia. split; zcases.
Qed.
Lemma parse_format_nat fuel n acc z : 0 ≤ n < 10 ^ Z.of_nat fuel →
  parse_digits z (format_nat fuel n acc) =
    parse_digits (z * 10 ^ (Z.of_nat (String.length (format_nat fuel n acc)) - Z.of_nat (String.length acc)) + n) acc ∧
  (String.length acc ≤ String.length (format_nat fuel n acc))%nat.
Proof.
  revert n acc z. induction fuel as [|fuel IH]; intros n acc z Hn.
  - simpl in *. replace n with 0 by lia. rewrite Z.sub_diag. split; [|lia]. f_equal. lia.
  - cbn [format_nat]. pose proof (Z.mod_pos_bound n 10 ltac:(lia)).
    pose proof (Z.div_mod n 10 ltac:(lia)) as Hdm.
    destruct (digit_digit_char (n mod 10)) as [E1 E2]; [lia|].
    destruct (Z.eqb_spec (n / 10) 0) as [E|E].
    + cbn [parse_digits String.length]. rewrite E1, E2. split; [|lia]. f_equal.
      replace (Z.of_nat (S (String.length acc)) - Z.of_nat (String.length acc)) with 1 by lia. lia.
    + rewrite Nat2Z.inj_succ, Z.pow_succ_r in Hn by lia.
      pose proof (Z.div_le_lower_bound n 10 0). pose proof (Z.div_lt_upper_bound n 10 (10 ^ Z.of_nat fuel)).
      destruct (IH (n / 10) (String (digit_char (n mod 10)) acc) z) as [Ha Hb]; [lia|].
      cbn [String.length] in Hb. split; [|lia]. rewrite Ha. cbn [parse_digits]. rewrite E1, E2. f_equal.
      set (L := String.length (format_nat _ _ _)) in *. cbn [String.length].
      replace (Z.of_nat L - Z.of_nat (String.length acc)) with (Z.of_nat L - Z.of_nat (S (String.length acc)) + 1) by lia.
      rewrite Z.pow_add_r by lia. lia.
Qed.
Lemma format_nat_head fuel n acc : 0 ≤ n → ∃ d s, 0 ≤ d < 10 ∧ format_nat (S fuel) n acc = String (digit_char d) s.
Proof.
  revert n acc. induction fuel as [|fuel IH]; intros n acc Hn.
  - simpl. pose proof (Z.mod_pos_bound n 10 ltac:(lia)). destruct (n / 10 =? 0); by eauto.
  - change (format_nat (S (S fuel)) n acc) with (let acc' := String (digit_char (n mod 10)) acc in
      if n / 10 =? 0 then acc' else format_nat (S fuel) (n / 10) acc').
    cbn zeta. pose proof (Z.mod_pos_bound n 10 ltac:(lia)). destruct (n / 10 =? 0); [by eauto|].
    apply IH. apply Z.div_pos; lia.
Qed.
Lemma digit_char_sign d : 0 ≤ d < 10 → digit_char d ≠ "-"%char ∧ digit_char d ≠ "+"%char.
Proof.
  intros Hd. destruct (digit_digit_char d Hd) as [E _]. split; intros Heq; rewrite Heq in E; by vm_compute in E.
Qed.
Lemma parse_nat_format n : 0 ≤ n < 10 ^ 20 → parse_nat (format_nat 20 n "") = Some n.
Proof.
  intros Hn. unfold parse_nat. destruct (format_nat_head 19 n "") as (d & s & _ & E); [lia|].
  rewrite E. cbn [String.eqb]. rewrite <-E. destruct (parse_format_nat 20 n "" 0) as [-> _]; [lia|]. simpl. f_equal.
Qed.

(** [ParseInt] reads what [FormatInt] writes. *)
Lemma ParseInt_FormatInt i : in_int64 i → ParseInt (FormatInt i) = Ok i.
Proof.
  intros Hi. pose proof Hi as Hi'. unfold in_int64 in Hi'. unfold FormatInt, ParseInt. destruct (Z.ltb_spec i 0).
  - rewrite parse_nat_format by lia. rewrite Z.opp_involutive, bool_decide_true by done. done.
  - destruct (format_nat_head 19 i "") as (d & s & Hd & E); [lia|]. destruct (digit_char_sign d Hd).
    pose proof (parse_nat_format i ltac:(lia)) as Hp. change 20%nat with (S 19). rewrite E in *.
    assert (∀ A (x y z : A), match digit_char d with "-"%char => x | "+"%char => y | _ => z end = z) as Hm.
    { intros A x y z. destruct (digit_char d) as [[] [] [] [] [] [] [] []]; done. }
    rewrite (Hm (bool * string)%type). rewrite Hp, bool_decide_true by done. done.
Qed.

(** ** The database as a map from digests to entries *)
Section facts.
Context {Time : Type} `{GT : GoTime Time} `{HG : !GobTime (Time:=Time)}.
Implicit Types (ae : ArtifactEntry Time) (d : adb) (m : gmap string abucket).

Record entry_ok ae : Prop := {
  eo_size : in_int64 (ae_Size ae);
  eo_span : in_int64 (ae_SpanSize ae);
  eo_digest : ae_Digest ae ≠ ""%string;
  eo_time : is_Some (time_GobEncode (ae_CreatedAt ae))
}.

Definition load (k : string) (b : abucket) : option (ArtifactEntry Time) :=
  match loadArtifact b k with Ok ae => Some ae | _ => None end.
Definition entries d : gmap string (ArtifactEntry Time) := map_imap load (default ∅ d).

(** Every bucket of the database was written from an entry. *)
Definition db_ok d : Prop :=
  map_Forall (λ k b, ∃ ae, entry_ok ae ∧ ae_Digest ae = k ∧ loadArtifact b k = Ok ae) (default ∅ d).

Lemma lookup_entries d k : entries d !! k = default ∅ d !! k ≫= load k.
Proof. apply map_lookup_imap. Qed.

Lemma lookup_updates (us : list (string * bytes)) (b : abucket) k v : NoDup us.*1 → (k, v) ∈ us →
  foldl (λ x u, <[u.1 := u.2]> x) b us !! k = Some v.
Proof.
  induction us as [|[k' v'] us IH] using rev_ind; intros Hnd Hin; [by apply elem_of_nil in Hin|].
  rewrite fmap_app in Hnd. apply list.NoDup_app in Hnd as (Hnd & Hx & _).
  rewrite foldl_snoc. apply elem_of_app in Hin as [Hin|[= -> ->]%list_elem_of_singleton].
  - unfold abucket in *. rewrite lookup_insert_ne; [by apply IH|]. cbn [fst]. intros ->. apply (Hx k); [|set_solver].
    apply list_elem_of_fmap. by exists (k, v).
  - apply lookup_insert_eq.
Qed.

Lemma DecodeInt_PutVarint x : in_int64 x → DecodeInt (PutVarint x) = Ok x ∧ 0 < zlen (PutVarint x).
Proof.
  intros Hx. pose proof (integer_encodings_roundtrip x 0 [] Hx ltac:(by vm_compute)) as (_ & _ & Hd & _).
  rewrite app_nil_r in Hd. split; [done|]. pose proof (EncodeInt_ok x) as He. unfold EncodeInt in He.
  pose proof (zlen_nonneg (PutVarint x)). destruct (Z.eqb_spec (zlen (PutVarint x)) 0); [done|lia].
Qed.

(** A written bucket loads as the entry, whatever it held before. *)
Lemma load_written ae b ct : entry_ok ae → time_GobEncode (ae_CreatedAt ae) = Some ct →
  loadArtifact (foldl (λ x u, <[u.1 := u.2]> x) b
    (entry_updates ae (PutVarint (ae_Size ae)) ct (PutVarint (ae_SpanSize ae)))) (ae_Digest ae) = Ok ae.
Proof.
  intros [Hs Hp _ _] Ht. set (us := entry_updates _ _ _ _). set (b' := foldl _ _ _).
  assert (∀ k v, (k, v) ∈ us → b' !! k = Some v) as Hget.
  { intros k v. apply lookup_updates. apply (bool_decide_unpack _). by vm_compute. }
  assert (∀ k v, (k, v) ∈ us → aget b' k = v) as Hg by (intros k v Hv; unfold aget; by rewrite (Hget k v)).
  unfold loadArtifact.
  destruct (DecodeInt_PutVarint (ae_Size ae) Hs) as [E1 _], (DecodeInt_PutVarint (ae_SpanSize ae) Hp) as [E2 E3].
  unfold us, entry_updates in Hg, Hget.
  rewrite (Hg bucketKeySize (PutVarint (ae_Size ae))) by set_solver.
  rewrite (Hg bucketKeySpanSize (PutVarint (ae_SpanSize ae))) by set_solver.
  rewrite (Hget bucketKeyCreatedAt ct) by set_solver. rewrite (gob_roundtrip _ _ Ht).
  rewrite (Hg bucketKeyOriginalDigest (to_bytes (ae_OriginalDigest ae))) by set_solver.
  rewrite (Hg bucketKeyImageDigest (to_bytes (ae_ImageDigest ae))) by set_solver.
  rewrite (Hg bucketKeyPlatform (to_bytes (ae_Platform ae))) by set_solver.
  rewrite (Hg bucketKeyLocation (to_bytes (ae_Location ae))) by set_solver.
  rewrite (Hg bucketKeyType (to_bytes (ae_Type ae))) by set_solver.
  rewrite (Hg bucketKeyMediaType (to_bytes (ae_MediaType ae))) by set_solver.
  rewrite (Hg bucketKeyArtifactType (to_bytes (ae_ArtifactType ae))) by set_solver.
  rewrite !of_to_bytes. rewrite E1, E2. destruct (Z.ltb_spec 0 (zlen (PutVarint (ae_SpanSize ae)))); [|lia].
  by destruct ae.
Qed.

Lemma writeArtifactEntry_ok ae d : db_ok d → entry_ok ae →
  ∃ d', writeArtifactEntry ae d = (Ok tt, d') ∧ db_ok d' ∧ entries d' = <[ae_Digest ae := ae]> (entries d).
Proof.
  intros Hd He. pose proof He as [_ _ Hdg [ct Hct]]. unfold writeArtifactEntry, putArtifactEntry.
  destruct (String.eqb_spec (ae_Digest ae) ""); [done|]. rewrite !EncodeInt_ok. cbn [mbind outcome_bind].
  rewrite Hct. eexists. split; [done|].
  pose proof (load_written ae (default ∅ (default ∅ d !! ae_Digest ae)) ct He Hct) as Hl. split.
  - unfold db_ok. cbn [default from_option Datatypes.id]. apply map_Forall_insert_2; [by exists ae|done].
  - apply map_eq. intros k. rewrite lookup_entries. cbn [default from_option Datatypes.id].
    destruct (decide (k = ae_Digest ae)) as [->|Hne].
    + rewrite !lookup_insert_eq. cbn [mbind option_bind]. unfold load. by rewrite Hl.
    + by rewrite !lookup_insert_ne, lookup_entries.
Qed.

(** *** Iteration *)
Lemma bolt_order_perm m : bolt_order m ≡ₚ map_to_list m.
Proof. apply merge_sort_Permutation. Qed.

Definition loaded (l : list (string * abucket)) : list (ArtifactEntry Time) := omap (λ kb, load kb.1 kb.2) l.

Lemma walk_loop_all {A} (f : ArtifactEntry Time → A → A) l acc :
  Forall (λ kb, is_Some (load kb.1 kb.2)) l →
  walk_loop (λ ae a, (f ae a, false)) l acc = foldl (λ a ae, f ae a) acc (loaded l).
Proof.
  intros Hl. revert acc. induction Hl as [|[k b] l [ae Hae] _ IH]; intros acc; [done|].
  cbn [walk_loop]. unfold loaded. cbn [omap list_omap fst snd] in *. unfold load in Hae |- *.
  destruct (loadArtifact b k) as [ae'|?|]; [|done..]. by rewrite IH.
Qed.

Lemma db_ok_loads m : db_ok (Some m) → Forall (λ kb, is_Some (load kb.1 kb.2)) (bolt_order m).
Proof.
  intros Hd. rewrite bolt_order_perm. apply list.Forall_forall. intros [k b] Hin%elem_of_map_to_list.
  destruct (Hd k b Hin) as (ae & _ & _ & E). exists ae. simpl. unfold load. by rewrite E.
Qed.

Lemma elem_of_loaded m ae : db_ok (Some m) → ae ∈ loaded (bolt_order m) ↔ entries (Some m) !! ae_Digest ae = Some ae.
Proof.
  intros Hd. unfold loaded. rewrite list_elem_of_omap. setoid_rewrite bolt_order_perm.
  rewrite lookup_entries. cbn [default from_option Datatypes.id]. split.
  - intros ([k b] & Hin%elem_of_map_to_list & Hl). cbn [fst snd] in Hl.
    destruct (Hd k b Hin) as (ae' & _ & Hk & E). unfold load in Hl. rewrite E in Hl. injection Hl as ->.
    rewrite Hk, Hin. cbn [mbind option_bind]. unfold load. by rewrite E.
  - intros Hl. destruct (m !! ae_Digest ae) as [b|] eqn:E; [|done].
    exists (ae_Digest ae, b). by rewrite elem_of_map_to_list.
Qed.

(** *** Operations *)
Inductive db_op :=
| OpWrite (ae : ArtifactEntry Time)
| OpRemove (digest : string)
| OpReference (indexDigest manifestDigest imageDigest : string).

Definition run_op (o : db_op) d : adb :=
  match o with
  | OpWrite ae => (WriteArtifactEntry (Some ae) d).2
  | OpRemove k => (RemoveArtifactEntryByIndexDigest k d).2
  | OpReference i man img => (updateSociV2ArtifactReference (Time:=Time) i man img d).2
  end.

Definition with_references man img ae : ArtifactEntry Time :=
  mkAE (ae_Size ae) (ae_Digest ae) man img (ae_Platform ae) (ae_Location ae) (ae_Type ae)
    (ae_MediaType ae) (ae_ArtifactType ae) (ae_CreatedAt ae) (ae_SpanSize ae).

(** What the operations mean on a map of entries. *)
Definition spec_op (o : db_op) (e : gmap string (ArtifactEntry Time)) : gmap string (ArtifactEntry Time) :=
  match o with
  | OpWrite ae => <[ae_Digest ae := ae]> e
  | OpRemove k =>
      match e !! k with
      | Some ae => if String.eqb (ae_MediaType ae) MediaTypeImageManifest then delete k e else e
      | None => e
      end
  | OpReference i man img => alter (with_references man img) i e
  end.

Definition op_ok (o : db_op) : Prop := match o with OpWrite ae => entry_ok ae | _ => True end.

Lemma load_media_type b k ae : loadArtifact b k = Ok ae → of_bytes (aget b bucketKeyMediaType) = ae_MediaType ae.
Proof.
  unfold loadArtifact. intros E. ok_inv E. apply (inj Ok) in E. by subst ae.
Qed.

Lemma GetArtifactEntry_entries k d : db_ok d →
  match entries d !! k with
  | Some ae => GetArtifactEntry k d = Ok ae ∧ entry_ok ae ∧ ae_Digest ae = k
  | None => ∃ e, GetArtifactEntry (Time:=Time) k d = Err e ∧
      (errors_Is e ErrArtifactBucketNotFound || errors_Is e errdefs_ErrNotFound) = true
  end.
Proof.
  intros Hd. rewrite lookup_entries. unfold GetArtifactEntry. destruct d as [m|]; simpl; [|by eexists].
  unfold getArtifactEntryByDigest. destruct (m !! k) as [b|] eqn:E; simpl; [|by eexists].
  destruct (Hd k b E) as (ae & Hok & Hk & Hl). unfold load. by rewrite Hl.
Qed.

Lemma updateReference_ok i man img d : db_ok d →
  match entries d !! i with
  | Some ae => ∃ d', updateSociV2ArtifactReference (Time:=Time) i man img d = (Ok tt, d') ∧ db_ok d' ∧
      entries d' = <[i := with_references man img ae]> (entries d)
  | None => ∃ e, updateSociV2ArtifactReference (Time:=Time) i man img d = (Err e, d)
  end.
Proof.
  intros Hd. pose proof (GetArtifactEntry_entries i d Hd) as Hg. unfold updateSociV2ArtifactReference, Update.
  destruct (entries d !! i) as [ae|]; [|destruct Hg as (e & -> & _); by eexists].
  destruct Hg as (-> & Hok & Hi).
  destruct (writeArtifactEntry_ok (with_references man img ae) d Hd) as (d' & Hw & H1 & H2).
  { destruct Hok. by split. }
  unfold with_references in Hw at 1. rewrite Hw. exists d'. split_and!; [done|done|].
  rewrite H2. cbn [ae_Digest with_references]. by rewrite Hi.
Qed.

Lemma run_op_ok o d : db_ok d → op_ok o → db_ok (run_op o d) ∧ entries (run_op o d) = spec_op o (entries d).
Proof.
  intros Hd Ho. destruct o as [ae|k|i man img]; cbn [run_op spec_op WriteArtifactEntry].
  - destruct (writeArtifactEntry_ok ae d Hd Ho) as (d' & Hw & H1 & H2). unfold Update. by rewrite Hw.
  - rewrite lookup_entries. unfold RemoveArtifactEntryByIndexDigest, Update. destruct d as [m|]; [|done]. simpl.
    destruct (m !! k) as [b|] eqn:E; [|done]. destruct (Hd k b E) as (ae & Hok & Hk & Hl).
    cbn [mbind option_bind]. unfold load. rewrite Hl. unfold indexBucket. rewrite (load_media_type _ _ _ Hl).
    destruct (String.eqb (ae_MediaType ae) MediaTypeImageManifest); [|done]. split.
    + unfold db_ok. by apply map_Forall_delete.
    + apply map_eq. intros j. rewrite lookup_entries. simpl. destruct (decide (j = k)) as [->|Hne].
      * by rewrite !lookup_delete_eq.
      * by rewrite !lookup_delete_ne, lookup_entries.
  - pose proof (updateReference_ok i man img d Hd) as Hu. destruct (entries d !! i) as [ae|] eqn:E.
    + destruct Hu as (d' & -> & H1 & H2). split; [done|]. cbn [snd]. rewrite H2. apply map_eq. intros j.
      destruct (decide (j = i)) as [->|].
      * by rewrite lookup_insert_eq, lookup_alter_eq, E.
      * by rewrite lookup_insert_ne, lookup_alter_ne.
    + destruct Hu as (e & ->). split; [done|]. apply map_eq. intros j.
      destruct (decide (j = i)) as [->|]; [by rewrite lookup_alter_eq, E|by rewrite lookup_alter_ne].
Qed.

Lemma run_ops_ok os d : db_ok d → Forall op_ok os →
  db_ok (foldl (λ d o, run_op o d) d os) ∧
  entries (foldl (λ d o, run_op o d) d os) = foldl (λ e o, spec_op o e) (entries d) os.
Proof.
  intros Hd Hos. revert d Hd. induction Hos as [|o os Ho _ IH]; intros d Hd; [done|]. simpl.
  destruct (run_op_ok o d Hd Ho) as [H1 <-]. by apply IH.
Qed.

Lemma loaded_NoDup m : db_ok (Some m) → NoDup (loaded (bolt_order m)).
Proof.
  intros Hd. apply (NoDup_fmap_1 ae_Digest). apply (NoDup_fmap_omap ae_Digest).
  - rewrite bolt_order_perm. apply NoDup_fst_map_to_list.
  - intros [k b] [k' b'] e e'. rewrite !bolt_order_perm, !elem_of_map_to_list. intros Hk Hk'.
    destruct (Hd k b Hk) as (ae & _ & <- & E), (Hd k' b' Hk') as (ae' & _ & <- & E').
    cbn [fst snd]. unfold load. rewrite E, E'. by intros [= ->] [= ->].
Qed.

Lemma foldl_filter {A} (P : A → bool) l acc :
  foldl (λ a x, if P x then a ++ [x] else a) acc l = acc ++ List.filter P l.
Proof.
  revert acc. induction l as [|x l IH]; intros acc; simpl; [by rewrite app_nil_r|].
  rewrite IH. destruct (P x); [by rewrite <-app_assoc|done].
Qed.

(** C7: the artifacts database is a map from digests to entries.  After any writes, removals
    and reference updates, in any order and starting from an empty database, looking a
    digest up finds exactly the entry the same operations on a map would leave there, every
    field included, or reports that it is not found; the index entries listed for an image
    manifest are those of that map, each once. *)
Theorem artifacts_db_refines_map os k dg ae :
  Forall op_ok os →
  let d := foldl (λ d o, run_op o d) None os in
  let e := foldl (λ e o, spec_op o e) ∅ os in
  match e !! k with
  | Some ae' => GetArtifactEntry k d = Ok ae'
  | None => ∃ er, GetArtifactEntry (Time:=Time) k d = Err er ∧
      (errors_Is er ErrArtifactBucketNotFound || errors_Is er errdefs_ErrNotFound) = true
  end ∧
  NoDup (getIndexArtifactEntries (Time:=Time) dg d) ∧
  (ae ∈ getIndexArtifactEntries dg d ↔ e !! ae_Digest ae = Some ae ∧
     ae_Type ae = ArtifactEntryTypeIndex ∧ ae_OriginalDigest ae = dg).
Proof.
  intros Hos d e. destruct (run_ops_ok os None) as [Hd He]; [apply map_Forall_empty|done|].
  fold d in Hd, He. assert (entries None = ∅) as E0 by (apply map_eq; intros; by rewrite lookup_entries).
  rewrite E0 in He. fold e in He. rewrite <-He. split.
  { pose proof (GetArtifactEntry_entries k d Hd). destruct (entries d !! k); naive_solver. }
  unfold getIndexArtifactEntries, Walk. destruct d as [m|].
  - rewrite (walk_loop_all (λ ae acc, if String.eqb (ae_Type ae) ArtifactEntryTypeIndex &&
      String.eqb (ae_OriginalDigest ae) dg then acc ++ [ae] else acc)) by (by apply db_ok_loads).
    rewrite (foldl_filter (λ ae, String.eqb (ae_Type ae) ArtifactEntryTypeIndex &&
      String.eqb (ae_OriginalDigest ae) dg)). split.
    + apply NoDup_ListNoDup. cbn [app]. apply List.NoDup_filter, NoDup_ListNoDup. by apply loaded_NoDup.
    + cbn [app]. rewrite list_elem_of_In, filter_In, <-list_elem_of_In, elem_of_loaded by done.
      by rewrite andb_true_iff, !String.eqb_eq.
  - split; [constructor|]. rewrite E0, lookup_empty. split; [by intros ?%elem_of_nil|by intros [? _]].
Qed.

(** *** Removing what the store no longer holds *)
Section sync.
Context {BS : Type} `{HSt : Store BS}.

Lemma old_artifacts_spec (ex : string → bool) l acc (s : BS) :
  (∀ desc, s_Exists desc s = (Ok (ex (d_Digest desc)), s)) →
  Forall (λ kb, ∃ ae, load kb.1 kb.2 = Some ae ∧ ae_Digest ae = kb.1) l →
  old_artifacts (Time:=Time) l acc s = (acc ++ List.filter (λ k, negb (ex k)) l.*1, s).
Proof.
  intros Hex Hl. revert acc. induction Hl as [|[k b] l (ae & Hae & Hk) _ IH]; intros acc; simpl.
  { by rewrite app_nil_r. }
  cbn [fst snd] in *. unfold load in Hae. destruct (loadArtifact b k) as [ae'|?|]; [|done..].
  injection Hae as ->. rewrite Hex. cbn [d_Digest content_desc]. rewrite Hk.
  destruct (ex k); simpl; rewrite IH; [done|]. by rewrite <-app_assoc.
Qed.

Lemma lookup_delete_all m ks k : foldl (λ m k, delete k m) m ks !! k = if decide (k ∈ ks) then None else m !! k.
Proof.
  revert m. induction ks as [|k' ks IH]; intros m; [done|]. simpl. rewrite IH.
  destruct (decide (k ∈ ks)); [by rewrite decide_True by (by right)|].
  destruct (decide (k = k')) as [->|].
  - by rewrite lookup_delete_eq, decide_True by (by left).
  - rewrite lookup_delete_ne, decide_False by set_solver. done.
Qed.

(** With a store that answers, [RemoveOldArtifacts] leaves exactly the entries whose
    content the store holds. *)
Theorem RemoveOldArtifacts_exact (ex : string → bool) d (s : BS) k :
  db_ok d → (∀ desc, s_Exists desc s = (Ok (ex (d_Digest desc)), s)) →
  ∃ d', RemoveOldArtifacts (Time:=Time) (d, s) = (Ok tt, (d', s)) ∧ db_ok d' ∧
    entries d' !! k = if ex k then entries d !! k else None.
Proof.
  intros Hd Hex. destruct d as [m|]; cbn [RemoveOldArtifacts].
  2: { exists None. split_and!; [done|done|]. rewrite !lookup_entries. simpl. by destruct (ex k). }
  rewrite (old_artifacts_spec ex); [|done|].
  2: { rewrite bolt_order_perm. apply list.Forall_forall. intros [j b] Hin%elem_of_map_to_list.
       destruct (Hd j b Hin) as (ae & _ & Hj & E). exists ae. simpl. unfold load. by rewrite E. }
  eexists. split; [done|]. set (old := List.filter _ _). split.
  - intros j b. cbn [default from_option Datatypes.id]. rewrite lookup_delete_all. destruct (decide _); [done|apply Hd].
  - rewrite !lookup_entries. cbn [default from_option Datatypes.id]. rewrite lookup_delete_all.
    destruct (m !! k) as [b|] eqn:E.
    2: { destruct (decide _), (ex k); done. }
    assert (k ∈ old ↔ ex k = false) as Hold.
    { unfold old. cbn [app]. rewrite list_elem_of_In, filter_In, <-list_elem_of_In, negb_true_iff.
      split; [by intros [_ ?]|]. intros Hk. split; [|done]. rewrite bolt_order_perm.
      apply list_elem_of_fmap. exists (k, b). by rewrite elem_of_map_to_list. }
    case_decide as Hin.
    + apply Hold in Hin. by rewrite Hin.
    + destruct (ex k); [done|]. by destruct Hin; apply Hold.
Qed.

(** An error of the store ends the removal without being reported: when the store cannot be
    asked, the call succeeds and keeps every entry. *)
Theorem RemoveOldArtifacts_drops_errors d (s : BS) e :
  (∀ desc s, (s_Exists desc s).1 = Err e) →
  ∃ s', RemoveOldArtifacts (Time:=Time) (d, s) = (Ok tt, (d, s')).
Proof.
  intros He. destruct d as [m|]; cbn [RemoveOldArtifacts]; [|by eexists].
  assert (∀ l, ∃ s', old_artifacts (Time:=Time) l [] s = ([], s')) as Hl.
  { intros [|[k b] l]; simpl; [by eexists|]. destruct (loadArtifact b k) as [ae|?|]; [|by eexists..].
    specialize (He (content_desc (ae_MediaType ae) (ae_Digest ae) 0) s).
    destruct (s_Exists _ s) as [r s']. simpl in He. subst r. by eexists. }
  destruct (Hl (bolt_order m)) as [s' ->]. by exists s'.
Qed.
End sync.
End facts.
