(* ===== verification/Prefetch.v ===== *)
(** * Prefetch artifacts

    Models [soci/prefetch.go] and [normalizePrefetchSpans] of [soci/soci_index.go]: the
    spans of a layer to fetch when a container starts.  The JSON text is a parameter. *)
From Stdlib Require Import ZArith Lia.
From stdpp Require Import base list gmap strings numbers sorting.
From S2P Require Import Prelude GoLib ZtocBuilder Oci.
#[local] Open Scope Z_scope.

Definition PrefetchArtifactMediaType : string := "application/vnd.amazon.soci.prefetch.v1+json".
Definition PrefetchArtifactVersion : string := "1.0".
Definition ErrEmptyPrefetchArtifact : error := Sentinel "prefetch artifact is empty".

(** Span ids are int32. *)
Record PrefetchSpan := mkPS { StartSpan : Z; EndSpan : Z; Priority : Z }.
#[global] Instance PrefetchSpan_eq_dec : EqDecision PrefetchSpan.
Proof. solve_decision. Defined.

Record PrefetchArtifact := mkPA { pa_Version : string; PrefetchSpans : list PrefetchSpan }.

Definition NewPrefetchArtifact : PrefetchArtifact := mkPA PrefetchArtifactVersion [].
Definition AddPrefetchSpan (s : PrefetchSpan) (p : PrefetchArtifact) : PrefetchArtifact :=
  mkPA (pa_Version p) (PrefetchSpans p ++ [s]).
Definition IsEmpty (p : PrefetchArtifact) : bool := zlen (PrefetchSpans p) =? 0.

Class PrefetchJSON := {
  prefetch_Marshal : PrefetchArtifact → outcome bytes;
  prefetch_Unmarshal : bytes → outcome PrefetchArtifact
}.
Class PrefetchJSONLaws `{PrefetchJSON} : Prop := {
  prefetch_json p : ∃ b, prefetch_Marshal p = Ok b ∧ prefetch_Unmarshal b = Ok p
}.

Section artifact.
Context `{PrefetchJSON} `{Digester}.

Definition MarshalPrefetchArtifact (artifact : option PrefetchArtifact) : outcome (bytes * Descriptor) :=
  match artifact with
  | None => Err ErrEmptyPrefetchArtifact
  | Some a =>
      if IsEmpty a then Err ErrEmptyPrefetchArtifact
      else
        jsonData ← map_err (Wrap "failed to marshal prefetch artifact") (prefetch_Marshal a);
        Ok (jsonData, content_desc PrefetchArtifactMediaType (digest_FromBytes jsonData) (zlen jsonData))
  end.

(** [data] is what reading the reader to its end yields. *)
Definition UnmarshalPrefetchArtifact (data : outcome bytes) : outcome PrefetchArtifact :=
  data ← map_err (Wrap "failed to read prefetch artifact") data;
  artifact ← map_err (Wrap "failed to unmarshal prefetch artifact") (prefetch_Unmarshal data);
  if negb (String.eqb (pa_Version artifact) PrefetchArtifactVersion)
  then Err (ErrorString "unsupported prefetch artifact version")
  else if IsEmpty artifact then Err ErrEmptyPrefetchArtifact
  else Ok artifact.
End artifact.

(** ** Normalisation *)
Definition span_less (a b : PrefetchSpan) : bool :=
  if StartSpan a =? StartSpan b then EndSpan a <? EndSpan b else StartSpan a <? StartSpan b.

Fixpoint merge_spans (current : PrefetchSpan) (spans merged : list PrefetchSpan) : list PrefetchSpan :=
  match spans with
  | [] => merged ++ [current]
  | s :: spans' =>
      if StartSpan s <=? int32 (EndSpan current + 1) then
        merge_spans (if EndSpan current <? EndSpan s
                     then mkPS (StartSpan current) (EndSpan s) (Priority current) else current) spans' merged
      else merge_spans s spans' (merged ++ [current])
  end.

Definition normalizePrefetchSpans `{GoSort} (spans : list PrefetchSpan) : list PrefetchSpan :=
  match sort_Slice span_less spans with
  | [] => []
  | current :: rest => merge_spans current rest []
  end.

(** ** Facts *)
#[global] Instance span_less_weak : StrictWeak span_less.
Proof. unfold span_less. split; intros *; zcases. Qed.

Definition span_ok (s : PrefetchSpan) : Prop := 0 ≤ StartSpan s ≤ EndSpan s ∧ EndSpan s < 2 ^ 31 - 1.
Definition holds (s : PrefetchSpan) (i : Z) : Prop := StartSpan s ≤ i ≤ EndSpan s.
Definition covered (l : list PrefetchSpan) (i : Z) : Prop := ∃ s, s ∈ l ∧ holds s i.
(** A gap of at least one span between a span and the next. *)
Definition apart (a b : PrefetchSpan) : Prop := EndSpan a + 1 < StartSpan b.

Lemma covered_app l k i : covered (l ++ k) i ↔ covered l i ∨ covered k i.
Proof. unfold covered. setoid_rewrite elem_of_app. naive_solver. Qed.
Lemma covered_cons s l i : covered (s :: l) i ↔ holds s i ∨ covered l i.
Proof. unfold covered. setoid_rewrite elem_of_cons. naive_solver. Qed.
Lemma covered_nil i : covered [] i ↔ False.
Proof. unfold covered. setoid_rewrite elem_of_nil. naive_solver. Qed.

Lemma merge_spans_spec spans cur merged :
  span_ok cur → Forall span_ok spans → Forall span_ok merged →
  Forall (λ s, StartSpan cur ≤ StartSpan s) spans → StronglySorted (λ a b, StartSpan a ≤ StartSpan b) spans →
  StronglySorted apart (merged ++ [cur]) →
  let r := merge_spans cur spans merged in
  StronglySorted apart r ∧ Forall span_ok r ∧ ∀ i, covered r i ↔ covered (merged ++ cur :: spans) i.
Proof.
  revert cur merged. induction spans as [|s spans IH]; intros cur merged Hc Hs Hm Hle Hsort Hap; simpl.
  { split_and!; [done| |done]. apply list.Forall_app. split; [done|]. by apply list.Forall_singleton. }
  apply list.Forall_cons in Hs as [Hs1 Hs]. apply list.Forall_cons in Hle as [Hle1 Hle].
  inversion Hsort as [|? ? Hsort' Hss]; subst. pose proof Hap as [Hap1 Hap2]%StronglySorted_snoc.
  pose proof Hc as Hc'. pose proof Hs1 as Hs1'.
  unfold span_ok in Hc', Hs1'. rewrite int32_id by (unfold in_int32; lia).
  destruct (Z.leb_spec (StartSpan s) (EndSpan cur + 1)) as [Hj|Hj].
  - set (cur' := if EndSpan cur <? EndSpan s then _ else cur).
    assert (StartSpan cur' = StartSpan cur ∧ EndSpan cur' = Z.max (EndSpan cur) (EndSpan s)) as [E1 E2].
    { unfold cur'. destruct (Z.ltb_spec (EndSpan cur) (EndSpan s)); simpl; lia. }
    destruct (IH cur' merged) as (H1 & H2 & H3); [unfold span_ok; lia|done|done| |done| |].
    { eapply list.Forall_impl; [exact Hle|]. simpl. intros. lia. }
    { apply StronglySorted_snoc. split; [done|]. eapply list.Forall_impl; [exact Hap2|].
      unfold apart. intros. lia. }
    split_and!; [done|done|]. intros i. rewrite H3, !covered_app, !covered_cons. unfold holds. rewrite E1, E2.
    assert (StartSpan cur ≤ i ≤ EndSpan cur `max` EndSpan s ↔
      StartSpan cur ≤ i ≤ EndSpan cur ∨ StartSpan s ≤ i ≤ EndSpan s) as -> by lia. tauto.
  - destruct (IH s (merged ++ [cur])) as (H1 & H2 & H3); [done|done| |done|done| |].
    { apply list.Forall_app. split; [done|]. by apply list.Forall_singleton. }
    { apply StronglySorted_snoc. split; [done|]. apply list.Forall_app. split; [|by apply list.Forall_singleton].
      eapply list.Forall_impl; [exact Hap2|]. unfold apart. intros. lia. }
    split_and!; [done|done|]. intros i. by rewrite H3, <-app_assoc.
Qed.

(** Normalising prefetch spans loses and adds nothing.  The spans of the result cover
    exactly the span ids the input covers, are in order, and have a gap between any two of
    them, so no span id is fetched twice and no two spans could have been one. *)
Theorem normalizePrefetchSpans_spec `{GoSortLaws} spans : Forall span_ok spans →
  let r := normalizePrefetchSpans spans in
  StronglySorted apart r ∧ Forall span_ok r ∧ ∀ i, covered r i ↔ covered spans i.
Proof.
  intros Hok r. unfold r, normalizePrefetchSpans.
  pose proof (sort_Slice_perm span_less spans) as Hp. pose proof (sort_Slice_ordered span_less spans _) as Hs.
  destruct (sort_Slice span_less spans) as [|cur rest].
  { apply Permutation_nil_l in Hp. subst. split_and!; [constructor|done|done]. }
  assert (∀ i, covered spans i ↔ covered (cur :: rest) i) as Hcov.
  { intros i. unfold covered. by setoid_rewrite Hp. }
  rewrite <-Hp in Hok. apply list.Forall_cons in Hok as [Hc Hr].
  inversion Hs as [|? ? Hs' Hle]; subst.
  assert (∀ a b, span_less b a = false → StartSpan a ≤ StartSpan b) as Hless by (unfold span_less; intros *; zcases).
  destruct (merge_spans_spec rest cur []) as (H1 & H2 & H3); [done|done|constructor| | |by repeat constructor|].
  - eapply list.Forall_impl; [exact Hle|]. apply Hless.
  - clear - Hs' Hless. induction Hs' as [|x l _ IH Hx]; constructor; [done|].
    eapply list.Forall_impl; [exact Hx|]. apply Hless.
  - split_and!; [done|done|]. intros i. by rewrite H3, Hcov.
Qed.

(** Marshalled prefetch artifacts are read back. *)
Theorem prefetch_roundtrip `{PrefetchJSONLaws} `{Digester} spans : spans ≠ [] →
  ∃ b desc, MarshalPrefetchArtifact (Some (mkPA PrefetchArtifactVersion spans)) = Ok (b, desc) ∧
    UnmarshalPrefetchArtifact (Ok b) = Ok (mkPA PrefetchArtifactVersion spans) ∧
    d_Digest desc = digest_FromBytes b ∧ d_Size desc = zlen b.
Proof.
  intros Hne. destruct (prefetch_json (mkPA PrefetchArtifactVersion spans)) as (b & Hm & Hu).
  assert (IsEmpty (mkPA PrefetchArtifactVersion spans) = false) as He.
  { unfold IsEmpty. simpl. destruct (Z.eqb_spec (zlen spans) 0) as [Hz|]; [by apply zlen_zero in Hz|done]. }
  exists b. unfold MarshalPrefetchArtifact. rewrite He, Hm. simpl. eexists. split; [done|].
  unfold UnmarshalPrefetchArtifact. simpl. rewrite Hu. simpl. by rewrite He.
Qed.
