(* ===== verification/SociIndex.v ===== *)
(** * SOCI indexes

    Models [soci/soci_index.go]: the index document and its JSON form, the builder that
    makes a ztoc for each layer of an image, stores it, records it in the artifacts
    database and writes the index.  The goroutines that build the layers are run one after
    the other in an arbitrary order.  The blob store, containerd's content store and the
    clock are parameters. *)
From Stdlib Require Import ZArith Lia.
From stdpp Require Import base list gmap strings numbers.
From S2P Require Import Prelude GoLib Compression GzipZinfo Ztoc ZtocBuilder ZtocMarshal Encoders MetadataDB.
From S2P Require Import MetadataTree ForeignErrors Oci ArtifactsDb Prefetch.
#[local] Open Scope Z_scope.

Definition SociIndexArtifactTypeV1 : string := "application/vnd.amazon.soci.index.v1+json".
Definition SociIndexArtifactTypeV2 : string := "application/vnd.amazon.soci.index.v2+json".
Definition SociIndexArtifactType : string := SociIndexArtifactTypeV1.
Definition SociLayerMediaType : string := "application/octet-stream".
Definition SociPrefetchMediaType : string := "application/vnd.amazon.soci.prefetch.v1+json".
Definition IndexAnnotationImageLayerMediaType : string := "com.amazon.soci.image-layer-mediaType".
Definition IndexAnnotationImageLayerDigest : string := "com.amazon.soci.image-layer-digest".
Definition IndexAnnotationSociSpanSize : string := "com.amazon.soci.span-size".
Definition IndexAnnotationBuildToolIdentifier : string := "com.amazon.soci.build-tool-identifier".
Definition IndexAnnotationDisableXAttrs : string := "com.amazon.soci.disable-xattrs".
Definition IndexAnnotationImageManifestDigest : string := "com.amazon.soci.image-manifest-digest".
Definition ImageAnnotationSociIndexDigest : string := "com.amazon.soci.index-digest".

Definition defaultSpanSize : Z := Z.shiftl 1 22.
Definition defaultMinLayerSize : Z := Z.shiftl 10 20.
Definition defaultBuildToolIdentifier : string := "AWS SOCI CLI v0.2".
Definition emptyJSONObjectDigest : string :=
  "sha256:44136fa355b3678a1146ad16f7e8649e94fb4fc21fe77e8310c060f61caaff8a".
Definition whiteoutOpaqueDir : string := ".wh..wh..opq".
Definition disableXAttrsTrue : string := "true".

Definition errNotLayerType : error := Sentinel "not a layer mediaType".
Definition errUnsupportedLayerFormat : error := Sentinel "unsupported layer format".
Definition ErrEmptyIndex : error := Sentinel "no ztocs created, all layers either skipped or produced errors".

Definition defaultConfigContent : bytes := to_bytes "{}".
Definition defaultConfigDescriptorV1 : Descriptor := content_desc SociIndexArtifactTypeV1 emptyJSONObjectDigest 2.
Definition defaultConfigDescriptorV2 : Descriptor := content_desc SociIndexArtifactTypeV2 emptyJSONObjectDigest 2.
Definition defaultConfigDescriptor : Descriptor := defaultConfigDescriptorV1.

Record IndexVersion := mkIV { iv_version : string; iv_artifactType : string; iv_configDescriptor : Descriptor }.
Definition V1 : IndexVersion := mkIV "v1" SociIndexArtifactTypeV1 defaultConfigDescriptorV1.
Definition V2 : IndexVersion := mkIV "v2" SociIndexArtifactTypeV2 defaultConfigDescriptorV2.

(** ** The index document *)
Record Index := mkIndex {
  i_MediaType : string;
  i_ArtifactType : string;
  i_Blobs : list Descriptor;
  i_Subject : option Descriptor;
  i_Annotations : gmap string string;
  i_Config : Descriptor
}.

Definition NewIndex (version : IndexVersion) (blobs : list Descriptor) (subject : option Descriptor)
    (annotations : gmap string string) : Index :=
  mkIndex MediaTypeImageManifest (iv_artifactType version) blobs subject annotations (iv_configDescriptor version).

Definition fromManifest (manifest : Manifest) : outcome Index :=
  let mt := d_MediaType (m_Config manifest) in
  artifactType ← (if String.eqb mt (iv_artifactType V1) then Ok (iv_artifactType V1)
                  else if String.eqb mt (iv_artifactType V2) then Ok (iv_artifactType V2)
                  else Err (ErrorString "unknown index version"));
  Ok (mkIndex (m_MediaType manifest) artifactType (m_Layers manifest) (m_Subject manifest)
        (m_Annotations manifest) (m_Config manifest)).

Section json.
Context `{DocJSON}.

Definition UnmarshalIndex (b : bytes) : outcome Index :=
  _ ← decodes_as_index b;
  manifest ← manifest_Unmarshal b;
  fromManifest manifest.

(** [r] is what reading the reader to its end yields. *)
Definition DecodeIndex (r : outcome bytes) : outcome Index := b ← r; UnmarshalIndex b.

Definition MarshalIndex (i : Index) : outcome bytes :=
  manifest_Marshal (mkManifest 2 MediaTypeImageManifest (i_Config i) (i_Blobs i) (i_Subject i) (i_Annotations i)).
End json.

(** ** Configuration *)
Definition XAttrOptimization : string := "xattr".
Definition Optimizations : list string := [XAttrOptimization].
Definition ParseOptimization (s : string) : outcome string :=
  if existsb (String.eqb s) Optimizations then Ok s
  else Err (ErrorString "optimization is not a valid optimization").

(** [hasDb]: whether an artifacts database was given. *)
Record builderConfig := mkBC {
  spanSize : Z;
  minLayerSize : Z;
  bc_buildToolIdentifier : string;
  hasDb : bool;
  optimizations : list string;
  forceRecreateZtocs : bool;
  prefetchPaths : list string
}.

Definition hasOptimization (b : builderConfig) (o : string) : bool := existsb (String.eqb o) (optimizations b).

Definition BuilderOption : Type := builderConfig → outcome builderConfig.
Definition WithForceRecreateZtocs (v : bool) : BuilderOption := λ c,
  Ok (mkBC (spanSize c) (minLayerSize c) (bc_buildToolIdentifier c) (hasDb c) (optimizations c) v (prefetchPaths c)).
Definition WithSpanSize (v : Z) : BuilderOption := λ c,
  if v <? 0 then Err (ErrorString "span size must be >= 0")
  else Ok (mkBC v (minLayerSize c) (bc_buildToolIdentifier c) (hasDb c) (optimizations c) (forceRecreateZtocs c) (prefetchPaths c)).
Definition WithMinLayerSize (v : Z) : BuilderOption := λ c,
  if v <? 0 then Err (ErrorString "min layer size must be >= 0")
  else Ok (mkBC (spanSize c) v (bc_buildToolIdentifier c) (hasDb c) (optimizations c) (forceRecreateZtocs c) (prefetchPaths c)).
Definition WithOptimizations (v : list string) : BuilderOption := λ c,
  Ok (mkBC (spanSize c) (minLayerSize c) (bc_buildToolIdentifier c) (hasDb c) v (forceRecreateZtocs c) (prefetchPaths c)).
Definition WithBuildToolIdentifier (v : string) : BuilderOption := λ c,
  Ok (mkBC (spanSize c) (minLayerSize c) v (hasDb c) (optimizations c) (forceRecreateZtocs c) (prefetchPaths c)).
Definition WithArtifactsDb : BuilderOption := λ c,
  Ok (mkBC (spanSize c) (minLayerSize c) (bc_buildToolIdentifier c) true (optimizations c) (forceRecreateZtocs c) (prefetchPaths c)).
Definition WithPrefetchPaths (v : list string) : BuilderOption := λ c,
  Ok (mkBC (spanSize c) (minLayerSize c) (bc_buildToolIdentifier c) (hasDb c) (optimizations c) (forceRecreateZtocs c) v).

Definition defaultBuilderConfig : builderConfig :=
  mkBC defaultSpanSize defaultMinLayerSize defaultBuildToolIdentifier false [] false [].

Fixpoint apply_builder_options (c : builderConfig) (opts : list BuilderOption) : outcome builderConfig :=
  match opts with
  | [] => Ok c
  | o :: opts' => c' ← o c; apply_builder_options c' opts'
  end.

Record IndexBuilder (Time : Type) := mkIB { config : builderConfig; ztocBuilder : Builder Time }.
Arguments mkIB {Time}.
Arguments config {Time}.
Arguments ztocBuilder {Time}.

(** [gz] and [tar] read archives; [newDB] is what opening the default database yields. *)
Definition NewIndexBuilder {Time} (gz tar : TarProvider Time) (newDB : outcome ()) (opts : list BuilderOption)
    : outcome (IndexBuilder Time) :=
  cfg ← apply_builder_options defaultBuilderConfig opts;
  _ ← (if hasDb cfg then Ok () else newDB);
  Ok (mkIB cfg (NewBuilder gz tar (bc_buildToolIdentifier cfg))).

Record buildConfig := mkBuildConfig { bc_platform : Platform; gcRoot : bool; indexVersion : IndexVersion }.
Definition BuildOption : Type := buildConfig → buildConfig.
Definition WithPlatform (p : Platform) : BuildOption := λ c, mkBuildConfig p (gcRoot c) (indexVersion c).
Definition WithNoGarbageCollectionLabel : BuildOption := λ c, mkBuildConfig (bc_platform c) false (indexVersion c).
Definition withIndexVersion (v : IndexVersion) : BuildOption := λ c, mkBuildConfig (bc_platform c) (gcRoot c) v.

Record IndexWithMetadata (Time : Type) := mkIM {
  im_Index : Index;
  im_Desc : Descriptor;
  im_Platform : option Platform;
  im_ImageDesc : Descriptor;
  im_ManifestDesc : Descriptor;
  im_CreatedAt : Time
}.
Arguments mkIM {Time}.
Arguments im_Index {Time}.
Arguments im_Desc {Time}.
Arguments im_Platform {Time}.
Arguments im_ImageDesc {Time}.
Arguments im_ManifestDesc {Time}.
Arguments im_CreatedAt {Time}.

Definition with_Desc {Time} (d : Descriptor) (i : IndexWithMetadata Time) : IndexWithMetadata Time :=
  mkIM (im_Index i) d (im_Platform i) (im_ImageDesc i) (im_ManifestDesc i) (im_CreatedAt i).

Definition skipBuildingZtoc (desc : Descriptor) (cfg : builderConfig) : bool := d_Size desc <? minLayerSize cfg.

(** ** Extended attributes *)
Definition HasSuffix (s suf : string) : bool :=
  let n := String.length s in let k := String.length suf in
  (k <=? n)%nat && String.eqb (str_drop (n - k) s) suf.

Lemma HasSuffix_app s suf : HasSuffix (s +:+ suf) suf = true.
Proof.
  unfold HasSuffix. rewrite string_length_app. rewrite (proj2 (Nat.leb_le _ _)) by lia.
  replace (String.length s + String.length suf - String.length suf)%nat with (String.length s) by lia.
  rewrite str_drop_app. apply String.eqb_refl.
Qed.

Section builder.
Context {Time BS CS : Type}.
Context `{HT : GoTime Time} `{HD : Digester} `{HG : GzipC} `{HTF : TarZinfoFlatbuf} `{HF : FlatbufZtoc} `{HS : GoSort}.
Context `{HSt : Store BS} `{HCS : ContentStore CS} `{HMT : MediaTypes} `{HPl : Platforms} `{HJ : DocJSON} `{HPJ : PrefetchJSON}.
(** The content store of the daemon, the time, and the name [os.CreateTemp] yields. *)
Context (cs : CS) (now : Time) (now_rfc3339 : string) (tmp : outcome string).
Implicit Types (b : IndexBuilder Time) (toc : Ztoc Time).
Local Open Scope go_scope.

Definition shouldDisableXattrs toc : bool :=
  negb (existsb (λ md, (0 <? Z.of_nat (base.size (FileMetadata_Xattrs md))) || HasSuffix (Name md) whiteoutOpaqueDir) (TOC toc)).

Definition set_annotations (a : gmap string string) (mt : string) (d : Descriptor) : Descriptor :=
  mkDesc mt (d_Digest d) (d_Size d) a (d_Platform d) (d_ArtifactType d).

Definition maybeAddDisableXattrAnnotation b (ztocDesc : Descriptor) toc : Descriptor :=
  if hasOptimization (config b) XAttrOptimization && shouldDisableXattrs toc
  then set_annotations (<[IndexAnnotationDisableXAttrs := disableXAttrsTrue]> (d_Annotations ztocDesc)) (d_MediaType ztocDesc) ztocDesc
  else ztocDesc.

Definition addSociLayerAnnotations b (layerDesc ztocDesc : Descriptor) toc : Descriptor :=
  maybeAddDisableXattrAnnotation b
    (set_annotations {[ IndexAnnotationImageLayerMediaType := d_MediaType layerDesc;
                        IndexAnnotationImageLayerDigest := d_Digest layerDesc;
                        IndexAnnotationSociSpanSize := FormatInt (spanSize (config b)) ]}
       SociLayerMediaType ztocDesc) toc.

(** ** State: the blob store and the artifacts database *)
Definition st : Type := BS * adb.
Definition on_store {A} (m : ST BS A) : ST st A := λ s, let '(r, s1) := m s.1 in (r, (s1, s.2)).
Definition on_db {A} (m : ST adb A) : ST st A := λ s, let '(r, s2) := m s.2 in (r, (s.1, s2)).

(** [err != nil && !store.IsErrAlreadyExists(err)] *)
Definition unless_exists (m : ST st ()) : ST st () := λ s,
  match m s with
  | (Err e, s') => if IsErrAlreadyExists e then (Ok tt, s') else (Err e, s')
  | r => r
  end.

Definition getExistingZtocForLayer b (layerDesc : Descriptor) (d : adb) : option Descriptor :=
  if forceRecreateZtocs (config b) then None
  else Walk (Time:=Time) (λ ae found,
         if String.eqb (ae_Type ae) ArtifactEntryTypeLayer && String.eqb (ae_OriginalDigest ae) (d_Digest layerDesc)
            && (ae_SpanSize ae =? spanSize (config b))
         then (Some (content_desc "" (ae_Digest ae) (ae_Size ae)), true) else (found, false)) None d.

Definition layer_compression (desc : Descriptor) : outcome string :=
  algo ← map_err (Wrap "could not determine layer compression") (DiffCompression (d_MediaType desc));
  Ok (if String.eqb algo "" && String.eqb (d_MediaType desc) MediaTypeImageLayer then Uncompressed else algo).

(** The layer's content as a file of exactly [desc.Size] bytes. *)
Definition copy_layer (desc : Descriptor) : outcome (string * files) :=
  content ← cs_ReadAll cs desc;
  name ← tmp;
  let data := sub 0 (d_Size desc) content in
  if negb (zlen data =? d_Size desc)
  then Err (ErrorString "the size of the temp file doesn't match that of the layer")
  else Ok (name, {[ name := data ]}).

Definition layer_entry b (desc : Descriptor) (ztocDigest : string) (ztocSize : Z) : ArtifactEntry Time :=
  mkAE ztocSize ztocDigest (d_Digest desc) "" "" (d_Digest desc) ArtifactEntryTypeLayer SociLayerMediaType "" now
    (spanSize (config b)).

(** Build, store and record a new ztoc. *)
Definition build_new_layer b (desc : Descriptor) (algo : string) : ST st (option (Descriptor * Ztoc Time)) :=
  file <~ st_lift (copy_layer desc);;
  let '(name, fs) := file in
  toc <~ st_lift (BuildZtoc (ztocBuilder b) fs name (spanSize (config b)) [WithCompression algo]);;
  marshalled <~ st_lift (Marshal toc);;
  let '(content, (dg, sz)) := marshalled in
  let ztocDesc := content_desc "" dg sz in
  st_map_err (Wrap "cannot push ztoc to local store") (unless_exists (on_store (s_Push ztocDesc content)));;;
  on_db (WriteArtifactEntry (Some (layer_entry b desc dg sz)));;;
  st_ret (Some (addSociLayerAnnotations b desc ztocDesc toc, toc)).

Definition buildSociLayer b (desc : Descriptor) : ST st (option (Descriptor * Ztoc Time)) :=
  if String.eqb (d_MediaType desc) SociPrefetchMediaType then st_ret None
  else if negb (IsLayerType (d_MediaType desc)) then st_err errNotLayerType
  else if skipBuildingZtoc desc (config b) then st_ret None
  else
    algo <~ st_lift (layer_compression desc);;
    if negb (CheckCompressionAlgorithm (ztocBuilder b) algo) then st_err errUnsupportedLayerFormat
    else
      s <~ st_get;;
      match getExistingZtocForLayer b desc s.2 with
      | None => build_new_layer b desc algo
      | Some existingZtoc => λ s,
          match on_store (s_Fetch existingZtoc) s with
          | (Ok content, s') =>
              match Unmarshal (Ok content) with
              | Ok toc => (Ok (Some (addSociLayerAnnotations b desc existingZtoc toc, toc)), s')
              | Err e => (Err (Wrap "cannot unmarshal existing ztoc" e), s')
              | Panic => (Panic, s')
              end
          | (Err e, s') =>
              if errors_Is e errdefs_ErrNotFound then build_new_layer b desc algo s'
              else (Err (Wrap "failed to fetch existing ztoc" e), s')
          | (Panic, s') => (Panic, s')
          end
      end.

(** ** All layers, in the order [order] in which the goroutines run *)
Record layer_results := mkLR {
  sociLayersDesc : list (option Descriptor);
  builtZtocs : list (Ztoc Time * string);
  errs : list error
}.

Definition record_layer b (i : nat) (l : Descriptor) (r : outcome (option (Descriptor * Ztoc Time)))
    (acc : layer_results) : option layer_results :=
  match r with
  | Ok (Some (desc, toc)) =>
      Some (mkLR (<[i := Some desc]> (sociLayersDesc acc))
        (if 0 <? zlen (prefetchPaths (config b)) then builtZtocs acc ++ [(toc, d_Digest l)] else builtZtocs acc)
        (errs acc))
  | Ok None => Some acc
  | Err e =>
      if errors_Is e errUnsupportedLayerFormat then Some acc
      else Some (mkLR (sociLayersDesc acc) (builtZtocs acc) (errs acc ++ [e]))
  | Panic => None
  end.

Fixpoint build_layers b (layers : list Descriptor) (order : list nat) (acc : layer_results) : ST st layer_results := λ s,
  match order with
  | [] => (Ok acc, s)
  | i :: order' =>
      match layers !! i with
      | None => build_layers b layers order' acc s
      | Some l =>
          let '(r, s') := buildSociLayer b l s in
          match record_layer b i l r acc with
          | Some acc' => build_layers b layers order' acc' s'
          | None => (Panic, s')
          end
      end
  end.

(** ** Prefetch artifacts *)
Definition file_spans toc (fm : FileMetadata Time) : outcome (option PrefetchSpan) :=
  match Ztoc_Zinfo toc with
  | Panic => Panic
  | Err _ => Ok None   (* logged; the search for this path ends *)
  | Ok gz =>
      let fileOffset := UncompressedOffset fm in
      startSpan ← UncompressedOffsetToSpanID gz fileOffset;
      endSpan ← UncompressedOffsetToSpanID gz (int64 (fileOffset + UncompressedSize fm));
      Ok (Some (mkPS startSpan (if endSpan <? startSpan then startSpan else endSpan) 0))
  end.

(** The loop over the layers, last first, for a cleaned path: the layer and the spans. *)
Fixpoint find_prefetch (ztocs : gmap string (Ztoc Time)) (rev_layers : list Descriptor) (path : string)
    : outcome (option (string * PrefetchSpan)) :=
  match rev_layers with
  | [] => Ok None
  | layer :: rest =>
      match ztocs !! d_Digest layer with
      | None => find_prefetch ztocs rest path
      | Some toc =>
          match find_entry (TOC toc) path with
          | None => find_prefetch ztocs rest path
          | Some fm => sp ← file_spans toc fm; Ok (option_map (λ p, (d_Digest layer, p)) sp)
          end
      end
  end.

Fixpoint prefetch_spans (ztocs : gmap string (Ztoc Time)) (layers : list Descriptor) (paths : list string)
    (m : gmap string (list PrefetchSpan)) : outcome (gmap string (list PrefetchSpan)) :=
  match paths with
  | [] => Ok m
  | p :: paths' =>
      found ← find_prefetch ztocs (reverse layers) (cleanEntryPath p);
      prefetch_spans ztocs layers paths'
        (match found with
         | Some (dg, sp) => <[dg := default [] (m !! dg) ++ [sp]]> m
         | None => m   (* logged *)
         end)
  end.

Definition storePrefetchLayer (layerDigest : string) (spans : list PrefetchSpan) : ST st (option Descriptor) :=
  let artifact := foldl (λ a sp, AddPrefetchSpan sp a) NewPrefetchArtifact (normalizePrefetchSpans spans) in
  if IsEmpty artifact then st_ret None
  else
    marshalled <~ st_lift (map_err (Wrap "failed to marshal prefetch artifact") (MarshalPrefetchArtifact (Some artifact)));;
    let '(content, desc) := marshalled in
    let desc := set_annotations (<[IndexAnnotationImageLayerDigest := layerDigest]> (d_Annotations desc)) (d_MediaType desc) desc in
    st_map_err (Wrap "cannot push prefetch artifact to local store") (unless_exists (on_store (s_Push desc content)));;;
    on_db (WriteArtifactEntry (Some (mkAE (d_Size desc) (d_Digest desc) layerDigest "" "" "" ArtifactEntryTypePrefetch
                                       SociPrefetchMediaType "" now 0)));;;
    st_ret (Some desc).

Fixpoint store_prefetch (m : gmap string (list PrefetchSpan)) (layers : list Descriptor) (acc : list Descriptor)
    : ST st (list Descriptor) :=
  match layers with
  | [] => st_ret acc
  | layer :: rest =>
      let spans := default [] (m !! d_Digest layer) in
      if zlen spans =? 0 then store_prefetch m rest acc
      else
        d <~ st_map_err (Wrap "failed to store prefetch artifact") (storePrefetchLayer (d_Digest layer) spans);;
        store_prefetch m rest (match d with Some d => acc ++ [d] | None => acc end)
  end.

Definition buildPrefetchLayer b (built : list (Ztoc Time * string)) (layers : list Descriptor) : ST st (list Descriptor) :=
  if zlen (prefetchPaths (config b)) =? 0 then st_ret []
  else
    let ztocs := foldl (λ m zwl, <[zwl.2 := zwl.1]> m) ∅ built in
    m <~ st_lift (prefetch_spans ztocs layers (prefetchPaths (config b)) ∅);;
    store_prefetch m layers [].

(** ** Building an index *)
Fixpoint match_platform (platform : Platform) (manifests : list Descriptor) : outcome (option Descriptor) :=
  match manifests with
  | [] => Err errdefs_ErrNotFound
  | m :: ms =>
      match d_Platform m with
      | None => Err (ErrorString "manifest should have proper platform")
      | Some p => if platforms_OnlyStrict platform p then Ok (Some m) else match_platform platform ms
      end
  end.

Definition GetImageManifestDescriptor (target : Descriptor) (platform : Platform) : outcome (option Descriptor) :=
  if IsIndexType (d_MediaType target) then
    manifests ← images_Children cs target; match_platform platform manifests
  else if IsManifestType (d_MediaType target) then
    match d_Platform target with
    | Some p => if platforms_OnlyStrict platform p then Ok (Some target) else Err errdefs_ErrNotFound
    | None => Ok (Some target)
    end
  else Ok None.

Definition join_errors (es : list error) : error :=
  foldl (λ w e, Join w e) (ErrorString "errors encountered while building soci layers") es.

(** [order] is a permutation of the indices of the layers. *)
Definition build (order : nat → list nat) b (target : Descriptor) (buildCfg : buildConfig)
    : ST st (IndexWithMetadata Time) :=
  imgManifestDesc <~ st_lift (map_err (λ e, if errors_Is e errdefs_ErrNotFound then Wrap "image manifest" e else e)
                       (GetImageManifestDescriptor target (bc_platform buildCfg)));;
  manifest <~ st_lift (images_Manifest cs target (Some (bc_platform buildCfg)));;
  let layers := m_Layers manifest in
  res <~ build_layers b layers (order (length layers)) (mkLR (replicate (length layers) None) [] []);;
  if 0 <? zlen (errs res) then st_err (join_errors (errs res))
  else
    prefetchDescs <~ (if (0 <? zlen (prefetchPaths (config b))) && (0 <? zlen (builtZtocs res))
                      then st_map_err (Wrap "failed to build prefetch layers") (buildPrefetchLayer b (builtZtocs res) layers)
                      else st_ret []);;
    let ztocsDesc := omap id (sociLayersDesc res) ++ prefetchDescs in
    if zlen ztocsDesc =? 0 then st_err ErrEmptyIndex
    else
      imgManifest <~ st_lift (must imgManifestDesc);;
      let refers := if String.eqb (iv_version (indexVersion buildCfg)) (iv_version V2) then None
                    else Some (content_desc (d_MediaType imgManifest) (d_Digest imgManifest) (d_Size imgManifest)) in
      st_ret (mkIM (NewIndex (indexVersion buildCfg) ztocsDesc refers
                      {[IndexAnnotationBuildToolIdentifier := bc_buildToolIdentifier (config b)]})
                emptyDescriptor (Some (bc_platform buildCfg)) target imgManifest now).

(** ** Writing an index *)

(** The loop over the ztocs drops the errors of its labels. *)
Fixpoint label_ztocs (desc : Descriptor) (i : Z) (blobs : list Descriptor) (s : BS) : option BS :=
  match blobs with
  | [] => Some s
  | blob :: blobs' =>
      match LabelGCRefContent desc ("ztoc." +:+ FormatInt i) (d_Digest blob) s with
      | (Panic, _) => None
      | (_, s') => label_ztocs desc (i + 1) blobs' s'
      end
  end.

Definition store_index (im : IndexWithMetadata Time) (gc : bool) : ST st (Descriptor * Z) :=
  let i := im_Index im in
  manifest <~ st_lift (MarshalIndex i);;
  (if String.eqb (i_MediaType i) MediaTypeImageManifest
   then st_map_err (Wrap "error creating OCI 1.0 empty config") (unless_exists (on_store (s_Push (i_Config i) defaultConfigContent)))
   else st_ret tt);;;
  let size := zlen manifest in
  let desc := mkDesc MediaTypeImageManifest (digest_FromBytes manifest) size ∅ None (i_ArtifactType i) in
  st_map_err (Wrap "cannot write SOCI index to local store") (unless_exists (on_store (s_Push desc manifest)));;;
  (if gc then st_map_err (Wrap "cannot apply garbage collection label to index") (on_store (LabelGCRoot now_rfc3339 desc))
   else st_ret tt);;;
  st_map_err (Wrap "cannot apply garbage collection label to index referencing default config")
    (on_store (LabelGCRefContent desc "config" (d_Digest defaultConfigDescriptor)));;;
  (λ s, match label_ztocs desc 0 (i_Blobs i) s.1 with
        | Some s1 => (Ok tt, (s1, s.2))
        | None => (Panic, s)
        end);;;
  if bool_decide (i_Subject i = None) && String.eqb (i_ArtifactType i) SociIndexArtifactTypeV1
  then st_err (ErrorString "cannot write soci index: the Refers field is nil")
  else st_ret (desc, size).

Definition index_entry (im : IndexWithMetadata Time) (p : Platform) (desc : Descriptor) (size : Z) : ArtifactEntry Time :=
  mkAE size (d_Digest desc) (d_Digest (im_ManifestDesc im)) (d_Digest (im_ImageDesc im)) (platforms_Format p)
    (d_Digest (im_ManifestDesc im)) ArtifactEntryTypeIndex (i_MediaType (im_Index im))
    (d_MediaType (i_Config (im_Index im))) (im_CreatedAt im) 0.

(** The descriptor and the error. *)
Definition writeSociIndex (im : IndexWithMetadata Time) (gc : bool) : st → Descriptor * outcome () * st := λ s,
  match store_index im gc s with
  | (Ok (desc, size), s') =>
      match im_Platform im with
      | None => (emptyDescriptor, Panic, s')
      | Some p => let '(r, s'') := on_db (WriteArtifactEntry (Some (index_entry im p desc size))) s' in (desc, r, s'')
      end
  | (Err e, s') => (emptyDescriptor, Err e, s')
  | (Panic, s') => (emptyDescriptor, Panic, s')
  end.

Definition Build (order : nat → list nat) b (target : Descriptor) (opts : list BuildOption) : ST st (IndexWithMetadata Time) :=
  let buildCfg := foldl (λ c o, o c) (mkBuildConfig platforms_DefaultSpec true V1) opts in
  on_store s_BatchOpen;;;
  (λ s,
    let '(r, s') := (index <~ build order b target buildCfg;;
      λ s, match writeSociIndex index (gcRoot buildCfg) s with
           | (desc, Ok _, s') => (Ok (with_Desc desc index), s')
           | (desc, Err e, s') => if IsErrAlreadyExists e then (Ok (with_Desc desc index), s') else (Err e, s')
           | (_, Panic, s') => (Panic, s')
           end) s in
    (r, (s_BatchDone s'.1, s'.2))).
End builder.

(** ** The index document *)
Section document.
Context `{DocJSONLaws}.

(** An index is read back as it was written: every index the builder makes, of either
    version, is serialised to a manifest that decodes to the same index. *)
Theorem index_roundtrip version blobs subject annotations :
  version = V1 ∨ version = V2 →
  ∃ b, MarshalIndex (NewIndex version blobs subject annotations) = Ok b ∧
    DecodeIndex (Ok b) = Ok (NewIndex version blobs subject annotations).
Proof.
  intros Hv. unfold MarshalIndex, DecodeIndex, UnmarshalIndex.
  destruct (manifest_json (mkManifest 2 MediaTypeImageManifest (iv_configDescriptor version) blobs subject annotations))
    as (b & Hm & Hu & Hd).
  exists b. split; [exact Hm|]. cbn [mbind outcome_bind]. rewrite Hd. cbn [mbind outcome_bind]. rewrite Hu.
  by destruct Hv as [-> | ->].
Qed.

(** A manifest whose config has another media type is not an index. *)
Lemma fromManifest_unknown m :
  d_MediaType (m_Config m) ≠ SociIndexArtifactTypeV1 → d_MediaType (m_Config m) ≠ SociIndexArtifactTypeV2 →
  fromManifest m = Err (ErrorString "unknown index version").
Proof.
  intros H1 H2. unfold fromManifest. cbn [iv_artifactType V1 V2].
  apply String.eqb_neq in H1, H2. by rewrite H1, H2.
Qed.
End document.

Section built.
Context {Time BS CS : Type}.
Context `{HT : GoTime Time} `{HD : Digester} `{HG : GzipC} `{HTF : TarZinfoFlatbuf} `{HF : FlatbufZtoc} `{HS : GoSort}.
Context `{HSt : Store BS} `{HCS : ContentStore CS} `{HMT : MediaTypes} `{HPl : Platforms} `{HJ : DocJSON} `{HPJ : PrefetchJSON}.
Context (cs : CS) (now : Time) (now_rfc3339 : string) (tmp : outcome string).
Implicit Types (b : IndexBuilder Time) (toc : Ztoc Time) (s : st (BS:=BS)) (l : Descriptor).

(** A layer the builder makes a ztoc for: large enough and compressed in a known way. *)
Definition indexable b l : bool :=
  negb (String.eqb (d_MediaType l) SociPrefetchMediaType) && negb (skipBuildingZtoc l (config b)) &&
  match layer_compression l with
  | Ok algo => CheckCompressionAlgorithm (ztocBuilder b) algo
  | _ => false
  end.

(** What the index says of the ztoc of a layer. *)
Definition ztoc_for b l (d : Descriptor) : Prop :=
  d_MediaType d = SociLayerMediaType ∧
  d_Annotations d !! IndexAnnotationImageLayerDigest = Some (d_Digest l) ∧
  d_Annotations d !! IndexAnnotationImageLayerMediaType = Some (d_MediaType l) ∧
  d_Annotations d !! IndexAnnotationSociSpanSize = Some (FormatInt (spanSize (config b))).

(** [errUnsupportedLayerFormat] is private to the package: what it calls outside this
    development does not return it. *)
Abbreviation foreign := (ForeignErrors.foreign "unsupported layer format").
Record error_is_private b : Prop := {
  ep_fetch d (bs : BS) : foreign (s_Fetch d bs).1;
  ep_push d c (bs : BS) : foreign (s_Push d c bs).1;
  ep_read d : foreign (cs_ReadAll cs d);
  ep_tmp : foreign tmp;
  ep_tar a p : provider_of (tocBuilder (ztocBuilder b)) a = Some p → provider_foreign "unsupported layer format" p
}.

Lemma addSociLayerAnnotations_for b l d toc : ztoc_for b l (addSociLayerAnnotations b l d toc).
Proof.
  unfold ztoc_for, addSociLayerAnnotations, maybeAddDisableXattrAnnotation.
  destruct (_ && _); cbn [d_MediaType d_Annotations set_annotations]; split_and!; done.
Qed.

Lemma WriteArtifactEntry_foreign ae d : foreign (WriteArtifactEntry (Time:=Time) (Some ae) d).1.
Proof.
  intros e. unfold WriteArtifactEntry, Update, writeArtifactEntry, putArtifactEntry.
  destruct (String.eqb _ _); [by intros [= <-]|]. rewrite !EncodeInt_ok. cbn [mbind outcome_bind].
  destruct (time_GobEncode _); simpl; [done|by intros [= <-]].
Qed.

(** What [build_new_layer] and [buildSociLayer] return. *)
Definition layer_result b l (r : outcome (option (Descriptor * Ztoc Time))) : Prop :=
  match r with
  | Ok (Some (d, _)) => indexable b l = true ∧ ztoc_for b l d
  | Ok None => indexable b l = false
  | Err e => errors_Is e errUnsupportedLayerFormat = true → indexable b l = false
  | Panic => True
  end.

Lemma record_layer_result b l ae d toc s : indexable b l = true →
  layer_result b l (st_bind (on_db (WriteArtifactEntry (Some ae)))
    (λ _, st_ret (Some (addSociLayerAnnotations b l d toc, toc))) s).1.
Proof.
  intros Hi. unfold st_bind, on_db, st_ret. pose proof (WriteArtifactEntry_foreign ae s.2) as Hw.
  destruct (WriteArtifactEntry (Some ae) s.2) as [[u|e|] s2]; cbn [layer_result fst].
  - split; [done|apply addSociLayerAnnotations_for].
  - intros He. unfold errUnsupportedLayerFormat in He. by rewrite (Hw e) in He.
  - done.
Qed.

Lemma build_new_layer_result b l algo s : error_is_private b → indexable b l = true →
  layer_result b l (build_new_layer cs now tmp b l algo s).1.
Proof.
  intros [Hfetch Hpush Hread Htmp Htar] Hi.
  assert (∀ (r : outcome (option (Descriptor * Ztoc Time))) s', foreign r →
    (∀ x, r = Ok x → ∃ d toc, x = Some (addSociLayerAnnotations b l d toc, toc)) →
    layer_result b l (r, s' : st (BS:=BS)).1) as Hdone.
  { intros [x|e|] s' Hf Hx; simpl; [|intros He; unfold errUnsupportedLayerFormat in He; by rewrite (Hf e) in He|done].
    destruct (Hx x eq_refl) as (d & toc & ->). split; [done|apply addSociLayerAnnotations_for]. }
  unfold build_new_layer, st_bind, st_lift, st_ret, st_map_err, unless_exists, on_store, on_db.
  assert (foreign (copy_layer cs tmp l)) as Hcopy.
  { unfold copy_layer. specialize (Hread l). destruct (cs_ReadAll cs l) as [c|e|]; simpl; [|by intros ? [= <-]; apply Hread|done].
    destruct tmp as [n|e|]; simpl; [|by intros ? [= <-]; apply Htmp|done]. destruct (negb _); [by intros ? [= <-]|done]. }
  destruct (copy_layer cs tmp l) as [[name fs]|e|]; [|apply Hdone; [|done]; intros ? [= <-]; by apply Hcopy|done].
  pose proof (BuildZtoc_foreign "unsupported layer format" ltac:(done) (ztocBuilder b) fs name (spanSize (config b)) algo Htar) as Hbuild.
  destruct (BuildZtoc _ _ _ _ _) as [toc|e|]; [|apply Hdone; [|done]; intros ? [= <-]; by apply Hbuild|done].
  pose proof (Marshal_foreign "unsupported layer format" toc) as Hmar. destruct (Marshal toc) as [[c [dg sz]]|e|]; [|apply Hdone; [|done]; intros ? [= <-]; by apply Hmar|done].
  specialize (Hpush (content_desc "" dg sz) c s.1). destruct (s_Push _ _ s.1) as [[[]|e|] s1]; [| |done].
  - by apply (record_layer_result b l (layer_entry now b l dg sz) (content_desc "" dg sz) toc (s1, s.2)).
  - destruct (IsErrAlreadyExists e).
    + by apply (record_layer_result b l (layer_entry now b l dg sz) (content_desc "" dg sz) toc (s1, s.2)).
    + cbn [layer_result fst map_err]. intros He. specialize (Hpush e eq_refl). simpl in He. unfold errUnsupportedLayerFormat in He. congruence.
Qed.

Lemma buildSociLayer_result b l s : error_is_private b → layer_result b l (buildSociLayer cs now tmp b l s).1.
Proof.
  intros Hp. unfold buildSociLayer.
  destruct (String.eqb (d_MediaType l) SociPrefetchMediaType) eqn:Epre.
  { cbn. unfold indexable. by rewrite Epre. }
  destruct (negb (IsLayerType (d_MediaType l))); [done|].
  destruct (skipBuildingZtoc l (config b)) eqn:Eskip.
  { cbn. unfold indexable. by rewrite Epre, Eskip. }
  unfold st_bind at 1, st_lift at 1. destruct (layer_compression l) as [algo|e|] eqn:Ec.
  2: { cbn. unfold indexable. by rewrite Ec, andb_false_r. }
  2: done.
  destruct (CheckCompressionAlgorithm (ztocBuilder b) algo) eqn:Ealgo; cbn [negb].
  2: { cbn. intros _. unfold indexable. by rewrite Ec, Ealgo, andb_false_r. }
  assert (indexable b l = true) as Hi by (unfold indexable; by rewrite Epre, Eskip, Ec, Ealgo).
  unfold st_bind, st_get. destruct (getExistingZtocForLayer b l s.2) as [ez|]; [|by apply build_new_layer_result].
  unfold on_store. pose proof (ep_fetch _ Hp ez s.1) as Hfe.
  destruct (s_Fetch ez s.1) as [[content|e|] s1]; cbn [fst] in *; [| |done].
  - pose proof (Unmarshal_foreign (Time:=Time) "unsupported layer format" ltac:(done) content) as Hun.
    destruct (ZtocMarshal.Unmarshal (Ok content)) as [toc|e|]; cbn [layer_result]; [|simpl; intros He; unfold errUnsupportedLayerFormat in He; by rewrite (Hun e) in He|done].
    split; [done|apply addSociLayerAnnotations_for].
  - destruct (errors_Is e errdefs_ErrNotFound); [by apply build_new_layer_result|].
    cbn [layer_result]. intros He. simpl in He. unfold errUnsupportedLayerFormat in He. by rewrite (Hfe e) in He.
Qed.

Lemma build_layers_spec b layers order acc s acc' s' : error_is_private b →
  build_layers cs now tmp b layers order acc s = (Ok acc', s') → NoDup order →
  length (sociLayersDesc acc) = length layers → errs acc' = [] →
  (∀ i, i ∈ order → (i < length layers)%nat ∧ sociLayersDesc acc !! i = Some None) →
  errs acc = [] ∧ ∀ i l, layers !! i = Some l →
    if decide (i ∈ order) then
      if indexable b l then ∃ d, sociLayersDesc acc' !! i = Some (Some d) ∧ ztoc_for b l d
      else sociLayersDesc acc' !! i = Some None
    else sociLayersDesc acc' !! i = sociLayersDesc acc !! i.
Proof.
  intros Hp. revert acc s. induction order as [|i order IH]; intros acc s Hb Hnd Hlen He Hin.
  { injection Hb as <- _. split; [done|]. intros i l Hl. by rewrite decide_False by set_solver. }
  apply list.NoDup_cons in Hnd as [Hi Hnd]. cbn [build_layers] in Hb.
  destruct (Hin i) as [Hilen Hnone]; [left|]. apply lookup_lt_is_Some in Hilen as [l Hl]. rewrite Hl in Hb.
  pose proof (buildSociLayer_result b l s Hp) as Hr. destruct (buildSociLayer cs now tmp b l s) as [r s1].
  cbn [fst] in Hr.
  assert (∀ acc1, record_layer b i l r acc = Some acc1 → build_layers cs now tmp b layers order acc1 s1 = (Ok acc', s') →
    length (sociLayersDesc acc1) = length layers → (∀ j, j ≠ i → sociLayersDesc acc1 !! j = sociLayersDesc acc !! j) →
    (errs acc1 = [] → errs acc = [] ∧
      if indexable b l then ∃ d, sociLayersDesc acc1 !! i = Some (Some d) ∧ ztoc_for b l d
      else sociLayersDesc acc1 !! i = Some None) →
    errs acc = [] ∧ ∀ j l', layers !! j = Some l' →
      if decide (j ∈ i :: order) then
        if indexable b l' then ∃ d, sociLayersDesc acc' !! j = Some (Some d) ∧ ztoc_for b l' d
        else sociLayersDesc acc' !! j = Some None
      else sociLayersDesc acc' !! j = sociLayersDesc acc !! j) as Hstep.
  { intros acc1 _ Hb1 Hlen1 Hother He1. destruct (IH acc1 s1 Hb1 Hnd Hlen1 He) as [He2 Hres].
    { intros j Hj. destruct (Hin j) as [? ?]; [by right|]. split; [done|]. rewrite Hother; [done|]. by intros ->. }
    destruct (He1 He2) as [He3 Hii]. split; [done|]. intros j l' Hl'. specialize (Hres j l' Hl').
    destruct (decide (j = i)) as [->|Hne].
    - rewrite decide_True by (by left). rewrite decide_False in Hres by done. rewrite Hl in Hl'. simplify_eq.
      by rewrite Hres.
    - rewrite Hother in Hres by done. destruct (decide (j ∈ order)) as [Hj|Hj].
      + by rewrite decide_True by (by right).
      + rewrite decide_False; [done|]. by intros [?|?]%elem_of_cons. }
  destruct r as [[[d toc]|]|e|]; cbn [record_layer layer_result] in *.
  - destruct Hr as [Hii Hfor]. eapply Hstep; [done|exact Hb|cbn [sociLayersDesc]; by rewrite length_insert| |].
    + intros j Hj. cbn [sociLayersDesc]. by rewrite list_lookup_insert_ne.
    + cbn [errs sociLayersDesc]. intros He1. split; [done|]. rewrite Hii. exists d. split; [|done].
      rewrite list_lookup_insert_eq; [done|]. apply lookup_lt_Some in Hnone. done.
  - eapply Hstep; [done|exact Hb|done|done|]. intros He1. by rewrite Hr.
  - destruct (errors_Is e errUnsupportedLayerFormat).
    + eapply Hstep; [done|exact Hb|done|done|]. intros He1. by rewrite Hr.
    + eapply Hstep; [done|exact Hb|done|done|]. cbn [errs]. intros He1. by apply app_nil in He1 as [_ ?].
  - done.
Qed.

(** Pointwise results give the ztocs of the indexable layers, in order. *)
Lemma collect_layers b layers res : length res = length layers →
  (∀ i l, layers !! i = Some l →
     if indexable b l then ∃ d, res !! i = Some (Some d) ∧ ztoc_for b l d else res !! i = Some None) →
  Forall2 (ztoc_for b) (List.filter (indexable b) layers) (omap id res).
Proof.
  revert res. induction layers as [|l layers IH]; intros [|r res] Hlen H; simpl in *; try done.
  pose proof (H 0%nat l eq_refl) as H0. simpl in H0.
  assert (Forall2 (ztoc_for b) (List.filter (indexable b) layers) (omap id res)) as HIH.
  { apply IH; [lia|]. intros i l' Hl. apply (H (S i) l' Hl). }
  destruct (indexable b l).
  - destruct H0 as (d & [= ->] & Hd). by constructor.
  - by injection H0 as ->.
Qed.

Lemma storePrefetchLayer_type dg spans s d s' :
  storePrefetchLayer now dg spans s = (Ok (Some d), s') → d_MediaType d = PrefetchArtifactMediaType.
Proof.
  unfold storePrefetchLayer. destruct (IsEmpty _); [done|].
  intros (m & s1 & Hm & H)%st_bind_ok. destruct m as [content desc].
  unfold st_lift in Hm. injection Hm as Hm _. cbn [fst snd] in H.
  apply st_bind_ok in H as (? & s2 & _ & H). apply st_bind_ok in H as (? & s3 & _ & H). injection H as <- _.
  unfold MarshalPrefetchArtifact in Hm. destruct (IsEmpty _); [done|].
  destruct (prefetch_Marshal _) as [jd|?|]; [|done..]. simpl in Hm. injection Hm as _ <-. done.
Qed.

Lemma store_prefetch_types m layers acc s ds s' : store_prefetch now m layers acc s = (Ok ds, s') →
  Forall (λ d, d_MediaType d = PrefetchArtifactMediaType) acc → Forall (λ d, d_MediaType d = PrefetchArtifactMediaType) ds.
Proof.
  revert acc s. induction layers as [|l layers IH]; intros acc s H Hacc; cbn [store_prefetch] in H.
  { by injection H as <- _. }
  destruct (_ =? 0); [by eapply IH|]. apply st_bind_ok in H as (d & s1 & Hd%st_map_err_ok & H).
  eapply IH; [exact H|]. destruct d as [d|]; [|done]. apply list.Forall_app. split; [done|].
  apply list.Forall_singleton. by eapply storePrefetchLayer_type.
Qed.

Lemma build_layers_length b layers order acc s acc' s' :
  build_layers cs now tmp b layers order acc s = (Ok acc', s') → length (sociLayersDesc acc') = length (sociLayersDesc acc).
Proof.
  revert acc s. induction order as [|i order IH]; intros acc s H; cbn [build_layers] in H; [by injection H as <- _|].
  destruct (layers !! i) as [l|]; [|by eapply IH].
  destruct (buildSociLayer cs now tmp b l s) as [r s1]. destruct (record_layer b i l r acc) as [acc1|] eqn:E; [|done].
  rewrite (IH acc1 s1 H). unfold record_layer in E.
  destruct r as [[[d toc]|]|e|]; [injection E as <-; cbn [sociLayersDesc]; by rewrite length_insert|by injection E as <-| |done].
  destruct (errors_Is e _); by injection E as <-.
Qed.

(** C8: an index covers exactly the layers it should.  When a build succeeds, whatever order
    its goroutines ran in, the index lists one ztoc for each layer that is large enough
    and in a supported compression, in the order of the layers and labelled with the
    layer's digest, media type and the span size, then only prefetch artifacts; it is not
    empty, and it names the image manifest as its subject in version 1 and not in
    version 2. *)
Theorem build_indexes_exactly order b target cfg s im s' :
  (∀ k, order k ≡ₚ seq 0 k) → error_is_private b →
  build cs now tmp order b target cfg s = (Ok im, s') →
  ∃ manifest mdesc ztocs prefetch,
    images_Manifest cs target (Some (bc_platform cfg)) = Ok manifest ∧
    GetImageManifestDescriptor cs target (bc_platform cfg) = Ok (Some mdesc) ∧ im_ManifestDesc im = mdesc ∧
    i_Blobs (im_Index im) = ztocs ++ prefetch ∧ i_Blobs (im_Index im) ≠ [] ∧
    Forall2 (ztoc_for b) (List.filter (indexable b) (m_Layers manifest)) ztocs ∧
    Forall (λ d, d_MediaType d = PrefetchArtifactMediaType) prefetch ∧
    i_Subject (im_Index im) = (if String.eqb (iv_version (indexVersion cfg)) "v2" then None
      else Some (content_desc (d_MediaType mdesc) (d_Digest mdesc) (d_Size mdesc))).
Proof.
  intros Hord Hp H. unfold build in H.
  apply st_bind_ok in H as (md & s0 & Hmd & H). unfold st_lift in Hmd. injection Hmd as Hmd <-.
  apply st_bind_ok in H as (manifest & s0 & Hman & H). unfold st_lift in Hman. injection Hman as Hman <-.
  apply st_bind_ok in H as (res & s1 & Hres & H).
  destruct (0 <? zlen (errs res)) eqn:Eerr; [done|].
  assert (errs res = []) as Herrs by (apply zlen_zero; pose proof (zlen_nonneg (errs res)); zcases).
  apply st_bind_ok in H as (pre & s2 & Hpre & H).
  destruct (_ =? 0) eqn:Eempty in H; [done|].
  apply st_bind_ok in H as (mdesc & s3 & Hmust & H). unfold st_lift in Hmust. injection Hmust as Hmust <-.
  injection H as <- <-. cbn [im_ManifestDesc im_Index NewIndex i_Blobs i_Subject].
  exists manifest, mdesc, (omap id (sociLayersDesc res)), pre. split_and!; try done.
  - destruct md as [md|]; [|done]. simpl in Hmust. injection Hmust as ->.
    by destruct (GetImageManifestDescriptor _ _ _) as [?|?|]; simpl in Hmd; simplify_eq.
  - intros E. by rewrite E in Eempty.
  - apply collect_layers.
    + rewrite (build_layers_length _ _ _ _ _ _ _ Hres). simpl. by rewrite length_replicate.
    + destruct (build_layers_spec _ _ _ _ _ _ _ Hp Hres) as [_ Hspec].
      { rewrite Hord. apply NoDup_seq. }
      { simpl. by rewrite length_replicate. } { done. }
      { intros i. rewrite Hord, elem_of_seq. intros Hi. split; [lia|]. apply lookup_replicate. split; [done|lia]. }
      intros i l Hl. specialize (Hspec i l Hl). apply lookup_lt_Some in Hl.
      rewrite decide_True in Hspec; [done|]. rewrite Hord, elem_of_seq. lia.
  - destruct (_ && _) in Hpre; [|by injection Hpre as <- _]. apply st_map_err_ok in Hpre.
    unfold buildPrefetchLayer in Hpre. destruct (_ =? 0) in Hpre; [by injection Hpre as <- _|].
    apply st_bind_ok in Hpre as (m & s3 & _ & Hpre). by eapply store_prefetch_types.
Qed.

(** *** Reusing a ztoc *)
Definition matching b l (ae : ArtifactEntry Time) : bool :=
  String.eqb (ae_Type ae) ArtifactEntryTypeLayer && String.eqb (ae_OriginalDigest ae) (d_Digest l)
    && (ae_SpanSize ae =? spanSize (config b)).

Lemma walk_loop_find {A} (P : ArtifactEntry Time → bool) (f : ArtifactEntry Time → A) kbs :
  Forall (λ kb, is_Some (load (Time:=Time) kb.1 kb.2)) kbs →
  walk_loop (λ ae found, if P ae then (Some (f ae), true) else (found, false)) kbs None =
    f <$> List.find P (loaded kbs).
Proof.
  induction 1 as [|[k bk] kbs [ae Hae] _ IH]; [done|]. cbn [walk_loop]. unfold loaded. cbn [omap list_omap fst snd] in *.
  unfold load in Hae |- *. destruct (loadArtifact bk k) as [ae'|?|]; [|done..]. cbn [List.find].
  by destruct (P ae').
Qed.

(** A ztoc is reused exactly when the database has an entry for the layer with the span size
    of the builder and reuse is not disabled, and then it is the ztoc of such an entry. *)
Theorem existing_ztoc_found b l d : db_ok (Time:=Time) d →
  match getExistingZtocForLayer b l d with
  | Some desc => ∃ ae, entries d !! ae_Digest ae = Some ae ∧ matching b l ae = true ∧
      desc = content_desc "" (ae_Digest ae) (ae_Size ae)
  | None => forceRecreateZtocs (config b) = true ∨
      ∀ ae, entries (Time:=Time) d !! ae_Digest ae = Some ae → matching b l ae = false
  end.
Proof.
  intros Hd. unfold getExistingZtocForLayer. destruct (forceRecreateZtocs (config b)); [by left|].
  unfold Walk. destruct d as [m|].
  2: { right. intros ae Hae. by rewrite lookup_entries in Hae. }
  pose proof (walk_loop_find (matching b l) (λ ae, content_desc "" (ae_Digest ae) (ae_Size ae)) (bolt_order m)
    (db_ok_loads m Hd)) as Hw. unfold matching in Hw at 1. rewrite Hw.
  destruct (List.find _ _) as [ae|] eqn:E; simpl.
  - apply find_some in E as [Hin Hm]. apply list_elem_of_In, elem_of_loaded in Hin; [|done]. by eauto.
  - right. intros ae Hae. apply elem_of_loaded in Hae; [|done]. apply (find_none _ _ E). by apply list_elem_of_In.
Qed.

(** *** Labels *)
Definition configRefLabel : string := "containerd.io/gc.ref.content.config".

Lemma label_ztocs_total desc i blobs (bs : BS) :
  (∀ d n v bs', (s_Label d n v bs').1 ≠ Panic) → is_Some (label_ztocs desc i blobs bs).
Proof.
  intros Hl. revert i bs. induction blobs as [|d blobs IH]; intros i bs; [by eexists|]. simpl.
  unfold LabelGCRefContent. set (n := "containerd.io/gc.ref.content" +:+ _).
  pose proof (Hl desc n (d_Digest d) bs) as Hn.
  destruct (s_Label desc n (d_Digest d) bs) as [[[]|e|] s']; [apply IH..|done].
Qed.

(** Errors of the labels that protect the ztocs are lost.  With a store that takes
    content but refuses every label except the one for the config, writing an index reports
    success: the ztocs of the index are left to the garbage collector. *)
Theorem ztoc_label_errors_lost `{!DocJSONLaws} `{HGT : !GobTime (Time:=Time)} (im : IndexWithMetadata Time) s p :
  (∀ d c (bs : BS), ∃ bs', s_Push d c bs = (Ok tt, bs')) →
  (∀ d v (bs : BS), ∃ bs', s_Label d configRefLabel v bs = (Ok tt, bs')) →
  (∀ d n v (bs : BS), n ≠ configRefLabel → ∃ e, s_Label d n v bs = (Err e, bs)) →
  (∀ c, digest_FromBytes c ≠ ""%string) → is_Some (time_GobEncode (im_CreatedAt im)) →
  i_MediaType (im_Index im) = MediaTypeImageManifest → i_ArtifactType (im_Index im) = SociIndexArtifactTypeV2 →
  im_Platform im = Some p →
  ∃ desc s', writeSociIndex now_rfc3339 im false s = (desc, Ok tt, s').
Proof.
  intros Hpush Hlc Hlo Hdg [te Hte] Hmt Hat Hp. unfold writeSociIndex, store_index.
  unfold st_bind, st_lift, st_ret, st_err, st_map_err, unless_exists, on_store, on_db.
  unfold MarshalIndex. destruct (manifest_json (mkManifest 2 MediaTypeImageManifest (i_Config (im_Index im))
    (i_Blobs (im_Index im)) (i_Subject (im_Index im)) (i_Annotations (im_Index im)))) as (c & -> & _ & _).
  rewrite Hmt, String.eqb_refl.
  destruct (Hpush (i_Config (im_Index im)) defaultConfigContent s.1) as [s1 ->]. cbn [fst snd map_err].
  set (desc := mkDesc _ (digest_FromBytes c) _ _ _ _).
  destruct (Hpush desc c s1) as [s2 ->]. cbn [fst snd map_err].
  unfold LabelGCRefContent at 1. change ("containerd.io/gc.ref.content" +:+ _) with configRefLabel.
  destruct (Hlc desc (d_Digest defaultConfigDescriptor) s2) as [s3 ->]. cbn [fst snd map_err].
  destruct (label_ztocs_total desc 0 (i_Blobs (im_Index im)) s3) as [s4 ->].
  { intros d n v bs'. destruct (decide (n = configRefLabel)) as [->|Hn].
    - by destruct (Hlc d v bs') as [? ->].
    - by destruct (Hlo d n v bs' Hn) as [? ->]. }
  rewrite Hat. replace (String.eqb SociIndexArtifactTypeV2 SociIndexArtifactTypeV1) with false by done.
  rewrite andb_false_r, Hp. cbn [fst snd].
  unfold WriteArtifactEntry, Update, writeArtifactEntry, putArtifactEntry.
  cbn [ae_Digest ae_Size ae_SpanSize ae_CreatedAt index_entry d_Digest].
  pose proof (Hdg c) as Hdg'. apply String.eqb_neq in Hdg'. cbn [d_Digest desc]. rewrite Hdg', !EncodeInt_ok.
  cbn [mbind outcome_bind]. rewrite Hte. by eexists _, _.
Qed.

(** *** Extended attributes *)
(** Extended attributes are switched off for a layer only when no file of it has any and
    no directory of it is opaque. *)
Theorem disable_xattrs_sound b l d toc fm :
  d_Annotations (addSociLayerAnnotations b l d toc) !! IndexAnnotationDisableXAttrs = Some disableXAttrsTrue →
  fm ∈ TOC toc → FileMetadata_Xattrs fm = ∅ ∧ ∀ dir, Name fm ≠ dir +:+ whiteoutOpaqueDir.
Proof.
  unfold addSociLayerAnnotations, maybeAddDisableXattrAnnotation.
  destruct (hasOptimization _ _ && shouldDisableXattrs toc) eqn:E; cbn [d_Annotations set_annotations]; [|done].
  intros _ Hin. apply andb_true_iff in E as [_ E]. unfold shouldDisableXattrs in E.
  apply negb_true_iff in E.
  assert ((0 <? Z.of_nat (base.size (FileMetadata_Xattrs fm))) || HasSuffix (Name fm) whiteoutOpaqueDir = false) as Hf.
  { destruct (_ || _) eqn:Eo; [|done]. rewrite (proj2 (existsb_exists _ _)) in E; [done|].
    exists fm. split; [by apply list_elem_of_In|done]. }
  apply orb_false_iff in Hf as [Hx Hs]. split.
  - apply map_size_empty_inv. destruct (Z.ltb_spec 0 (Z.of_nat (base.size (FileMetadata_Xattrs fm)))); [done|lia].
  - intros dir Hn. rewrite Hn, HasSuffix_app in Hs. done.
Qed.
End built.
