(* ===== verification/ArtifactsSync.v ===== *)
(** * Rebuilding the artifacts database from the blob store

    Models [addNewArtifacts] and [SyncWithLocalStore] of [soci/artifacts.go].  The walk over
    the directory of the blob store is the list of what it finds, in order; a file may
    vanish between being found and being read. *)
From Stdlib Require Import ZArith Lia.
From stdpp Require Import base list gmap strings numbers.
From S2P Require Import Prelude GoLib Compression GzipZinfo Ztoc ZtocBuilder ZtocMarshal Encoders MetadataDB.
From S2P Require Import Oci ArtifactsDb Prefetch SociIndex.
#[local] Open Scope Z_scope.

Definition fs_ErrNotExist : error := Sentinel "file does not exist".

(** A regular file of the walk: its name, what [Info] yields for its size, what opening and
    reading it yields. *)
Record blob_file := mkBF { bf_name : string; bf_info : outcome Z; bf_content : outcome bytes }.

Definition addHashPrefix (name : string) : string :=
  if str_len name =? 64 then "sha256:" +:+ name else "sha512:" +:+ name.

Section sync.
Context {Time BS CS : Type}.
Context `{HT : GoTime Time} `{HSt : Store BS} `{HCS : ContentStore CS} `{HPl : Platforms} `{HJ : DocJSON}.
Context (cs : CS) (now : Time).
Local Open Scope go_scope.

(** The span size a ztoc descriptor is annotated with, 0 when it is not. *)
Definition annotated_span_size (zt : Descriptor) : outcome Z :=
  match d_Annotations zt !! IndexAnnotationSociSpanSize with
  | None => Ok 0
  | Some v => map_err (Wrap "failed to parse span size from annotations") (ParseInt v)
  end.

Definition annotated_layer (zt : Descriptor) : string := default "" (d_Annotations zt !! IndexAnnotationImageLayerDigest).

Definition ztoc_entry (zt : Descriptor) (span : Z) : ArtifactEntry Time :=
  mkAE (d_Size zt) (d_Digest zt) (annotated_layer zt) "" "" (annotated_layer zt) ArtifactEntryTypeLayer
    SociLayerMediaType "" now span.

Fixpoint add_ztocs (blobs : list Descriptor) : ST adb () :=
  match blobs with
  | [] => st_ret tt
  | zt :: blobs' =>
      span <~ st_lift (annotated_span_size zt);;
      WriteArtifactEntry (Some (ztoc_entry zt span));;;
      add_ztocs blobs'
  end.

Definition sync_entry (indexDigest manifestDigest platform : string) (size : Z) (i : Index) : ArtifactEntry Time :=
  mkAE size indexDigest manifestDigest manifestDigest platform manifestDigest ArtifactEntryTypeIndex
    (i_MediaType i) (d_MediaType (i_Config i)) now 0.

(** The index a file holds, if it is one that belongs into the database. *)
Definition index_of (content : bytes) : outcome (option (Index * Descriptor)) :=
  match DecodeIndex (Ok content) with
  | Panic => Panic
  | Err _ => Ok None
  | Ok i =>
      if negb (String.eqb (i_MediaType i) MediaTypeImageManifest) then Ok None
      else if negb (String.eqb (i_ArtifactType i) SociIndexArtifactType) then Ok None
      else Ok (match i_Subject i with Some sub => Some (i, sub) | None => None end)
  end.

Definition add_index (name : string) (size : Z) (i : Index) (subject : Descriptor) : ST adb () := λ d,
  let indexDigest := addHashPrefix name in
  match GetArtifactEntry (Time:=Time) indexDigest d with
  | Panic => (Panic, d)
  | Ok _ => (Ok tt, d)
  | Err e =>
      if negb (errors_Is e ErrArtifactBucketNotFound) && negb (errors_Is e errdefs_ErrNotFound) then (Err e, d)
      else
        (let manifestDigest := d_Digest subject in
         platform <~ st_lift (images_Platforms cs (content_desc MediaTypeImageManifest manifestDigest 0));;
         p <~ st_lift (index platform 0);;
         WriteArtifactEntry (Some (sync_entry indexDigest manifestDigest (platforms_Format p) size i));;;
         add_ztocs (i_Blobs i)) d
  end.

Definition add_file (f : blob_file) : ST adb () := λ d,
  match bf_info f with
  | Panic => (Panic, d)
  | Err e => if errors_Is e fs_ErrNotExist then (Ok tt, d) else (Err e, d)
  | Ok size =>
      if size <? 10 then (Ok tt, d)
      else match bf_content f with
      | Panic => (Panic, d)
      | Err e => if errors_Is e fs_ErrNotExist then (Ok tt, d) else (Err e, d)
      | Ok content =>
          match index_of content with
          | Panic => (Panic, d)
          | Err e => (Err e, d)
          | Ok None => (Ok tt, d)
          | Ok (Some (i, subject)) => add_index (bf_name f) size i subject d
          end
      end
  end.

Fixpoint addNewArtifacts (walk : list (outcome blob_file)) : ST adb () :=
  match walk with
  | [] => st_ret tt
  | f :: walk' => f <~ st_lift f;; add_file f;;; addNewArtifacts walk'
  end.

Definition SyncWithLocalStore (walk : list (outcome blob_file)) : ST (adb * BS) () :=
  st_map_err (Wrap "failed to remove old artifacts from db") (RemoveOldArtifacts (Time:=Time));;;
  st_map_err (Wrap "failed to add new artifacts to db")
    (λ '(d, s), let '(r, d') := addNewArtifacts walk d in (r, (d', s))).
End sync.

(** ** Facts *)
Section facts.
Context {Time BS CS : Type}.
Context `{HT : GoTime Time} `{HGT : !GobTime (Time:=Time)} `{HSt : Store BS} `{HCS : ContentStore CS} `{HPl : Platforms}.
Context `{HJ : DocJSON} `{HJL : !DocJSONLaws}.
Context (cs : CS) (now : Time) (Hnow : is_Some (time_GobEncode now)).

Definition blob_ok (zt : Descriptor) : Prop := in_int64 (d_Size zt) ∧ d_Digest zt ≠ ""%string ∧
  ∃ span, in_int64 span ∧ annotated_span_size zt = Ok span.

Lemma add_ztocs_ok blobs d : db_ok (Time:=Time) d → Forall blob_ok blobs → NoDup (d_Digest <$> blobs) →
  ∃ d', add_ztocs now blobs d = (Ok tt, d') ∧ db_ok (Time:=Time) d' ∧
    (∀ zt span, zt ∈ blobs → annotated_span_size zt = Ok span → entries d' !! d_Digest zt = Some (ztoc_entry now zt span)) ∧
    (∀ k, k ∉ d_Digest <$> blobs → entries (Time:=Time) d' !! k = entries d !! k).
Proof.
  intros Hd Hb Hnd. revert d Hd. induction Hb as [|zt blobs (Hs & Hdg & span & Hspan & Ha) _ IH]; intros d Hd.
  { exists d. split_and!; [done|done| |done]. intros zt span Hzt. by apply elem_of_nil in Hzt. }
  apply list.NoDup_cons in Hnd as [Hn Hnd]. cbn [add_ztocs]. unfold st_bind at 1, st_lift. rewrite Ha.
  destruct (writeArtifactEntry_ok (ztoc_entry now zt span) d Hd) as (d1 & Hw & Hd1 & E1); [by split|].
  unfold st_bind, WriteArtifactEntry, Update. rewrite Hw.
  destruct (IH Hnd d1 Hd1) as (d' & -> & Hd' & H1 & H2). exists d'. split_and!; [done|done| |].
  - intros zt' span' [->|Hin]%elem_of_cons Ha'; [|by apply H1].
    rewrite H2 by done. rewrite E1. cbn [ae_Digest ztoc_entry]. rewrite lookup_insert_eq. congruence.
  - intros k Hk. rewrite fmap_cons, not_elem_of_cons in Hk. destruct Hk as [Hk1 Hk2].
    rewrite H2, E1 by done. cbn [ae_Digest ztoc_entry]. by rewrite lookup_insert_ne.
Qed.

(** A lost database is rebuilt from the blobs.  When the index file of a version 1 index
    is found and its entry is not in the database, syncing records the index for the image
    manifest it belongs to, and records each of its ztocs under the layer and with the span
    size the builder had annotated, so the same builder finds the ztoc of that layer
    again. *)
Theorem rebuilt_database_matches b layers blobs subject annotations name content size p ps d :
  db_ok (Time:=Time) d → MarshalIndex (NewIndex V1 blobs (Some subject) annotations) = Ok content →
  10 ≤ size < 2 ^ 63 → entries (Time:=Time) d !! addHashPrefix name = None →
  images_Platforms cs (content_desc MediaTypeImageManifest (d_Digest subject) 0) = Ok (p :: ps) →
  Forall2 (ztoc_for b) layers blobs → in_int64 (spanSize (config b)) →
  Forall (λ zt, in_int64 (d_Size zt) ∧ d_Digest zt ≠ ""%string) blobs → NoDup (d_Digest <$> blobs) →
  addHashPrefix name ∉ d_Digest <$> blobs →
  ∃ d', add_file cs now (mkBF name (Ok size) (Ok content)) d = (Ok tt, d') ∧ db_ok (Time:=Time) d' ∧
    (∃ ae, entries d' !! addHashPrefix name = Some ae ∧ ae_Type ae = ArtifactEntryTypeIndex ∧
       ae_OriginalDigest ae = d_Digest subject) ∧
    Forall2 (λ l zt, ∃ ae, entries d' !! d_Digest zt = Some ae ∧ matching (Time:=Time) b l ae = true) layers blobs.
Proof.
  intros Hd Hm Hsize Hnone Hpl Hfor Hspan Hok Hnd Hfresh.
  assert (index_of content = Ok (Some (NewIndex V1 blobs (Some subject) annotations, subject))) as Hidx.
  { unfold index_of, DecodeIndex, UnmarshalIndex, MarshalIndex in *. cbn [mbind outcome_bind].
    destruct (manifest_json (mkManifest 2 MediaTypeImageManifest defaultConfigDescriptorV1 blobs (Some subject) annotations))
      as (b' & Hb' & Hu & Hdec). cbn [NewIndex i_Config i_Blobs i_Subject i_Annotations] in Hm.
    cbn [iv_configDescriptor V1] in Hm. rewrite Hm in Hb'. injection Hb' as <-. by rewrite Hdec, Hu. }
  unfold add_file. cbn [bf_info bf_content bf_name]. destruct (Z.ltb_spec size 10); [lia|]. rewrite Hidx.
  unfold add_index. pose proof (GetArtifactEntry_entries (Time:=Time) (addHashPrefix name) d Hd) as Hg. rewrite Hnone in Hg.
  destruct Hg as (e & -> & He). rewrite <-negb_orb, He. cbn [negb].
  unfold st_bind, st_lift. rewrite Hpl. change (index (p :: ps) 0) with (Ok p). cbv beta iota.
  match goal with |- context [WriteArtifactEntry (Some ?x)] => set (en := x) end.
  assert (addHashPrefix name ≠ ""%string) as Hne by (unfold addHashPrefix; by destruct (_ =? 64)).
  destruct (writeArtifactEntry_ok en d Hd) as (d1 & Hw & Hd1 & E1).
  { split; cbn [ae_Size ae_SpanSize ae_Digest ae_CreatedAt en sync_entry]; [unfold in_int64; lia|by vm_compute|done|done]. }
  assert (∀ l zt, ztoc_for b l zt → annotated_span_size zt = Ok (spanSize (config b)) ∧ annotated_layer zt = d_Digest l) as Hann.
  { intros l zt (_ & Hl & _ & Hsp). unfold annotated_span_size, annotated_layer. rewrite Hl, Hsp.
    by rewrite ParseInt_FormatInt. }
  destruct (add_ztocs_ok blobs d1 Hd1) as (d' & Ha & Hd' & H1 & H2); [|done|].
  { apply list.Forall_forall. intros zt Hzt. rewrite list.Forall_forall in Hok. destruct (Hok zt Hzt). split_and!; try done.
    apply list_elem_of_lookup in Hzt as [i Hi]. destruct (Forall2_lookup_r _ _ _ _ _ Hfor Hi) as (l & _ & Hl).
    exists (spanSize (config b)). split; [done|]. by apply (Hann l). }
  exists d'. unfold WriteArtifactEntry, Update. rewrite Hw. cbn [i_Blobs NewIndex]. split_and!; [done|done| |].
  - exists en. rewrite H2, E1 by done. by rewrite lookup_insert_eq.
  - apply Forall2_same_length_lookup. split; [by eapply Forall2_length|]. intros i l zt Hl Hzt.
    assert (ztoc_for b l zt) as [Hsp Hly]%Hann by (by eapply Forall2_lookup_lr).
    exists (ztoc_entry now zt (spanSize (config b))). split.
    + apply H1; [by eapply list_elem_of_lookup_2|done].
    + unfold matching. cbn [ae_Type ae_OriginalDigest ae_SpanSize ztoc_entry].
      by rewrite Hly, !String.eqb_refl, Z.eqb_refl.
Qed.

(** A prefetch artifact of an index is recorded as a ztoc of its layer with span size 0. *)
Theorem prefetch_recorded_as_layer zt layerDigest d :
  db_ok (Time:=Time) d → d_MediaType zt = PrefetchArtifactMediaType → in_int64 (d_Size zt) → d_Digest zt ≠ ""%string →
  d_Annotations zt = {[IndexAnnotationImageLayerDigest := layerDigest]} →
  ∃ d' ae, add_ztocs now [zt] d = (Ok tt, d') ∧ entries d' !! d_Digest zt = Some ae ∧
    ae_Type ae = ArtifactEntryTypeLayer ∧ ae_MediaType ae = SociLayerMediaType ∧
    ae_OriginalDigest ae = layerDigest ∧ ae_SpanSize ae = 0.
Proof.
  intros Hd Hmt Hs Hdg Hann.
  assert (annotated_span_size zt = Ok 0) as Hsp by (unfold annotated_span_size; by rewrite Hann).
  destruct (add_ztocs_ok [zt] d Hd) as (d' & Ha & _ & H1 & _).
  { apply list.Forall_singleton. split_and!; [done|done|]. exists 0. by split; [by vm_compute|]. }
  { apply NoDup_singleton. }
  exists d', (ztoc_entry now zt 0). split_and!; try done; [by apply H1; [left|]|].
  cbn [ae_OriginalDigest ztoc_entry]. unfold annotated_layer. by rewrite Hann.
Qed.
End facts.
