(* ===== verification/SociConvert.v ===== *)
(** * Converting an image into a SOCI enabled image

    Models [soci/soci_convert.go]: a version 2 index is built for each platform, the image
    manifests are annotated with the digests of their indexes and pushed again, the indexes
    are added to the image index, and the artifacts database is updated. *)
From Stdlib Require Import ZArith Lia.
From stdpp Require Import base list gmap strings numbers.
From S2P Require Import Prelude GoLib Compression GzipZinfo Ztoc ZtocBuilder ZtocMarshal Encoders MetadataDB.
From S2P Require Import Oci ArtifactsDb Prefetch SociIndex.
#[local] Open Scope Z_scope.

Record convertConfig := mkCC { cc_platforms : list Platform; cc_gcRoot : bool }.
Definition ConvertOption : Type := convertConfig → convertConfig.
Definition ConvertWithPlatforms (ps : list Platform) : ConvertOption := λ c,
  if zlen ps =? 0 then c else mkCC ps (cc_gcRoot c).
Definition ConvertWithNoGarbageCollectionLabels : ConvertOption := λ c, mkCC (cc_platforms c) false.

Definition set_manifests (ms : list Descriptor) (x : OciIndex) : OciIndex :=
  mkOciIndex (x_SchemaVersion x) (x_MediaType x) ms (x_Annotations x).

(** [slices.IndexFunc] with the element. *)
Fixpoint index_func {A} (f : A → bool) (l : list A) : option (nat * A) :=
  match l with
  | [] => None
  | x :: l' => if f x then Some (0%nat, x) else (λ p, (S p.1, p.2)) <$> index_func f l'
  end.

Section convert.
Context {Time BS CS : Type}.
Context `{HT : GoTime Time} `{HD : Digester} `{HG : GzipC} `{HTF : TarZinfoFlatbuf} `{HF : FlatbufZtoc} `{HS : GoSort}.
Context `{HSt : Store BS} `{HCS : ContentStore CS} `{HMT : MediaTypes} `{HPl : Platforms} `{HJ : DocJSON} `{HPJ : PrefetchJSON} `{HUJ : UnknownJSON}.
Context (cs : CS) (now : Time) (now_rfc3339 : string) (tmp : outcome string).
Implicit Types (b : IndexBuilder Time) (ims : list (IndexWithMetadata Time)).
Local Open Scope go_scope.

(** ** Indexes for all platforms *)
Fixpoint buildSociIndexesv2 (order : nat → list nat) b (target : Descriptor) (ps : list Platform)
    (acc : list (IndexWithMetadata Time)) : ST st (list (IndexWithMetadata Time)) :=
  match ps with
  | [] => st_ret acc
  | p :: ps' => λ s,
      match Build cs now now_rfc3339 tmp order b target
              [WithPlatform p; WithNoGarbageCollectionLabel; withIndexVersion V2] s with
      | (Ok im, s') => buildSociIndexesv2 order b target ps' (acc ++ [im]) s'
      | (Err e, s') => if errors_Is e ErrEmptyIndex then buildSociIndexesv2 order b target ps' acc s' else (Err e, s')
      | (Panic, s') => (Panic, s')
      end
  end.
Definition buildSociIndexesv2ForPlatforms (order : nat → list nat) b (target : Descriptor) (ps : list Platform)
    : ST st (list (IndexWithMetadata Time)) :=
  indexes <~ buildSociIndexesv2 order b target ps [];;
  if zlen indexes =? 0 then st_err ErrEmptyIndex else st_ret indexes.

(** ** The image index *)
Definition newOciIndex (target : Descriptor) : outcome OciIndex :=
  if IsIndexType (d_MediaType target) then
    content ← cs_ReadAll cs target;
    _ ← ValidateMediaType content (d_MediaType target);
    x ← ociindex_Unmarshal content;
    Ok (mkOciIndex (x_SchemaVersion x) MediaTypeImageIndex (x_Manifests x) (x_Annotations x))
  else Ok (mkOciIndex 2 MediaTypeImageIndex [target] ∅).

(** [content] is what [json.Marshal] yields. *)
Definition pushOCIObject (content : outcome bytes) : ST (st (BS:=BS)) Descriptor :=
  bs <~ st_lift content;;
  let desc := content_desc "" (digest_FromBytes bs) (zlen bs) in
  unless_exists (on_store (s_Push desc bs));;;
  st_ret desc.

(** ** Annotating the image manifests *)

(** The manifest that is pushed in the place of [manifest]. *)
Definition annotated_manifest (manifest : Manifest) (im : option (IndexWithMetadata Time)) : Manifest :=
  let c := m_Config manifest in
  mkManifest (m_SchemaVersion manifest) MediaTypeImageManifest
    (mkDesc MediaTypeImageConfig (d_Digest c) (d_Size c) (d_Annotations c) (d_Platform c) (d_ArtifactType c))
    (m_Layers manifest) (m_Subject manifest)
    (match im with
     | Some im => <[ImageAnnotationSociIndexDigest := d_Digest (im_Desc im)]> (m_Annotations manifest)
     | None => m_Annotations manifest
     end).

Fixpoint label_layers (desc : Descriptor) (i : Z) (layers : list Descriptor) : ST (st (BS:=BS)) () :=
  match layers with
  | [] => st_ret tt
  | l :: layers' =>
      on_store (LabelGCRefContent desc ("l." +:+ FormatInt i) (d_Digest l));;;
      label_layers desc (i + 1) layers'
  end.

Definition annotate_index (manifestDigest : string) (im : IndexWithMetadata Time) : IndexWithMetadata Time :=
  let d := im_Desc im in
  with_Desc (mkDesc (d_MediaType d) (d_Digest d) (d_Size d)
    (<[IndexAnnotationImageManifestDigest := manifestDigest]> (d_Annotations d)) (d_Platform d) (d_ArtifactType d)) im.

(** One image manifest: its new descriptor and the indexes. *)
Definition annotate_image (manifestDesc : Descriptor) ims : ST (st (BS:=BS)) (Descriptor * list (IndexWithMetadata Time)) :=
  let idx := index_func (λ im, String.eqb (d_Digest (im_ManifestDesc im)) (d_Digest manifestDesc)) ims in
  match images_Manifest cs manifestDesc None with
  | Panic => λ s, (Panic, s)
  | Err e => if errors_Is e errdefs_ErrNotFound && bool_decide (idx = None) then st_ret (manifestDesc, ims) else st_err e
  | Ok manifest =>
      let manifest := annotated_manifest manifest (snd <$> idx) in
      newDesc <~ pushOCIObject (manifest_Marshal manifest);;
      let manifestDesc := mkDesc MediaTypeImageManifest (d_Digest newDesc) (d_Size newDesc) (m_Annotations manifest)
                            (d_Platform manifestDesc) (d_ArtifactType manifestDesc) in
      let ims := match idx with Some (i, _) => alter (annotate_index (d_Digest manifestDesc)) i ims | None => ims end in
      on_store (LabelGCRefContent manifestDesc "config" (d_Digest (m_Config manifest)));;;
      label_layers manifestDesc 0 (m_Layers manifest);;;
      st_ret (manifestDesc, ims)
  end.

Fixpoint annotateImages (manifests : list Descriptor) ims : ST (st (BS:=BS)) (list Descriptor * list (IndexWithMetadata Time)) :=
  match manifests with
  | [] => st_ret ([], ims)
  | m :: manifests' =>
      r <~ annotate_image m ims;;
      r' <~ annotateImages manifests' r.2;;
      st_ret (r.1 :: r'.1, r'.2)
  end.

(** ** Adding the indexes *)
Definition is_soci_index_for (p : Platform) (d : Descriptor) : bool :=
  String.eqb (d_ArtifactType d) SociIndexArtifactTypeV2 &&
  match d_Platform d with Some q => platforms_OnlyStrict (platforms_Normalize p) q | None => false end.

Definition with_platform (p : Platform) (d : Descriptor) : Descriptor :=
  mkDesc (d_MediaType d) (d_Digest d) (d_Size d) (d_Annotations d) (Some p) (d_ArtifactType d).

Fixpoint addSociIndexes (manifests : list Descriptor) ims : outcome (list Descriptor) :=
  match ims with
  | [] => Ok manifests
  | im :: ims' =>
      match im_Platform im with
      | None => Err (ErrorString "index does not have a valid platform")
      | Some p =>
          let desc := with_platform p (im_Desc im) in
          addSociIndexes (match index_func (is_soci_index_for p) manifests with
                          | Some (i, _) => <[i := desc]> manifests
                          | None => manifests ++ [desc]
                          end) ims'
      end
  end.

Fixpoint updateSociV2ArtifactReferences (manifests : list Descriptor) (indexDigest : string) : ST adb () :=
  match manifests with
  | [] => st_ret tt
  | d :: manifests' =>
      (if String.eqb (d_ArtifactType d) SociIndexArtifactTypeV2
       then updateSociV2ArtifactReference (Time:=Time) (d_Digest d)
              (default "" (d_Annotations d !! IndexAnnotationImageManifestDigest)) indexDigest
       else st_ret tt);;;
      updateSociV2ArtifactReferences manifests' indexDigest
  end.

Fixpoint label_manifests (desc : Descriptor) (i : Z) (manifests : list Descriptor) : ST (st (BS:=BS)) () :=
  match manifests with
  | [] => st_ret tt
  | m :: manifests' =>
      on_store (LabelGCRefContent desc ("m." +:+ FormatInt i) (d_Digest m));;;
      label_manifests desc (i + 1) manifests'
  end.

(** ** [Convert] *)
Definition Convert (order : nat → list nat) b (target : Descriptor) (opts : list ConvertOption) : ST (st (BS:=BS)) Descriptor :=
  allPlatforms <~ st_lift (images_Platforms cs target);;
  match allPlatforms with
  | [] => st_err (ErrorString "image does not support any platforms")
  | imagePlatform :: _ =>
      let single := IsManifestType (d_MediaType target) in
      let target := if single then with_platform imagePlatform target else target in
      let defaultPlatform := if single then imagePlatform else platforms_DefaultSpec in
      let cfg := foldl (λ c o, o c) (mkCC [defaultPlatform] true) opts in
      let ps := DedupePlatforms (cc_platforms cfg) in
      ociIndex <~ st_lift (newOciIndex target);;
      indexes <~ buildSociIndexesv2ForPlatforms order b target ps;;
      annotated <~ annotateImages (x_Manifests ociIndex) indexes;;
      manifests <~ st_lift (addSociIndexes annotated.1 annotated.2);;
      let ociIndex := set_manifests manifests ociIndex in
      pushed <~ pushOCIObject (ociindex_Marshal ociIndex);;
      let ociIndexDesc := mkDesc MediaTypeImageIndex (d_Digest pushed) (d_Size pushed) ∅ None "" in
      on_db (updateSociV2ArtifactReferences manifests (d_Digest ociIndexDesc));;;
      label_manifests ociIndexDesc 0 manifests;;;
      (if cc_gcRoot cfg then on_store (LabelGCRoot now_rfc3339 ociIndexDesc) else st_ret tt);;;
      st_ret ociIndexDesc
  end.
End convert.

(** ** Facts *)
Lemma index_func_Some {A} (f : A → bool) l i x : index_func f l = Some (i, x) → l !! i = Some x ∧ f x = true.
Proof.
  revert i. induction l as [|y l IH]; intros i; simpl; [done|]. destruct (f y) eqn:E; [by intros [= <- <-]|].
  destruct (index_func f l) as [[j z]|]; [|done]. intros [= <- <-]. by apply IH.
Qed.
Lemma index_func_None {A} (f : A → bool) l : index_func f l = None → ∀ x, x ∈ l → f x = false.
Proof.
  induction l as [|y l IH]; simpl; intros H x Hx; [by apply elem_of_nil in Hx|]. destruct (f y) eqn:E; [done|].
  destruct (index_func f l); [done|]. apply elem_of_cons in Hx as [->|Hx]; [done|]. by apply IH.
Qed.

Section indexes.
Context {Time : Type} `{HPl : Platforms} `{HPL : !PlatformsLaws}.
Implicit Types (im : IndexWithMetadata Time) (ms : list Descriptor).

Definition is_soci (d : Descriptor) : bool := String.eqb (d_ArtifactType d) SociIndexArtifactTypeV2.
(** The normalised platform of a SOCI index in an image index. *)
Definition soci_platform (d : Descriptor) : option Platform :=
  if is_soci d then platforms_Normalize <$> d_Platform d else None.

Lemma is_soci_index_for_spec p d : is_soci_index_for p d = true ↔ soci_platform d = Some (platforms_Normalize p).
Proof.
  unfold is_soci_index_for, soci_platform, is_soci. destruct (String.eqb _ _); simpl; [|by split].
  destruct (d_Platform d) as [q|]; simpl; [|by split]. rewrite OnlyStrict_spec, Normalize_idem.
  split; [by intros ->|by intros [= ->]].
Qed.

Lemma omap_insert_same ms i d d' : ms !! i = Some d → soci_platform d' = soci_platform d →
  omap soci_platform (<[i := d']> ms) = omap soci_platform ms.
Proof.
  revert i. induction ms as [|x ms IH]; intros [|i]; simpl; try done.
  - intros [= ->] ->. done.
  - intros Hi Hp. pose proof (IH i Hi Hp) as E. destruct (soci_platform x); [f_equal|]; exact E.
Qed.

Definition add_one ms im p : list Descriptor :=
  match index_func (is_soci_index_for p) ms with
  | Some (i, _) => <[i := with_platform p (im_Desc im)]> ms
  | None => ms ++ [with_platform p (im_Desc im)]
  end.

Lemma add_one_spec ms im p : NoDup (omap soci_platform ms) → is_soci (im_Desc im) = true →
  NoDup (omap soci_platform (add_one ms im p)) ∧
  with_platform p (im_Desc im) ∈ add_one ms im p ∧
  (∀ d, soci_platform d ≠ Some (platforms_Normalize p) → d ∈ add_one ms im p ↔ d ∈ ms).
Proof.
  intros Hnd Hs. set (d' := with_platform p (im_Desc im)).
  assert (soci_platform d' = Some (platforms_Normalize p)) as Hd'.
  { unfold soci_platform. change (is_soci d') with (is_soci (im_Desc im)). by rewrite Hs. }
  unfold add_one. fold d'. destruct (index_func _ ms) as [[i d]|] eqn:E.
  - apply index_func_Some in E as [Hi Hd%is_soci_index_for_spec]. split_and!.
    + rewrite (omap_insert_same ms i d); [done|done|congruence].
    + apply list_elem_of_lookup. exists i. rewrite list_lookup_insert_eq; [done|]. by eapply lookup_lt_Some.
    + intros x Hx. rewrite !list_elem_of_lookup. split; intros [j Hj]; exists j.
      * destruct (decide (i = j)) as [->|]; [|by rewrite list_lookup_insert_ne in Hj].
        rewrite list_lookup_insert_eq in Hj by (by eapply lookup_lt_Some). simplify_eq.
      * destruct (decide (i = j)) as [->|]; [|by rewrite list_lookup_insert_ne]. rewrite Hi in Hj. simplify_eq.
  - pose proof (index_func_None _ _ E) as Hno. split_and!.
    + rewrite omap_app. cbn [omap list_omap]. rewrite Hd'. apply list.NoDup_app. split_and!; [done| |apply NoDup_singleton].
      intros q (d & Hd & Hq)%list_elem_of_omap ->%list_elem_of_singleton.
      apply is_soci_index_for_spec in Hq. by rewrite Hno in Hq.
    + apply elem_of_app. right. by left.
    + intros x Hx. rewrite elem_of_app, list_elem_of_singleton. split; [|by left]. intros [?| ->]; [done|]. congruence.
Qed.

(** C9: an image keeps one SOCI index per platform.  Adding the new indexes puts each of them
    into the image index, replaces the SOCI index of the same platform if there is one,
    and leaves every other manifest alone; no platform ends up with two SOCI indexes. *)
Theorem addSociIndexes_spec ms ims ms' :
  NoDup (omap soci_platform ms) → Forall (λ im, is_soci (im_Desc im) = true ∧ is_Some (im_Platform im)) ims →
  NoDup ((λ im, platforms_Normalize <$> im_Platform im) <$> ims) →
  addSociIndexes ms ims = Ok ms' →
  NoDup (omap soci_platform ms') ∧
  (∀ im p, im ∈ ims → im_Platform im = Some p → with_platform p (im_Desc im) ∈ ms') ∧
  (∀ d, (∀ im p, im ∈ ims → im_Platform im = Some p → soci_platform d ≠ Some (platforms_Normalize p)) →
     d ∈ ms' ↔ d ∈ ms).
Proof.
  intros Hnd Hims. revert ms Hnd. induction Hims as [|im ims [Hs [p Hp]] _ IH]; intros ms Hnd Hdist H.
  { injection H as <-. split_and!; [done| |done]. intros im p Hin. by apply elem_of_nil in Hin. }
  cbn [addSociIndexes] in H. rewrite Hp in H. fold (add_one ms im p) in H.
  apply list.NoDup_cons in Hdist as [Hfresh Hdist].
  destruct (add_one_spec ms im p Hnd Hs) as (H1 & H2 & H3).
  destruct (IH _ H1 Hdist H) as (I1 & I2 & I3). split_and!; [done| |].
  - intros im' p' [->|Hin]%elem_of_cons Hp'; [|by apply I2].
    rewrite Hp in Hp'. injection Hp' as <-. apply I3; [|done].
    intros im'' p'' Hin'' Hp''. unfold soci_platform. change (is_soci (with_platform p (im_Desc im))) with (is_soci (im_Desc im)).
    rewrite Hs. simpl. intros [= Heq]. apply Hfresh, list_elem_of_fmap. exists im''. rewrite Hp, Hp''. simpl. by rewrite Heq.
  - intros d Hd. rewrite I3 by (intros im' p' Hin' Hp'; apply (Hd im' p'); [by right|done]). apply H3. by apply (Hd im p); [left|].
Qed.
End indexes.

(** *** Manifests are annotated *)
Section annotate.
Context {Time BS CS : Type}.
Context `{HD : Digester} `{HSt : Store BS} `{HCS : ContentStore CS} `{HJ : DocJSON}.
Context (cs : CS).
Implicit Types (ims : list (IndexWithMetadata Time)) (s : st (BS:=BS)).

Definition index_for (m : Descriptor) ims : option (nat * IndexWithMetadata Time) :=
  index_func (λ im, String.eqb (d_Digest (im_ManifestDesc im)) (d_Digest m)) ims.

(** The descriptor [m'] of the manifest that replaces the one of [m]. *)
Definition replaces (m m' : Descriptor) (im : option (IndexWithMetadata Time)) : Prop :=
  ∃ manifest content, images_Manifest cs m None = Ok manifest ∧
    manifest_Marshal (annotated_manifest manifest im) = Ok content ∧
    d_Digest m' = digest_FromBytes content ∧ d_Size m' = zlen content ∧
    d_Annotations m' = m_Annotations (annotated_manifest manifest im) ∧
    d_Platform m' = d_Platform m ∧ d_ArtifactType m' = d_ArtifactType m ∧ d_MediaType m' = MediaTypeImageManifest.

Lemma annotate_image_ok m ims s m' ims' s' : annotate_image cs m ims s = (Ok (m', ims'), s') →
  (m' = m ∧ ims' = ims ∧ index_for m ims = None ∧ ∃ e, images_Manifest cs m None = Err e) ∨
  replaces m m' (snd <$> index_for m ims) ∧
  ims' = match index_for m ims with Some (i, _) => alter (annotate_index (d_Digest m')) i ims | None => ims end.
Proof.
  unfold annotate_image. fold (index_for m ims). destruct (images_Manifest cs m None) as [manifest|e|] eqn:Em; [| |done].
  - intros (nd & s1 & Hpush & H)%st_bind_ok. apply st_bind_ok in H as (? & s2 & _ & H).
    apply st_bind_ok in H as (? & s3 & _ & H). injection H as <- <- _. right. split; [|by destruct (index_for m ims) as [[]|]].
    apply st_bind_ok in Hpush as (c & s4 & Hc & Hpush). unfold st_lift in Hc. injection Hc as Hc _.
    apply st_bind_ok in Hpush as (? & s5 & _ & Hpush). injection Hpush as <- _.
    exists manifest, c. by split_and!.
  - destruct (errors_Is e errdefs_ErrNotFound && _) eqn:E; [|done]. intros [= <- <- _]. left.
    apply andb_true_iff in E as [_ E%bool_decide_eq_true]. by eauto.
Qed.

(** The digests of the index descriptors do not change. *)
Lemma annotate_index_digests k i ims : (λ im, d_Digest (im_Desc im)) <$> alter (annotate_index k) i ims = (λ im, d_Digest (im_Desc im)) <$> ims.
Proof. revert i. induction ims as [|im ims IH]; intros [|i]; simpl; try done. f_equal. apply IH. Qed.
Lemma annotate_index_manifests k i ims : im_ManifestDesc <$> alter (annotate_index k) i ims = im_ManifestDesc <$> ims.
Proof. revert i. induction ims as [|im ims IH]; intros [|i]; simpl; try done. f_equal. apply IH. Qed.

(** The annotated manifest of an image that has an index names the index. *)
Lemma replaced_names_index m m' im : replaces m m' (Some im) →
  d_Annotations m' !! ImageAnnotationSociIndexDigest = Some (d_Digest (im_Desc im)).
Proof. intros (manifest & c & _ & _ & _ & _ & -> & _). apply lookup_insert_eq. Qed.

(** Annotating breaks SOCI indexes that are already part of the image.  Whatever manifest
    is loaded for a descriptor, the one that is pushed in its place is not a SOCI index any
    more, although the descriptor keeps the artifact type of one. *)
Theorem annotated_index_undecodable `{!DocJSONLaws} m ims s m' ims' s' :
  annotate_image cs m ims s = (Ok (m', ims'), s') → is_Some (match images_Manifest cs m None with Ok x => Some x | _ => None end) →
  ∃ content, d_Digest m' = digest_FromBytes content ∧ d_ArtifactType m' = d_ArtifactType m ∧
    UnmarshalIndex content = Err (ErrorString "unknown index version").
Proof.
  intros [(_ & _ & _ & e & He)|[Hr _]]%annotate_image_ok Hm; [rewrite He in Hm; by destruct Hm|].
  destruct Hr as (manifest & content & _ & Hc & Hdg & _ & _ & _ & Hat & _). exists content. split_and!; [done|done|].
  destruct (manifest_json (annotated_manifest manifest (snd <$> index_for m ims))) as (b & Hb & Hu & Hdec).
  rewrite Hc in Hb. injection Hb as <-. unfold UnmarshalIndex. rewrite Hdec. cbn [mbind outcome_bind].
  rewrite Hu. cbn [mbind outcome_bind]. by apply fromManifest_unknown.
Qed.
End annotate.

(** *** The database after a conversion *)
Section references.
Context {Time : Type} `{HT : GoTime Time} `{HGT : !GobTime (Time:=Time)}.

(** Entries that refer to the new image keep doing so. *)
Lemma references_kept manifests imageDigest k d d' : db_ok (Time:=Time) d →
  updateSociV2ArtifactReferences (Time:=Time) manifests imageDigest d = (Ok tt, d') →
  (∃ ae, entries (Time:=Time) d !! k = Some ae ∧ ae_ImageDigest ae = imageDigest) →
  ∃ ae, entries (Time:=Time) d' !! k = Some ae ∧ ae_ImageDigest ae = imageDigest.
Proof.
  revert d. induction manifests as [|m manifests IH]; intros d Hd H Hk; [by injection H as <-|].
  cbn [updateSociV2ArtifactReferences] in H. apply st_bind_ok in H as (? & d1 & H1 & H).
  destruct (String.eqb _ _); [|injection H1 as _ <-; by eapply IH].
  pose proof (updateReference_ok (Time:=Time) (d_Digest m)
    (default ""%string (d_Annotations m !! IndexAnnotationImageManifestDigest)) imageDigest d Hd) as Hu.
  rewrite H1 in Hu. destruct (entries d !! d_Digest m) as [ae|]; [|by destruct Hu].
  destruct Hu as (d2 & [= _ <-] & Hd1 & E1). eapply IH; [exact Hd1|exact H|].
  rewrite E1. destruct (decide (k = d_Digest m)) as [->|].
  - rewrite lookup_insert_eq. by eexists.
  - by rewrite lookup_insert_ne.
Qed.

(** A conversion either updates every SOCI index of the image or fails.  It succeeds
    exactly when each of them is in the artifacts database, and then each refers to the
    new image; if one of them is not, as after one that belongs to another platform was
    pushed again under a new digest, the conversion fails. *)
Theorem updateReferences_spec manifests imageDigest d :
  db_ok (Time:=Time) d →
  match updateSociV2ArtifactReferences (Time:=Time) manifests imageDigest d with
  | (Ok _, d') => db_ok (Time:=Time) d' ∧
      (∀ m, m ∈ manifests → is_soci m = true → is_Some (entries (Time:=Time) d !! d_Digest m)) ∧
      (∀ m, m ∈ manifests → is_soci m = true → ∃ ae, entries d' !! d_Digest m = Some ae ∧ ae_ImageDigest ae = imageDigest)
  | (Err e, _) => ∃ m, m ∈ manifests ∧ is_soci m = true ∧ entries (Time:=Time) d !! d_Digest m = None
  | (Panic, _) => False
  end.
Proof.
  revert d. induction manifests as [|m manifests IH]; intros d Hd.
  { simpl. split_and!; [done|..]; intros m Hm; by apply elem_of_nil in Hm. }
  cbn [updateSociV2ArtifactReferences]. unfold st_bind. destruct (String.eqb _ _) eqn:Es.
  2: { unfold st_ret at 1. specialize (IH d Hd). destruct (updateSociV2ArtifactReferences _ _ d) as [[[]|e|] d']; [| |done].
       - destruct IH as (I1 & I2 & I3). split_and!; [done|..]; (intros m' [->|Hm']%elem_of_cons Hs; [unfold is_soci in Hs; congruence|auto]).
       - destruct IH as (m' & ? & ? & ?). exists m'. split_and!; [by right|done|done]. }
  pose proof (updateReference_ok (Time:=Time) (d_Digest m)
    (default ""%string (d_Annotations m !! IndexAnnotationImageManifestDigest)) imageDigest d Hd) as Hu.
  destruct (entries d !! d_Digest m) as [ae|] eqn:Ee.
  2: { destruct Hu as (e & ->). exists m. split_and!; [by left|done|done]. }
  destruct Hu as (d1 & -> & Hd1 & E1). specialize (IH d1 Hd1).
  assert (∀ k, is_Some (entries (Time:=Time) d1 !! k) ↔ is_Some (entries (Time:=Time) d !! k)) as Hdom.
  { intros k. rewrite E1. destruct (decide (k = d_Digest m)) as [->|]; [|by rewrite lookup_insert_ne].
    rewrite lookup_insert_eq, Ee. by split; intros _; eexists. }
  destruct (updateSociV2ArtifactReferences _ _ d1) as [[[]|e|] d'] eqn:Eu; [| |done].
  - destruct IH as (I1 & I2 & I3). split_and!; [done| |].
    + intros m' [->|Hm']%elem_of_cons Hs; [by rewrite Ee|]. apply Hdom. by apply I2.
    + intros m' [->|Hm']%elem_of_cons Hs; [|by apply I3].
      apply (references_kept manifests imageDigest (d_Digest m) d1 d' Hd1 Eu).
      rewrite E1, lookup_insert_eq. by eexists.
  - destruct IH as (m' & ? & ? & Hn). exists m'. split_and!; [by right|done|].
    apply eq_None_not_Some. rewrite <-Hdom. by apply eq_None_not_Some.
Qed.
End references.
