(* ===== verification/SnapshotHost.v ===== *)
(** * What the snapshotter runs on

    The directory [{root}/snapshots] as the snapshotter uses it, with system calls that may
    fail; containerd's metadata store (its package [storage]) and the file system service
    as interfaces with the behaviour their documentation promises. *)
From Stdlib Require Import ZArith Lia.
From stdpp Require Import base list gmap strings numbers infinite.
From S2P Require Import Prelude GoLib IDMap Oci.
#[local] Open Scope Z_scope.

Abbreviation labels := (gmap string string).

(** ** Directories

    An entry of [{root}/snapshots] and a directory inside of it; [sub] is empty for the
    entry itself. *)
Record path := mkPath { p_entry : string; p_sub : string }.

Definition os_ErrExist : error := Sentinel "file exists".
Definition os_ErrNotExist : error := Sentinel "file does not exist".

(** Errors of system calls at any time; [EEXIST] comes only of the directories. *)
Inductive errno := ENOENT | EOTHER (msg : string).
Definition errno_error (e : errno) : error :=
  match e with ENOENT => os_ErrNotExist | EOTHER msg => ErrorString msg end.

(** The entries, each with its directories and their owners; what the kernel and the file
    system service keep besides. Every call may fail: [faults] says at which ticks. *)
Record host (F : Type) := mkHost {
  tree : gmap string (gmap string (Z * Z));
  fsys : F;
  faults : nat → option errno;
  clock : nat
}.
Arguments mkHost {F}.
Arguments tree {F}.
Arguments fsys {F}.
Arguments faults {F}.
Arguments clock {F}.

Section os.
Context {F : Type}.
Implicit Types (h : host F).

Definition set_tree t h : host F := mkHost t (fsys h) (faults h) (clock h).

Definition syscall {A} (f : ST (host F) A) : ST (host F) A := λ h,
  let h' := mkHost (tree h) (fsys h) (faults h) (S (clock h)) in
  match faults h (clock h) with
  | Some e => (Err (errno_error e), h')
  | None => f h'
  end.

(** [os.MkdirTemp(snapshotDir, "new-")]: a name that is not in use. *)
Definition temp_name h : string :=
  "new-" +:+ fresh (set_map (C:=gset string) (D:=gset string) (str_drop 4) (dom (tree h))).
Definition os_MkdirTemp : ST (host F) string := syscall (λ h,
  (Ok (temp_name h), set_tree (<[temp_name h := ∅]> (tree h)) h)).

(** Directories are made by root. *)
Definition os_Mkdir (p : path) : ST (host F) () := syscall (λ h,
  if String.eqb (p_sub p) "" then
    match tree h !! p_entry p with
    | Some _ => (Err os_ErrExist, h)
    | None => (Ok tt, set_tree (<[p_entry p := ∅]> (tree h)) h)
    end
  else match tree h !! p_entry p with
  | None => (Err os_ErrNotExist, h)
  | Some subs =>
      match subs !! p_sub p with
      | Some _ => (Err os_ErrExist, h)
      | None => (Ok tt, set_tree (<[p_entry p := <[p_sub p := (0, 0)]> subs]> (tree h)) h)
      end
  end).

Definition find_dir (p : path) h : option (Z * Z) := subs ← tree h !! p_entry p; subs !! p_sub p.

(** The owner of a directory inside an entry. *)
Definition os_Stat (p : path) : ST (host F) (Z * Z) := syscall (λ h,
  (match find_dir p h with Some o => Ok o | None => Err os_ErrNotExist end, h)).
Definition os_Lchown (p : path) (owner : Z * Z) : ST (host F) () := syscall (λ h,
  match find_dir p h with
  | Some _ => (Ok tt, set_tree (alter (<[p_sub p := owner]>) (p_entry p) (tree h)) h)
  | None => (Err os_ErrNotExist, h)
  end).

(** Renaming a directory fails when the target is a directory that is not empty. *)
Definition os_Rename (old new : string) : ST (host F) () := syscall (λ h,
  match tree h !! old with
  | None => (Err os_ErrNotExist, h)
  | Some subs =>
      if bool_decide (default ∅ (tree h !! new) = ∅)
      then (Ok tt, set_tree (<[new := subs]> (delete old (tree h))) h)
      else (Err os_ErrExist, h)
  end).

Definition os_RemoveAll (d : string) : ST (host F) () := syscall (λ h, (Ok tt, set_tree (delete d (tree h)) h)).

Definition os_Readdirnames : ST (host F) (list string) := syscall (λ h, (Ok (map_to_list (tree h)).*1, h)).
End os.

(** ** containerd's data *)
Inductive Kind := KindView | KindActive | KindCommitted.
#[global] Instance Kind_eq_dec : EqDecision Kind.
Proof. solve_decision. Defined.

Record Info := mkInfo { Info_Kind : Kind; Info_Name : string; Info_Parent : string; Info_Labels : labels }.
Record Snapshot := mkSnapshot { Snap_Kind : Kind; Snap_ID : string; ParentIDs : list string }.
Record Usage := mkUsage { u_Inodes : Z; u_Size : Z }.
Record Mount := mkMount { Mount_Type : string; Mount_Source : string; Mount_Options : list string }.
#[global] Instance Mount_eq_dec : EqDecision Mount.
Proof. solve_decision. Defined.

(** A [snapshots.Opt] changes the info of a snapshot; the ones that are used set labels. *)
Definition Opt : Type := labels → outcome labels.
Fixpoint apply_opts (l : labels) (opts : list Opt) : outcome labels :=
  match opts with
  | [] => Ok l
  | o :: opts' => l' ← o l; apply_opts l' opts'
  end.

Definition IsAlreadyExists (e : error) : bool := errors_Is e errdefs_ErrAlreadyExists.
Definition IsNotFound (e : error) : bool := errors_Is e errdefs_ErrNotFound.

(** ** The metadata store

    [ms_Begin] is [TransactionContext], [ms_Commit] the [Commit] of a transaction. *)
Class MetaStore (M : Type) := {
  ms_Begin : bool → M → outcome ();
  ms_Commit : M → outcome ();
  GetInfo : string → M → outcome (string * Info * Usage);
  GetSnapshot : string → M → outcome Snapshot;
  UpdateInfo : Info → list string → ST M Info;
  storage_CreateSnapshot : Kind → string → string → list Opt → ST M Snapshot;
  CommitActive : string → string → Usage → list Opt → ST M string;
  storage_Remove : string → ST M (string * Kind);
  storage_IDMap : M → outcome (gmap string string);
  WalkInfo : M → outcome (list Info);
  ms_Close : ST M ();
  snapshots_WithLabels : labels → Opt
}.

(** ** The file system service and other libraries, over the host *)
Class FileSystem (F : Type) := {
  fs_Mount : option string → path → labels → ST (host F) ();
  fs_Check : path → labels → ST (host F) ();
  fs_Unmount : path → ST (host F) ();
  fs_MountLocal : option string → path → labels → list Mount → ST (host F) ();
  fs_MountParallel : option string → path → labels → list Mount → ST (host F) ();
  fs_IDMapMount : path → string → IDMap → ST (host F) ();
  fs_IDMapMountLocal : path → string → IDMap → ST (host F) ();
  fs_CleanImage : string → ST (host F) ();
  (* [fs.DiskUsage], [mountinfo.Mounted], [mountinfo.GetMounts], [syscall.Unmount],
     [idtools.RemapRootFS], [idtools.RemapRoot] *)
  DiskUsage : path → ST (host F) Usage;
  Mounted : path → ST (host F) bool;
  GetMounts : ST (host F) (list string);
  syscall_Unmount : string → ST (host F) ();
  RemapRootFS : list Mount → IDMap → ST (host F) ();
  RemapRoot : path → IDMap → ST (host F) ()
}.
