(* ===== verification/Snapshot.v ===== *)
(** * The snapshotter

    Models [snapshot/snapshot.go]: containerd asks it to prepare, mount, commit and remove
    snapshots; a snapshot of an image layer is mounted lazily through the file system
    service if it can be, and unpacked otherwise.  A write transaction of the metadata
    store that is neither committed nor rolled back blocks every later one for ever, which
    is the outcome [Panic] here. *)
From Stdlib Require Import ZArith Lia Ascii.
From stdpp Require Import base list gmap strings numbers.
From S2P Require Import Prelude GoLib IDMap Oci ArtifactsDb SnapshotHost.
#[local] Open Scope Z_scope.

Definition targetSnapshotLabel : string := "containerd.io/snapshot.ref".
Definition remoteLabel : string := "containerd.io/snapshot/remote".
Definition remoteLabelVal : string := "remote snapshot".

Definition ErrNoIndex : error := Sentinel "no valid SOCI index found".
Definition ErrNoZtoc : error := Sentinel "no ztoc for layer".
Definition ErrNoNamespace : error := Sentinel "context has no namespace attached".
Definition errdefs_ErrUnavailable : error := Sentinel "unavailable".

(** Labels of [fs/source/source.go] and of containerd's package [snapshotters]. *)
Definition TargetSizeLabel : string := "containerd.io/snapshot/remote/soci.size".
Definition TargetNamespace : string := "containerd.io/snapshot/remote/namespace".
Definition HasSociIndexDigest : string := "containerd.io/snapshot/remote/has.soci.index.digest".
Definition TargetManifestDigestLabel : string := "containerd.io/snapshot/cri.manifest-digest".

(** [SnapshotterConfig], with the root directory and what [NeedsUserXAttr] says of it. *)
Record SnapshotterConfig := mkSC {
  asyncRemove : bool;
  minLayerSize : Z;
  allowInvalidMountsOnRestart : bool;
  parallelPullUnpack : bool;
  parallelPullAsFallback : bool
}.
Definition SOpt : Type := SnapshotterConfig → SnapshotterConfig.
Definition WithAsynchronousRemove : SOpt := λ c,
  mkSC true (minLayerSize c) (allowInvalidMountsOnRestart c) (parallelPullUnpack c) (parallelPullAsFallback c).
Definition WithMinLayerSize (n : Z) : SOpt := λ c,
  mkSC (asyncRemove c) n (allowInvalidMountsOnRestart c) (parallelPullUnpack c) (parallelPullAsFallback c).
Definition AllowInvalidMountsOnRestart : SOpt := λ c,
  mkSC (asyncRemove c) (minLayerSize c) true (parallelPullUnpack c) (parallelPullAsFallback c).
Definition ParallelPullUnpack : SOpt := λ c,
  mkSC (asyncRemove c) (minLayerSize c) (allowInvalidMountsOnRestart c) true (parallelPullAsFallback c).
Definition ParallelPullAsFallback : SOpt := λ c,
  mkSC (asyncRemove c) (minLayerSize c) (allowInvalidMountsOnRestart c) (parallelPullUnpack c) true.

(** The state: the metadata store, the host, the ids of snapshots with id-mapped parents,
    and whether a write transaction was left open. *)
Record state (M F : Type) := mkState {
  ms : M;
  hst : host F;
  idmapped : gset string;
  tx_open : bool
}.
Arguments mkState {M F}.
Arguments ms {M F}.
Arguments hst {M F}.
Arguments idmapped {M F}.
Arguments tx_open {M F}.

(** ** Paths *)
Definition upperPath (id : string) : path := mkPath id "fs".
Definition workPath (id : string) : path := mkPath id "work".

(** [filepath.Join] of a clean root. *)
Definition path_string (root : string) (p : path) : string :=
  root +:+ "/snapshots/" +:+ p_entry p +:+ (if String.eqb (p_sub p) "" then "" else "/" +:+ p_sub p).

Fixpoint strings_Join (sep : string) (l : list string) : string :=
  match l with
  | [] => ""
  | [x] => x
  | x :: l' => x +:+ sep +:+ strings_Join sep l'
  end.

(** [strings.Split(s, "_")]. *)
Fixpoint split_underscore (s : string) : list string :=
  match s with
  | EmptyString => [EmptyString]
  | String c s' =>
      if Ascii.eqb c "_"%char then EmptyString :: split_underscore s'
      else match split_underscore s' with
           | x :: xs => String c x :: xs
           | [] => [String c EmptyString]
           end
  end.

(** The snapshot an entry of the directory belongs to: [1_2] to snapshot 2. *)
Definition cleanupID (d : string) : string :=
  match split_underscore d with
  | _ :: x :: _ => x
  | _ => d
  end.
Definition idmapped_entry (id active : string) : string := id +:+ "_" +:+ active.

Section snapshotter.
Context {M F : Type} `{HM : MetaStore M} `{HF : FileSystem F}.
Context (root : string) (userxattr : bool) (o : SnapshotterConfig).
Abbreviation st := (state M F).
Implicit Types (s : st) (sn : Snapshot).
Local Open Scope go_scope.

Definition set_ms m s : st := mkState m (hst s) (idmapped s) (tx_open s).
Definition set_hst h s : st := mkState (ms s) h (idmapped s) (tx_open s).

Definition on_ms {A} (f : ST M A) : ST st A := λ s, let '(r, m) := f (ms s) in (r, set_ms m s).
Definition on_host {A} (f : ST (host F) A) : ST st A := λ s, let '(r, h) := f (hst s) in (r, set_hst h s).

(** Read transactions see the store as it is; their [Rollback] ends them. *)
Definition view_tx {A} (f : M → outcome A) : ST st A := λ s,
  (match ms_Begin false (ms s) with Ok _ => f (ms s) | Err e => Err e | Panic => Panic end, s).

Definition begin_write : ST st () := λ s,
  if tx_open s then (Panic, s) else (ms_Begin true (ms s), s).

(** A write transaction that is rolled back when [f] or [Commit] fails. *)
Definition write_tx {A} (f : ST st A) : ST st A := λ s,
  match begin_write s with
  | (Ok _, s0) =>
      match f s0 with
      | (Ok a, s1) =>
          match ms_Commit (ms s1) with
          | Ok _ => (Ok a, s1)
          | Err e => (Err e, set_ms (ms s0) s1)
          | Panic => (Panic, s1)
          end
      | (Err e, s1) => (Err e, set_ms (ms s0) s1)
      | (Panic, s1) => (Panic, s1)
      end
  | (Err e, s0) => (Err e, s0)
  | (Panic, s0) => (Panic, s0)
  end.

Definition Stat (key : string) : ST st Info :=
  r <~ view_tx (GetInfo key);;
  st_ret r.1.2.

Definition Update (info : Info) (fieldpaths : list string) : ST st Info :=
  write_tx (on_ms (UpdateInfo info fieldpaths)).

Definition Usage_ (key : string) : ST st Usage :=
  r <~ view_tx (GetInfo key);;
  let '(id, info, usage) := r in
  if bool_decide (Info_Kind info = KindActive) then on_host (DiskUsage (upperPath id)) else st_ret usage.

(** The infos the callback is called with. *)
Definition Walk : ST st (list Info) := view_tx WalkInfo.

(** ** Availability of the lower layers

    The goroutines that check run in the order of the chain; all of them run. *)
Fixpoint check_chain (fuel : nat) (cKey : string) : ST st bool := λ s,
  if String.eqb cKey "" then (Ok true, s)
  else match fuel with
  | O => (Panic, s)
  | S fuel =>
      match GetInfo cKey (ms s) with
      | Ok (id, info, _) =>
          let '(r, s1) := match Info_Labels info !! remoteLabel with
                          | Some _ => on_host (fs_Check (upperPath id) (Info_Labels info)) s
                          | None => (Ok tt, s)
                          end in
          match r with
          | Panic => (Panic, s1)
          | _ => (rest <~ check_chain fuel (Info_Parent info);; st_ret (is_ok r && rest)) s1
          end
      | Err _ => (Ok false, s)
      | Panic => (Panic, s)
      end
  end.

(** A chain is not longer than the number of snapshots. *)
Definition chain_fuel (m : M) : nat := S (match storage_IDMap m with Ok ids => size ids | _ => 0%nat end).

Definition checkAvailability (key : string) : ST st bool := λ s,
  match ms_Begin false (ms s) with
  | Ok _ => check_chain (chain_fuel (ms s)) key s
  | Err _ => (Ok false, s)
  | Panic => (Panic, s)
  end.

(** ** Mounts *)
Definition bind_mount (source : string) (flag : string) : list Mount := [mkMount "bind" source [flag; "rbind"]].

Definition getParentPaths (idm : gset string) sn : list string :=
  (λ id, path_string root (upperPath (if bool_decide (Snap_ID sn ∈ idm) then idmapped_entry id (Snap_ID sn) else id)))
    <$> ParentIDs sn.

Definition overlay_mount (idm : gset string) sn (options : list string) : list Mount :=
  [mkMount "overlay" "overlay"
     (options ++ ["lowerdir=" +:+ strings_Join ":" (getParentPaths idm sn)]
              ++ (if userxattr then ["userxattr"] else []))].

Definition mounts_of (idm : gset string) sn : list Mount :=
  match ParentIDs sn with
  | [] => bind_mount (path_string root (upperPath (Snap_ID sn)))
            (if bool_decide (Snap_Kind sn = KindView) then "ro" else "rw")
  | p :: rest =>
      if bool_decide (Snap_Kind sn = KindActive) then
        overlay_mount idm sn ["workdir=" +:+ path_string root (workPath (Snap_ID sn));
                              "upperdir=" +:+ path_string root (upperPath (Snap_ID sn))]
      else match rest with
      | [] => bind_mount (path_string root (upperPath p)) "ro"
      | _ => overlay_mount idm sn []
      end
  end.

Definition mounts sn (checkKey : string) : ST st (list Mount) :=
  available <~ (if String.eqb checkKey "" then st_ret true else checkAvailability checkKey);;
  if negb available then st_err (Wrap "layer unavailable" errdefs_ErrUnavailable)
  else λ s, (Ok (mounts_of (idmapped s) sn), s).

Definition Mounts (key : string) : ST st (list Mount) :=
  sn <~ st_map_err (Wrap "failed to get active mount") (view_tx (GetSnapshot key));;
  mounts sn key.

(** ** Id-mapped mounts *)
Definition createIDMapMount (id active : string) (idmap : IDMap) : ST st () := λ s,
  match on_host (fs_IDMapMount (upperPath id) active idmap) s with
  | (Err e, s1) =>
      if IsNotFound e then
        (on_host (os_RemoveAll (idmapped_entry id active));;;
         on_host (fs_IDMapMountLocal (upperPath id) active idmap)) s1
      else (Err e, s1)
  | r => r
  end.

Fixpoint create_mounts (ids : list string) (active : string) (idmap : IDMap) : ST st () :=
  match ids with
  | [] => st_ret tt
  | id :: ids' => createIDMapMount id active idmap;;; create_mounts ids' active idmap
  end.
Definition createIDMapMounts sn (idmap : IDMap) : ST st () :=
  create_mounts (ParentIDs sn) (Snap_ID sn) idmap;;;
  on_host (RemapRoot (upperPath (Snap_ID sn)) idmap).

Definition store_idmapped (id : string) : ST st () := λ s,
  (Ok tt, mkState (ms s) (hst s) ({[id]} ∪ idmapped s) (tx_open s)).

Definition setupIDMap sn (parent : string) (l : labels) : ST st () :=
  idmap <~ st_lift (LoadIDMap l);;
  if Empty idmap then st_ret tt
  else
    parentSnapshot <~ Stat parent;;
    match Info_Labels parentSnapshot !! HasSociIndexDigest with
    | None =>
        mnts <~ mounts sn parent;;
        on_host (RemapRootFS mnts idmap)
    | Some _ =>
        store_idmapped (Snap_ID sn);;;
        createIDMapMounts sn idmap
    end.

(** ** Removing directories *)
Definition unmountSnapshotDirectory (d : string) : ST st () := λ s,
  match on_host (Mounted (mkPath d "fs")) s with
  | (Ok true, s1) => on_host (fs_Unmount (mkPath d "fs")) s1
  | (Ok false, s1) => (Ok tt, s1)
  | (Err e, s1) => if errors_Is e os_ErrNotExist then (Ok tt, s1) else (Err e, s1)
  | (Panic, s1) => (Panic, s1)
  end.

Definition cleanupSnapshotDirectory (d : string) : ST st () :=
  st_map_err (Wrap "failed to unmount directory") (unmountSnapshotDirectory d);;;
  st_map_err (Wrap "failed to remove directory") (on_host (os_RemoveAll d)).

(** Errors are logged. *)
Fixpoint each_logged (f : string → ST st ()) (ds : list string) : ST st () := λ s,
  match ds with
  | [] => (Ok tt, s)
  | d :: ds' =>
      match f d s with
      | (Panic, s1) => (Panic, s1)
      | (_, s1) => each_logged f ds' s1
      end
  end.

(** The entries of the directory whose snapshot is not in the store. *)
Definition stale (ids : gmap string string) (cleanupCommitted : bool) (d : string) : bool :=
  cleanupCommitted || bool_decide (ids !! cleanupID d = None).
Definition getCleanupDirectories (m : M) (cleanupCommitted : bool) : ST st (list string) :=
  ids <~ st_lift (storage_IDMap m);;
  on_host (syscall st_get);;;   (* os.Open *)
  dirs <~ on_host os_Readdirnames;;
  st_ret (List.filter (stale ids cleanupCommitted) dirs).

Definition cleanupDirectories (cleanupCommitted : bool) : ST st (list string) :=
  begin_write;;;
  s <~ st_get;;
  getCleanupDirectories (ms s) cleanupCommitted.

Definition cleanup (cleanupCommitted : bool) : ST st () :=
  dirs <~ cleanupDirectories cleanupCommitted;;
  each_logged cleanupSnapshotDirectory dirs.
Definition Cleanup : ST st () := cleanup false.

Definition unmountAllSnapshots (cleanupCommitted : bool) : ST st () :=
  dirs <~ cleanupDirectories cleanupCommitted;;
  each_logged unmountSnapshotDirectory dirs.
Definition Close : ST st () := λ s,
  match unmountAllSnapshots true s with
  | (Panic, s1) => (Panic, s1)
  | (_, s1) => on_ms ms_Close s1
  end.

(** ** Creating snapshots *)

(** The directory is returned with an error, too; empty when there is none. *)
Definition prepareDirectory (kind : Kind) : host F → string * outcome () * host F := λ h,
  match os_MkdirTemp h with
  | (Ok td, h1) =>
      let '(r, h2) := (os_Mkdir (mkPath td "fs");;;
                       if bool_decide (kind = KindActive) then os_Mkdir (mkPath td "work") else st_ret tt) h1 in
      (td, r, h2)
  | (Err e, h1) => ("", Err (Wrap "failed to create temp dir" e), h1)
  | (Panic, h1) => ("", Panic, h1)
  end.

(** The new directory gets the owner of the parent's. *)
Definition chown_to_parent sn (td : string) : ST (host F) () :=
  match ParentIDs sn with
  | [] => st_ret tt
  | p :: _ =>
      owner <~ st_map_err (Wrap "failed to stat parent") (os_Stat (upperPath p));;
      st_map_err (Wrap "failed to chown") (os_Lchown (mkPath td "fs") owner)
  end.

(** Inside the transaction, with the variables [td] and [path] as they are at the end. *)
Definition create_in_tx (kind : Kind) (key parent : string) (opts : list Opt) (td : string) :
    st → outcome Snapshot * (string * string) * st := λ s,
  match storage_CreateSnapshot kind key parent opts (ms s) with
  | (Err e, _) => (Err (Wrap "failed to create snapshot" e), (td, ""%string), s)
  | (Panic, _) => (Panic, (td, ""%string), s)
  | (Ok sn, m) =>
      match on_host (chown_to_parent sn td) s with
      | (Err e, s1) => (Err e, (td, ""%string), s1)
      | (Panic, s1) => (Panic, (td, ""%string), s1)
      | (Ok _, s1) =>
          let path := Snap_ID sn in
          match on_host (os_Rename td path) s1 with
          | (Err e, s2) => (Err (Wrap "failed to rename" e), (td, path), s2)
          | (Panic, s2) => (Panic, (td, path), s2)
          | (Ok _, s2) =>
              match ms_Commit m with
              | Ok _ => (Ok sn, (""%string, path), set_ms m s2)
              | Err e => (Err (Wrap "commit failed" e), (""%string, path), s2)
              | Panic => (Panic, (""%string, path), s2)
              end
          end
      end
  end.

(** The deferred clean-up of a failed call. *)
Definition reclaim (td path : string) (err : error) : st → outcome Snapshot * st := λ s,
  let '(r1, s1) := if String.eqb td "" then (Ok tt, s) else cleanupSnapshotDirectory td s in
  let '(r2, s2) := if String.eqb path "" then (Ok tt, s1) else cleanupSnapshotDirectory path s1 in
  match r1, r2 with
  | Panic, _ => (Panic, s1)
  | _, Panic => (Panic, s2)
  | _, Err err1 => (Err (Wrap "failed to remove path" (Join err1 err)), s2)
  | _, _ => (Err err, s2)
  end.

Definition createSnapshot (kind : Kind) (key parent : string) (opts : list Opt) : ST st Snapshot := λ s,
  match begin_write s with
  | (Err e, s0) => (Err e, s0)
  | (Panic, s0) => (Panic, s0)
  | (Ok _, s0) =>
      let '(td, r, h) := prepareDirectory kind (hst s0) in
      let s1 := set_hst h s0 in
      match r with
      | Panic => (Panic, s1)
      | Err e => reclaim td "" (Wrap "failed to create prepare snapshot dir" e) s1
      | Ok _ =>
          match create_in_tx kind key parent opts td s1 with
          | (Ok sn, _, s2) => (Ok sn, s2)
          | (Err e, (td, path), s2) => reclaim td path e s2
          | (Panic, _, s2) => (Panic, s2)
          end
      end
  end.

Definition View (key parent : string) (opts : list Opt) : ST st (list Mount) :=
  sn <~ createSnapshot KindView key parent opts;;
  mounts sn parent.

(** ** Committing

    The error of [DiskUsage] is a variable of its own, so that the deferred function does
    not see it and the transaction stays open. *)
Definition commit (isRemote : bool) (name key : string) (opts : list Opt) : ST st () := λ s,
  match begin_write s with
  | (Err e, s0) => (Err e, s0)
  | (Panic, s0) => (Panic, s0)
  | (Ok _, s0) =>
      match GetInfo key (ms s0) with
      | Err e => (Err e, s0)
      | Panic => (Panic, s0)
      | Ok (id, _, usage) =>
          match (if isRemote then (Ok usage, s0) else on_host (DiskUsage (upperPath id)) s0) with
          | (Err e, s1) => (Err e, mkState (ms s1) (hst s1) (idmapped s1) true)
          | (Panic, s1) => (Panic, s1)
          | (Ok usage, s1) =>
              match CommitActive key name usage opts (ms s1) with
              | (Err e, _) => (Err (Wrap "failed to commit snapshot" e), s1)
              | (Panic, _) => (Panic, s1)
              | (Ok _, m) =>
                  match ms_Commit m with
                  | Ok _ => (Ok tt, set_ms m s1)
                  | Err e => (Err e, s1)
                  | Panic => (Panic, s1)
                  end
              end
          end
      end
  end.
Definition Commit (name key : string) (opts : list Opt) : ST st () := commit false name key opts.

(** ** Removing *)
Definition remove_in_tx (key : string) : ST st (Info * list string) :=
  s <~ st_get;;
  r <~ st_lift (map_err (Wrap "failed to get info when removing") (GetInfo key (ms s)));;
  st_map_err (Wrap "failed to remove") (on_ms (storage_Remove key));;;
  s <~ st_get;;
  removals <~ (if asyncRemove o then st_ret []
               else st_map_err (Wrap "unable to get directories for removal") (getCleanupDirectories (ms s) false));;
  st_ret (r.1.2, removals).

Definition Remove (key : string) : ST st () :=
  r <~ write_tx (remove_in_tx key);;
  st_map_err (Wrap "error cleaning image operations")
    (on_host (fs_CleanImage (default "" (Info_Labels r.1 !! TargetManifestDigestLabel))));;;
  each_logged cleanupSnapshotDirectory r.2.

(** ** Preparing *)
Definition skipRemoteSnapshotPrepare (l : labels) : bool :=
  parallelPullUnpack o ||
  (0 <? minLayerSize o) &&
  match l !! TargetSizeLabel with
  | Some strVal => match ParseInt strVal with Ok intVal => intVal <? minLayerSize o | _ => false end
  | None => false
  end.

Definition prepareRemoteSnapshot (ns : option string) (key : string) (l : labels) : ST st () :=
  r <~ view_tx (GetInfo key);;
  on_host (fs_Mount ns (upperPath r.1.1) l).
Definition prepareLocalSnapshot (ns : option string) (key : string) (l : labels) (mnts : list Mount) : ST st () :=
  r <~ view_tx (GetInfo key);;
  on_host (fs_MountLocal ns (upperPath r.1.1) l mnts).
Definition prepareParallelPullSnapshot (ns : option string) (key : string) (l : labels) (mnts : list Mount) : ST st () :=
  r <~ view_tx (GetInfo key);;
  on_host (fs_MountParallel ns (upperPath r.1.1) l mnts).

(** Commit as [target]; success is reported as [ErrAlreadyExists]. *)
Definition commit_target (isRemote : bool) (target key : string) (opts : list Opt) (l : labels) : ST st (list Mount) := λ s,
  match commit isRemote target key (opts ++ [snapshots_WithLabels l]) s with
  | (Ok _, s1) => (Err (Wrap "target snapshot" errdefs_ErrAlreadyExists), s1)
  | (Err e, s1) =>
      if IsAlreadyExists e then (Err (Wrap "target snapshot" errdefs_ErrAlreadyExists), s1) else (Err e, s1)
  | (Panic, s1) => (Panic, s1)
  end.

(** What to do when the layer is not mounted lazily. *)
Definition prepare_fallback (sn : Snapshot) (ns : option string) (target key parent : string) (opts : list Opt)
    (l : labels) (deferToContainerRuntime : bool) : ST st (list Mount) :=
  mnts <~ mounts sn parent;;
  if deferToContainerRuntime && negb (parallelPullUnpack o || parallelPullAsFallback o) then st_ret mnts
  else
    let parallel := parallelPullUnpack o || (parallelPullAsFallback o && deferToContainerRuntime) in
    λ s,
      match (if parallel then prepareParallelPullSnapshot ns key l mnts s else prepareLocalSnapshot ns key l mnts s) with
      | (Ok _, s1) =>
          commit_target false target key opts (if parallel then l else <[HasSociIndexDigest := "true"]> l) s1
      | (Err e, s1) => if parallel then (Err e, s1) else (Ok mnts, s1)
      | (Panic, s1) => (Panic, s1)
      end.

Definition prepare_layer (sn : Snapshot) (ns : option string) (target key parent : string) (opts : list Opt)
    (l : labels) : ST st (list Mount) := λ s,
  if skipRemoteSnapshotPrepare l then prepare_fallback sn ns target key parent opts l false s
  else match prepareRemoteSnapshot ns key l s with
  | (Ok _, s1) =>
      commit_target true target key opts (<[HasSociIndexDigest := "true"]> (<[remoteLabel := remoteLabelVal]> l)) s1
  | (Err e, s1) =>
      prepare_fallback sn ns target key parent opts l (negb (errors_Is e ErrNoZtoc) && errors_Is e ErrNoIndex) s1
  | (Panic, s1) => (Panic, s1)
  end.

(** [ns] is the namespace of the context, if it has one. *)
Definition Prepare (ns : option string) (key parent : string) (opts : list Opt) : ST st (list Mount) :=
  sn <~ createSnapshot KindActive key parent opts;;
  base <~ st_lift (apply_opts ∅ opts);;
  match base !! targetSnapshotLabel with
  | None =>
      setupIDMap sn parent base;;;
      mounts sn parent
  | Some target =>
      match ns with
      | None => st_err ErrNoNamespace
      | Some n => prepare_layer sn ns target key parent opts (<[TargetNamespace := n]> base)
      end
  end.

(** ** Start-up *)
Fixpoint unmount_under_root (mps : list string) : ST (host F) () :=
  match mps with
  | [] => st_ret tt
  | mp :: mps' =>
      (if HasPrefix mp (root +:+ "/snapshots")
       then st_map_err (Wrap "failed to unmount") (syscall_Unmount mp) else st_ret tt);;;
      unmount_under_root mps'
  end.

(** An existing directory is fine. *)
Definition ensure_dir (p : path) : ST st () := λ s,
  match on_host (os_Mkdir p) s with
  | (Err e, s1) => if errors_Is e os_ErrExist then (Ok tt, s1) else (Err e, s1)
  | r => r
  end.

Definition restore_dirs (name : string) : ST st () :=
  r <~ view_tx (GetInfo name);;
  ensure_dir (mkPath r.1.1 "");;;
  ensure_dir (upperPath r.1.1).

Fixpoint restore_tasks (task : list Info) : ST st () :=
  match task with
  | [] => st_ret tt
  | info :: task' =>
      st_map_err (Wrap "failed to create remote snapshot directory") (restore_dirs (Info_Name info));;;
      match Info_Labels info !! TargetNamespace with
      | None => st_err ErrNoNamespace
      | Some ns => λ s,
          match prepareRemoteSnapshot (Some ns) (Info_Name info) (Info_Labels info) s with
          | (Ok _, s1) => restore_tasks task' s1
          | (Err e, s1) => if allowInvalidMountsOnRestart o then restore_tasks task' s1
                           else (Err (Wrap "failed to prepare remote snapshot" e), s1)
          | (Panic, s1) => (Panic, s1)
          end
      end
  end.

Definition is_remote (info : Info) : bool := bool_decide (is_Some (Info_Labels info !! remoteLabel)).

Definition restoreRemoteSnapshot : ST st () :=
  mps <~ on_host GetMounts;;
  on_host (unmount_under_root mps);;;
  λ s,
    match Walk s with
    | (Ok infos, s1) => restore_tasks (List.filter is_remote infos) s1
    | (Err e, s1) => if IsNotFound e then restore_tasks [] s1 else (Err e, s1)
    | (Panic, s1) => (Panic, s1)
    end.
End snapshotter.

(** [setup] is what making the root and opening the store there yields. *)
Definition NewSnapshotter {M F} `{MetaStore M, FileSystem F} (root : string) (userxattr : bool) (opts : list SOpt)
    (setup : outcome M) (h : host F) : outcome (SnapshotterConfig * state M F) * host F :=
  let config := foldl (λ c o, o c) (mkSC false 0 false false false) opts in
  match setup with
  | Err e => (Err e, h)
  | Panic => (Panic, h)
  | Ok m =>
      match restoreRemoteSnapshot root config (mkState m h ∅ false) with
      | (Ok _, s) => (Ok (config, s), hst s)
      | (Err e, s) => (Err (Wrap "failed to restore remote snapshot" e), hst s)
      | (Panic, s) => (Panic, hst s)
      end
  end.
