(* ===== verification/SnapshotFacts.v ===== *)
(** * Facts about the snapshotter

    What containerd's metadata store and the file system service promise, and what follows
    for the snapshotter: the directories of live snapshots are never removed, the answers
    of [Prepare] mean what containerd takes them to mean, checks of the lower layers end. *)
From Stdlib Require Import ZArith Lia Ascii.
From stdpp Require Import base list gmap strings numbers infinite.
From S2P Require Import Prelude GoLib IDMap Oci ArtifactsDb ForeignErrors SnapshotHost Snapshot.
#[local] Open Scope Z_scope.

(** ** What the metadata store promises

    It is a map from keys to snapshots.  Ids are unique and hold no underscore, parents are
    in the store, committed, and older than their children. *)
Record entry := mkEntry { e_id : string; e_seq : Z; e_info : Info; e_usage : Usage }.
Definition e_kind (e : entry) : Kind := Info_Kind (e_info e).
Definition e_parent (e : entry) : string := Info_Parent (e_info e).

Fixpoint no_underscore (s : string) : bool :=
  match s with
  | EmptyString => true
  | String c s' => negb (Ascii.eqb c "_"%char) && no_underscore s'
  end.

(** The ids of a snapshot and of its ancestors. *)
Inductive chain_ids (v : gmap string entry) : string → list string → Prop :=
| chain_nil : chain_ids v "" []
| chain_cons k e ids : k ≠ ""%string → v !! k = Some e → chain_ids v (e_parent e) ids → chain_ids v k (e_id e :: ids).

Definition committed_as (name : string) (u : Usage) (l : labels) (e : entry) : entry :=
  mkEntry (e_id e) (e_seq e) (mkInfo KindCommitted name (e_parent e) l) u.

Class MetaStoreLaws (M : Type) `{MetaStore M} := {
  view : M → gmap string entry;
  view_key m k e : view m !! k = Some e → k ≠ ""%string ∧ Info_Name (e_info e) = k;
  view_id m k e : view m !! k = Some e → no_underscore (e_id e) = true ∧ e_id e ≠ ""%string;
  view_id_inj m k k' e e' : view m !! k = Some e → view m !! k' = Some e' → e_id e = e_id e' → k = k';
  view_parent m k e : view m !! k = Some e → e_parent e ≠ ""%string →
    ∃ p, view m !! e_parent e = Some p ∧ e_kind p = KindCommitted ∧ e_seq p < e_seq e;
  Begin_total w m : ms_Begin w m ≠ Panic;
  Begin_found w m e : ms_Begin w m = Err e → IsNotFound e = false;
  Commit_total m : ms_Commit m ≠ Panic;
  GetInfo_view k m :
    match view m !! k with
    | Some e => GetInfo k m = Ok (e_id e, e_info e, e_usage e)
    | None => ∃ er, GetInfo k m = Err er ∧ IsNotFound er = true
    end;
  GetSnapshot_view k m sn : GetSnapshot k m = Ok sn →
    ∃ e, view m !! k = Some e ∧ Snap_ID sn = e_id e ∧ Snap_Kind sn = e_kind e ∧
      chain_ids (view m) (e_parent e) (ParentIDs sn);
  UpdateInfo_total i fps m : (UpdateInfo i fps m).1 ≠ Panic;
  UpdateInfo_view i fps m r m' : UpdateInfo i fps m = (Ok r, m') →
    ∃ l, view m' = alter (λ e, mkEntry (e_id e) (e_seq e) (mkInfo (e_kind e) (Info_Name (e_info e)) (e_parent e) l) (e_usage e))
                     (Info_Name i) (view m);
  Create_view kind k parent opts m :
    match storage_CreateSnapshot kind k parent opts m with
    | (Ok sn, m') => view m !! k = None ∧
        ∃ l e, apply_opts ∅ opts = Ok l ∧ view m' = <[k := e]> (view m) ∧
          e_info e = mkInfo kind k parent l ∧ e_id e = Snap_ID sn ∧ Snap_Kind sn = kind ∧
          chain_ids (view m) parent (ParentIDs sn) ∧ map_Forall (λ _ e', e_id e' ≠ Snap_ID sn) (view m)
    | (Err er, _) => IsAlreadyExists er = true → is_Some (view m !! k)
    | (Panic, _) => False
    end;
  CommitActive_view k name u opts m :
    match CommitActive k name u opts m with
    | (Ok _, m') => view m !! name = None ∧
        ∃ l e, apply_opts ∅ opts = Ok l ∧ view m !! k = Some e ∧ e_kind e = KindActive ∧
          view m' = <[name := committed_as name u l e]> (delete k (view m))
    | (Err er, _) => IsAlreadyExists er = true → is_Some (view m !! name)
    | (Panic, _) => False
    end;
  Remove_view k m :
    match storage_Remove k m with
    | (Ok _, m') => is_Some (view m !! k) ∧ view m' = delete k (view m)
    | (Err _, _) => True
    | (Panic, _) => False
    end;
  IDMap_view m :
    match storage_IDMap m with
    | Ok ids => ∀ id k, ids !! id = Some k ↔ ∃ e, view m !! k = Some e ∧ e_id e = id
    | Err _ => view m = ∅
    | Panic => False
    end;
  WalkInfo_view m :
    match WalkInfo m with
    | Ok infos => ∀ i, i ∈ infos ↔ ∃ k e, view m !! k = Some e ∧ e_info e = i
    | Err er => IsNotFound er = true → view m = ∅
    | Panic => False
    end;
  WithLabels_view l base : snapshots_WithLabels l base = Ok (l ∪ base)
}.

(** ** What the file system service promises

    Mounting and checking a layer leaves the directories of [{root}/snapshots] alone, and
    an id-mapped mount only makes its own.  A parallel mount puts the unpacked layer in the
    place of the directory it is given; when it fails, that directory may be gone
    ([rebase] removes it before the rename), the one around it and its siblings are not. *)
Definition same_dirs {F} (h h' : host F) (except : string → Prop) : Prop :=
  ∀ d, ¬ except d → (dom (D:=gset string) <$> tree h' !! d) = (dom <$> tree h !! d).

Definition quiet {F A} (m : ST (host F) A) : Prop := ∀ h, same_dirs h (m h).2 (λ _, False).

Definition has {F} (h : host F) (d sub : string) : Prop := is_Some (subs ← tree h !! d; subs !! sub).

Class FileSystemLaws (F : Type) `{FileSystem F} := {
  quiet_Mount ns p l : quiet (fs_Mount ns p l);
  quiet_Check p l : quiet (fs_Check p l);
  quiet_Unmount p : quiet (fs_Unmount p);
  quiet_MountLocal ns p l ms : quiet (fs_MountLocal ns p l ms);
  own_MountParallel ns p l ms h : same_dirs h (fs_MountParallel ns p l ms h).2 (λ d, d = p_entry p);
  keep_MountParallel ns p l ms h : is_Some (tree h !! p_entry p) → is_Some (tree (fs_MountParallel ns p l ms h).2 !! p_entry p);
  keep_sub_MountParallel ns p l ms h sub : has h (p_entry p) sub →
    (sub = p_sub p → is_ok (fs_MountParallel ns p l ms h).1 = true) → has (fs_MountParallel ns p l ms h).2 (p_entry p) sub;
  quiet_CleanImage d : quiet (fs_CleanImage d);
  quiet_DiskUsage p : quiet (DiskUsage p);
  quiet_Mounted p : quiet (Mounted p);
  quiet_GetMounts : quiet GetMounts;
  quiet_syscall_Unmount mp : quiet (syscall_Unmount mp);
  quiet_RemapRootFS ms i : quiet (RemapRootFS ms i);
  quiet_RemapRoot p i : quiet (RemapRoot p i);
  own_IDMapMount p id i h : same_dirs h (fs_IDMapMount p id i h).2 (λ d, d = idmapped_entry (p_entry p) id);
  own_IDMapMountLocal p id i h : same_dirs h (fs_IDMapMountLocal p id i h).2 (λ d, d = idmapped_entry (p_entry p) id)
}.

(** ** Names of entries *)
Lemma split_no_underscore s : no_underscore s = true → split_underscore s = [s].
Proof.
  induction s as [|c s IH]; [done|]. cbn [no_underscore split_underscore]. rewrite andb_true_iff, negb_true_iff.
  intros [-> Hs]. by rewrite IH.
Qed.
Lemma cleanupID_id id : no_underscore id = true → cleanupID id = id.
Proof. intros H. unfold cleanupID. by rewrite split_no_underscore. Qed.
Lemma no_underscore_app a b : no_underscore (a +:+ b) = no_underscore a && no_underscore b.
Proof.
  induction a as [|c a IH]; [done|].
  change (negb (Ascii.eqb c "_"%char) && no_underscore (a +:+ b) = no_underscore (String c a) && no_underscore b).
  cbn [no_underscore]. by rewrite IH, andb_assoc.
Qed.
Lemma idmapped_not_id id active d : no_underscore d = true → idmapped_entry id active ≠ d.
Proof.
  intros Hd <-. unfold idmapped_entry in Hd. rewrite !no_underscore_app in Hd. simpl in Hd. by rewrite andb_false_r in Hd.
Qed.
Lemma split_idmapped a b : no_underscore a = true → no_underscore b = true → split_underscore (idmapped_entry a b) = [a; b].
Proof.
  intros Ha Hb. unfold idmapped_entry. induction a as [|c a IH].
  - change (""%string :: split_underscore b = [""%string; b]). by rewrite split_no_underscore.
  - cbn [no_underscore] in Ha. apply andb_true_iff in Ha as [Hc Ha]. apply negb_true_iff in Hc.
    change (split_underscore (String c (a +:+ "_" +:+ b)) = [String c a; b]). cbn [split_underscore].
    by rewrite Hc, (IH Ha).
Qed.

(** ** Directories of the host *)
Section host.
Context {F : Type}.
Implicit Types (h : host F).

Lemma has_same h h' X d sub : same_dirs h h' X → ¬ X d → has h d sub → has h' d sub.
Proof.
  intros Hs Hd. specialize (Hs d Hd). unfold has. destruct (tree h !! d) as [subs|]; [|by intros []].
  destruct (tree h' !! d) as [subs'|]; [|done]. cbn [fmap option_fmap option_map] in Hs.
  apply (inj Some) in Hs. cbn [mbind option_bind].
  intros Hsub. apply elem_of_dom. rewrite Hs. by apply elem_of_dom.
Qed.

Lemma same_dirs_refl h X : same_dirs h h X.
Proof. by intros d _. Qed.
Lemma same_dirs_trans h1 h2 h3 X : same_dirs h1 h2 X → same_dirs h2 h3 X → same_dirs h1 h3 X.
Proof. intros H1 H2 d Hd. by rewrite (H2 d Hd), (H1 d Hd). Qed.
Lemma same_dirs_mono h1 h2 (X Y : string → Prop) : (∀ d, X d → Y d) → same_dirs h1 h2 X → same_dirs h1 h2 Y.
Proof. intros HXY H1 d Hd. apply H1. intros ?. by apply Hd, HXY. Qed.
Lemma same_tree h h' X : tree h' = tree h → same_dirs h h' X.
Proof. by intros E d _; rewrite E. Qed.

(** A system call that changes only the entries [X]. *)
Definition only {A} (X : string → Prop) (m : ST (host F) A) : Prop := ∀ h, same_dirs h (m h).2 X.

Lemma only_bind {A B} X (m : ST (host F) A) (k : A → ST (host F) B) :
  only X m → (∀ a, only X (k a)) → only X (st_bind m k).
Proof.
  intros Hm Hk h. unfold st_bind. specialize (Hm h). destruct (m h) as [[a|e|] h1]; [|done..].
  eapply same_dirs_trans; [exact Hm|apply Hk].
Qed.
Lemma only_map_err {A} X f (m : ST (host F) A) : only X m → only X (st_map_err f m).
Proof. intros Hm h. unfold st_map_err. specialize (Hm h). by destruct (m h). Qed.
Lemma only_ret {A} X (a : A) : only X (st_ret a).
Proof. intros h. apply same_dirs_refl. Qed.
Lemma only_syscall {A} X (m : ST (host F) A) : only X m → only X (syscall m).
Proof.
  intros Hm h. unfold syscall. destruct (faults h (clock h)); [by apply same_tree|].
  eapply same_dirs_trans; [|apply Hm]. by apply same_tree.
Qed.
Lemma only_Mkdir p : only (λ d, d = p_entry p) (os_Mkdir p).
Proof.
  apply only_syscall. intros h. destruct (String.eqb _ _).
  - destruct (tree h !! p_entry p); [apply same_dirs_refl|]. intros d Hd. simpl. by rewrite lookup_insert_ne.
  - destruct (tree h !! p_entry p) as [subs|]; [|apply same_dirs_refl].
    destruct (subs !! p_sub p); [apply same_dirs_refl|]. intros d Hd. simpl. by rewrite lookup_insert_ne.
Qed.
Lemma only_Stat p : only (λ _, False) (os_Stat p).
Proof. apply only_syscall. intros h. apply same_dirs_refl. Qed.
Lemma only_RemoveAll d : only (λ d', d' = d) (os_RemoveAll d).
Proof. apply only_syscall. intros h d' Hd. simpl. by rewrite lookup_delete_ne. Qed.
Lemma only_Lchown p owner : only (λ _, False) (os_Lchown p owner).
Proof.
  apply only_syscall. intros h. destruct (find_dir p h) as [ow|] eqn:E; [|apply same_dirs_refl].
  intros d _. simpl. destruct (decide (d = p_entry p)) as [->|]; [|by rewrite lookup_alter_ne].
  unfold find_dir in E. rewrite lookup_alter_eq. destruct (tree h !! p_entry p) as [subs|]; [|done].
  cbn [mbind option_bind] in E. cbn [fmap option_fmap option_map]. f_equal.
  rewrite dom_insert_L. apply elem_of_dom_2 in E. set_solver.
Qed.
Lemma only_Readdirnames : only (λ _, False) os_Readdirnames.
Proof. apply only_syscall. intros h. apply same_dirs_refl. Qed.
Lemma only_Rename a b : only (λ d, d = a ∨ d = b) (os_Rename a b).
Proof.
  apply only_syscall. intros h. destruct (tree h !! a); [|apply same_dirs_refl].
  case_bool_decide; [|apply same_dirs_refl]. intros d Hd. simpl. rewrite lookup_insert_ne, lookup_delete_ne; naive_solver.
Qed.

Lemma temp_fresh h : tree h !! temp_name h = None.
Proof.
  apply not_elem_of_dom. unfold temp_name. set (X := set_map _ _). intros Hin.
  apply (is_fresh X). apply elem_of_map. eexists. split; [|exact Hin]. done.
Qed.
End host.

(** ** Live snapshots have their directories *)
Section live.
Context {M F : Type} `{HM : MetaStore M} `{HML : !MetaStoreLaws M} `{HF : FileSystem F} `{HFL : !FileSystemLaws F}.
Context (root : string) (userxattr : bool) (o : SnapshotterConfig).
Abbreviation st := (state M F).
Implicit Types (s : st) (h : host F) (sn : Snapshot).

(** Every snapshot has its directory, with the layer in it unless it is one of [X], and an
    active one its work directory. *)
Definition live_in (X : string → Prop) (v : gmap string entry) h : Prop :=
  ∀ k e, v !! k = Some e →
    is_Some (tree h !! e_id e) ∧ (¬ X (e_id e) → has h (e_id e) "fs") ∧ (e_kind e = KindActive → has h (e_id e) "work").
Definition live (X : string → Prop) s : Prop := live_in X (view (ms s)) (hst s).

(** No live snapshot has its directory there. *)
Definition unused (v : gmap string entry) (d : string) : Prop := ∀ k e, v !! k = Some e → e_id e ≠ d.

(** Calls that keep the store and remove no directory that is in use. *)
Definition frames {A} (X : string → Prop) (v : gmap string entry) (m : ST st A) : Prop :=
  ∀ s, view (ms s) = v → live X s → view (ms (m s).2) = v ∧ live X (m s).2.
Definition keeps {A} (X : string → Prop) (m : ST st A) : Prop := ∀ s, live X s → live X (m s).2.

Lemma live_mono X Y s : live X s → (∀ d, X d → Y d) → live Y s.
Proof. intros Hl HXY k e He. destruct (Hl k e He) as (H0 & H1 & H2). split_and!; [done| |done]. intros Hn. apply H1. auto. Qed.

Section at_X.
Context {X : string → Prop}.

Lemma live_frame v h h' (Y : string → Prop) : live_in X v h → same_dirs h h' Y → (∀ d, Y d → unused v d) → live_in X v h'.
Proof.
  intros Hl Hs HY k e He. destruct (Hl k e He) as (H0 & H1 & H2).
  assert (¬ Y (e_id e)) as Hn by (intros Hx; by apply (HY _ Hx k e)).
  split_and!; [|intros Hx; specialize (H1 Hx); by eapply has_same|intros Hk; specialize (H2 Hk); by eapply has_same].
  specialize (Hs _ Hn). destruct H0 as [subs Hsubs]. rewrite Hsubs in Hs. destruct (tree h' !! e_id e); [by eexists|done].
Qed.

Lemma frames_keeps {A} (m : ST st A) : (∀ v, frames X v m) → keeps X m.
Proof. intros H s Hs. by destruct (H (view (ms s)) s). Qed.

Lemma frames_bind {A B} v (m : ST st A) (k : A → ST st B) : frames X v m → (∀ a, frames X v (k a)) → frames X v (st_bind m k).
Proof.
  intros Hm Hk s Hv Hs. unfold st_bind. destruct (Hm s Hv Hs) as [H1 H2]. destruct (m s) as [[a|e|] s1]; [|done..].
  by apply Hk.
Qed.
Lemma keeps_bind {A B} (m : ST st A) (k : A → ST st B) : keeps X m → (∀ a, keeps X (k a)) → keeps X (st_bind m k).
Proof.
  intros Hm Hk s Hs. unfold st_bind. specialize (Hm s Hs). destruct (m s) as [[a|e|] s1]; [|done..]. by apply Hk.
Qed.
Lemma frames_map_err {A} v f (m : ST st A) : frames X v m → frames X v (st_map_err f m).
Proof. intros Hm s Hv Hs. unfold st_map_err. specialize (Hm s Hv Hs). by destruct (m s). Qed.
Lemma frames_pure {A} v (m : ST st A) : (∀ s, (m s).2 = s) → frames X v m.
Proof. intros Hm s Hv Hs. by rewrite Hm. Qed.
Lemma frames_host {A} v Y (m : ST (host F) A) : only Y m → (∀ d, Y d → unused v d) → frames X v (on_host m).
Proof.
  intros Hm HY s Hv Hs. unfold on_host. specialize (Hm (hst s)). destruct (m (hst s)) as [r h1]. simpl in *.
  split; [done|]. change (live_in X (view (ms s)) h1). unfold live in Hs. rewrite Hv in *. by eapply live_frame.
Qed.
Lemma frames_quiet {A} v (m : ST (host F) A) : quiet m → frames X v (on_host m).
Proof. intros Hm. apply (frames_host v (λ _, False)); [exact Hm|done]. Qed.
Lemma frames_view {A} v (f : M → outcome A) : frames X v (view_tx f).
Proof. by apply frames_pure. Qed.
Lemma frames_begin v : frames X v begin_write.
Proof. apply frames_pure. intros s. unfold begin_write. by destruct (tx_open s). Qed.

Lemma frames_check_chain v fuel key : frames X v (check_chain fuel key).
Proof.
  revert key. induction fuel as [|fuel IH]; intros key s Hv Hs; cbn [check_chain].
  { by destruct (String.eqb key ""). }
  destruct (String.eqb key ""); [done|]. destruct (GetInfo key (ms s)) as [[[id info] u]|e|]; [|done..].
  set (c := match Info_Labels info !! remoteLabel with Some _ => _ | None => _ end).
  assert (view (ms c.2) = v ∧ live X c.2) as [Hv1 Hs1].
  { unfold c. destruct (Info_Labels info !! remoteLabel); [|done].
    by apply (frames_quiet v _ (quiet_Check (upperPath id) (Info_Labels info))). }
  destruct c as [[[]|e|] s1]; [| |done]; (apply frames_bind; [apply IH|intros; by apply frames_pure|done|done]).
Qed.
Lemma frames_checkAvailability v key : frames X v (checkAvailability key).
Proof.
  intros s Hv Hs. unfold checkAvailability. destruct (ms_Begin false (ms s)); [|done..]. by apply frames_check_chain.
Qed.
Lemma frames_mounts v sn key : frames X v (mounts root userxattr sn key).
Proof.
  unfold mounts. apply frames_bind.
  - destruct (String.eqb key ""); [by apply frames_pure|apply frames_checkAvailability].
  - intros b. destruct (negb b); by apply frames_pure.
Qed.

Lemma unused_idmapped m id active : unused (view m) (idmapped_entry id active).
Proof. intros k e He Heq. destruct (view_id m k e He) as [Hid _]. by eapply idmapped_not_id. Qed.

Lemma frames_IDMapMounts v ids active idmap : (∀ id a, unused v (idmapped_entry id a)) → frames X v (create_mounts ids active idmap).
Proof.
  intros Hu. induction ids as [|id ids IH]; cbn [create_mounts]; [by apply frames_pure|].
  apply frames_bind; [|done]. intros s Hv Hs. unfold createIDMapMount.
  assert (∀ p, p = upperPath id → frames X v (on_host (fs_IDMapMount p active idmap))) as H1.
  { intros p ->. eapply (frames_host v); [intros h; apply own_IDMapMount|]. intros d ->. apply Hu. }
  destruct (H1 _ eq_refl s Hv Hs) as [Hv1 Hs1].
  destruct (on_host (fs_IDMapMount (upperPath id) active idmap) s) as [[[]|e|] s1]; [done| |done].
  destruct (IsNotFound e); [|done]. apply frames_bind; [| |done|done].
  - eapply frames_host; [apply only_RemoveAll|]. intros d ->. apply Hu.
  - intros _. eapply (frames_host v); [intros h; apply own_IDMapMountLocal|]. intros d ->. apply Hu.
Qed.

Lemma frames_setupIDMap m sn parent l : frames X (view m) (setupIDMap root userxattr sn parent l).
Proof.
  unfold setupIDMap. apply frames_bind; [by apply frames_pure|]. intros idmap. destruct (Empty idmap); [by apply frames_pure|].
  unfold Stat. apply frames_bind; [apply frames_bind; [apply frames_view|intros; by apply frames_pure]|].
  intros info. destruct (Info_Labels info !! HasSociIndexDigest) as [lbl|].
  - apply frames_bind; [by intros s Hv Hs|]. intros _. unfold createIDMapMounts.
    apply frames_bind; [apply frames_IDMapMounts; apply unused_idmapped|]. intros _. apply frames_quiet, quiet_RemapRoot.
  - apply frames_bind; [apply frames_mounts|]. intros mnts. apply frames_quiet, quiet_RemapRootFS.
Qed.

(** *** Cleaning up *)
Lemma frames_unmount v d : frames X v (unmountSnapshotDirectory d).
Proof.
  intros s Hv Hs. unfold unmountSnapshotDirectory.
  destruct (frames_quiet v _ (quiet_Mounted (mkPath d "fs")) s Hv Hs) as [Hv1 Hs1].
  destruct (on_host (Mounted (mkPath d "fs")) s) as [[[]|e|] s1]; [|done| |done].
  - by apply (frames_quiet v _ (quiet_Unmount (mkPath d "fs"))).
  - by destruct (errors_Is e os_ErrNotExist).
Qed.
Lemma frames_cleanup v d : unused v d → frames X v (cleanupSnapshotDirectory d).
Proof.
  intros Hd. apply frames_bind; [apply frames_map_err, frames_unmount|]. intros _. apply frames_map_err.
  eapply frames_host; [apply only_RemoveAll|]. by intros d' ->.
Qed.
Lemma frames_each v (f : string → ST st ()) ds : (∀ d, d ∈ ds → frames X v (f d)) → frames X v (each_logged f ds).
Proof.
  induction ds as [|d ds IH]; intros Hf s Hv Hs; [done|]. cbn [each_logged].
  destruct (Hf d (list_elem_of_here _ _) s Hv Hs) as [Hv1 Hs1].
  destruct (f d s) as [[[]|e|] s1]; [| |done]; (apply IH; [|done..]; intros; apply Hf; by right).
Qed.

(** The scan finds exactly the entries that belong to no snapshot of the store. *)
Lemma stale_spec m ids d : storage_IDMap m = Ok ids →
  stale ids false d = true ↔ ∀ k e, view m !! k = Some e → e_id e ≠ cleanupID d.
Proof.
  intros Hids. pose proof (IDMap_view m) as Hm. rewrite Hids in Hm. unfold stale. cbn [orb].
  rewrite bool_decide_eq_true. split.
  - intros Hn k e He Heq. assert (ids !! cleanupID d = Some k) as E by (apply Hm; eauto). congruence.
  - intros Hu. destruct (ids !! cleanupID d) as [k|] eqn:E; [|done]. apply Hm in E as (e & He & Heq). by destruct (Hu k e He).
Qed.
Lemma stale_unused m ids d : storage_IDMap m = Ok ids → stale ids false d = true → unused (view m) d.
Proof.
  intros Hids Hd k e He Heq. apply (stale_spec m ids d Hids) with (k := k) (e := e); [done|done|].
  subst d. symmetry. apply cleanupID_id. by apply (view_id m k e).
Qed.

(** The scan changes nothing, and lists the stale entries. *)
Definition scanned (m : M) (b : bool) s (r : outcome (list string)) s' : Prop :=
  ms s' = ms s ∧ tree (hst s') = tree (hst s) ∧
  match r with
  | Ok ds => b = false → ∀ d, d ∈ ds ↔ is_Some (tree (hst s) !! d) ∧ ∀ k e, view m !! k = Some e → e_id e ≠ cleanupID d
  | Err _ => True
  | Panic => False
  end.
Lemma getCleanup_spec m b s : let '(r, s') := getCleanupDirectories m b s in scanned m b s r s'.
Proof.
  unfold getCleanupDirectories, st_bind at 1, st_lift. pose proof (IDMap_view m) as Hm.
  destruct (storage_IDMap m) as [ids|e|] eqn:E; [|done..]. clear Hm.
  unfold on_host, st_bind, os_Readdirnames, syscall, st_get, st_ret, set_hst.
  destruct (faults (hst s) (clock (hst s))); cbn [hst clock faults fsys tree]; [done|].
  destruct (faults (hst s) _); cbn [hst clock faults fsys tree]; [done|]. split_and!; [done..|]. intros -> d.
  rewrite list_elem_of_In, filter_In, <-list_elem_of_In, (stale_spec m ids d E). apply and_iff_compat_r.
  rewrite list_elem_of_fmap. split.
  - intros ([d' subs] & -> & Hin%elem_of_map_to_list). by eexists.
  - intros [subs Hsubs]. exists (d, subs). split; [done|]. by apply elem_of_map_to_list.
Qed.
Lemma scanned_unused m s ds s' : scanned m false s (Ok ds) s' → Forall (unused (view m)) ds.
Proof.
  intros (_ & _ & H). apply list.Forall_forall. intros d Hd k e He <-. apply (H eq_refl) in Hd as [_ Hd].
  apply (Hd k e He). symmetry. apply cleanupID_id. by apply (view_id m k e).
Qed.

Lemma live_tree v h h' : live_in X v h → tree h' = tree h → live_in X v h'.
Proof. intros Hl Ht. eapply live_frame; [exact Hl|by apply (same_tree _ _ (λ _, False))|done]. Qed.

Lemma frames_each_cleanup v ds : Forall (unused v) ds → frames X v (each_logged cleanupSnapshotDirectory ds).
Proof. intros Hds. apply frames_each. intros d Hd. apply frames_cleanup. rewrite list.Forall_forall in Hds. by apply Hds. Qed.

Lemma keeps_cleanup : keeps X (cleanup false).
Proof.
  intros s Hs. unfold cleanup, cleanupDirectories, st_bind at 1 2, begin_write. destruct (tx_open s); [done|].
  destruct (ms_Begin true (ms s)); [|done..]. unfold st_bind at 1, st_get.
  pose proof (getCleanup_spec (ms s) false s) as H.
  destruct (getCleanupDirectories (ms s) false s) as [r s1].
  assert (live X s1) as Hs1 by (destruct H as (E & Ht & _); unfold live; rewrite E; by eapply live_tree).
  destruct r as [ds|e|]; [|done..]. apply (frames_each_cleanup (view (ms s))); [by eapply scanned_unused| |done].
  by destruct H as (-> & _ & _).
Qed.

(** *** Creating *)
Lemma absent_unused s d : live X s → tree (hst s) !! d = None → unused (view (ms s)) d.
Proof. intros Hs Hd k e He <-. destruct (Hs k e He) as [[subs Hf] _]. by rewrite Hd in Hf. Qed.

Lemma syscall_inv {A} (f : ST (host F) A) h r h' : syscall f h = (r, h') →
  (∃ e, r = Err e ∧ tree h' = tree h) ∨ ∃ h0, tree h0 = tree h ∧ f h0 = (r, h').
Proof.
  unfold syscall. destruct (faults h (clock h)) as [e|]; [intros [= <- <-]; left; by eexists|]. intros Hf. right.
  eexists. split; [|exact Hf]. done.
Qed.

Lemma Mkdir_sub_ok h d sub h' : os_Mkdir (mkPath d sub) h = (Ok tt, h') → sub ≠ ""%string → has h' d sub ∧ ∀ x, has h d x → has h' d x.
Proof.
  intros H Hsub. apply syscall_inv in H as [(e & [=] & _)|(h0 & Ht & H)]. cbn [p_sub p_entry] in H.
  apply String.eqb_neq in Hsub. rewrite Hsub in H. unfold has. rewrite <-Ht.
  destruct (tree h0 !! d) as [subs|] eqn:E; [|done]. destruct (subs !! sub) eqn:E2; [done|].
  injection H as <-. cbn [tree set_tree]. rewrite lookup_insert_eq. cbn [mbind option_bind].
  split; [rewrite lookup_insert_eq; by eexists|]. intros x [ow Hx].
  destruct (decide (x = sub)) as [->|]; [rewrite lookup_insert_eq|rewrite lookup_insert_ne by done]; by eexists.
Qed.

Lemma prepareDirectory_spec kind h td r h' : prepareDirectory kind h = (td, r, h') →
  same_dirs h h' (λ d, d = td) ∧ (td = ""%string ∧ tree h' = tree h ∨ tree h !! td = None) ∧
  (r = Ok tt → td ≠ ""%string ∧ has h' td "fs" ∧ (kind = KindActive → has h' td "work")).
Proof.
  unfold prepareDirectory. destruct (os_MkdirTemp h) as [r1 h1] eqn:E.
  apply syscall_inv in E as [(e & -> & Ht)|(h0 & Ht & E)].
  { intros [= <- <- <-]. split_and!; [by apply same_tree|by left|done]. }
  injection E as <- <-. set (t := temp_name h0). set (h1 := set_tree _ h0).
  assert (same_dirs h h1 (λ d, d = t)) as H1.
  { intros d Hd. simpl. rewrite lookup_insert_ne by done. by rewrite Ht. }
  assert (tree h !! t = None) as Hnone by (rewrite <-Ht; apply temp_fresh).
  assert (only (λ d, d = t) (st_bind (os_Mkdir (mkPath t "fs")) (λ _,
    if bool_decide (kind = KindActive) then os_Mkdir (mkPath t "work") else st_ret tt) : ST (host F) ())) as Ho.
  { apply only_bind; [apply (only_Mkdir (mkPath t "fs"))|]. intros _.
    destruct (bool_decide _); [apply (only_Mkdir (mkPath t "work"))|apply only_ret]. }
  specialize (Ho h1). destruct (st_bind _ _ h1) as [r2 h2] eqn:E2. intros [= <- <- <-]. split_and!.
  - eapply same_dirs_trans; [exact H1|exact Ho].
  - by right.
  - intros ->. split; [done|]. apply st_bind_ok in E2 as ([] & h3 & Hfs & Hw).
    apply Mkdir_sub_ok in Hfs as [Hfs _]; [|done]. case_bool_decide as Hk.
    + apply Mkdir_sub_ok in Hw as [Hw Hmono]; [|done]. split; [by apply Hmono|done].
    + injection Hw as <-. done.
Qed.

Lemma quiet_chown sn td : only (λ _, False) (chown_to_parent sn td : ST (host F) ()).
Proof.
  unfold chown_to_parent. destruct (ParentIDs sn) as [|p ps]; [apply only_ret|].
  apply only_bind; [apply only_map_err, only_Stat|]. intros ow. apply only_map_err, only_Lchown.
Qed.

(** What a new snapshot is in the store. *)
Definition created (v : gmap string entry) kind k parent (opts : list Opt) sn (v' : gmap string entry) : Prop :=
  v !! k = None ∧ ∃ l e, apply_opts ∅ opts = Ok l ∧ v' = <[k := e]> v ∧ e_info e = mkInfo kind k parent l ∧
    e_id e = Snap_ID sn ∧ Snap_Kind sn = kind ∧ chain_ids v parent (ParentIDs sn).

(** The transaction: either the snapshot is there with its directory, or the store is as it
    was and what is left of the directories is not in use. *)
Lemma create_in_tx_spec kind k parent opts td s : live X s →
  unused (view (ms s)) td → has (hst s) td "fs" → (kind = KindActive → has (hst s) td "work") →
  let '(r, (td', path), s') := create_in_tx kind k parent opts td s in
  live X s' ∧ match r with
  | Ok sn => created (view (ms s)) kind k parent opts sn (view (ms s')) ∧ has (hst s') (Snap_ID sn) "fs"
  | Err e => ms s' = ms s ∧ (td' = ""%string ∨ td' = td) ∧ (path = ""%string ∨ unused (view (ms s)) path)
  | Panic => True
  end.
Proof.
  intros Hs Hu Hfs Hwork. unfold create_in_tx. pose proof (Create_view kind k parent opts (ms s)) as Hc.
  destruct (storage_CreateSnapshot kind k parent opts (ms s)) as [[sn|e|] m]; [|by auto|done].
  destruct Hc as (Hnone & l & e & Hl & Hview & Hinfo & Hid & Hkind & Hch & Hfresh).
  unfold on_host at 1. pose proof (quiet_chown sn td (hst s)) as Hq.
  assert (live_in X (view (ms s)) (chown_to_parent sn td (hst s)).2) as Hl1 by (eapply live_frame; [exact Hs|exact Hq|done]).
  destruct (chown_to_parent sn td (hst s)) as [[[]|er|] h1]; cbn [snd] in Hq, Hl1.
  2: { split; [exact Hl1|]. by auto. }
  2: { split; [exact Hl1|done]. }
  assert (has h1 td "fs") as Hfs1 by (eapply has_same; [exact Hq|by intros []|exact Hfs]).
  assert (kind = KindActive → has h1 td "work") as Hw1 by (intros Hk; eapply has_same; [exact Hq|by intros []|by apply Hwork]).
  assert (unused (view (ms s)) (Snap_ID sn)) as Hup by (intros k' e' He'; by apply (Hfresh k' e')).
  unfold on_host. cbn [hst set_hst]. pose proof (only_Rename td (Snap_ID sn) h1) as Hr.
  assert (∀ h2, same_dirs h1 h2 (λ d, d = td ∨ d = Snap_ID sn) → live_in X (view (ms s)) h2) as Hlive.
  { intros h2 H2. eapply live_frame; [exact Hl1|exact H2|]. by intros d [->| ->]. }
  destruct (os_Rename td (Snap_ID sn) h1) as [[[]|er|] h2] eqn:E; cbn [snd] in Hr.
  2: { split; [exact (Hlive h2 Hr)|]. by auto. }
  2: { split; [exact (Hlive h2 Hr)|done]. }
  destruct (ms_Commit m) as [[]|er|]; cbn [set_ms set_hst ms hst idmapped tx_open].
  2: { split; [exact (Hlive h2 Hr)|]. by auto. }
  2: { split; [exact (Hlive h2 Hr)|done]. }
  apply syscall_inv in E as [(? & [=] & _)|(h0 & Ht & E)].
  assert (∀ x, has h1 td x → has h2 (Snap_ID sn) x) as Hmove.
  { unfold has. rewrite <-Ht. destruct (tree h0 !! td) as [subs|]; [|done]. destruct (bool_decide _); [|done].
    injection E as <-. cbn [tree set_tree]. by rewrite lookup_insert_eq. }
  assert (has h2 (Snap_ID sn) "fs") as Hfs2 by (by apply Hmove).
  split; [|split; [split; [done|by exists l, e]|done]]. change (live_in X (view m) h2). rewrite Hview.
  intros k' e' [[<- <-]|[_ He']]%lookup_insert_Some; [|by apply (Hlive h2 Hr k')].
  rewrite Hid. split_and!; [|done|].
  - destruct Hfs2 as [? H2]. destruct (tree h2 !! Snap_ID sn); [by eexists|done].
  - intros Hk. apply Hmove, Hw1. unfold e_kind in Hk. by rewrite Hinfo in Hk.
Qed.

Lemma frames_reclaim v td path er : (td = ""%string ∨ unused v td) → (path = ""%string ∨ unused v path) →
  frames X v (reclaim td path er).
Proof.
  intros Ht Hp s Hv Hs. unfold reclaim.
  assert (∀ d s0, (d = ""%string ∨ unused v d) → view (ms s0) = v → live X s0 →
    let s1 := (if String.eqb d "" then (Ok tt, s0) else cleanupSnapshotDirectory d s0).2 in view (ms s1) = v ∧ live X s1) as Hc.
  { intros d s0 Hd Hv0 Hs0. destruct (String.eqb_spec d ""); [done|]. destruct Hd as [?|Hd]; [done|].
    by apply (frames_cleanup v d Hd). }
  destruct (Hc td s Ht Hv Hs) as [Hv1 Hs1]. destruct (if String.eqb td "" then _ else _) as [r1 s1].
  destruct (Hc path s1 Hp Hv1 Hs1) as [Hv2 Hs2]. destruct (if String.eqb path "" then _ else _) as [r2 s2].
  by destruct r1, r2.
Qed.

Lemma reclaim_not_ok td path er s sn s' : reclaim td path er s ≠ (Ok sn, s').
Proof.
  unfold reclaim. destruct (if String.eqb td "" then _ else _) as [r1 s1].
  destruct (if String.eqb path "" then _ else _) as [r2 s2]. by destruct r1, r2.
Qed.

Lemma createSnapshot_spec kind k parent opts s : live X s →
  let '(r, s') := createSnapshot kind k parent opts s in
  live X s' ∧ match r with
  | Ok sn => created (view (ms s)) kind k parent opts sn (view (ms s')) ∧ has (hst s') (Snap_ID sn) "fs"
  | Err _ => view (ms s') = view (ms s)
  | Panic => True
  end.
Proof.
  intros Hs. unfold createSnapshot, begin_write. destruct (tx_open s); [done|].
  destruct (ms_Begin true (ms s)) as [[]|e|]; [|done..].
  destruct (prepareDirectory kind (hst s)) as [[td r] h] eqn:E. apply prepareDirectory_spec in E as (H1 & H2 & H3).
  assert (td = ""%string ∨ unused (view (ms s)) td) as Hu.
  { destruct H2 as [[Ht _]|Ht]; [by left|right]. by apply absent_unused. }
  assert (live X (set_hst h s)) as Hs1.
  { change (live_in X (view (ms s)) h). destruct H2 as [[_ Ht]|Ht].
    - eapply live_frame; [exact Hs|by apply (same_tree _ _ (λ _, False))|done].
    - eapply live_frame; [exact Hs|exact H1|]. intros d ->. by apply absent_unused. }
  destruct r as [[]|e|].
  - destruct (H3 eq_refl) as (Hne & Hfs & Hw). destruct Hu as [?|Htd]; [done|].
    pose proof (create_in_tx_spec kind k parent opts td (set_hst h s) Hs1 Htd Hfs Hw) as Hc.
    destruct (create_in_tx kind k parent opts td (set_hst h s)) as [[[sn|e|] [td' path]] s2]; [done| |naive_solver].
    destruct Hc as (Hs2 & Hm & Htd' & Hpath).
    destruct (frames_reclaim (view (ms s)) td' path e) with (s := s2) as [Hv3 Hs3]; [|done|by rewrite Hm|done|].
    + destruct Htd' as [->| ->]; [by left|by right].
    + destruct (reclaim td' path e s2) as [[?|?|] s3] eqn:E; [|done..]. by apply reclaim_not_ok in E.
  - destruct (frames_reclaim (view (ms s)) td "" (Wrap "failed to create prepare snapshot dir" e)) with (s := set_hst h s)
      as [Hv3 Hs3]; [done|by left|done|done|].
    destruct (reclaim td "" _ (set_hst h s)) as [[?|?|] s3] eqn:E; [|done..]. by apply reclaim_not_ok in E.
  - done.
Qed.

(** *** Committing and removing *)
Definition committed (v : gmap string entry) name k (opts : list Opt) (v' : gmap string entry) : Prop :=
  v !! name = None ∧ ∃ u l e, apply_opts ∅ opts = Ok l ∧ v !! k = Some e ∧ e_kind e = KindActive ∧
    v' = <[name := committed_as name u l e]> (delete k v).

Lemma committed_live v h name k opts v' : live_in X v h → committed v name k opts v' → live_in X v' h.
Proof.
  intros Hl (_ & u & l & e & _ & He & _ & ->) k' e' [[<- <-]|[_ He']]%lookup_insert_Some.
  - destruct (Hl k e He) as (H0 & H1 & _). by split_and!.
  - apply lookup_delete_Some in He' as [_ He']. by apply (Hl k').
Qed.

Lemma snapshot_commit_spec isRemote name k opts s : live X s →
  let '(r, s') := commit isRemote name k opts s in
  live X s' ∧ match r with
  | Ok _ => committed (view (ms s)) name k opts (view (ms s'))
  | Err _ => ms s' = ms s
  | Panic => True
  end.
Proof.
  intros Hs. unfold commit, begin_write. destruct (tx_open s); [done|].
  destruct (ms_Begin true (ms s)) as [[]|e|]; [|done..].
  destruct (GetInfo k (ms s)) as [[[id info] u]|e|]; [|done..].
  set (d := if isRemote then (Ok u, s) else on_host (DiskUsage (upperPath id)) s).
  assert (live X d.2 ∧ ms d.2 = ms s) as [Hd1 Hd2].
  { unfold d. destruct isRemote; [done|].
    destruct (frames_quiet (view (ms s)) _ (quiet_DiskUsage (upperPath id)) s eq_refl Hs) as [_ H]. split; [done|].
    unfold on_host. by destruct (DiskUsage _ _). }
  destruct d as [[u'|e|] s1]; cbn [snd] in Hd1, Hd2; [|done..].
  pose proof (CommitActive_view k name u' opts (ms s1)) as Hc. rewrite Hd2 in *.
  destruct (CommitActive k name u' opts (ms s)) as [[x|e|] m]; [|done..].
  destruct Hc as (Hn & l & e & Hl & He & Hk & Hv). destruct (ms_Commit m); [|done..].
  assert (committed (view (ms s)) name k opts (view m)) as Hcom by (split; [done|by exists u', l, e]).
  split; [|done]. change (live_in X (view m) (hst s1)). eapply committed_live; [|exact Hcom].
  unfold live in Hd1. by rewrite Hd2 in Hd1.
Qed.

Lemma keeps_commit isRemote name k opts : keeps X (commit isRemote name k opts).
Proof. intros s Hs. pose proof (snapshot_commit_spec isRemote name k opts s Hs). by destruct (commit _ _ _ _ s) as [? ?], H. Qed.

Lemma live_in_delete v h k : live_in X v h → live_in X (delete k v) h.
Proof. intros Hl k' e' [_ He']%lookup_delete_Some. by apply (Hl k'). Qed.

(** What is removed in the transaction, and the directories scheduled for removal then. *)
Lemma remove_in_tx_spec k s : live X s →
  let '(r, s') := write_tx (remove_in_tx o k) s in
  tree (hst s') = tree (hst s) ∧ match r with
  | Ok (info, ds) => (∃ e, view (ms s) !! k = Some e ∧ info = e_info e) ∧ view (ms s') = delete k (view (ms s)) ∧
      if asyncRemove o then ds = []
      else ∀ d, d ∈ ds ↔ is_Some (tree (hst s) !! d) ∧ ∀ k' e, view (ms s') !! k' = Some e → e_id e ≠ cleanupID d
  | Err _ => ms s' = ms s
  | Panic => s' = s
  end.
Proof.
  intros Hs. unfold write_tx, begin_write. destruct (tx_open s); [done|].
  destruct (ms_Begin true (ms s)) as [[]|e|]; [|done..].
  unfold remove_in_tx, st_bind at 1, st_get, st_bind at 1, st_lift. pose proof (GetInfo_view k (ms s)) as Hg.
  destruct (view (ms s) !! k) as [e|] eqn:Ek; [|destruct Hg as (er & -> & _); done]. rewrite Hg. cbn [map_err].
  unfold st_bind at 1, st_map_err at 1, on_ms. pose proof (Remove_view k (ms s)) as Hr.
  destruct (storage_Remove k (ms s)) as [[x|er|] m]; cbn [map_err]; [|done..]. destruct Hr as [_ Hv].
  unfold st_bind at 1. cbn [fst snd ms set_ms]. set (s1 := set_ms m s).
  set (g := if asyncRemove o then _ else _).
  assert (let '(r, s2) := g s1 in ms s2 = m ∧ tree (hst s2) = tree (hst s) ∧
    match r with
    | Ok ds => if asyncRemove o then ds = [] else scanned m false s1 (Ok ds) s2
    | Err _ => True
    | Panic => False
    end) as Hg2.
  { unfold g. destruct (asyncRemove o); [done|]. unfold st_map_err. pose proof (getCleanup_spec m false s1) as Hc.
    destruct (getCleanupDirectories m false s1) as [[ds|er|] s2]; destruct Hc as (E & Ht & Hf); by split_and!. }
  unfold st_bind at 1. destruct (g s1) as [[ds|er|] s2]; destruct Hg2 as (E & Ht & Hf); [|done..].
  unfold st_ret. rewrite E. pose proof (Commit_total m). destruct (ms_Commit m); [|done..].
  split; [done|]. rewrite E. split_and!; [by exists e|done|]. destruct (asyncRemove o); [done|].
  destruct Hf as (_ & _ & Hf). by apply Hf.
Qed.

Lemma keeps_Remove k : keeps X (Remove o k).
Proof.
  intros s Hs. unfold Remove, st_bind at 1. pose proof (remove_in_tx_spec k s Hs) as H.
  destruct (write_tx (remove_in_tx o k) s) as [[[info ds]|e|] s1]; destruct H as [Ht H].
  - destruct H as (_ & Hv & Hds).
    assert (live X s1) as Hs1.
    { unfold live. rewrite Hv. apply live_in_delete. by eapply live_tree. }
    apply (frames_bind (view (ms s1))); [by apply frames_map_err, frames_quiet, quiet_CleanImage| |done|done].
    intros _. apply frames_each_cleanup. cbn [snd]. destruct (asyncRemove o); [subst ds; constructor|].
    apply list.Forall_forall. intros d Hd k' e He <-. apply Hds in Hd as [_ Hd]. apply (Hd k' e He).
    symmetry. apply cleanupID_id. by apply (view_id (ms s1) k' e).
  - unfold live. cbn [snd]. rewrite H. by eapply live_tree.
  - by subst s1.
Qed.

(** *** Preparing *)
Lemma frames_prepareRemote v ns k l : frames X v (prepareRemoteSnapshot ns k l).
Proof. apply frames_bind; [apply frames_view|]. intros r. apply frames_quiet, quiet_Mount. Qed.
Lemma frames_prepareLocal v ns k l mnts : frames X v (prepareLocalSnapshot ns k l mnts).
Proof. apply frames_bind; [apply frames_view|]. intros r. apply frames_quiet, quiet_MountLocal. Qed.
Definition unpack (parallel : bool) ns k l mnts : ST st () := λ s,
  if parallel then prepareParallelPullSnapshot ns k l mnts s else prepareLocalSnapshot ns k l mnts s.
Lemma keeps_commit_target isRemote target k opts l : keeps X (commit_target isRemote target k opts l).
Proof.
  intros s Hs. unfold commit_target. pose proof (keeps_commit isRemote target k (opts ++ [snapshots_WithLabels l]) s Hs) as H.
  destruct (commit _ _ _ _ s) as [[x|e|] s1]; [done| |done]. by destruct (IsAlreadyExists e).
Qed.

Lemma keeps_View k parent opts : keeps X (View root userxattr k parent opts).
Proof.
  intros s Hs. unfold View, st_bind. pose proof (createSnapshot_spec KindView k parent opts s Hs) as H.
  destruct (createSnapshot KindView k parent opts s) as [[sn|e|] s1]; destruct H as [Hs1 _]; [|done..].
  by apply (frames_mounts (view (ms s1))).
Qed.

Lemma keeps_Update i fps : keeps X (Update i fps).
Proof.
  intros s Hs. unfold Update, write_tx, begin_write. destruct (tx_open s); [done|].
  destruct (ms_Begin true (ms s)) as [[]|e|]; [|done..]. unfold on_ms.
  destruct (UpdateInfo i fps (ms s)) as [[x|e|] m] eqn:E; [| |].
  - apply UpdateInfo_view in E as [l Hv]. cbn [ms set_ms].
    assert (live X (set_ms m s)) as Hl.
    { change (live_in X (view m) (hst s)). rewrite Hv. intros k e He.
      destruct (decide (k = Info_Name i)) as [->|]; [|rewrite lookup_alter_ne in He by done; by apply (Hs k)].
      rewrite lookup_alter_eq in He. destruct (view (ms s) !! Info_Name i) as [e0|] eqn:E0; [|done].
      injection He as <-. by apply (Hs _ _ E0). }
    by destruct (ms_Commit m).
  - done.
  - by pose proof (UpdateInfo_total i fps (ms s)) as Ht; rewrite E in Ht.
Qed.

End at_X.

(** *** A layer that is pulled in parallel *)
Definition parallel_on : bool := parallelPullUnpack o || parallelPullAsFallback o.
Definition dir_of (v : gmap string entry) (k d : string) : Prop := ∃ e, v !! k = Some e ∧ e_id e = d.

Lemma prepareParallel_spec X ns k l mnts s : live X s →
  let '(r, s') := prepareParallelPullSnapshot ns k l mnts s in
  view (ms s') = view (ms s) ∧ live (λ d, X d ∨ is_ok r = false ∧ dir_of (view (ms s)) k d) s'.
Proof.
  intros Hs. assert (∀ Y, live (λ d, X d ∨ Y d) s) as Hw by (intros Y; eapply live_mono; [exact Hs|by left]).
  unfold prepareParallelPullSnapshot, view_tx, st_bind. destruct (ms_Begin false (ms s)) as [[]|e|]; [|by split..].
  pose proof (GetInfo_view k (ms s)) as Hg. destruct (view (ms s) !! k) as [e|] eqn:Ek; [|destruct Hg as (er & -> & _); by split].
  rewrite Hg. cbn [fst]. unfold on_host. set (p := upperPath (e_id e)).
  pose proof (own_MountParallel ns p l mnts (hst s)) as Ho. pose proof (keep_MountParallel ns p l mnts (hst s)) as Hk.
  pose proof (keep_sub_MountParallel ns p l mnts (hst s)) as Hsub.
  destruct (fs_MountParallel ns p l mnts (hst s)) as [r h']. cbn [fst snd] in *. split; [done|].
  intros k' e' He'. change (view (ms s) !! k' = Some e') in He'. cbn [hst set_hst].
  destruct (decide (e_id e' = e_id e)) as [Hid|Hid].
  - destruct (Hs k' e' He') as (H0 & H1 & H2). rewrite Hid in *. split_and!; [by apply Hk| |].
    + intros Hn. apply Hsub; [apply H1; by auto|]. intros _. destruct (is_ok r) eqn:Er; [done|]. destruct Hn. right. split; [done|]. by exists e.
    + intros Ha. by apply Hsub; [apply H2|].
  - assert (¬ e_id e' = p_entry p) as Hne by done. destruct (Hs k' e' He') as (H0 & H1 & H2). split_and!.
    + specialize (Ho _ Hne). destruct H0 as [subs E]. rewrite E in Ho. destruct (tree h' !! e_id e'); [by eexists|done].
    + intros Hn. eapply has_same; [exact Ho|done|]. apply H1. by auto.
    + intros Ha. eapply has_same; [exact Ho|done|by apply H2].
Qed.

Lemma unpack_spec X parallel ns k l mnts s : live X s →
  let '(r, s') := unpack parallel ns k l mnts s in
  view (ms s') = view (ms s) ∧ live (λ d, X d ∨ (parallel = true ∧ is_ok r = false) ∧ dir_of (view (ms s)) k d) s'.
Proof.
  intros Hs. unfold unpack. destruct parallel.
  - pose proof (prepareParallel_spec X ns k l mnts s Hs) as H. destruct (prepareParallelPullSnapshot _ _ _ _ s) as [r s'].
    destruct H as [Hv Hl]. split; [done|]. eapply live_mono; [exact Hl|]. naive_solver.
  - destruct (frames_prepareLocal (X:=X) (view (ms s)) ns k l mnts s eq_refl Hs) as [Hv Hl].
    destruct (prepareLocalSnapshot _ _ _ _ s) as [r s']. split; [done|]. eapply live_mono; [exact Hl|by left].
Qed.

Lemma unpack_live X parallel ns k l mnts s : live X s →
  view (ms (unpack parallel ns k l mnts s).2) = view (ms s) ∧
  (is_ok (unpack parallel ns k l mnts s).1 = true → live X (unpack parallel ns k l mnts s).2).
Proof.
  intros Hs. pose proof (unpack_spec X parallel ns k l mnts s Hs) as H. destruct (unpack parallel ns k l mnts s) as [r s'].
  destruct H as [Hv Hl]. split; [done|]. cbn [fst snd]. intros Hr. eapply live_mono; [exact Hl|]. rewrite Hr. naive_solver.
Qed.

(** A step of [Prepare] that keeps the directories, but for the one of its own snapshot
    when it fails while layers are pulled in parallel. *)
Definition spares {A} (X : string → Prop) (k : string) s (r : outcome A) s' : Prop :=
  live X s' ∨ is_ok r = false ∧ parallel_on = true ∧ view (ms s') = view (ms s) ∧ live (λ d, X d ∨ dir_of (view (ms s)) k d) s'.

Lemma fallback_spares X sn ns target k parent opts l d s : live X s →
  let '(r, s') := prepare_fallback root userxattr o sn ns target k parent opts l d s in spares X k s r s'.
Proof.
  intros Hs. unfold prepare_fallback, st_bind. destruct (frames_mounts (X:=X) (view (ms s)) sn parent s eq_refl Hs) as [Hv Hl].
  destruct (mounts root userxattr sn parent s) as [[mnts|e|] s1]; cbn [snd] in *; [|by left..].
  destruct (d && _); [by left|]. cbv beta zeta. set (par := parallelPullUnpack o || parallelPullAsFallback o && d).
  assert (par = true → parallel_on = true) as Hpar.
  { unfold par, parallel_on. destruct (parallelPullUnpack o), (parallelPullAsFallback o), d; done. }
  fold (unpack par ns k l mnts s1). pose proof (unpack_spec X par ns k l mnts s1 Hl) as Hu.
  destruct (unpack par ns k l mnts s1) as [r s2]. destruct Hu as [Hv2 Hl2].
  assert (par = false ∨ is_ok r = true → live X s2) as Hfine.
  { intros Hp. eapply live_mono; [exact Hl2|]. intros d' [?|[[-> Hr] _]]; [done|]. by destruct Hp as [?|Hp]; [|rewrite Hr in Hp]. }
  destruct r as [[]|e|].
  - pose proof (keeps_commit_target (X:=X) false target k opts (if par then l else <[HasSociIndexDigest := "true"%string]> l) s2 (Hfine (or_intror eq_refl))) as Hc.
    destruct (commit_target _ _ _ _ _ s2) as [r s3]. by left.
  - destruct par; [|left; by apply Hfine; left]. right. split_and!; [done|by apply Hpar|congruence|]. eapply live_mono; [exact Hl2|].
    rewrite Hv. naive_solver.
  - destruct par; [|left; by apply Hfine; left]. right. split_and!; [done|by apply Hpar|congruence|]. eapply live_mono; [exact Hl2|].
    rewrite Hv. naive_solver.
Qed.

Lemma layer_spares X sn ns target k parent opts l s : live X s →
  let '(r, s') := prepare_layer root userxattr o sn ns target k parent opts l s in spares X k s r s'.
Proof.
  intros Hs. unfold prepare_layer. destruct (skipRemoteSnapshotPrepare o l); [by apply fallback_spares|].
  destruct (frames_prepareRemote (X:=X) (view (ms s)) ns k l s eq_refl Hs) as [Hv Hl].
  destruct (prepareRemoteSnapshot ns k l s) as [[x|e|] s1]; cbn [snd] in *; [| |by left].
  - pose proof (keeps_commit_target (X:=X) true target k opts
      (<[HasSociIndexDigest := "true"%string]> (<[remoteLabel := remoteLabelVal]> l)) s1 Hl) as H.
    destruct (commit_target _ _ _ _ _ s1) as [r s2]. by left.
  - pose proof (fallback_spares X sn ns target k parent opts l (negb (errors_Is e ErrNoZtoc) && errors_Is e ErrNoIndex) s1 Hl) as H.
    destruct (prepare_fallback _ _ _ _ _ _ _ _ _ _ _ s1) as [r s2]. unfold spares in *. by rewrite Hv in H.
Qed.

(** The directory a failed [Prepare] may have lost: that of the snapshot it has made. *)
Definition forfeits ns k parent opts s (d : string) : Prop :=
  parallel_on = true ∧ is_ok (Prepare root userxattr o ns k parent opts s).1 = false ∧ view (ms s) !! k = None ∧
  dir_of (view (ms (Prepare root userxattr o ns k parent opts s).2)) k d.

Lemma Prepare_live X ns k parent opts s : live X s →
  live (λ d, X d ∨ forfeits ns k parent opts s d) (Prepare root userxattr o ns k parent opts s).2.
Proof.
  intros Hs. unfold forfeits.
  assert (let '(r, s') := Prepare root userxattr o ns k parent opts s in
    live X s' ∨ is_ok r = false ∧ parallel_on = true ∧ view (ms s) !! k = None ∧ live (λ d, X d ∨ dir_of (view (ms s')) k d) s') as H.
  { unfold Prepare, st_bind at 1. pose proof (createSnapshot_spec (X:=X) KindActive k parent opts s Hs) as H.
    destruct (createSnapshot KindActive k parent opts s) as [[sn|e|] s1]; destruct H as [Hs1 H]; [|by left..].
    unfold st_bind at 1, st_lift. destruct (apply_opts ∅ opts) as [base|e|]; [|by left..].
    destruct (base !! targetSnapshotLabel) as [target|].
    - destruct ns as [n|]; [|by left].
      pose proof (layer_spares X sn (Some n) target k parent opts (<[TargetNamespace := n]> base) s1 Hs1) as Hsp.
      destruct (prepare_layer _ _ _ _ _ _ _ _ _ _ s1) as [r s2].
      destruct Hsp as [?|(Hr & Hp & Hv & Hl)]; [by left|right]. split_and!; [done..|apply H|]. by rewrite Hv.
    - set (m := st_bind _ _). assert (frames X (view (ms s1)) m) as Hm.
      { apply frames_bind; [apply frames_setupIDMap|intros _; apply frames_mounts]. }
      destruct (Hm s1 eq_refl Hs1) as [_ Hl]. destruct (m s1). by left. }
  destruct (Prepare root userxattr o ns k parent opts s) as [r s']. cbn [fst snd].
  destruct H as [?|(? & ? & ? & Hl)]; (eapply live_mono; [eassumption|naive_solver]).
Qed.

(** *** All operations *)
Inductive sn_op :=
| OpPrepare (ns : option string) (k parent : string) (opts : list Opt)
| OpView (k parent : string) (opts : list Opt)
| OpCommit (name k : string) (opts : list Opt)
| OpRemove (k : string)
| OpCleanup
| OpMounts (k : string)
| OpUpdate (i : Info) (fps : list string)
| OpUsage (k : string).

Definition run_sn (p : sn_op) s : st :=
  match p with
  | OpPrepare ns k parent opts => (Prepare root userxattr o ns k parent opts s).2
  | OpView k parent opts => (View root userxattr k parent opts s).2
  | OpCommit name k opts => (Commit name k opts s).2
  | OpRemove k => (Remove o k s).2
  | OpCleanup => (Cleanup s).2
  | OpMounts k => (Mounts root userxattr k s).2
  | OpUpdate i fps => (Update i fps s).2
  | OpUsage k => (Usage_ k s).2
  end.

(** What an operation may lose. *)
Definition loses (p : sn_op) s (d : string) : Prop :=
  match p with OpPrepare ns k parent opts => forfeits ns k parent opts s d | _ => False end.

Lemma run_sn_live X p s : live X s → live (λ d, X d ∨ loses p s d) (run_sn p s).
Proof.
  destruct p as [ns k parent opts|k parent opts|name k opts|k| |k|i fps|k]; cbn [run_sn loses]; intros Hs;
    [by apply Prepare_live|eapply live_mono; [|by left]..].
  - by apply keeps_View.
  - by apply keeps_commit.
  - by apply keeps_Remove.
  - by apply keeps_cleanup.
  - revert s Hs. apply frames_keeps. intros v. unfold Mounts. apply frames_bind; [apply frames_map_err, frames_view|].
    intros sn. apply frames_mounts.
  - by apply keeps_Update.
  - revert s Hs. apply frames_keeps. intros v. unfold Usage_. apply frames_bind; [apply frames_view|]. intros [[id info] u].
    destruct (bool_decide _); [apply frames_quiet, quiet_DiskUsage|by apply frames_pure].
Qed.

Definition run_sns (ps : list sn_op) s : st := foldl (λ s p, run_sn p s) s ps.
Definition lost_in (ps : list sn_op) s (d : string) : Prop := ∃ ps1 p ps2, ps = ps1 ++ p :: ps2 ∧ loses p (run_sns ps1 s) d.

Lemma run_sns_live X ps s : live X s → live (λ d, X d ∨ lost_in ps s d) (run_sns ps s).
Proof.
  revert X s. induction ps as [|p ps IH]; intros X s Hs; [eapply live_mono; [exact Hs|by left]|].
  eapply live_mono; [exact (IH _ _ (run_sn_live X p s Hs))|]. intros d [[?|Hp]|(ps1 & q & ps2 & -> & Hq)]; [by left|right..].
  - by exists [], p, ps.
  - by exists (p :: ps1), q, ps2.
Qed.

(** C17: the directory of a live snapshot is never lost.  Whatever is prepared, viewed,
    committed, removed or cleaned up one after another in whatever order, and whichever
    system calls fail: every snapshot the metadata store knows has its directory in
    [{root}/snapshots] with the layer's directory in it, and an active one its work
    directory; in particular a clean-up never takes a directory that is in use.  The one
    exception is a [Prepare] that fails while layers are pulled in parallel: the snapshot it
    has made stays in the store and may be without its layer's directory, which [rebase]
    removes before it renames the unpacked one. *)
Theorem live_snapshots_keep_directories ps s k e :
  live (λ _, False) s → view (ms (run_sns ps s)) !! k = Some e →
  let h := hst (run_sns ps s) in
  is_Some (tree h !! e_id e) ∧ (¬ lost_in ps s (e_id e) → has h (e_id e) "fs") ∧ (e_kind e = KindActive → has h (e_id e) "work").
Proof.
  intros Hs He. destruct (run_sns_live _ ps s Hs k e He) as (H0 & H1 & H2). split_and!; [done| |done].
  intros Hn. apply H1. by intros [[]|?].
Qed.

(** [Remove] reports a failure to cancel the work on the image as an error of its own
    although the snapshot is gone by then, and skips the removal of the directories, which
    only a later clean-up finds. *)
Theorem Remove_fails_after_removal X k s e info ds s1 er h :
  live X s → view (ms s) !! k = Some e → write_tx (remove_in_tx o k) s = (Ok (info, ds), s1) →
  fs_CleanImage (default "" (Info_Labels info !! TargetManifestDigestLabel)) (hst s1) = (Err er, h) →
  Remove o k s = (Err (Wrap "error cleaning image operations" er), set_hst h s1) ∧
  view (ms s1) = delete k (view (ms s)) ∧ is_Some (tree h !! e_id e).
Proof.
  intros Hs He Hw Hc. pose proof (remove_in_tx_spec k s Hs) as H. rewrite Hw in H.
  destruct H as (Ht & _ & Hv & _). split_and!; [|done|].
  - unfold Remove, st_bind at 1. rewrite Hw. unfold st_bind, st_map_err, on_host. cbn [fst]. by rewrite Hc.
  - pose proof (quiet_CleanImage (default "" (Info_Labels info !! TargetManifestDigestLabel)) (hst s1)) as Hq. rewrite Hc in Hq.
    destruct (Hs k e He) as [[subs Hd] _]. specialize (Hq (e_id e) (λ f, f)). cbn [snd] in Hq. rewrite Ht, Hd in Hq.
    destruct (tree h !! e_id e); [by eexists|done].
Qed.

(** *** What the answers of [Prepare] mean *)

(** Only the store says that a name exists. *)
Record no_exist_errors : Prop := {
  ne_begin w m : foreign "already exists" (ms_Begin (M:=M) w m);
  ne_commit m : foreign "already exists" (ms_Commit (M:=M) m);
  ne_info k m : foreign "already exists" (GetInfo (M:=M) k m);
  ne_usage p (h : host F) : foreign "already exists" (DiskUsage p h).1;
  ne_mounted p (h : host F) : foreign "already exists" (Mounted p h).1;
  ne_unmount p (h : host F) : foreign "already exists" (fs_Unmount p h).1;
  ne_parallel ns p l mnts (h : host F) : foreign "already exists" (fs_MountParallel ns p l mnts h).1
}.

Lemma foreign_syscall {A} (f : ST (host F) A) h : (∀ h, foreign "already exists" (f h).1) → foreign "already exists" (syscall f h).1.
Proof. intros Hf. unfold syscall. destruct (faults h (clock h)) as [[|msg]|]; [by apply foreign_Err..|apply Hf]. Qed.
Section answers.
Context (Hne : no_exist_errors).

Lemma foreign_cleanupDir d s : foreign "already exists" (cleanupSnapshotDirectory d s).1.
Proof.
  unfold cleanupSnapshotDirectory. apply foreign_st_bind; [apply foreign_st_wrap|intros [] s1; apply foreign_st_wrap].
  - unfold unmountSnapshotDirectory, on_host. pose proof (ne_mounted Hne (mkPath d "fs") (hst s)) as Hm.
    destruct (Mounted (mkPath d "fs") (hst s)) as [[[]|e|] h1]; [|done| |done]; cbn [fst] in Hm.
    + pose proof (ne_unmount Hne (mkPath d "fs") h1) as Hu. cbn [hst set_hst]. by destruct (fs_Unmount _ h1).
    + destruct (errors_Is e os_ErrNotExist); [apply foreign_Ok|]. intros e' [= <-]. by apply Hm.
  - unfold on_host. assert (foreign "already exists" (os_RemoveAll d (hst s1)).1) as Hr by (apply foreign_syscall; intros; apply foreign_Ok).
    by destruct (os_RemoveAll d (hst s1)).
Qed.

Lemma reclaim_exists td path er s e s' : reclaim td path er s = (Err e, s') → IsAlreadyExists e = true → IsAlreadyExists er = true.
Proof.
  unfold reclaim.
  assert (∀ d s0, foreign "already exists" (if String.eqb d "" then (Ok tt, s0) else cleanupSnapshotDirectory d s0).1) as Hc.
  { intros d s0. destruct (String.eqb d ""); [apply foreign_Ok|apply foreign_cleanupDir]. }
  destruct (if String.eqb td "" then _ else _) as [r1 s1]. pose proof (Hc path s1) as H2.
  destruct (if String.eqb path "" then _ else _) as [r2 s2]. cbn [fst] in H2.
  destruct r1 as [[]|e1|], r2 as [[]|e2|]; try done; intros [= <- _]; try done;
    (specialize (H2 e2 eq_refl); unfold IsAlreadyExists, errdefs_ErrAlreadyExists in *; cbn [errors_Is] in *;
     rewrite H2; simpl; done).
Qed.

Lemma foreign_chown sn td h : foreign "already exists" (chown_to_parent sn td h : outcome () * host F).1.
Proof.
  unfold chown_to_parent. destruct (ParentIDs sn) as [|p ps]; [apply foreign_Ok|].
  apply foreign_st_bind; [apply foreign_st_wrap, foreign_syscall|intros ow h1; apply foreign_st_wrap, foreign_syscall]; intros h2.
  - destruct (find_dir _ h2); [apply foreign_Ok|by apply foreign_Err].
  - destruct (find_dir _ h2); [apply foreign_Ok|by apply foreign_Err].
Qed.
Lemma foreign_Rename a b h : foreign "already exists" (os_Rename a b h : outcome () * host F).1.
Proof.
  apply foreign_syscall. intros h1. destruct (tree h1 !! a); [|by apply foreign_Err].
  destruct (bool_decide _); [apply foreign_Ok|by apply foreign_Err].
Qed.

Lemma create_in_tx_exists kind k parent opts td s e : (create_in_tx kind k parent opts td s).1.1 = Err e →
  IsAlreadyExists e = true → is_Some (view (ms s) !! k).
Proof.
  unfold create_in_tx, IsAlreadyExists, errdefs_ErrAlreadyExists. pose proof (Create_view kind k parent opts (ms s)) as Hc.
  destruct (storage_CreateSnapshot kind k parent opts (ms s)) as [[sn|es|] m]; [| |done].
  2: { intros [= <-] He. by apply Hc. }
  unfold on_host at 1. pose proof (foreign_chown sn td (hst s)) as H1.
  destruct (chown_to_parent sn td (hst s)) as [[[]|e1|] h1]; cbn [fst] in *; [| |done].
  2: { intros [= <-] He. by rewrite (H1 e1) in He. }
  unfold on_host. cbn [hst set_hst]. pose proof (foreign_Rename td (Snap_ID sn) h1) as H2.
  destruct (os_Rename td (Snap_ID sn) h1) as [[[]|e2|] h2]; cbn [fst] in *; [| |done].
  2: { intros [= <-] He. cbn [errors_Is] in He. by rewrite (H2 e2) in He. }
  pose proof (ne_commit Hne m) as H3. destruct (ms_Commit m) as [[]|e3|]; cbn [fst]; [done| |done].
  intros [= <-] He. cbn [errors_Is] in He. by rewrite (H3 e3) in He.
Qed.

Lemma foreign_prepareDirectory kind h : foreign "already exists" (prepareDirectory (F:=F) kind h).1.2.
Proof.
  assert (∀ p h, foreign "already exists" (os_Mkdir p h : outcome () * host F).1) as Hmk.
  { intros p h0. apply foreign_syscall. intros h2.
    destruct (String.eqb _ _), (tree h2 !! _) as [subs|]; try (by apply foreign_Err); try apply foreign_Ok.
    destruct (subs !! _); [by apply foreign_Err|apply foreign_Ok]. }
  unfold prepareDirectory.
  assert (foreign "already exists" (os_MkdirTemp h).1) as Ht by (apply foreign_syscall; intros; apply foreign_Ok).
  destruct (os_MkdirTemp h) as [[t|et|] h1]; cbn [fst snd] in *; [| |done].
  - pose proof (foreign_st_bind "already exists" (os_Mkdir (mkPath t "fs"))
      (λ _, if bool_decide (kind = KindActive) then os_Mkdir (mkPath t "work") else st_ret tt) h1) as Hb.
    destruct (st_bind _ _ h1) as [r h2]. apply Hb; [apply Hmk|]. intros [] h3. destruct (bool_decide _); [apply Hmk|apply foreign_Ok].
  - apply foreign_Err. cbn [errors_Is]. by rewrite (Ht et).
Qed.

(** A snapshot that cannot be created exists only if its key does. *)
Lemma createSnapshot_exists kind k parent opts s e s' : createSnapshot kind k parent opts s = (Err e, s') →
  IsAlreadyExists e = true → is_Some (view (ms s) !! k).
Proof.
  unfold createSnapshot, begin_write. destruct (tx_open s); [done|].
  pose proof (ne_begin Hne true (ms s)) as Hb. destruct (ms_Begin true (ms s)) as [[]|eb|]; [| |done].
  2: { intros [= -> _] He. unfold IsAlreadyExists, errdefs_ErrAlreadyExists in He. by rewrite (Hb e) in He. }
  pose proof (foreign_prepareDirectory kind (hst s)) as Hr. destruct (prepareDirectory kind (hst s)) as [[td r] h].
  cbn [fst snd] in Hr.
  destruct r as [[]|er|]; [| |done].
  2: { intros H He. eapply reclaim_exists in H; [|done]. unfold IsAlreadyExists, errdefs_ErrAlreadyExists in H. cbn [errors_Is] in H.
       by rewrite (Hr er) in H. }
  pose proof (create_in_tx_exists kind k parent opts td (set_hst h s)) as Hc.
  destruct (create_in_tx kind k parent opts td (set_hst h s)) as [[[sn|ec|] [td' path]] s2]; [done| |done].
  intros H He. by eapply reclaim_exists in H; [apply (Hc ec eq_refl)|].
Qed.

Lemma commit_exists isRemote name k opts s e s' : commit isRemote name k opts s = (Err e, s') →
  IsAlreadyExists e = true → is_Some (view (ms s) !! name).
Proof.
  unfold commit, begin_write, IsAlreadyExists, errdefs_ErrAlreadyExists. destruct (tx_open s); [done|].
  pose proof (ne_begin Hne true (ms s)) as Hb. destruct (ms_Begin true (ms s)) as [[]|eb|]; [| |done].
  2: { intros [= -> _] He. by rewrite (Hb e) in He. }
  pose proof (ne_info Hne k (ms s)) as Hi. destruct (GetInfo k (ms s)) as [[[id info] u]|ei|]; [| |done].
  2: { intros [= -> _] He. by rewrite (Hi e) in He. }
  set (d := if isRemote then (Ok u, s) else on_host (DiskUsage (upperPath id)) s).
  assert (foreign "already exists" d.1 ∧ ms d.2 = ms s) as [Hd Hm].
  { unfold d. destruct isRemote; [by split; [apply foreign_Ok|]|]. unfold on_host.
    pose proof (ne_usage Hne (upperPath id) (hst s)) as Hu. by destruct (DiskUsage _ _). }
  destruct d as [[u'|ed|] s1]; cbn [fst snd] in Hd, Hm; [| |done].
  2: { intros [= -> _] He. by rewrite (Hd e) in He. }
  pose proof (CommitActive_view k name u' opts (ms s1)) as Hc. rewrite Hm in *.
  destruct (CommitActive k name u' opts (ms s)) as [[x|ec|] m]; [| |done].
  2: { intros [= <- _] He. by apply Hc. }
  pose proof (ne_commit Hne m) as Hcm. destruct (ms_Commit m) as [[]|em|]; [done| |done].
  intros [= -> _] He. by rewrite (Hcm e) in He.
Qed.

(** An answer for a layer: mounts while the snapshot stays active, or an error that means
    what it says. *)
Definition answers (target : string) s (r : outcome (list Mount)) s' : Prop :=
  match r with
  | Ok _ => view (ms s') = view (ms s)
  | Err e => IsAlreadyExists e = true → is_Some (view (ms s') !! target)
  | Panic => True
  end.

Lemma commit_target_answers X isRemote target k opts l s : live X s →
  let '(r, s') := commit_target isRemote target k opts l s in answers target s r s'.
Proof.
  intros Hs. unfold commit_target. pose proof (snapshot_commit_spec isRemote target k (opts ++ [snapshots_WithLabels l]) s Hs) as H.
  destruct (commit isRemote target k (opts ++ [snapshots_WithLabels l]) s) as [[x|e|] s1] eqn:E; destruct H as [_ H]; [| |done].
  - intros _. destruct H as (_ & u & l' & e & _ & _ & _ & ->). rewrite lookup_insert_eq. by eexists.
  - assert (IsAlreadyExists e = true → is_Some (view (ms s1) !! target)) as Hx.
    { rewrite H. intros He. by eapply commit_exists. }
    destruct (IsAlreadyExists e) eqn:Ee; cbn [answers]; [by auto|congruence].
Qed.

Lemma foreign_check_chain n c s : foreign "already exists" (check_chain n c s).1.
Proof.
  revert c s. induction n as [|n IH]; intros c s; cbn [check_chain]; [destruct (String.eqb c ""); [apply foreign_Ok|apply foreign_Panic]|].
  destruct (String.eqb c ""); [apply foreign_Ok|].
  destruct (GetInfo c (ms s)) as [[[id info] u]|e|]; [|apply foreign_Ok|apply foreign_Panic].
  destruct (match Info_Labels info !! remoteLabel with Some _ => _ | None => _ end) as [[[]|e|] s1]; [| |apply foreign_Panic];
    (apply foreign_st_bind; [apply IH|intros; apply foreign_Ok]).
Qed.

Lemma foreign_mounts sn key s : foreign "already exists" (mounts root userxattr sn key s).1.
Proof.
  unfold mounts. apply foreign_st_bind; [|intros b s0; destruct (negb b); [by apply foreign_Err|apply foreign_Ok]].
  destruct (String.eqb key ""); [apply foreign_Ok|]. unfold checkAvailability.
  destruct (ms_Begin false (ms s)); [|apply foreign_Ok|apply foreign_Panic]. apply foreign_check_chain.
Qed.
Lemma foreign_unpack ns k l mnts s : foreign "already exists" (unpack true ns k l mnts s).1.
Proof.
  unfold unpack, prepareParallelPullSnapshot, view_tx. apply foreign_st_bind.
  - cbn [fst]. pose proof (ne_begin Hne false (ms s)) as Hb. pose proof (ne_info Hne k (ms s)) as Hi.
    destruct (ms_Begin false (ms s)) as [[]|eb|]; [done|intros e' [= <-]; by apply Hb|apply foreign_Panic].
  - intros a s2. unfold on_host. pose proof (ne_parallel Hne ns (upperPath a.1.1) l mnts (hst s2)) as Hpar.
    by destruct (fs_MountParallel _ _ _ _ _).
Qed.

Lemma fallback_answers X sn ns target k parent opts l d s : live X s →
  let '(r, s') := prepare_fallback root userxattr o sn ns target k parent opts l d s in answers target s r s'.
Proof.
  intros Hs. unfold prepare_fallback, st_bind. destruct (frames_mounts (X:=X) (view (ms s)) sn parent s eq_refl Hs) as [Hv Hl].
  pose proof (foreign_mounts sn parent s) as Hm.
  destruct (mounts root userxattr sn parent s) as [[mnts|e|] s1]; cbn [fst snd] in *; [| |done].
  2: { cbn [answers]. intros He. unfold IsAlreadyExists, errdefs_ErrAlreadyExists in He. by rewrite (Hm e) in He. }
  destruct (d && _); [done|]. cbv beta zeta. set (par := parallelPullUnpack o || parallelPullAsFallback o && d).
  fold (unpack par ns k l mnts s1). pose proof (unpack_live X par ns k l mnts s1 Hl) as [Hv2 Hl2].
  assert (par = true → foreign "already exists" (unpack par ns k l mnts s1).1) as Hu by (intros ->; apply foreign_unpack).
  destruct (unpack par ns k l mnts s1) as [[x|e|] s2]; cbn [fst snd] in *; [| |done].
  - pose proof (commit_target_answers X false target k opts (if par then l else <[HasSociIndexDigest := "true"%string]> l) s2 (Hl2 eq_refl)) as H.
    destruct (commit_target _ _ _ _ _ s2) as [r s3]. destruct r; cbn [answers] in *; [congruence|exact H|exact H].
  - destruct par; cbn [answers]; [|congruence]. intros He. unfold IsAlreadyExists, errdefs_ErrAlreadyExists in He. by rewrite (Hu eq_refl e) in He.
Qed.

Lemma layer_answers X sn ns target k parent opts l s : live X s →
  let '(r, s') := prepare_layer root userxattr o sn ns target k parent opts l s in answers target s r s'.
Proof.
  intros Hs. unfold prepare_layer. destruct (skipRemoteSnapshotPrepare o l); [by apply (fallback_answers X)|].
  destruct (frames_prepareRemote (X:=X) (view (ms s)) ns k l s eq_refl Hs) as [Hv Hl].
  destruct (prepareRemoteSnapshot ns k l s) as [[x|e|] s1]; cbn [fst snd] in *; [| |done].
  - pose proof (commit_target_answers X true target k opts
      (<[HasSociIndexDigest := "true"%string]> (<[remoteLabel := remoteLabelVal]> l)) s1 Hl) as H.
    destruct (commit_target _ _ _ _ _ s1) as [r s2]. destruct r; cbn [answers] in *; [congruence|exact H|exact H].
  - pose proof (fallback_answers X sn ns target k parent opts l (negb (errors_Is e ErrNoZtoc) && errors_Is e ErrNoIndex) s1 Hl) as H.
    destruct (prepare_fallback _ _ _ _ _ _ _ _ _ _ _ s1) as [r s2]. destruct r; cbn [answers] in *; [congruence|exact H|exact H].
Qed.

(** C18: the answers of [Prepare] for an image layer can be trusted.  When it says that the
    target exists, which makes containerd skip the download, the target is in the store;
    when it returns mounts, for containerd to unpack the layer to, the snapshot is in the
    store as an active one with its directories.  The key is new, and only the store says
    that a name exists ([no_exist_errors]): its other errors and those of the service do not
    wrap [ErrAlreadyExists].  Nothing is asked of the snapshots whose directory was lost
    before ([X]). *)
Theorem Prepare_answers X ns k parent opts base target s :
  live X s → view (ms s) !! k = None → apply_opts ∅ opts = Ok base → base !! targetSnapshotLabel = Some target →
  match Prepare root userxattr o ns k parent opts s with
  | (Ok _, s') => ∃ e, view (ms s') !! k = Some e ∧ e_info e = mkInfo KindActive k parent base ∧
      has (hst s') (e_id e) "fs" ∧ has (hst s') (e_id e) "work"
  | (Err e, s') => IsAlreadyExists e = true → is_Some (view (ms s') !! target)
  | (Panic, _) => True
  end.
Proof.
  intros Hs Hk Hbase Ht. unfold Prepare, st_bind, st_lift. pose proof (createSnapshot_spec (X:=X) KindActive k parent opts s Hs) as H.
  destruct (createSnapshot KindActive k parent opts s) as [[sn|e|] s1] eqn:Ec; destruct H as [Hs1 H]; [| |done].
  2: { intros He. eapply createSnapshot_exists in Ec; [|done]. rewrite Hk in Ec. by destruct Ec. }
  destruct H as ((_ & l & e & Hl & Hv & Hi & Hid & _) & Hfs). rewrite Hbase in Hl. injection Hl as <-.
  rewrite Hbase, Ht. destruct ns as [n|]; [|done]. set (Y := λ d, X d ∧ d ≠ Snap_ID sn).
  assert (live Y s1) as Hs2.
  { intros k' e' He'. destruct (Hs1 k' e' He') as (H0 & H1 & H2). split_and!; [done| |done]. intros Hn.
    destruct (decide (e_id e' = Snap_ID sn)) as [->|]; [done|]. apply H1. intros ?. by apply Hn. }
  pose proof (layer_answers Y sn (Some n) target k parent opts (<[TargetNamespace := n]> base) s1 Hs2) as Ha.
  pose proof (layer_spares Y sn (Some n) target k parent opts (<[TargetNamespace := n]> base) s1 Hs2) as Hsp.
  destruct (prepare_layer _ _ _ _ _ _ _ _ _ _ s1) as [[mnts|er|] s2]; cbn [answers] in *; [|done..].
  destruct Hsp as [Hlive|[? _]]; [|done]. exists e.
  assert (view (ms s2) !! k = Some e) as He by (by rewrite Ha, Hv, lookup_insert_eq).
  destruct (Hlive k e He) as (_ & H1 & H2). split_and!; [done|done| |].
  - apply H1. rewrite Hid. by intros [_ ?].
  - apply H2. unfold e_kind. by rewrite Hi.
Qed.
End answers.
End live.
