(* ===== verification/SnapshotChecks.v ===== *)
(** * Further facts about the snapshotter

    The check of the lower layers is a run over the chain of the snapshot and ends; a
    restart brings back every lazily mounted layer; what is left behind when the usage of a
    layer cannot be measured and when an image cannot be cleaned; how layers that are
    unpacked locally are labelled. *)
From Stdlib Require Import ZArith Lia Ascii.
From stdpp Require Import base list gmap strings numbers.
From S2P Require Import Prelude GoLib IDMap Oci ArtifactsDb ForeignErrors SnapshotHost Snapshot SnapshotFacts.
#[local] Open Scope Z_scope.

(** The snapshot [k] and its ancestors, youngest first. *)
Inductive chain (v : gmap string entry) : string → list entry → Prop :=
| chain_root : chain v "" []
| chain_step k e es : k ≠ ""%string → v !! k = Some e → chain v (e_parent e) es → chain v k (e :: es).

(** The snapshots that are not younger than [n]. *)
Definition older (v : gmap string entry) (n : Z) : gmap string entry := filter (λ x, e_seq x.2 <= n) v.

Lemma older_size v n : (base.size (older v n) <= base.size v)%nat.
Proof. apply map_subseteq_size, map_filter_subseteq. Qed.
Lemma older_lt v k e n : v !! k = Some e → n < e_seq e → (base.size (older v n) < base.size (older v (e_seq e)))%nat.
Proof.
  intros He Hn. apply map_subset_size. split.
  - apply map_filter_subseteq_ext. intros k' e' _. simpl. lia.
  - intros H. assert (older v (e_seq e) !! k = Some e) as H1 by (apply map_lookup_filter_Some; simpl; split; [done|lia]).
    eapply lookup_weaken in H1; [|exact H]. apply map_lookup_filter_Some in H1 as [_ H1]. simpl in H1. lia.
Qed.

Section checks.
Context {M F : Type} `{HM : MetaStore M} `{HML : !MetaStoreLaws M} `{HF : FileSystem F} `{HFL : !FileSystemLaws F}.
Context (root : string) (userxattr : bool) (o : SnapshotterConfig).
Abbreviation st := (state M F).
Implicit Types (s : st) (h : host F) (sn : Snapshot).

(** ** Checking the chain *)

(** The reference: run [Check] on every snapshot of the chain that is mounted lazily. *)
Fixpoint run_checks (es : list entry) : host F → list bool * host F := λ h,
  match es with
  | [] => ([], h)
  | e :: es' =>
      match Info_Labels (e_info e) !! remoteLabel with
      | None => run_checks es' h
      | Some _ =>
          let '(r, h1) := fs_Check (upperPath (e_id e)) (Info_Labels (e_info e)) h in
          let '(bs, h2) := run_checks es' h1 in
          (is_ok r :: bs, h2)
      end
  end.

Lemma ids_size m ids : storage_IDMap m = Ok ids → (base.size (view m) <= base.size ids)%nat.
Proof.
  intros Hids. pose proof (IDMap_view m) as Hm. rewrite Hids in Hm.
  assert ((map_to_list (view m)).*1 ⊆+ (map_to_list ids).*2) as Hsub.
  { apply NoDup_submseteq; [apply NoDup_fst_map_to_list|]. intros k [[k' e] [-> He]]%list_elem_of_fmap.
    apply elem_of_map_to_list in He. apply list_elem_of_fmap. exists (e_id e, k'). split; [done|].
    apply elem_of_map_to_list, Hm. by exists e. }
  apply submseteq_length in Hsub. by rewrite !length_fmap, !length_map_to_list in Hsub.
Qed.
Lemma chain_fuel_enough m k e : view m !! k = Some e → (base.size (older (view m) (e_seq e)) < chain_fuel m)%nat.
Proof.
  intros He. pose proof (IDMap_view m) as Hm. pose proof (ids_size m) as Hs. pose proof (older_size (view m) (e_seq e)).
  unfold chain_fuel. destruct (storage_IDMap m) as [ids|er|]; [|by rewrite Hm in He|done].
  specialize (Hs ids eq_refl). lia.
Qed.

Context (Hcheck : ∀ p l h, (fs_Check p l h).1 ≠ Panic).

Lemma check_chain_run n k s e : view (ms s) !! k = Some e → (base.size (older (view (ms s)) (e_seq e)) <= n)%nat →
  ∃ es, chain (view (ms s)) k es ∧
    check_chain n k s = (Ok (forallb id (run_checks es (hst s)).1), set_hst (run_checks es (hst s)).2 s).
Proof.
  revert k s e. induction n as [|n IH]; intros k s e He Hn; destruct (view_key (ms s) k e He) as [Hk _].
  { assert (older (view (ms s)) (e_seq e) !! k = Some e) as H1 by (apply map_lookup_filter_Some; simpl; split; [done|lia]).
    assert (older (view (ms s)) (e_seq e) = ∅) as H2 by (apply map_size_empty_inv; lia). by rewrite H2 in H1. }
  cbn [check_chain]. apply String.eqb_neq in Hk as Hkb. rewrite Hkb.
  pose proof (GetInfo_view k (ms s)) as Hg. rewrite He in Hg. rewrite Hg.
  assert (∀ s1, ms s1 = ms s → ∃ es, chain (view (ms s)) (e_parent e) es ∧
    check_chain n (Info_Parent (e_info e)) s1 = (Ok (forallb id (run_checks es (hst s1)).1), set_hst (run_checks es (hst s1)).2 s1)) as Hrest.
  { intros s1 Hm. destruct (decide (e_parent e = ""%string)) as [Hp|Hp].
    - exists []. unfold e_parent in Hp. split; [unfold e_parent; rewrite Hp; constructor|]. rewrite Hp. by destruct s1, n.
    - destruct (view_parent (ms s) k e He Hp) as (pe & Hpe & _ & Hlt). rewrite <-Hm in Hpe.
      destruct (IH (e_parent e) s1 pe Hpe) as (es & Hes & Hrun); [|exists es; by rewrite <-Hm at 1].
      rewrite Hm. pose proof (older_lt (view (ms s)) k e (e_seq pe) He Hlt). lia. }
  destruct (Info_Labels (e_info e) !! remoteLabel) as [x|] eqn:Er.
  - unfold on_host. pose proof (Hcheck (upperPath (e_id e)) (Info_Labels (e_info e)) (hst s)) as Hc.
    destruct (fs_Check (upperPath (e_id e)) (Info_Labels (e_info e)) (hst s)) as [r h1] eqn:Ec.
    destruct (Hrest (set_hst h1 s) eq_refl) as (es & Hes & Hrun). exists (e :: es). split; [by constructor|].
    cbn [run_checks]. rewrite Er, Ec. cbn [hst set_hst] in Hrun.
    destruct (run_checks es h1) as [bs h2]. cbn [fst snd forallb] in *. unfold st_bind. rewrite Hrun.
    by destruct r as [[]|er|].
  - destruct (Hrest s eq_refl) as (es & Hes & Hrun). exists (e :: es). split; [by constructor|].
    cbn [run_checks]. rewrite Er. unfold st_bind. by rewrite Hrun.
Qed.

(** C20: the check of the layers below a snapshot ends, because parents are older than their
    children, and does what it means to do: it says yes exactly if [Check] of the file
    system service passes for every lazily mounted snapshot from the snapshot down to the
    base of the image. *)
Theorem checkAvailability_exact k s :
  is_Some (view (ms s) !! k) → ms_Begin false (ms s) = Ok tt →
  ∃ es, chain (view (ms s)) k es ∧
    checkAvailability k s = (Ok (forallb id (run_checks es (hst s)).1), set_hst (run_checks es (hst s)).2 s).
Proof.
  intros [e He] Hb. unfold checkAvailability. rewrite Hb. apply (check_chain_run _ k s e He).
  pose proof (chain_fuel_enough (ms s) k e He). lia.
Qed.
End checks.

Section more.
Context {M F : Type} `{HM : MetaStore M} `{HML : !MetaStoreLaws M} `{HF : FileSystem F} `{HFL : !FileSystemLaws F}.
Context (root : string) (userxattr : bool) (o : SnapshotterConfig).
Abbreviation st := (state M F).
Implicit Types (s : st) (h : host F) (sn : Snapshot).

(** ** Restarting *)

(** Nothing that is there is lost, and the store stays. *)
Definition grows s s' : Prop := ms s' = ms s ∧ ∀ d x, has (hst s) d x → has (hst s') d x.
Lemma grows_refl s : grows s s.
Proof. by split. Qed.
Lemma grows_trans s1 s2 s3 : grows s1 s2 → grows s2 s3 → grows s1 s3.
Proof. intros [E1 H1] [E2 H2]. split; [congruence|auto]. Qed.
Lemma grows_quiet {A} (m : ST (host F) A) s : quiet m → grows s (on_host m s).2.
Proof.
  intros Hq. unfold on_host. specialize (Hq (hst s)). destruct (m (hst s)) as [r h]. split; [done|].
  intros d x. eapply has_same; [exact Hq|by intros []].
Qed.

Lemma Mkdir_keeps p h d x : has h d x → has (os_Mkdir p h : outcome () * host F).2 d x.
Proof.
  intros Hd. destruct (os_Mkdir p h) as [r h'] eqn:E. apply syscall_inv in E as [(e & _ & Ht)|(h0 & Ht & E)].
  { unfold has in *. cbn [snd]. by rewrite Ht. }
  cbn [snd]. unfold has in Hd. rewrite <-Ht in Hd. fold (has h0 d x) in Hd.
  assert (∀ subs', (∀ subs, tree h0 !! p_entry p = Some subs → ∀ y, is_Some (subs !! y) → is_Some (subs' !! y)) →
    (tree h0 !! p_entry p = None ∨ is_Some (tree h0 !! p_entry p)) →
    has (set_tree (<[p_entry p := subs']> (tree h0)) h0) d x) as Hset.
  { intros subs' Hs _. unfold has in *. cbn [tree set_tree]. destruct (decide (d = p_entry p)) as [->|];
      [|by rewrite lookup_insert_ne]. rewrite lookup_insert_eq. destruct (tree h0 !! p_entry p) as [subs|] eqn:Es; [|by destruct Hd].
    cbn [mbind option_bind] in *. by eapply Hs. }
  destruct (String.eqb (p_sub p) ""), (tree h0 !! p_entry p) as [subs|] eqn:Es; try (injection E as <- <-; done).
  - injection E as <- <-. apply Hset; [by intros ?|by left].
  - destruct (subs !! p_sub p); injection E as <- <-; [done|]. apply Hset; [|right; by eexists].
    intros subs0 [= <-] y Hy. destruct (decide (y = p_sub p)) as [->|]; [rewrite lookup_insert_eq; by eexists|by rewrite lookup_insert_ne].
Qed.

Lemma ensure_dir_spec p s : let '(r, s') := ensure_dir p s in
  grows s s' ∧ (r = Ok tt → p_sub p ≠ ""%string → has (hst s') (p_entry p) (p_sub p)).
Proof.
  unfold ensure_dir, on_host. pose proof (Mkdir_keeps p (hst s)) as Hk.
  destruct (os_Mkdir p (hst s)) as [r h] eqn:E. cbn [snd] in Hk.
  assert (grows s (set_hst h s)) as Hg by (split; [done|exact Hk]).
  assert ((r = Ok tt ∨ ∃ e, r = Err e ∧ errors_Is e os_ErrExist = true) → p_sub p ≠ ""%string →
    has (hst (set_hst h s)) (p_entry p) (p_sub p)) as Hin.
  { intros Hr Hsub. unfold os_Mkdir, syscall in E. destruct (faults (hst s) (clock (hst s))) as [er|].
    { injection E as <- <-. destruct Hr as [?|(e & [= <-] & He)]; [done|]. by destruct er. }
    apply String.eqb_neq in Hsub. rewrite Hsub in E. cbn [tree] in E. unfold has. cbn [hst set_hst].
    destruct (tree (hst s) !! p_entry p) as [subs|] eqn:Es.
    - destruct (subs !! p_sub p) eqn:Ex; injection E as <- <-; cbn [tree set_tree].
      + rewrite Es. cbn [mbind option_bind]. rewrite Ex. by eexists.
      + rewrite lookup_insert_eq. cbn [mbind option_bind]. rewrite lookup_insert_eq. by eexists.
    - injection E as <- <-. destruct Hr as [?|(e & [= <-] & He)]; [done|]. by vm_compute in He. }
  destruct r as [[]|e|]; [by split; auto| |by split].
  destruct (errors_Is e os_ErrExist) eqn:Ee; [|by split].
  split; [done|]. intros _ Hsub. apply Hin; [|done]. right. by exists e.
Qed.

Lemma restore_dirs_spec name e s : view (ms s) !! name = Some e →
  let '(r, s') := restore_dirs name s in grows s s' ∧ (r = Ok tt → has (hst s') (e_id e) "fs").
Proof.
  intros He. unfold restore_dirs, view_tx, st_bind at 1. destruct (ms_Begin false (ms s)); [|done..].
  pose proof (GetInfo_view name (ms s)) as Hg. rewrite He in Hg. rewrite Hg. cbn [fst]. unfold st_bind.
  pose proof (ensure_dir_spec (mkPath (e_id e) "") s) as H1. destruct (ensure_dir (mkPath (e_id e) "") s) as [[[]|er|] s1];
    destruct H1 as [H1 _]; [|by split..].
  pose proof (ensure_dir_spec (upperPath (e_id e)) s1) as H2. destruct (ensure_dir (upperPath (e_id e)) s1) as [r s2].
  destruct H2 as [H2 Hin]. split; [by eapply grows_trans|]. intros ->. by apply Hin.
Qed.

Lemma grows_prepareRemote ns k l s : grows s (prepareRemoteSnapshot ns k l s).2.
Proof.
  unfold prepareRemoteSnapshot, view_tx, st_bind. destruct (ms_Begin false (ms s)); [|apply grows_refl..].
  destruct (GetInfo k (ms s)); [|apply grows_refl..]. apply grows_quiet, quiet_Mount.
Qed.

(** The lazily mounted snapshot [e] is back: its directory is there and, unless failures
    are tolerated, the service was asked to mount it in its namespace and did. *)
Definition remounted s' (e : entry) : Prop :=
  has (hst s') (e_id e) "fs" ∧
  (allowInvalidMountsOnRestart o = false →
    ∃ ns h1 h2, Info_Labels (e_info e) !! TargetNamespace = Some ns ∧
      fs_Mount (Some ns) (upperPath (e_id e)) (Info_Labels (e_info e)) h1 = (Ok tt, h2)).

Lemma restore_tasks_spec task s s' : restore_tasks o task s = (Ok tt, s') → (∀ i, i ∈ task → ∃ k e, view (ms s) !! k = Some e ∧ e_info e = i) →
  grows s s' ∧ ∀ k e, view (ms s) !! k = Some e → e_info e ∈ task → remounted s' e.
Proof.
  revert s. induction task as [|i task IH]; intros s; cbn [restore_tasks]; intros Hr Hin.
  { injection Hr as <-. split; [by apply grows_refl|]. intros k e _ H. by apply not_elem_of_nil in H. }
  destruct (Hin i (list_elem_of_here _ _)) as (k & e & He & <-). destruct (view_key (ms s) k e He) as [_ Hk]. rewrite Hk in Hr.
  unfold st_bind, st_map_err in Hr. pose proof (restore_dirs_spec k e s He) as Hd.
  destruct (restore_dirs k s) as [[[]|er|] s1]; cbn [map_err] in Hr; [|done..]. destruct Hd as [Hg1 Hfs]. specialize (Hfs eq_refl).
  destruct (Info_Labels (e_info e) !! TargetNamespace) as [ns|] eqn:Ens; [|done].
  pose proof (grows_prepareRemote (Some ns) k (Info_Labels (e_info e)) s1) as Hg2.
  assert (∃ h2, (prepareRemoteSnapshot (Some ns) k (Info_Labels (e_info e)) s1).1 = Ok tt →
    fs_Mount (Some ns) (upperPath (e_id e)) (Info_Labels (e_info e)) (hst s1) = (Ok tt, h2)) as [h2 Hm].
  { destruct (fs_Mount (Some ns) (upperPath (e_id e)) (Info_Labels (e_info e)) (hst s1)) as [r h2] eqn:Em. exists h2.
    unfold prepareRemoteSnapshot, view_tx, st_bind. destruct (ms_Begin false (ms s1)); [|done..].
    pose proof (GetInfo_view k (ms s1)) as Hg. rewrite (proj1 Hg1), He in Hg. rewrite (proj1 Hg1), Hg. cbn [fst]. unfold on_host.
    rewrite Em. cbn [fst]. by intros ->. }
  destruct (prepareRemoteSnapshot (Some ns) k (Info_Labels (e_info e)) s1) as [r s2]. cbn [fst snd] in *.
  assert (restore_tasks o task s2 = (Ok tt, s') ∧ (allowInvalidMountsOnRestart o = false → r = Ok tt)) as [Hrest Hok].
  { destruct r as [[]|er|]; [done| |done]. by destruct (allowInvalidMountsOnRestart o). }
  assert (grows s s2) as Hg by (by eapply grows_trans). pose proof (proj1 Hg) as Hms.
  apply IH in Hrest as [Hg3 Hall]; [|intros i Hi; rewrite Hms; apply Hin; by right].
  split; [by eapply grows_trans|]. intros k' e' He' [Heq|Hi]%elem_of_cons; [|rewrite Hms in Hall; by apply (Hall k')].
  destruct (view_key (ms s) k' e' He') as [_ Hk']. rewrite Heq, Hk in Hk'. subst k'. rewrite He in He'. injection He' as <-.
  split; [by apply Hg3, Hg2|]. intros Hinv. exists ns, (hst s1), h2. auto.
Qed.

Lemma grows_unmount mps s s' h' : unmount_under_root root mps (hst s) = (Ok tt, h') → s' = set_hst h' s → grows s s'.
Proof.
  revert s. induction mps as [|mp mps IH]; intros s; cbn [unmount_under_root].
  { intros [= <-] ->. destruct s. apply grows_refl. }
  set (m := if HasPrefix mp (root +:+ "/snapshots") then _ else _ : ST (host F) ()).
  assert (quiet m) as Hq.
  { unfold m. destruct (HasPrefix _ _); [|by intros h d _]. intros h. unfold st_map_err. pose proof (quiet_syscall_Unmount mp h) as Hq.
    by destruct (syscall_Unmount mp h). }
  apply (grows_quiet m s) in Hq. unfold st_bind. unfold on_host in Hq. destruct (m (hst s)) as [[[]|e|] h1]; [|done..].
  intros Hr ->. eapply grows_trans; [exact Hq|]. by eapply (IH (set_hst h1 s)).
Qed.

(** A restart brings back every lazily mounted layer.  When [NewSnapshotter] succeeds,
    each snapshot of the store that carries the label of remote snapshots has its directory,
    and, unless invalid mounts are allowed on restart, the file system service has mounted
    its layer again in the namespace it was pulled in; the store is as it was and no
    directory is lost. *)
Theorem restore_brings_back s s' :
  restoreRemoteSnapshot root o s = (Ok tt, s') →
  grows s s' ∧ ∀ k e, view (ms s) !! k = Some e → is_Some (Info_Labels (e_info e) !! remoteLabel) → remounted s' e.
Proof.
  unfold restoreRemoteSnapshot, st_bind. pose proof (grows_quiet GetMounts s quiet_GetMounts) as Hg1.
  destruct (on_host GetMounts s) as [[mps|e|] s1]; [|done..]. cbn [snd] in Hg1. unfold on_host.
  pose proof (grows_unmount mps s1) as Hg2. destruct (unmount_under_root root mps (hst s1)) as [[[]|e|] h2]; [|done..].
  specialize (Hg2 _ h2 eq_refl eq_refl). assert (grows s (set_hst h2 s1)) as Hg by (by eapply grows_trans).
  set (s2 := set_hst h2 s1) in *. pose proof (proj1 Hg) as Hms. unfold Walk, view_tx. pose proof (WalkInfo_view (ms s2)) as Hw.
  set (w := match ms_Begin false (ms s2) with Ok _ => _ | Err e => _ | Panic => _ end).
  assert (match w with Ok infos => ∀ i, i ∈ infos ↔ ∃ k e, view (ms s2) !! k = Some e ∧ e_info e = i
          | Err er => IsNotFound er = true → view (ms s2) = ∅ | Panic => True end) as Hw'.
  { unfold w. pose proof (Begin_found false (ms s2)) as Hb. destruct (ms_Begin false (ms s2)) as [[]|eb|]; [|rewrite (Hb eb)|]; [|done..].
    by destruct (WalkInfo (ms s2)). }
  clearbody w. clear Hw. destruct w as [infos|er|]; [| |done].
  - intros Hr. apply restore_tasks_spec in Hr as [Hg3 Hall].
    + split; [by eapply grows_trans|]. intros k e He Hrem. rewrite <-Hms in He. apply (Hall k e He).
      apply list_elem_of_In, filter_In. split; [apply list_elem_of_In, Hw'; by exists k, e|by apply bool_decide_eq_true].
    + intros i [Hi _]%list_elem_of_In%filter_In. by apply Hw', list_elem_of_In.
  - destruct (IsNotFound er); [|done]. intros [= <-]. specialize (Hw' eq_refl). split; [done|].
    intros k e He. by rewrite <-Hms, Hw' in He.
Qed.


(** ** A transaction that is left open *)
Lemma open_create kind k parent opts s : tx_open s = true → createSnapshot kind k parent opts s = (Panic, s).
Proof. intros Ht. unfold createSnapshot, begin_write. by rewrite Ht. Qed.
Lemma open_write_tx {A} (f : ST st A) s : tx_open s = true → write_tx f s = (Panic, s).
Proof. intros Ht. unfold write_tx, begin_write. by rewrite Ht. Qed.

(** Operations that write, as calls that answer nothing in particular. *)
Inductive writes : ST st () → Prop :=
| W_Prepare ns k parent opts : writes (st_bind (Prepare root userxattr o ns k parent opts) (λ _, st_ret tt))
| W_View k parent opts : writes (st_bind (View root userxattr k parent opts) (λ _, st_ret tt))
| W_Commit name k opts : writes (Commit name k opts)
| W_Remove k : writes (Remove o k)
| W_Cleanup : writes Cleanup
| W_Update i fps : writes (st_bind (Update i fps) (λ _, st_ret tt)).

Lemma open_blocks op s : writes op → tx_open s = true → op s = (Panic, s).
Proof.
  intros Hop Ht. destruct Hop.
  - unfold Prepare, st_bind. by rewrite open_create.
  - unfold View, st_bind. by rewrite open_create.
  - unfold Commit, commit, begin_write. by rewrite Ht.
  - unfold Remove, st_bind. by rewrite open_write_tx.
  - unfold Cleanup, cleanup, cleanupDirectories, st_bind, begin_write. by rewrite Ht.
  - unfold Update, st_bind. by rewrite open_write_tx.
Qed.

(** When the usage of the layer cannot be measured, [Commit] returns the error but
    leaves its write transaction open: its deferred function looks at another variable
    [err].  From then on every operation that writes waits for ever. *)
Theorem failed_usage_blocks_writes name k opts s e er h :
  tx_open s = false → ms_Begin true (ms s) = Ok tt → view (ms s) !! k = Some e →
  DiskUsage (upperPath (e_id e)) (hst s) = (Err er, h) →
  ∃ s', Commit name k opts s = (Err er, s') ∧ ms s' = ms s ∧ ∀ op, writes op → op s' = (Panic, s').
Proof.
  intros Ht Hb He Hd. exists (mkState (ms s) h (idmapped s) true). split; [|split; [done|]].
  - unfold Commit, commit, begin_write. rewrite Ht, Hb. pose proof (GetInfo_view k (ms s)) as Hg. rewrite He in Hg. rewrite Hg.
    unfold on_host. by rewrite Hd.
  - intros op Hop. by apply open_blocks.
Qed.
End more.

(** ** How a layer was provided *)
Inductive how := Lazy | Unpacked | ParallelPulled.

(** What the labels of the committed snapshot say. *)
Definition labels_of (w : how) (l : labels) : labels :=
  match w with
  | Lazy => <[HasSociIndexDigest := "true"%string]> (<[remoteLabel := remoteLabelVal]> l)
  | Unpacked => <[HasSociIndexDigest := "true"%string]> l
  | ParallelPulled => l
  end.

Lemma labels_of_covers w base n : labels_of w (<[TargetNamespace := n]> base) ∪ base = labels_of w (<[TargetNamespace := n]> base).
Proof.
  destruct w; cbn [labels_of]; rewrite <-!insert_union_l; by rewrite (idemp (∪)).
Qed.

Section provided.
Context {M F : Type} `{HM : MetaStore M} `{HML : !MetaStoreLaws M} `{HF : FileSystem F} `{HFL : !FileSystemLaws F}.
Context (root : string) (userxattr : bool) (o : SnapshotterConfig).
Abbreviation st := (state M F).
Implicit Types (s : st) (h : host F) (sn : Snapshot).

(** The state [s1] in which [Prepare] has made its snapshot, after the attempt to mount the
    layer lazily, if there was one. *)
Definition tried (ns : option string) (k : string) (l : labels) (s1 : st) : st :=
  if skipRemoteSnapshotPrepare o l then s1 else (prepareRemoteSnapshot ns k l s1).2.

(** What the service did for the layer with the directory [id], when it was asked to: for
    the state the call was made in and with the mounts of the new snapshot. *)
Definition done_by (w : how) sn (ns : option string) (k parent id : string) (l : labels) (s1 : st) : Prop :=
  let lazily := fs_Mount ns (upperPath id) l (hst s1) in
  let failed := skipRemoteSnapshotPrepare o l = true ∨ is_ok (prepareRemoteSnapshot ns k l s1).1 = false in
  match w with
  | Lazy => skipRemoteSnapshotPrepare o l = false ∧ is_ok lazily.1 = true
  | Unpacked => parallelPullUnpack o = false ∧ failed ∧
      ∃ mnts s2, mounts root userxattr sn parent (tried ns k l s1) = (Ok mnts, s2) ∧
        is_ok (fs_MountLocal ns (upperPath id) l mnts (hst s2)).1 = true
  | ParallelPulled => parallel_on o = true ∧ failed ∧
      ∃ mnts s2, mounts root userxattr sn parent (tried ns k l s1) = (Ok mnts, s2) ∧
        is_ok (fs_MountParallel ns (upperPath id) l mnts (hst s2)).1 = true
  end.

(** [v] is the store before the snapshot [k] is committed as [target], [v'] after. *)
Definition provided sn (ns : option string) (target k parent : string) (l : labels) (s1 : st) (v v' : gmap string entry) : Prop :=
  ∃ w e u, v !! k = Some e ∧ done_by w sn ns k parent (e_id e) l s1 ∧ v' !! target = Some (committed_as target u (labels_of w l) e).

Context (Hne : no_exist_errors (M:=M) (F:=F)).

Lemma apply_opts_app l opts opts' : apply_opts l (opts ++ opts') = (l' ← apply_opts l opts; apply_opts l' opts').
Proof. revert l. induction opts as [|f opts IH]; intros l; [done|]. cbn [apply_opts app]. destruct (f l); [|done..]. cbn. apply IH. Qed.

Lemma commit_target_new X isRemote target k opts base l s er s' :
  live X s → view (ms s) !! target = None → apply_opts ∅ opts = Ok base →
  commit_target isRemote target k opts l s = (Err er, s') → IsAlreadyExists er = true →
  ∃ e u, view (ms s) !! k = Some e ∧ view (ms s') !! target = Some (committed_as target u (l ∪ base) e).
Proof.
  intros Hs Hn Hb. unfold commit_target. pose proof (snapshot_commit_spec (X:=X) isRemote target k (opts ++ [snapshots_WithLabels l]) s Hs) as H.
  destruct (commit isRemote target k (opts ++ [snapshots_WithLabels l]) s) as [[x|e|] s1] eqn:E; destruct H as [_ H]; [| |done].
  - intros [= <- <-] _. destruct H as (_ & u & l' & e & Hl & He & _ & ->). exists e, u. rewrite lookup_insert_eq.
    rewrite apply_opts_app, Hb in Hl. cbn in Hl. rewrite WithLabels_view in Hl. by injection Hl as <-.
  - destruct (IsAlreadyExists e) eqn:Ee; [|intros [= <- _] ?; congruence].
    destruct (commit_exists Hne _ _ _ _ _ _ _ E Ee) as [? Hx]. by rewrite Hn in Hx.
Qed.

Definition answered sn ns target k parent l (s1 : st) s (r : outcome (list Mount)) s' : Prop :=
  match r with
  | Err er => IsAlreadyExists er = true → provided sn ns target k parent l s1 (view (ms s)) (view (ms s'))
  | _ => True
  end.

Lemma commit_target_provided X w isRemote sn ns target k parent opts base n l s1 s e :
  live X s → view (ms s) !! target = None → apply_opts ∅ opts = Ok base → l = <[TargetNamespace := n]> base →
  view (ms s) !! k = Some e → done_by w sn ns k parent (e_id e) l s1 →
  let '(r, s') := commit_target isRemote target k opts (labels_of w l) s in answered sn ns target k parent l s1 s r s'.
Proof.
  intros Hs Hn Hb -> He Hd. destruct (commit_target _ _ _ _ _ s) as [[x|er|] s'] eqn:E; [done| |done]. intros Hex.
  eapply commit_target_new in E as (e' & u & He' & Ht); [|done..]. rewrite He in He'. injection He' as <-.
  exists w, e, u. split_and!; [done..|]. by rewrite labels_of_covers in Ht.
Qed.

Lemma view_GetInfo k e s : view (ms s) !! k = Some e → GetInfo k (ms s) = Ok (e_id e, e_info e, e_usage e).
Proof. intros He. pose proof (GetInfo_view k (ms s)) as Hg. by rewrite He in Hg. Qed.

(** A step of [Prepare] that asks the service about the directory of the snapshot. *)
Lemma asked {A} k e s (f : string → ST (host F) A) r s' : view (ms s) !! k = Some e →
  st_bind (view_tx (GetInfo k)) (λ r, on_host (f r.1.1)) s = (Ok r, s') → is_ok (f (e_id e) (hst s)).1 = true.
Proof.
  intros He. unfold st_bind, view_tx. rewrite (view_GetInfo k e s He). destruct (ms_Begin false (ms s)); [|done..].
  unfold on_host. cbn [fst]. destruct (f (e_id e) (hst s)) as [r' h]. by intros [= -> _].
Qed.

Lemma fallback_provided X sn ns target k parent opts base n l d s0 s e : s = tried ns k l s0 →
  (skipRemoteSnapshotPrepare o l = true ∨ is_ok (prepareRemoteSnapshot ns k l s0).1 = false) →
  live X s → view (ms s) !! target = None → apply_opts ∅ opts = Ok base → l = <[TargetNamespace := n]> base →
  view (ms s) !! k = Some e →
  let '(r, s') := prepare_fallback root userxattr o sn ns target k parent opts l d s in answered sn ns target k parent l s0 s r s'.
Proof.
  intros Hs0 Hf Hs Hn Hb Hl He. unfold prepare_fallback, st_bind at 1. destruct (frames_mounts root userxattr (X:=X) (view (ms s)) sn parent s eq_refl Hs) as [Hv1 Hl1].
  pose proof (foreign_mounts root userxattr sn parent s) as Hm.
  destruct (mounts root userxattr sn parent s) as [[mnts|em|] s1] eqn:Em; cbn [fst snd] in *; [| |done].
  2: { intros Hx. unfold IsAlreadyExists, errdefs_ErrAlreadyExists in Hx. by rewrite (Hm em) in Hx. }
  destruct (d && _); [done|]. cbv beta zeta. set (par := parallelPullUnpack o || parallelPullAsFallback o && d).
  fold (unpack par ns k l mnts s1). destruct (unpack_live X par ns k l mnts s1 Hl1) as [Hv2 Hl2].
  assert (par = true → foreign "already exists" (unpack par ns k l mnts s1).1) as Hu by (intros ->; by apply foreign_unpack).
  rewrite <-Hv1 in He.
  destruct (unpack par ns k l mnts s1) as [[[]|eu|] s2] eqn:Eu; cbn [fst snd] in *; [| |done].
  - assert (done_by (if par then ParallelPulled else Unpacked) sn ns k parent (e_id e) l s0) as Hd.
    { unfold unpack in Eu. destruct par eqn:Ep.
      - eapply (asked k e s1 (λ id, fs_MountParallel ns (upperPath id) l mnts)) in Eu; [|done].
        split_and!; [unfold par, parallel_on in *; by destruct (parallelPullUnpack o), (parallelPullAsFallback o)|done|].
        rewrite <-Hs0. by exists mnts, s1.
      - eapply (asked k e s1 (λ id, fs_MountLocal ns (upperPath id) l mnts)) in Eu; [|done].
        split_and!; [unfold par in Ep; by destruct (parallelPullUnpack o)|done|]. rewrite <-Hs0. by exists mnts, s1. }
    rewrite Hv1 in Hv2. rewrite Hv1, <-Hv2 in He. rewrite <-Hv2 in Hn.
    pose proof (commit_target_provided X _ false sn ns target k parent opts base n l s0 s2 e (Hl2 eq_refl) Hn Hb Hl He Hd) as Hc.
    replace (labels_of (if par then ParallelPulled else Unpacked) l) with (if par then l else <[HasSociIndexDigest := "true"%string]> l) in Hc by (by destruct par).
    destruct (commit_target _ _ _ _ _ s2) as [[x|er|] s3]; [done| |done]. cbn [answered] in *. by rewrite <-Hv2.
  - destruct par; [|done]. intros Hx. unfold IsAlreadyExists, errdefs_ErrAlreadyExists in Hx. by rewrite (Hu eq_refl eu) in Hx.
Qed.

Lemma layer_provided X sn n target k parent opts base s1 e s' er :
  live X s1 → view (ms s1) !! target = None → apply_opts ∅ opts = Ok base → view (ms s1) !! k = Some e →
  prepare_layer root userxattr o sn (Some n) target k parent opts (<[TargetNamespace := n]> base) s1 = (Err er, s') →
  IsAlreadyExists er = true →
  provided sn (Some n) target k parent (<[TargetNamespace := n]> base) s1 (view (ms s1)) (view (ms s')).
Proof.
  intros Hs1 Hn1 Hb He. set (lb := <[TargetNamespace := n]> base). unfold prepare_layer.
  destruct (skipRemoteSnapshotPrepare o lb) eqn:Esk.
  { pose proof (fallback_provided X sn (Some n) target k parent opts base n lb false s1 s1 e) as Ha. unfold tried in Ha. rewrite Esk in Ha.
    specialize (Ha eq_refl (or_introl eq_refl) Hs1 Hn1 Hb eq_refl He).
    destruct (prepare_fallback _ _ _ _ _ _ _ _ _ _ _ s1) as [r s2]. intros [= -> ->]. exact Ha. }
  destruct (frames_prepareRemote (X:=X) (view (ms s1)) (Some n) k lb s1 eq_refl Hs1) as [Hv2 Hl2].
  destruct (prepareRemoteSnapshot (Some n) k lb s1) as [[[]|e2|] s2] eqn:E2; cbn [snd] in *; [| |done].
  - eapply (asked k e s1 (λ id, fs_Mount (Some n) (upperPath id) lb)) in E2; [|done].
    assert (done_by Lazy sn (Some n) k parent (e_id e) lb s1) as Hd by (by split). rewrite <-Hv2 in Hn1, He.
    pose proof (commit_target_provided X Lazy true sn (Some n) target k parent opts base n lb s1 s2 e Hl2 Hn1 Hb eq_refl He Hd) as Hc.
    cbn [labels_of] in Hc. destruct (commit_target _ _ _ _ _ s2) as [r s3]. intros [= -> ->]. cbn [answered] in Hc. by rewrite <-Hv2.
  - rewrite <-Hv2 in Hn1, He.
    pose proof (fallback_provided X sn (Some n) target k parent opts base n lb (negb (errors_Is e2 ErrNoZtoc) && errors_Is e2 ErrNoIndex)
      s1 s2 e) as Ha. unfold tried in Ha. rewrite Esk, E2 in Ha. specialize (Ha eq_refl (or_intror eq_refl) Hl2 Hn1 Hb eq_refl He).
    destruct (prepare_fallback _ _ _ _ _ _ _ _ _ _ _ s2) as [r s3]. intros [= -> ->]. cbn [answered] in Ha. by rewrite <-Hv2.
Qed.

(** C19: a layer that [Prepare] reports as present was provided in one of three ways, and the
    labels of the committed snapshot say which: mounted lazily (the labels of remote
    snapshots and of SOCI indices), unpacked locally (only the label of SOCI indices, also
    for a layer that was too small and for which no index was looked for) or pulled in
    parallel (neither).  The service has done its part for the directory of that snapshot.
    The target was not in the store before, so that it is not an earlier snapshot that is
    reported; the key is new and not the target, and only the store says that a name exists
    ([no_exist_errors]). *)
Theorem Prepare_provides X n k parent opts base target s s' er :
  live X s → view (ms s) !! k = None → view (ms s) !! target = None → k ≠ target →
  apply_opts ∅ opts = Ok base → base !! targetSnapshotLabel = Some target →
  Prepare root userxattr o (Some n) k parent opts s = (Err er, s') → IsAlreadyExists er = true →
  ∃ sn s1 w e u, createSnapshot KindActive k parent opts s = (Ok sn, s1) ∧ e_id e = Snap_ID sn ∧ e_parent e = parent ∧
    done_by w sn (Some n) k parent (e_id e) (<[TargetNamespace := n]> base) s1 ∧
    view (ms s') !! target = Some (committed_as target u (labels_of w (<[TargetNamespace := n]> base)) e).
Proof.
  intros Hs Hk Hn Hkt Hb Ht. unfold Prepare, st_bind, st_lift. pose proof (createSnapshot_spec (X:=X) KindActive k parent opts s Hs) as H.
  destruct (createSnapshot KindActive k parent opts s) as [[sn|ec|] s1] eqn:Ec; destruct H as [Hs1 H]; [| |done].
  2: { intros [= -> _] Hx. eapply (createSnapshot_exists Hne) in Ec as [? Hx']; [|done]. by rewrite Hk in Hx'. }
  destruct H as ((_ & l & e & Hl & Hv & Hi & Hid & _) & _). rewrite Hb, Ht.
  assert (view (ms s1) !! k = Some e) as He by (by rewrite Hv, lookup_insert_eq).
  assert (view (ms s1) !! target = None) as Hn1 by (by rewrite Hv, lookup_insert_ne).
  assert (e_parent e = parent) as Hp by (unfold e_parent; by rewrite Hi). clear Hl Hv Hi Ec.
  set (lb := <[TargetNamespace := n]> base). intros Hprep Hx.
  assert (provided sn (Some n) target k parent lb s1 (view (ms s1)) (view (ms s'))) as (w & e' & u & He' & Hd & Hr).
  { eapply layer_provided; [exact Hs1|done..]. }
  rewrite He in He'. injection He' as <-. by exists sn, s1, w, e, u.
Qed.
End provided.
