(* ===== verification/UnpackJobs.v ===== *)
(** * Jobs of parallel unpacking

    Models [fs/adaptive_fetch_image_layers.go]: the jobs that download and unpack the layers
    of an image ahead of time, the directory on disk each of them works in, and the garbage
    collector that removes the directories nobody works in any more.  Jobs are shared by
    reference, so they live in a heap. *)
From Stdlib Require Import ZArith Lia Ascii.
From stdpp Require Import base list gmap strings numbers.
From S2P Require Import Prelude GoLib SnapshotHost.
#[local] Open Scope Z_scope.
Local Open Scope go_scope.

Definition alphanumeric : string := "abcdefghijklmnopqrstuvwxyzABCDEFGHIJKLMNOPQRSTUVWXYZ0123456789".
Definition defaultUnpackDirLen : nat := 10.
Definition unlimited : Z := 0.
Definition Unbounded : Z := -1.
Definition maxRetriesUniqueID : nat := 10.
Definition layerUnpackDir : string := "fs".
Definition garbageCollectionJobExpiration : Z := 2 * 3600 * 10 ^ 9.

Definition ErrParallelPullIsDisabled : error := Sentinel "the given config does not allow parallel pulling".
Definition ErrImageUnpackJobNotFound : error := Sentinel "image unpack job not found".
Definition ErrImageUnpackJobHasNoLayers : error := Sentinel "image unpack job has no layers".
Definition ErrImageUnpackJobExpired : error := Sentinel "image unpack job has expired".
Definition ErrLayerHasNoJobs : error := Sentinel "layer has no jobs".
Definition ErrNoClaimableLayerJobs : error := Sentinel "no claimable jobs".
Definition ErrLayerJobNotFound : error := Sentinel "specified layer job not found".
Definition ErrLayerJobCannotBeCleaned : error := Sentinel "layer job cannot be cleaned (is not claimed or cancelled)".
Definition ErrLayerIngestDoesNotExist : error := Sentinel "layer ingest does not exist".
Definition ErrLayerUnpackDestinationHasContent : error := Sentinel "layer unpack destination has content".
Definition errEmptyJobID : error := Sentinel "job id is empty".
Definition errUniqueJobIDGenFailure : error := Sentinel "failed to generate unique job id".
Definition errJobNotFound : error := Sentinel "job not found".

(** ** Configuration *)
Record Parallel := mkParallel {
  Enable : bool;
  ExperimentalParallelPullAsFallback : bool;
  MaxConcurrentDownloads : Z;
  MaxConcurrentDownloadsPerImage : Z;
  ConcurrentDownloadChunkSize : Z;
  MaxConcurrentUnpacks : Z;
  MaxConcurrentUnpacksPerImage : Z;
  DiscardUnpackedLayers : bool
}.

Definition errors_Join (e : option error) (e' : error) : error := match e with Some e => Join e e' | None => e' end.

Definition checkParallelPullUnpack (cfg : option Parallel) : outcome () :=
  match cfg with
  | None => Err (ErrorString "parallel pull config is nil")
  | Some cfg =>
      if negb (Enable cfg) && negb (ExperimentalParallelPullAsFallback cfg) then Err ErrParallelPullIsDisabled
      else
        let err := if (unlimited <? MaxConcurrentDownloads cfg) && (MaxConcurrentDownloads cfg <? MaxConcurrentDownloadsPerImage cfg)
                   then Some (ErrorString "global download limit less than per-image download limit") else None in
        if (unlimited <? MaxConcurrentUnpacks cfg) && (MaxConcurrentUnpacks cfg <? MaxConcurrentUnpacksPerImage cfg)
        then Err (errors_Join err (ErrorString "global unpack limit less than per-image unpack limit"))
        else match err with Some e => Err e | None => Ok tt end
  end.

(** A semaphore with a capacity, or none. *)
Definition SemaphoreWithNil : Type := option Z.
Definition NewSemaphoreWithNil (n : Z) : SemaphoreWithNil := if unlimited <? n then Some n else None.
Definition limiter (limit : Z) : SemaphoreWithNil := NewSemaphoreWithNil (if limit =? Unbounded then unlimited else limit).

(** ** Storage on disk

    The entries of the directory for unpacking; random numbers come from a source. *)
Record rng := mkRng { rand : nat → Z; drawn : nat }.
Abbreviation disk := (host rng).

Definition rand_Int64 : ST disk Z := λ h,
  let r := fsys h in
  (Ok (rand r (drawn r) `mod` 2 ^ 63), mkHost (tree h) (mkRng (rand r) (S (drawn r))) (faults h) (clock h)).

Fixpoint generateUniqueString (n : nat) : ST disk string :=
  match n with
  | O => st_ret ""%string
  | S n =>
      r <~ rand_Int64;;
      rest <~ generateUniqueString n;;
      st_ret (String (default Ascii.zero (String.get (Z.to_nat (r `mod` 62)) alphanumeric)) rest)
  end.

(** [os.Stat] of an entry. *)
Definition os_Stat_entry (id : string) : ST disk () := syscall (λ h,
  (if bool_decide (is_Some (tree h !! id)) then Ok tt else Err os_ErrNotExist, h)).
Definition contains (id : string) : ST disk bool := λ h,
  match os_Stat_entry id h with
  | (Ok _, h1) => (Ok true, h1)
  | (Err _, h1) => (Ok false, h1)
  | (Panic, h1) => (Panic, h1)
  end.

Fixpoint unique_key (attempts : nat) : ST disk string :=
  match attempts with
  | O => st_err errUniqueJobIDGenFailure
  | S n =>
      key <~ generateUniqueString defaultUnpackDirLen;;
      b <~ contains key;;
      if negb (String.eqb key "") && negb b then st_ret key else unique_key n
  end.
Definition generateUniqueKey : ST disk string := unique_key maxRetriesUniqueID.

(** [os.MkdirAll] of a directory inside an entry. *)
Definition os_MkdirAll (p : path) : ST disk () := syscall (λ h,
  let subs := default ∅ (tree h !! p_entry p) in
  (Ok tt, set_tree (<[p_entry p := match subs !! p_sub p with Some _ => subs | None => <[p_sub p := (0, 0)]> subs end]> (tree h)) h)).

Definition storage_Create : ST disk string :=
  key <~ generateUniqueKey;;
  os_MkdirAll (mkPath key layerUnpackDir);;;
  st_ret key.

Definition GetJobPath (id : string) : ST disk string :=
  b <~ contains id;;
  if b then st_ret id else st_err errJobNotFound.

Definition Keys : ST disk (list string) := λ h,
  match os_Readdirnames h with
  | (Err e, h1) => if errors_Is e os_ErrNotExist then (Ok [], h1) else (Err e, h1)
  | r => r
  end.

Definition Delete (id : string) : ST disk () :=
  if String.eqb id "" then st_err errEmptyJobID else os_RemoveAll id.

(** ** Jobs *)
Inductive layerUnpackJobStatus :=
| LayerUnpackJobInProgress | LayerUnpackJobClaimed | LayerUnpackJobDone | LayerUnpackJobFailed | LayerUnpackJobCancelled.
#[global] Instance status_eq_dec : EqDecision layerUnpackJobStatus.
Proof. solve_decision. Defined.

(** [lj_errCh]: what was sent to the channel, if anything was; [lj_ctx] is the context that
    [cancel] cancels. *)
Record layerUnpackJob := mkLayerJob {
  lj_imageDigest : string;
  lj_ctx : nat;
  lj_creationTimestamp : Z;
  layerUnpackID : string;
  lj_layerDigest : string;
  lj_errCh : option (option error);
  lj_status : layerUnpackJobStatus
}.
Definition GetIngestLocation (j : layerUnpackJob) : path := mkPath (layerUnpackID j) (lj_layerDigest j).
Definition GetUnpackUpperPath (j : layerUnpackJob) : path := mkPath (layerUnpackID j) layerUnpackDir.

Record imageUnpackJob := mkImageJob {
  ij_imageDigest : string;
  ij_ctx : nat;
  ij_creationTimestamp : Z;
  concurrentDownloadsLimiter : SemaphoreWithNil;
  concurrentUnpacksLimiter : SemaphoreWithNil;
  ij_layers : gmap string (list nat)
}.

(** [unpackJobs], with the heap its pointers point into, the contexts that were cancelled
    and their causes, and the clock. *)
Record unpackJobs := mkJobs {
  imagePullCfg : Parallel;
  globalDownloads : SemaphoreWithNil;
  globalUnpacks : SemaphoreWithNil;
  images : gmap string nat;
  image_jobs : gmap nat imageUnpackJob;
  layer_jobs : gmap nat layerUnpackJob;
  fresh_ptr : nat;
  cancelled : gmap nat error;
  now : Z;
  storage : disk
}.

Definition newUnpackJobs (cfg : Parallel) (t : Z) (h : disk) : outcome unpackJobs :=
  _ ← map_err (Wrap "error validating image pull config") (checkParallelPullUnpack (Some cfg));
  Ok (mkJobs cfg (limiter (MaxConcurrentDownloads cfg)) (limiter (MaxConcurrentUnpacks cfg)) ∅ ∅ ∅ 0 ∅ t h).

Section ops.
Implicit Types (s : unpackJobs).

Definition set_images im ij s : unpackJobs :=
  mkJobs (imagePullCfg s) (globalDownloads s) (globalUnpacks s) im ij (layer_jobs s) (fresh_ptr s) (cancelled s) (now s) (storage s).
Definition set_layers lj s : unpackJobs :=
  mkJobs (imagePullCfg s) (globalDownloads s) (globalUnpacks s) (images s) (image_jobs s) lj (fresh_ptr s) (cancelled s) (now s) (storage s).
Definition set_cancelled c s : unpackJobs :=
  mkJobs (imagePullCfg s) (globalDownloads s) (globalUnpacks s) (images s) (image_jobs s) (layer_jobs s) (fresh_ptr s) c (now s) (storage s).
Definition set_storage h s : unpackJobs :=
  mkJobs (imagePullCfg s) (globalDownloads s) (globalUnpacks s) (images s) (image_jobs s) (layer_jobs s) (fresh_ptr s) (cancelled s) (now s) h.
Definition bump s : unpackJobs :=
  mkJobs (imagePullCfg s) (globalDownloads s) (globalUnpacks s) (images s) (image_jobs s) (layer_jobs s) (S (fresh_ptr s)) (cancelled s) (now s) (storage s).

Definition on_storage {A} (f : ST disk A) : ST unpackJobs A := λ s, let '(r, h) := f (storage s) in (r, set_storage h s).

(** The first cause stays. *)
Definition cancel_ctx (c : nat) (cause : error) s : unpackJobs :=
  match cancelled s !! c with Some _ => s | None => set_cancelled (<[c := cause]> (cancelled s)) s end.

Definition imageExists (imageDigest : string) s : bool := bool_decide (is_Some (images s !! imageDigest)).
Definition ImageExists (imageDigest : string) : ST unpackJobs bool := λ s, (Ok (imageExists imageDigest s), s).

Definition newImageUnpackJob (imageDigest : string) (cancel : nat) s : imageUnpackJob :=
  mkImageJob imageDigest cancel (now s)
    (limiter (MaxConcurrentDownloadsPerImage (imagePullCfg s))) (limiter (MaxConcurrentUnpacksPerImage (imagePullCfg s))) ∅.

(** The pointer to the job of the image; [cancel] is the context of the caller. *)
Definition GetOrAddImageJob (imageDigest : string) (cancel : nat) : ST unpackJobs nat := λ s,
  match images s !! imageDigest with
  | Some p => (Ok p, s)
  | None =>
      let p := fresh_ptr s in
      (Ok p, bump (set_images (<[imageDigest := p]> (images s)) (<[p := newImageUnpackJob imageDigest cancel s]> (image_jobs s)) s))
  end.

Definition newLayerUnpackJob (layerDigest : string) (image : imageUnpackJob) : ST disk layerUnpackJob :=
  id <~ st_map_err (Wrap "failed to create new layer unpack job in storage") storage_Create;;
  path <~ st_map_err (Wrap "failed to fetch unpack root") (GetJobPath id);;
  st_ret (mkLayerJob (ij_imageDigest image) (ij_ctx image) (ij_creationTimestamp image) path layerDigest None LayerUnpackJobInProgress).

(** The job is added to the image as it is in the map now, which need not be [imageJob], and
    need not be there. *)
Definition AddLayerJob (imageJob : nat) (layerDigest : string) : ST unpackJobs nat :=
  s <~ st_get;;
  ij <~ st_lift (must (image_jobs s !! imageJob));;
  lj <~ on_storage (newLayerUnpackJob layerDigest ij);;
  s <~ st_get;;
  p <~ st_lift (must (images s !! ij_imageDigest ij));;
  current <~ st_lift (must (image_jobs s !! p));;
  λ s,
    let l := fresh_ptr s in
    let js := default [] (ij_layers current !! layerDigest) ++ [l] in
    let current' := mkImageJob (ij_imageDigest current) (ij_ctx current) (ij_creationTimestamp current)
                      (concurrentDownloadsLimiter current) (concurrentUnpacksLimiter current)
                      (<[layerDigest := js]> (ij_layers current)) in
    (Ok l, bump (set_layers (<[l := lj]> (layer_jobs s)) (set_images (images s) (<[p := current']> (image_jobs s)) s))).

(** The jobs of a layer, which there are. *)
Definition checkLayerExists (imageDigest layerDigest : string) s : outcome (nat * list nat) :=
  match images s !! imageDigest with
  | None => Err (Wrap imageDigest ErrImageUnpackJobNotFound)
  | Some p =>
      ij ← must (image_jobs s !! p);
      if bool_decide (ij_layers ij = ∅) then Err (Wrap imageDigest ErrImageUnpackJobHasNoLayers)
      else match default [] (ij_layers ij !! layerDigest) with
      | [] => Err (Wrap layerDigest ErrLayerHasNoJobs)
      | js => Ok (p, js)
      end
  end.

Definition set_status (st : layerUnpackJobStatus) (j : layerUnpackJob) : layerUnpackJob :=
  mkLayerJob (lj_imageDigest j) (lj_ctx j) (lj_creationTimestamp j) (layerUnpackID j) (lj_layerDigest j) (lj_errCh j) st.

(** [layerUnpackJob.Claim]: compare and swap. *)
Definition claim_job (l : nat) : ST unpackJobs bool := λ s,
  match layer_jobs s !! l with
  | None => (Panic, s)
  | Some j =>
      if bool_decide (lj_status j = LayerUnpackJobInProgress)
      then (Ok true, set_layers (<[l := set_status LayerUnpackJobClaimed j]> (layer_jobs s)) s)
      else (Ok false, s)
  end.

Fixpoint claim_first (js : list nat) : ST unpackJobs nat :=
  match js with
  | [] => st_err ErrNoClaimableLayerJobs
  | l :: js' =>
      b <~ claim_job l;;
      if b then st_ret l else claim_first js'
  end.

Definition Claim (imageDigest layerDigest : string) : ST unpackJobs nat :=
  s <~ st_get;;
  r <~ st_lift (map_err (Wrap "claim job") (checkLayerExists imageDigest layerDigest s));;
  claim_first r.2.

(** [layerUnpackJob.Cancel]. *)
Definition cancel_job (l : nat) (cause : error) : ST unpackJobs () := λ s,
  match layer_jobs s !! l with
  | None => (Panic, s)
  | Some j =>
      let s1 := cancel_ctx (lj_ctx j) cause s in
      (Ok tt, set_layers (<[l := set_status LayerUnpackJobCancelled j]> (layer_jobs s1)) s1)
  end.

Definition RemoveImageWithError (imageDigest : string) (cause : error) : ST unpackJobs () := λ s,
  match images s !! imageDigest with
  | None => (Err (Wrap imageDigest ErrImageUnpackJobNotFound), s)
  | Some p =>
      match image_jobs s !! p with
      | None => (Panic, s)
      | Some ij =>
          let s1 := cancel_ctx (ij_ctx ij) cause s in
          (Ok tt, set_images (delete imageDigest (images s1)) (image_jobs s1) s1)
      end
  end.

(** The first job of the list with the id. *)
Fixpoint find_id (id : string) (js : list nat) (heap : gmap nat layerUnpackJob) : outcome (option (nat * layerUnpackJob)) :=
  match js with
  | [] => Ok None
  | l :: js' =>
      j ← must (heap !! l);
      if String.eqb (layerUnpackID j) id then Ok (Some (0%nat, j))
      else r ← find_id id js' heap; Ok (match r with Some (i, j) => Some (S i, j) | None => None end)
  end.

Definition Remove (l : nat) (cause : error) : ST unpackJobs () := λ s,
  match layer_jobs s !! l with
  | None => (Panic, s)
  | Some job =>
      match checkLayerExists (lj_imageDigest job) (lj_layerDigest job) s with
      | Err e => (Err (Wrap "remove job" e), s)
      | Panic => (Panic, s)
      | Ok (p, js) =>
          match find_id (layerUnpackID job) js (layer_jobs s) with
          | Panic => (Panic, s)
          | Err e => (Err e, s)
          | Ok None => (Err ErrLayerJobNotFound, s)
          | Ok (Some (i, j)) =>
              if bool_decide (lj_status j = LayerUnpackJobClaimed ∨ lj_status j = LayerUnpackJobCancelled) then
                match image_jobs s !! p with
                | None => (Panic, s)
                | Some ij =>
                    let js' := take i js ++ drop (S i) js in
                    let layers := match js' with [] => delete (lj_layerDigest job) (ij_layers ij)
                                               | _ => <[lj_layerDigest job := js']> (ij_layers ij) end in
                    let ij' := mkImageJob (ij_imageDigest ij) (ij_ctx ij) (ij_creationTimestamp ij)
                                 (concurrentDownloadsLimiter ij) (concurrentUnpacksLimiter ij) layers in
                    let s1 := set_images (images s) (<[p := ij']> (image_jobs s)) s in
                    if bool_decide (layers = ∅)
                    then let s2 := cancel_ctx (ij_ctx ij) cause s1 in
                         (Ok tt, set_images (delete (lj_imageDigest job) (images s2)) (image_jobs s2) s2)
                    else (Ok tt, s1)
                end
              else (Err (Wrap (layerUnpackID job) ErrLayerJobCannotBeCleaned), s)
          end
      end
  end.

(** ** The garbage collector *)
Record layerUnpackJobSnapshot := mkSnap { imageID : string; sn_creationTimestamp : Z }.

(** The jobs of all layers of all images, each as it is in the heap. *)
Definition tracked_ptrs s : list nat :=
  map_to_list (images s) ≫= λ x, match image_jobs s !! x.2 with
                                 | Some ij => map_to_list (ij_layers ij) ≫= snd
                                 | None => []
                                 end.
Definition tracked s : list layerUnpackJob := omap (λ l, layer_jobs s !! l) (tracked_ptrs s).

Definition inMemory s : gmap string layerUnpackJobSnapshot :=
  list_to_map ((λ j, (layerUnpackID j, mkSnap (lj_imageDigest j) (lj_creationTimestamp j))) <$> reverse (tracked s)).

Definition unpack_Snapshot : ST unpackJobs (gmap string layerUnpackJobSnapshot * list string) :=
  s <~ st_get;;
  inStorage <~ on_storage Keys;;
  st_ret (inMemory s, inStorage).

(** One job of the snapshot under the policy of expired jobs: whether it is dropped from the
    snapshot, and the images that are cancelled. *)
Definition expire_one (expiryTime : Z) (j : layerUnpackJobSnapshot) (cancelledImages : list string) : ST unpackJobs (bool * list string) := λ s,
  if existsb (String.eqb (imageID j)) cancelledImages then (Ok (true, cancelledImages), s)
  else if expiryTime <? now s - sn_creationTimestamp j then
    match RemoveImageWithError (imageID j) ErrImageUnpackJobExpired s with
    | (Ok _, s1) => (Ok (true, imageID j :: cancelledImages), s1)
    | (Err _, s1) => (Ok (false, cancelledImages), s1)
    | (Panic, s1) => (Panic, s1)
    end
  else (Ok (false, cancelledImages), s).

(** One directory under the policy of untracked jobs; errors are logged. *)
Definition sweep_one (mem : gmap string layerUnpackJobSnapshot) (id : string) : ST unpackJobs () := λ s,
  match mem !! id with
  | Some _ => (Ok tt, s)
  | None =>
      match on_storage (Delete id) s with
      | (Panic, s1) => (Panic, s1)
      | (_, s1) => (Ok tt, s1)
      end
  end.

(** A round of the collector that nothing interleaves with. *)
Fixpoint expire_all (todo : list (string * layerUnpackJobSnapshot)) (mem : gmap string layerUnpackJobSnapshot)
    (imgs : list string) : ST unpackJobs (gmap string layerUnpackJobSnapshot) :=
  match todo with
  | [] => st_ret mem
  | (id, j) :: todo' =>
      r <~ expire_one garbageCollectionJobExpiration j imgs;;
      expire_all todo' (if r.1 : bool then delete id mem else mem) r.2
  end.
Fixpoint sweep_all (mem : gmap string layerUnpackJobSnapshot) (ids : list string) : ST unpackJobs () :=
  match ids with
  | [] => st_ret tt
  | id :: ids' => sweep_one mem id;;; sweep_all mem ids'
  end.
Definition gc_round : ST unpackJobs () := λ s,
  match unpack_Snapshot s with
  | (Ok (mem, ids), s1) => (mem' <~ expire_all (map_to_list mem) mem [];; sweep_all mem' ids) s1
  | (Err _, s1) => (Ok tt, s1)
  | (Panic, s1) => (Panic, s1)
  end.
End ops.
