(* ===== verification/UnpackFacts.v ===== *)
(** * Facts about the jobs of parallel unpacking

    In every interleaving of the operations with the steps of the garbage collector: no job
    is claimed twice, and the directory of a job that is tracked is never removed. *)
From Stdlib Require Import ZArith Lia Ascii.
From stdpp Require Import base list gmap strings numbers.
From S2P Require Import Prelude GoLib SnapshotHost UnpackJobs.
#[local] Open Scope Z_scope.

Implicit Types (s : unpackJobs) (j : layerUnpackJob) (h : disk).

(** A job that a layer of an image refers to. *)
Definition is_tracked s (x : nat) : Prop :=
  ∃ d p ij l js, images s !! d = Some p ∧ image_jobs s !! p = Some ij ∧ ij_layers ij !! l = Some js ∧ x ∈ js.

Definition reliable h : Prop := ∀ n, faults h n = None.

Record wf s : Prop := {
  wf_reliable : reliable (storage s);
  wf_image d p : images s !! d = Some p → ∃ ij, image_jobs s !! p = Some ij ∧ ij_imageDigest ij = d;
  wf_image_fresh p ij : image_jobs s !! p = Some ij → (p < fresh_ptr s)%nat;
  wf_layer_fresh x j : layer_jobs s !! x = Some j → (x < fresh_ptr s)%nat;
  wf_job d p ij l js x : images s !! d = Some p → image_jobs s !! p = Some ij → ij_layers ij !! l = Some js → x ∈ js →
    ∃ j, layer_jobs s !! x = Some j ∧ lj_imageDigest j = d ∧ lj_layerDigest j = l ∧
      is_Some (tree (storage s) !! layerUnpackID j);
  wf_nonempty p ij l js : image_jobs s !! p = Some ij → ij_layers ij !! l = Some js → js ≠ [];
  wf_ids x y j j' : is_tracked s x → is_tracked s y → layer_jobs s !! x = Some j → layer_jobs s !! y = Some j' →
    layerUnpackID j = layerUnpackID j' → x = y
}.

(** No tracked job works in the directory. *)
Definition untracked s (id : string) : Prop := ∀ x j, is_tracked s x → layer_jobs s !! x = Some j → layerUnpackID j ≠ id.

(** What does not change about a job. *)
Definition same_job j j' : Prop :=
  lj_imageDigest j' = lj_imageDigest j ∧ layerUnpackID j' = layerUnpackID j ∧ lj_layerDigest j' = lj_layerDigest j.
#[global] Instance same_job_refl : Reflexive same_job.
Proof. by intros j. Qed.

(** A status never goes back to being in progress. *)
Definition advances j j' : Prop := same_job j j' ∧ (lj_status j ≠ LayerUnpackJobInProgress → lj_status j' ≠ LayerUnpackJobInProgress).
#[global] Instance advances_refl : Reflexive advances.
Proof. by intros j. Qed.

(** Steps that track no new job. *)
Record shrinks s s' : Prop := {
  sh_tracked x : is_tracked s' x → is_tracked s x;
  sh_job x j : layer_jobs s !! x = Some j → ∃ j', layer_jobs s' !! x = Some j' ∧ advances j j';
  sh_dom x j' : layer_jobs s' !! x = Some j' → is_Some (layer_jobs s !! x)
}.

Lemma shrinks_refl s : shrinks s s.
Proof. split; [done| |by eexists]. intros x j Hj. by exists j. Qed.

Lemma shrinks_untracked s s' id : shrinks s s' → untracked s id → untracked s' id.
Proof.
  intros [Ht Hj Hd] Hu x j' Hx Hj' Hid. destruct (Hd x j' Hj') as [j Hjs].
  destruct (Hj x j Hjs) as (j0 & Hj0 & (Hsame & _)). rewrite Hj' in Hj0. injection Hj0 as <-.
  apply (Hu x j (Ht x Hx) Hjs). destruct Hsame as (_ & H2 & _). congruence.
Qed.

(** Operations on the heap of jobs. *)
Lemma shrinks_set_job s x j0 j1 : layer_jobs s !! x = Some j0 → advances j0 j1 → shrinks s (set_layers (<[x := j1]> (layer_jobs s)) s).
Proof.
  intros Hx Ha. split.
  - by intros y.
  - intros y j Hy. cbn [layer_jobs set_layers]. destruct (decide (y = x)) as [->|Hne].
    + rewrite Hx in Hy. injection Hy as <-. exists j1. by rewrite lookup_insert_eq.
    + rewrite lookup_insert_ne by done. by exists j.
  - intros y j' Hy. cbn [layer_jobs set_layers] in Hy. destruct (decide (y = x)) as [->|Hne]; [by eexists|].
    rewrite lookup_insert_ne in Hy by done. by eexists.
Qed.
Lemma wf_set_job s x j0 j1 : wf s → layer_jobs s !! x = Some j0 → same_job j0 j1 → wf (set_layers (<[x := j1]> (layer_jobs s)) s).
Proof.
  intros Hwf Hx (Hs1 & Hs2 & Hs3).
  assert (∀ y j', <[x := j1]> (layer_jobs s) !! y = Some j' → ∃ j, layer_jobs s !! y = Some j ∧ same_job j j') as Hold.
  { intros y j' Hy. destruct (decide (y = x)) as [->|Hne]; [|rewrite lookup_insert_ne in Hy by done; by exists j'].
    rewrite lookup_insert_eq in Hy. injection Hy as <-. by exists j0. }
  split; try apply Hwf.
  - intros y j' Hy. destruct (Hold y j' Hy) as (j & Hj & _). by apply (wf_layer_fresh s Hwf y j).
  - intros d p ij l js y Hd Hp Hl Hy. destruct (wf_job s Hwf d p ij l js y Hd Hp Hl Hy) as (j & Hj & H1 & H2 & H3).
    cbn [layer_jobs set_layers storage]. destruct (decide (y = x)) as [->|Hne]; [|rewrite lookup_insert_ne by done; by exists j].
    rewrite Hx in Hj. injection Hj as <-. exists j1. rewrite lookup_insert_eq. split_and!; [done|congruence|congruence|by rewrite Hs2].
  - intros y z j j' Hty Htz Hy Hz Hid. destruct (Hold y j Hy) as (k & Hk & (_ & E1 & _)).
    destruct (Hold z j' Hz) as (k' & Hk' & (_ & E2 & _)). apply (wf_ids s Hwf y z k k' Hty Htz Hk Hk'). congruence.
Qed.

Lemma wf_cancel_ctx s c e : wf s → wf (cancel_ctx c e s).
Proof. intros Hwf. unfold cancel_ctx. destruct (cancelled s !! c); [done|]. by destruct Hwf. Qed.
Lemma shrinks_cancel_ctx s c e : shrinks s (cancel_ctx c e s).
Proof. unfold cancel_ctx. destruct (cancelled s !! c); [apply shrinks_refl|]. split; [by intros x|intros x j Hj; by exists j|intros x j Hj; by exists j]. Qed.
Lemma shrinks_trans s1 s2 s3 : shrinks s1 s2 → shrinks s2 s3 → shrinks s1 s3.
Proof.
  intros [A1 B1 C1] [A2 B2 C2]. split; [auto| |].
  - intros x j Hj. destruct (B1 x j Hj) as (j2 & Hj2 & ((E1 & E2 & E3) & P1)). destruct (B2 x j2 Hj2) as (j3 & Hj3 & ((F1 & F2 & F3) & P2)).
    exists j3. split; [done|]. split; [split_and!; congruence|auto].
  - intros x j3 Hj3. destruct (C2 x j3 Hj3) as [j2 Hj2]. by eapply C1.
Qed.

(** *** Removing *)
Lemma delete_image_tracked s d x : is_tracked (set_images (delete d (images s)) (image_jobs s) s) x → is_tracked s x.
Proof.
  unfold is_tracked. cbn [images image_jobs set_images]. intros (d' & p & ij & l & js & [_ Hd]%lookup_delete_Some & Hrest).
  by exists d', p, ij, l, js.
Qed.
Lemma shrinks_delete_image s d : shrinks s (set_images (delete d (images s)) (image_jobs s) s).
Proof. split; [apply delete_image_tracked| |]; cbn [layer_jobs set_images]; intros x j Hj; [by exists j|by eexists]. Qed.
Lemma wf_delete_image s d : wf s → wf (set_images (delete d (images s)) (image_jobs s) s).
Proof.
  intros Hwf. split; try apply Hwf.
  - cbn [images set_images]. intros d' p [_ Hd]%lookup_delete_Some. by apply (wf_image s Hwf).
  - cbn [images set_images]. intros d' p ij l js x [_ Hd]%lookup_delete_Some. by apply (wf_job s Hwf).
  - intros x y j j' Hx%delete_image_tracked Hy%delete_image_tracked. by apply (wf_ids s Hwf).
Qed.

Lemma RemoveImage_spec s d e : wf s →
  let '(r, s') := RemoveImageWithError d e s in
  wf s' ∧ shrinks s s' ∧ storage s' = storage s ∧
  match r with
  | Ok _ => images s' !! d = None
  | Err _ => s' = s
  | Panic => False
  end.
Proof.
  intros Hwf. unfold RemoveImageWithError. destruct (images s !! d) as [p|] eqn:Hd; [|by split_and!; [|apply shrinks_refl|..]].
  destruct (wf_image s Hwf d p Hd) as (ij & Hp & _). rewrite Hp. set (s1 := cancel_ctx (ij_ctx ij) e s).
  split_and!.
  - by apply wf_delete_image, wf_cancel_ctx.
  - eapply shrinks_trans; [apply shrinks_cancel_ctx|apply shrinks_delete_image].
  - unfold s1, cancel_ctx. by destruct (cancelled s !! ij_ctx ij).
  - cbn [images set_images]. by rewrite lookup_delete_eq.
Qed.

Lemma remove_layers_spec s p ij lay js' : wf s → image_jobs s !! p = Some ij →
  (∀ x, x ∈ js' → ∃ js, ij_layers ij !! lay = Some js ∧ x ∈ js) →
  let layers := match js' with [] => delete lay (ij_layers ij) | _ => <[lay := js']> (ij_layers ij) end in
  let ij' := mkImageJob (ij_imageDigest ij) (ij_ctx ij) (ij_creationTimestamp ij)
               (concurrentDownloadsLimiter ij) (concurrentUnpacksLimiter ij) layers in
  let s' := set_images (images s) (<[p := ij']> (image_jobs s)) s in
  wf s' ∧ shrinks s s' ∧ storage s' = storage s.
Proof.
  intros Hwf Hp Hsub layers ij' s'.
  assert (∀ l js x, layers !! l = Some js → x ∈ js → ∃ js0, ij_layers ij !! l = Some js0 ∧ x ∈ js0) as Hlay.
  { intros l js x Hl Hx. unfold layers in Hl. destruct js' as [|y js'].
    - apply lookup_delete_Some in Hl as [_ Hl]. by exists js.
    - apply lookup_insert_Some in Hl as [[<- <-]|[_ Hl]]; [by apply Hsub|by exists js]. }
  assert (∀ q iq, <[p := ij']> (image_jobs s) !! q = Some iq →
    ∃ iq0, image_jobs s !! q = Some iq0 ∧ ij_imageDigest iq = ij_imageDigest iq0 ∧
      ∀ l js x, ij_layers iq !! l = Some js → x ∈ js → ∃ js0, ij_layers iq0 !! l = Some js0 ∧ x ∈ js0) as Hold.
  { intros q iq [[<- <-]|[_ Hq]]%lookup_insert_Some; [exists ij; by split_and!|exists iq; split_and!; [done..|]].
    intros l js x Hl Hx. by exists js. }
  assert (∀ x, is_tracked s' x → is_tracked s x) as Htr.
  { intros x (d & q & iq & l & js & Hd & Hq & Hl & Hx). destruct (Hold q iq Hq) as (iq0 & Hq0 & _ & Hsubs).
    destruct (Hsubs l js x Hl Hx) as (js0 & Hl0 & Hx0). by exists d, q, iq0, l, js0. }
  split_and!; [|split; [done|intros x j Hj; by exists j|intros x j Hj; by exists j]|done].
  split; try apply Hwf; cbn [images image_jobs layer_jobs storage set_images s'].
  - intros d q Hd. destruct (wf_image s Hwf d q Hd) as (iq & Hq & Hdig). destruct (decide (q = p)) as [->|Hne].
    + rewrite Hp in Hq. injection Hq as <-. exists ij'. by rewrite lookup_insert_eq.
    + exists iq. by rewrite lookup_insert_ne.
  - intros q iq Hq. destruct (Hold q iq Hq) as (iq0 & Hq0 & _). by apply (wf_image_fresh s Hwf q iq0).
  - intros d q iq l js x Hd Hq Hl Hx. destruct (Hold q iq Hq) as (iq0 & Hq0 & _ & Hsubs).
    destruct (Hsubs l js x Hl Hx) as (js0 & Hl0 & Hx0). by apply (wf_job s Hwf d q iq0 l js0).
  - intros q iq l js [[<- <-]|[_ Hq]]%lookup_insert_Some Hl; [|by eapply (wf_nonempty s Hwf)].
    cbn [ij_layers ij'] in Hl. unfold layers in Hl. destruct js' as [|y js'].
    + apply lookup_delete_Some in Hl as [_ Hl]. by eapply (wf_nonempty s Hwf).
    + apply lookup_insert_Some in Hl as [[<- <-]|[_ Hl]]; [done|by eapply (wf_nonempty s Hwf)].
  - intros x y j j' Hx%Htr Hy%Htr. by apply (wf_ids s Hwf).
Qed.

Lemma find_id_spec id js heap i j : find_id id js heap = Ok (Some (i, j)) →
  ∃ x, js !! i = Some x ∧ heap !! x = Some j ∧ layerUnpackID j = id.
Proof.
  revert i. induction js as [|y js IH]; intros i; cbn [find_id]; [done|].
  destruct (heap !! y) as [k|] eqn:Ek; [|done]. cbn. destruct (String.eqb_spec (layerUnpackID k) id) as [Hid|_].
  - intros [= <- <-]. by exists y.
  - destruct (find_id id js heap) as [[[i' j']|]|e|]; [|done..]. intros [= <- <-].
    destruct (IH i' eq_refl) as (x & Hx & Hrest). by exists x.
Qed.

Lemma checkLayer_spec s d l p js : checkLayerExists d l s = Ok (p, js) →
  ∃ ij, images s !! d = Some p ∧ image_jobs s !! p = Some ij ∧ ij_layers ij !! l = Some js.
Proof.
  unfold checkLayerExists. destruct (images s !! d) as [q|] eqn:Hd; [|done]. destruct (image_jobs s !! q) as [ij|] eqn:Hq; [|done].
  cbn. case_bool_decide; [done|]. destruct (ij_layers ij !! l) as [ks|] eqn:Hl; [|done]. cbn. destruct ks; [done|].
  intros [= <- <-]. by exists ij.
Qed.

Lemma Remove_spec s x e : wf s →
  let '(_, s') := Remove x e s in wf s' ∧ shrinks s s' ∧ storage s' = storage s.
Proof.
  intros Hwf. assert (wf s ∧ shrinks s s ∧ storage s = storage s) as Hid by (split_and!; [done|apply shrinks_refl|done]).
  unfold Remove. destruct (layer_jobs s !! x) as [job|]; [|done].
  destruct (checkLayerExists (lj_imageDigest job) (lj_layerDigest job) s) as [[p js]|e1|] eqn:Hc; [|done..].
  destruct (find_id (layerUnpackID job) js (layer_jobs s)) as [[[i j]|]|e2|]; [|done..].
  case_bool_decide; [|done]. apply checkLayer_spec in Hc as (ij & Hd & Hp & Hl). rewrite Hp.
  set (js' := take i js ++ drop (S i) js).
  destruct (remove_layers_spec s p ij (lj_layerDigest job) js' Hwf Hp) as (H1 & H2 & H3).
  { intros y Hy. exists js. split; [done|]. unfold js' in Hy. apply elem_of_app in Hy as [Hy|Hy];
      apply list_elem_of_lookup in Hy as [n Hn]; apply list_elem_of_lookup;
      [apply lookup_take_Some in Hn as [Hn _]|rewrite lookup_drop in Hn]; by eexists. }
  set (s1 := set_images _ _ s) in *. case_bool_decide; [|done].
  split_and!.
  - by apply wf_delete_image, wf_cancel_ctx.
  - eapply shrinks_trans; [exact H2|]. eapply shrinks_trans; [apply shrinks_cancel_ctx|apply shrinks_delete_image].
  - unfold cancel_ctx. by destruct (cancelled s1 !! ij_ctx ij).
Qed.

(** *** Claiming *)
Lemma claim_first_spec js s : wf s →
  let '(r, s') := claim_first js s in
  wf s' ∧ shrinks s s' ∧ storage s' = storage s ∧
  match r with
  | Ok x => ∃ j, layer_jobs s !! x = Some j ∧ lj_status j = LayerUnpackJobInProgress ∧
      layer_jobs s' !! x = Some (set_status LayerUnpackJobClaimed j)
  | _ => s' = s
  end.
Proof.
  intros Hwf. induction js as [|x js IH]; cbn [claim_first]; [by split_and!; [|apply shrinks_refl|..]|].
  unfold st_bind, claim_job. destruct (layer_jobs s !! x) as [j|] eqn:Hx; [|by split_and!; [|apply shrinks_refl|..]].
  case_bool_decide as Hst; [|exact IH]. assert (same_job j (set_status LayerUnpackJobClaimed j)) as Hsame by done.
  split_and!; [by eapply wf_set_job|by eapply shrinks_set_job|done|]. exists j. cbn [layer_jobs set_layers]. by rewrite lookup_insert_eq.
Qed.

Lemma Claim_spec d l s : wf s →
  let '(r, s') := Claim d l s in
  wf s' ∧ shrinks s s' ∧ storage s' = storage s ∧
  match r with
  | Ok x => ∃ j, layer_jobs s !! x = Some j ∧ lj_status j = LayerUnpackJobInProgress ∧
      layer_jobs s' !! x = Some (set_status LayerUnpackJobClaimed j)
  | _ => s' = s
  end.
Proof.
  intros Hwf. unfold Claim, st_bind at 1 2, st_get, st_lift.
  destruct (checkLayerExists d l s) as [[p js]|e|]; cbn [map_err]; [|by split_and!; [|apply shrinks_refl|..]..].
  by apply claim_first_spec.
Qed.

Lemma cancel_job_spec x e s : wf s →
  let '(_, s') := cancel_job x e s in wf s' ∧ shrinks s s' ∧ storage s' = storage s.
Proof.
  intros Hwf. unfold cancel_job. destruct (layer_jobs s !! x) as [j|] eqn:Hx; [|by split_and!; [|apply shrinks_refl|]].
  set (s1 := cancel_ctx (lj_ctx j) e s).
  assert (layer_jobs s1 !! x = Some j ∧ storage s1 = storage s) as [Hx1 Hst].
  { unfold s1, cancel_ctx. by destruct (cancelled s !! lj_ctx j). }
  assert (advances j (set_status LayerUnpackJobCancelled j)) as Ha by done.
  split_and!; [eapply wf_set_job; [by apply wf_cancel_ctx|exact Hx1|done]| |done].
  eapply shrinks_trans; [apply shrinks_cancel_ctx|by eapply shrinks_set_job].
Qed.

(** *** Adding images *)
Lemma GetOrAdd_spec d c s : wf s →
  let '(r, s') := GetOrAddImageJob d c s in
  wf s' ∧ shrinks s s' ∧ storage s' = storage s ∧
  ∃ p ij, r = Ok p ∧ images s' !! d = Some p ∧ image_jobs s' !! p = Some ij ∧ ij_imageDigest ij = d.
Proof.
  intros Hwf. unfold GetOrAddImageJob. destruct (images s !! d) as [p|] eqn:Hd.
  { destruct (wf_image s Hwf d p Hd) as (ij & Hp & Hdig). split_and!; [done|apply shrinks_refl|done|by exists p, ij]. }
  set (p := fresh_ptr s). set (ij := newImageUnpackJob d c s). assert (ij_layers ij = ∅) as Hempty by done.
  assert (image_jobs s !! p = None) as Hnone.
  { destruct (image_jobs s !! p) as [iq|] eqn:Hp; [|done]. apply (wf_image_fresh s Hwf) in Hp. unfold p in Hp. lia. }
  assert (∀ x, is_tracked (bump (set_images (<[d:=p]> (images s)) (<[p:=ij]> (image_jobs s)) s)) x → is_tracked s x) as Htr.
  { intros x (d' & q & iq & l & js & Hd' & Hq & Hl & Hx). cbn [images image_jobs bump set_images] in Hd', Hq.
    apply lookup_insert_Some in Hq as [[<- <-]|[Hne Hq]]; [by rewrite Hempty, lookup_empty in Hl|].
    apply lookup_insert_Some in Hd' as [[<- <-]|[_ Hd']]; [done|]. by exists d', q, iq, l, js. }
  split_and!; [| | done|].
  - split; cbn [storage images image_jobs layer_jobs fresh_ptr bump set_images].
    + apply Hwf.
    + intros d' q [[<- <-]|[_ Hd']]%lookup_insert_Some; [exists ij; by rewrite lookup_insert_eq|].
      destruct (wf_image s Hwf d' q Hd') as (iq & Hq & Hdig). exists iq. rewrite lookup_insert_ne; [done|]. intros <-. by rewrite Hnone in Hq.
    + intros q iq [[<- _]|[_ Hq]]%lookup_insert_Some; [unfold p; lia|]. apply (wf_image_fresh s Hwf) in Hq. lia.
    + intros x j Hj%(wf_layer_fresh s Hwf). lia.
    + intros d' q iq l js x Hd' [[<- <-]|[Hne Hq]]%lookup_insert_Some Hl; [by rewrite Hempty, lookup_empty in Hl|].
      apply lookup_insert_Some in Hd' as [[<- <-]|[_ Hd']]; [done|]. by apply (wf_job s Hwf d' q iq).
    + intros q iq l js [[<- <-]|[_ Hq]]%lookup_insert_Some Hl; [by rewrite Hempty, lookup_empty in Hl|]. by eapply (wf_nonempty s Hwf).
    + intros x y j j' Hx%Htr Hy%Htr. by apply (wf_ids s Hwf).
  - split; [done| |]; cbn [layer_jobs bump set_images]; intros x j Hj; by exists j.
  - exists p, ij. cbn [images image_jobs bump set_images]. by rewrite !lookup_insert_eq.
Qed.

(** *** Adding layers *)
Lemma random_keeps n h : let '(r, h') := generateUniqueString n h in (∃ key, r = Ok key) ∧ tree h' = tree h ∧ faults h' = faults h.
Proof.
  revert h. induction n as [|n IH]; intros h; cbn [generateUniqueString]; [by split_and!; [eexists|..]|].
  unfold st_bind, rand_Int64. set (h1 := mkHost _ _ _ _). specialize (IH h1).
  destruct (generateUniqueString n h1) as [r h2]. destruct IH as ((key & ->) & Ht & Hf). split_and!; [by eexists|done|done].
Qed.

Lemma contains_spec id h : reliable h →
  let '(r, h') := contains id h in r = Ok (bool_decide (is_Some (tree h !! id))) ∧ tree h' = tree h ∧ faults h' = faults h.
Proof.
  intros Hr. unfold contains, os_Stat_entry, syscall. rewrite (Hr (clock h)). cbn [tree]. by case_bool_decide.
Qed.

Lemma unique_key_spec n h : reliable h →
  let '(r, h') := unique_key n h in
  tree h' = tree h ∧ faults h' = faults h ∧ match r with Ok key => tree h !! key = None ∧ key ≠ ""%string | Err _ => True | Panic => False end.
Proof.
  revert h. induction n as [|n IH]; intros h Hr; cbn [unique_key]; [done|]. unfold st_bind.
  pose proof (random_keeps defaultUnpackDirLen h) as Hg. destruct (generateUniqueString defaultUnpackDirLen h) as [r h1].
  destruct Hg as ((key & ->) & Ht & Hf). assert (reliable h1) as Hr1 by (intros m; rewrite Hf; apply Hr).
  pose proof (contains_spec key h1 Hr1) as Hc. destruct (contains key h1) as [r2 h2]. destruct Hc as (-> & Ht2 & Hf2).
  assert (reliable h2) as Hr2 by (intros m; rewrite Hf2; apply Hr1).
  destruct (String.eqb_spec key "") as [->|Hkey]; cbn [negb andb].
  { specialize (IH h2 Hr2). destruct (unique_key n h2) as [r3 h3]. destruct IH as (Ht3 & Hf3 & Hres). split_and!; [congruence|congruence|].
    destruct r3; [|done..]. by rewrite Ht2, Ht in Hres. }
  case_bool_decide as Hin; cbn [negb].
  - specialize (IH h2 Hr2). destruct (unique_key n h2) as [r3 h3]. destruct IH as (Ht3 & Hf3 & Hres). split_and!; [congruence|congruence|].
    destruct r3; [|done..]. by rewrite Ht2, Ht in Hres.
  - split_and!; [congruence|congruence| |done]. rewrite <-Ht. by apply eq_None_not_Some.
Qed.

Lemma newLayerJob_spec lay ij h : reliable h →
  let '(r, h') := newLayerUnpackJob lay ij h in
  faults h' = faults h ∧
  match r with
  | Ok j => tree h !! layerUnpackID j = None ∧ (∃ subs, tree h' = <[layerUnpackID j := subs]> (tree h)) ∧
      lj_imageDigest j = ij_imageDigest ij ∧ lj_layerDigest j = lay ∧ lj_status j = LayerUnpackJobInProgress
  | Err _ => tree h ⊆ tree h'
  | Panic => False
  end.
Proof.
  intros Hr. unfold newLayerUnpackJob, storage_Create, st_bind, st_map_err, generateUniqueKey.
  pose proof (unique_key_spec maxRetriesUniqueID h Hr) as Hu. destruct (unique_key maxRetriesUniqueID h) as [[key|e|] h1];
    destruct Hu as (Ht & Hf & Hres); cbn [map_err]; [|by rewrite Ht|done].
  destruct Hres as [Hnone Hne]. unfold os_MkdirAll, syscall. rewrite Hf, (Hr (clock h1)). cbn [p_entry p_sub tree set_tree].
  rewrite Ht, Hnone. cbn [default]. rewrite lookup_empty. cbn [map_err st_ret]. set (h2 := set_tree _ _).
  assert (reliable h2) as Hr2 by (intros m; unfold h2; cbn; apply Hr).
  unfold GetJobPath, st_bind. pose proof (contains_spec key h2 Hr2) as Hc. destruct (contains key h2) as [r3 h3]. destruct Hc as (-> & Ht3 & Hf3).
  assert (tree h2 !! key = Some {[layerUnpackDir := (0, 0)]}) as Hk by (unfold h2; cbn; by rewrite lookup_insert_eq).
  rewrite Hk, bool_decide_eq_true_2 by (by eexists). cbn [map_err]. cbn. split; [by rewrite Hf3; unfold h2; cbn|].
  split_and!; [done| |done..]. eexists. by rewrite Ht3.
Qed.

Lemma tracked_in_storage s x j : wf s → is_tracked s x → layer_jobs s !! x = Some j → is_Some (tree (storage s) !! layerUnpackID j).
Proof.
  intros Hwf (d & p & ij & l & js & Hd & Hp & Hl & Hx) Hj. destruct (wf_job s Hwf d p ij l js x Hd Hp Hl Hx) as (j' & Hj' & _ & _ & Hin).
  rewrite Hj in Hj'. by injection Hj' as <-.
Qed.

Lemma wf_set_storage s h : wf s → reliable h →
  (∀ x j, is_tracked s x → layer_jobs s !! x = Some j → is_Some (tree h !! layerUnpackID j)) → wf (set_storage h s).
Proof.
  intros Hwf Hr Hin. split; try apply Hwf; [done|]. cbn [images image_jobs layer_jobs storage set_storage].
  intros d p ij l js x Hd Hp Hl Hx. destruct (wf_job s Hwf d p ij l js x Hd Hp Hl Hx) as (j & Hj & H1 & H2 & _).
  exists j. split_and!; [done..|]. apply (Hin x j); [by exists d, p, ij, l, js|done].
Qed.
Lemma shrinks_set_storage s h : shrinks s (set_storage h s).
Proof. split; [by intros x| |]; intros x j Hj; by exists j. Qed.

(** A job in a directory of its own was added. *)
Definition added s x s' : Prop :=
  ∃ j, layer_jobs s' = <[x := j]> (layer_jobs s) ∧ layer_jobs s !! x = None ∧ lj_status j = LayerUnpackJobInProgress ∧
    tree (storage s) !! layerUnpackID j = None ∧ tree (storage s) ⊆ tree (storage s') ∧
    ∀ y, is_tracked s' y → y = x ∨ is_tracked s y.

(** The state after the new job [lj], in a new directory, is recorded under [lay] in the
    image [cur]. *)
Section track.
Context (s s' : unpackJobs) (p : nat) (cur cur' : imageUnpackJob) (lay : string) (lj : layerUnpackJob).
Abbreviation x := (fresh_ptr s).
Abbreviation js := (default [] (ij_layers cur !! lay) ++ [x]).
Context (Hwf : wf s) (Hd : images s !! lj_imageDigest lj = Some p) (Hp : image_jobs s !! p = Some cur).
Context (Hlay : lj_layerDigest lj = lay) (Hnone : tree (storage s) !! layerUnpackID lj = None).
Context (Himages : images s' = images s) (Hjobs : image_jobs s' = <[p := cur']> (image_jobs s)).
Context (Hcur : ij_imageDigest cur' = ij_imageDigest cur) (Hlayers : ij_layers cur' = <[lay := js]> (ij_layers cur)).
Context (Hljobs : layer_jobs s' = <[x := lj]> (layer_jobs s)) (Hfresh : fresh_ptr s' = S x).
Context (Hr : reliable (storage s')) (Hsub : tree (storage s) ⊆ tree (storage s')) (Hin : is_Some (tree (storage s') !! layerUnpackID lj)).

Lemma track_new : layer_jobs s !! x = None.
Proof. destruct (layer_jobs s !! x) as [j|] eqn:Hj; [|done]. apply (wf_layer_fresh s Hwf) in Hj. clear -Hj. lia. Qed.

Lemma track_layers l ks y : ij_layers cur' !! l = Some ks → y ∈ ks → y = x ∧ l = lay ∨ ∃ ks0, ij_layers cur !! l = Some ks0 ∧ y ∈ ks0.
Proof.
  rewrite Hlayers. intros [[<- <-]|[_ Hl]]%lookup_insert_Some Hy; [|right; by exists ks].
  apply elem_of_app in Hy as [Hy| ->%list_elem_of_singleton]; [|by left]. destruct (ij_layers cur !! lay) as [ks0|]; [right; by exists ks0|].
  by apply not_elem_of_nil in Hy.
Qed.

(** A job of the new state is the new one or one of the old state. *)
Lemma track_cases d q iq l ks y : images s' !! d = Some q → image_jobs s' !! q = Some iq → ij_layers iq !! l = Some ks → y ∈ ks →
  y = x ∧ d = lj_imageDigest lj ∧ l = lay ∨
  ∃ iq0 ks0, images s !! d = Some q ∧ image_jobs s !! q = Some iq0 ∧ ij_layers iq0 !! l = Some ks0 ∧ y ∈ ks0.
Proof.
  rewrite Himages, Hjobs. intros Hd' [[<- <-]|[_ Hq]]%lookup_insert_Some Hl Hy; [|right; by exists iq, ks].
  destruct (track_layers l ks y Hl Hy) as [[-> ->]|(ks0 & Hl0 & Hy0)]; [left|right; by exists cur, ks0].
  destruct (wf_image s Hwf d p Hd') as (c0 & Hc0 & <-), (wf_image s Hwf _ p Hd) as (c1 & Hc1 & <-). by rewrite Hc0 in Hc1; injection Hc1 as ->.
Qed.

Lemma track_tracked y : is_tracked s' y → y = x ∨ is_tracked s y.
Proof.
  intros (d & q & iq & l & ks & Hd' & Hq & Hl & Hy). destruct (track_cases d q iq l ks y Hd' Hq Hl Hy) as [(-> & _)|(iq0 & ks0 & Hrest)]; [by left|right].
  by exists d, q, iq0, l, ks0.
Qed.

Lemma track_old y j : is_tracked s y → layer_jobs s' !! y = Some j → layer_jobs s !! y = Some j ∧ layerUnpackID j ≠ layerUnpackID lj.
Proof.
  intros Hy. rewrite Hljobs. intros Hj. assert (layer_jobs s !! y = Some j) as Hj0.
  { apply lookup_insert_Some in Hj as [[<- <-]|[_ Hj]]; [|done]. destruct Hy as (d & q & iq & l & ks & Hd' & Hq & Hl & Hy).
    destruct (wf_job s Hwf d q iq l ks _ Hd' Hq Hl Hy) as (j' & Hj' & _). by rewrite track_new in Hj'. }
  split; [done|]. intros E. destruct (tracked_in_storage s y j Hwf Hy Hj0) as [? Hst]. by rewrite E, Hnone in Hst.
Qed.

Lemma track_ids y z j j' : is_tracked s' y → is_tracked s' z → layer_jobs s' !! y = Some j → layer_jobs s' !! z = Some j' →
  layerUnpackID j = layerUnpackID j' → y = z.
Proof.
  intros Hy Hz Hj Hj' Hid.
  assert (∀ k, layer_jobs s' !! x = Some k → k = lj) as Hlj by (intros k; rewrite Hljobs, lookup_insert_eq; by intros [= <-]).
  destruct (track_tracked y Hy) as [->|Hy0], (track_tracked z Hz) as [->|Hz0]; [done| | |].
  - destruct (track_old z j' Hz0 Hj') as [_ Hne]. by rewrite <-Hid, (Hlj j Hj) in Hne.
  - destruct (track_old y j Hy0 Hj) as [_ Hne]. by rewrite Hid, (Hlj j' Hj') in Hne.
  - destruct (track_old y j Hy0 Hj) as [Hj0 _], (track_old z j' Hz0 Hj') as [Hj0' _]. by apply (wf_ids s Hwf y z j j').
Qed.

Lemma track_wf : wf s'.
Proof.
  split; [done| | | | | |exact track_ids].
  - rewrite Himages, Hjobs. intros d q Hd'. destruct (wf_image s Hwf d q Hd') as (iq & Hq & Hdg).
    destruct (decide (q = p)) as [->|Hne]; [|exists iq; by rewrite lookup_insert_ne].
    rewrite Hp in Hq. injection Hq as <-. exists cur'. rewrite lookup_insert_eq. split; [done|congruence].
  - rewrite Hjobs, Hfresh. intros q iq [[<- _]|[_ Hq]]%lookup_insert_Some; [apply (wf_image_fresh s Hwf) in Hp|apply (wf_image_fresh s Hwf) in Hq]; lia.
  - rewrite Hljobs, Hfresh. intros y j [[<- _]|[_ Hy]]%lookup_insert_Some; [lia|]. apply (wf_layer_fresh s Hwf) in Hy. lia.
  - intros d q iq l ks y Hd' Hq Hl Hy. rewrite Hljobs.
    destruct (track_cases d q iq l ks y Hd' Hq Hl Hy) as [(-> & -> & ->)|(iq0 & ks0 & Hd0 & Hq0 & Hl0 & Hy0)].
    + exists lj. by rewrite lookup_insert_eq.
    + destruct (wf_job s Hwf d q iq0 l ks0 y Hd0 Hq0 Hl0 Hy0) as (j & Hj & H1 & H2 & [sb H3]). exists j.
      rewrite lookup_insert_ne by (intros <-; by rewrite track_new in Hj). split_and!; [done..|]. exists sb. by eapply lookup_weaken.
  - rewrite Hjobs. intros q iq l ks [[<- <-]|[_ Hq]]%lookup_insert_Some Hl; [|by eapply (wf_nonempty s Hwf)].
    rewrite Hlayers in Hl. apply lookup_insert_Some in Hl as [[_ <-]|[_ Hl]]; [by destruct (default [] _)|by eapply (wf_nonempty s Hwf)].
Qed.
End track.

Lemma AddLayerJob_spec ip lay s : wf s →
  let '(r, s') := AddLayerJob ip lay s in
  match r with
  | Ok x => wf s' ∧ added s x s'
  | Err _ => wf s' ∧ shrinks s s' ∧ tree (storage s) ⊆ tree (storage s')
  | Panic => True
  end.
Proof.
  intros Hwf. unfold AddLayerJob, st_bind at 1, st_get, st_bind at 1, st_lift. destruct (image_jobs s !! ip) as [ij|] eqn:Hip; [|done].
  cbn [must]. unfold st_bind at 1, on_storage. pose proof (newLayerJob_spec lay ij (storage s) (wf_reliable s Hwf)) as Hn.
  destruct (newLayerUnpackJob lay ij (storage s)) as [[lj|e|] h1]; destruct Hn as [Hf Hn]; [| |done];
    assert (reliable h1) as Hr by (intros m; rewrite Hf; apply (wf_reliable s Hwf)).
  2: { split_and!; [|apply shrinks_set_storage|done]. apply wf_set_storage; [done|done|]. intros x j Hx Hj.
       destruct (tracked_in_storage s x j Hwf Hx Hj) as [subs Hsubs]. exists subs. by eapply lookup_weaken. }
  destruct Hn as (Hnone & (subs & Ht) & Hdig & Hlay & Hst). unfold st_bind. cbn [images image_jobs set_storage].
  rewrite <-Hdig. destruct (images s !! lj_imageDigest lj) as [p|] eqn:Hd; [|done]. cbn [must].
  destruct (wf_image s Hwf _ _ Hd) as (cur & Hp & Hcur). cbn [image_jobs set_storage]. rewrite Hp. cbn [must].
  set (s' := bump _). cbn [fresh_ptr set_storage]. set (cur' := mkImageJob _ _ _ _ _ _) in s'.
  assert (tree (storage s) ⊆ tree (storage s')) as Hsub by (change (tree (storage s) ⊆ tree h1); rewrite Ht; by apply insert_subseteq).
  assert (is_Some (tree (storage s') !! layerUnpackID lj)) as Hin by (change (is_Some (tree h1 !! layerUnpackID lj)); rewrite Ht, lookup_insert_eq; by eexists).
  split.
  - by apply (track_wf s s' p cur cur' lay lj).
  - exists lj. split_and!; [done|by apply track_new|done..|]. by apply (track_tracked s s' p cur cur' lay lj).
Qed.

(** ** The garbage collector *)
Lemma tracked_spec s j : j ∈ tracked s ↔ ∃ x, is_tracked s x ∧ layer_jobs s !! x = Some j.
Proof.
  unfold tracked, tracked_ptrs. rewrite list_elem_of_omap. split.
  - intros (x & Hx & Hj). exists x. split; [|done]. apply list_elem_of_bind in Hx as ([d p] & Hx & Hd%elem_of_map_to_list).
    cbn [snd] in Hx. destruct (image_jobs s !! p) as [ij|] eqn:Hp; [|by apply not_elem_of_nil in Hx].
    apply list_elem_of_bind in Hx as ([l js] & Hx & Hl%elem_of_map_to_list). by exists d, p, ij, l, js.
  - intros (x & (d & p & ij & l & js & Hd & Hp & Hl & Hx) & Hj). exists x. split; [|done]. apply list_elem_of_bind. exists (d, p).
    cbn [snd]. rewrite Hp. split; [|by apply elem_of_map_to_list]. apply list_elem_of_bind. exists (l, js). split; [done|by apply elem_of_map_to_list].
Qed.

Lemma inMemory_tracked s x j : is_tracked s x → layer_jobs s !! x = Some j → is_Some (inMemory s !! layerUnpackID j).
Proof.
  intros Hx Hj. destruct (inMemory s !! layerUnpackID j) eqn:E; [by eexists|]. apply not_elem_of_list_to_map_2 in E. exfalso. apply E.
  apply list_elem_of_fmap. exists (layerUnpackID j, mkSnap (lj_imageDigest j) (lj_creationTimestamp j)). split; [done|].
  apply list_elem_of_fmap. exists j. split; [done|]. apply elem_of_reverse, tracked_spec. by exists x.
Qed.
Lemma inMemory_image s id v x j : wf s → inMemory s !! id = Some v → is_tracked s x → layer_jobs s !! x = Some j → layerUnpackID j = id →
  lj_imageDigest j = imageID v.
Proof.
  intros Hwf Hv Hx Hj <-. apply elem_of_list_to_map_2, list_elem_of_fmap in Hv as (j' & [= Hid ->] & Hj').
  apply elem_of_reverse, tracked_spec in Hj' as (y & Hy & Hjy). assert (x = y) as -> by (by apply (wf_ids s Hwf x y j j')).
  rewrite Hj in Hjy. by injection Hjy as ->.
Qed.

(** Where the collector is in a round; [mem] is what is left of the snapshot of the jobs. *)
Inductive gc :=
| GIdle
| GMark (todo : list (string * layerUnpackJobSnapshot)) (mem : gmap string layerUnpackJobSnapshot) (cancelledImages inStorage : list string)
| GSweep (mem : gmap string layerUnpackJobSnapshot) (todo : list string).

(** The whole system; [claims] records which jobs were claimed, in order. *)
Record system := mkSystem { sys_jobs : unpackJobs; sys_gc : gc; claims : list nat }.

(** Operations besides [Claim]. *)
Inductive job_op :=
| OGetOrAdd (d : string) (ctx : nat)
| OAdd (imageJob : nat) (lay : string)
| OCancel (x : nat) (cause : error)
| ORemove (x : nat) (cause : error)
| ORemoveImage (d : string) (cause : error).
Definition run_job (op : job_op) s : outcome () * unpackJobs :=
  match op with
  | OGetOrAdd d c => st_bind (GetOrAddImageJob d c) (λ _, st_ret tt) s
  | OAdd ip lay => st_bind (AddLayerJob ip lay) (λ _, st_ret tt) s
  | OCancel x e => cancel_job x e s
  | ORemove x e => Remove x e s
  | ORemoveImage d e => RemoveImageWithError d e s
  end.

(** A panic ends the process.  Workers change what is inside their directories. *)
Inductive step : system → system → Prop :=
| step_op op s g cs r s' : run_job op s = (r, s') → r ≠ Panic → step (mkSystem s g cs) (mkSystem s' g cs)
| step_claim d l s g cs x s' : Claim d l s = (Ok x, s') → step (mkSystem s g cs) (mkSystem s' g (cs ++ [x]))
| step_work s g cs h : faults h = faults (storage s) → (∀ id, is_Some (tree h !! id) ↔ is_Some (tree (storage s) !! id)) →
    step (mkSystem s g cs) (mkSystem (set_storage h s) g cs)
| step_time s g cs t : step (mkSystem s g cs)
    (mkSystem (mkJobs (imagePullCfg s) (globalDownloads s) (globalUnpacks s) (images s) (image_jobs s) (layer_jobs s) (fresh_ptr s) (cancelled s) t (storage s)) g cs)
| gc_snapshot s cs mem ids todo s' : unpack_Snapshot s = (Ok (mem, ids), s') → todo ≡ₚ map_to_list mem →
    step (mkSystem s GIdle cs) (mkSystem s' (GMark todo mem [] ids) cs)
| gc_expire s cs id v todo mem imgs ids b imgs' s' :
    expire_one garbageCollectionJobExpiration v imgs s = (Ok (b, imgs'), s') →
    step (mkSystem s (GMark ((id, v) :: todo) mem imgs ids) cs) (mkSystem s' (GMark todo (if b then delete id mem else mem) imgs' ids) cs)
| gc_marked s cs mem imgs ids : step (mkSystem s (GMark [] mem imgs ids) cs) (mkSystem s (GSweep mem ids) cs)
| gc_sweep s cs mem id todo s' : sweep_one mem id s = (Ok tt, s') → step (mkSystem s (GSweep mem (id :: todo)) cs) (mkSystem s' (GSweep mem todo) cs)
| gc_done s cs mem : step (mkSystem s (GSweep mem []) cs) (mkSystem s GIdle cs).

(** What the collector may still delete works for nobody. *)
Definition gc_ok s (g : gc) : Prop :=
  match g with
  | GIdle => True
  | GMark todo mem imgs ids =>
      NoDup ids ∧ NoDup todo.*1 ∧ (∀ id, id ∈ ids → is_Some (tree (storage s) !! id)) ∧
      (∀ id v, (id, v) ∈ todo → is_Some (mem !! id)) ∧
      (∀ id, mem !! id = None → id ∈ ids → untracked s id) ∧
      (∀ id v, (id, v) ∈ todo → id ∈ ids → imageID v ∈ imgs → untracked s id) ∧
      (∀ id v x j, (id, v) ∈ todo → id ∈ ids → is_tracked s x → layer_jobs s !! x = Some j → layerUnpackID j = id → lj_imageDigest j = imageID v)
  | GSweep mem ids =>
      NoDup ids ∧ (∀ id, id ∈ ids → is_Some (tree (storage s) !! id)) ∧ (∀ id, mem !! id = None → id ∈ ids → untracked s id)
  end.

(** The invariant of the system. *)
Record sys_ok (y : system) : Prop := {
  ok_wf : wf (sys_jobs y);
  ok_gc : gc_ok (sys_jobs y) (sys_gc y);
  ok_claims : NoDup (claims y);
  ok_claimed x : x ∈ claims y → ∃ j, layer_jobs (sys_jobs y) !! x = Some j ∧ lj_status j ≠ LayerUnpackJobInProgress
}.

(** Steps after which what is untracked and on disk still is, and claimed jobs stay claimed. *)
Record calm s s' : Prop := {
  calm_wf : wf s';
  calm_tree id : is_Some (tree (storage s) !! id) → is_Some (tree (storage s') !! id);
  calm_untracked id : is_Some (tree (storage s) !! id) → untracked s id → untracked s' id;
  calm_image id x j : is_Some (tree (storage s) !! id) → is_tracked s' x → layer_jobs s' !! x = Some j → layerUnpackID j = id →
    ∃ j0, is_tracked s x ∧ layer_jobs s !! x = Some j0 ∧ layerUnpackID j0 = id ∧ lj_imageDigest j0 = lj_imageDigest j;
  calm_status x j : layer_jobs s !! x = Some j → ∃ j', layer_jobs s' !! x = Some j' ∧ (lj_status j ≠ LayerUnpackJobInProgress → lj_status j' ≠ LayerUnpackJobInProgress)
}.

Lemma shrinks_image s s' x j : shrinks s s' → is_tracked s' x → layer_jobs s' !! x = Some j →
  ∃ j0, is_tracked s x ∧ layer_jobs s !! x = Some j0 ∧ advances j0 j.
Proof.
  intros [Ht Hj Hd] Hx Hxj. destruct (Hd x j Hxj) as [j0 H0]. destruct (Hj x j0 H0) as (j1 & Hj1 & Ha).
  rewrite Hxj in Hj1. injection Hj1 as <-. exists j0. auto.
Qed.

Lemma calm_shrinks s s' : wf s' → shrinks s s' → (∀ id, is_Some (tree (storage s) !! id) → is_Some (tree (storage s') !! id)) → calm s s'.
Proof.
  intros Hwf Hs Ht. split; [done|done| | |].
  - intros id _. by apply shrinks_untracked.
  - intros id x j _ Hx Hj Hid. destruct (shrinks_image s s' x j Hs Hx Hj) as (j0 & Hx0 & Hj0 & ((E1 & E2 & _) & _)). exists j0. split_and!; congruence || done.
  - intros x j Hj. destruct (sh_job s s' Hs x j Hj) as (j' & Hj' & _ & Hst). by exists j'.
Qed.

Lemma calm_added s x s' : wf s → wf s' → added s x s' → calm s s'.
Proof.
  intros Hwf Hwf' (j & Hjobs & Hnone & Hst & Hid & Hsub & Htr).
  assert (∀ y k, is_tracked s' y → layer_jobs s' !! y = Some k → y = x ∧ k = j ∨ is_tracked s y ∧ layer_jobs s !! y = Some k) as Hcases.
  { intros y k Hy. rewrite Hjobs. intros [[<- <-]|[Hne Hk]]%lookup_insert_Some; [by left|right]. by destruct (Htr y Hy) as [->|]. }
  split; [done| | | |].
  - intros id [sb Hsb]. exists sb. by eapply lookup_weaken.
  - intros id [sb Hsb] Hu y k Hy Hk. destruct (Hcases y k Hy Hk) as [[-> ->]|[Hy0 Hk0]]; [intros E; by rewrite E, Hsb in Hid|by apply (Hu y)].
  - intros id y k [sb Hsb] Hy Hk Hki. destruct (Hcases y k Hy Hk) as [[-> ->]|[Hy0 Hk0]]; [by rewrite Hki, Hsb in Hid|by exists k].
  - intros y k Hk. exists k. rewrite Hjobs, lookup_insert_ne by (intros <-; by rewrite Hnone in Hk). done.
Qed.

Lemma calm_gc s s' g : calm s s' → gc_ok s g → gc_ok s' g.
Proof.
  intros Hc. destruct g as [|todo mem imgs ids|mem ids]; [done| |]; cbn [gc_ok].
  - intros (H1 & H2 & H3 & H4 & H5 & H6 & H7). split_and!; [done|done| |done| | |].
    + intros id Hi. by apply (calm_tree s s' Hc), H3.
    + intros id Hm Hi. apply (calm_untracked s s' Hc); auto.
    + intros id v Hv Hi Hg. apply (calm_untracked s s' Hc); eauto.
    + intros id v x j Hv Hi Hx Hj Hid. destruct (calm_image s s' Hc id x j (H3 id Hi) Hx Hj Hid) as (j0 & Hx0 & Hj0 & Hid0 & <-). eauto.
  - intros (H1 & H3 & H5). split_and!; [done| |].
    + intros id Hi. by apply (calm_tree s s' Hc), H3.
    + intros id Hm Hi. apply (calm_untracked s s' Hc); auto.
Qed.

Lemma calm_ok s s' g cs : calm s s' → sys_ok (mkSystem s g cs) → sys_ok (mkSystem s' g cs).
Proof.
  intros Hc [H1 H2 H3 H4]. split; cbn [sys_jobs sys_gc claims] in *; [apply Hc|by eapply calm_gc|done|].
  intros x Hx. destruct (H4 x Hx) as (j & Hj & Hst). destruct (calm_status s s' Hc x j Hj) as (j' & Hj' & Hst'). exists j'. auto.
Qed.

Lemma run_job_calm op s r s' : wf s → run_job op s = (r, s') → r ≠ Panic → calm s s'.
Proof.
  intros Hwf Hrun Hr. destruct op as [d c|ip lay|x e|x e|d e]; cbn [run_job] in Hrun.
  - unfold st_bind in Hrun. pose proof (GetOrAdd_spec d c s Hwf) as H. destruct (GetOrAddImageJob d c s) as [r1 s1].
    destruct H as (H1 & H2 & H3 & p & ij & -> & _). injection Hrun as _ <-. apply calm_shrinks; [done|done|by rewrite H3].
  - unfold st_bind in Hrun. pose proof (AddLayerJob_spec ip lay s Hwf) as H. destruct (AddLayerJob ip lay s) as [[x|e|] s1]; injection Hrun as <- <-; [| |done].
    + destruct H. by eapply calm_added.
    + destruct H as (H1 & H2 & H3). apply calm_shrinks; [done|done|]. intros id [sb Hsb]. exists sb. by eapply lookup_weaken.
  - pose proof (cancel_job_spec x e s Hwf) as H. rewrite Hrun in H. destruct H as (H1 & H2 & H3). apply calm_shrinks; [done|done|by rewrite H3].
  - pose proof (Remove_spec s x e Hwf) as H. rewrite Hrun in H. destruct H as (H1 & H2 & H3). apply calm_shrinks; [done|done|by rewrite H3].
  - pose proof (RemoveImage_spec s d e Hwf) as H. rewrite Hrun in H. destruct H as (H1 & H2 & H3 & _). apply calm_shrinks; [done|done|by rewrite H3].
Qed.

Lemma Keys_spec h : reliable h → ∃ h', Keys h = (Ok (map_to_list (tree h)).*1, h') ∧ tree h' = tree h ∧ faults h' = faults h.
Proof. intros Hr. unfold Keys, os_Readdirnames, syscall. rewrite (Hr (clock h)). eexists. by split_and!. Qed.

Lemma snapshot_ok s mem ids s' todo : wf s → unpack_Snapshot s = (Ok (mem, ids), s') → todo ≡ₚ map_to_list mem →
  calm s s' ∧ gc_ok s' (GMark todo mem [] ids).
Proof.
  intros Hwf. unfold unpack_Snapshot, st_bind, st_get, on_storage.
  destruct (Keys_spec (storage s) (wf_reliable s Hwf)) as (h & -> & Ht & Hf). intros [= <- <- <-] Hp.
  assert (reliable h) as Hr by (intros m; rewrite Hf; apply (wf_reliable s Hwf)).
  assert (wf (set_storage h s)) as Hwf'.
  { apply wf_set_storage; [done|done|]. rewrite Ht. intros x j. by apply tracked_in_storage. }
  split; [apply calm_shrinks; [done|apply shrinks_set_storage|cbn [storage set_storage]; by rewrite Ht]|].
  assert (∀ id v, (id, v) ∈ todo → inMemory s !! id = Some v) as Hmem by (intros id v; by rewrite Hp, elem_of_map_to_list).
  cbn [gc_ok]. split_and!.
  - apply NoDup_fst_map_to_list.
  - rewrite Hp. apply NoDup_fst_map_to_list.
  - intros id [[id' sb] [-> Hid%elem_of_map_to_list]]%list_elem_of_fmap. cbn [storage set_storage fst]. rewrite Ht. by exists sb.
  - intros id v Hv%Hmem. by exists v.
  - intros id Hm _ x j Hx Hj <-. destruct (inMemory_tracked s x j Hx Hj) as [v Hv]. by rewrite Hm in Hv.
  - intros id v _ _ Hin. by apply not_elem_of_nil in Hin.
  - intros id v x j Hv%Hmem _ Hx Hj Hid. by apply (inMemory_image s id v x j Hwf Hv Hx Hj).
Qed.

Lemma image_gone s id d : wf s → images s !! d = None → (∀ x j, is_tracked s x → layer_jobs s !! x = Some j → layerUnpackID j = id → lj_imageDigest j = d) →
  untracked s id.
Proof.
  intros Hwf Hd Himg x j Hx Hj Hid. pose proof (Himg x j Hx Hj Hid) as E. destruct Hx as (d' & p & ij & l & js & Hd' & Hp & Hl & Hxj).
  destruct (wf_job s Hwf d' p ij l js x Hd' Hp Hl Hxj) as (j' & Hj' & E' & _). rewrite Hj in Hj'. injection Hj' as <-. congruence.
Qed.

Lemma marked_ok s id v todo mem imgs imgs' ids (b : bool) : wf s → gc_ok s (GMark ((id, v) :: todo) mem imgs ids) →
  (b = true → imageID v ∈ imgs') → (∀ i, i ∈ imgs' → i ∈ imgs ∨ images s !! i = None) →
  gc_ok s (GMark todo (if b then delete id mem else mem) imgs' ids).
Proof.
  cbn [gc_ok]. intros Hwf (H1 & H2 & H3 & H4 & H5 & H6 & H7) Hb Himgs. cbn [fmap list_fmap fst] in H2. apply list.NoDup_cons in H2 as [Hid H2].
  assert (∀ i w, (i, w) ∈ (id, v) :: todo → i ∈ ids → imageID w ∈ imgs' → untracked s i) as H6'.
  { intros i w Hw Hi [Hin|Hgone]%Himgs; [by eapply H6|]. apply (image_gone s i (imageID w) Hwf Hgone). intros x j. by apply H7. }
  assert (∀ i w, (i, w) ∈ todo → i ≠ id) as Hne.
  { intros i w Hw ->. apply Hid. apply list_elem_of_fmap. by exists (id, w). }
  split_and!; [done|done|done| | | |].
  - intros i w Hw. destruct b; [rewrite lookup_delete_ne by (intros <-; by eapply Hne)|]; apply (H4 i w); by right.
  - intros i Hm Hi. destruct b; [|by apply H5]. destruct (decide (i = id)) as [->|Hn]; [|rewrite lookup_delete_ne in Hm by done; by apply H5].
    apply (H6' id v); [by left|done|by apply Hb].
  - intros i w Hw. apply H6'. by right.
  - intros i w x j Hw. apply H7. by right.
Qed.

Lemma expire_ok s id v todo mem imgs ids b imgs' s' : wf s → gc_ok s (GMark ((id, v) :: todo) mem imgs ids) →
  expire_one garbageCollectionJobExpiration v imgs s = (Ok (b, imgs'), s') →
  calm s s' ∧ gc_ok s' (GMark todo (if b then delete id mem else mem) imgs' ids).
Proof.
  intros Hwf Hg. assert (calm s s) as Hrefl by (by apply calm_shrinks; [|apply shrinks_refl|]).
  unfold expire_one. destruct (existsb (String.eqb (imageID v)) imgs) eqn:Hex.
  { intros [= <- <- <-]. split; [done|]. apply (marked_ok s id v todo mem imgs imgs ids true); [done|done| |by left].
    intros _. apply existsb_exists in Hex as (i & Hi & ->%String.eqb_eq). by apply list_elem_of_In. }
  destruct (_ <? _).
  - pose proof (RemoveImage_spec s (imageID v) ErrImageUnpackJobExpired Hwf) as H.
    destruct (RemoveImageWithError (imageID v) ErrImageUnpackJobExpired s) as [[[]|e|] s1]; destruct H as (Hwf1 & Hs & Hst & Hd); [| |done].
    + intros [= <- <- <-]. assert (calm s s1) as Hc by (apply calm_shrinks; [done|done|by rewrite Hst]). split; [done|].
      apply (marked_ok s1 id v todo mem imgs (imageID v :: imgs) ids true); [done|by eapply calm_gc|by left|]. intros i [->|Hi]%elem_of_cons; auto.
    + intros [= <- <- <-]. subst s1. split; [done|]. by apply (marked_ok s id v todo mem imgs imgs ids false); [..|left].
  - intros [= <- <- <-]. split; [done|]. by apply (marked_ok s id v todo mem imgs imgs ids false); [..|left].
Qed.

Lemma sweep_ok s cs mem id todo s' : sys_ok (mkSystem s (GSweep mem (id :: todo)) cs) → sweep_one mem id s = (Ok tt, s') →
  sys_ok (mkSystem s' (GSweep mem todo) cs).
Proof.
  intros [Hwf (H1 & H3 & H5) Hc1 Hc2]. cbn [sys_jobs sys_gc claims] in *. apply list.NoDup_cons in H1 as [Hnin Hnd].
  unfold sweep_one, on_storage, Delete. destruct (mem !! id) as [v|] eqn:Hm.
  { intros [= <-]. split; [done| |done|done]. cbn [sys_jobs sys_gc gc_ok]. split_and!; [done| |]; intros i; [|intros Hi]; intros Hin; [apply H3|apply H5]; by auto; right. }
  destruct (String.eqb id "") eqn:E.
  { cbn. intros [= <-]. replace (set_storage (storage s) s) with s by (by destruct s). split; [done| |done|done]. cbn [sys_jobs sys_gc gc_ok].
    split_and!; [done| |]; intros i; [|intros Hi]; intros Hin; [apply H3|apply H5]; by auto; right. }
  unfold os_RemoveAll, syscall. rewrite (wf_reliable s Hwf (clock (storage s))). intros [= <-]. set (h := set_tree _ _).
  assert (untracked s id) as Hu by (apply H5; [done|by left]).
  assert (∀ i, i ≠ id → tree h !! i = tree (storage s) !! i) as Htree by (intros i Hi; unfold h; cbn; by rewrite lookup_delete_ne).
  split; cbn [sys_jobs sys_gc claims gc_ok].
  - apply wf_set_storage; [done|apply (wf_reliable s Hwf)|]. intros x j Hx Hj. rewrite Htree by (by apply (Hu x)). by apply (tracked_in_storage s x).
  - split_and!; [done| |].
    + intros i Hi. cbn [storage set_storage]. rewrite Htree by (intros ->; done). apply H3. by right.
    + intros i Hmi Hi. change (untracked s i). apply H5; [done|by right].
  - done.
  - done.
Qed.

Lemma step_ok y y' : step y y' → sys_ok y → sys_ok y'.
Proof.
  intros Hstep Hok. pose proof (ok_wf y Hok) as Hwf. pose proof (ok_gc y Hok) as Hg. destruct Hstep; cbn [sys_jobs sys_gc] in *.
  - eapply calm_ok; [|exact Hok]. by eapply run_job_calm.
  - pose proof (Claim_spec d l s Hwf) as Hc. rewrite H in Hc. destruct Hc as (Hwf' & Hs & Hst & j & Hj & Hin & Hj').
    assert (calm s s') as Hcalm by (apply calm_shrinks; [done|done|by rewrite Hst]).
    assert (x ∉ cs) as Hfresh.
    { intros Hx. destruct (ok_claimed _ Hok x Hx) as (j0 & Hj0 & Hst0). cbn [sys_jobs] in Hj0. rewrite Hj in Hj0. by injection Hj0 as <-. }
    apply (calm_ok s s') in Hok as [H1 H2 H3 H4]; [|done]. cbn [sys_jobs sys_gc claims] in *. split; cbn [sys_jobs sys_gc claims]; [done|done| |].
    + apply list.NoDup_app. split_and!; [done| |apply NoDup_singleton]. by intros z Hz ->%list_elem_of_singleton.
    + intros z [Hz| ->%list_elem_of_singleton]%elem_of_app; [by apply H4|]. by exists (set_status LayerUnpackJobClaimed j).
  - eapply calm_ok; [|exact Hok]. apply calm_shrinks; [|apply shrinks_set_storage|].
    + apply wf_set_storage; [done|intros m; rewrite H; apply (wf_reliable s Hwf)|]. intros z j Hz Hj. by apply H0, (tracked_in_storage s z).
    + intros id. cbn [storage set_storage]. apply H0.
  - eapply calm_ok; [|exact Hok]. apply calm_shrinks; [by destruct Hwf| |done]. split; [by intros z| |]; intros z j Hj; by exists j.
  - destruct (snapshot_ok s mem ids s' todo Hwf H H0) as [Hc Hg']. apply (calm_ok s s') in Hok as [H1 _ H3 H4]; [|done]. by split.
  - destruct (expire_ok s id v todo mem imgs ids b imgs' s' Hwf Hg H) as [Hc Hg']. apply (calm_ok s s') in Hok as [H1 _ H3 H4]; [|done]. by split.
  - destruct Hok as [H1 H2 H3 H4]. split; [done| |done|done]. cbn [sys_jobs sys_gc gc_ok] in *. naive_solver.
  - by eapply sweep_ok.
  - destruct Hok as [H1 H2 H3 H4]. by split.
Qed.

(** ** Theorems *)
Lemma new_ok cfg t h s : newUnpackJobs cfg t h = Ok s → reliable h → sys_ok (mkSystem s GIdle []).
Proof.
  unfold newUnpackJobs. destruct (map_err _ _); [|done..]. intros [= <-] Hr. split; cbn [sys_jobs sys_gc claims].
  - split; cbn [storage images image_jobs layer_jobs]; [done|intros *; by rewrite lookup_empty..|].
    intros x y j j' (d & p & ij & l & js & Hd & _). cbn [images] in Hd. by rewrite lookup_empty in Hd.
  - done.
  - constructor.
  - intros x Hx. by apply not_elem_of_nil in Hx.
Qed.

Lemma reachable_ok cfg t h s y : newUnpackJobs cfg t h = Ok s → reliable h → rtc step (mkSystem s GIdle []) y → sys_ok y.
Proof.
  intros Hn Hr Hsteps. pose proof (new_ok cfg t h s Hn Hr) as H0. induction Hsteps as [|y1 y2 y3 Hstep _ IH]; [done|].
  by apply IH, (step_ok y1).
Qed.

(** As long as no system call fails, the garbage collector never takes the directory of a job
    that somebody works on.  In every interleaving of adding, claiming, cancelling and removing jobs with the steps of
    the collector, which works on a snapshot that grows old: each job that is tracked has
    its directory, no two of them share one, and each is filed under its image and layer. *)
Theorem tracked_jobs_keep_directories cfg t h s0 y x :
  newUnpackJobs cfg t h = Ok s0 → reliable h → rtc step (mkSystem s0 GIdle []) y → is_tracked (sys_jobs y) x →
  ∃ j, layer_jobs (sys_jobs y) !! x = Some j ∧ is_Some (tree (storage (sys_jobs y)) !! layerUnpackID j) ∧
    (∀ x' j', is_tracked (sys_jobs y) x' → layer_jobs (sys_jobs y) !! x' = Some j' → layerUnpackID j' = layerUnpackID j → x' = x).
Proof.
  intros Hn Hr Hsteps Hx. pose proof (reachable_ok cfg t h s0 y Hn Hr Hsteps) as [Hwf _ _ _].
  pose proof Hx as (d & p & ij & l & js & Hd & Hp & Hl & Hxj). destruct (wf_job _ Hwf d p ij l js x Hd Hp Hl Hxj) as (j & Hj & _ & _ & Hin).
  exists j. split_and!; [done..|]. intros x' j' Hx' Hj' E. by apply (wf_ids _ Hwf x' x j' j).
Qed.

(** No job is claimed twice, so that no two mounts move the same unpacked layer. *)
Theorem claims_exclusive cfg t h s0 y :
  newUnpackJobs cfg t h = Ok s0 → reliable h → rtc step (mkSystem s0 GIdle []) y → NoDup (claims y).
Proof. intros Hn Hr Hsteps. apply (reachable_ok cfg t h s0 y Hn Hr Hsteps). Qed.

(** When the job of an image is removed while its layers are still being added, which a
    failing layer does, adding the next layer dereferences a nil pointer and the process
    dies. *)
Theorem AddLayerJob_after_removal_panics d c cause lay s p s1 s2 ij lj h :
  wf s → GetOrAddImageJob d c s = (Ok p, s1) → RemoveImageWithError d cause s1 = (Ok tt, s2) →
  image_jobs s2 !! p = Some ij → newLayerUnpackJob lay ij (storage s2) = (Ok lj, h) →
  (AddLayerJob p lay s2).1 = Panic.
Proof.
  intros Hwf H1 H2 Hp Hnew. pose proof (GetOrAdd_spec d c s Hwf) as Hg. rewrite H1 in Hg.
  destruct Hg as (Hwf1 & _ & _ & p' & ij' & [= <-] & _ & Hp1 & Hdig). pose proof (RemoveImage_spec s1 d cause Hwf1) as Hr. rewrite H2 in Hr.
  destruct Hr as (_ & _ & _ & Hgone).
  assert (image_jobs s2 = image_jobs s1) as E.
  { unfold RemoveImageWithError in H2. destruct (images s1 !! d) as [q|]; [|done]. destruct (image_jobs s1 !! q) as [iq|]; [|done].
    injection H2 as <-. unfold cancel_ctx. by destruct (cancelled s1 !! ij_ctx iq). }
  rewrite E, Hp1 in Hp. injection Hp as <-.
  unfold AddLayerJob, st_bind, st_get, st_lift, on_storage. rewrite E, Hp1. cbn [must]. rewrite Hnew. cbn [images set_storage].
  by rewrite Hdig, Hgone.
Qed.

(** *** A whole round *)
Definition fresh_enough s : Prop := ∀ x j, is_tracked s x → layer_jobs s !! x = Some j → now s - lj_creationTimestamp j ≤ garbageCollectionJobExpiration.

Lemma expire_all_nothing todo mem s : Forall (λ x, now s - sn_creationTimestamp x.2 ≤ garbageCollectionJobExpiration) todo →
  expire_all todo mem [] s = (Ok mem, s).
Proof.
  intros Hf. induction Hf as [|[id v] todo Hv _ IH]; cbn [expire_all]; [done|]. unfold st_bind, expire_one. cbn [existsb snd fst] in *.
  destruct (Z.ltb_spec garbageCollectionJobExpiration (now s - sn_creationTimestamp v)); [lia|]. exact IH.
Qed.

Lemma sweep_all_spec mem ids s : reliable (storage s) →
  ∃ s', sweep_all mem ids s = (Ok tt, s') ∧ images s' = images s ∧ image_jobs s' = image_jobs s ∧ layer_jobs s' = layer_jobs s ∧
    ∀ id, id ≠ ""%string → tree (storage s') !! id = if bool_decide (id ∈ ids ∧ mem !! id = None) then None else tree (storage s) !! id.
Proof.
  revert s. induction ids as [|i ids IH]; intros s Hr; cbn [sweep_all].
  { exists s. split_and!; [done..|]. intros id _. rewrite bool_decide_eq_false_2; [done|]. by intros [H%not_elem_of_nil _]. }
  assert (∃ s1, sweep_one mem i s = (Ok tt, s1) ∧ reliable (storage s1) ∧ images s1 = images s ∧ image_jobs s1 = image_jobs s ∧ layer_jobs s1 = layer_jobs s ∧
    ∀ id, id ≠ ""%string → tree (storage s1) !! id = if bool_decide (id = i ∧ mem !! id = None) then None else tree (storage s) !! id) as (s1 & E & Hr1 & H1 & H2 & H3 & H4).
  { unfold sweep_one. destruct (mem !! i) as [v|] eqn:Hm.
    - exists s. split_and!; [done..|]. intros id _. rewrite bool_decide_eq_false_2; [done|]. intros [-> ?]. congruence.
    - unfold on_storage, Delete. destruct (String.eqb_spec i "") as [->|Hi].
      + exists (set_storage (storage s) s). split_and!; [done..|]. intros id Hid. rewrite bool_decide_eq_false_2; [done|]. by intros [-> _].
      + unfold os_RemoveAll, syscall. rewrite (Hr (clock (storage s))). eexists. split_and!; [done..|]. intros id Hid. cbn [storage set_storage set_tree tree].
        case_bool_decide as Hb; [destruct Hb as [-> _]; by rewrite lookup_delete_eq|]. rewrite lookup_delete_ne; [done|]. intros <-. by apply Hb. }
  unfold st_bind. rewrite E. destruct (IH s1 Hr1) as (s' & -> & H1' & H2' & H3' & H4'). exists s'. split_and!; [done|congruence..|].
  intros id Hid. rewrite (H4' id Hid), (H4 id Hid). repeat case_bool_decide; try done; exfalso; set_solver.
Qed.

(** A round of the collector that nothing interleaves with and in which no job is expired
    removes exactly the directories of jobs that are not tracked. *)
Theorem gc_round_exact s : wf s → fresh_enough s →
  ∃ s', gc_round s = (Ok tt, s') ∧
    ∀ id, id ≠ ""%string → is_Some (tree (storage s') !! id) ↔ ∃ x j, is_tracked s' x ∧ layer_jobs s' !! x = Some j ∧ layerUnpackID j = id.
Proof.
  intros Hwf Hfresh. unfold gc_round, unpack_Snapshot, st_bind at 1 2, st_get, on_storage.
  destruct (Keys_spec (storage s) (wf_reliable s Hwf)) as (h & -> & Ht & Hf). cbn [st_ret]. set (s1 := set_storage h s).
  assert (reliable (storage s1)) as Hr by (intros m; cbn; rewrite Hf; apply (wf_reliable s Hwf)).
  unfold st_bind. rewrite expire_all_nothing.
  2: { apply list.Forall_forall. intros [id v] Hv%elem_of_map_to_list%elem_of_list_to_map_2. apply list_elem_of_fmap in Hv as (j & [= _ ->] & Hj).
       apply elem_of_reverse, tracked_spec in Hj as (x & Hx & Hj). cbn [snd sn_creationTimestamp]. by apply (Hfresh x j). }
  destruct (sweep_all_spec (inMemory s) (map_to_list (tree (storage s))).*1 s1 Hr) as (s' & -> & H1 & H2 & H3 & H4).
  exists s'. split; [done|]. intros id Hid. rewrite (H4 id Hid). cbn [storage set_storage s1]. rewrite Ht, H3.
  assert (∀ x, is_tracked s' x ↔ is_tracked s x) as Htr by (intros x; unfold is_tracked; by rewrite H1, H2).
  split.
  - case_bool_decide as Hb; [by intros []|]. intros [sb Hsb]. assert (inMemory s !! id ≠ None) as Hm.
    { intros Hn. apply Hb. split; [|done]. apply list_elem_of_fmap. exists (id, sb). split; [done|]. by apply elem_of_map_to_list. }
    apply not_eq_None_Some in Hm as [v Hv]. apply elem_of_list_to_map_2, list_elem_of_fmap in Hv as (j & [= -> _] & Hj).
    apply elem_of_reverse, tracked_spec in Hj as (x & Hx & Hj). exists x, j. by rewrite Htr.
  - intros (x & j & Hx%Htr & Hj & <-). rewrite bool_decide_eq_false_2; [by apply (tracked_in_storage s x)|].
    intros [_ Hn]. destruct (inMemory_tracked s x j Hx Hj) as [v Hv]. congruence.
Qed.
