(* ===== verification/Limiters.v ===== *)
(** * Limits on concurrent downloads and unpacks

    Models [SemaphoreWithNil] and [AcquireDownload], [ReleaseDownload] and
    [AcquireUnpackLease] of [fs/adaptive_fetch_image_layers.go]: a goroutine takes a slot of
    its image and then a slot of the snapshotter, works, and gives both back.  Goroutines
    interleave; one that waits for a slot may have its context cancelled.  The two pairs of
    semaphores are independent, so the system has one pair; [keeps_slot] tells downloads,
    which keep the slot of the image when the second wait is cancelled, from unpacks. *)
From Stdlib Require Import ZArith Lia.
From stdpp Require Import base list gmap strings numbers.
From S2P Require Import Prelude GoLib UnpackJobs.
#[local] Open Scope Z_scope.

(** ** Semaphores: the capacity, [None] without a limit, and the slots taken *)
Record semaphore := mkSem { cap : option Z; held : Z }.

Definition NewSemaphore (n : Z) : semaphore := mkSem (NewSemaphoreWithNil n) 0.

(** [None]: the call waits. *)
Definition Acquire (n : Z) (s : semaphore) : option semaphore :=
  match cap s with
  | None => Some s
  | Some c => if held s + n <=? c then Some (mkSem (cap s) (held s + n)) else None
  end.

(** [None]: it panics, more is released than is held. *)
Definition Release (n : Z) (s : semaphore) : option semaphore :=
  match cap s with
  | None => Some s
  | Some _ => if held s - n <? 0 then None else Some (mkSem (cap s) (held s - n))
  end.

(** ** Goroutines *)
Inductive pc :=
  | WaitImage (img : string)
  | WaitGlobal (img : string)
  | Working (img : string)
  | Finished
  | Cancelled (img : string) (kept : bool).   (* [kept]: with the slot of the image *)

Record state := mkL { images : gmap string semaphore; global : semaphore; goroutines : list pc }.

Inductive ev :=
  | ECall (img : string)
  | EAcquireImage (i : nat)
  | EAcquireGlobal (i : nat)
  | ECancel (i : nat)
  | ERelease (i : nat).

Section system.
Context (keeps_slot : bool).

Definition set_image (img : string) (f : semaphore → option semaphore) (s : state) : option state :=
  sem ← images s !! img; sem' ← f sem; Some (mkL (<[img := sem']> (images s)) (global s) (goroutines s)).
Definition set_global (f : semaphore → option semaphore) (s : state) : option state :=
  sem ← f (global s); Some (mkL (images s) sem (goroutines s)).
Definition goto (i : nat) (p : pc) (s : state) : state := mkL (images s) (global s) (<[i := p]> (goroutines s)).

Definition step (e : ev) (s : state) : option state :=
  match e with
  | ECall img => if decide (is_Some (images s !! img))
                 then Some (mkL (images s) (global s) (goroutines s ++ [WaitImage img])) else None
  | EAcquireImage i =>
      match goroutines s !! i with
      | Some (WaitImage img) => goto i (WaitGlobal img) <$> set_image img (Acquire 1) s
      | _ => None
      end
  | EAcquireGlobal i =>
      match goroutines s !! i with
      | Some (WaitGlobal img) => goto i (Working img) <$> set_global (Acquire 1) s
      | _ => None
      end
  | ECancel i =>
      match goroutines s !! i with
      | Some (WaitImage img) => Some (goto i (Cancelled img false) s)
      | Some (WaitGlobal img) =>
          if keeps_slot then Some (goto i (Cancelled img true) s)
          else goto i (Cancelled img false) <$> set_image img (Release 1) s
      | _ => None
      end
  | ERelease i =>
      match goroutines s !! i with
      | Some (Working img) =>
          goto i Finished <$> (set_image img (Release 1) s ≫= set_global (Release 1))
      | _ => None
      end
  end.

Fixpoint run (es : list ev) (s : state) : option state :=
  match es with [] => Some s | e :: es => s' ← step e s; run es s' end.

Definition start (limits : gmap string Z) (limit : Z) : state :=
  mkL (NewSemaphore <$> limits) (NewSemaphore limit) [].

(** ** Counting *)
Definition holds_image (img : string) (p : pc) : Z :=
  match p with
  | WaitGlobal img' | Working img' => if decide (img' = img) then 1 else 0
  | Cancelled img' true => if decide (img' = img) then 1 else 0
  | _ => 0
  end.
Definition holds_global (p : pc) : Z := match p with Working _ => 1 | _ => 0 end.
Definition total (f : pc → Z) (l : list pc) : Z := foldr (λ p n, f p + n) 0 l.

Lemma total_elem f l i p : (∀ p, 0 ≤ f p) → l !! i = Some p → f p ≤ total f l.
Proof.
  intros Hf. revert i. induction l as [|q l IH]; intros [|i]; simpl; try done.
  - intros [= ->]. assert (0 ≤ total f l); [|lia]. clear IH. induction l as [|r l IH]; simpl; [lia|]. specialize (Hf r). lia.
  - intros Hi%IH. specialize (Hf q). lia.
Qed.

(** The slots taken are those of the goroutines that hold them. *)
Definition sem_ok (s : semaphore) (n : Z) : Prop := match cap s with Some c => held s = n ∧ held s ≤ c | None => True end.
Record inv (s : state) : Prop := {
  inv_image img sem : images s !! img = Some sem → sem_ok sem (total (holds_image img) (goroutines s));
  inv_global : sem_ok (global s) (total holds_global (goroutines s));
  inv_known p : p ∈ goroutines s →
    match p with WaitImage img | WaitGlobal img | Working img => is_Some (images s !! img) | _ => True end;
  inv_kept img : Cancelled img true ∈ goroutines s → keeps_slot = true
}.

Lemma Release_ok n s k : 0 ≤ n → n ≤ k → sem_ok s k → ∃ s', Release n s = Some s' ∧ cap s' = cap s ∧ sem_ok s' (k - n).
Proof.
  intros Hn Hk. unfold sem_ok, Release. destruct (cap s) eqn:Ec.
  - intros [-> ?]. destruct (Z.ltb_spec (k - n) 0); [lia|]. eexists. split; [done|]. simpl. auto with lia.
  - intros _. exists s. by rewrite Ec.
Qed.

Lemma holds_image_other img img' p q :
  (∀ img', img' ≠ img → holds_image img' p = holds_image img' q) → img' ≠ img → holds_image img' q - holds_image img' p = 0.
Proof. intros H Hne. rewrite (H _ Hne). lia. Qed.




Lemma holds_image_nonneg img p : 0 ≤ holds_image img p.
Proof. destruct p as [| | | |? [] ]; simpl; try case_decide; lia. Qed.










Lemma cancel_ready s i img :
  inv s → goroutines s !! i = Some (WaitImage img) ∨ goroutines s !! i = Some (WaitGlobal img) → is_Some (step (ECancel i) s).
Proof.
  intros [Him Hgl Hkn _] [Hi|Hi]; simpl; rewrite Hi; [by eexists|]. destruct keeps_slot; [by eexists|]. unfold set_image.
  destruct (Hkn _ (list_elem_of_lookup_2 _ _ _ Hi)) as [sem Hsem]. rewrite Hsem. simpl.
  pose proof (total_elem _ _ _ _ (holds_image_nonneg img) Hi) as H1. simpl in H1. rewrite decide_True in H1 by done.
  destruct (Release_ok 1 sem _ ltac:(lia) H1 (Him _ _ Hsem)) as (sem' & -> & _). simpl. by eexists.
Qed.



End system.


(** One image that may download one chunk at a time, and a snapshotter that may as well:
    while another image downloads, a download of "a" is cancelled at the second wait.  The
    slot of "a" is gone for good, and the next download of "a" can never start. *)
Definition two_images : gmap string Z := <["a" := 1]> {["b" := 1]}.
Definition cancelled_download : list ev :=
  [ECall "b"; EAcquireImage 0; EAcquireGlobal 0; ECall "a"; EAcquireImage 1; ECancel 1; ERelease 0; ECall "a"].


(** A download of an image whose slot was left behind waits for ever: no event of any
    other goroutine gives the slot back. *)
Lemma download_slot_lost :
  ∃ s, run true cancelled_download (start two_images 1) = Some s ∧ held <$> images s !! "a" = Some 1 ∧
       held (global s) = 0 ∧ step true (EAcquireImage 2) s = None.
Proof. eexists. split_and!; [vm_compute; reflexivity|vm_compute; reflexivity|reflexivity|reflexivity]. Qed.
Example unpack_slot_returned :
  ∃ s, run false cancelled_download (start two_images 1) = Some s ∧ is_Some (step false (EAcquireImage 2) s).
Proof. eexists. split; [vm_compute; reflexivity|]. by eexists. Qed.
