(* ===== verification/Fetch.v ===== *)
(** * Fetching artifacts and layers

    Models [fs/artifact_fetcher.go], [fs/client.go] and [fs/parallel_artifact_fetcher.go]:
    the repository as a store of blobs, fetching a descriptor from the local store or from
    the repository, the SOCI artifacts of an image, and layers in chunks into a file. *)
From Stdlib Require Import ZArith Lia.
From stdpp Require Import base list gmap strings numbers.
From S2P Require Import Prelude GoLib Regions Remote Ztoc ZtocBuilder Oci ArtifactsDb SociIndex UnpackJobs.
#[local] Open Scope Z_scope.
Local Open Scope go_scope.

(** What reading a body yields: bytes, and the error that ends it if it is not [io.EOF]. *)
Abbreviation stream := (bytes * option error)%type.
Definition io_ReadAll (x : stream) : outcome bytes := match x.2 with None => Ok x.1 | Some e => Err e end.

(** ** The repository *)
Record Repository := mkRepo { Locator : string; PlainHTTP : bool }.
Record reference_Spec := mkSpec { rs_Locator : string; rs_Object : string; rs_Hostname : string }.

(** oras, [net/http] and [mime]; [E] is everything outside. *)
Class RegistryEnv (E : Type) := {
  RoundTrip : request → ST E response;
  Repository_Fetch : Repository → Descriptor → ST E stream;
  Referrers : Repository → Descriptor → string → ST E (list (list Descriptor));
  NewRepository : string → outcome string;
  MatchLocalhost : string → outcome bool;
  ParseReference : string → outcome (string * string * string);
  ref_Digest : string → outcome string;
  DefaultScheme : string → string;
  header_AcceptRanges : response → string;
  header_MediaType : response → string;
  as_ErrorResponse : error → option error;
  as_urlError : error → bool
}.

Section registry.
Context {E : Type} `{RegistryEnv E}.
Implicit Types (r : Repository).

Definition newRemoteStore (refspec : reference_Spec) (plainHTTP : bool) : outcome Repository :=
  l ← map_err (Wrap "cannot create repository") (NewRepository (rs_Locator refspec));
  p ← (if plainHTTP then Ok true else map_err (Wrap "cannot create repository") (MatchLocalhost (rs_Hostname refspec)));
  Ok (mkRepo l p).
Definition newRemoteBlobStore (refspec : reference_Spec) (plainHTTP : bool) : outcome Repository :=
  map_err (Wrap "cannot create remote store") (newRemoteStore refspec plainHTTP).

Definition CraftBlobURL (reference : string) (ref : string * string * string) (plainHTTP : bool) : string :=
  let '(host, repository, dgst) := ref in
  (if plainHTTP then "http" else DefaultScheme reference) +:+ "://" +:+ host +:+ "/v2/" +:+ repository +:+ "/blobs/" +:+ dgst.

(** [orasBlobStore.Resolve]. *)
Definition Resolve r (reference : string) : ST E Descriptor :=
  ref <~ st_lift (ParseReference reference);;
  dg <~ st_lift (ref_Digest ref.2);;
  resp <~ GetHeader RoundTrip (CraftBlobURL reference ref (PlainHTTP r));;
  size <~ st_lift (ParseSize resp);;
  let mt := header_MediaType resp in
  st_ret (content_desc (if String.eqb mt "" then "application/octet-stream" else mt) dg size).

(** What may hold credentials is redacted. *)
Definition cleanFetchErrors (err : error) : error :=
  match as_ErrorResponse err with
  | Some e => e
  | None => if as_urlError err then ErrorString "URL error during fetch" else err
  end.

(** [orasBlobStore.Fetch]. *)
Definition blob_Fetch r (target : Descriptor) : ST E stream := st_map_err cleanFetchErrors (Repository_Fetch r target).

(** The byte range [lower, upper]. *)
Definition GetContentWithRange (realURL : string) (lower upper : Z) : ST E response :=
  if (lower <? 0) || (upper <? lower) then st_err (ErrorString "illogical content range")
  else
    resp <~ RoundTrip (mkRequest GET realURL [mkRegion lower upper]);;
    if (status resp =? 200) || (status resp =? 206) then st_ret resp
    else st_err (ErrorString "error getting range").

Definition FetchRange r (reference : string) (lower upper : Z) : ST E bytes :=
  ref <~ st_lift (ParseReference reference);;
  resp <~ st_map_err cleanFetchErrors (GetContentWithRange (CraftBlobURL reference ref (PlainHTTP r)) lower upper);;
  if String.eqb (header_AcceptRanges resp) "bytes" then st_ret (body resp)
  else st_err (ErrorString "upstream repo does not support ranged GET requests").

(** Whether the repository answers ranges. *)
Definition doInitialFetch r (reference : string) : ST E bool :=
  ref <~ st_lift (ParseReference reference);;
  resp <~ st_map_err (Wrap "error getting header info") (GetHeaderWithGet RoundTrip (CraftBlobURL reference ref (PlainHTTP r)));;
  st_ret (String.eqb (header_AcceptRanges resp) "bytes").

(** ** Referrers *)
Definition ErrNoReferrers : error := Sentinel "no existing referrers".
Definition SelectFirstPolicy (descs : list Descriptor) : outcome Descriptor := must (head descs).
Definition AllReferrers r (desc : Descriptor) : ST E (list Descriptor) :=
  pages <~ Referrers r desc SociIndexArtifactType;;
  st_ret (concat pages).
Definition SelectReferrer r (desc : Descriptor) (fn : list Descriptor → outcome Descriptor) : ST E Descriptor :=
  descs <~ st_map_err (Wrap "unable to fetch referrers") (AllReferrers r desc);;
  match descs with
  | [] => st_err ErrNoReferrers
  | _ => st_lift (fn descs)
  end.

(** ** The artifact fetcher

    [resolverStorage]: the repository of blobs or the one of manifests, which differ in
    [Resolve] and in what happens to errors. *)
Record resolverStorage := mkRS {
  remote_Resolve : string → ST E Descriptor;
  remote_Fetch : Descriptor → ST E stream;
  as_orasBlobStore : option Repository
}.
Definition orasBlobStore r : resolverStorage := mkRS (Resolve r) (blob_Fetch r) (Some r).

Record artifactFetcher := mkAF { remoteStore : resolverStorage; refspec : reference_Spec }.
Definition constructRef (spec : reference_Spec) (desc : Descriptor) : string := rs_Locator spec +:+ "@" +:+ d_Digest desc.

Context `{Store E}.
Implicit Types (f : artifactFetcher).

Definition resolve f (desc : Descriptor) : ST E Descriptor :=
  st_map_err (Wrap "unable to resolve ref") (remote_Resolve (remoteStore f) (constructRef (refspec f) desc)).

(** The content and whether it is from the local store. *)
Definition Fetch f (desc : Descriptor) : ST E (stream * bool) := λ e,
  match s_Fetch desc e with
  | (Ok b, e1) => (Ok ((b, None), true), e1)
  | (Panic, e1) => (Panic, e1)
  | (Err _, e1) =>
      (desc <~ (if d_Size desc =? 0 then st_map_err (Wrap "size of descriptor is 0; unable to resolve") (resolve f desc) else st_ret desc);;
       rc <~ st_map_err (Wrap "unable to fetch descriptor from remote store") (remote_Fetch (remoteStore f) desc);;
       st_ret (rc, false)) e1
  end.

(** [Push] of content that is there is no error; one that cannot be read is not pushed. *)
Definition push_stream (desc : Descriptor) (rc : stream) : ST E () :=
  b <~ st_lift (io_ReadAll rc);;
  s_Push desc b.
Definition ignore_exists (m : ST E ()) : ST E () := λ e,
  match m e with
  | (Err err, e1) => if IsErrAlreadyExists err then (Ok tt, e1) else (Err err, e1)
  | r => r
  end.
Definition fetcher_Store (desc : Descriptor) (rc : stream) : ST E () :=
  st_map_err (Wrap "unable to push to local store") (ignore_exists (push_stream desc rc)).

(** ** The SOCI artifacts of an image *)
Context `{DocJSON}.

(** One blob of the index; [desc] is the descriptor of the index. *)
Definition fetch_blob f (desc : Descriptor) (i : nat) (blob : Descriptor) : ST E () :=
  r <~ st_map_err (Wrap "cannot fetch artifact") (Fetch f blob);;
  if r.2 : bool then st_ret tt
  else
    st_map_err (Wrap "unable to store ztoc in local store") (fetcher_Store blob r.1);;;
    LabelGCRefContent desc ("ztoc." +:+ FormatInt (Z.of_nat i)) (d_Digest blob).

(** The goroutines in the order they run; all of them do, the first error is returned. *)
Fixpoint fetch_blobs f (desc : Descriptor) (sched : list (nat * Descriptor)) : ST E () := λ e,
  match sched with
  | [] => (Ok tt, e)
  | (i, blob) :: sched' =>
      match fetch_blob f desc i blob e with
      | (Ok _, e1) => fetch_blobs f desc sched' e1
      | (Err err, e1) => let '(r, e2) := fetch_blobs f desc sched' e1 in (match r with Panic => Panic | _ => Err err end, e2)
      | (Panic, e1) => (Panic, e1)
      end
  end.

(** [order] is the order of the goroutines, [now] the time. *)
Definition FetchSociArtifacts (spec : reference_Spec) (indexDesc : Descriptor) (rs : resolverStorage) (now : string)
    (order : list (nat * Descriptor) → list (nat * Descriptor)) : ST E Index :=
  let f := mkAF rs spec in
  r <~ st_map_err (Wrap "unable to fetch SOCI index") (Fetch f indexDesc);;
  let '(indexReader, local) := r in
  index <~ st_lift (map_err (Wrap "cannot deserialize byte data to index") (DecodeIndex (io_ReadAll indexReader)));;
  let desc := content_desc "" (d_Digest indexDesc) (zlen indexReader.1) in
  s_BatchOpen;;;
  λ e,
    let '(r, e1) :=
      ((if local : bool then st_ret tt
        else
          b <~ st_lift (MarshalIndex index);;
          st_map_err (Wrap "unable to store index in local store") (ignore_exists (s_Push desc b));;;
          st_map_err (Wrap "unable to label index to prevent garbage collection") (LabelGCRoot now desc));;;
       fetch_blobs f desc (order (imap pair (i_Blobs index)));;;
       st_ret index) e in
    (r, s_BatchDone e1).
End registry.

(** ** Layers in chunks

    System calls and semaphores: every call may fail. *)
Class FileEnv (E : Type) := {
  os_call : string → ST E ();
  AcquireDownload : ST E ();
  ReleaseDownload : E → E
}.

(** The file the layer is downloaded to, and what the verifier of its digest was given. *)
Record pstate (E : Type) := mkP { p_env : E; p_ingest : option bytes; p_verifier : option bytes }.
Arguments mkP {E}.
Arguments p_env {E}.
Arguments p_ingest {E}.
Arguments p_verifier {E}.

Definition on_env {E A} (m : ST E A) : ST (pstate E) A := λ s,
  let '(r, e) := m (p_env s) in (r, mkP e (p_ingest s) (p_verifier s)).
Definition set_ingest {E} (b : option bytes) : ST (pstate E) () := λ s, (Ok tt, mkP (p_env s) b (p_verifier s)).

Definition zero_byte : Byte.byte := Byte.x00.
(** Writing at an offset; a gap is filled with zeros. *)
Definition write_at (off : Z) (data file : bytes) : bytes :=
  let n := Z.to_nat off in
  take n file ++ replicate (n - length file) zero_byte ++ data ++ drop (n + length data) file.

Record parallelArtifactFetcher (E : Type) := mkPAF { paf : artifactFetcher (E:=E); chunkSize : Z; paf_verifier : bool }.
Arguments mkPAF {E}.
Arguments paf {E}.
Arguments chunkSize {E}.
Arguments paf_verifier {E}.

Definition newParallelArtifactFetcher {E} (a : artifactFetcher (E:=E)) (cs : Z) (verifier : bool) : parallelArtifactFetcher E :=
  mkPAF a (if cs <=? 0 then unlimited else cs) verifier.

Section parallel.
Context {E : Type} `{RegistryEnv E} `{Store E} `{FileEnv E}.
Implicit Types (f : parallelArtifactFetcher E).

(** [lower, upper] of the content of chunk [i]. *)
Definition getRange f (i descSize : Z) : Z * Z :=
  if chunkSize f <=? unlimited then (0, int64 (descSize - 1))
  else
    let lower := int64 (i * chunkSize f) in
    let upper := Z.min (int64 (lower + chunkSize f)) descSize in
    (lower, int64 (upper - 1)).

Definition calcNumLoops f (size : Z) : outcome Z :=
  if chunkSize f <=? 0 then Ok 1
  else
    q ← go_div size (chunkSize f);
    r ← go_rem size (chunkSize f);
    Ok (if negb (r =? 0) then int64 (q + 1) else q).

(** Exactly [upper - lower + 1] bytes are written; the rest of the body is dropped. *)
Definition writeToFileRange (rsc : bytes) (lower upper : Z) : ST (pstate E) () := λ s,
  let readSize := int64 (int64 (upper - lower) + 1) in
  let data := take (Z.to_nat readSize) rsc in
  match p_ingest s with
  | None => (Panic, s)
  | Some file =>
      match on_env (os_call "write") s with
      | (Ok _, s1) =>
          let s2 := mkP (p_env s1) (Some (write_at lower data file)) (p_verifier s1) in
          if zlen data <? readSize then (Err (Wrap "failed to write to temp file" io_EOF), s2) else (Ok tt, s2)
      | r => r
      end
  end.

Definition writeToEntireFile (rc : stream) : ST (pstate E) () := λ s,
  match p_ingest s with
  | None => (Panic, s)
  | Some file =>
      match on_env (os_call "write") s with
      | (Ok _, s1) =>
          let s2 := mkP (p_env s1) (Some (write_at 0 rc.1 file)) (p_verifier s1) in
          match rc.2 with
          | Some e => (Err (Wrap "failed to write to temp file" e), s2)
          | None => (Ok tt, s2)
          end
      | r => r
      end
  end.

Definition release_download : ST (pstate E) () := λ s, (Ok tt, mkP (ReleaseDownload (p_env s)) (p_ingest s) (p_verifier s)).

(** A deferred call. *)
Definition finally {A} (m : ST (pstate E) A) (d : ST (pstate E) ()) : ST (pstate E) A := λ s,
  match m s with
  | (Panic, s1) => (Panic, s1)
  | (r, s1) => (r, (d s1).2)
  end.

Definition oneRequestFetchWrite f (desc : Descriptor) : ST (pstate E) () :=
  st_map_err (Wrap "error acquiring semaphore") (on_env AcquireDownload);;;
  finally (rc <~ st_map_err (Wrap "error fetching from remote") (on_env (remote_Fetch (remoteStore (paf f)) desc));;
           writeToEntireFile rc) release_download.

(** The goroutine of a chunk. *)
Definition fetch_chunk f (repo : Repository) (desc : Descriptor) (i : Z) : ST (pstate E) () :=
  let '(lower, upper) := getRange f i (d_Size desc) in
  finally (rc <~ on_env (FetchRange repo (constructRef (refspec (paf f)) desc) lower upper);;
           writeToFileRange rc lower upper) release_download.

(** The chunks in the order their goroutines run.  A slot that cannot be acquired ends the
    loop; else all chunks run and the first error is returned. *)
Fixpoint fetch_chunks f (repo : Repository) (desc : Descriptor) (chunks : list Z) : ST (pstate E) () := λ s,
  match chunks with
  | [] => (Ok tt, s)
  | i :: chunks' =>
      (st_map_err (Wrap "error acquiring semaphore") (on_env AcquireDownload);;;
       λ s0, match fetch_chunk f repo desc i s0 with
       | (Ok _, s1) => fetch_chunks f repo desc chunks' s1
       | (Err err, s1) => let '(r, s2) := fetch_chunks f repo desc chunks' s1 in (match r with Panic => Panic | _ => Err err end, s2)
       | (Panic, s1) => (Panic, s1)
       end) s
  end.

(** [order] is the order the goroutines run in. *)
Definition multiRequestFetchWrite f (desc : Descriptor) (numLoops : Z) (order : list Z → list Z) : ST (pstate E) () :=
  match as_orasBlobStore (remoteStore (paf f)) with
  | None => st_err (ErrorString "did not pass orasBlobStore type to parallel fetcher")
  | Some repo => fetch_chunks f repo desc (order (seqZ 0 numLoops))
  end.

(** The verifier reads the file. *)
Definition asyncVerifyBlobDigest f : ST (pstate E) () :=
  on_env (os_call "open");;;
  λ s, (Ok tt, if paf_verifier f then mkP (p_env s) (p_ingest s) (p_ingest s) else s).

Definition fetchFromRemoteAndWriteToTempDir f (desc : Descriptor) (order : list Z → list Z) : ST (pstate E) bytes :=
  s <~ st_get;;
  match p_ingest s with
  | Some _ => st_err (Wrap "error setting up temporary file" (Sentinel "file already exists"))
  | None =>
      st_map_err (Wrap "error creating temp ingest file") (on_env (os_call "create"));;;
      set_ingest (Some []);;;
      (if d_Size desc <? 0 then st_err (ErrorString "error truncating temp ingest file")
       else st_map_err (Wrap "error truncating temp ingest file") (on_env (os_call "truncate")));;;
      set_ingest (Some (replicate (Z.to_nat (d_Size desc)) zero_byte));;;
      numLoops <~ st_lift (calcNumLoops f (d_Size desc));;
      doMultipleFetches <~ (if 1 <? numLoops then
                              match as_orasBlobStore (remoteStore (paf f)) with
                              | Some repo => st_map_err (Wrap "error doing initial authorization for layer")
                                  (on_env (doInitialFetch repo (constructRef (refspec (paf f)) desc)))
                              | None => st_ret false
                              end
                            else st_ret false);;
      st_map_err (Wrap "error writing to temp ingest file")
        (if doMultipleFetches : bool then multiRequestFetchWrite f desc numLoops order else oneRequestFetchWrite f desc);;;
      st_map_err (Wrap "error reopening file after writing") (on_env (os_call "seek"));;;
      st_map_err (Wrap "error starting async verification of blob digest") (asyncVerifyBlobDigest f);;;
      s <~ st_get;;
      st_ret (default [] (p_ingest s))
  end.

Definition parallel_Fetch f (desc : Descriptor) (order : list Z → list Z) : ST (pstate E) (stream * bool) := λ s,
  match on_env (s_Fetch desc) s with
  | (Ok b, s1) => (Ok ((b, None), true), s1)
  | (Panic, s1) => (Panic, s1)
  | (Err _, s1) =>
      (desc <~ (if d_Size desc =? 0 then st_map_err (Wrap "size of descriptor is 0; unable to resolve") (on_env (resolve (paf f) desc))
                else st_ret desc);;
       b <~ st_map_err (Wrap "unable to fetch descriptor from remote store") (fetchFromRemoteAndWriteToTempDir f desc order);;
       st_ret ((b, None), false)) s1
  end.
End parallel.
