(* ===== verification/FetchFacts.v ===== *)
(** * Facts about fetching

    A layer that is downloaded in chunks, in whatever order they arrive, is the layer; after
    the artifacts of an index were fetched the local store holds them; an index whose JSON is
    not laid out the way this program lays it out cannot be used. *)
From Stdlib Require Import ZArith Lia.
From stdpp Require Import base list gmap strings numbers.
From S2P Require Import Prelude GoLib Regions Remote Ztoc ZtocBuilder Oci ArtifactsDb SociIndex UnpackJobs Fetch.
#[local] Open Scope Z_scope.

(** ** Chunks *)
Lemma write_at_length off data file : 0 ≤ off → off + zlen data ≤ zlen file → length (write_at off data file) = length file.
Proof. unfold write_at, zlen. intros. rewrite !length_app, length_take, length_replicate, length_drop. lia. Qed.

Lemma write_at_lookup off data file k : 0 ≤ off → off + zlen data ≤ zlen file →
  write_at off data file !! k = if decide (off ≤ Z.of_nat k < off + zlen data) then data !! Z.to_nat (Z.of_nat k - off) else file !! k.
Proof.
  unfold write_at, zlen. intros Ho Hl. replace (Z.to_nat off - length file)%nat with 0%nat by lia. cbn [replicate app].
  assert (length (take (Z.to_nat off) file) = Z.to_nat off) as Ht by (rewrite length_take; lia).
  destruct (decide (Z.of_nat k < off)) as [Hk|Hk].
  - rewrite lookup_app_l by lia. rewrite decide_False by lia. apply lookup_take_lt. lia.
  - rewrite lookup_app_r by lia. rewrite Ht. case_decide as Hd.
    + rewrite lookup_app_l by lia. f_equal. lia.
    + rewrite lookup_app_r by lia. rewrite lookup_drop. f_equal. lia.
Qed.

Lemma sub_lookup {A} (lo hi : Z) (l : list A) k : 0 ≤ lo → sub lo hi l !! k = if decide (Z.of_nat k < hi - lo) then l !! (Z.to_nat lo + k)%nat else None.
Proof.
  intros Hlo. unfold sub. case_decide.
  - rewrite lookup_take_lt by lia. by rewrite lookup_drop.
  - rewrite lookup_take_ge by lia. done.
Qed.

Section chunks.
Context {E : Type} `{RegistryEnv E} `{Store E} `{FileEnv E}.
Context (f : parallelArtifactFetcher E) (desc : Descriptor) (blob : bytes) (repo : Repository).
Abbreviation cs := (chunkSize f).
Abbreviation size := (d_Size desc).
Context (Hsize : size = zlen blob) (Hbound : zlen blob < 2 ^ 62).

(** The registry answers a range of the blob with the bytes of the range. *)
Definition honest_ranges : Prop := ∀ ref lower upper e b e', 0 ≤ lower ≤ upper → upper < zlen blob →
  FetchRange repo ref lower upper e = (Ok b, e') → b = sub lower (upper + 1) blob.

Lemma calcNumLoops_spec n : 0 < cs → calcNumLoops f size = Ok n → (n - 1) * cs < size ≤ n * cs ∨ (size = 0 ∧ n = 0).
Proof.
  intros Hcs. unfold calcNumLoops, go_div, go_rem. destruct (Z.leb_spec cs 0); [lia|]. destruct (Z.eqb_spec cs 0); [lia|].
  pose proof (zlen_nonneg blob). cbn. rewrite Z.quot_div_nonneg, Z.rem_mod_nonneg by lia.
  pose proof (Z.div_mod size cs ltac:(lia)) as Hdm. pose proof (Z.mod_pos_bound size cs ltac:(lia)) as Hmb.
  pose proof (Z.div_pos size cs ltac:(lia) ltac:(lia)) as Hq. pose proof (Z.div_le_upper_bound size cs size ltac:(lia) ltac:(nia)) as Hq2.
  destruct (Z.eqb_spec (size `mod` cs) 0); cbn [negb]; intros [= <-].
  - destruct (Z.eq_dec (size / cs) 0) as [Hz|Hz]; [right; nia|left; nia].
  - left. rewrite int64_id by (unfold in_int64; lia). nia.
Qed.

Lemma getRange_spec i n : 0 < cs → cs < size → (n - 1) * cs < size → 0 ≤ i < n →
  getRange f i size = (i * cs, Z.min (i * cs + cs) size - 1) ∧ 0 ≤ i * cs < size.
Proof.
  intros Hcs Hlt Hn Hi. unfold getRange, unlimited. destruct (Z.leb_spec cs 0); [lia|]. assert (i * cs < size) by nia.
  assert (0 ≤ i * cs) by nia. rewrite (int64_id (i * cs)) by (unfold in_int64; lia). rewrite (int64_id (i * cs + cs)) by (unfold in_int64; lia).
  rewrite int64_id by (unfold in_int64; lia). done.
Qed.

(** The chunks of [is] are in place. *)
Definition covered (chunks : list Z) (file : bytes) : Prop :=
  length file = length blob ∧ ∀ i k, i ∈ chunks → i * cs ≤ Z.of_nat k < i * cs + cs → file !! k = blob !! k.

Lemma covered_write i n chunks file : 0 < cs → cs < size → (n - 1) * cs < size → 0 ≤ i < n → covered chunks file →
  let hi := Z.min (i * cs + cs) size in
  covered (i :: chunks) (write_at (i * cs) (sub (i * cs) hi blob) file).
Proof.
  intros Hcs Hlt Hn Hi [Hlen Hcov] hi. destruct (getRange_spec i n Hcs Hlt Hn Hi) as [_ Hi0].
  assert (zlen (sub (i * cs) hi blob) = hi - i * cs) as Hd by (apply zlen_sub; unfold hi; lia).
  assert (i * cs + zlen (sub (i * cs) hi blob) ≤ zlen file) as Hfit by (unfold zlen in *; lia).
  split; [rewrite write_at_length by lia; done|]. intros i' k Hi' Hk. rewrite write_at_lookup by lia. rewrite Hd. case_decide as Hdec.
  - rewrite sub_lookup by lia. rewrite decide_True by lia. f_equal. lia.
  - apply elem_of_cons in Hi' as [->|Hi']; [|by eapply Hcov].
    unfold hi in Hdec. rewrite !lookup_ge_None_2; [done|unfold zlen in *; lia..].
Qed.

Lemma on_env_keeps {A} (m : ST E A) s r s' : on_env m s = (r, s') → p_ingest s' = p_ingest s ∧ p_verifier s' = p_verifier s.
Proof. unfold on_env. destruct (m (p_env s)). by intros [= _ <-]. Qed.
Lemma finally_ok {A} (m : ST (pstate E) A) d s a s' : finally m d s = (Ok a, s') → ∃ s1, m s = (Ok a, s1) ∧ s' = (d s1).2.
Proof. unfold finally. destruct (m s) as [[]]; [|done..]. intros [= -> <-]. by eexists. Qed.

Lemma fetch_chunk_spec i n s s' file : honest_ranges → 0 < cs → cs < size → (n - 1) * cs < size → 0 ≤ i < n →
  p_ingest s = Some file → fetch_chunk f repo desc i s = (Ok tt, s') →
  p_ingest s' = Some (write_at (i * cs) (sub (i * cs) (Z.min (i * cs + cs) size) blob) file) ∧ p_verifier s' = p_verifier s.
Proof.
  intros Hh Hcs Hlt Hn Hi Hf. unfold fetch_chunk. destruct (getRange_spec i n Hcs Hlt Hn Hi) as [-> Hi0].
  intros Hr. apply finally_ok in Hr as (s3 & Hr & ->). apply st_bind_ok in Hr as (rc & s2 & Hfetch & Hw).
  pose proof (on_env_keeps _ _ _ _ Hfetch) as [Hi2 Hv2]. unfold on_env in Hfetch.
  destruct (FetchRange repo _ _ _ (p_env s)) as [[b|?|] e'] eqn:Er; [|done..]. injection Hfetch as -> _.
  apply Hh in Er; [|lia..]. set (hi := Z.min (i * cs + cs) size) in *. replace (hi - 1 + 1) with hi in Er by lia.
  unfold writeToFileRange in Hw. rewrite Hi2, Hf in Hw. destruct (on_env (os_call "write") s2) as [[[]|?|] s4] eqn:Ew; [|done..].
  apply on_env_keeps in Ew as [_ Hv4]. rewrite (int64_id (hi - 1 - i * cs)) in Hw by (unfold in_int64, hi; lia).
  rewrite int64_id in Hw by (unfold in_int64, hi; lia). replace (hi - 1 - i * cs + 1) with (hi - i * cs) in Hw by lia.
  assert (take (Z.to_nat (hi - i * cs)) rc = sub (i * cs) hi blob) as Etake.
  { rewrite Er. unfold sub. rewrite take_take. f_equal. lia. }
  rewrite Etake in Hw. destruct (_ <? _); [done|]. injection Hw as <-. cbn. split; [done|congruence].
Qed.

Lemma fetch_chunks_spec n todo chunks s s' file : honest_ranges → 0 < cs → cs < size → (n - 1) * cs < size → Forall (λ i, 0 ≤ i < n) todo →
  p_ingest s = Some file → covered chunks file → fetch_chunks f repo desc todo s = (Ok tt, s') →
  ∃ file', p_ingest s' = Some file' ∧ covered (rev todo ++ chunks) file' ∧ p_verifier s' = p_verifier s.
Proof.
  intros Hh Hcs Hlt Hn Htodo. revert chunks s file. induction Htodo as [|i todo Hi _ IH]; intros chunks s file Hf Hcov; cbn [fetch_chunks].
  { intros [= <-]. by exists file. }
  intros Hr. apply st_bind_ok in Hr as ([] & s0 & Ha%st_map_err_ok & Hr). apply on_env_keeps in Ha as [Hi0 Hv0]. rewrite Hf in Hi0.
  destruct (fetch_chunk f repo desc i s0) as [[[]|e|] s1] eqn:E1; [|by destruct (fetch_chunks f repo desc todo s1) as [[]]|done].
  destruct (fetch_chunk_spec i n s0 s1 file Hh Hcs Hlt Hn Hi Hi0 E1) as [Hf1 Hv1].
  destruct (IH (i :: chunks) s1 _ Hf1) as (file' & Hf' & Hc' & Hv'); [by eapply covered_write|done|]. exists file'. split_and!; [done| |congruence].
  cbn [rev]. by rewrite <-app_assoc.
Qed.

Lemma covered_all n chunks file : 0 < cs → size ≤ n * cs → (∀ i, 0 ≤ i < n → i ∈ chunks) → covered chunks file → file = blob.
Proof.
  intros Hcs Hn Hall [Hlen Hcov]. apply list_eq. intros k. destruct (decide (k < length blob)%nat) as [Hk|Hk].
  - assert (0 ≤ Z.of_nat k / cs) by (apply Z.div_pos; lia). pose proof (Z.div_mod (Z.of_nat k) cs ltac:(lia)).
    pose proof (Z.mod_pos_bound (Z.of_nat k) cs Hcs). apply (Hcov (Z.of_nat k / cs)); [|lia].
    apply Hall. split; [done|]. apply Z.div_lt_upper_bound; [done|]. unfold zlen in Hsize. lia.
  - rewrite !lookup_ge_None_2; [done|lia..].
Qed.

Lemma multi_spec n order s s' file : honest_ranges → as_orasBlobStore (remoteStore (paf f)) = Some repo → (∀ l, order l ≡ₚ l) →
  calcNumLoops f size = Ok n → 1 < n → p_ingest s = Some file → length file = length blob →
  multiRequestFetchWrite f desc n order s = (Ok tt, s') → p_ingest s' = Some blob ∧ p_verifier s' = p_verifier s.
Proof.
  intros Hh Hrepo Hord Hcalc Hn1 Hf Hlen. assert (0 < cs) as Hcs.
  { unfold calcNumLoops in Hcalc. destruct (Z.leb_spec cs 0); [injection Hcalc as <-; lia|done]. }
  destruct (calcNumLoops_spec n Hcs Hcalc) as [[Hlo Hhi]|[_ ->]]; [|lia]. assert (cs < size) by nia.
  unfold multiRequestFetchWrite. rewrite Hrepo. intros Hr.
  assert (Forall (λ i, 0 ≤ i < n) (order (seqZ 0 n))) as Htodo by (rewrite (Hord (seqZ 0 n)); apply list.Forall_forall; intros i; rewrite elem_of_seqZ; lia).
  destruct (fetch_chunks_spec n _ [] s s' file Hh Hcs ltac:(done) Hlo Htodo Hf) as (file' & H1' & H2' & H3'); [|done|].
  - split; [done|]. intros i k Hi. by apply not_elem_of_nil in Hi.
  - split; [|done]. rewrite H1'. f_equal. eapply (covered_all n); [done..| |exact H2'].
    intros i Hi. apply elem_of_app. left. apply list_elem_of_In, in_rev. rewrite rev_involutive. apply list_elem_of_In. rewrite (Hord (seqZ 0 n)).
    apply elem_of_seqZ. lia.
Qed.

(** A whole answer is the blob. *)
Definition honest_fetch : Prop := ∀ e rc e', remote_Fetch (remoteStore (paf f)) desc e = (Ok rc, e') → rc.2 = None → rc.1 = blob.

Lemma one_spec s s' file : honest_fetch → p_ingest s = Some file → length file = length blob →
  oneRequestFetchWrite f desc s = (Ok tt, s') → p_ingest s' = Some blob ∧ p_verifier s' = p_verifier s.
Proof.
  intros Hh Hf Hlen Hr. unfold oneRequestFetchWrite in Hr. apply st_bind_ok in Hr as ([] & s1 & Ha%st_map_err_ok & Hr).
  apply on_env_keeps in Ha as [Hi1 Hv1]. apply finally_ok in Hr as (s3 & Hr & ->). apply st_bind_ok in Hr as (rc & s2 & Hfetch%st_map_err_ok & Hw).
  pose proof (on_env_keeps _ _ _ _ Hfetch) as [Hi2 Hv2]. unfold on_env in Hfetch.
  destruct (remote_Fetch (remoteStore (paf f)) desc (p_env s1)) as [[b|?|] e'] eqn:Er; [|done..]. injection Hfetch as -> _.
  unfold writeToEntireFile in Hw. rewrite Hi2, Hi1, Hf in Hw. destruct (on_env (os_call "write") s2) as [[[]|?|] s4] eqn:Ew; [|done..].
  apply on_env_keeps in Ew as [_ Hv4]. destruct rc.2 eqn:E2; [done|]. injection Hw as <-. cbn. split; [|congruence].
  rewrite (Hh _ _ _ Er E2). f_equal. unfold write_at. cbn. rewrite drop_ge by lia. apply app_nil_r.
Qed.

(** C21: a layer that is downloaded in chunks is the layer.  Whatever the chunk size, in
    whatever order the chunks arrive and however often calls fail: when the registry
    answers ranges with the bytes of the range and the download succeeds, the file holds
    exactly the layer, and so does what the verifier of its digest is given. *)
Theorem chunked_download_exact order s b s' :
  honest_ranges → honest_fetch → (∀ r, as_orasBlobStore (remoteStore (paf f)) = Some r → r = repo) → (∀ l, order l ≡ₚ l) →
  fetchFromRemoteAndWriteToTempDir f desc order s = (Ok b, s') →
  b = blob ∧ p_ingest s' = Some blob ∧ (paf_verifier f = true → p_verifier s' = Some blob).
Proof.
  intros Hh Hf Hrepo Hord. unfold fetchFromRemoteAndWriteToTempDir. unfold st_bind at 1, st_get. destruct (p_ingest s); [done|].
  intros Hr. apply st_bind_ok in Hr as ([] & s1 & _ & Hr). apply st_bind_ok in Hr as ([] & s2 & _ & Hr).
  apply st_bind_ok in Hr as ([] & s3 & _ & Hr). unfold set_ingest, st_bind at 1 in Hr. set (s4 := mkP _ _ _) in Hr.
  assert (p_ingest s4 = Some (replicate (Z.to_nat size) zero_byte)) as H4 by done.
  assert (length (replicate (Z.to_nat size) zero_byte) = length blob) as Hlen by (rewrite length_replicate; unfold zlen in Hsize; lia).
  clearbody s4. apply st_bind_ok in Hr as (n & s5 & Hn & Hr). unfold st_lift in Hn. injection Hn as Hn <-.
  apply st_bind_ok in Hr as (multi & s6 & Hm & Hr).
  assert (p_ingest s6 = p_ingest s4 ∧ (multi = true → 1 < n ∧ as_orasBlobStore (remoteStore (paf f)) = Some repo)) as [H6 Hmulti].
  { destruct (Z.ltb_spec 1 n); [|by injection Hm as <- <-]. destruct (as_orasBlobStore (remoteStore (paf f))) as [r|]; [|by injection Hm as <- <-].
    apply st_map_err_ok, on_env_keeps in Hm as [Hm _]. split; [done|]. intros _. by rewrite (Hrepo r eq_refl). }
  apply st_bind_ok in Hr as ([] & s7 & Hw%st_map_err_ok & Hr).
  assert (p_ingest s7 = Some blob) as H7.
  { rewrite H4 in H6. destruct multi; [destruct (Hmulti eq_refl); eapply multi_spec|eapply one_spec]; done. }
  apply st_bind_ok in Hr as ([] & s8 & Hs%st_map_err_ok & Hr). apply on_env_keeps in Hs as [H8 _].
  apply st_bind_ok in Hr as ([] & s9 & Hv%st_map_err_ok & Hr). unfold asyncVerifyBlobDigest in Hv. apply st_bind_ok in Hv as ([] & s10 & Ho & Hv).
  apply on_env_keeps in Ho as [H10 _]. injection Hv as <-. unfold st_bind, st_ret in Hr. injection Hr as <- <-.
  rewrite H7 in H8. rewrite H8 in H10. destruct (paf_verifier f); cbn [p_ingest p_verifier]; rewrite H10; by split_and!.
Qed.
End chunks.

(** ** Artifacts

    What the local store promises: content is found under its digest, [Push] verifies it,
    and nothing is dropped while a batch is open. *)
Class StoreContent (E : Type) `{Store E} `{Digester} := {
  content : E → gmap string bytes;
  Fetch_content d e : let '(r, e') := s_Fetch d e in content e' = content e ∧ (∀ b, r = Ok b → content e !! d_Digest d = Some b);
  Push_content d b e :
    let '(r, e') := s_Push d b e in
    content e ⊆ content e' ∧
    match r with
    | Ok _ => content e' !! d_Digest d = Some b ∧ digest_FromBytes b = d_Digest d
    | Err er => IsErrAlreadyExists er = true → is_Some (content e !! d_Digest d)
    | Panic => True
    end;
  Label_content d k v e : content (s_Label d k v e).2 = content e;
  BatchOpen_content e : content (s_BatchOpen e).2 = content e;
  BatchDone_content e : content (s_BatchDone e) = content e
}.

Section artifacts.
Context {E : Type} `{Store E} `{RegistryEnv E} `{Digester} `{!StoreContent E} `{DocJSON}.
Context (spec : reference_Spec) (rs : resolverStorage (E:=E)).
Definition readable (rc : stream) : Prop := ∀ er, rc.2 = Some er → IsErrAlreadyExists er = false.
Context (Hres : ∀ ref e, content (remote_Resolve rs ref e).2 = content e) (Hfetch : ∀ d e, content (remote_Fetch rs d e).2 = content e).
Context (Hread : ∀ d e rc, (remote_Fetch rs d e).1 = Ok rc → readable rc).

(** A call that drops nothing, after which [P] holds if it returns. *)
Definition adds {A} (m : ST E A) (P : A → E → Prop) : Prop :=
  ∀ e, content e ⊆ content (m e).2 ∧ ∀ a, (m e).1 = Ok a → P a (m e).2.

Lemma adds_bind {A B} (m : ST E A) (k : A → ST E B) P Q : adds m P → (∀ a, adds (k a) (λ b e, Q b e)) → adds (st_bind m k) Q.
Proof.
  intros Hm Hk e. unfold st_bind. destruct (Hm e) as [H1' H2']. destruct (m e) as [[a|er|] e1]; cbn [fst snd] in *; [|done..].
  destruct (Hk a e1) as [H3 H4]. split; [by etrans|done].
Qed.
Lemma adds_map_err {A} f (m : ST E A) P : adds m P → adds (st_map_err f m) P.
Proof.
  intros Hm e. unfold st_map_err. destruct (Hm e) as [H1' H2']. destruct (m e) as [r e1]. cbn [fst snd] in *. split; [done|].
  destruct r; [|done..]. intros b [= <-]. by apply H2'.
Qed.
Lemma adds_pure {A} (m : ST E A) (P : A → E → Prop) : (∀ e, content (m e).2 = content e) → (∀ e a, (m e).1 = Ok a → P a (m e).2) → adds m P.
Proof. intros Hm Hp e. split; [by rewrite Hm|apply Hp]. Qed.

Definition holds (d : Descriptor) (e : E) : Prop := is_Some (content e !! d_Digest d).

(** What [Fetch] returns is in the store, or can be read from the remote. *)
Definition fetched (d : Descriptor) (r : stream * bool) (e : E) : Prop :=
  if r.2 : bool then ∃ b, r.1 = (b, None) ∧ content e !! d_Digest d = Some b else readable r.1.

Lemma Fetch_quiet f d e : remoteStore f = rs → content (Fetch f d e).2 = content e ∧ ∀ r, (Fetch f d e).1 = Ok r → fetched d r e.
Proof.
  intros Hf. unfold Fetch. pose proof (Fetch_content d e) as Hc. destruct (s_Fetch d e) as [[b|er|] e1]; destruct Hc as [Hc1 Hc2]; [| |done].
  - split; [done|]. intros r [= <-]. exists b. auto.
  - unfold st_bind. set (m := if d_Size d =? 0 then _ else _).
    assert (content (m e1).2 = content e1) as Hm.
    { unfold m. destruct (_ =? _); [|done]. unfold st_map_err, resolve. rewrite Hf. unfold st_map_err.
      pose proof (Hres (constructRef (refspec f) d) e1) as Hr. by destruct (remote_Resolve rs _ e1). }
    rewrite <-Hc1, <-Hm. destruct (m e1) as [[d'|er'|] e2]; cbn [snd]; [|done..].
    unfold st_map_err. rewrite Hf. pose proof (Hfetch d' e2) as Hr. pose proof (Hread d' e2) as Hrd.
    destruct (remote_Fetch rs d' e2) as [[rc|?|] e3]; cbn [map_err snd fst] in *; (split; [done|]); [|done..]. intros r [= <-]. by apply Hrd.
Qed.
Lemma Fetch_adds f d : remoteStore f = rs → adds (Fetch f d) (fetched d).
Proof.
  intros Hf e. destruct (Fetch_quiet f d e Hf) as [H1' H2']. split; [by rewrite H1'|]. intros r Hr. unfold fetched. rewrite H1'. by apply H2'.
Qed.

Lemma push_adds d b : adds (ignore_exists (s_Push d b)) (λ _, holds d).
Proof.
  intros e. unfold ignore_exists. pose proof (Push_content d b e) as Hp. destruct (s_Push d b e) as [[[]|er|] e1]; destruct Hp as [Hp1 Hp2].
  - split; [done|]. intros [] _. cbn. destruct Hp2. by eexists.
  - destruct (IsErrAlreadyExists er); cbn; [|done]. split; [done|]. intros [] _. destruct (Hp2 eq_refl) as [x Hx]. exists x. by eapply lookup_weaken.
  - done.
Qed.
Lemma store_adds d rc : readable rc → adds (fetcher_Store d rc) (λ _, holds d).
Proof.
  intros Hr. apply adds_map_err. intros e. unfold ignore_exists, push_stream, st_bind, st_lift, io_ReadAll. destruct (rc.2) as [er|] eqn:E2.
  - by rewrite (Hr er E2).
  - exact (push_adds d rc.1 e).
Qed.

Lemma fetch_blob_adds f desc i blob : remoteStore f = rs → adds (fetch_blob f desc i blob) (λ _, holds blob).
Proof.
  intros Hf e. unfold fetch_blob. pose proof (adds_map_err (Wrap "cannot fetch artifact") _ _ (Fetch_adds f blob Hf) e) as [H1' H2'].
  unfold st_bind at 1 3 5. destruct (st_map_err _ (Fetch f blob) e) as [[[rc local]|er|] e1]; cbn [fst snd] in *; [|done..].
  specialize (H2' _ eq_refl). unfold fetched in H2'. cbn [fst snd] in H2'. destruct local.
  - split; [done|]. intros [] _. destruct H2' as (b & _ & Hb). exists b. exact Hb.
  - pose proof (adds_map_err (Wrap "unable to store ztoc in local store") _ _ (store_adds blob rc H2') e1) as [H3 H4].
    unfold st_bind. destruct (st_map_err _ (fetcher_Store blob rc) e1) as [[[]|er|] e2]; cbn [fst snd] in *; [|split; [by etrans|done]..].
    unfold LabelGCRefContent. unfold holds. rewrite Label_content. split; [by etrans|]. intros _ _. by apply (H4 tt).
Qed.

Lemma fetch_blobs_adds f desc sched : remoteStore f = rs → adds (fetch_blobs f desc sched) (λ _ e, Forall (λ x, holds x.2 e) sched).
Proof.
  intros Hf. induction sched as [|[i blob] sched IH]; intros e; cbn [fetch_blobs]; [done|].
  pose proof (fetch_blob_adds f desc i blob Hf e) as [H1' H2']. destruct (fetch_blob f desc i blob e) as [[[]|er|] e1]; cbn [fst snd] in *; [| |done].
  - destruct (IH e1) as [H3 H4]. split; [by etrans|]. intros [] Hr. constructor; [|by apply (H4 tt)]. destruct (H2' tt eq_refl) as [x Hx]. exists x. by eapply lookup_weaken.
  - destruct (IH e1) as [H3 _]. destruct (fetch_blobs f desc sched e1) as [[[]|?|] e2]; cbn [fst snd] in *; (split; [by etrans|done]).
Qed.

(** Pushing into a place that is free stores what is pushed, with its digest. *)
Lemma push_new d b e e' : content e !! d_Digest d = None → ignore_exists (s_Push d b) e = (Ok tt, e') →
  content e' !! d_Digest d = Some b ∧ digest_FromBytes b = d_Digest d.
Proof.
  intros Hn. unfold ignore_exists. pose proof (Push_content d b e) as Hp. destruct (s_Push d b e) as [[[]|er|] e1]; destruct Hp as [_ Hp]; [| |done].
  - by intros [= <-].
  - destruct (IsErrAlreadyExists er); [|done]. destruct (Hp eq_refl) as [? Hx]. by rewrite Hn in Hx.
Qed.

(** What is done with an index that was fetched. *)
Definition keep_index (local : bool) (now : string) (desc : Descriptor) (index : Index) : ST E () :=
  if local then st_ret tt
  else st_bind (st_lift (MarshalIndex index)) (λ b,
    st_bind (st_map_err (Wrap "unable to store index in local store") (ignore_exists (s_Push desc b))) (λ _,
    st_map_err (Wrap "unable to label index to prevent garbage collection") (LabelGCRoot now desc))).
Lemma keep_index_ok local now desc index e e' : keep_index local now desc index e = (Ok tt, e') → local = false →
  ∃ b, MarshalIndex index = Ok b ∧ content e ⊆ content e' ∧
    (content e !! d_Digest desc = None → content e' !! d_Digest desc = Some b ∧ digest_FromBytes b = d_Digest desc).
Proof.
  intros Hr ->. unfold keep_index in Hr. apply st_bind_ok in Hr as (b & e1 & Hm & Hr). unfold st_lift in Hm. injection Hm as Hm <-.
  apply st_bind_ok in Hr as ([] & e2 & Hp & Hr). apply st_map_err_ok in Hp. exists b. split; [done|].
  assert (content e' = content e2) as Hl.
  { unfold LabelGCRoot, st_map_err in Hr. pose proof (Label_content desc "containerd.io/gc.root" now e2) as Hl.
    destruct (s_Label desc "containerd.io/gc.root" now e2) as [r e3]. destruct r; cbn [map_err] in Hr; [|done..]. by injection Hr as _ <-. }
  rewrite Hl. pose proof (push_adds desc b e) as [Ha _]. rewrite Hp in Ha. split; [done|]. intros Hn. by apply (push_new desc b e).
Qed.

(** C22: after the SOCI artifacts of an image were fetched, in whatever order its goroutines
    ran, every blob of the index is in the local store.  The index is the decoding of what
    [Fetch] returned for its descriptor at the start: the bytes the local store has under the
    digest, or else the answer of the registry.  In the second case its encoding is in the
    local store afterwards, under the digest of the descriptor and with that digest, unless
    the store had something there that it could not be read from. *)
Theorem artifacts_in_store indexDesc now order e index e' : (∀ l, order l ≡ₚ l) →
  FetchSociArtifacts spec indexDesc rs now order e = (Ok index, e') →
  Forall (λ blob, holds blob e') (i_Blobs index) ∧
  ∃ b local e1, Fetch (mkAF rs spec) indexDesc e = (Ok ((b, None), local), e1) ∧ DecodeIndex (Ok b) = Ok index ∧
    (if local : bool then content e !! d_Digest indexDesc = Some b
     else ∃ b', MarshalIndex index = Ok b' ∧
       (content e !! d_Digest indexDesc = None → content e' !! d_Digest indexDesc = Some b' ∧ digest_FromBytes b' = d_Digest indexDesc)).
Proof.
  intros Hord Hr. unfold FetchSociArtifacts in Hr. set (f := mkAF rs spec) in Hr |- *.
  apply st_bind_ok in Hr as ([rc local] & e1 & Hf%st_map_err_ok & Hr). destruct (Fetch_quiet f indexDesc e eq_refl) as [Hc Hfd]. rewrite Hf in Hc, Hfd.
  specialize (Hfd _ eq_refl). cbn [fst snd] in *. apply st_bind_ok in Hr as (idx & e2 & Hdec & Hr). unfold st_lift in Hdec. injection Hdec as Hdec <-.
  apply st_bind_ok in Hr as ([] & e3 & Hopen & Hr). set (desc := content_desc _ _ _) in Hr. set (sched := order _) in Hr.
  fold (keep_index local now desc idx) in Hr. set (body := st_bind (keep_index _ _ _ _) _) in Hr.
  destruct (body e3) as [r e4] eqn:Eb. injection Hr as -> <-. unfold body in Eb.
  apply st_bind_ok in Eb as ([] & e5 & Es & Eb). apply st_bind_ok in Eb as ([] & e6 & Ef & Eb). injection Eb as -> <-.
  assert (content e3 = content e) as Hc3 by (pose proof (BatchOpen_content e1) as Ho; rewrite Hopen in Ho; cbn [snd] in Ho; congruence).
  destruct (fetch_blobs_adds f desc sched eq_refl e5) as [Hsub Hall]. rewrite Ef in Hsub, Hall. specialize (Hall tt eq_refl). cbn [snd] in *.
  unfold holds in *. rewrite BatchDone_content. split.
  - apply list.Forall_forall. intros blob [i Hi]%list_elem_of_lookup.
    assert ((i, blob) ∈ sched) as Hin by (unfold sched; rewrite Hord; apply list_elem_of_lookup; exists i; by rewrite list_lookup_imap, Hi).
    rewrite list.Forall_forall in Hall. by apply (Hall _ Hin).
  - destruct rc as [b [er|]]; [by unfold io_ReadAll in Hdec|]. exists b, local, e1. split; [done|]. cbn [io_ReadAll snd fst] in Hdec. split.
    { unfold io_ReadAll in Hdec. cbn [snd fst] in Hdec. destruct (DecodeIndex (Ok b)); [|done..]. by injection Hdec as ->. }
    destruct local; [by destruct Hfd as (b0 & [= <-] & Hb)|].
    destruct (keep_index_ok false now desc index e3 e5 Es eq_refl) as (b' & Hm & _ & Hnew). exists b'. split; [done|]. intros Hn.
    destruct Hnew as [Hb' Hd]; [by rewrite Hc3|]. split; [by eapply lookup_weaken|done].
Qed.

(** An index the registry has under its digest is refused when its JSON is not laid out
    the way this program lays it out: the bytes that are stored are the ones of encoding
    the decoded index again, which do not have the digest. *)
Theorem reformatted_index_refused indexDesc now order e e1 e2 rc index b' :
  s_Fetch indexDesc e = (Err errdefs_ErrNotFound, e1) → d_Size indexDesc ≠ 0 → remote_Fetch rs indexDesc e1 = (Ok (rc, None), e2) →
  DecodeIndex (Ok rc) = Ok index → MarshalIndex index = Ok b' →
  digest_FromBytes b' ≠ d_Digest indexDesc → content e !! d_Digest indexDesc = None →
  ∀ i e', FetchSociArtifacts spec indexDesc rs now order e ≠ (Ok i, e').
Proof.
  intros Hl Hsz Hr Hdec Hmar Hdig Hnone i e' Hrun. unfold FetchSociArtifacts in Hrun. set (f := mkAF rs spec) in Hrun.
  apply st_bind_ok in Hrun as ([rc0 local] & e3 & Hf%st_map_err_ok & Hrun). destruct (Fetch_quiet f indexDesc e eq_refl) as [Hc _]. rewrite Hf in Hc. cbn [snd] in Hc.
  unfold Fetch in Hf. rewrite Hl in Hf. apply Z.eqb_neq in Hsz. rewrite Hsz in Hf. unfold st_bind, st_ret, st_map_err in Hf. cbn [remoteStore f] in Hf.
  rewrite Hr in Hf. cbn [map_err] in Hf. injection Hf as <- <- <-. apply st_bind_ok in Hrun as (idx & e4 & Hd & Hrun). unfold st_lift in Hd. change (io_ReadAll (rc, None)) with (Ok rc) in Hd.
  rewrite Hdec in Hd. injection Hd as <- <-. apply st_bind_ok in Hrun as ([] & e5 & Hopen & Hrun). pose proof (BatchOpen_content e2) as Ho. rewrite Hopen in Ho. cbn [snd] in Ho.
  set (desc := content_desc _ _ _) in Hrun. destruct (st_bind _ _ e5) as [r e6] eqn:Eb in Hrun. injection Hrun as -> _.
  apply st_bind_ok in Eb as ([] & e7 & Eb & _). unfold st_bind, st_lift in Eb. rewrite Hmar in Eb.
  unfold st_map_err, ignore_exists in Eb. pose proof (Push_content desc b' e5) as Hp. destruct (s_Push desc b' e5) as [[[]|er|] e8]; cbn [map_err] in Eb.
  - destruct Hp as [_ [_ Hp]]. by apply Hdig.
  - destruct Hp as [_ Hp]. destruct (IsErrAlreadyExists er); [|done]. destruct (Hp eq_refl) as [x Hx]. cbn [d_Digest desc content_desc] in Hx. by rewrite Ho, Hc, Hnone in Hx.
  - done.
Qed.
End artifacts.
