(* ===== verification/Unpack.v ===== *)
(** * Unpacking layers

    Models [fs/unpacker.go] and [fs/parallel_unpacker.go]: a layer is fetched, decompressed,
    applied to a directory and, at the same time, its digest is verified. *)
From Stdlib Require Import ZArith Lia Ascii.
From stdpp Require Import base list gmap strings numbers.
From S2P Require Import Prelude GoLib Regions Remote Ztoc ZtocBuilder IDMap Oci ArtifactsDb SociIndex SnapshotHost Snapshot UnpackJobs Fetch FetchFacts.
#[local] Open Scope Z_scope.
Local Open Scope go_scope.

(** What successive calls of [Read] return, before [io.EOF] for ever. *)
Abbreviation reads := (list (bytes * option error)).

(** The directory an archive is applied to: one of an unpack job, below the root of those, or
    a mountpoint. *)
Inductive apply_dir := JobDir (p : path) | MountDir (mountpoint : string).

(** Archives, decompression and digests; the contents of directories are part of [E]. *)
Class ArchiveEnv (E : Type) := {
  archive_Apply : apply_dir → list string → stream → ST E Z;
  DecompressStream : stream → outcome reads;
  Verifier_Verified : string → bytes → bool;
  AcquireUnpackLease : ST E ();
  release_unpack : E → E;
  VerifyUnpackDestinationIsReady : ST E ()
}.

(** ** Verifiers

    The digest that is expected and what the verifier was given, if it was started. *)
Record asyncVerifier := mkAV { av_digest : string; av_data : option bytes }.
Definition newAsyncVerifier (d : string) : asyncVerifier := mkAV d None.
Definition AsyncVerify (av : option asyncVerifier) (data : bytes) : option asyncVerifier :=
  (λ v, mkAV (av_digest v) (Some data)) <$> av.
(** [ctx_done]: the context ends before the verifier does. *)
Definition Verified `{ArchiveEnv E} (ctx_done : bool) (av : option asyncVerifier) : bool :=
  match av with
  | None => true
  | Some v =>
      match av_data v with
      | None => false
      | Some data => negb ctx_done && Verifier_Verified (av_digest v) data
      end
  end.

(** ** Reading for two

    What the writer gets and what the reader gets.  An error that comes with data is
    forgotten; [io.EOF] ends both. *)
Fixpoint AsyncTeeReader (rs : reads) : bytes * stream :=
  match rs with
  | [] => ([], ([], None))
  | (b, err) :: rs' =>
      match b, err with
      | [], None => AsyncTeeReader rs'
      | [], Some e => ([], ([], if errors_Is e io_EOF then None else Some e))
      | _, _ => let '(w, (d, e)) := AsyncTeeReader rs' in (b ++ w, (b ++ d, e))
      end
  end.

(** Reading alone. *)
Fixpoint read_all (rs : reads) : stream :=
  match rs with
  | [] => ([], None)
  | (b, Some e) :: _ => (b, if errors_Is e io_EOF then None else Some e)
  | (b, None) :: rs' => let '(d, e) := read_all rs' in (b ++ d, e)
  end.

(** ** Parents

    [strings.Split(s, sep)] for one character. *)
Fixpoint split_on (c : ascii) (s : string) : list string :=
  match s with
  | EmptyString => [EmptyString]
  | String a s' =>
      if Ascii.eqb a c then EmptyString :: split_on c s'
      else match split_on c s' with
           | x :: xs => String a x :: xs
           | [] => [String a EmptyString]
           end
  end.
Definition lowerdirPrefix : string := "lowerdir=".
Definition getLayerParents (options : list string) : list string :=
  foldl (λ lower o, if HasPrefix o lowerdirPrefix then split_on ":"%char (str_drop 9 o) else lower) [] options.
Definition mount_parents (mounts : list Mount) : list string :=
  match mounts with m :: _ => getLayerParents (Mount_Options m) | [] => [] end.

Section unpack.
Context {E : Type} `{RegistryEnv E} `{Store E} `{FileEnv E} `{ArchiveEnv E}.

(** ** The archive *)
Record layerArchive := mkArchive {
  la_compressed : option asyncVerifier;
  la_uncompressed : option asyncVerifier;
  la_decompress : option (stream → outcome reads)
}.
Definition NewLayerArchive (c u : option asyncVerifier) (d : option (stream → outcome reads)) : layerArchive := mkArchive c u d.

(** [compressed] is the verifier of the compressed layer as it is at the end. *)
Definition Apply (la : layerArchive) (compressed : option asyncVerifier) (ctx_done : bool) (root : apply_dir) (parents : list string) (r : stream) : ST E Z :=
  rs <~ st_lift (map_err (Wrap "cannot decompress the stream") (default DecompressStream (la_decompress la) r));;
  let '(reader, uncompressed) :=
    match la_uncompressed la with
    | Some v => let '(w, rd) := AsyncTeeReader rs in (rd, AsyncVerify (Some v) w)
    | None => (read_all rs, None)
    end in
  n <~ archive_Apply root parents reader;;
  if negb (Verified ctx_done uncompressed) then st_err (ErrorString "uncompressed digests did not match")
  else if negb (Verified ctx_done compressed) then st_err (ErrorString "compressed digests did not match")
  else st_ret n.

(** ** The unpackers *)
Definition layerUnpacker_Unpack (f : artifactFetcher) (la : layerArchive) (ctx_done : bool) (desc : Descriptor)
    (mountpoint : apply_dir) (mounts : list Mount) : ST E () :=
  r <~ st_map_err (Wrap "cannot fetch layer") (Fetch f desc);;
  rc <~ (if r.2 : bool then st_ret r.1
         else
           st_map_err (Wrap "cannot store layer") (fetcher_Store desc r.1);;;
           r' <~ st_map_err (Wrap "cannot fetch layer") (Fetch f desc);;
           st_ret r'.1);;
  st_map_err (Wrap "cannot apply layer") (Apply la (la_compressed la) ctx_done mountpoint (mount_parents mounts) rc);;;
  st_ret tt.

(** The file the layer was downloaded to. *)
Definition GetUnpackIngestReader : ST (pstate E) stream := λ s,
  match on_env (os_call "open") s with
  | (Ok _, s1) =>
      match p_ingest s1 with
      | Some b => (Ok (b, None), s1)
      | None => (Err os_ErrNotExist, s1)
      end
  | (Err e, s1) => (Err e, s1)
  | (Panic, s1) => (Panic, s1)
  end.

(** The layer is stored by a goroutine of its own, whose error counts when all else is well. *)
Definition parallel_Unpack (f : parallelArtifactFetcher E) (la : layerArchive) (discardUnpackedLayers ctx_done : bool)
    (order : list Z → list Z) (desc : Descriptor) (mountpoint : apply_dir) (mounts : list Mount) : ST (pstate E) () :=
  r <~ st_map_err (Wrap "cannot fetch layer") (parallel_Fetch f desc order);;
  on_env AcquireUnpackLease;;;
  finally (
    stored <~ (if negb r.2 && negb discardUnpackedLayers then
                 ingestReader <~ st_map_err (Wrap "cannot get layer ingest") GetUnpackIngestReader;;
                 λ s, let '(x, s1) := on_env (fetcher_Store desc ingestReader) s in (Ok (map_err (Wrap "cannot store layer") x), s1)
               else st_ret (Ok tt));;
    st_map_err (Wrap "cannot unpack layer") (on_env VerifyUnpackDestinationIsReady);;;
    (λ s, st_map_err (Wrap "cannot apply layer")
            (on_env (Apply la (match la_compressed la, p_verifier s with
                               | Some v, Some data => AsyncVerify (Some v) data
                               | c, _ => c
                               end) ctx_done mountpoint (mount_parents mounts) r.1)) s);;;
    st_lift stored)
    (λ s, (Ok tt, mkP (release_unpack (p_env s)) (p_ingest s) (p_verifier s))).
End unpack.

(** ** Theorems *)

Lemma tee_same rs : (AsyncTeeReader rs).1 = (AsyncTeeReader rs).2.1.
Proof.
  induction rs as [|[b err] rs IH]; [done|]. cbn [AsyncTeeReader]. destruct (AsyncTeeReader rs) as [w [d e]]. cbn [fst snd] in *.
  destruct b, err; cbn [fst snd]; congruence.
Qed.

(** *** What is applied where

    A record of the archives that were applied, the last first, which nothing else the
    fetchers and unpackers call touches. *)
Class ApplyLog (E : Type) `{RegistryEnv E, Store E, FileEnv E, ArchiveEnv E} := {
  applied : E → list (apply_dir * bytes);
  Apply_applied d ps r e n e' : archive_Apply d ps r e = (Ok n, e') → applied e' = (d, r.1) :: applied e;
  RoundTrip_applied q e : applied (RoundTrip q e).2 = applied e;
  Repository_Fetch_applied r d e : applied (Repository_Fetch r d e).2 = applied e;
  s_Fetch_applied d e : applied (s_Fetch d e).2 = applied e;
  s_Push_applied d b e : applied (s_Push d b e).2 = applied e;
  os_call_applied c e : applied (os_call c e).2 = applied e;
  AcquireDownload_applied e : applied (AcquireDownload e).2 = applied e;
  ReleaseDownload_applied e : applied (ReleaseDownload e) = applied e;
  AcquireUnpackLease_applied e : applied (AcquireUnpackLease e).2 = applied e;
  release_unpack_applied e : applied (release_unpack e) = applied e;
  Ready_applied e : applied (VerifyUnpackDestinationIsReady e).2 = applied e
}.

Section facts.
Context {E : Type} `{HR : RegistryEnv E} `{HS : Store E} `{HFE : FileEnv E} `{HA : ArchiveEnv E}.

(** What an application that succeeded went through. *)
Lemma Apply_ok (la : layerArchive) c cd root parents r n v e e' : la_uncompressed la = Some v →
  Apply la c cd root parents r e = (Ok n, e') →
  ∃ rs, default DecompressStream (la_decompress la) r = Ok rs ∧ archive_Apply root parents (AsyncTeeReader rs).2 e = (Ok n, e') ∧
    Verifier_Verified (av_digest v) (AsyncTeeReader rs).2.1 = true ∧ Verified cd c = true.
Proof.
  intros Hv Hr. unfold Apply in Hr. apply st_bind_ok in Hr as (rs & e1 & Hd & Hr). unfold st_lift in Hd. injection Hd as Hd <-.
  exists rs. destruct (default DecompressStream (la_decompress la) r) as [rs'|?|]; [|done..]. injection Hd as ->. split; [done|].
  rewrite Hv in Hr. pose proof (tee_same rs) as Ht. destruct (AsyncTeeReader rs) as [w rd]. cbn [fst snd] in *. subst w.
  apply st_bind_ok in Hr as (m & e2 & Ha & Hr). cbn [AsyncVerify fmap option_fmap option_map] in Hr. unfold Verified at 1 in Hr. cbn [av_data av_digest] in Hr.
  destruct cd; cbn [negb andb] in Hr; [done|]. destruct (Verifier_Verified (av_digest v) rd.1); [|done]. cbn [negb] in Hr.
  destruct (Verified false c) eqn:Hc; [|done]. injection Hr as <- <-. by split_and!.
Qed.

Section log.
Context `{HL : !ApplyLog E}.

(** Calls that apply nothing. *)
Definition silent {A} (m : ST E A) : Prop := ∀ e, applied (m e).2 = applied e.
Definition silent_p {A} (m : ST (pstate E) A) : Prop := ∀ s, applied (p_env (m s).2) = applied (p_env s).

Lemma silent_ret {A} (x : outcome A) : silent (st_lift x).
Proof. done. Qed.
Lemma silent_bind {A B} (m : ST E A) (k : A → ST E B) : silent m → (∀ a, silent (k a)) → silent (st_bind m k).
Proof. intros Hm Hk e. unfold st_bind. specialize (Hm e). destruct (m e) as [[a|er|] e1]; [|done..]. by rewrite Hk. Qed.
Lemma silent_map_err {A} g (m : ST E A) : silent m → silent (st_map_err g m).
Proof. intros Hm e. unfold st_map_err. specialize (Hm e). by destruct (m e). Qed.
Lemma silent_p_ret {A} (a : A) : silent_p (st_ret a).
Proof. done. Qed.
Lemma silent_p_lift {A} (x : outcome A) : silent_p (st_lift x).
Proof. done. Qed.
Lemma silent_p_get : silent_p st_get.
Proof. done. Qed.
Lemma silent_p_err {A} er : silent_p (st_err (A:=A) er).
Proof. done. Qed.
Lemma silent_p_ingest b : silent_p (set_ingest b).
Proof. done. Qed.
Lemma silent_p_bind {A B} (m : ST (pstate E) A) (k : A → ST (pstate E) B) : silent_p m → (∀ a, silent_p (k a)) → silent_p (st_bind m k).
Proof. intros Hm Hk e. unfold st_bind. specialize (Hm e). destruct (m e) as [[a|er|] e1]; [|done..]. by rewrite Hk. Qed.
Lemma silent_p_map_err {A} g (m : ST (pstate E) A) : silent_p m → silent_p (st_map_err g m).
Proof. intros Hm e. unfold st_map_err. specialize (Hm e). by destruct (m e). Qed.
Lemma silent_p_env {A} (m : ST E A) : silent m → silent_p (on_env m).
Proof. intros Hm s. unfold on_env. specialize (Hm (p_env s)). by destruct (m (p_env s)). Qed.
Lemma silent_p_finally {A} (m : ST (pstate E) A) d : silent_p m → silent_p d → silent_p (finally m d).
Proof. intros Hm Hd s. unfold finally. specialize (Hm s). destruct (m s) as [[a|er|] s1]; cbn [snd] in *; [by rewrite Hd..|done]. Qed.

Create HintDb silent.
#[local] Hint Resolve silent_ret silent_bind silent_map_err silent_p_ret silent_p_lift silent_p_get silent_p_err silent_p_ingest silent_p_bind
  silent_p_map_err silent_p_env silent_p_finally : silent.
#[local] Hint Extern 1 (silent _) => (intros ?; solve [apply RoundTrip_applied | apply Repository_Fetch_applied | apply s_Fetch_applied
  | apply s_Push_applied | apply os_call_applied | apply AcquireDownload_applied | apply AcquireUnpackLease_applied | apply Ready_applied]) : silent.
Ltac silent := solve [eauto 8 with silent].

Lemma silent_release : silent_p release_download.
Proof. intros s. apply ReleaseDownload_applied. Qed.
Lemma silent_write_range rsc lower upper : silent_p (writeToFileRange rsc lower upper).
Proof.
  intros s. unfold writeToFileRange. destruct (p_ingest s); [|done]. unfold on_env. pose proof (os_call_applied "write" (p_env s)) as Hw.
  destruct (os_call "write" (p_env s)) as [[[]|er|] e]; cbn [snd] in *; [|done..]. by destruct (_ <? _).
Qed.
Lemma silent_write_all rc : silent_p (writeToEntireFile rc).
Proof.
  intros s. unfold writeToEntireFile. destruct (p_ingest s); [|done]. unfold on_env. pose proof (os_call_applied "write" (p_env s)) as Hw.
  destruct (os_call "write" (p_env s)) as [[[]|er|] e]; cbn [snd] in *; [|done..]. by destruct (rc.2).
Qed.
#[local] Hint Resolve silent_release silent_write_range silent_write_all : silent.

Lemma silent_if {A} (c : bool) (m1 m2 : ST E A) : silent m1 → silent m2 → silent (if c then m1 else m2).
Proof. by destruct c. Qed.
Lemma silent_FetchRange r ref lower upper : silent (FetchRange r ref lower upper).
Proof.
  unfold FetchRange, GetContentWithRange. apply silent_bind; [silent|]. intros x. apply silent_bind.
  - apply silent_map_err, silent_if; [done|]. apply silent_bind; [silent|]. intros y. by apply silent_if.
  - intros y. by apply silent_if.
Qed.
Lemma silent_headers reqs er : silent (try_headers RoundTrip reqs er).
Proof.
  induction reqs as [|q reqs IH]; [done|]. cbn [try_headers].
  destruct reqs; (apply silent_bind; [silent|]; intros x; by apply silent_if).
Qed.
Lemma silent_chunks f repo desc chunks : silent_p (fetch_chunks f repo desc chunks).
Proof.
  assert (∀ i, silent_p (fetch_chunk f repo desc i)) as Hc.
  { intros i. unfold fetch_chunk. destruct (getRange f i (d_Size desc)). apply silent_p_finally; [|silent].
    apply silent_p_bind; [apply silent_p_env, silent_FetchRange|silent]. }
  induction chunks as [|i chunks IH]; intros s; [done|]. cbn [fetch_chunks]. apply silent_p_bind; [silent|]. intros [] s0.
  specialize (Hc i s0). destruct (fetch_chunk f repo desc i s0) as [[[]|er|] s1]; cbn [snd] in *; [by rewrite IH| |done].
  specialize (IH s1). destruct (fetch_chunks f repo desc chunks s1). cbn [snd] in *. congruence.
Qed.
Lemma silent_parallel_Fetch repo spec cs vf desc order :
  silent_p (parallel_Fetch (newParallelArtifactFetcher (mkAF (orasBlobStore repo) spec) cs vf) desc order).
Proof.
  intros s. unfold parallel_Fetch. pose proof (silent_p_env _ (s_Fetch_applied desc) s) as Hl.
  destruct (on_env (s_Fetch desc) s) as [[b|er|] s1]; cbn [snd] in *; [done| |done]. rewrite <-Hl. clear Hl. revert s1.
  apply silent_p_bind.
  { destruct (_ =? _); [|done]. apply silent_p_map_err, silent_p_env, silent_map_err. unfold Resolve.
    repeat (apply silent_bind; [first [apply silent_headers|silent]|intros ?]). done. }
  intros d. apply silent_p_bind; [|silent]. apply silent_p_map_err. unfold fetchFromRemoteAndWriteToTempDir.
  apply silent_p_bind; [silent|]. intros s0. destruct (p_ingest s0); [done|].
  apply silent_p_bind; [silent|intros _]. apply silent_p_bind; [silent|intros _].
  apply silent_p_bind; [destruct (_ <? _); silent|intros _]. apply silent_p_bind; [silent|intros _]. apply silent_p_bind; [silent|intros n].
  apply silent_p_bind.
  { destruct (_ <? _); [|silent]. cbn. apply silent_p_map_err, silent_p_env. unfold doInitialFetch.
    apply silent_bind; [silent|]. intros x. apply silent_bind; [apply silent_map_err, silent_headers|]. done. }
  intros multi. apply silent_p_bind.
  { apply silent_p_map_err. destruct multi; [apply silent_chunks|]. unfold oneRequestFetchWrite. apply silent_p_bind; [silent|intros _].
    apply silent_p_finally; [|silent]. apply silent_p_bind; [|silent]. cbn. unfold blob_Fetch. silent. }
  intros _. apply silent_p_bind; [silent|intros _]. apply silent_p_bind; [|silent].
  apply silent_p_map_err. unfold asyncVerifyBlobDigest. apply silent_p_bind; [silent|]. intros _ s2. by destruct (paf_verifier _).
Qed.
Lemma silent_Store desc rc : silent (fetcher_Store desc rc).
Proof.
  apply silent_map_err. intros e. unfold ignore_exists, push_stream, st_bind, st_lift. destruct (io_ReadAll rc) as [b|er|]; cbn; [| |done].
  - pose proof (s_Push_applied desc b e) as Hp. destruct (s_Push desc b e) as [[[]|er|] e1]; cbn [snd] in *; [done| |done]. by destruct (IsErrAlreadyExists er).
  - by destruct (IsErrAlreadyExists er).
Qed.

(** A layer that was unpacked in parallel is the one the image names: one archive was applied,
    to the directory that was given, and its bytes, whatever registry and decompressor gave,
    are bytes that the digest of the uncompressed layer verifies. *)
Theorem parallel_unpack_verified repo spec cs vf la v discard cd order desc root mounts s s' :
  la_uncompressed la = Some v →
  parallel_Unpack (newParallelArtifactFetcher (mkAF (orasBlobStore repo) spec) cs vf) la discard cd order desc root mounts s = (Ok tt, s') →
  ∃ b, applied (p_env s') = (root, b) :: applied (p_env s) ∧ Verifier_Verified (av_digest v) b = true.
Proof.
  intros Hv Hr. unfold parallel_Unpack in Hr. apply st_bind_ok in Hr as ([rc local] & s1 & H1%st_map_err_ok & Hr).
  pose proof (silent_parallel_Fetch repo spec cs vf desc order s) as L1. rewrite H1 in L1.
  apply st_bind_ok in Hr as ([] & s2 & H2 & Hr). pose proof (silent_p_env _ AcquireUnpackLease_applied s1) as L2. rewrite H2 in L2.
  apply finally_ok in Hr as (s3 & Hr & ->). apply st_bind_ok in Hr as (stored & s4 & H4 & Hr). apply st_bind_ok in Hr as ([] & s5 & H5%st_map_err_ok & Hr).
  pose proof (silent_p_env _ Ready_applied s4) as L5. rewrite H5 in L5. cbn [snd fst] in *.
  assert (applied (p_env s4) = applied (p_env s2)) as L4.
  { set (st := if negb local && _ then _ else _) in H4. assert (silent_p st) as Hst; [|specialize (Hst s2); by rewrite H4 in Hst].
    unfold st. destruct (_ && _); [|done]. apply silent_p_bind.
    - apply silent_p_map_err. intros s0. unfold GetUnpackIngestReader. pose proof (silent_p_env _ (os_call_applied "open") s0) as Ho.
      destruct (on_env (os_call "open") s0) as [[[]|er|] s6]; cbn [snd] in *; [|done..]. by destruct (p_ingest s6).
    - intros b s0. pose proof (silent_p_env _ (silent_Store desc b) s0) as Hs. by destruct (on_env (fetcher_Store desc b) s0). }
  apply st_bind_ok in Hr as (n & s6 & Ha & Hr). apply st_map_err_ok in Ha. unfold on_env in Ha.
  destruct (Apply la _ _ _ _ _ (p_env s5)) as [r e2] eqn:Ea. injection Ha as -> <-.
  eapply Apply_ok in Ea as (rs & _ & Happ & Hver & _); [|done]. apply Apply_applied in Happ.
  unfold st_lift in Hr. injection Hr as _ <-. cbn [p_env snd]. exists (AsyncTeeReader rs).2.1. split; [|done].
  rewrite release_unpack_applied, Happ. congruence.
Qed.
End log.

(** With [discard_unpacked_layers] a layer that the local store already has cannot be
    unpacked: the verifier of the compressed digest is only started by a download, and one
    that was not started says no. *)
Theorem discard_refuses_local_layers f la v c cd order desc root mounts s b e1 :
  la_uncompressed la = Some v → la_compressed la = Some c → av_data c = None → p_verifier s = None →
  s_Fetch desc (p_env s) = (Ok b, e1) →
  ∀ s', parallel_Unpack f la true cd order desc root mounts s ≠ (Ok tt, s').
Proof.
  intros Hv Hc Hc0 Hp Hl s' Hr. unfold parallel_Unpack in Hr. apply st_bind_ok in Hr as ([rc local] & s1 & Hf%st_map_err_ok & Hr).
  unfold parallel_Fetch, on_env in Hf. rewrite Hl in Hf. injection Hf as <- <- <-. apply st_bind_ok in Hr as ([] & s2 & Hacq & Hr).
  apply on_env_keeps in Hacq as [_ Hp2]. apply finally_ok in Hr as (s3 & Hr & _). cbn [snd negb andb] in Hr.
  apply st_bind_ok in Hr as (stored & s4 & Hs & Hr). injection Hs as _ <-. apply st_bind_ok in Hr as ([] & s5 & Hready%st_map_err_ok & Hr).
  apply on_env_keeps in Hready as [_ Hp5]. apply st_bind_ok in Hr as (n & s6 & Ha & _). apply st_map_err_ok in Ha. rewrite Hp5, Hp2 in Ha. cbn [p_verifier] in Ha.
  rewrite Hc, Hp in Ha. unfold on_env in Ha. destruct (Apply la _ _ _ _ _ (p_env s5)) as [r e2] eqn:Ea. injection Ha as -> _.
  eapply Apply_ok in Ea as (rs & _ & _ & _ & Hver); [|done]. unfold Verified in Hver. by rewrite Hc0 in Hver.
Qed.
End facts.

(** ** Parents of mounts *)
Fixpoint no_char (c : ascii) (s : string) : bool :=
  match s with EmptyString => true | String a s' => negb (Ascii.eqb a c) && no_char c s' end.
Lemma split_on_no_char c s : no_char c s = true → split_on c s = [s].
Proof.
  induction s as [|a s IH]; [done|]. cbn [no_char split_on]. rewrite andb_true_iff, negb_true_iff. intros [-> Hs]. by rewrite IH.
Qed.
Lemma split_on_app c s t : no_char c s = true → split_on c (s +:+ String c t) = s :: split_on c t.
Proof.
  induction s as [|a s IH]; intros Hs.
  - change (split_on c (String c t) = "" :: split_on c t). cbn [split_on]. by rewrite Ascii.eqb_refl.
  - cbn [no_char] in Hs. apply andb_true_iff in Hs as [Ha Hs]. apply negb_true_iff in Ha.
    change (split_on c (String a (s +:+ String c t)) = String a s :: split_on c t). cbn [split_on]. by rewrite Ha, (IH Hs).
Qed.
Lemma split_paths c ps : ps ≠ [] → Forall (λ p, no_char c p = true) ps → split_on c (strings_Join (String c EmptyString) ps) = ps.
Proof.
  intros Hne Hf. induction Hf as [|p ps Hp Hps IH]; [done|]. destruct ps as [|q ps]; [by apply split_on_no_char|].
  change (split_on c (p +:+ String c (strings_Join (String c EmptyString) (q :: ps))) = p :: q :: ps).
  rewrite split_on_app by done. by rewrite IH.
Qed.

(** The layers a mount of the snapshotter is stacked on are the parents that unpacking
    resolves links against: what [getLayerParents] reads back from the options of the overlay
    that a new snapshot is given is what [getParentPaths] put there, as long as no path has a
    colon in it. *)
Theorem unpack_parents_roundtrip root userxattr idm sn :
  Snap_Kind sn = KindActive → ParentIDs sn ≠ [] →
  Forall (λ p, no_char ":"%char p = true) (getParentPaths root idm sn) →
  mount_parents (mounts_of root userxattr idm sn) = getParentPaths root idm sn.
Proof.
  intros Hk Hp Hc. unfold mounts_of. destruct (ParentIDs sn) as [|p ps] eqn:Eps; [done|]. rewrite Hk, bool_decide_eq_true_2 by done.
  unfold overlay_mount, mount_parents, getLayerParents. cbn [Mount_Options].
  assert (getParentPaths root idm sn ≠ []) as Hne by (unfold getParentPaths; rewrite Eps; done).
  rewrite !foldl_app. cbn [foldl]. rewrite HasPrefix_app.
  change 9%nat with (String.length "lowerdir="). rewrite str_drop_app, (split_paths ":"%char) by done. by destruct userxattr.
Qed.
