(* ===== verification/Prog.v ===== *)
(** * Programs of atomic calls

    Goroutines that share a state: a program of atomic calls, between any two of which others
    run, and the reasoning about what a program holds at each point.  Used by the resolver of
    layers and by the file system service. *)
From Stdlib Require Import ZArith Lia.
From stdpp Require Import base list.
From S2P Require Import Prelude GoLib.

(** ** Programs *)
Inductive prog (S A : Type) : Type :=
| Ret (o : outcome A)
| Call {B : Type} (m : ST S B) (k : outcome B → prog S A).
Arguments Ret {S A}.
Arguments Call {S A B}.

Fixpoint pbind {S A B} (p : prog S A) (k : outcome A → prog S B) : prog S B :=
  match p with
  | Ret o => k o
  | Call m k' => Call m (λ r, pbind (k' r) k)
  end.
Definition act {S A} (m : ST S A) : prog S A := Call m Ret.
Definition seq {S A B} (p : prog S A) (k : A → prog S B) : prog S B :=
  pbind p (λ o, match o with Ok a => k a | Err e => Ret (Err e) | Panic => Ret Panic end).
(** The call whose error is looked at and dropped. *)
Definition attempt {S A} (m : ST S A) : prog S bool :=
  Call m (λ r, match r with Ok _ => Ret (Ok true) | Err _ => Ret (Ok false) | Panic => Ret Panic end).
(** A deferred call when an error is returned. *)
Definition on_error {S A} (cleanup : ST S ()) (p : prog S A) : prog S A :=
  pbind p (λ o, match o with Err e => Call cleanup (λ _, Ret (Err e)) | _ => Ret o end).

Declare Scope prog_scope.
Delimit Scope prog_scope with prog.
Notation "'do' x := p ; k" := (seq p%prog (λ x, k%prog)) (at level 10, x name, p at level 100, k at level 200) : prog_scope.

(** Running alone. *)
Fixpoint run {S A} (p : prog S A) : ST S A := λ s,
  match p with
  | Ret o => (o, s)
  | Call m k => let '(r, s1) := m s in run (k r) s1
  end.

(** ** What a program holds

    [I toks s]: the invariant of the state [s] when [toks] are what all programs hold. *)
Section logic.
Context {St Tok : Type} {I : list Tok → St → Prop}.
Implicit Types (s : St) (own toks : list Tok).

(** A program that holds [own]: whatever others hold and do in between, each of its calls
    keeps the invariant and in the end it holds what [Q] says. *)
Fixpoint safe {A} (Q : outcome A → list Tok → Prop) own (p : prog St A) : Prop :=
  match p with
  | Ret o => o = Panic ∨ Q o own
  | Call m k => ∀ rest s, I (own ++ rest) s → (m s).1 ≠ Panic →
      ∃ own', I (own' ++ rest) (m s).2 ∧ safe Q own' (k (m s).1)
  end.

Lemma safe_mono {A} (Q Q' : outcome A → list Tok → Prop) own p :
  (∀ o own', Q o own' → Q' o own') → safe Q own p → safe Q' own p.
Proof.
  intros HQ. revert own. induction p as [o|B m k IH]; intros own Hs; cbn [safe] in *; [naive_solver|].
  intros rest s Hi Hp. destruct (Hs rest s Hi Hp) as (own' & Hi' & Hs'). exists own'. split; [done|]. by apply IH.
Qed.
Lemma safe_bind {A B} (Q : outcome A → list Tok → Prop) (Q' : outcome B → list Tok → Prop) own p k :
  safe Q own p → (∀ own', safe Q' own' (k Panic)) → (∀ o own', Q o own' → safe Q' own' (k o)) → safe Q' own (pbind p k).
Proof.
  intros Hs Hk0 Hk. revert own Hs. induction p as [o|C m k' IH]; intros own Hs; cbn [safe pbind] in *.
  { destruct Hs as [->|Hs]; auto. }
  intros rest s Hi Hp. destruct (Hs rest s Hi Hp) as (own' & Hi' & Hs'). exists own'. split; [done|]. by apply IH.
Qed.
Lemma safe_frame {A} (Q : outcome A → list Tok → Prop) own F p :
  safe Q own p → safe (λ o own', ∃ own0, own' = own0 ++ F ∧ Q o own0) (own ++ F) p.
Proof.
  revert own. induction p as [o|B m k IH]; intros own Hs; cbn [safe] in *.
  { destruct Hs as [->|Hs]; [by left|right]. by exists own. }
  intros rest s Hi Hp. rewrite <-app_assoc in Hi. destruct (Hs (F ++ rest) s Hi Hp) as (own' & Hi' & Hs').
  exists (own' ++ F). rewrite <-app_assoc. split; [done|]. by apply IH.
Qed.
Lemma safe_seq {A B} (Q : A → list Tok → Prop) (Q' : outcome B → list Tok → Prop) own p (k : A → prog St B) :
  safe (λ o own', match o with Ok a => Q a own' | Err e => Q' (Err e) own' | Panic => True end) own p →
  (∀ a own', Q a own' → safe Q' own' (k a)) → safe Q' own (seq p k).
Proof. intros Hs Hk. eapply safe_bind; [exact Hs|by left|]. intros [a|e|] own' H; [by apply Hk|by right|by left]. Qed.
Lemma safe_act {A} (Q : outcome A → list Tok → Prop) own m :
  (∀ rest s, I (own ++ rest) s → (m s).1 ≠ Panic → ∃ own', I (own' ++ rest) (m s).2 ∧ Q (m s).1 own') → safe Q own (act m).
Proof. intros Hm rest s Hi Hp. destruct (Hm rest s Hi Hp) as (own' & Hi' & HQ). exists own'. split; [done|]. by right. Qed.
Lemma safe_attempt {A} (Q : outcome bool → list Tok → Prop) own (m : ST St A) :
  (∀ rest s, I (own ++ rest) s → I (own ++ rest) (m s).2) → (∀ b, Q (Ok b) own) → safe Q own (attempt m).
Proof.
  intros Hm HQ rest s Hi Hp. exists own. split; [by apply Hm|]. destruct (m s).1; [right; apply HQ|right; apply HQ|by left].
Qed.
(** A call that only looks. *)
Lemma safe_look {A} (Q : outcome A → list Tok → Prop) own (m : ST St A) :
  (∀ rest s, I (own ++ rest) s → I (own ++ rest) (m s).2) → (∀ o, Q o own) → safe Q own (act m).
Proof. intros Hm HQ. apply safe_act. intros rest s Hi _. exists own. auto. Qed.
Lemma safe_on_error {A} (Q : outcome A → list Tok → Prop) own (cleanup : ST St ()) t F p :
  safe (λ o own', match o with Err e => own' = t :: F | _ => Q o own' end) own p →
  (∀ rest s, I (t :: rest) s → I rest (cleanup s).2) → (∀ e, Q (Err e) F) → safe Q own (on_error cleanup p).
Proof.
  intros Hs Hc HQ. eapply safe_bind; [exact Hs|by left|]. intros [a|e|] own' H; [by right| |by left]. subst own'.
  intros rest s Hi _. exists F. split; [by apply Hc|]. right. apply HQ.
Qed.


(** Every call of a program. *)
Fixpoint every {A} (P : ∀ B, ST St B → Prop) (p : prog St A) : Prop :=
  match p with
  | Ret _ => True
  | Call m k => P _ m ∧ ∀ r, every P (k r)
  end.
End logic.
Arguments safe {St Tok} I {A}.

(** ** Rely and guarantee

    [R] relates a state to those that any calls may lead to: what a program has seen of the
    state stays true as far as [R] keeps it.  [I] is the invariant of the state. *)
Section rely.
Context {St : Type} (I : St → Prop) (R : St → St → Prop) `{!PreOrder R}.

(** A program that is at [p] when the state has evolved from [s0]. *)
Fixpoint rg {A} (Q : outcome A → St → Prop) (s0 : St) (p : prog St A) : Prop :=
  match p with
  | Ret o => ∀ s, I s → R s0 s → Q o s
  | Call m k => ∀ s, I s → R s0 s → I (m s).2 ∧ R s (m s).2 ∧ rg Q (m s).2 (k (m s).1)
  end.

Lemma rg_later {A} (Q : outcome A → St → Prop) s0 s1 p : R s0 s1 → rg Q s0 p → rg Q s1 p.
Proof.
  intros HR. destruct p as [o|B m k]; cbn; intros Hp s Hi Hs; apply Hp; try done; by etrans.
Qed.
Lemma rg_mono {A} (Q Q' : outcome A → St → Prop) s0 p :
  (∀ o s, I s → R s0 s → Q o s → Q' o s) → rg Q s0 p → rg Q' s0 p.
Proof.
  revert s0. induction p as [o|B m k IH]; cbn; intros s0 HQ Hp s Hi Hs; [auto|].
  destruct (Hp s Hi Hs) as (Hi' & HR & Hk). split; [done|]. split; [done|]. eapply IH; [|exact Hk].
  intros o s' Hi1 Hs1. apply HQ; [done|]. etrans; [exact Hs|]. by etrans.
Qed.
Lemma rg_bind {A B} (Q : outcome A → St → Prop) (Q' : outcome B → St → Prop) s0 p k :
  rg Q s0 p → (∀ o s, I s → R s0 s → Q o s → rg Q' s (k o)) → rg Q' s0 (pbind p k).
Proof.
  revert s0. induction p as [o|C m k' IH]; cbn; intros s0 Hp Hk.
  - assert (∀ s, I s → R s0 s → rg Q' s (k o)) as H1 by auto.
    destruct (k o) as [o'|D m' k'']; cbn in *; intros s Hi Hs; apply (H1 s); done.
  - intros s Hi Hs. destruct (Hp s Hi Hs) as (Hi' & HR & Hk'). split; [done|]. split; [done|]. eapply IH; [exact Hk'|].
    intros o s' Hi1 Hs1. apply Hk; [done|]. etrans; [exact Hs|]. by etrans.
Qed.
Lemma rg_seq {A B} (Q : outcome A → St → Prop) (Q' : outcome B → St → Prop) s0 p (k : A → prog St B) :
  rg Q s0 p → (∀ a s, I s → R s0 s → Q (Ok a) s → rg Q' s (k a)) →
  (∀ e s, I s → R s0 s → Q (Err e) s → ∀ s', I s' → R s s' → Q' (Err e) s') →
  (∀ s s', I s → R s0 s → Q Panic s → I s' → R s s' → Q' Panic s') → rg Q' s0 (seq p k).
Proof. intros Hp Hk He Hpa. eapply rg_bind; [exact Hp|]. intros [a|e|] s Hi Hs HQ; [by apply Hk|cbn; eauto..]. Qed.
Lemma rg_act {A} (Q : outcome A → St → Prop) s0 m :
  (∀ s, I s → R s0 s → I (m s).2 ∧ R s (m s).2 ∧ ∀ s', I s' → R (m s).2 s' → Q (m s).1 s') → rg Q s0 (act m).
Proof. done. Qed.

(** Programs that run together: at each point one of them makes its next call, one is started,
    or the state changes by itself. *)
Context {A : Type} (starts : prog St A → Prop).
Inductive together : St → list (prog St A) → Prop :=
| together_none s : I s → together s []
| together_start s ps p : together s ps → starts p → together s (p :: ps)
| together_call s ps i B (m : ST St B) k : together s ps → ps !! i = Some (Call m k) →
    together (m s).2 (<[i := k (m s).1]> ps)
| together_env s ps s' : together s ps → I s' → R s s' → together s' ps.

Context (Q : outcome A → St → Prop).
Context (Hstarts : ∀ p s, starts p → I s → rg Q s p).

Lemma together_rg s ps : together s ps → I s ∧ Forall (rg Q s) ps.
Proof.
  induction 1 as [s Hi|s ps p _ [Hi IH] Hp|s ps i B m k _ [Hi IH] Hk|s ps s' _ [Hi IH] Hi' HR].
  - done.
  - split; [done|]. constructor; [by apply Hstarts|done].
  - pose proof (proj1 (Forall_lookup _ _) IH i _ Hk) as Hc. destruct (Hc s Hi ltac:(reflexivity)) as (Hi' & HR & Hk').
    split; [done|]. apply Forall_insert; [|done]. eapply list.Forall_impl; [exact IH|]. intros p. by apply rg_later.
  - split; [done|]. eapply list.Forall_impl; [exact IH|]. intros p. by apply rg_later.
Qed.

(** Whatever the programs do, the invariant holds, and what holds of each result holds. *)
Lemma together_ok s ps i o : together s ps → ps !! i = Some (Ret o) → I s ∧ Q o s.
Proof.
  intros H Hi. destruct (together_rg s ps H) as [HI Hps]. split; [done|].
  apply (proj1 (Forall_lookup _ _) Hps i _ Hi s HI). reflexivity.
Qed.

(** A program may run alone to its end. *)
Lemma together_run s ps p : together s (p :: ps) → together (run p s).2 (Ret (run p s).1 :: ps).
Proof.
  revert s. induction p as [o|B m k IH]; intros s H; [done|]. cbn [run].
  pose proof (together_call s (Call m k :: ps) 0 B m k H eq_refl) as H1. destruct (m s) as [r s1]. by apply IH.
Qed.
End rely.
