(* ===== verification/LayerResolver.v ===== *)
(** * Resolving layers

    Models [fs/layer/layer.go]: a layer is resolved from its ztoc and its blob, once; layers
    and blobs are kept in caches with reference counts and closed when they leave them and
    nobody uses them any more.  [Resolve] runs in many goroutines at a time, so it is a
    program of atomic calls. *)
From Stdlib Require Import ZArith Lia.
From stdpp Require Import base list gmap strings numbers.
From S2P Require Import Prelude GoLib Prog Ztoc ZtocBuilder ZtocMarshal LruCache Oci Prefetch SociIndex.
#[local] Open Scope Z_scope.
Local Open Scope go_scope.

(** ** Configuration *)
Definition defaultResolveResultEntry : Z := 30.
Definition defaultMaxLRUCacheEntry : Z := 10.
Definition defaultMaxCacheFds : Z := 10.
Definition memoryCacheType : string := "memory".

Record FSConfig := mkFSConfig {
  ResolveResultEntry : Z;
  FSCacheType : string;
  MaxLRUCacheEntry : Z;
  MaxCacheFds : Z;
  MaxSpanVerificationRetries : Z;
  PrefetchEnable : bool
}.

Definition or_default (n d : Z) : Z := if n =? 0 then d else n.
Definition resolveResultEntry (cfg : FSConfig) : Z := or_default (ResolveResultEntry cfg) defaultResolveResultEntry.

(** [strconv.ParseBool]. *)
Definition ParseBool (s : string) : option bool :=
  if existsb (String.eqb s) ["1"; "t"; "T"; "TRUE"; "true"; "True"] then Some true
  else if existsb (String.eqb s) ["0"; "f"; "F"; "FALSE"; "false"; "False"] then Some false
  else None.
Definition getDisableXAttrAnnotation (desc : Descriptor) : bool :=
  match d_Annotations desc !! IndexAnnotationDisableXAttrs with
  | None => false
  | Some stringVal => default false (ParseBool stringVal)
  end.

(** ** Prefetching

    [for spanID := StartSpan; spanID <= EndSpan; spanID++] on an int32. *)
Fixpoint prefetch_loop (fuel : nat) (spanID endSpan : Z) : option (list Z) :=
  if endSpan <? spanID then Some []
  else match fuel with
  | O => None
  | S fuel => cons spanID <$> prefetch_loop fuel (int32 (spanID + 1)) endSpan
  end.
(** A loop that ends does so after one round per span. *)
Definition prefetch_range (s : PrefetchSpan) : option (list Z) :=
  prefetch_loop (Z.to_nat (EndSpan s - StartSpan s + 1)) (StartSpan s) (EndSpan s).
Definition spansToFetch (spans : list PrefetchSpan) : option (list Z) := @concat Z <$> mapM prefetch_range spans.

Section prefetch.
Context {E : Type} `{Store E} `{PrefetchJSON}.

Definition loadPrefetchArtifact (prefetchDesc : Descriptor) : ST E PrefetchArtifact :=
  b <~ st_map_err (Wrap "failed to fetch prefetch artifact") (s_Fetch prefetchDesc);;
  st_lift (map_err (Wrap "failed to unmarshal prefetch artifact") (UnmarshalPrefetchArtifact (Ok b))).

(** The workers in the order they take the spans; errors are dropped. *)
Fixpoint prefetch_workers (ResolveSpan : Z → ST E ()) (ids : list Z) : ST E () := λ e,
  match ids with
  | [] => (Ok tt, e)
  | i :: ids' =>
      match ResolveSpan i e with
      | (Panic, e1) => (Panic, e1)
      | (_, e1) => prefetch_workers ResolveSpan ids' e1
      end
  end.

(** A loop that does not end appends until memory runs out, which ends the process. *)
Definition executePrefetch (cfg : FSConfig) (order : list Z → list Z) (acquire : ST E ()) (release : E → E)
    (ResolveSpan : Z → ST E ()) (prefetchDesc : option Descriptor) : ST E () :=
  match prefetchDesc with
  | None => st_ret tt
  | Some d =>
      if negb (PrefetchEnable cfg) then st_ret tt
      else λ e,
        match loadPrefetchArtifact d e with
        | (Err err, e1) => if errors_Is err ErrEmptyPrefetchArtifact then (Ok tt, e1)
                           else (Err (Wrap "failed to load prefetch artifact" err), e1)
        | (Panic, e1) => (Panic, e1)
        | (Ok artifact, e1) =>
            match spansToFetch (PrefetchSpans artifact) with
            | None => (Panic, e1)
            | Some [] => (Ok tt, e1)
            | Some ids =>
                match acquire e1 with
                | (Ok _, e2) => let '(r, e3) := prefetch_workers ResolveSpan (order ids) e2 in (r, release e3)
                | (Err err, e2) => (Err err, e2)
                | (Panic, e2) => (Panic, e2)
                end
            end
        end
  end.
End prefetch.

(** ** The resolver *)
Record Info := mkInfo { i_Digest : string; i_Size : Z; i_FetchedSize : Z }.

(** A layer: its blob with the [done] of its reference, its span cache, which also numbers its
    span manager and its metadata reader, and whether it has a resolver in the background. *)
Record layer := mkLayer {
  l_desc : Descriptor;
  l_cacheRefKey : string;
  l_blob : nat;
  l_blobDone : nat;
  l_spanCache : nat;
  l_bgResolver : bool;
  l_disableXAttrs : bool;
  l_closed : bool
}.
Definition newLayer (desc : Descriptor) (key : string) (blob : nat * nat) (spanCache : nat) (bgResolver disableXAttrs : bool) : layer :=
  mkLayer desc key blob.1 blob.2 spanCache bgResolver disableXAttrs false.

(** A reference to a layer in the cache and its [done]. *)
Record layerRef := mkRef { ref_layer : nat; ref_done : nat }.
#[global] Instance layerRef_eq_dec : EqDecision layerRef.
Proof. solve_decision. Defined.

(** Everything else: what the blobs, span managers and metadata readers are made of, the store of
    artifacts, the registry, the background fetcher. *)
Class ResolverEnv (E Time : Type) := {
  os_step : string → ST E ();
  remote_Resolve : string → Descriptor → nat → ST E ();
  blob_check : nat → ST E ();
  blob_refresh : nat → string → Descriptor → ST E ();
  blob_Size : nat → E → Z;
  blob_FetchedSize : nat → E → Z;
  blob_close : nat → E → E;
  metadataStore : nat → Ztoc Time → ST E ();
  spanmanager_New : nat → nat → Ztoc Time → Z → ST E ();
  spanManager_ResolveSpan : nat → Z → ST E ();
  prefetch_acquire : ST E ();
  prefetch_release : E → E;
  bgFetcher_Add : nat → E → E;
  bgResolver_close : nat → E → E;
  reader_close : nat → E → E;
  spanCache_close : nat → E → E
}.

(** [blobs], [spanCaches] and [readers] (of metadata) say which are closed; pointers are numbers. *)
Record resolver (E L : Type) := mkResolver {
  r_env : E;
  layerCache : Cache L nat;
  blobCache : Cache L nat;
  layers : gmap nat layer;
  blobs : gmap nat bool;
  spanCaches : gmap nat bool;
  readers : gmap nat bool;
  r_next : nat
}.
Arguments mkResolver {E L}.
Arguments r_env {E L}.
Arguments layerCache {E L}.
Arguments blobCache {E L}.
Arguments layers {E L}.
Arguments blobs {E L}.
Arguments spanCaches {E L}.
Arguments readers {E L}.
Arguments r_next {E L}.

Section resolver.
Context {E L Time : Type} `{HL : LRU L} `{HE : ResolverEnv E Time} `{HS : Store E} `{HP : PrefetchJSON}.
Context `{HT : GoTime Time} `{HD : Digester} `{HF : FlatbufZtoc} `{HG : GoSort}.
Context (cfg : FSConfig) (hasBgFetcher : bool) (order : list Z → list Z).
Abbreviation R := (resolver E L).
Implicit Types (s : R).

Definition set_env e s : R := mkResolver e (layerCache s) (blobCache s) (layers s) (blobs s) (spanCaches s) (readers s) (r_next s).
Definition set_layerCache c s : R := mkResolver (r_env s) c (blobCache s) (layers s) (blobs s) (spanCaches s) (readers s) (r_next s).
Definition set_blobCache c s : R := mkResolver (r_env s) (layerCache s) c (layers s) (blobs s) (spanCaches s) (readers s) (r_next s).
Definition set_layers m s : R := mkResolver (r_env s) (layerCache s) (blobCache s) m (blobs s) (spanCaches s) (readers s) (r_next s).
Definition set_blobs m s : R := mkResolver (r_env s) (layerCache s) (blobCache s) (layers s) m (spanCaches s) (readers s) (r_next s).
Definition set_spanCaches m s : R := mkResolver (r_env s) (layerCache s) (blobCache s) (layers s) (blobs s) m (readers s) (r_next s).
Definition bump_next s : R := mkResolver (r_env s) (layerCache s) (blobCache s) (layers s) (blobs s) (spanCaches s) (readers s) (S (r_next s)).
Definition set_readers m s : R := mkResolver (r_env s) (layerCache s) (blobCache s) (layers s) (blobs s) (spanCaches s) m (r_next s).

Definition on_env {A} (m : ST E A) : ST R A := λ s, let '(r, e) := m (r_env s) in (r, set_env e s).

Definition NewResolver (empty : L) (e : E) : outcome R :=
  match os_step "mkdir root" e with
  | (Ok _, e1) => Ok (mkResolver e1 (New empty) (New empty) ∅ ∅ ∅ ∅ 0)
  | (Err err, _) => Err err
  | (Panic, _) => Panic
  end.

(** The values [OnEvicted] was called with since the cache was [c]. *)
Definition evicted_since (c c' : Cache L nat) : list nat :=
  omap (λ h, rc_v <$> heap c' !! h) (drop (length (evicted c)) (evicted c')).

(** *** Blobs *)
Definition close_blob (b : nat) s : R :=
  match blobs s !! b with
  | Some false => set_env (blob_close b (r_env s)) (set_blobs (<[b := true]> (blobs s)) s)
  | _ => s
  end.
Definition close_blobs (bs : list nat) s : R := foldl (flip close_blob) s bs.
Definition settle_blobs (c' : Cache L nat) s : R := close_blobs (evicted_since (blobCache s) c') (set_blobCache c' s).

Definition blobCache_Get (name : string) : ST R (option (nat * nat)) := λ s,
  let '(r, c) := Get name (blobCache s) in (Ok r, settle_blobs c s).
Definition blobCache_Add (name : string) (b : nat) : ST R (nat * nat * bool) := λ s,
  let '(r, c) := Add name b (blobCache s) in (Ok r, settle_blobs c s).
Definition blobCache_Remove (name : string) : ST R () := λ s, (Ok tt, settle_blobs (Remove name (blobCache s)) s).
Definition blob_done (d : nat) : ST R () := λ s, (Ok tt, settle_blobs (call_done d (blobCache s)) s).

Definition ErrBlobClosed : error := ErrorString "blob is already closed".
Definition blob_Check (b : nat) : ST R () := λ s,
  if default true (blobs s !! b) then (Err ErrBlobClosed, s) else on_env (blob_check b) s.

(** [remote.Resolver.Resolve] makes a blob. *)
Definition new_blob (name : string) (desc : Descriptor) : ST R nat := λ s,
  let b := r_next s in
  match on_env (remote_Resolve name desc b) s with
  | (Ok _, s1) => (Ok b, bump_next (set_blobs (<[b := false]> (blobs s1)) s1))
  | (Err e, s1) => (Err (Wrap "failed to resolve the source" e), s1)
  | (Panic, s1) => (Panic, s1)
  end.

(** *** Span caches *)
Definition newCache_dirs : ST E () :=
  if String.eqb (FSCacheType cfg) memoryCacheType then st_ret tt
  else
    os_step "mkdir spancache";;;
    st_map_err (Wrap "failed to initialize directory cache") (os_step "mkdirtemp spancache");;;
    os_step "NewDirectoryCache".
Definition newCache : ST R nat := λ s,
  let c := r_next s in
  match on_env newCache_dirs s with
  | (Ok _, s1) => (Ok c, bump_next (set_spanCaches (<[c := false]> (spanCaches s1)) s1))
  | (Err e, s1) => (Err (Wrap "failed to create span manager cache" e), s1)
  | (Panic, s1) => (Panic, s1)
  end.
Definition close_spanCache (c : nat) s : R :=
  match spanCaches s !! c with
  | Some false => set_env (spanCache_close c (r_env s)) (set_spanCaches (<[c := true]> (spanCaches s)) s)
  | _ => s
  end.

(** *** Metadata readers *)
Definition open_reader (c : nat) (zt : Ztoc Time) : ST R () := λ s,
  match on_env (metadataStore c zt) s with
  | (Ok _, s1) => (Ok tt, set_readers (<[c := false]> (readers s1)) s1)
  | (Err e, s1) => (Err e, s1)
  | (Panic, s1) => (Panic, s1)
  end.
Definition close_reader (c : nat) s : R :=
  match readers s !! c with
  | Some false => set_env (reader_close c (r_env s)) (set_readers (<[c := true]> (readers s)) s)
  | _ => s
  end.

(** *** Layers

    [layer.close]: the resolver in the background, then the reader, which closes its span
    manager with the span cache and the metadata, then the reference to the blob. *)
Definition layer_close (p : nat) s : R :=
  match layers s !! p with
  | Some l =>
      if l_closed l then s
      else
        let l' := mkLayer (l_desc l) (l_cacheRefKey l) (l_blob l) (l_blobDone l) (l_spanCache l) (l_bgResolver l) (l_disableXAttrs l) true in
        let s1 := set_layers (<[p := l']> (layers s)) s in
        let s2 := if l_bgResolver l then set_env (bgResolver_close (l_spanCache l) (r_env s1)) s1 else s1 in
        let s3 := close_reader (l_spanCache l) (close_spanCache (l_spanCache l) s2) in
        (blob_done (l_blobDone l) s3).2
  | None => s
  end.
Definition close_layers (ls : list nat) s : R := foldl (flip layer_close) s ls.
Definition settle_layers (c' : Cache L nat) s : R := close_layers (evicted_since (layerCache s) c') (set_layerCache c' s).

Definition layerCache_Get (name : string) : ST R (option (nat * nat)) := λ s,
  let '(r, c) := Get name (layerCache s) in (Ok r, settle_layers c s).
Definition layerCache_Add (name : string) (l : nat) : ST R (nat * nat * bool) := λ s,
  let '(r, c) := Add name l (layerCache s) in (Ok r, settle_layers c s).
Definition layerCache_Remove (name : string) : ST R () := λ s, (Ok tt, settle_layers (Remove name (layerCache s)) s).
Definition layer_done (d : nat) : ST R () := λ s, (Ok tt, settle_layers (call_done d (layerCache s)) s).

Definition Evict (name : string) : ST R () := layerCache_Remove name.
Definition Done (r : layerRef) : ST R () := layer_done (ref_done r).

Definition errLayerClosed : error := ErrorString "layer is already closed".
(** A layer that is open. *)
Definition open_layer (p : nat) : ST R layer := λ s,
  match layers s !! p with
  | None => (Panic, s)
  | Some l => if l_closed l then (Err errLayerClosed, s) else (Ok l, s)
  end.
Definition layer_Check (p : nat) : ST R () := l <~ open_layer p;; blob_Check (l_blob l).
Definition layer_Refresh (p : nat) (name : string) (desc : Descriptor) : ST R () :=
  l <~ open_layer p;;
  λ s, if default true (blobs s !! l_blob l) then (Err ErrBlobClosed, s) else on_env (blob_refresh (l_blob l) name desc) s.
(** Whether a root node can be made; the nodes are those of the FUSE components. *)
Definition layer_RootNode (p : nat) : ST R () := open_layer p;;; st_ret tt.
Definition layer_Info (p : nat) : ST R Info := λ s,
  match layers s !! p with
  | None => (Panic, s)
  | Some l => (Ok (mkInfo (d_Digest (l_desc l)) (blob_Size (l_blob l) (r_env s)) (blob_FetchedSize (l_blob l) (r_env s))), s)
  end.

Definition new_layer (desc : Descriptor) (key : string) (blob : nat * nat) (spanCache : nat) (bgResolver disableXAttrs : bool) : ST R nat := λ s,
  (Ok (r_next s), bump_next (set_layers (<[r_next s := newLayer desc key blob spanCache bgResolver disableXAttrs]> (layers s)) s)).

(** *** Resolving *)
Local Open Scope prog_scope.

Definition resolve_new_blob (name : string) (desc : Descriptor) : prog R (nat * nat) :=
  do b := act (new_blob name desc);
  do r := act (blobCache_Add name b);
  let '(cached, d, added) := r in
  if added : bool then Ret (Ok (cached, d))
  else do u := act (λ s, (Ok tt, close_blob b s)); Ret (Ok (cached, d)).

Definition resolveBlob (name : string) (desc : Descriptor) : prog R (nat * nat) :=
  do hit := act (blobCache_Get name);
  match hit with
  | Some (b, d) =>
      do valid := attempt (blob_Check b);
      if valid : bool then Ret (Ok (b, d))
      else do u := act (blob_done d); do v := act (blobCache_Remove name); resolve_new_blob name desc
  | None => resolve_new_blob name desc
  end.

Definition with_ztoc_size (desc : Descriptor) (size : Z) : Descriptor :=
  if (d_Size desc =? 0) && (0 <? size)
  then mkDesc (d_MediaType desc) (d_Digest desc) (int64 size) (d_Annotations desc) (d_Platform desc) (d_ArtifactType desc)
  else desc.

(** The layer is built from its blob and added; the error of prefetching is logged. *)
Definition assemble (name : string) (desc sociDesc : Descriptor) (prefetchDesc : option Descriptor) (spanCache : nat)
    (blob : nat * nat) (zt : Ztoc Time) : prog R layerRef :=
  do u := act (open_reader spanCache zt);
  do u := act (st_map_err (Wrap "error creating span manager") (on_env (spanmanager_New spanCache blob.1 zt (MaxSpanVerificationRetries cfg))));
  do u := (if hasBgFetcher then act (λ s, (Ok tt, set_env (bgFetcher_Add spanCache (r_env s)) s)) else Ret (Ok tt));
  do u := attempt (on_env (executePrefetch cfg order prefetch_acquire prefetch_release (spanManager_ResolveSpan spanCache) prefetchDesc));
  do l := act (new_layer desc name blob spanCache hasBgFetcher (getDisableXAttrAnnotation sociDesc));
  do r := act (layerCache_Add name l);
  let '(cached, d, added) := r in
  if added : bool then Ret (Ok (mkRef cached d))
  else do u := act (λ s, (Ok tt, layer_close l s)); Ret (Ok (mkRef cached d)).

Definition resolve_new (name : string) (desc sociDesc : Descriptor) (prefetchDesc : option Descriptor) : prog R layerRef :=
  do spanCache := act newCache;
  on_error (λ s, (Ok tt, close_spanCache spanCache s))
    (do b := act (on_env (s_Fetch sociDesc));
     do zt := act (st_lift (map_err (Wrap "cannot get ztoc; download and unpack this layer in container runtime for now") (Unmarshal (Ok b))));
     let desc' := with_ztoc_size desc (CompressedArchiveSize zt) in
     do blob := pbind (resolveBlob name desc') (λ o, Ret (map_err (Wrap "failed to resolve the blob") o));
     on_error (blob_done blob.2) (assemble name desc' sociDesc prefetchDesc spanCache blob zt)).

(** [name] is the reference and the digest; calls for one name wait for each other. *)
Definition Resolve (name : string) (desc sociDesc : Descriptor) (prefetchDesc : option Descriptor) : prog R layerRef :=
  do hit := act (layerCache_Get name);
  match hit with
  | Some (l, d) =>
      do valid := attempt (layer_Check l);
      if valid : bool then Ret (Ok (mkRef l d))
      else do u := act (layer_done d); do v := act (layerCache_Remove name); resolve_new name desc sociDesc prefetchDesc
  | None => resolve_new name desc sociDesc prefetchDesc
  end.
End resolver.
