(* ===== verification/LayerFacts.v ===== *)
(** * Facts about resolved layers

    Whatever runs at the same time: a layer that somebody refers to is open, with its blob
    and its span cache, and what nobody uses and no cache keeps is closed. *)
From Stdlib Require Import ZArith Lia.
From stdpp Require Import base list gmap strings numbers.
From S2P Require Import Prelude GoLib Prog Ztoc ZtocBuilder ZtocMarshal LruCache Oci Prefetch SociIndex LayerResolver.
#[local] Open Scope Z_scope.

(** ** Caches of things that are closed when they are evicted *)
Section lru.
Context {L : Type} `{LRU L} `{!LRULaws L}.
Implicit Types c : Cache L nat.

(** An unreleased reference and what it refers to. *)
Definition ref_of c (d v : nat) : Prop := ∃ h r, dones c !! d = Some (h, false) ∧ heap c !! h = Some r ∧ rc_v r = v.
Definition alive c (v : nat) : Prop := ∃ h r, heap c !! h = Some r ∧ rc_v r = v ∧ h ∉ evicted c.
(** Nothing was added twice. *)
Definition once c : Prop := ∀ h h' r r', heap c !! h = Some r → heap c !! h' = Some r' → rc_v r = rc_v r' → h = h'.
Definition known c (v : nat) : Prop := ∃ h r, heap c !! h = Some r ∧ rc_v r = v.

(** Entries stay and keep their values; what was evicted stays evicted. *)
Record ext c c' : Prop := {
  ext_heap h r : heap c !! h = Some r → ∃ r', heap c' !! h = Some r' ∧ rc_v r' = rc_v r;
  ext_len : length (heap c') = length (heap c);
  ext_evicted : ∃ ev, evicted c' = evicted c ++ ev
}.

Lemma ext_refl c : ext c c.
Proof. split; [eauto|done|exists []; by rewrite app_nil_r]. Qed.
Lemma ext_trans c1 c2 c3 : ext c1 c2 → ext c2 c3 → ext c1 c3.
Proof.
  intros [H1 L1 [e1 E1]] [H2 L2 [e2 E2]]. split; [|congruence|].
  - intros h r Hr. destruct (H1 h r Hr) as (r2 & Hr2 & V2). destruct (H2 h r2 Hr2) as (r3 & Hr3 & V3). exists r3. split; [done|congruence].
  - exists (e1 ++ e2). by rewrite E2, E1, app_assoc.
Qed.

Lemma ext_with_rc f h c : (∀ r, rc_v (f r) = rc_v r) → ext c (with_rc f h c).
Proof.
  intros Hf. split; cbn [heap evicted with_rc]; [|by rewrite length_alter|exists []; by rewrite app_nil_r].
  intros h' r Hr. destruct (decide (h = h')) as [->|Hne].
  - rewrite list_lookup_alter_eq, Hr. eexists. split; [done|apply Hf].
  - rewrite list_lookup_alter_ne by done. eauto.
Qed.
Lemma ext_same_heap c c' : heap c' = heap c → (∃ ev, evicted c' = evicted c ++ ev) → ext c c'.
Proof. intros Hh He. split; [rewrite Hh; eauto|by rewrite Hh|done]. Qed.
Lemma ext_inner l c : ext c (set_inner l c).
Proof. apply ext_same_heap; [done|exists []; by rewrite app_nil_r]. Qed.
Lemma ext_inc h l c : ext c (rc_inc h (set_inner l c)).
Proof. eapply ext_trans; [apply (ext_inner l)|]. by apply ext_with_rc. Qed.
Lemma ext_dec h c : ext c (rc_dec h c).
Proof.
  unfold rc_dec. set (c1 := with_rc _ h c). assert (ext c c1) as H1 by (by apply ext_with_rc).
  destruct (heap c1 !! h) as [r|]; [|done]. destruct (_ <=? _); [|done].
  eapply ext_trans; [exact H1|]. apply ext_same_heap; [done|]. by eexists.
Qed.
Lemma ext_finalize h c : ext c (rc_finalize h c).
Proof.
  unfold rc_finalize. destruct (heap c !! h) as [r|]; [|apply ext_refl]. destruct (rc_finalized r); [apply ext_refl|].
  eapply ext_trans; [|apply ext_dec]. by apply ext_with_rc.
Qed.
Lemma ext_finalize_all ev c : ext c (finalize_all ev c).
Proof.
  unfold finalize_all. revert c. induction ev as [|[k v] ev IH]; intros c; [apply ext_refl|]. cbn [foldl].
  eapply ext_trans; [apply ext_finalize|apply IH].
Qed.
Lemma dones_dec h c : dones (rc_dec h c) = dones c.
Proof. unfold rc_dec. by repeat case_match. Qed.
Lemma dones_finalize h c : dones (rc_finalize h c) = dones c.
Proof. unfold rc_finalize. repeat case_match; [done|by rewrite dones_dec|done]. Qed.
Lemma dones_finalize_all ev c : dones (finalize_all ev c) = dones c.
Proof. unfold finalize_all. revert c. induction ev as [|[k v] ev IH]; intros c; [done|]. cbn [foldl]. by rewrite IH, dones_finalize. Qed.

(** A referenced entry is not evicted. *)
Lemma ref_not_evicted c d h : wf c → dones c !! d = Some (h, false) → (h ∉ evicted c) ∧ (h < length (heap c))%nat.
Proof.
  intros Hw Hd. split; [|by eapply inv_dones, list_elem_of_lookup_2].
  rewrite (inv_evicted _ _ _ Hw). intros (r & Hr & Hz). rewrite (inv_count _ _ _ Hw _ _ Hr) in Hz.
  apply list_elem_of_lookup_2 in Hd. assert (0 < live h (dones c)); [|destruct (rc_finalized r); change (count h []) with 0 in Hz; lia].
  unfold live, zlen. destruct (filter _ (dones c)) eqn:E; simpl; [|lia].
  by apply (filter_nil_not_elem_of (λ d, d = (h, false)) _ (h, false)) in E.
Qed.
Lemma ref_alive c d v : wf c → ref_of c d v → alive c v.
Proof. intros Hw (h & r & Hd & Hr & Hv). exists h, r. split_and!; [done..|]. by destruct (ref_not_evicted c d h Hw Hd). Qed.
Lemma ref_of_fun c d v v' : ref_of c d v → ref_of c d v' → v = v'.
Proof. intros (h & r & Hd & Hr & <-) (h' & r' & Hd' & Hr' & <-). congruence. Qed.

Lemma ext_ref c c' d v : ext c c' → dones c' !! d = dones c !! d → ref_of c' d v ↔ ref_of c d v.
Proof.
  intros [Hh Hl _] Hd. split; intros (h & r & Hdh & Hr & Hv).
  - rewrite Hd in Hdh. destruct (heap c !! h) as [r0|] eqn:E0; [|apply lookup_ge_None in E0; apply lookup_lt_Some in Hr; lia].
    destruct (Hh h r0 E0) as (r' & Hr' & Hv'). exists h, r0. split_and!; [done..|congruence].
  - destruct (Hh h r Hr) as (r' & Hr' & Hv'). exists h, r'. rewrite Hd. split_and!; [done..|congruence].
Qed.
Lemma ext_known c c' v : ext c c' → known c' v ↔ known c v.
Proof.
  intros [Hh Hl _]. split; intros (h & r & Hr & Hv).
  - destruct (heap c !! h) as [r0|] eqn:E0; [|apply lookup_ge_None in E0; apply lookup_lt_Some in Hr; lia].
    destruct (Hh h r0 E0) as (r' & Hr' & Hv'). exists h, r0. split; [done|congruence].
  - destruct (Hh h r Hr) as (r' & Hr' & Hv'). exists h, r'. split; [done|congruence].
Qed.
Lemma ext_once c c' : ext c c' → once c → once c'.
Proof.
  intros [Hh Hl _] Ho h h' r r' Hr Hr' Hv.
  assert (∀ h r, heap c' !! h = Some r → ∃ r0, heap c !! h = Some r0 ∧ rc_v r0 = rc_v r) as Hback.
  { intros h0 r0 H0. destruct (heap c !! h0) as [r1|] eqn:E0; [|apply lookup_ge_None in E0; apply lookup_lt_Some in H0; lia].
    destruct (Hh h0 r1 E0) as (r2 & Hr2 & Hv2). exists r1. split; [done|congruence]. }
  destruct (Hback h r Hr) as (r1 & Hr1 & V1). destruct (Hback h' r' Hr') as (r2 & Hr2 & V2). apply (Ho h h' r1 r2); congruence.
Qed.

(** What was closed on the way is what is not alive any more. *)
Lemma elem_evicted_since c c' v : wf c' → (∃ ev, evicted c' = evicted c ++ ev) →
  v ∈ evicted_since c c' ↔ ∃ h r, heap c' !! h = Some r ∧ rc_v r = v ∧ h ∈ evicted c' ∧ h ∉ evicted c.
Proof.
  intros Hw [ev He]. unfold evicted_since. rewrite He, drop_app_length. pose proof (inv_nodup _ _ _ Hw) as Hnd. rewrite He in Hnd.
  apply list.NoDup_app in Hnd as (_ & Hdis & _). rewrite list_elem_of_omap. setoid_rewrite fmap_Some. setoid_rewrite elem_of_app. split.
  - intros (h & Hh & r & Hr & ->). exists h, r. split_and!; [done..|by right|]. intros Ho. by apply (Hdis h).
  - intros (h & r & Hr & <- & [Ho|Hn] & Hno); [done|]. exists h. split; [done|]. by exists r.
Qed.
Lemma NoDup_evicted_since c c' : wf c' → once c' → NoDup (evicted_since c c').
Proof.
  intros Hw Ho. unfold evicted_since. pose proof (inv_nodup _ _ _ Hw) as Hnd.
  assert (NoDup (drop (length (evicted c)) (evicted c'))) as Hnd'.
  { rewrite <-(take_drop (length (evicted c)) (evicted c')) in Hnd. by apply list.NoDup_app in Hnd as (_ & _ & ?). }
  induction Hnd' as [|h l Hh Hl IH]; [constructor|]. cbn [omap list_omap]. destruct (heap c' !! h) as [r|] eqn:Er; cbn; [|done].
  constructor; [|done]. rewrite list_elem_of_omap. setoid_rewrite fmap_Some. intros (h' & Hh' & r' & Hr' & Hv).
  assert (h = h') as -> by (by eapply Ho). done.
Qed.
Lemma alive_ext c c' v : wf c' → once c → ext c c' → alive c' v ↔ alive c v ∧ v ∉ evicted_since c c'.
Proof.
  intros Hw Ho Hx. pose proof (ext_once _ _ Hx Ho) as Ho'. rewrite elem_evicted_since by (done || apply Hx). destruct Hx as [Hh Hl [ev He]]. split.
  - intros (h & r & Hr & Hv & Hn). destruct (heap c !! h) as [r0|] eqn:E0; [|apply lookup_ge_None in E0; apply lookup_lt_Some in Hr; lia].
    destruct (Hh h r0 E0) as (r1 & Hr1 & Hv1). rewrite Hr in Hr1. injection Hr1 as <-. split.
    + exists h, r0. split_and!; [done|congruence|]. intros ?. apply Hn. rewrite He. set_solver.
    + intros (h' & r' & Hr' & Hv' & Hin & _). assert (h' = h) as -> by (eapply Ho'; [done..|congruence]). done.
  - intros [(h & r & Hr & Hv & Hn) Hnot]. destruct (Hh h r Hr) as (r' & Hr' & Hv'). exists h, r'. split_and!; [done|congruence|].
    intros Hin. apply Hnot. exists h, r'. split_and!; [done|congruence|done..].
Qed.
Lemma evicted_since_alive c c' v : wf c' → ext c c' → v ∈ evicted_since c c' → alive c v.
Proof.
  intros Hw Hx. rewrite elem_evicted_since by (done || apply Hx). destruct Hx as [Hh Hl _].
  intros (h & r & Hr & Hv & _ & Hn). destruct (heap c !! h) as [r0|] eqn:E0; [|apply lookup_ge_None in E0; apply lookup_lt_Some in Hr; lia].
  destruct (Hh h r0 E0) as (r1 & Hr1 & Hv1). exists h, r0. split_and!; [done|congruence|done].
Qed.
End lru.

(** The operations of the cache. *)
Section lru_ops.
Context {L : Type} `{LRU L} `{!LRULaws L}.
Implicit Types c : Cache L nat.

Lemma evicted_since_same c c' : evicted c' = evicted c → evicted_since c c' = [].
Proof. intros He. unfold evicted_since. by rewrite He, drop_all. Qed.

(** The reference a call returns is new. *)
Definition gives c c' (d v : nat) : Prop :=
  ¬ (∃ w, ref_of c d w) ∧ ∀ d' v', ref_of c' d' v' ↔ ref_of c d' v' ∨ (d' = d ∧ v' = v).

Lemma closure_gives c c1 h r : ext c c1 → dones c1 = dones c → heap c1 !! h = Some r →
  gives c (decreaseOnceFunc h c1).2 (length (dones c)) (rc_v r).
Proof.
  intros Hx Hd Hr. split.
  { intros (w & h' & r' & Hd' & _). apply lookup_lt_Some in Hd'. lia. }
  intros d' v'. cbn [decreaseOnceFunc snd]. set (c2 := mkCache _ _ _ _). destruct (decide (d' = length (dones c))) as [->|Hne].
  - split.
    + intros (h' & r' & Hd' & Hr' & <-). cbn [dones c2] in Hd'. rewrite <-Hd, lookup_app_r, Nat.sub_diag in Hd' by lia. injection Hd' as <-.
      cbn [heap c2] in Hr'. rewrite Hr in Hr'. injection Hr' as <-. by right.
    + intros [(h' & r' & Hd' & _)|[_ ->]]; [apply lookup_lt_Some in Hd'; lia|]. exists h, r. cbn [dones heap c2].
      by rewrite <-Hd, lookup_app_r, Nat.sub_diag by lia.
  - assert (dones c2 !! d' = dones c !! d') as Hd2.
    { cbn [dones c2]. rewrite Hd. destruct (decide (d' < length (dones c))%nat); [by rewrite lookup_app_l|].
      rewrite !lookup_ge_None_2; [done|lia|rewrite length_app; cbn; lia]. }
    rewrite (ext_ref c c2 d' v'); [naive_solver| |done]. eapply ext_trans; [exact Hx|]. apply ext_same_heap; [done|exists []; by rewrite app_nil_r].
Qed.

Lemma Get_known k c : wf c → once c →
  match Get k c with
  | (Some (v, d), c') => wf c' ∧ ext c c' ∧ evicted_since c c' = [] ∧ gives c c' d v
  | (None, c') => wf c' ∧ ext c c' ∧ evicted_since c c' = [] ∧ dones c' = dones c
  end.
Proof.
  intros Hw Ho. pose proof (wf_Get k c Hw) as Hw'. unfold Get in *. destruct (lru_Get_spec k (inner c)) as [Hg _].
  destruct (lru_Get k (inner c)) as [[h|] l]; cbn [fst snd] in *.
  - destruct (inv_cached _ _ _ Hw _ _ (eq_sym Hg)) as (r & Hr & _).
    set (c1 := rc_inc h (set_inner l c)) in *. assert (ext c c1) as Hx by apply ext_inc.
    destruct (ext_heap _ _ Hx h r Hr) as (r' & Hr' & Hv). cbn [decreaseOnceFunc heap] in *. rewrite Hr' in *. cbn [fst snd] in Hw'. split_and!.
    + done.
    + eapply ext_trans; [exact Hx|]. apply ext_same_heap; [done|exists []; by rewrite app_nil_r].
    + by apply evicted_since_same.
    + exact (closure_gives c c1 h r' Hx eq_refl Hr').
  - split_and!; [done| |by apply evicted_since_same|done]. apply ext_same_heap; [done|exists []; by rewrite app_nil_r].
Qed.

Lemma Remove_known k c : wf c → let c' := Remove k c in wf c' ∧ ext c c' ∧ dones c' = dones c.
Proof.
  intros Hw c'. split; [by apply wf_Remove|]. unfold c', Remove. destruct (lru_Remove k (inner c)) as [ev l]. split.
  - eapply ext_trans; [|apply ext_finalize_all]. apply ext_same_heap; [done|exists []; by rewrite app_nil_r].
  - by rewrite dones_finalize_all.
Qed.

Lemma done_known d v c : wf c → ref_of c d v →
  let c' := call_done d c in wf c' ∧ ext c c' ∧ ∀ d' v', ref_of c' d' v' ↔ ref_of c d' v' ∧ d' ≠ d.
Proof.
  intros Hw (h & r & Hd & Hr & Hv) c'. split; [by apply wf_done|]. unfold c', call_done. rewrite Hd. set (c1 := mkCache _ _ _ _).
  assert (ext c c1) as Hx by (apply ext_same_heap; [done|exists []; by rewrite app_nil_r]). split; [eapply ext_trans; [exact Hx|apply ext_dec]|].
  intros d' v'. rewrite (ext_ref c1 (rc_dec h c1)) by (by rewrite ?dones_dec || apply ext_dec). destruct (decide (d' = d)) as [->|Hne].
  - split; [|by intros [_ ?]]. intros (h' & r' & Hd' & _). cbn [dones c1] in Hd'.
    rewrite list_lookup_insert_eq in Hd' by (by eapply lookup_lt_Some). done.
  - rewrite (ext_ref c c1) by (done || cbn [dones c1]; by rewrite list_lookup_insert_ne). naive_solver.
Qed.

(** [Add] of something that was never added before. *)
Lemma Add_known k v c : wf c → once c → ¬ known c v →
  let '(cached, d, added, c') := Add k v c in
  if added : bool then
    cached = v ∧ wf c' ∧ once c' ∧ gives c c' d v ∧ alive c' v ∧ (v ∉ evicted_since c c') ∧ NoDup (evicted_since c c') ∧
    (∀ w, known c' w ↔ known c w ∨ w = v) ∧ (∀ w, w ≠ v → alive c' w ↔ alive c w ∧ w ∉ evicted_since c c') ∧
    (∀ w, w ∈ evicted_since c c' → alive c w)
  else wf c' ∧ ext c c' ∧ evicted_since c c' = [] ∧ gives c c' d cached.
Proof.
  intros Hw Ho Hnew. pose proof (wf_Add k v c Hw) as Hw'. unfold Add in *. destruct (lru_Get_spec k (inner c)) as [Hg _].
  destruct (lru_Get k (inner c)) as [[h|] l]; cbn [fst snd] in *.
  - destruct (inv_cached _ _ _ Hw _ _ (eq_sym Hg)) as (r & Hr & _).
    set (c1 := rc_inc h (set_inner l c)) in *. assert (ext c c1) as Hx by apply ext_inc.
    destruct (ext_heap _ _ Hx h r Hr) as (r' & Hr' & Hv). cbn [decreaseOnceFunc heap] in *. rewrite Hr' in *. cbn [fst snd] in *. split_and!.
    + done.
    + eapply ext_trans; [exact Hx|]. apply ext_same_heap; [done|exists []; by rewrite app_nil_r].
    + by apply evicted_since_same.
    + exact (closure_gives c c1 h r' Hx eq_refl Hr').
  - set (h := length (heap (set_inner l c))) in *. set (c1 := mkCache (inner (set_inner l c)) _ _ _) in *. change (inner c1) with l in *.
    destruct (lru_Add k h l) as [ev l']. set (c2 := finalize_all ev (set_inner l' c1)) in *. cbn [decreaseOnceFunc fst snd] in *.
    set (c3 := mkCache (inner c2) _ _ _) in *.
    assert (ext c1 c2) as H12 by (eapply ext_trans; [|apply ext_finalize_all]; apply ext_same_heap; [done|exists []; by rewrite app_nil_r]).
    assert (ext c1 c3) as H13 by (eapply ext_trans; [exact H12|]; apply ext_same_heap; [done|exists []; by rewrite app_nil_r]).
    assert (dones c2 = dones c) as Hd2 by (unfold c2; by rewrite dones_finalize_all).
    assert (heap c1 !! h = Some (mkRC k v 2 false)) as Hh1 by (cbn [heap c1]; by rewrite lookup_app_r, Nat.sub_diag by (unfold h; cbn; lia)).
    change (length (heap c)) with h in *.
    assert (∀ i r, heap c1 !! i = Some r ↔ heap c !! i = Some r ∨ (i = h ∧ r = mkRC k v 2 false)) as Hheap1.
    { intros i r. cbn [heap c1 set_inner]. split.
      - intros Hi. destruct (decide (i < length (heap c))%nat); [left; by rewrite lookup_app_l in Hi|right].
        rewrite lookup_app_r in Hi by lia. apply list_lookup_singleton_Some in Hi as [? <-]. unfold h. cbn [heap set_inner]. split; [lia|done].
      - intros [Hi|[-> ->]]; [by apply lookup_app_l_Some|done]. }
    assert (once c1) as Ho1.
    { intros i j r r' [Hi|[-> ->]]%Hheap1 [Hj|[-> ->]]%Hheap1 Hv; [by eapply Ho|exfalso; apply Hnew; by exists i, r|exfalso; apply Hnew; exists j, r'; by rewrite <-Hv|done]. }
    assert (∀ w, known c1 w ↔ known c w ∨ w = v) as Hk1.
    { intros w. unfold known. setoid_rewrite Hheap1. naive_solver. }
    assert (∀ w, w ≠ v → alive c1 w ↔ alive c w) as Ha1.
    { intros w Hne. unfold alive. setoid_rewrite Hheap1. cbn [evicted c1]. naive_solver. }
    assert (evicted_since c c3 = evicted_since c1 c3) as Hes by done.
    destruct (ext_heap _ _ H13 h _ Hh1) as (r3 & Hr3 & Hv3). cbn [rc_v] in Hv3.
    assert (dones c3 !! length (dones c) = Some (h, false)) as Hd3 by (cbn [dones c3]; by rewrite Hd2, lookup_app_r, Nat.sub_diag by lia).
    assert (alive c3 v) as Hav by (exists h, r3; split_and!; [done..|]; by destruct (ref_not_evicted c3 _ h Hw' Hd3)).
    pose proof (ext_once _ _ H13 Ho1) as Ho3. split_and!; try done.
    + split.
      { intros (w & h' & r' & Hd' & _). rewrite Hd2 in Hd'. apply lookup_lt_Some in Hd'. lia. }
      intros d' v'. rewrite Hd2.
      assert (∀ d v, ref_of c1 d v ↔ ref_of c d v) as Hrefs.
      { intros d w. unfold ref_of. cbn [dones c1]. setoid_rewrite Hheap1. split; [|naive_solver].
        intros (i & r & Hd & [Hi|[-> ->]] & Hw1); [naive_solver|]. apply (inv_dones _ _ _ Hw h false) in Hd || (apply list_elem_of_lookup_2, (inv_dones _ _ _ Hw) in Hd).
        unfold h in Hd. cbn in Hd. lia. }
      destruct (ext_heap _ _ H12 h _ Hh1) as (r2 & Hr2 & Hv2). cbn [rc_v] in Hv2.
      destruct (closure_gives c1 c2 h r2 H12 Hd2 Hr2) as [_ Hgv]. cbn [dones c1] in Hgv. rewrite Hv2 in Hgv. rewrite <-Hrefs. apply Hgv.
    + rewrite Hes. apply (alive_ext c1 c3 v Hw' Ho1 H13). done.
    + by apply NoDup_evicted_since.
    + intros w. rewrite (ext_known c1 c3 w H13). apply Hk1.
    + intros w Hne. rewrite (alive_ext c1 c3 w Hw' Ho1 H13), (Ha1 w Hne), Hes. done.
    + intros w Hin. rewrite Hes in Hin. pose proof (evicted_since_alive c1 c3 w Hw' H13 Hin) as Hal.
      destruct (decide (w = v)) as [->|Hne]; [|by apply Ha1]. exfalso.
      by apply (alive_ext c1 c3 v Hw' Ho1 H13) in Hav as [_ ?].
Qed.
End lru_ops.

(** ** Who holds what

    A token is a thing that somebody has to release: a reference to a layer or to a blob, an
    open span cache, a blob or a layer that is not in its cache yet, a layer that was evicted
    and has to be closed. *)
Inductive token :=
| TLayer (d p : nat)
| TBlob (d b : nat)
| TCache (c : nat)
| TNewBlob (b : nat)
| TNewLayer (p : nat)
| TEvicted (p : nat).
Definition layer_tokens (l : layer) : list token := [TBlob (l_blobDone l) (l_blob l); TCache (l_spanCache l)].
Definition ref_token (r : layerRef) : token := TLayer (ref_done r) (ref_layer r).

Section invariant.
Context {E L Time : Type} `{HL : LRU L} `{HLL : !LRULaws L} `{HE : ResolverEnv E Time} `{HS : Store E} `{HP : PrefetchJSON}.
Context `{HT : GoTime Time} `{HD : Digester} `{HF : FlatbufZtoc} `{HG : GoSort}.
Abbreviation R := (resolver E L).
Implicit Types (s : R) (all toks : list token).

Definition is_open s (p : nat) : Prop := ∃ l, layers s !! p = Some l ∧ l_closed l = false.

(** Each token is held once, and the caches, layers, blobs and span caches are as the tokens
    say. *)
Record core all s : Prop := {
  co_lwf : LruCache.wf (layerCache s);
  co_bwf : LruCache.wf (blobCache s);
  co_lonce : once (layerCache s);
  co_bonce : once (blobCache s);
  co_nodup : NoDup all;
  co_lref d p : TLayer d p ∈ all ↔ ref_of (layerCache s) d p;
  co_bref d b : TBlob d b ∈ all ↔ ref_of (blobCache s) d b;
  co_cache c : TCache c ∈ all ↔ spanCaches s !! c = Some false;
  co_blob b : blobs s !! b = Some false ↔ alive (blobCache s) b ∨ TNewBlob b ∈ all;
  co_bnew b : TNewBlob b ∈ all → ¬ known (blobCache s) b;
  co_layer p : is_open s p ↔ alive (layerCache s) p ∨ TNewLayer p ∈ all ∨ TEvicted p ∈ all;
  co_lnew p : TNewLayer p ∈ all → ¬ known (layerCache s) p;
  co_lev p : TEvicted p ∈ all → known (layerCache s) p ∧ ¬ alive (layerCache s) p;
  co_lknown p : known (layerCache s) p → is_Some (layers s !! p);
  co_bknown b : known (blobCache s) b → is_Some (blobs s !! b);
  co_fresh p : (r_next s ≤ p)%nat → layers s !! p = None ∧ blobs s !! p = None ∧ spanCaches s !! p = None;
  co_closed p l : layers s !! p = Some l → l_closed l = true →
    spanCaches s !! l_spanCache l = Some true ∧ readers s !! l_spanCache l ≠ Some false
}.

Definition opened s (ol : list (nat * layer)) : Prop :=
  NoDup ol ∧ ∀ p l, (p, l) ∈ ol ↔ layers s !! p = Some l ∧ l_closed l = false.

(** The tokens of the layers that are open come on top of the ones the goroutines hold. *)
Definition inv toks s : Prop := ∃ ol, opened s ol ∧ core (toks ++ (ol ≫= λ x, layer_tokens x.2)) s.

Lemma core_perm all all' s : all ≡ₚ all' → core all s → core all' s.
Proof.
  intros Hp [H1 H2 H3 H4 H5 H6 H7 H8 H9 H10 H11 H12 H13 H14 H15 H16 H17]. assert (∀ t, t ∈ all ↔ t ∈ all') as Ht by (intros t; by rewrite Hp).
  split; try done; try (intros; rewrite <-?Ht; auto; fail); [by rewrite <-Hp|intros x Hx; rewrite <-Ht in Hx; by auto..].
Qed.
Lemma inv_perm toks toks' s : toks ≡ₚ toks' → inv toks s → inv toks' s.
Proof. intros Hp (ol & Ho & Hc). exists ol. split; [done|]. eapply core_perm; [|done]. by rewrite Hp. Qed.

Lemma core_env all s e : core all s → core all (set_env e s).
Proof. by intros []. Qed.
Lemma inv_env toks s e : inv toks s → inv toks (set_env e s).
Proof. intros (ol & Ho & Hc). exists ol. split; [done|by apply core_env]. Qed.

(** *** Blobs and span caches *)
Lemma close_blobs_spec bs s : let s' := close_blobs bs s in
  layerCache s' = layerCache s ∧ blobCache s' = blobCache s ∧ layers s' = layers s ∧ spanCaches s' = spanCaches s ∧ r_next s' = r_next s ∧
  (∀ b, blobs s' !! b = Some false ↔ blobs s !! b = Some false ∧ b ∉ bs) ∧ ∀ b, is_Some (blobs s' !! b) ↔ is_Some (blobs s !! b).
Proof.
  unfold close_blobs. revert s. induction bs as [|b bs IH]; intros s; cbn [foldl].
  { split_and!; try done. intros b. split; [|naive_solver]. intros Hb. split; [done|]. apply not_elem_of_nil. }
  destruct (IH (flip close_blob s b)) as (H1 & H2 & H3 & H4 & H5 & H6 & H7). cbn zeta.
  assert (∀ b', blobs (close_blob b s) !! b' = Some false ↔ blobs s !! b' = Some false ∧ b' ≠ b) as Hb.
  { intros b'. unfold close_blob. destruct (blobs s !! b) as [[]|] eqn:Eb; cbn [blobs set_env set_blobs].
    - naive_solver.
    - destruct (decide (b' = b)) as [->|]; [rewrite lookup_insert_eq; naive_solver|rewrite lookup_insert_ne by done; naive_solver].
    - naive_solver. }
  assert (layerCache (close_blob b s) = layerCache s ∧ blobCache (close_blob b s) = blobCache s ∧ layers (close_blob b s) = layers s ∧
    spanCaches (close_blob b s) = spanCaches s ∧ r_next (close_blob b s) = r_next s) as (G1 & G2 & G3 & G4 & G5).
  { unfold close_blob. by destruct (blobs s !! b) as [[]|]. }
  assert (∀ b', is_Some (blobs (close_blob b s) !! b') ↔ is_Some (blobs s !! b')) as Hs.
  { intros b'. unfold close_blob. destruct (blobs s !! b) as [[]|] eqn:Eb; cbn [blobs set_env set_blobs]; [done| |done].
    destruct (decide (b' = b)) as [->|]; [rewrite lookup_insert_eq, Eb; split; intros; by eexists|by rewrite lookup_insert_ne by done]. }
  unfold flip in *. split_and!; try congruence.
  - intros b'. rewrite H6, Hb, not_elem_of_cons. naive_solver.
  - intros b'. by rewrite H7, Hs.
Qed.

Lemma readers_close_blobs bs s : readers (close_blobs bs s) = readers s.
Proof.
  unfold close_blobs. revert s. induction bs as [|b bs IH]; intros s; [done|]. cbn [foldl]. rewrite IH. unfold flip, close_blob.
  by destruct (blobs s !! b) as [[]|].
Qed.

(** A call on the blob cache that evicts and changes references. *)
Lemma core_blob_op all all' s c' :
  core all s → LruCache.wf c' → once c' → NoDup all' →
  (∀ t, (∀ d b, t ≠ TBlob d b) → (∀ b, t ≠ TNewBlob b) → t ∈ all' ↔ t ∈ all) →
  (∀ d b, TBlob d b ∈ all' ↔ ref_of c' d b) →
  (∀ b, TNewBlob b ∈ all' → ¬ known c' b) →
  (∀ b, known c' b → is_Some (blobs s !! b)) →
  (∀ b, (blobs s !! b = Some false ∧ b ∉ evicted_since (blobCache s) c') ↔ alive c' b ∨ TNewBlob b ∈ all') →
  core all' (settle_blobs c' s).
Proof.
  intros [H1 H2 H3 H4 H5 H6 H7 H8 H9 H10 H11 H12 H13 H14 H15 H16 H17] Hw Ho Hnd Ht Hr Hn Hk Hb. unfold settle_blobs.
  destruct (close_blobs_spec (evicted_since (blobCache s) c') (set_blobCache c' s)) as (G1 & G2 & G3 & G4 & G5 & G6 & G7).
  set (s' := close_blobs _ _) in *. split; rewrite ?G1, ?G2; try done.
  - intros d p. rewrite Ht by done. apply H6.
  - intros c. rewrite Ht, G4 by done. apply H8.
  - intros b. rewrite G6. apply Hb.
  - intros p. unfold is_open. rewrite G3, !Ht by done. apply H11.
  - intros p. rewrite Ht by done. apply H12.
  - intros p. rewrite Ht by done. apply H13.
  - intros p. rewrite G3. apply H14.
  - intros b Hkb. apply G7, Hk, Hkb.
  - intros p. rewrite G5. intros Hp. destruct (H16 p Hp) as (K1 & K2 & K3). rewrite G3, G4. split_and!; [done| |done].
    apply eq_None_not_Some. rewrite G7. cbn [blobs set_blobCache]. by rewrite K2.
  - intros p l. unfold s'. rewrite readers_close_blobs. fold s'. rewrite G3, G4. apply H17.
Qed.

Lemma core_bref_new all s d c' b : core all s → gives (blobCache s) c' d b → TBlob d b ∉ all.
Proof. intros Hc [Hn _] Hin. apply Hn. exists b. by apply (co_bref _ _ Hc). Qed.

Lemma core_blob_ref all s c' d b : core all s → LruCache.wf c' → ext (blobCache s) c' → evicted_since (blobCache s) c' = [] →
  gives (blobCache s) c' d b → core (TBlob d b :: all) (settle_blobs c' s).
Proof.
  intros Hc Hw Hx He Hg. pose proof (core_bref_new all s d c' b Hc Hg) as Hnew. destruct Hg as [_ Hg].
  pose proof (alive_ext (blobCache s) c') as Hal. rewrite He in Hal. eapply core_blob_op; [exact Hc|done|..].
  - eapply ext_once; [exact Hx|apply Hc].
  - constructor; [done|apply Hc].
  - intros t Ht _. rewrite elem_of_cons. naive_solver.
  - intros d' b'. rewrite elem_of_cons, Hg, (co_bref _ _ Hc). naive_solver.
  - intros b'. rewrite elem_of_cons, (ext_known _ _ _ Hx). intros [[=]|Hin]. by apply (co_bnew _ _ Hc).
  - intros b'. rewrite (ext_known _ _ _ Hx). apply (co_bknown _ _ Hc).
  - intros b'. rewrite He, elem_of_cons, Hal by (done || apply Hc). rewrite (co_blob _ _ Hc). pose proof (not_elem_of_nil b'). naive_solver.
Qed.
Lemma core_blob_same all s c' : core all s → LruCache.wf c' → ext (blobCache s) c' → dones c' = dones (blobCache s) → core all (settle_blobs c' s).
Proof.
  intros Hc Hw Hx Hd. pose proof (alive_ext (blobCache s) c') as Hal. eapply core_blob_op; [exact Hc|done|..].
  - eapply ext_once; [exact Hx|apply Hc].
  - apply Hc.
  - done.
  - intros d' b'. rewrite (ext_ref _ _ _ _ Hx) by (by rewrite Hd). apply (co_bref _ _ Hc).
  - intros b'. rewrite (ext_known _ _ _ Hx). apply (co_bnew _ _ Hc).
  - intros b'. rewrite (ext_known _ _ _ Hx). apply (co_bknown _ _ Hc).
  - intros b'. rewrite Hal by (done || apply Hc). rewrite (co_blob _ _ Hc). pose proof (evicted_since_alive (blobCache s) c' b' Hw Hx) as Hev.
    pose proof (co_bnew _ _ Hc b') as Hn. assert (alive (blobCache s) b' → known (blobCache s) b') by (intros (h & r & ? & ? & ?); by exists h, r). naive_solver.
Qed.
Lemma core_blob_done all s d b : core (TBlob d b :: all) s → core all (blob_done d s).2.
Proof.
  intros Hc. assert (ref_of (blobCache s) d b) as Href by (apply (co_bref _ _ Hc); left). pose proof (co_nodup _ _ Hc) as Hnd.
  apply list.NoDup_cons in Hnd as [Hnot Hnd]. destruct (done_known d b (blobCache s) (co_bwf _ _ Hc) Href) as (Hw & Hx & Hr).
  unfold blob_done. cbn [snd]. set (c' := call_done d (blobCache s)) in *. pose proof (alive_ext (blobCache s) c') as Hal. eapply core_blob_op; [exact Hc|done|..].
  - eapply ext_once; [exact Hx|apply Hc].
  - done.
  - intros t Ht _. rewrite elem_of_cons. naive_solver.
  - intros d' b'. rewrite Hr, <-(co_bref _ _ Hc), elem_of_cons. split.
    + intros Hin. split; [by right|]. intros ->. assert (ref_of (blobCache s) d b') by (apply (co_bref _ _ Hc); by right).
      by rewrite (ref_of_fun _ _ _ _ Href H) in Hnot.
    + naive_solver.
  - intros b' Hin. rewrite (ext_known _ _ _ Hx). apply (co_bnew _ _ Hc). by right.
  - intros b'. rewrite (ext_known _ _ _ Hx). apply (co_bknown _ _ Hc).
  - intros b'. rewrite Hal by (done || apply Hc). rewrite (co_blob _ _ Hc), elem_of_cons. pose proof (evicted_since_alive (blobCache s) c' b' Hw Hx) as Hev.
    pose proof (co_bnew _ _ Hc b') as Hn. rewrite elem_of_cons in Hn.
    assert (alive (blobCache s) b' → known (blobCache s) b') by (intros (h & r & ? & ? & ?); by exists h, r). naive_solver.
Qed.

Lemma core_blob_Get all s name : core all s →
  match blobCache_Get name s with
  | (Ok (Some (b, d)), s') => core (TBlob d b :: all) s'
  | (_, s') => core all s'
  end.
Proof.
  intros Hc. unfold blobCache_Get. pose proof (Get_known name (blobCache s) (co_bwf _ _ Hc) (co_bonce _ _ Hc)) as Hg.
  destruct (Get name (blobCache s)) as [[[b d]|] c']; [destruct Hg as (Hw & Hx & He & Hg); by apply core_blob_ref|].
  destruct Hg as (Hw & Hx & He & Hd). by apply core_blob_same.
Qed.
Lemma core_blob_Remove all s name : core all s → core all (blobCache_Remove name s).2.
Proof.
  intros Hc. unfold blobCache_Remove. destruct (Remove_known name (blobCache s) (co_bwf _ _ Hc)) as (Hw & Hx & Hd). by apply core_blob_same.
Qed.
Lemma core_blob_Add all s name b : core (TNewBlob b :: all) s →
  match blobCache_Add name b s with
  | (Ok (cached, d, true), s') => cached = b ∧ core (TBlob d b :: all) s'
  | (Ok (cached, d, false), s') => core (TBlob d cached :: TNewBlob b :: all) s'
  | _ => False
  end.
Proof.
  intros Hc. assert (¬ known (blobCache s) b) as Hnk by (apply (co_bnew _ _ Hc); left). unfold blobCache_Add.
  pose proof (Add_known name b (blobCache s) (co_bwf _ _ Hc) (co_bonce _ _ Hc) Hnk) as Ha.
  destruct (Add name b (blobCache s)) as [[[cached d] added] c']. destruct added; [|destruct Ha as (Hw & Hx & He & Hg); by apply core_blob_ref].
  destruct Ha as (-> & Hw & Ho & Hg & Halive & Hnin & Hnd & Hk & Hal & Hev). split; [done|].
  pose proof (core_bref_new _ s d c' b Hc Hg) as Hnew. destruct Hg as [_ Hg]. pose proof (co_nodup _ _ Hc) as Hnd0. apply list.NoDup_cons in Hnd0 as [Hnb Hnd0].
  eapply core_blob_op; [exact Hc|done|done|..].
  - constructor; [|done]. intros ?. apply Hnew. by right.
  - intros t Ht Hn. rewrite !elem_of_cons. naive_solver.
  - intros d' b'. rewrite elem_of_cons, Hg, <-(co_bref _ _ Hc), elem_of_cons. naive_solver.
  - intros b'. rewrite elem_of_cons, Hk. intros [[=]|Hin]. intros [Hkb| ->]; [|done]. eapply (co_bnew _ _ Hc); [by right|done].
  - intros b'. rewrite Hk. intros [Hkb| ->]; [by apply (co_bknown _ _ Hc)|]. exists false. apply (co_blob _ _ Hc). right. left.
  - intros b'. rewrite (co_blob _ _ Hc), !elem_of_cons. destruct (decide (b' = b)) as [->|Hne].
    + split; [by left|]. intros _. split; [by right; left|done].
    + rewrite (Hal b' Hne). pose proof (Hev b') as Hev'. pose proof (co_bnew _ _ Hc b') as Hn. rewrite elem_of_cons in Hn.
      assert (alive (blobCache s) b' → known (blobCache s) b') by (intros (h & r & ? & ? & ?); by exists h, r). naive_solver.
Qed.

Lemma core_new_blob all s : core all s →
  core (TNewBlob (r_next s) :: all) (bump_next (set_blobs (<[r_next s := false]> (blobs s)) s)).
Proof.
  intros Hc. destruct Hc as [H1 H2 H3 H4 H5 H6 H7 H8 H9 H10 H11 H12 H13 H14 H15 H16 H17]. destruct (H16 (r_next s) ltac:(lia)) as (F1 & F2 & F3).
  assert (¬ known (blobCache s) (r_next s)) as Hnk by (intros [x Hx]%H15; congruence).
  assert (TNewBlob (r_next s) ∉ all) as Hnew by (intros Hin; assert (blobs s !! r_next s = Some false) by (apply H9; by right); congruence).
  split; cbn [layerCache blobCache layers blobs spanCaches r_next bump_next set_blobs]; try done.
  - by constructor.
  - intros d p. rewrite elem_of_cons, <-H6. naive_solver.
  - intros d p. rewrite elem_of_cons, <-H7. naive_solver.
  - intros c. rewrite elem_of_cons, <-H8. naive_solver.
  - intros b. rewrite elem_of_cons. destruct (decide (b = r_next s)) as [->|Hne]; [rewrite lookup_insert_eq; naive_solver|].
    rewrite lookup_insert_ne, H9 by done. naive_solver.
  - intros b. rewrite elem_of_cons. intros [[= ->]|Hin]; auto.
  - intros p. rewrite !elem_of_cons. rewrite (H11 p). naive_solver.
  - intros p. rewrite elem_of_cons. intros [[=]|Hin]; auto.
  - intros p. rewrite elem_of_cons. intros [[=]|Hin]; auto.
  - intros b Hk. apply lookup_insert_is_Some'. auto.
  - intros p Hp. destruct (H16 p ltac:(lia)) as (K1 & K2 & K3). rewrite lookup_insert_ne by lia. done.
Qed.

Lemma core_close_blob all s b : core (TNewBlob b :: all) s → core all (close_blob b s).
Proof.
  intros Hc. assert (¬ known (blobCache s) b) as Hnk by (apply (co_bnew _ _ Hc); left).
  assert (blobs s !! b = Some false) as Hb by (apply (co_blob _ _ Hc); right; left).
  destruct Hc as [H1 H2 H3 H4 H5 H6 H7 H8 H9 H10 H11 H12 H13 H14 H15 H16 H17]. apply list.NoDup_cons in H5 as [Hnot H5].
  unfold close_blob. rewrite Hb. split; cbn [layerCache blobCache layers blobs spanCaches r_next set_env set_blobs]; try done.
  - intros d p. rewrite <-H6, elem_of_cons. naive_solver.
  - intros d p. rewrite <-H7, elem_of_cons. naive_solver.
  - intros c. rewrite <-H8, elem_of_cons. naive_solver.
  - intros b'. destruct (decide (b' = b)) as [->|Hne].
    + rewrite lookup_insert_eq. split; [done|]. intros [(h & r & Hr & Hv & _)|Hin]; [|done]. exfalso. apply Hnk. by exists h, r.
    + rewrite lookup_insert_ne, H9, elem_of_cons by done. naive_solver.
  - intros b' Hin. apply H10. by right.
  - intros p. rewrite (H11 p), !elem_of_cons. naive_solver.
  - intros p Hin. apply H12. by right.
  - intros p Hin. apply H13. by right.
  - intros b' Hk. apply lookup_insert_is_Some'. auto.
  - intros p Hp. destruct (H16 p Hp) as (K1 & K2 & K3). rewrite lookup_insert_ne by (intros ->; congruence). done.
Qed.

Lemma core_new_cache all s : core all s →
  core (TCache (r_next s) :: all) (bump_next (set_spanCaches (<[r_next s := false]> (spanCaches s)) s)).
Proof.
  intros Hc. destruct Hc as [H1 H2 H3 H4 H5 H6 H7 H8 H9 H10 H11 H12 H13 H14 H15 H16 H17]. destruct (H16 (r_next s) ltac:(lia)) as (F1 & F2 & F3).
  assert (TCache (r_next s) ∉ all) as Hnew by (intros Hin%H8; congruence).
  split; cbn [layerCache blobCache layers blobs spanCaches r_next bump_next set_spanCaches]; try done.
  - by constructor.
  - intros d p. rewrite elem_of_cons, <-H6. naive_solver.
  - intros d p. rewrite elem_of_cons, <-H7. naive_solver.
  - intros c. rewrite elem_of_cons. destruct (decide (c = r_next s)) as [->|Hne]; [rewrite lookup_insert_eq; naive_solver|].
    rewrite lookup_insert_ne, <-H8 by done. naive_solver.
  - intros b. rewrite elem_of_cons, H9. naive_solver.
  - intros b. rewrite elem_of_cons. intros [[=]|Hin]; auto.
  - intros p. rewrite !elem_of_cons. rewrite (H11 p). naive_solver.
  - intros p. rewrite elem_of_cons. intros [[=]|Hin]; auto.
  - intros p. rewrite elem_of_cons. intros [[=]|Hin]; auto.
  - intros p Hp. destruct (H16 p ltac:(lia)) as (K1 & K2 & K3). rewrite lookup_insert_ne by lia. done.
  - intros p l Hl Hcl. destruct (H17 p l Hl Hcl) as [Hs Hr]. split; [|done]. rewrite lookup_insert_ne; [done|]. intros Heq. rewrite Heq in F3. congruence.
Qed.

Lemma core_close_cache all s c : core (TCache c :: all) s → core all (close_spanCache c s).
Proof.
  intros Hc. assert (spanCaches s !! c = Some false) as Hb by (apply (co_cache _ _ Hc); left).
  destruct Hc as [H1 H2 H3 H4 H5 H6 H7 H8 H9 H10 H11 H12 H13 H14 H15 H16 H17]. apply list.NoDup_cons in H5 as [Hnot H5].
  unfold close_spanCache. rewrite Hb. split; cbn [layerCache blobCache layers blobs spanCaches r_next set_env set_spanCaches]; try done.
  - intros d p. rewrite <-H6, elem_of_cons. naive_solver.
  - intros d p. rewrite <-H7, elem_of_cons. naive_solver.
  - intros c'. destruct (decide (c' = c)) as [->|Hne]; [rewrite lookup_insert_eq; naive_solver|].
    rewrite lookup_insert_ne, <-H8, elem_of_cons by done. naive_solver.
  - intros b'. rewrite H9, elem_of_cons. naive_solver.
  - intros b' Hin. apply H10. by right.
  - intros p. rewrite (H11 p), !elem_of_cons. naive_solver.
  - intros p Hin. apply H12. by right.
  - intros p Hin. apply H13. by right.
  - intros p Hp. destruct (H16 p Hp) as (K1 & K2 & K3). rewrite lookup_insert_ne by (intros ->; congruence). done.
  - intros p l Hl Hcl. destruct (H17 p l Hl Hcl) as [Hs Hr]. split; [|done].
    destruct (decide (c = l_spanCache l)) as [->|]; [by rewrite lookup_insert_eq|by rewrite lookup_insert_ne].
Qed.

(** *** Layers

    A layer that is no longer in the cache is marked as closed. *)
Lemma core_mark_closed all s p l l' t : t = TNewLayer p ∨ t = TEvicted p → layers s !! p = Some l → l_closed l' = true →
  spanCaches s !! l_spanCache l' = Some true → readers s !! l_spanCache l' ≠ Some false →
  core (t :: all) s → core all (set_layers (<[p := l']> (layers s)) s).
Proof.
  intros Ht Hl Hl' Hsp Hrd Hc. assert (¬ alive (layerCache s) p) as Hna.
  { destruct Ht as [-> | ->].
    - intros (h & r & Hr & Hv & _). eapply (co_lnew _ _ Hc); [left|]. by exists h, r.
    - eapply (co_lev _ _ Hc). left. }
  assert ((TNewLayer p ∉ all) ∧ (TEvicted p ∉ all)) as [Hn1 Hn2].
  { pose proof (co_nodup _ _ Hc) as Hnd. apply list.NoDup_cons in Hnd as [Hnot _]. destruct Ht as [-> | ->]; (split; [|]); intros Hin; try done.
    - eapply (co_lnew _ _ Hc); [left|]. eapply (co_lev _ _ Hc). by right.
    - eapply (co_lnew _ _ Hc); [by right|]. eapply (co_lev _ _ Hc). left. }
  assert (∀ t', t' ∈ all → t' ∈ t :: all) as Hsub by (intros; by right).
  assert (∀ t', t' ≠ t → t' ∈ t :: all → t' ∈ all) as Hback by (intros t' ? [?|?]%elem_of_cons; naive_solver).
  destruct Hc as [H1 H2 H3 H4 H5 H6 H7 H8 H9 H10 H11 H12 H13 H14 H15 H16 H17]. apply list.NoDup_cons in H5 as [Hnot H5].
  split; cbn [layerCache blobCache layers blobs spanCaches r_next set_layers]; try done.
  - intros d p'. rewrite <-H6. split; [auto|]. apply Hback. destruct Ht as [-> | ->]; done.
  - intros d p'. rewrite <-H7. split; [auto|]. apply Hback. destruct Ht as [-> | ->]; done.
  - intros c'. rewrite <-H8. split; [auto|]. apply Hback. destruct Ht as [-> | ->]; done.
  - intros b'. rewrite H9. assert (TNewBlob b' ≠ t) by (destruct Ht as [-> | ->]; done). split; (intros [?|?]; [by left|right; by auto]).
  - auto.
  - intros p'. unfold is_open. cbn [layers set_layers]. destruct (decide (p' = p)) as [->|Hne].
    + rewrite lookup_insert_eq. split; [|by intros [?|[?|?]]]. intros (l0 & [= <-] & ?). congruence.
    + rewrite lookup_insert_ne by done. fold (is_open s p'). rewrite (H11 p').
      assert (TNewLayer p' ≠ t ∧ TEvicted p' ≠ t) as [N1 N2] by (destruct Ht as [-> | ->]; split; congruence).
      split; (intros [?|[?|?]]; [by left|right; left; by auto|right; right; by auto]).
  - auto.
  - auto.
  - intros p' Hk. apply lookup_insert_is_Some'. auto.
  - intros p' Hp. destruct (H16 p' Hp) as (K1 & K2 & K3). rewrite lookup_insert_ne by (intros ->; congruence). done.
  - intros p' l0. destruct (decide (p = p')) as [->|Hne]; [rewrite lookup_insert_eq; by intros [= <-] _|].
    rewrite lookup_insert_ne by done. apply H17.
Qed.

Lemma layers_settle_blobs c' s : layers (settle_blobs c' s) = layers s.
Proof. unfold settle_blobs. by destruct (close_blobs_spec (evicted_since (blobCache s) c') (set_blobCache c' s)) as (_ & _ & -> & _). Qed.
Lemma layers_close_cache c s : layers (close_spanCache c s) = layers s.
Proof. unfold close_spanCache. by destruct (spanCaches s !! c) as [[]|]. Qed.

(** *** Metadata readers *)
Lemma core_open_reader all s c : TCache c ∈ all → core all s → core all (set_readers (<[c := false]> (readers s)) s).
Proof.
  intros Hin Hc. pose proof Hc as [H1 H2 H3 H4 H5 H6 H7 H8 H9 H10 H11 H12 H13 H14 H15 H16 H17]. apply H8 in Hin.
  split; try done. intros p l Hl Hcl. destruct (H17 p l Hl Hcl) as [Hs Hr]. split; [done|]. cbn [readers set_readers].
  rewrite lookup_insert_ne; [done|]. intros Heq. rewrite Heq in Hin. congruence.
Qed.
Lemma core_close_reader all s c : core all s → core all (close_reader c s).
Proof.
  intros Hc. unfold close_reader. destruct (readers s !! c) as [[]|] eqn:Er; [done| |done].
  destruct Hc as [H1 H2 H3 H4 H5 H6 H7 H8 H9 H10 H11 H12 H13 H14 H15 H16 H17]. split; try done.
  intros p l Hl Hcl. destruct (H17 p l Hl Hcl) as [Hs Hr]. split; [done|]. cbn [readers set_readers set_env].
  destruct (decide (c = l_spanCache l)) as [->|]; [by rewrite lookup_insert_eq|by rewrite lookup_insert_ne].
Qed.
Lemma close_reader_closed c s : readers (close_reader c s) !! c ≠ Some false.
Proof.
  unfold close_reader. destruct (readers s !! c) as [[]|] eqn:Er; [by rewrite Er| |by rewrite Er].
  cbn [readers set_readers set_env]. by rewrite lookup_insert_eq.
Qed.
Lemma close_reader_same c s : layers (close_reader c s) = layers s ∧ spanCaches (close_reader c s) = spanCaches s.
Proof. unfold close_reader. by destruct (readers s !! c) as [[]|]. Qed.
Lemma close_cache_closed c s : is_Some (spanCaches s !! c) → spanCaches (close_spanCache c s) !! c = Some true.
Proof.
  intros [x Hx]. unfold close_spanCache. rewrite Hx. destruct x; [done|]. cbn [spanCaches set_spanCaches set_env].
  by rewrite lookup_insert_eq.
Qed.

(** Closing what is below a layer and marking the layer can be done in either order. *)
Lemma close_below_mark m c s : close_reader c (close_spanCache c (set_layers m s)) = set_layers m (close_reader c (close_spanCache c s)).
Proof.
  unfold close_reader, close_spanCache. cbn [spanCaches set_layers].
  destruct (spanCaches s !! c) as [[]|]; cbn [readers set_layers set_env set_spanCaches]; by destruct (readers s !! c) as [[]|].
Qed.

Lemma inv_layer_close toks s p t : t = TNewLayer p ∨ t = TEvicted p → inv (t :: toks) s → inv toks (layer_close p s).
Proof.
  intros Ht (ol & [Hnd Hol] & Hc). assert (is_open s p) as (l & Hl & Hcl).
  { apply (co_layer _ _ Hc). right. destruct Ht as [-> | ->]; [left|right]; left. }
  assert ((p, l) ∈ ol) as Hin by (by apply Hol). apply elem_of_Permutation in Hin as [ol' Hp].
  unfold layer_close. rewrite Hl, Hcl. set (l' := mkLayer _ _ _ _ _ _ _ true). set (c := l_spanCache l).
  set (s0 := if l_bgResolver l then set_env (bgResolver_close c (r_env s)) s else s).
  assert ((if l_bgResolver l then set_env (bgResolver_close c (r_env (set_layers (<[p:=l']> (layers s)) s))) (set_layers (<[p:=l']> (layers s)) s)
    else set_layers (<[p:=l']> (layers s)) s) = set_layers (<[p:=l']> (layers s0)) s0) as -> by (unfold s0; by destruct (l_bgResolver l)).
  rewrite close_below_mark. assert (layers s0 = layers s) as Hs0 by (unfold s0; by destruct (l_bgResolver l)).
  assert (∀ all, core all s → core all s0) as Hcs0 by (intros all ?; unfold s0; destruct (l_bgResolver l); [by apply core_env|done]).
  set (s2 := close_reader c (close_spanCache c s0)).
  assert (layers s2 = layers s) as Hs2 by (unfold s2; destruct (close_reader_same c (close_spanCache c s0)) as [-> _]; by rewrite layers_close_cache).
  exists ol'. rewrite Hp in Hnd. apply list.NoDup_cons in Hnd as [Hnot Hnd]. split.
  - unfold blob_done. cbn [snd]. split; [done|]. intros p' l0. rewrite layers_settle_blobs. cbn [layers set_layers]. rewrite Hs0.
    assert ((p', l0) ∈ ol' ↔ (p', l0) ∈ ol ∧ p' ≠ p) as ->.
    { rewrite Hp, elem_of_cons. split; [|intros [[[= -> ->]|?] ?]; done]. intros Hin. split; [by right|]. intros ->.
      assert ((p, l0) ∈ ol) as Hin0 by (rewrite Hp; by right). apply Hol in Hin0 as [Hl0 _]. assert (l0 = l) by congruence. by subst. }
    rewrite Hol. destruct (decide (p' = p)) as [->|Hne].
    + rewrite lookup_insert_eq. split; [by intros [_ ?]|]. intros [[= <-] ?]. done.
    + rewrite lookup_insert_ne by done. split; [by intros [? _]|done].
  - apply (core_blob_done _ _ (l_blobDone l) (l_blob l)). rewrite Hs0, <-Hs2.
    apply (core_perm _ (TCache c :: t :: TBlob (l_blobDone l) (l_blob l) :: toks ++ (ol' ≫= λ x, layer_tokens x.2))) in Hc.
    2: { rewrite Hp. cbn [mbind list_bind layer_tokens snd app].
      change (TBlob (l_blobDone l) (l_blob l) :: TCache (l_spanCache l) :: ?r) with ([TBlob (l_blobDone l) (l_blob l); TCache (l_spanCache l)] ++ r).
      rewrite (Permutation_app_swap_app toks). cbn [app]. rewrite (perm_swap _ (TBlob _ _)). by rewrite perm_swap. }
    assert (is_Some (spanCaches s0 !! c)) as Hsp.
    { exists false. apply (co_cache _ _ (Hcs0 _ Hc)). left. }
    eapply core_mark_closed; [exact Ht|by rewrite Hs2|done| |apply close_reader_closed|by apply core_close_reader, core_close_cache, Hcs0].
    unfold s2. destruct (close_reader_same c (close_spanCache c s0)) as [_ ->]. by apply close_cache_closed.
Qed.

Lemma alive_known (c : Cache L nat) v : alive c v → known c v.
Proof. intros (h & r & ? & ? & _). by exists h, r. Qed.

(** A call on the layer cache: what it evicts has to be closed. *)
Lemma core_layer_op all all' s c' :
  core all s → LruCache.wf c' → once c' → NoDup all' →
  (∀ d b, TBlob d b ∈ all' ↔ TBlob d b ∈ all) → (∀ c, TCache c ∈ all' ↔ TCache c ∈ all) → (∀ b, TNewBlob b ∈ all' ↔ TNewBlob b ∈ all) →
  (∀ d p, TLayer d p ∈ all' ↔ ref_of c' d p) → (∀ p, TNewLayer p ∈ all' → ¬ known c' p) →
  (∀ p, TEvicted p ∈ all' → known c' p ∧ ¬ alive c' p) → (∀ p, known c' p → is_Some (layers s !! p)) →
  (∀ p, is_open s p ↔ alive c' p ∨ TNewLayer p ∈ all' ∨ TEvicted p ∈ all') →
  core all' (set_layerCache c' s).
Proof.
  intros [H1 H2 H3 H4 H5 H6 H7 H8 H9 H10 H11 H12 H13 H14 H15 H16 H17] Hw Ho Hnd T1 T2 T3 Hr Hn He Hk Hop. split; try done.
  - intros d b. rewrite T1. apply H7.
  - intros c. rewrite T2. apply H8.
  - intros b. rewrite T3. apply H9.
  - intros b. rewrite T3. apply H10.
Qed.

Lemma elem_evicted_tokens t (evs : list nat) all : t ∈ (TEvicted <$> evs) ++ all ↔ (∃ p, t = TEvicted p ∧ p ∈ evs) ∨ t ∈ all.
Proof. rewrite elem_of_app, list_elem_of_fmap. done. Qed.
Lemma nodup_evicted all s evs : core all s → NoDup evs → (∀ p, p ∈ evs → alive (layerCache s) p) → NoDup ((TEvicted <$> evs) ++ all).
Proof.
  intros Hc Hn Ha. apply list.NoDup_app. split_and!; [|intros t Ht Hin|apply Hc].
  - apply NoDup_fmap_2; [by intros ?? [=]|done].
  - apply list_elem_of_fmap in Ht as (p & -> & Hp). by apply (co_lev _ _ Hc) in Hin as [_ []]; auto.
Qed.

(** The references change as [refs] says; the rest is as the cache leaves it. *)
Lemma core_layer_refs all all0 s c' : core all s → LruCache.wf c' → ext (layerCache s) c' → NoDup all0 →
  (∀ t, (∀ d p, t ≠ TLayer d p) → t ∈ all0 ↔ t ∈ all) → (∀ d p, TLayer d p ∈ all0 ↔ ref_of c' d p) →
  core ((TEvicted <$> evicted_since (layerCache s) c') ++ all0) (set_layerCache c' s).
Proof.
  intros Hc Hw Hx Hnd Ht Hr. pose proof (alive_ext (layerCache s) c') as Hal. pose proof (ext_once _ _ Hx (co_lonce _ _ Hc)) as Ho.
  pose proof (λ p, evicted_since_alive (layerCache s) c' p Hw Hx) as Hev. set (evs := evicted_since (layerCache s) c') in *.
  eapply core_layer_op; [exact Hc|done|done|..].
  - apply list.NoDup_app. split_and!; [apply NoDup_fmap_2; [by intros ?? [=]|by apply NoDup_evicted_since]| |done].
    intros t Hin Ha. apply list_elem_of_fmap in Hin as (p & -> & Hp). apply Ht in Ha; [|done]. by apply (co_lev _ _ Hc) in Ha as [_ []]; auto.
  - intros d b. rewrite elem_evicted_tokens, Ht by done. naive_solver.
  - intros c. rewrite elem_evicted_tokens, Ht by done. naive_solver.
  - intros b. rewrite elem_evicted_tokens, Ht by done. naive_solver.
  - intros d p. rewrite elem_evicted_tokens, Hr. naive_solver.
  - intros p. rewrite elem_evicted_tokens, Ht, (ext_known _ _ _ Hx) by done. intros [(q & [=] & _)|Hin]. by apply (co_lnew _ _ Hc).
  - intros p. rewrite elem_evicted_tokens, Ht, (ext_known _ _ _ Hx), Hal by (done || apply Hc).
    intros [(q & [= <-] & Hq)|Hin]; [split; [by apply alive_known, Hev|naive_solver]|]. destruct (co_lev _ _ Hc p Hin). naive_solver.
  - intros p. rewrite (ext_known _ _ _ Hx). apply (co_lknown _ _ Hc).
  - intros p. rewrite !elem_evicted_tokens, !Ht, Hal, (co_layer _ _ Hc) by (done || apply Hc). split.
    + intros [Ha|[Hn|He]]; [|right; left; by right|right; right; by right].
      destruct (decide (p ∈ evs)); [right; right; left; by exists p|by left].
    + intros [[Ha _]|[[(q & [=] & _)|Hn]|[(q & [= <-] & Hq)|He]]]; [by left|right; by left|left; by apply Hev|right; by right].
Qed.

Lemma inv_close_layers evs toks s : inv ((TEvicted <$> evs) ++ toks) s → inv toks (close_layers evs s).
Proof.
  unfold close_layers. revert s. induction evs as [|p evs IH]; intros s Hi; [done|]. cbn [foldl]. apply IH. unfold flip.
  eapply inv_layer_close; [by right|exact Hi].
Qed.
Lemma inv_settle toks toks0 s c' : inv toks s →
  (∀ rest, core (toks ++ rest) s → core ((TEvicted <$> evicted_since (layerCache s) c') ++ toks0 ++ rest) (set_layerCache c' s)) →
  inv toks0 (settle_layers c' s).
Proof. intros (ol & Ho & Hc) Hstep. apply inv_close_layers. exists ol. split; [done|]. rewrite <-app_assoc. by apply Hstep. Qed.

Lemma inv_layer_ref toks s c' d p : inv toks s → LruCache.wf c' → ext (layerCache s) c' → gives (layerCache s) c' d p →
  inv (TLayer d p :: toks) (settle_layers c' s).
Proof.
  intros Hi Hw Hx [Hn Hg]. eapply inv_settle; [exact Hi|]. intros rest Hc. eapply core_layer_refs; [exact Hc|done|done|..].
  - constructor; [|apply Hc]. intros Hin. apply Hn. exists p. by apply (co_lref _ _ Hc).
  - intros t Ht. cbn [app]. rewrite elem_of_cons. naive_solver.
  - intros d' p'. cbn [app]. rewrite elem_of_cons, Hg, (co_lref _ _ Hc). naive_solver.
Qed.
Lemma inv_layer_Get toks s name : inv toks s →
  match layerCache_Get name s with
  | (Ok (Some (p, d)), s') => inv (TLayer d p :: toks) s'
  | (_, s') => inv toks s'
  end.
Proof.
  intros Hi. pose proof Hi as (ol & _ & Hc0). unfold layerCache_Get.
  pose proof (Get_known name (layerCache s) (co_lwf _ _ Hc0) (co_lonce _ _ Hc0)) as Hg.
  destruct (Get name (layerCache s)) as [[[p d]|] c']; destruct Hg as (Hw & Hx & He & Hg); [by apply inv_layer_ref|].
  eapply inv_settle; [exact Hi|]. intros rest Hc. eapply core_layer_refs; [exact Hc|done|done|apply Hc|done|].
  intros d' p'. rewrite (ext_ref _ _ _ _ Hx) by (by rewrite Hg). apply (co_lref _ _ Hc).
Qed.
Lemma inv_layer_Remove toks s name : inv toks s → inv toks (layerCache_Remove name s).2.
Proof.
  intros Hi. pose proof Hi as (ol & _ & Hc0). unfold layerCache_Remove. cbn [snd].
  destruct (Remove_known name (layerCache s) (co_lwf _ _ Hc0)) as (Hw & Hx & Hd).
  eapply inv_settle; [exact Hi|]. intros rest Hc. eapply core_layer_refs; [exact Hc|done|done|apply Hc|done|].
  intros d' p'. rewrite (ext_ref _ _ _ _ Hx) by (by rewrite Hd). apply (co_lref _ _ Hc).
Qed.
Lemma inv_layer_done toks s d p : inv (TLayer d p :: toks) s → inv toks (layer_done d s).2.
Proof.
  intros Hi. pose proof Hi as (ol & _ & Hc0). unfold layer_done. cbn [snd].
  assert (ref_of (layerCache s) d p) as Href by (apply (co_lref _ _ Hc0); left).
  destruct (done_known d p (layerCache s) (co_lwf _ _ Hc0) Href) as (Hw & Hx & Hr).
  eapply inv_settle; [exact Hi|]. intros rest Hc. pose proof (co_nodup _ _ Hc) as Hnd. cbn [app] in Hnd. apply list.NoDup_cons in Hnd as [Hnot Hnd].
  eapply core_layer_refs; [exact Hc|done|done|done|..].
  - intros t Ht. cbn [app]. rewrite elem_of_cons. naive_solver.
  - intros d' p'. rewrite Hr, <-(co_lref _ _ Hc). cbn [app]. rewrite elem_of_cons. split; [|naive_solver].
    intros Hin. split; [by right|]. intros ->. assert (ref_of (layerCache s) d p') as Hr' by (apply (co_lref _ _ Hc); by right).
    by rewrite (ref_of_fun _ _ _ _ Href Hr') in Hnot.
Qed.

Lemma inv_layer_Add toks s name p : inv (TNewLayer p :: toks) s →
  match layerCache_Add name p s with
  | (Ok (cached, d, true), s') => cached = p ∧ inv (TLayer d p :: toks) s'
  | (Ok (cached, d, false), s') => inv (TLayer d cached :: TNewLayer p :: toks) s'
  | _ => False
  end.
Proof.
  intros Hi. pose proof Hi as (ol & _ & Hc0). assert (¬ known (layerCache s) p) as Hnk by (apply (co_lnew _ _ Hc0); left). unfold layerCache_Add.
  pose proof (Add_known name p (layerCache s) (co_lwf _ _ Hc0) (co_lonce _ _ Hc0) Hnk) as Ha.
  destruct (Add name p (layerCache s)) as [[[cached d] added] c']. destruct added; [|destruct Ha as (Hw & Hx & He & Hg); by apply inv_layer_ref].
  destruct Ha as (-> & Hw & Ho & [Hn Hg] & Halive & Hnin & Hnd & Hk & Hal & Hev). split; [done|]. clear Hc0.
  eapply inv_settle; [exact Hi|]. intros rest Hc. cbn [app] in *. set (all := toks ++ rest) in *. set (evs := evicted_since (layerCache s) c') in *.
  pose proof (co_nodup _ _ Hc) as Hnd0. apply list.NoDup_cons in Hnd0 as [Hnp Hnd0]. eapply core_layer_op; [exact Hc|done|done|..].
  - apply list.NoDup_app. split_and!; [by apply NoDup_fmap_2; [intros ?? [=]|]| |].
    + intros t Hin [->|Ha]%elem_of_cons; apply list_elem_of_fmap in Hin as (q & Hq & Hin); [done|]. subst t.
      destruct (co_lev _ _ Hc q ltac:(by right)) as [_ []]. by apply Hev.
    + constructor; [|done]. intros Hin. apply Hn. exists p. apply (co_lref _ _ Hc). by right.
  - intros d' b. rewrite elem_evicted_tokens, !elem_of_cons. naive_solver.
  - intros c. rewrite elem_evicted_tokens, !elem_of_cons. naive_solver.
  - intros b. rewrite elem_evicted_tokens, !elem_of_cons. naive_solver.
  - intros d' p'. rewrite elem_evicted_tokens, elem_of_cons, Hg, <-(co_lref _ _ Hc), elem_of_cons. naive_solver.
  - intros q. rewrite elem_evicted_tokens, elem_of_cons, Hk. intros [(? & [=] & _)|[[=]|Hin]] [Hkq| ->]; [|done].
    eapply (co_lnew _ _ Hc); [by right|done].
  - intros q. rewrite elem_evicted_tokens, elem_of_cons, Hk. intros [(? & [= <-] & Hq)|[[=]|Hin]].
    + assert (q ≠ p) as Hne by (by intros ->). rewrite (Hal q Hne). split; [left; by apply alive_known, Hev|naive_solver].
    + destruct (co_lev _ _ Hc q ltac:(by right)) as [Hkq Hna]. assert (q ≠ p) as Hne by (by intros ->). rewrite (Hal q Hne). naive_solver.
  - intros q. rewrite Hk. intros [Hkq| ->]; [by apply (co_lknown _ _ Hc)|].
    assert (is_open s p) as (l & Hl & _) by (apply (co_layer _ _ Hc); right; left; left). by exists l.
  - intros q. rewrite !elem_evicted_tokens, !elem_of_cons, (co_layer _ _ Hc), !elem_of_cons. destruct (decide (q = p)) as [->|Hne].
    + split; [by left|]. intros _. right. left. by left.
    + rewrite (Hal q Hne). split.
      * intros [Ha|[[[= ]|Hn']|[[=]|He]]]; [|done|right; left; by right; right|right; right; by right; right].
        destruct (decide (q ∈ evs)); [right; right; left; by exists q|by left].
      * intros [[Ha _]|[[(? & [=] & _)|[[=]|Hn']]|[(? & [= <-] & Hq)|[[=]|He]]]]; [by left|right; left; by right|left; by apply Hev|right; right; by right].
Qed.

Lemma inv_new_layer toks s desc key b d c g x : inv (TBlob d b :: TCache c :: toks) s →
  inv (TNewLayer (r_next s) :: toks) (bump_next (set_layers (<[r_next s := newLayer desc key (b, d) c g x]> (layers s)) s)).
Proof.
  intros (ol & [Hnd Hol] & Hc). set (l := newLayer desc key (b, d) c g x). destruct (co_fresh _ _ Hc (r_next s) ltac:(lia)) as (F1 & F2 & F3).
  exists ((r_next s, l) :: ol). split.
  - split.
    + constructor; [|done]. intros [Hl _]%Hol. congruence.
    + intros p l0. cbn [layers bump_next set_layers]. rewrite elem_of_cons, Hol. destruct (decide (p = r_next s)) as [->|Hne].
      * rewrite lookup_insert_eq. split; [intros [[= ->]|[? _]]; [done|congruence]|intros [[= <-] _]; by left].
      * rewrite lookup_insert_ne by done. split; [by intros [[= ? ?]|?]|by right].
  - set (rest := ol ≫= _) in Hc. apply (core_perm (TNewLayer (r_next s) :: (TBlob d b :: TCache c :: toks) ++ rest)).
    { cbn [mbind list_bind layer_tokens snd app l newLayer l_blobDone l_blob l_spanCache fst]. fold rest. constructor.
      change (TBlob d b :: TCache c :: toks ++ rest) with ([TBlob d b; TCache c] ++ toks ++ rest).
      change (TBlob d b :: TCache c :: rest) with ([TBlob d b; TCache c] ++ rest). by rewrite !(assoc (++)), (Permutation_app_comm toks). }
    set (all := (TBlob d b :: TCache c :: toks) ++ rest) in *.
    destruct Hc as [H1 H2 H3 H4 H5 H6 H7 H8 H9 H10 H11 H12 H13 H14 H15 H16 H17].
    assert (¬ known (layerCache s) (r_next s)) as Hnk by (intros [y Hy]%H14; congruence).
    assert ((TNewLayer (r_next s) ∉ all) ∧ (TEvicted (r_next s) ∉ all)) as [N1 N2].
    { split; intros Hin; (assert (is_open s (r_next s)) as (l1 & Hl1 & _) by (apply H11; auto)); congruence. }
    split; cbn [layerCache blobCache layers blobs spanCaches r_next bump_next set_layers]; try done.
    + by constructor.
    + intros d' p'. rewrite elem_of_cons, <-H6. naive_solver.
    + intros d' p'. rewrite elem_of_cons, <-H7. naive_solver.
    + intros c'. rewrite elem_of_cons, <-H8. naive_solver.
    + intros b'. rewrite elem_of_cons, H9. naive_solver.
    + intros b'. rewrite elem_of_cons. intros [[=]|Hin]; auto.
    + intros p. rewrite !elem_of_cons. unfold is_open. cbn [layers bump_next set_layers]. destruct (decide (p = r_next s)) as [->|Hne].
      * rewrite lookup_insert_eq. split; [intros _; right; left; by left|]. intros _. by exists l.
      * rewrite lookup_insert_ne by done. fold (is_open s p). rewrite (H11 p). split.
        -- intros [?|[?|?]]; [by left|right; left; by right|right; right; by right].
        -- intros [?|[[[= ?]|?]|[[=]|?]]]; [by left|done|right; by left|right; by right].
    + intros p. rewrite elem_of_cons. intros [[= ->]|Hin]; auto.
    + intros p. rewrite elem_of_cons. intros [[=]|Hin]; auto.
    + intros p Hk. apply lookup_insert_is_Some'. auto.
    + intros p Hp. destruct (H16 p ltac:(lia)) as (K1 & K2 & K3). rewrite lookup_insert_ne by lia. done.
    + intros p l0. destruct (decide (r_next s = p)) as [<-|Hne]; [rewrite lookup_insert_eq; by intros [= <-]|].
      rewrite lookup_insert_ne by done. apply H17.
Qed.
End invariant.
