(* ===== verification/LayerThreads.v ===== *)
(** * Goroutines that resolve layers

    Any number of calls of [Resolve], interleaved with each other, with [Done] and with
    [Evict]: what a goroutine holds at each point, and what follows for the layers that are in
    use and for the ones that are not. *)
From Stdlib Require Import ZArith Lia.
From stdpp Require Import base list gmap strings numbers relations.
From S2P Require Import Prelude GoLib Prog Ztoc ZtocBuilder ZtocMarshal LruCache Oci Prefetch SociIndex LayerResolver LayerFacts.
#[local] Open Scope Z_scope.

Section threads.
Context {E L Time : Type} `{HL : LRU L} `{HLL : !LRULaws L} `{HE : ResolverEnv E Time} `{HS : Store E} `{HP : PrefetchJSON}.
Context `{HT : GoTime Time} `{HD : Digester} `{HF : FlatbufZtoc} `{HG : GoSort}.
Context (cfg : FSConfig) (hasBgFetcher : bool) (order : list Z → list Z).
Abbreviation R := (resolver E L).
Implicit Types (s : R) (own toks : list token).

Abbreviation safe := (Prog.safe (inv (E:=E) (L:=L))).
Lemma inv_on_env {A} toks (m : ST E A) s : inv toks s → inv toks (on_env m s).2.
Proof. intros Hi. unfold on_env. destruct (m (r_env s)) as [r e]. by apply inv_env. Qed.
Lemma inv_lift_core toks toks' s s' : layers s' = layers s → inv toks s →
  (∀ rest, core (toks ++ rest) s → core (toks' ++ rest) s') → inv toks' s'.
Proof. intros Hl (ol & Ho & Hc) Hstep. exists ol. split; [|by apply Hstep]. unfold opened. by rewrite Hl. Qed.

Lemma inv_blob_done toks s d b : inv (TBlob d b :: toks) s → inv toks (blob_done d s).2.
Proof. intros Hi. eapply inv_lift_core; [apply layers_settle_blobs|exact Hi|]. intros rest. apply core_blob_done. Qed.
Lemma inv_close_cache toks s c : inv (TCache c :: toks) s → inv toks (close_spanCache c s).
Proof. intros Hi. eapply inv_lift_core; [apply layers_close_cache|exact Hi|]. intros rest. apply core_close_cache. Qed.
Lemma inv_blob_Check toks s b : inv toks s → inv toks (blob_Check b s).2.
Proof. intros Hi. unfold blob_Check. destruct (default true (blobs s !! b)); [done|]. by apply inv_on_env. Qed.
Lemma inv_layer_Check toks s p : inv toks s → inv toks (layer_Check p s).2.
Proof.
  intros Hi. unfold layer_Check, open_layer, st_bind. destruct (layers s !! p) as [l|]; [|done]. destruct (l_closed l); [done|]. by apply inv_blob_Check.
Qed.

(** *** Blobs *)
Definition holds_blob (o : outcome (nat * nat)) own : Prop :=
  match o with Ok (b, d) => own = [TBlob d b] | Err _ => own = [] | Panic => True end.

Lemma safe_new_blob name desc : safe holds_blob [] (resolve_new_blob name desc).
Proof.
  unfold resolve_new_blob. eapply (safe_seq (λ b own, own = [TNewBlob b])).
  - apply safe_act. intros rest s Hi Hp. unfold new_blob in *. pose proof (inv_on_env _ (remote_Resolve name desc (r_next s)) s Hi) as Hi1.
    assert (r_next (on_env (remote_Resolve name desc (r_next s)) s).2 = r_next s) as Hn by (unfold on_env; by destruct (remote_Resolve name desc (r_next s) (r_env s))).
    destruct (on_env (remote_Resolve name desc (r_next s)) s) as [[[]|e|] s1]; cbn [fst snd] in *; [|by exists []|done].
    exists [TNewBlob (r_next s)]. split; [|done]. eapply inv_lift_core; [|exact Hi1|]; [done|].
    intros rest' Hc. rewrite <-Hn. by apply core_new_blob.
  - intros b own ->. eapply (safe_seq (λ r own, match r with (cached, d, true) => cached = b ∧ own = [TBlob d b]
                                                      | (cached, d, false) => own = [TBlob d cached; TNewBlob b] end)).
    + apply safe_act. intros rest s (ol & Ho & Hc) _. apply core_blob_Add with (name := name) in Hc.
      assert (layers (blobCache_Add name b s).2 = layers s) as Hl by (unfold blobCache_Add; destruct (Add name b (blobCache s)); apply layers_settle_blobs).
      destruct (blobCache_Add name b s) as [[[[cached d] []]|e|] s1]; cbn [fst snd] in *; [|..|done|done].
      * destruct Hc as [-> Hc]. exists [TBlob d b]. split; [|done]. exists ol. split; [|done]. unfold opened. by rewrite Hl.
      * exists [TBlob d cached; TNewBlob b]. split; [|done]. exists ol. split; [|done]. unfold opened. by rewrite Hl.
    + intros [[cached d] []] own; [by intros [-> ->]; right|]. intros ->. eapply (safe_seq (λ _ own, own = [TBlob d cached])).
      * apply safe_act. intros rest s Hi _. exists [TBlob d cached]. split; [|done]. cbn [snd].
        eapply (inv_lift_core ([TNewBlob b; TBlob d cached] ++ rest)); [unfold close_blob; by destruct (blobs s !! b) as [[]|]|by eapply inv_perm; [apply perm_swap|]|].
        intros rest'. apply core_close_blob.
      * intros [] own ->. by right.
Qed.

Lemma safe_resolveBlob name desc : safe holds_blob [] (resolveBlob name desc).
Proof.
  unfold resolveBlob. eapply (safe_seq (λ hit own, match hit with Some (b, d) => own = [TBlob d b] | None => own = [] end)).
  - apply safe_act. intros rest s (ol & Ho & Hc) _. apply core_blob_Get with (name := name) in Hc.
    assert (layers (blobCache_Get name s).2 = layers s) as Hl by (unfold blobCache_Get; destruct (Get name (blobCache s)); apply layers_settle_blobs).
    assert (opened (blobCache_Get name s).2 ol) as Ho' by (unfold opened; by rewrite Hl).
    unfold blobCache_Get in *. destruct (Get name (blobCache s)) as [[[b d]|] c]; cbn [fst snd] in *.
    + exists [TBlob d b]. split; [|done]. by exists ol.
    + exists []. split; [|done]. by exists ol.
  - intros [[b d]|] own ->; [|apply safe_new_blob].
    eapply (safe_seq (λ _ own, own = [TBlob d b])); [apply safe_attempt; [intros; by apply inv_blob_Check|done]|].
    intros [] own ->; [by right|]. eapply (safe_seq (λ _ own, own = [])).
    + apply safe_act. intros rest s Hi _. exists []. split; [by eapply inv_blob_done|done].
    + intros [] own ->. eapply (safe_seq (λ _ own, own = [])); [|intros [] own ->; apply safe_new_blob].
      apply safe_look; [|by intros []]. intros rest s Hi. eapply inv_lift_core; [apply layers_settle_blobs|exact Hi|]. intros rest'. apply core_blob_Remove.
Qed.

(** *** Layers *)
Lemma inv_open_reader toks s c b d zt : inv ([TBlob d b; TCache c] ++ toks) s → inv ([TBlob d b; TCache c] ++ toks) (open_reader c zt s).2.
Proof.
  intros Hi. unfold open_reader. pose proof (inv_on_env _ (metadataStore c zt) s Hi) as Hi1.
  destruct (on_env (metadataStore c zt) s) as [[[]|e|] s1]; cbn [snd] in *; [|done..].
  eapply inv_lift_core; [|exact Hi1|]; [done|]. intros rest. apply core_open_reader. set_solver.
Qed.

Definition holds_layer F (o : outcome layerRef) own : Prop :=
  match o with Ok r => own = [ref_token r] | Err _ => own = F | Panic => True end.

Lemma safe_assemble name desc sociDesc prefetchDesc c b d zt :
  safe (holds_layer [TBlob d b; TCache c]) [TBlob d b; TCache c] (assemble cfg hasBgFetcher order name desc sociDesc prefetchDesc c (b, d) zt).
Proof.
  unfold assemble. set (own0 := [TBlob d b; TCache c]).
  eapply (safe_seq (λ _ own, own = own0)).
  { apply safe_look; [|by intros []]. intros rest s Hi. by apply inv_open_reader. }
  intros [] own ->. eapply (safe_seq (λ _ own, own = own0)).
  { apply safe_look; [|by intros []]. intros rest s Hi. unfold st_map_err. pose proof (inv_on_env _ (spanmanager_New c b zt (MaxSpanVerificationRetries cfg)) s Hi) as Hi1.
    cbn [fst]. by destruct (on_env _ s). }
  intros [] own ->. eapply (safe_seq (λ _ own, own = own0)).
  { destruct hasBgFetcher; [apply safe_look; [intros; by apply inv_env|by intros []]|by right]. }
  intros [] own ->. eapply (safe_seq (λ _ own, own = own0)); [apply safe_attempt; [intros; by apply inv_on_env|done]|]. intros _ own ->.
  eapply (safe_seq (λ l own, own = [TNewLayer l])).
  { apply safe_act. intros rest s Hi _. exists [TNewLayer (r_next s)]. split; [|done]. by apply inv_new_layer. }
  intros l own ->. eapply (safe_seq (λ r own, match r with (cached, d, true) => cached = l ∧ own = [TLayer d l]
                                                     | (cached, d, false) => own = [TLayer d cached; TNewLayer l] end)).
  { apply safe_act. intros rest s Hi _. pose proof (inv_layer_Add rest s name l Hi) as Ha.
    destruct (layerCache_Add name l s) as [[[[cached d'] []]|e|] s1]; cbn [fst snd] in *; [|..|done|done].
    - destruct Ha as [-> Ha]. by exists [TLayer d' l].
    - by exists [TLayer d' cached; TNewLayer l]. }
  intros [[cached d'] []] own; [intros [-> ->]; by right|]. intros ->. eapply (safe_seq (λ _ own, own = [TLayer d' cached])); [|intros [] own ->; by right].
  apply safe_act. intros rest s Hi _. exists [TLayer d' cached]. split; [|done]. cbn [snd]. eapply inv_layer_close; [by left|].
  eapply inv_perm; [|exact Hi]. apply perm_swap.
Qed.

Lemma safe_resolve_new name desc sociDesc prefetchDesc :
  safe (holds_layer []) [] (resolve_new cfg hasBgFetcher order name desc sociDesc prefetchDesc).
Proof.
  unfold resolve_new. eapply (safe_seq (λ c own, own = [TCache c])).
  - apply safe_act. intros rest s Hi Hp. unfold newCache in *. pose proof (inv_on_env _ (newCache_dirs cfg) s Hi) as Hi1.
    assert (r_next (on_env (newCache_dirs cfg) s).2 = r_next s) as Hn by (unfold on_env; by destruct (newCache_dirs cfg (r_env s))).
    destruct (on_env (newCache_dirs cfg) s) as [[[]|e|] s1]; cbn [fst snd] in *; [|by exists []|done].
    exists [TCache (r_next s)]. split; [|done]. eapply inv_lift_core; [|exact Hi1|]; [done|]. intros rest' Hc. rewrite <-Hn. by apply core_new_cache.
  - intros c own ->. apply (safe_on_error _ _ _ (TCache c) []); [|intros rest s Hi; by apply inv_close_cache|done].
    eapply (safe_seq (λ _ own, own = [TCache c])); [apply safe_look; [intros; by apply inv_on_env|by intros []]|]. intros zb own ->.
    eapply (safe_seq (λ _ own, own = [TCache c])); [apply safe_look; [by intros|by intros []]|]. intros zt own ->.
    set (desc' := with_ztoc_size desc (CompressedArchiveSize zt)).
    eapply (safe_seq (λ blob own, own = [TBlob blob.2 blob.1; TCache c])).
    + eapply safe_bind; [apply (safe_frame holds_blob [] [TCache c]), safe_resolveBlob|by left|].
      intros [[b d]|e|] own (own0 & -> & Hb); [right|right|by left]; cbn in *; by subst own0.
    + intros [b d] own ->. eapply (safe_on_error _ _ _ (TBlob d b) [TCache c]); [|intros rest s Hi; by eapply inv_blob_done|done].
      eapply safe_mono; [|apply safe_assemble]. by intros [].
Qed.

Lemma safe_Resolve name desc sociDesc prefetchDesc :
  safe (holds_layer []) [] (Resolve cfg hasBgFetcher order name desc sociDesc prefetchDesc).
Proof.
  unfold Resolve. eapply (safe_seq (λ hit own, match hit with Some (p, d) => own = [TLayer d p] | None => own = [] end)).
  - apply safe_act. intros rest s Hi _. pose proof (inv_layer_Get _ s name Hi) as Hg. unfold layerCache_Get in *.
    destruct (Get name (layerCache s)) as [[[p d]|] c]; cbn [fst snd] in *; [by exists [TLayer d p]|by exists []].
  - intros [[p d]|] own ->; [|apply safe_resolve_new].
    eapply (safe_seq (λ _ own, own = [TLayer d p])); [apply safe_attempt; [intros; by apply inv_layer_Check|done]|].
    intros [] own ->; [by right|]. eapply (safe_seq (λ _ own, own = [])).
    + apply safe_act. intros rest s Hi _. exists []. split; [by eapply inv_layer_done|done].
    + intros [] own ->. eapply (safe_seq (λ _ own, own = [])); [|intros [] own ->; apply safe_resolve_new].
      apply safe_look; [|by intros []]. intros rest s Hi. by apply inv_layer_Remove.
Qed.

(** ** All goroutines together

    [w_refs] are the references that were returned and are not released yet. *)
Record world := mkWorld { w_threads : list (prog R layerRef); w_refs : list layerRef; w_state : R }.

Inductive step : world → world → Prop :=
| step_spawn ts rs s name desc sociDesc prefetchDesc :
    step (mkWorld ts rs s) (mkWorld (ts ++ [Resolve cfg hasBgFetcher order name desc sociDesc prefetchDesc]) rs s)
| step_call ts rs s i B (m : ST R B) k : ts !! i = Some (Call m k) → (m s).1 ≠ Panic →
    step (mkWorld ts rs s) (mkWorld (<[i := k (m s).1]> ts) rs (m s).2)
| step_return ts rs s i r : ts !! i = Some (Ret (Ok r)) → step (mkWorld ts rs s) (mkWorld (delete i ts) (r :: rs) s)
| step_fail ts rs s i e : ts !! i = Some (Ret (Err e)) → step (mkWorld ts rs s) (mkWorld (delete i ts) rs s)
| step_done ts rs s i r : rs !! i = Some r → step (mkWorld ts rs s) (mkWorld ts (delete i rs) (Done r s).2)
| step_evict ts rs s name : step (mkWorld ts rs s) (mkWorld ts rs (Evict name s).2)
| step_env ts rs s e : step (mkWorld ts rs s) (mkWorld ts rs (set_env e s)).

Definition world_ok (w : world) : Prop := ∃ owns, Forall2 (safe (holds_layer [])) owns (w_threads w) ∧
  inv (concat owns ++ (ref_token <$> w_refs w)) (w_state w).

Lemma concat_delete {A} (ls : list (list A)) i l : ls !! i = Some l → concat ls ≡ₚ l ++ concat (delete i ls).
Proof.
  revert i. induction ls as [|l0 ls IH]; intros [|i] Hl; try done; cbn in *; [by injection Hl as ->|].
  rewrite (IH i Hl), !(assoc (++)), (Permutation_app_comm l0). done.
Qed.
Lemma concat_insert {A} (ls : list (list A)) i l l' : ls !! i = Some l → concat (<[i := l']> ls) ≡ₚ l' ++ concat (delete i ls).
Proof.
  intros Hl. rewrite (concat_delete (<[i := l']> ls) i l'); [|apply list_lookup_insert_eq; by eapply lookup_lt_Some].
  apply Permutation_app_head. f_equiv. clear. revert i. induction ls as [|x ls IH]; intros [|i]; cbn; f_equal; auto.
Qed.
Lemma Forall2_delete_both {A B} (P : A → B → Prop) l k i : Forall2 P l k → Forall2 P (delete i l) (delete i k).
Proof. intros Hf. revert i. induction Hf; intros [|i]; cbn; try done; constructor; auto. Qed.

Lemma world_step_ok w w' : step w w' → world_ok w → world_ok w'.
Proof.
  intros Hstep (owns & Hsafe & Hi). destruct Hstep; cbn [w_threads w_refs w_state] in *.
  - exists (owns ++ [[]]). split; [apply Forall2_app; [done|constructor; [apply safe_Resolve|constructor]]|].
    by rewrite concat_app, app_nil_r.
  - destruct (Forall2_lookup_r _ _ _ _ _ Hsafe H) as (own & Hown & Hs). cbn [safe] in Hs.
    destruct (Hs (concat (delete i owns) ++ (ref_token <$> rs)) s) as (own' & Hi' & Hs'); [|done|].
    { eapply inv_perm; [|exact Hi]. by rewrite (concat_delete _ _ _ Hown), (assoc (++)). }
    exists (<[i := own']> owns). split; [by apply Forall2_insert|].
    eapply inv_perm; [|exact Hi']. by rewrite (concat_insert _ _ _ own' Hown), (assoc (++)).
  - destruct (Forall2_lookup_r _ _ _ _ _ Hsafe H) as (own & Hown & [?|Hs]); [done|]. cbn [holds_layer] in Hs. subst own.
    exists (delete i owns). split; [by apply Forall2_delete_both|]. eapply inv_perm; [|exact Hi]. rewrite (concat_delete _ _ _ Hown).
    cbn [app fmap list_fmap]. by rewrite Permutation_middle.
  - destruct (Forall2_lookup_r _ _ _ _ _ Hsafe H) as (own & Hown & [?|Hs]); [done|]. cbn [holds_layer] in Hs. subst own.
    exists (delete i owns). split; [by apply Forall2_delete_both|]. eapply inv_perm; [|exact Hi]. by rewrite (concat_delete _ _ _ Hown).
  - exists owns. split; [done|]. unfold Done. eapply (inv_layer_done _ _ _ (ref_layer r)). eapply inv_perm; [|exact Hi].
    rewrite (delete_Permutation rs i r H) at 1. cbn [fmap list_fmap]. change (TLayer (ref_done r) (ref_layer r)) with (ref_token r).
    by rewrite Permutation_middle.
  - exists owns. split; [done|]. by apply inv_layer_Remove.
  - exists owns. split; [done|]. by apply inv_env.
Qed.

Lemma New_ok empty e s0 : lru_map empty = ∅ → NewResolver empty e = Ok s0 → world_ok (mkWorld [] [] s0).
Proof.
  intros He Hn. unfold NewResolver in Hn. destruct (os_step "mkdir root" e) as [[[]|?|] e1]; [|done..]. injection Hn as <-.
  exists []. split; [constructor|]. exists []. cbn. split; [split; [constructor|]; intros p l; cbn; rewrite lookup_empty; split; [intros Hin; by apply not_elem_of_nil in Hin|by intros []]|].
  split; cbn [layerCache blobCache layers blobs spanCaches readers r_next]; try (by apply wf_New); try (intros ????; cbn; done).
  - constructor.
  - intros d p. split; [intros Hin; by apply not_elem_of_nil in Hin|]. intros (h & r & Hd & _). done.
  - intros d p. split; [intros Hin; by apply not_elem_of_nil in Hin|]. intros (h & r & Hd & _). done.
  - intros c. rewrite lookup_empty. split; [intros Hin; by apply not_elem_of_nil in Hin|done].
  - intros b. rewrite lookup_empty. split; [done|]. intros [(h & r & Hr & _)|Hin]; [done|by apply not_elem_of_nil in Hin].
  - intros b Hin. by apply not_elem_of_nil in Hin.
  - intros p. split; [intros (l & Hl & _); cbn in Hl; by rewrite lookup_empty in Hl|].
    intros [(h & r & Hr & _)|[Hin|Hin]]; [done|by apply not_elem_of_nil in Hin..].
  - intros p Hin. by apply not_elem_of_nil in Hin.
  - intros p Hin. by apply not_elem_of_nil in Hin.
  - intros p (h & r & Hr & _). done.
  - intros p (h & r & Hr & _). done.
  - intros p _. by rewrite !lookup_empty.
Qed.
Lemma reachable_world empty e s0 w : lru_map empty = ∅ → NewResolver empty e = Ok s0 → rtc step (mkWorld [] [] s0) w → world_ok w.
Proof.
  intros He Hn Hsteps. pose proof (New_ok empty e s0 He Hn) as H0. induction Hsteps as [|w1 w2 w3 Hs _ IH]; [done|]. by apply IH, (world_step_ok w1).
Qed.

(** What an unreleased reference to a layer refers to. *)
Lemma ref_open toks s d p : inv toks s → ref_of (layerCache s) d p →
  ∃ l, layers s !! p = Some l ∧ l_closed l = false ∧ blobs s !! l_blob l = Some false ∧ spanCaches s !! l_spanCache l = Some false.
Proof.
  intros (ol & [_ Hol] & Hc) Href. assert (is_open s p) as (l & Hl & Hcl) by (apply (co_layer _ _ Hc); left; by eapply ref_alive; [apply Hc|]).
  exists l. split_and!; [done..| |].
  - apply (co_blob _ _ Hc). left. eapply (ref_alive _ (l_blobDone l)); [apply Hc|]. apply (co_bref _ _ Hc), elem_of_app. right.
    apply list_elem_of_bind. exists (p, l). split; [|by apply Hol]. left.
  - apply (co_cache _ _ Hc), elem_of_app. right. apply list_elem_of_bind. exists (p, l). split; [|by apply Hol]. right. left.
Qed.

(** ** Theorems *)

(** A layer that is in use is open.  However many goroutines resolve, release and evict
    layers at the same time and whichever calls fail: as long as the reference that
    [Resolve] returned is not released, the layer, the blob it reads and its span cache are
    not closed. *)
Theorem layers_in_use_stay_open empty e s0 w r :
  lru_map empty = ∅ → NewResolver empty e = Ok s0 → rtc step (mkWorld [] [] s0) w → r ∈ w_refs w →
  ∃ l, layers (w_state w) !! ref_layer r = Some l ∧ l_closed l = false ∧
    blobs (w_state w) !! l_blob l = Some false ∧ spanCaches (w_state w) !! l_spanCache l = Some false.
Proof.
  intros He Hn Hsteps Hr. destruct (reachable_world empty e s0 w He Hn Hsteps) as (owns & _ & Hi). eapply ref_open; [exact Hi|].
  destruct Hi as (ol & _ & Hc). apply (co_lref _ _ Hc). apply elem_of_app. left. apply elem_of_app. right. apply list_elem_of_fmap. by exists r.
Qed.

(** What is not evicted is in the cache or referenced. *)
Lemma alive_used (c : Cache L nat) v : LruCache.wf c → alive c v → (∃ k, cached k c = Some v) ∨ ∃ d, ref_of c d v.
Proof.
  intros Hw (h & r & Hr & Hv & Hne). rewrite (inv_evicted _ _ _ Hw) in Hne. pose proof (inv_count _ _ _ Hw _ _ Hr) as Hcount.
  destruct (rc_finalized r) eqn:Ef.
  - right. assert (0 < live h (dones c)) as Hl.
    { pose proof (live_nonneg h (dones c)). destruct (decide (refCounts r = 0)) as [Hz|]; [exfalso; apply Hne; by exists r|]. change (count h []) with 0 in Hcount. lia. }
    unfold live, zlen in Hl. destruct (filter _ (dones c)) as [|x xs] eqn:Efl; [done|]. assert (x ∈ filter (λ d, d = (h, false)) (dones c)) as Hx by (rewrite Efl; left).
    apply list_elem_of_filter in Hx as [-> Hin]. apply list_elem_of_lookup in Hin as [d Hd]. exists d, h, r. done.
  - left. exists (rc_key r). unfold cached. rewrite (inv_unfinalized _ _ _ Hw _ _ Hr Ef). cbn. by rewrite Hr; cbn; rewrite Hv.
Qed.

(** C11: nothing is left open that nobody uses, with one exception.  When no call of
    [Resolve] is running, however the ones before ended: each open layer is in the cache or
    referred to, each open blob is in the cache of blobs or read by an open layer, each open
    span cache belongs to an open layer, and each open metadata reader belongs to an open
    layer or to a call of [Resolve] that failed after it had opened the reader and before it
    made a layer; such readers are left open. *)
Theorem resolver_leaks_nothing empty e s0 w :
  lru_map empty = ∅ → NewResolver empty e = Ok s0 → rtc step (mkWorld [] [] s0) w → w_threads w = [] →
  (∀ p, is_open (w_state w) p → (∃ k, cached k (layerCache (w_state w)) = Some p) ∨ ∃ r, r ∈ w_refs w ∧ ref_layer r = p) ∧
  (∀ b, blobs (w_state w) !! b = Some false →
     (∃ k, cached k (blobCache (w_state w)) = Some b) ∨ ∃ p l, layers (w_state w) !! p = Some l ∧ l_closed l = false ∧ l_blob l = b) ∧
  (∀ c, spanCaches (w_state w) !! c = Some false → ∃ p l, layers (w_state w) !! p = Some l ∧ l_closed l = false ∧ l_spanCache l = c) ∧
  (∀ c, readers (w_state w) !! c = Some false →
     (∃ p l, layers (w_state w) !! p = Some l ∧ l_closed l = false ∧ l_spanCache l = c) ∨
     ∀ p l, layers (w_state w) !! p = Some l → l_spanCache l ≠ c).
Proof.
  intros He Hn Hsteps Hts. destruct (reachable_world empty e s0 w He Hn Hsteps) as (owns & Hsafe & ol & [_ Hol] & Hc).
  rewrite Hts in Hsafe. apply Forall2_nil_inv_r in Hsafe as ->. cbn [concat app] in Hc. set (s := w_state w) in *.
  assert (∀ t, t ∈ (ref_token <$> w_refs w) ++ (ol ≫= λ x, layer_tokens x.2) →
    (∃ r, t = ref_token r ∧ r ∈ w_refs w) ∨ ∃ p l, layers s !! p = Some l ∧ l_closed l = false ∧ t ∈ layer_tokens l) as Htok.
  { intros t [Hin|Hin]%elem_of_app; [left; by apply list_elem_of_fmap in Hin|right]. apply list_elem_of_bind in Hin as ([p l] & Hin & Hpl).
    exists p, l. apply Hol in Hpl as [? ?]. done. }
  assert (∀ l t, t ∈ layer_tokens l → t = TBlob (l_blobDone l) (l_blob l) ∨ t = TCache (l_spanCache l)) as Hlt.
  { intros l t Hin. unfold layer_tokens in Hin. apply elem_of_cons in Hin as [->|Hin]; [by left|]. apply list_elem_of_singleton in Hin as ->. by right. }
  split_and!.
  - intros p Ho. apply (co_layer _ _ Hc) in Ho as [Ha|[Hin|Hin]].
    + destruct (alive_used _ _ (co_lwf _ _ Hc) Ha) as [?|(d & Hd)]; [by left|right]. apply (co_lref _ _ Hc) in Hd.
      apply Htok in Hd as [(r & [= -> ->] & Hr)|(q & l & _ & _ & Hin)]; [by exists r|]. apply Hlt in Hin as [?|?]; done.
    + apply Htok in Hin as [(r & ? & _)|(q & l & _ & _ & Hin)]; [done|]. apply Hlt in Hin as [?|?]; done.
    + apply Htok in Hin as [(r & ? & _)|(q & l & _ & _ & Hin)]; [done|]. apply Hlt in Hin as [?|?]; done.
  - intros b Hb. apply (co_blob _ _ Hc) in Hb as [Ha|Hin].
    + destruct (alive_used _ _ (co_bwf _ _ Hc) Ha) as [?|(d & Hd)]; [by left|right]. apply (co_bref _ _ Hc) in Hd.
      apply Htok in Hd as [(r & ? & _)|(q & l & Hl & Hcl & Hin)]; [done|]. exists q, l. by apply Hlt in Hin as [[= _ ->]|?].
    + apply Htok in Hin as [(r & ? & _)|(q & l & _ & _ & Hin)]; [done|]. apply Hlt in Hin as [?|?]; done.
  - intros c Hcc. apply (co_cache _ _ Hc) in Hcc. apply Htok in Hcc as [(r & ? & _)|(q & l & Hl & Hcl & Hin)]; [done|]. exists q, l.
    by apply Hlt in Hin as [?|[= ->]].
  - intros c Hr. destruct (decide (map_Exists (λ _ l, l_spanCache l = c) (layers s))) as [(p & l & Hl & <-)|Hno].
    + left. exists p, l. split_and!; [done| |done]. destruct (l_closed l) eqn:Ecl; [|done]. by destruct (co_closed _ _ Hc p l Hl Ecl).
    + right. intros p l Hl Heq. apply Hno. by exists p, l.
Qed.

(** The exception: when the span manager cannot be made, the metadata reader that was opened
    before stays open, although the call fails and releases everything else. *)
Theorem reader_left_open name desc sociDesc prefetchDesc c b d zt s e1 e2 err :
  metadataStore c zt (r_env s) = (Ok tt, e1) →
  spanmanager_New c b zt (MaxSpanVerificationRetries cfg) e1 = (Err err, e2) →
  ∃ s', run (on_error (blob_done d) (assemble cfg hasBgFetcher order name desc sociDesc prefetchDesc c (b, d) zt)) s =
      (Err (Wrap "error creating span manager" err), s') ∧ readers s' !! c = Some false.
Proof.
  intros Hm Hs. eexists. split.
  - unfold assemble, on_error, act, seq. cbn [pbind run]. unfold open_reader, on_env. rewrite Hm. cbn [run pbind fst snd].
    unfold st_map_err, on_env. cbn [r_env set_readers set_env fst]. rewrite Hs. cbn [run pbind map_err]. reflexivity.
  - cbn. unfold settle_blobs. rewrite readers_close_blobs. cbn. by rewrite lookup_insert_eq.
Qed.
End threads.
