(* ===== verification/LayerPrefetch.v ===== *)
(** * What prefetching does to the daemon

    [executePrefetch] of [fs/layer/layer.go] over the span manager: which spans it asks for,
    and which artifacts end the process. *)
From Stdlib Require Import ZArith Lia.
From stdpp Require Import base list gmap strings numbers.
From S2P Require Import Prelude GoLib Prog Compression Ztoc ZtocBuilder ZtocMarshal BlobCache SpanManager Oci Prefetch SociIndex LayerResolver.
#[local] Open Scope Z_scope.

Definition MaxInt32 : Z := 2 ^ 31 - 1.
Definition in_range (s : PrefetchSpan) : Prop := in_int32 (StartSpan s) ∧ in_int32 (EndSpan s).

Lemma prefetch_loop_spec fuel a b : in_int32 a → b < MaxInt32 → (Z.to_nat (b - a + 1) ≤ fuel)%nat →
  prefetch_loop fuel a b = Some (seqZ a (b - a + 1)).
Proof.
  revert a. induction fuel as [|fuel IH]; intros a Ha Hb Hf; cbn [prefetch_loop]; destruct (Z.ltb_spec b a).
  - by rewrite seqZ_nil by lia.
  - lia.
  - by rewrite seqZ_nil by lia.
  - unfold in_int32, MaxInt32 in *. rewrite int32_id by (unfold in_int32; lia). rewrite IH by (unfold in_int32, MaxInt32; lia).
    cbn. f_equal. rewrite (seqZ_cons a) by lia. f_equal. f_equal; lia.
Qed.
Lemma prefetch_range_spec s : in_int32 (StartSpan s) → EndSpan s < MaxInt32 →
  prefetch_range s = Some (seqZ (StartSpan s) (EndSpan s - StartSpan s + 1)).
Proof. intros. by apply prefetch_loop_spec. Qed.
(** Every int32 is at most the greatest one: the loop does not end. *)
Lemma prefetch_loop_forever fuel a : in_int32 a → prefetch_loop fuel a MaxInt32 = None.
Proof.
  revert a. induction fuel as [|fuel IH]; intros a Ha; cbn [prefetch_loop]; destruct (Z.ltb_spec MaxInt32 a) as [Hlt|_];
    try (unfold in_int32, MaxInt32 in *; lia); [done|]. rewrite IH; [done|]. apply int32_range.
Qed.

(** The spans that [executePrefetch] asks for. *)
Definition prefetched (spans : list PrefetchSpan) : list Z := spans ≫= λ s, seqZ (StartSpan s) (EndSpan s - StartSpan s + 1).

Lemma prefetch_spans_collected_aux spans : Forall in_range spans → Forall (λ s, EndSpan s ≠ MaxInt32) spans →
  spansToFetch spans = Some (prefetched spans).
Proof.
  intros Hr Hm. unfold spansToFetch, prefetched.
  assert (mapM prefetch_range spans = Some ((λ s, seqZ (StartSpan s) (EndSpan s - StartSpan s + 1)) <$> spans)) as ->.
  - apply mapM_Some. induction Hr as [|s spans [Hs He] _ IH]; [constructor|]. apply list.Forall_cons in Hm as [Hm Hms]. constructor; [|by apply IH].
    apply prefetch_range_spec; [done|]. unfold in_int32, MaxInt32 in *. lia.
  - cbn. f_equal. clear. induction spans as [|s spans IH]; [done|]. cbn. by rewrite IH.
Qed.

(** C26: collecting the spans of a prefetch artifact ends, with exactly the spans of its
    ranges in order, when no range ends at the greatest int32; when one does, it never ends. *)
Theorem prefetch_spans_collected spans : Forall in_range spans →
  (Forall (λ s, EndSpan s ≠ MaxInt32) spans → spansToFetch spans = Some (prefetched spans)) ∧
  (∀ s fuel, s ∈ spans → EndSpan s = MaxInt32 → prefetch_loop fuel (StartSpan s) (EndSpan s) = None).
Proof.
  intros Hr. split.
  - by apply prefetch_spans_collected_aux.
  - intros s fuel Hs ->. apply prefetch_loop_forever. rewrite list.Forall_forall in Hr. by apply Hr.
Qed.

(** ** Over the span manager

    The artifact comes from a store, the spans go to the span manager. *)
Section manager.
Context {BS T C W R Time : Type} `{HBS : Store BS} `{HP : PrefetchJSON}.
Context `{HZ : Zinfo T} `{HB : BlobCache C W} `{HR : ReaderAt R} `{HD : Digester}.
Abbreviation SM := (SpanManager T C R Time).
Abbreviation E := (BS * SM)%type.

Definition on_store {A} (m : ST BS A) : ST E A := λ e, let '(r, b) := m e.1 in (r, (b, e.2)).
Definition on_spans {A} (m : ST SM A) : ST E A := λ e, let '(r, x) := m e.2 in (r, (e.1, x)).
#[local] Instance paired_store : Store E := {|
  s_Exists d := on_store (s_Exists d);
  s_Fetch d := on_store (s_Fetch d);
  s_Push d c := on_store (s_Push d c);
  s_Label d k v := on_store (s_Label d k v);
  s_Delete k := on_store (s_Delete k);
  s_BatchOpen := on_store s_BatchOpen;
  s_BatchDone e := (s_BatchDone e.1, e.2) |}.

(** What the resolver runs for a layer. *)
Definition prefetch_layer (cfg : FSConfig) (order : list Z → list Z) (d : Descriptor) : ST E () :=
  executePrefetch cfg order (st_ret tt) (λ e, e) (λ i, on_spans (ResolveSpan i)) (Some d).

(** No call changes the ztoc. *)
Definition keeps {A} (m : ST SM A) : Prop := ∀ x, sm_ztoc (m x).2 = sm_ztoc x.
Lemma ztoc_kept_bind {A B} (m : ST SM A) (k : A → ST SM B) : keeps m → (∀ a, keeps (k a)) → keeps (st_bind m k).
Proof. intros Hm Hk x. unfold st_bind. pose proof (Hm x) as H1. destruct (m x) as [[a|e|] y]; cbn [snd] in *; [|done..]. by rewrite Hk. Qed.
Lemma keeps_pure {A} (f : SM → outcome A) : keeps (λ x, (f x, x)).
Proof. by intros x. Qed.
Lemma keeps_on_cache {A} (f : ST C A) : keeps (on_cache f).
Proof. intros x. unfold on_cache. by destruct (f (sm_cache x)). Qed.
Lemma keeps_reader n off : keeps (on_reader n off).
Proof. intros x. unfold on_reader. by destruct (SectionReader_ReadAt n off (sm_r x)). Qed.
Lemma keeps_setState i st : keeps (span_setState i st).
Proof. intros x. unfold span_setState. destruct (index (spans x) i) as [s| |]; [|done..]. by destruct (setState s st). Qed.
Lemma keeps_fetch_loop tries i off size last : keeps (fetch_loop tries i off size last).
Proof.
  revert last. induction tries as [|n IH]; intros last; cbn [fetch_loop]; [by destruct last; apply keeps_pure|].
  apply ztoc_kept_bind; [apply keeps_reader|]. intros [buf err]. apply ztoc_kept_bind.
  - destruct err as [e|]; [destruct (errors_Is e io_EOF)|]; apply keeps_pure.
  - intros _. destruct (negb _); [apply keeps_pure|]. intros x. destruct (verifySpanContents buf i x); [done|apply IH|done].
Qed.
Lemma keeps_addSpanToCache i b : keeps (addSpanToCache i b).
Proof.
  apply ztoc_kept_bind; [apply keeps_on_cache|]. intros w x. unfold deferring.
  destruct (on_cache (writer_Write w b) x) as [r y] eqn:E1. pose proof (keeps_on_cache (writer_Write w b) x) as H1. rewrite E1 in H1. cbn [snd] in H1.
  destruct r; cbn [snd]; rewrite !keeps_on_cache; done.
Qed.
Lemma keeps_ResolveSpan i : keeps (ResolveSpan i).
Proof.
  apply ztoc_kept_bind; [apply keeps_pure|]. intros m. destruct (_ <? _); [apply keeps_pure|]. apply ztoc_kept_bind; [apply keeps_pure|]. intros s.
  destruct (checkState s uncompressed); [apply keeps_pure|]. apply ztoc_kept_bind; [|intros; apply keeps_pure].
  unfold fetchAndCacheSpan. apply ztoc_kept_bind; [apply keeps_pure|]. intros s'. apply ztoc_kept_bind; [apply keeps_setState|]. intros _ x.
  set (body := st_bind _ _). assert (keeps body) as Hb.
  { apply ztoc_kept_bind.
    - apply ztoc_kept_bind; [apply keeps_pure|]. intros s0. apply ztoc_kept_bind; [apply keeps_pure|]. intros _. apply ztoc_kept_bind; [apply keeps_pure|]. intros. apply keeps_fetch_loop.
    - intros cb. apply ztoc_kept_bind; [apply keeps_pure|]. intros buf. apply ztoc_kept_bind; [apply keeps_addSpanToCache|]. intros _.
      apply ztoc_kept_bind; [apply keeps_setState|]. intros; apply keeps_pure. }
  specialize (Hb x). destruct (body x) as [[a|e|] y]; cbn [snd] in *; [done| |done].
  destruct (index (spans y) i) as [s1| |]; [|done..]. destruct (checkState s1 requested); [|done]. by rewrite keeps_setState.
Qed.

Lemma workers_panic ids i e : i ∈ ids → i < 0 → 0 ≤ MaxSpan e.2 → (prefetch_workers (λ i, on_spans (ResolveSpan i)) ids e).1 = Panic.
Proof.
  intros Hi Hneg. revert e. induction ids as [|j ids IH]; intros e Hmax; [by apply not_elem_of_nil in Hi|]. cbn [prefetch_workers].
  unfold on_spans at 1. pose proof (keeps_ResolveSpan j e.2) as Hkj. destruct (ResolveSpan j e.2) as [r m] eqn:Er. cbn [snd] in Hkj.
  apply elem_of_cons in Hi as [->|Hi].
  - unfold ResolveSpan, st_bind, st_get, get_span in Er. destruct (Z.ltb_spec (MaxSpan e.2) j); [lia|].
    unfold index in Er. destruct (Z.leb_spec 0 j); [lia|]. injection Er as <- _. done.
  - destruct r; [| |done]; (apply IH; [done|]; unfold MaxSpan in *; cbn [snd]; by rewrite Hkj).
Qed.

(** A prefetch artifact can end the daemon.  When an artifact of the image that the store
    has for a layer names a span with a negative id, or a range that ends at the greatest
    int32, resolving the layer panics in a goroutine or fills the memory. *)
Theorem prefetch_artifact_kills cfg order d artifact bs bs' m b s :
  PrefetchEnable cfg = true → (∀ l, order l ≡ₚ l) → 0 ≤ MaxSpan m →
  s_Fetch d bs = (Ok b, bs') → UnmarshalPrefetchArtifact (Ok b) = Ok artifact → Forall in_range (PrefetchSpans artifact) →
  s ∈ PrefetchSpans artifact → (StartSpan s < 0 ∧ StartSpan s ≤ EndSpan s) ∨ EndSpan s = MaxInt32 →
  (prefetch_layer cfg order d (bs, m)).1 = Panic.
Proof.
  intros Hen Hord Hmax Hf Hu Hr Hs Hbad. unfold prefetch_layer, executePrefetch. rewrite Hen. cbn [negb].
  unfold loadPrefetchArtifact, st_bind, st_map_err. cbn [s_Fetch paired_store]. unfold on_store. cbn [fst snd]. rewrite Hf. cbn [map_err]. unfold st_lift. rewrite Hu. cbn [map_err].
  destruct (decide (Exists (λ s', EndSpan s' = MaxInt32) (PrefetchSpans artifact))) as [(s' & Hs' & He')%list.Exists_exists|Hno].
  - assert (spansToFetch (PrefetchSpans artifact) = None) as ->; [|done]. unfold spansToFetch.
    destruct (mapM prefetch_range (PrefetchSpans artifact)) as [ls|] eqn:E; [|done]. exfalso. apply mapM_Some in E.
    apply list_elem_of_lookup in Hs' as [k Hk]. destruct (Forall2_lookup_l _ _ _ _ _ E Hk) as (y & _ & Hy). unfold prefetch_range in Hy.
    rewrite He' in Hy. rewrite prefetch_loop_forever in Hy; [done|]. rewrite list.Forall_forall in Hr. apply Hr. by eapply list_elem_of_lookup_2.
  - destruct Hbad as [[Hneg Hle]|He]; [|by destruct Hno; apply list.Exists_exists; exists s].
    assert (Forall (λ s, EndSpan s ≠ MaxInt32) (PrefetchSpans artifact)) as Hall by (apply list.Forall_forall; intros s' Hs' He'; apply Hno, list.Exists_exists; by exists s').
    rewrite (prefetch_spans_collected_aux _ Hr Hall).
    assert (StartSpan s ∈ prefetched (PrefetchSpans artifact)) as Hin by (apply list_elem_of_bind; exists s; split; [apply elem_of_seqZ; lia|done]).
    destruct (prefetched (PrefetchSpans artifact)) as [|i ids] eqn:Ei; [by apply not_elem_of_nil in Hin|]. cbn [st_ret].
    assert (StartSpan s ∈ order (i :: ids)) as Hin' by (by rewrite Hord).
    pose proof (workers_panic (order (i :: ids)) (StartSpan s) (bs', m) Hin' Hneg Hmax) as Hw.
    by destruct (prefetch_workers _ _ _) as [r e].
Qed.
End manager.
