(* ===== verification/Source.v ===== *)
(** * Where a layer comes from

    Models [fs/source/source.go]: the labels that the client puts on the layers of an image
    while it pulls it, and the source of a layer that the snapshotter reads back from them. *)
From Stdlib Require Import ZArith Lia Ascii.
From stdpp Require Import base list gmap strings numbers.
From S2P Require Import Prelude GoLib Ztoc Oci ArtifactsDb SnapshotHost Snapshot Fetch Unpack.
#[local] Open Scope Z_scope.
Local Open Scope go_scope.

(** Labels of containerd's package [snapshotters], and our own. *)
Definition TargetRefLabel : string := "containerd.io/snapshot/cri.image-ref".
Definition TargetLayerDigestLabel : string := "containerd.io/snapshot/cri.layer-digest".
Definition TargetImageLayersLabel : string := "containerd.io/snapshot/cri.image-layers".
Definition targetImageLayersSizeLabel : string := "containerd.io/snapshot/remote/image.layers.size".
Definition TargetSociIndexDigestLabel : string := "containerd.io/snapshot/remote/soci.index.digest".

(** [H] are the configurations of registry hosts. *)
Record Source (H : Type) := mkSource { Hosts : list H; s_Name : reference_Spec; Target : Descriptor; Manifest_Layers : list Descriptor }.
Arguments mkSource {H}.
Arguments Hosts {H}.
Arguments s_Name {H}.
Arguments Target {H}.
Arguments Manifest_Layers {H}.

(** [reference.Parse], [Spec.String], [digest.Parse] and [labels.Validate]. *)
Class References := {
  reference_Parse : string → outcome reference_Spec;
  spec_String : reference_Spec → string;
  digest_parse : string → outcome string;
  labels_Validate : string → string → bool
}.

Section source.
Context `{References} `{MediaTypes} {Host : Type}.
Abbreviation labels := (gmap string string).

(** The layers beside the target; [sizes] is absent or as long as [digests]. *)
Fixpoint neighbors (target : string) (digests : list string) (sizes : option (list string)) : outcome (list Descriptor) :=
  match digests with
  | [] => Ok []
  | l :: digests' =>
      d ← digest_parse l;
      if String.eqb d target then neighbors target digests' (tail <$> sizes)
      else
        size ← match sizes with
               | None => Ok 0
               | Some ss => s ← must (head ss); ParseInt s
               end;
        rest ← neighbors target digests' (tail <$> sizes);
        Ok (content_desc "" d size :: rest)
  end.

Definition FromDefaultLabels (hosts : reference_Spec → outcome (list Host)) (ls : labels) : outcome (list (Source Host)) :=
  match ls !! TargetRefLabel with
  | None => Err (ErrorString "reference hasn't been passed")
  | Some refStr =>
      refspec ← reference_Parse refStr;
      match ls !! TargetLayerDigestLabel with
      | None => Err (ErrorString "digest hasn't been passed")
      | Some digestStr =>
          target ← digest_parse digestStr;
          targetSize ← match ls !! TargetSizeLabel with Some s => ParseInt s | None => Ok 0 end;
          neighboring ←
            match ls !! TargetImageLayersLabel with
            | None => Ok []
            | Some l =>
                let layerDigestsStr := split_on ","%char l in
                let layerSizes := split_on ","%char <$> ls !! targetImageLayersSizeLabel in
                if match layerSizes with Some s => negb (length layerDigestsStr =? length s)%nat | None => false end
                then Err (ErrorString "the lengths of layer digests and layer sizes don't match")
                else neighbors target layerDigestsStr layerSizes
            end;
          let targetDesc := mkDesc "" target targetSize ls None "" in
          hs ← map_err (Wrap "failed to get registry host configurations") (hosts refspec);
          Ok [mkSource hs refspec targetDesc (targetDesc :: neighboring)]
      end
  end.

(** *** The handler that labels *)
Fixpoint layer_sizes (acc : string) (ls : list Descriptor) : string :=
  match ls with
  | [] => acc
  | l :: ls' =>
      if IsLayerType (d_MediaType l) then
        let acc' := acc +:+ FormatInt (d_Size l) +:+ "," in
        if labels_Validate targetImageLayersSizeLabel acc' then layer_sizes acc' ls' else acc
      else layer_sizes acc ls'
  end.

(** [strings.TrimSuffix(s, ",")]. *)
Fixpoint trim_comma (s : string) : string :=
  match s with
  | EmptyString => EmptyString
  | String c EmptyString => if Ascii.eqb c ","%char then EmptyString else s
  | String c s' => String c (trim_comma s')
  end.

(** [spare] are the elements of the slice [children] beyond its length. *)
Definition label_child (indexDigest : string) (children spare : list Descriptor) (i : nat) (c : Descriptor) : outcome Descriptor :=
  if IsLayerType (d_MediaType c) then
    let ann := <[TargetSociIndexDigestLabel := indexDigest]> (<[TargetSizeLabel := FormatInt (d_Size c)]> (d_Annotations c)) in
    let remaining := length (split_on ","%char (default "" (ann !! TargetImageLayersLabel))) in
    ls ← slice (children ++ spare) (Z.of_nat i) (Z.of_nat (i + remaining));
    Ok (mkDesc (d_MediaType c) (d_Digest c) (d_Size c) (<[targetImageLayersSizeLabel := trim_comma (layer_sizes "" ls)]> ann)
          (d_Platform c) (d_ArtifactType c))
  else Ok c.

Fixpoint label_children (indexDigest : string) (children spare : list Descriptor) (i : nat) (todo : list Descriptor) : outcome (list Descriptor) :=
  match todo with
  | [] => Ok []
  | c :: todo' =>
      c' ← label_child indexDigest children spare i c;
      rest ← label_children indexDigest children spare (S i) todo';
      Ok (c' :: rest)
  end.

Definition MediaTypeDockerSchema2Manifest : string := "application/vnd.docker.distribution.manifest.v2+json".

(** [handle] is the wrapped handler. *)
Definition AppendDefaultLabelsHandlerWrapper (indexDigest : string) (handle : Descriptor → outcome (list Descriptor)) (spare : list Descriptor)
    (desc : Descriptor) : outcome (list Descriptor) :=
  children ← handle desc;
  if String.eqb (d_MediaType desc) MediaTypeImageManifest || String.eqb (d_MediaType desc) MediaTypeDockerSchema2Manifest
  then label_children indexDigest children spare 0 children
  else Ok children.
End source.

(** ** Labels are read back *)
Lemma no_char_digit d : 0 ≤ d < 10 → Ascii.eqb (digit_char d) ","%char = false.
Proof.
  intros Hd. apply Ascii.eqb_neq. intros Heq. destruct (digit_digit_char d Hd) as [E _]. rewrite Heq in E. by vm_compute in E.
Qed.
Lemma no_char_format fuel n acc : no_char ","%char acc = true → no_char ","%char (format_nat fuel n acc) = true.
Proof.
  revert n acc. induction fuel as [|fuel IH]; intros n acc Ha; [done|]. cbn [format_nat].
  assert (no_char ","%char (String (digit_char (n mod 10)) acc) = true) as Hc.
  { cbn [no_char]. rewrite no_char_digit by (pose proof (Z.mod_pos_bound n 10); lia). done. }
  destruct (n / 10 =? 0); [done|]. by apply IH.
Qed.
Lemma no_char_FormatInt z : no_char ","%char (FormatInt z) = true.
Proof. unfold FormatInt. destruct (z <? 0); [change (no_char ","%char (format_nat 20 (- z) "") = true)|]; by apply no_char_format. Qed.

Lemma trim_comma_app s : trim_comma (s +:+ ",") = s.
Proof.
  induction s as [|c s IH]; [done|]. change (trim_comma (String c (s +:+ ",")) = String c s). destruct s as [|d s]; [done|].
  change (String c (trim_comma (String d s +:+ ",")) = String c (String d s)). by rewrite IH.
Qed.

(** What the sizes of layers are written as. *)
Definition size_list (ls : list Descriptor) : string := foldr (λ l acc, FormatInt (d_Size l) +:+ "," +:+ acc) "" ls.

Section roundtrip.
Context `{References} `{MediaTypes} {Host : Type}.

Lemma layer_sizes_spec acc ls : Forall (λ l, IsLayerType (d_MediaType l) = true) ls →
  (∀ k, labels_Validate targetImageLayersSizeLabel (acc +:+ size_list (take k ls)) = true) → layer_sizes acc ls = acc +:+ size_list ls.
Proof.
  intros Hl. revert acc. induction Hl as [|l ls Hl _ IH]; intros acc Hv; cbn [layer_sizes size_list foldr]; [by rewrite string_app_nil_r|].
  rewrite Hl. pose proof (Hv 1%nat) as Hv1. cbn [take size_list foldr] in Hv1. rewrite string_app_nil_r in Hv1. rewrite Hv1. rewrite IH.
  - by rewrite !string_app_assoc.
  - intros k. specialize (Hv (S k)). cbn [take size_list foldr] in Hv. by rewrite !string_app_assoc.
Qed.
Lemma size_list_join l ls : size_list (l :: ls) = strings_Join "," ((λ l, FormatInt (d_Size l)) <$> (l :: ls)) +:+ ",".
Proof.
  revert l. induction ls as [|m ls IH]; intros l; [cbn; by rewrite string_app_nil_r|].
  change (FormatInt (d_Size l) +:+ "," +:+ size_list (m :: ls) =
    (FormatInt (d_Size l) +:+ "," +:+ strings_Join "," ((λ l, FormatInt (d_Size l)) <$> (m :: ls))) +:+ ","). by rewrite IH, !string_app_assoc.
Qed.

(** A layer whose digest and size can be written into labels. *)
Definition labelable (l : Descriptor) : Prop :=
  IsLayerType (d_MediaType l) = true ∧ in_int64 (d_Size l) ∧ no_char ","%char (d_Digest l) = true ∧ digest_parse (d_Digest l) = Ok (d_Digest l).

Lemma neighbors_spec target ls : Forall labelable ls →
  neighbors target (d_Digest <$> ls) (Some ((λ l, FormatInt (d_Size l)) <$> ls)) =
  Ok ((λ l, content_desc "" (d_Digest l) (d_Size l)) <$> filter (λ l, d_Digest l ≠ target) ls).
Proof.
  intros Hls. induction Hls as [|l ls (_ & Hs & _ & Hd) _ IH]; [done|].
  change (mbind (M:=outcome) (λ d, if String.eqb d target then neighbors target (d_Digest <$> ls) (Some ((λ l, FormatInt (d_Size l)) <$> ls))
    else mbind (M:=outcome) (λ size, mbind (M:=outcome) (λ rest, Ok (content_desc "" d size :: rest)) (neighbors target (d_Digest <$> ls) (Some ((λ l, FormatInt (d_Size l)) <$> ls))))
      (ParseInt (FormatInt (d_Size l)))) (digest_parse (d_Digest l)) =
    Ok ((λ l, content_desc "" (d_Digest l) (d_Size l)) <$> filter (λ l, d_Digest l ≠ target) (l :: ls))).
  rewrite Hd, ParseInt_FormatInt, IH by done. cbn [mbind outcome_bind].
  destruct (String.eqb_spec (d_Digest l) target) as [Heq|Hne].
  - by rewrite filter_cons_False by (intros Hn; by apply Hn).
  - by rewrite filter_cons_True by done.
Qed.

(** C25: what the client writes into the labels of a layer is what the snapshotter reads back:
    its digest and size, and the digests and sizes of the other layers that are listed, as
    long as the list of sizes is not too long for a label. *)
Theorem labels_roundtrip indexDigest children spare i c n hosts hs refStr spec :
  let ls := take n (drop i children) in
  children !! i = Some c → (0 < n)%nat → (i + n ≤ length children)%nat → Forall labelable ls →
  (∀ k, labels_Validate targetImageLayersSizeLabel (size_list (take k ls)) = true) →
  d_Annotations c !! TargetImageLayersLabel = Some (strings_Join "," (d_Digest <$> ls)) →
  d_Annotations c !! TargetRefLabel = Some refStr → d_Annotations c !! TargetLayerDigestLabel = Some (d_Digest c) →
  reference_Parse refStr = Ok spec → hosts spec = Ok hs →
  ∃ c' target, label_child indexDigest children spare i c = Ok c' ∧
    FromDefaultLabels (Host:=Host) hosts (d_Annotations c') =
      Ok [mkSource hs spec target (target :: ((λ l, content_desc "" (d_Digest l) (d_Size l)) <$> filter (λ l, d_Digest l ≠ d_Digest c) ls))] ∧
    d_Digest target = d_Digest c ∧ d_Size target = d_Size c ∧
    d_Annotations target !! TargetSociIndexDigestLabel = Some indexDigest.
Proof.
  intros ls Hc Hn Hlen Hls Hval Hlay Href Hdig Hparse Hhosts.
  assert (∃ rest, ls = c :: rest) as [rest Els].
  { unfold ls. rewrite (drop_S children c i Hc). destruct n; [lia|]. by eexists. }
  assert (labelable c) as (Hc1 & Hc2 & Hc3 & Hc4) by (rewrite Els in Hls; by apply list.Forall_cons in Hls as [? _]).
  assert (split_on ","%char (strings_Join "," (d_Digest <$> ls)) = d_Digest <$> ls) as Hsplit.
  { apply split_paths; [by rewrite Els|]. apply Forall_fmap. eapply list.Forall_impl; [exact Hls|]. by intros l (_ & _ & ? & _). }
  assert (length ls = n) as Hln by (unfold ls; rewrite length_take, length_drop; lia).
  unfold label_child. rewrite Hc1. rewrite !lookup_insert_ne by done. rewrite Hlay. cbn [from_option id]. rewrite Hsplit, length_fmap, Hln.
  unfold slice. rewrite zlen_app. unfold zlen at 1. destruct (Z.leb_spec 0 (Z.of_nat i)); [|lia]. destruct (Z.leb_spec (Z.of_nat i) (Z.of_nat (i + n))); [|lia].
  pose proof (zlen_nonneg spare). destruct (Z.leb_spec (Z.of_nat (i + n)) (Z.of_nat (length children) + zlen spare)); [|lia]. cbn [andb mbind outcome_bind].
  assert (sub (Z.of_nat i) (Z.of_nat (i + n)) (children ++ spare) = ls) as Hsub.
  { unfold sub, ls. rewrite drop_app_le, take_app_le by (rewrite ?length_drop; lia). f_equal; [lia|]. f_equal. lia. }
  rewrite Hsub, (layer_sizes_spec "" ls); [|by eapply list.Forall_impl; [exact Hls|]; intros l (? & _)|exact Hval].
  change ("" +:+ size_list ls) with (size_list ls). 
  assert (trim_comma (size_list ls) = strings_Join "," ((λ l, FormatInt (d_Size l)) <$> ls)) as -> by (rewrite Els; by rewrite size_list_join, trim_comma_app).
  eexists _, _. split; [done|]. cbn [d_Annotations]. set (sizes := strings_Join "," _). set (ann := <[targetImageLayersSizeLabel := sizes]> _).
  assert (ann !! TargetRefLabel = Some refStr) as Ha1 by (unfold ann; by rewrite !lookup_insert_ne by done).
  assert (ann !! TargetLayerDigestLabel = Some (d_Digest c)) as Ha2 by (unfold ann; by rewrite !lookup_insert_ne by done).
  assert (ann !! TargetSizeLabel = Some (FormatInt (d_Size c))) as Ha3 by (unfold ann; rewrite !lookup_insert_ne by done; apply lookup_insert_eq).
  assert (ann !! TargetImageLayersLabel = Some (strings_Join "," (d_Digest <$> ls))) as Ha4 by (unfold ann; by rewrite !lookup_insert_ne by done).
  assert (ann !! targetImageLayersSizeLabel = Some sizes) as Ha5 by (unfold ann; apply lookup_insert_eq).
  assert (ann !! TargetSociIndexDigestLabel = Some indexDigest) as Ha6 by (unfold ann; rewrite lookup_insert_ne by done; apply lookup_insert_eq).
  unfold FromDefaultLabels. rewrite Ha1, Hparse. cbn [mbind outcome_bind]. rewrite Ha2, Hc4. cbn [mbind outcome_bind].
  rewrite Ha3, ParseInt_FormatInt by done. cbn [mbind outcome_bind]. rewrite Ha4, Ha5, Hsplit. cbn [fmap option_fmap option_map].
  assert (split_on ","%char sizes = (λ l, FormatInt (d_Size l)) <$> ls) as ->.
  { apply split_paths; [by rewrite Els|]. apply Forall_fmap, list.Forall_forall. intros l _. apply no_char_FormatInt. }
  rewrite !length_fmap, Nat.eqb_refl. cbn [negb]. rewrite neighbors_spec by done. cbn [mbind outcome_bind]. rewrite Hhosts. cbn [map_err mbind outcome_bind].
  split_and!; done.
Qed.
End roundtrip.
