(* ===== verification/FsIndex.v ===== *)
(** * Finding the SOCI index of an image

    Models the part of [fs/fs.go] between a mount request and the artifacts of its image:
    [sociContext], [getSociContext], [fetchSociIndex], [findSociIndexDesc] and the lookups
    below them. *)
From Stdlib Require Import ZArith Lia Ascii.
From stdpp Require Import base list gmap strings numbers.
From S2P Require Import Prelude GoLib Ztoc ZtocBuilder Oci ArtifactsDb SociIndex SnapshotHost Snapshot Fetch FetchFacts Unpack Source.
#[local] Open Scope Z_scope.
Local Open Scope go_scope.

Definition ErrAllLazyPullModesDisabled : error := Sentinel "all lazy pull modes are disabled".

(** ** Configuration *)
Record MirrorConfig := mkMirror { mirror_Host : string; Insecure : bool }.
(** The mirrors of each host. *)
Definition ResolverConfig : Type := gmap string (list MirrorConfig).
Definition isInsecureHost (cfg : ResolverConfig) (host : string) : bool :=
  match cfg !! host with
  | None => false
  | Some mirrors => existsb Insecure mirrors
  end.

Record PullModes := mkPullModes { SOCIv1_Enable : bool; SOCIv2_Enable : bool }.

(** What oras does beyond [RegistryEnv]: the repository of manifests. *)
Class ManifestEnv (E : Type) := {
  Repository_Resolve : Repository → string → ST E Descriptor;
  Manifests_FetchReference : Repository → string → ST E stream;
  Decode_manifest : stream → outcome Manifest    (* [json.Decoder.Decode] *)
}.

Section index.
Context {E : Type} `{HR : RegistryEnv E} `{HM : ManifestEnv E} `{HS : Store E} `{HD : DocJSON} `{HF : References}.
Context (cfg : ResolverConfig) (modes : PullModes).

(** ** Which index *)
Definition parseIndexDigest (sociIndexDigest : string) : outcome Descriptor :=
  dg ← map_err (Wrap "unable to parse SOCI index digest") (digest_parse sociIndexDigest);
  Ok (content_desc "" dg 0).

(** Annotations that are absent are an empty map. *)
Definition findSociIndexDescAnnotation (imgDigest : string) (remoteStore : Repository) : ST E Descriptor :=
  r <~ st_map_err (Wrap "could not fetch manifest") (Manifests_FetchReference remoteStore imgDigest);;
  manifest <~ st_lift (map_err (Wrap "could not unmarshal manifest") (Decode_manifest r));;
  let indexDigestStr := default "" (m_Annotations manifest !! ImageAnnotationSociIndexDigest) in
  if negb (String.eqb indexDigestStr "") then st_lift (parseIndexDigest indexDigestStr)
  else st_err errdefs_ErrNotFound.

Definition findSociIndexDescReferrer (imgDigest : string) (remoteStore : Repository) : ST E Descriptor :=
  st_map_err (Wrap "cannot fetch list of referrers") (SelectReferrer remoteStore (content_desc "" imgDigest 0) SelectFirstPolicy).

(** One place to look: an answer or an error ends the search, except for the error that says
    that there is nothing there. *)
Definition or_else {A} (m : ST E A) (nothing : error) (k : ST E A) : ST E A := λ e,
  match m e with
  | (Err err, e1) => if errors_Is err nothing then k e1 else (Err err, e1)
  | r => r
  end.

Definition findSociIndexDesc (imageManifestDigest sociIndexDigest : string) (remoteStore : Repository) : ST E Descriptor :=
  imgDigest <~ st_lift (map_err (Wrap "unable to parse image digest") (digest_parse imageManifestDigest));;
  if negb (String.eqb sociIndexDigest "") then st_lift (parseIndexDigest sociIndexDigest)
  else if negb (SOCIv1_Enable modes) && negb (SOCIv2_Enable modes) then st_err ErrAllLazyPullModesDisabled
  else
    let v1 := if SOCIv1_Enable modes
              then or_else (findSociIndexDescReferrer imgDigest remoteStore) ErrNoReferrers (st_err errdefs_ErrNotFound)
              else st_err errdefs_ErrNotFound in
    if SOCIv2_Enable modes then or_else (findSociIndexDescAnnotation imgDigest remoteStore) errdefs_ErrNotFound v1 else v1.

(** ** Its artifacts

    The repository of manifests as the store the artifacts are in. *)
Definition manifestStore (r : Repository) : resolverStorage := mkRS (Repository_Resolve r) (Repository_Fetch r) None.

(** [order] and [now]: of the goroutines, and the time. *)
Definition fetchSociIndex (now : string) (order : list (nat * Descriptor) → list (nat * Descriptor))
    (imageRef indexDigest imageManifestDigest : string) : ST E Index :=
  refspec <~ st_lift (reference_Parse imageRef);;
  remoteStore <~ st_lift (newRemoteStore refspec (isInsecureHost cfg (rs_Hostname refspec)));;
  indexDesc <~ st_map_err (Join ErrNoIndex) (findSociIndexDesc imageManifestDigest indexDigest remoteStore);;
  st_map_err (λ e, Join ErrNoIndex (Wrap "error trying to fetch SOCI artifacts" e))
    (FetchSociArtifacts refspec indexDesc (manifestStore remoteStore) now order).
End index.

(** ** Contexts

    [fetched]: [fetchOnce] has fired; [paused]: [bgFetchPauseOnce] has. *)
Record sociContext := mkSC {
  fetched : bool;
  cachedErr : option error;
  paused : bool;
  sociIndex : option Index;
  imageLayerToSociDesc : gmap string Descriptor
}.
Definition empty_context : sociContext := mkSC false None false None ∅.

Definition populateImageLayerToSociMapping (sociIndex : Index) : gmap string Descriptor :=
  foldl (λ m desc, if String.eqb (d_MediaType desc) SociLayerMediaType
                   then <[default "" (d_Annotations desc !! IndexAnnotationImageLayerDigest) := desc]> m else m) ∅ (i_Blobs sociIndex).

Definition is_prefetch_of (layerDigest : string) (desc : Descriptor) : bool :=
  String.eqb (d_MediaType desc) SociPrefetchMediaType &&
  match d_Annotations desc !! IndexAnnotationImageLayerDigest with Some ociDigest => String.eqb ociDigest layerDigest | None => false end.
Definition findPrefetchArtifact (layerDigest : string) (c : sociContext) : option Descriptor :=
  match sociIndex c with
  | None => None
  | Some i => List.find (is_prefetch_of layerDigest) (i_Blobs i)
  end.

(** The contexts of images, by the digest of their manifests. *)
Record contexts (E : Type) := mkContexts { cx_env : E; sociContexts : gmap string sociContext }.
Arguments mkContexts {E}.
Arguments cx_env {E}.
Arguments sociContexts {E}.

Section contexts.
Context {E : Type}.
Implicit Types (c : sociContext) (s : contexts E).

(** [Init]: [fetch] runs the first time; a call that runs at the same time waits for it. *)
Definition Init (fetch : ST E Index) c (e : E) : outcome () * sociContext * E :=
  if fetched c then (match cachedErr c with Some err => Err err | None => Ok tt end, c, e)
  else match fetch e with
  | (Ok index, e1) => (Ok tt, mkSC true (cachedErr c) (paused c) (Some index) (populateImageLayerToSociMapping index), e1)
  | (Err err, e1) => (Err err, mkSC true (Some err) (paused c) (sociIndex c) (imageLayerToSociDesc c), e1)
  | (Panic, e1) => (Panic, c, e1)
  end.

Definition getSociContext (imageManifestDigest : string) (fetch : ST E Index) : ST (contexts E) sociContext := λ s,
  let '(r, c, e) := Init fetch (default empty_context (sociContexts s !! imageManifestDigest)) (cx_env s) in
  (_ ← r; Ok c, mkContexts e (<[imageManifestDigest := c]> (sociContexts s))).

(** [c.bgFetchPauseOnce.Do]. *)
Definition pauseOnce (imageManifestDigest : string) (pause : E → E) s : contexts E :=
  match sociContexts s !! imageManifestDigest with
  | Some c => if paused c then s
              else mkContexts (pause (cx_env s))
                     (<[imageManifestDigest := mkSC (fetched c) (cachedErr c) true (sociIndex c) (imageLayerToSociDesc c)]> (sociContexts s))
  | None => s
  end.
End contexts.

(** ** Theorems *)
Section theorems.
Context {E : Type} `{HR : RegistryEnv E} `{HM : ManifestEnv E} `{HS : Store E} `{HD : DocJSON} `{HF : References}.

(** When the index of an image or one of its artifacts cannot be had, for whatever reason,
    the error says that there is no index, which is what makes the snapshotter fall back to
    pulling the image: every failure of [fetchSociIndex] does, once the reference is one that a
    repository can be made for. *)
Theorem index_errors_fall_back cfg modes now order imageRef indexDigest md spec repo e err e' :
  reference_Parse imageRef = Ok spec → newRemoteStore spec (isInsecureHost cfg (rs_Hostname spec)) = Ok repo →
  fetchSociIndex cfg modes now order imageRef indexDigest md e = (Err err, e') → errors_Is err ErrNoIndex = true.
Proof.
  intros Hp Hn. unfold fetchSociIndex, st_bind, st_lift. rewrite Hp, Hn. unfold st_map_err.
  destruct (findSociIndexDesc modes md indexDigest repo e) as [[d|err1|] e1]; cbn [map_err]; [|by intros [= <- _]|done].
  destruct (FetchSociArtifacts spec d (manifestStore repo) now order e1) as [[i|err1|] e2]; cbn [map_err]; [done|by intros [= <- _]|done].
Qed.
End theorems.

(** Calls of all mounts, one after the other. *)
Inductive ctx_op (E : Type) := OpContext (key : string) (fetch : ST E Index) | OpPause (key : string) (pause : E → E) | OpOutside (f : E → E).
Arguments OpContext {E}.
Arguments OpPause {E}.
Arguments OpOutside {E}.
Definition run_ctx {E} (s : contexts E) (o : ctx_op E) : contexts E :=
  match o with
  | OpContext k f => (getSociContext k f s).2
  | OpPause k p => pauseOnce k p s
  | OpOutside f => mkContexts (f (cx_env s)) (sociContexts s)
  end.

(** What a context that has been fetched says. *)
Definition settled {E} (k : string) (r : outcome (option Index * gmap string Descriptor)) (s : contexts E) : Prop :=
  ∃ c, sociContexts s !! k = Some c ∧ fetched c = true ∧
    match r with
    | Ok (i, m) => cachedErr c = None ∧ sociIndex c = i ∧ imageLayerToSociDesc c = m
    | Err e => cachedErr c = Some e
    | Panic => False
    end.
Definition answer (r : outcome sociContext) : outcome (option Index * gmap string Descriptor) :=
  c ← r; Ok (sociIndex c, imageLayerToSociDesc c).

Section settled.
Context {E : Type}.
Implicit Types (s : contexts E).

Lemma settled_again k r f s : settled k r s → answer (getSociContext k f s).1 = r ∧ (getSociContext k f s).2 = s.
Proof.
  intros (c & Hc & Hf & Hr). unfold getSociContext, Init. rewrite Hc. cbn [from_option id]. rewrite Hf.
  assert (mkContexts (cx_env s) (<[k := c]> (sociContexts s)) = s) as Hs by (destruct s as [e m]; cbn in *; by rewrite insert_id).
  destruct r as [[i m]|e|]; [destruct Hr as (-> & <- & <-)|rewrite Hr|done]; by rewrite <-Hs at 3.
Qed.
Lemma settled_first k f s r : (∀ c, sociContexts s !! k = Some c → fetched c = false → cachedErr c = None) →
  answer (getSociContext k f s).1 = r → r ≠ Panic → settled k r (getSociContext k f s).2.
Proof.
  intros Hwf <- Hp. unfold settled, getSociContext, Init in *. set (c := default empty_context (sociContexts s !! k)) in *.
  assert (fetched c = false → cachedErr c = None) as Hc.
  { unfold c. destruct (sociContexts s !! k) as [c0|] eqn:Ek; [cbn; by apply Hwf|done]. }
  destruct (fetched c) eqn:Ef.
  - exists c. cbn [fst snd sociContexts]. rewrite lookup_insert_eq. by destruct (cachedErr c) eqn:Ee.
  - destruct (f (cx_env s)) as [[i|err|] e1]; cbn [fst snd sociContexts] in *; [|by eexists; rewrite lookup_insert_eq|done].
    eexists. rewrite lookup_insert_eq. split; [done|]. cbn. by rewrite Hc.
Qed.
Lemma settled_op k r s o : settled k r s → settled k r (run_ctx s o).
Proof.
  intros (c & Hc & Hf & Hr). destruct o as [k' f|k' p|f]; cbn [run_ctx].
  - destruct (decide (k' = k)) as [->|Hne].
    + rewrite (proj2 (settled_again k r f s (ex_intro _ c (conj Hc (conj Hf Hr))))). by exists c.
    + exists c. unfold getSociContext. destruct (Init f _ _) as [[r' c'] e']. cbn [snd sociContexts]. by rewrite lookup_insert_ne.
  - unfold pauseOnce. destruct (sociContexts s !! k') as [c'|] eqn:Ek; [|by exists c]. destruct (paused c'); [by exists c|].
    destruct (decide (k' = k)) as [->|Hne]; [|exists c; cbn [sociContexts]; by rewrite lookup_insert_ne].
    rewrite Hc in Ek. injection Ek as <-. eexists. cbn [sociContexts]. rewrite lookup_insert_eq. by split_and!.
  - by exists c.
Qed.

Lemma ctx_wf ops s0 s : sociContexts s0 = ∅ → s = foldl run_ctx s0 ops → ∀ k c, sociContexts s !! k = Some c → fetched c = false → cachedErr c = None.
Proof.
  intros H0 ->. assert (∀ k c, sociContexts s0 !! k = Some c → fetched c = false → cachedErr c = None) as Hw by (rewrite H0; intros k c Hk; by rewrite lookup_empty in Hk).
  clear H0. revert s0 Hw. induction ops as [|o ops IH]; intros s0 Hw; [done|]. cbn [foldl]. apply IH. intros k c. destruct o as [k' f|k' p|f]; cbn [run_ctx].
  - unfold getSociContext, Init. set (c0 := default empty_context (sociContexts s0 !! k')).
    assert (fetched c0 = false → cachedErr c0 = None) as Hc0 by (unfold c0; destruct (sociContexts s0 !! k') as [x|] eqn:Ex; [cbn; by eapply Hw|done]).
    destruct (fetched c0) eqn:Ef; [|destruct (f (cx_env s0)) as [[i|err|] e1]]; cbn [snd sociContexts];
      (intros [[-> <-]|[Hne Hk]]%lookup_insert_Some Hfc; [|by eapply Hw]); cbn in *; try congruence; by apply Hc0.
  - unfold pauseOnce. destruct (sociContexts s0 !! k') as [c'|] eqn:Ek; [|by apply Hw]. destruct (paused c'); [by apply Hw|]. cbn [sociContexts].
    intros [[-> <-]|[Hne Hk]]%lookup_insert_Some Hfc; [|by eapply Hw]. cbn in *. by eapply Hw.
  - by apply Hw.
Qed.

(** C35: the SOCI artifacts of an image are asked for once.  Whatever the first call for a
    manifest gives, an index or an error, every later one gives the same for as long as the
    process runs, without asking again and whatever reference and index digest it is for; so
    an error that has gone away since, or was only a cancelled request, still stands. *)
Theorem soci_context_sticks (e0 : E) before k f r after (f' : ST E Index) :
  let s := foldl run_ctx (mkContexts e0 ∅) before in
  let s1 := foldl run_ctx (getSociContext k f s).2 after in
  answer (getSociContext k f s).1 = r → r ≠ Panic →
  answer (getSociContext k f' s1).1 = r ∧ (getSociContext k f' s1).2 = s1.
Proof.
  intros s s1 Hr Hp. apply settled_again. unfold s1.
  assert (settled k r (getSociContext k f s).2) as Hs by (apply settled_first; [by eapply (ctx_wf before (mkContexts e0 ∅) s)|done..]).
  clear Hr. revert Hs. generalize (getSociContext k f s).2. induction after as [|o after IH]; intros s2 Hs; [done|]. cbn [foldl]. by apply IH, settled_op.
Qed.
End settled.
