(* ===== verification/FsPreresolve.v ===== *)
(** * The preresolver

    Models [preresolver] of [fs/fs.go]: layers that no mount waits for yet are resolved ahead
    of time by goroutines whose number is bounded; a cache of keys keeps a layer from being
    enqueued twice. *)
From Stdlib Require Import ZArith Lia.
From stdpp Require Import base list gmap strings numbers relations.
From S2P Require Import Prelude GoLib Prog.
#[local] Open Scope Z_scope.

Definition preresolverQueueBufferSize : Z := 1024.

(** A function of the queue, with the key that it returns. *)
Record job (A : Type) := mkJob { j_key : string; j_fn : A }.
Arguments mkJob {A}.
Arguments j_key {A}.
Arguments j_fn {A}.

(** The semaphore has a size and what is acquired of it. *)
Record preresolver (A : Type) := mkPR { pr_queue : list (job A); pr_cache : gset string; smp : option (Z * Z) }.
Arguments mkPR {A}.
Arguments pr_queue {A}.
Arguments pr_cache {A}.
Arguments smp {A}.

Section preresolver.
Context {A : Type}.
Implicit Types (pr : preresolver A) (j : job A).

Definition newPreresolver (maxConcurrency : Z) : preresolver A :=
  mkPR [] ∅ (if 0 <? maxConcurrency then Some (maxConcurrency, 0) else None).

Definition cache_Load (k : string) : ST (preresolver A) bool := λ pr, (Ok (bool_decide (k ∈ pr_cache pr)), pr).
Definition cache_Store (k : string) : ST (preresolver A) () := λ pr, (Ok tt, mkPR (pr_queue pr) ({[k]} ∪ pr_cache pr) (smp pr)).
Definition cache_Delete (k : string) : ST (preresolver A) () := λ pr, (Ok tt, mkPR (pr_queue pr) (pr_cache pr ∖ {[k]}) (smp pr)).
(** Sending does not wait: when the queue is full the function is dropped. *)
Definition try_send j : ST (preresolver A) bool := λ pr,
  if zlen (pr_queue pr) <? preresolverQueueBufferSize then (Ok true, mkPR (pr_queue pr ++ [j]) (pr_cache pr) (smp pr)) else (Ok false, pr).

Local Open Scope prog_scope.
Definition Enqueue j : prog (preresolver A) () :=
  do known := act (cache_Load (j_key j));
  if known : bool then Ret (Ok tt)
  else do sent := act (try_send j); if sent : bool then act (cache_Store (j_key j)) else Ret (Ok tt).

(** [Release] of more than is held panics. *)
Definition smp_Release : ST (preresolver A) () := λ pr,
  match smp pr with
  | None => (Ok tt, pr)
  | Some (size, cur) => if cur - 1 <? 0 then (Panic, pr) else (Ok tt, mkPR (pr_queue pr) (pr_cache pr) (Some (size, cur - 1)))
  end.

(** ** The loop of [Start], its goroutines and the callers of [Enqueue]

    [waiting] is the function that was received and waits for the semaphore, [running] are the
    ones that resolve, [finishing] the ones whose key is deleted, before [Release]. *)
Record pool := mkPool {
  w_pr : preresolver A;
  enqueuers : list (prog (preresolver A) ());
  waiting : option (job A);
  running : list (job A);
  finishing : list (job A);
  ctx_Done : bool
}.

Inductive pool_step : pool → pool → Prop :=
| pool_enqueue pr es w rs fs d j : pool_step (mkPool pr es w rs fs d) (mkPool pr (es ++ [Enqueue j]) w rs fs d)
| pool_call pr es w rs fs d i B (m : ST (preresolver A) B) k : es !! i = Some (Call m k) →
    pool_step (mkPool pr es w rs fs d) (mkPool (m pr).2 (<[i := k (m pr).1]> es) w rs fs d)
| pool_receive pr es rs fs d j q : pr_queue pr = j :: q →
    pool_step (mkPool pr es None rs fs d) (mkPool (mkPR q (pr_cache pr) (smp pr)) es (Some j) rs fs d)
| pool_start_unbounded pr es rs fs d j : smp pr = None →
    pool_step (mkPool pr es (Some j) rs fs d) (mkPool pr es None (rs ++ [j]) fs d)
| pool_acquire pr es rs fs d j size cur : smp pr = Some (size, cur) → cur + 1 ≤ size →
    pool_step (mkPool pr es (Some j) rs fs d) (mkPool (mkPR (pr_queue pr) (pr_cache pr) (Some (size, cur + 1))) es None (rs ++ [j]) fs d)
| pool_acquire_fails pr es rs fs j size cur : smp pr = Some (size, cur) →      (* the error is dropped *)
    pool_step (mkPool pr es (Some j) rs fs true) (mkPool pr es None (rs ++ [j]) fs true)
| pool_resolved pr es w rs fs d i j : rs !! i = Some j →
    pool_step (mkPool pr es w rs fs d) (mkPool (cache_Delete (j_key j) pr).2 es w (delete i rs) (j :: fs) d)
| pool_release pr es w rs fs d i j pr' : fs !! i = Some j → smp_Release pr = (Ok tt, pr') →
    pool_step (mkPool pr es w rs fs d) (mkPool pr' es w rs (delete i fs) d)
| pool_cancel pr es w rs fs d : pool_step (mkPool pr es w rs fs d) (mkPool pr es w rs fs true).

Definition start (maxConcurrency : Z) : pool := mkPool (newPreresolver maxConcurrency) [] None [] [] false.
End preresolver.
Arguments pool : clear implicits.

(** ** Theorems *)
Section facts.
Context {A : Type}.
Implicit Types (j : job A) (p : pool A).

(** What the semaphore counts are the goroutines, as long as the context is not done. *)
Definition counted (n : Z) p : Prop := ctx_Done p = false →
  smp (w_pr p) = Some (n, zlen (running p ++ finishing p)) ∧ zlen (running p ++ finishing p) ≤ n.

(** A caller of [Enqueue] at each of its points. *)
Inductive enqueuing : prog (preresolver A) () → Prop :=
| enq_load j : enqueuing (Enqueue j)
| enq_send j : enqueuing (do sent := act (try_send j); if sent : bool then act (cache_Store (j_key j)) else Ret (Ok tt))%prog
| enq_store j : enqueuing (act (cache_Store (j_key j)))
| enq_done o : enqueuing (Ret o).

(** Its calls leave the semaphore alone. *)
Lemma enqueuing_call (e : prog (preresolver A) ()) : enqueuing e →
  match e with Ret _ => True | Call m k => ∀ pr, smp (m pr).2 = smp pr ∧ enqueuing (k (m pr).1) end.
Proof.
  intros [j|j|j|o]; [..|done]; cbn [Enqueue seq pbind act]; intros pr; (split; [try done|]).
  - unfold cache_Load. cbn [fst]. case_bool_decide; [apply enq_done|apply enq_send].
  - unfold try_send. by destruct (zlen (pr_queue pr) <? preresolverQueueBufferSize).
  - unfold try_send. destruct (zlen (pr_queue pr) <? preresolverQueueBufferSize); [apply enq_store|apply enq_done].
  - apply enq_done.
Qed.

Lemma zlen_delete {B} (l : list B) i x : l !! i = Some x → zlen (delete i l) = zlen l - 1.
Proof. intros Hi. unfold zlen. pose proof (lookup_lt_Some _ _ _ Hi). rewrite length_delete by (by eexists). lia. Qed.

Lemma pool_step_counted n p p' : pool_step p p' → Forall enqueuing (enqueuers p) ∧ counted n p → Forall enqueuing (enqueuers p') ∧ counted n p'.
Proof.
  intros Hstep [He Hc]. destruct Hstep; cbn [enqueuers] in *; unfold counted in *; cbn [ctx_Done w_pr running finishing smp] in *.
  - split; [|done]. apply Forall_app. split; [done|]. repeat constructor.
  - assert (enqueuing (Call m k)) as Hm by (by eapply list.Forall_lookup_1). apply enqueuing_call in Hm. specialize (Hm pr) as [Hs Hk].
    split; [by apply Forall_insert|]. by rewrite Hs.
  - by split.
  - split; [done|]. intros Hd. destruct (Hc Hd) as [Hs _]. congruence.
  - split; [done|]. intros Hd. destruct (Hc Hd) as [Hs Hle]. rewrite H in Hs. injection Hs as -> ->. rewrite !zlen_app in *.
    change (zlen [j]) with 1. split; [do 2 f_equal; lia|lia].
  - by split.
  - split; [done|]. intros Hd. destruct (Hc Hd) as [Hs Hle]. cbn [cache_Delete snd smp].
    assert (zlen (delete i rs ++ j :: fs) = zlen (rs ++ fs)) as -> by (rewrite !zlen_app, zlen_cons, (zlen_delete _ _ _ H); lia). done.
  - split; [done|]. intros Hd. destruct (Hc Hd) as [Hs Hle]. unfold smp_Release in H0. rewrite Hs in H0. destruct (_ <? 0); [done|]. injection H0 as <-.
    cbn [smp]. assert (zlen (rs ++ delete i fs) = zlen (rs ++ fs) - 1) as -> by (rewrite !zlen_app, (zlen_delete _ _ _ H); lia). split; [done|lia].
  - by split.
Qed.

(** C27: no more layers are resolved ahead of time at once than [max_concurrency] allows,
    however calls of [Enqueue], the loop and its goroutines interleave, until the service is
    shut down. *)
Theorem preresolver_bounded n p : 0 < n → rtc pool_step (start n) p → ctx_Done p = false → zlen (running p ++ finishing p) ≤ n.
Proof.
  intros Hn Hsteps Hd. assert (Forall enqueuing (enqueuers (start (A:=A) n)) ∧ counted n (start (A:=A) n)) as H0.
  { split; [constructor|]. intros _. unfold start, newPreresolver. cbn. destruct (Z.ltb_spec 0 n); [|lia]. split; [done|]. change (0 ≤ n). lia. }
  assert (Forall enqueuing (enqueuers p) ∧ counted n p) as [_ Hc]; [|by apply Hc].
  revert H0. clear Hd. induction Hsteps as [|p1 p2 p3 Hs _ IH]; [done|]. intros H0. by eapply IH, pool_step_counted.
Qed.

(** A caller that will not send a function with the key. *)
Inductive mute (key : string) : prog (preresolver A) () → Prop :=
| mute_load j : mute key (Enqueue j)
| mute_send j : j_key j ≠ key → mute key (do sent := act (try_send j); if sent : bool then act (cache_Store (j_key j)) else Ret (Ok tt))%prog
| mute_store k : mute key (act (cache_Store k))
| mute_done o : mute key (Ret o).

Lemma mute_call key (e : prog (preresolver A) ()) : mute key e →
  match e with
  | Ret _ => True
  | Call m k => ∀ pr, key ∈ pr_cache pr → Forall (λ j, j_key j ≠ key) (pr_queue pr) →
      key ∈ pr_cache (m pr).2 ∧ Forall (λ j, j_key j ≠ key) (pr_queue (m pr).2) ∧ mute key (k (m pr).1)
  end.
Proof.
  intros [j|j Hj|k|o]; [..|done]; cbn [Enqueue seq pbind act]; intros pr Hk Hq.
  - split_and!; [done..|]. unfold cache_Load. cbn [fst]. case_bool_decide as Hin; [apply mute_done|]. apply mute_send. intros Heq. by rewrite Heq in Hin.
  - unfold try_send. destruct (zlen (pr_queue pr) <? preresolverQueueBufferSize); cbn [fst snd pr_cache pr_queue]; split_and!; try done; [|apply mute_store|apply mute_done]. apply Forall_app. by repeat constructor.
  - split_and!; [|done|apply mute_done]. cbn. set_solver.
Qed.

Record stuck (key : string) p : Prop := {
  st_cache : key ∈ pr_cache (w_pr p);
  st_queue : Forall (λ j, j_key j ≠ key) (pr_queue (w_pr p));
  st_enq : Forall (mute key) (enqueuers p);
  st_wait : ∀ j, waiting p = Some j → j_key j ≠ key;
  st_run : Forall (λ j, j_key j ≠ key) (running p)
}.
Lemma pool_step_stuck key p p' : pool_step p p' → stuck key p → stuck key p'.
Proof.
  intros Hstep [Hc Hq He Hw Hr]. destruct Hstep; cbn [w_pr enqueuers waiting running] in *.
  - split; try done. apply Forall_app. split; [done|]. repeat constructor.
  - assert (mute key (Call m k)) as Hm by (by eapply list.Forall_lookup_1). apply mute_call in Hm. destruct (Hm pr Hc Hq) as (Hc' & Hq' & Hk').
    split; try done. by apply Forall_insert.
  - rewrite H in Hq. apply list.Forall_cons in Hq as [Hj Hq]. split; try done. by intros ? [= <-].
  - split; try done. apply Forall_app. repeat constructor; [done|]. by apply Hw.
  - split; try done. apply Forall_app. repeat constructor; [done|]. by apply Hw.
  - split; try done. apply Forall_app. repeat constructor; [done|]. by apply Hw.
  - assert (j_key j ≠ key) as Hj by (by eapply list.Forall_lookup_1 in Hr). split; try done; [cbn; set_solver|by apply Forall_delete].
  - unfold smp_Release in H0. assert (pr_queue pr' = pr_queue pr ∧ pr_cache pr' = pr_cache pr) as [Eq Ec] by (repeat case_match; by simplify_eq).
    split; cbn [w_pr enqueuers waiting running]; rewrite ?Eq, ?Ec; done.
  - by split.
Qed.

(** A layer can be locked out of being resolved ahead of time.  The key of a layer is
    stored after its function was sent; when the function has run by then, nothing deletes the
    key any more: the queue is empty and nothing runs, and from there on no function for that
    layer is ever received or started again. *)
Theorem preresolver_locks_out (n : Z) (key : string) (fn : A) :
  ∃ p, rtc pool_step (start n) p ∧ pr_queue (w_pr p) = [] ∧ waiting p = None ∧ running p = [] ∧ finishing p = [] ∧ enqueuers p = [Ret (Ok tt)] ∧
    ∀ p', rtc pool_step p p' → key ∈ pr_cache (w_pr p') ∧ Forall (λ j, j_key j ≠ key) (running p').
Proof.
  set (j := mkJob key fn). set (pr0 := newPreresolver (A:=A) n).
  assert (∀ pr, smp pr = smp pr0 → rtc pool_step (mkPool pr [act (cache_Store key)] (Some j) [] [] false)
    (mkPool (mkPR (pr_queue pr) (pr_cache pr ∖ {[key]}) (smp pr)) [act (cache_Store key)] None [] [] false)) as Hrun.
  { intros pr Hs. unfold pr0, newPreresolver in Hs. cbn [smp] in Hs. destruct (Z.ltb_spec 0 n) as [Hn|Hn].
    - eapply rtc_l; [by apply (pool_acquire pr _ [] [] false j n 0); [|lia]|]. eapply rtc_l; [by apply (pool_resolved _ _ None [j] [] false 0 j)|].
      eapply rtc_l; [by eapply (pool_release _ _ None [] [j] false 0 j)|]. rewrite Hs. constructor.
    - eapply rtc_l; [by apply (pool_start_unbounded pr _ [] [] false j)|]. eapply rtc_l; [by apply (pool_resolved _ _ None [j] [] false 0 j)|].
      eapply rtc_l; [apply (pool_release _ _ None [] [j] false 0 j (mkPR (pr_queue pr) (pr_cache pr ∖ {[key]}) (smp pr))); [done|]; unfold smp_Release; cbn [cache_Delete snd smp]; by rewrite Hs|]. constructor. }
  exists (mkPool (mkPR [] ({[key]} ∪ ∅ ∖ {[key]}) (smp pr0)) [Ret (Ok tt)] None [] [] false). split; [|split_and!; try done].
  - eapply rtc_l; [apply (pool_enqueue _ _ _ _ _ _ j)|]. eapply rtc_l; [by eapply (pool_call _ _ _ _ _ _ 0)|]. eapply rtc_l; [by eapply (pool_call _ _ _ _ _ _ 0)|].
    eapply rtc_l; [by apply (pool_receive _ _ _ _ _ j [])|]. etrans; [by apply Hrun|]. eapply rtc_l; [by eapply (pool_call _ _ _ _ _ _ 0)|]. constructor.
  - intros p' Hsteps. assert (stuck key p') as [? ? ? ? ?]; [|done].
    assert (stuck key (mkPool (mkPR [] ({[key]} ∪ ∅ ∖ {[key]}) (smp pr0)) [Ret (Ok tt)] None [] [] false)) as H0.
    { split; cbn; [set_solver|constructor|by repeat constructor|done|constructor]. }
    revert H0. induction Hsteps as [|p1 p2 p3 Hs _ IH]; [done|]. intros H0. by eapply IH, pool_step_stuck.
Qed.
End facts.
