(* ===== verification/FsMount.v ===== *)
(** * Mounting layers

    Models [Mount], [Unmount], [Check], [IDMapMount] and [IDMapMountLocal] of [fs/fs.go] over
    the resolver of layers, the contexts of images and the preresolver. *)
From Stdlib Require Import ZArith Lia Ascii.
From stdpp Require Import base list gmap strings numbers.
From S2P Require Import Prelude GoLib Prog Ztoc ZtocBuilder ZtocMarshal LruCache MetadataTree IDMap Oci ArtifactsDb Prefetch SociIndex.
From S2P Require Import SnapshotHost Snapshot Fetch Unpack LayerResolver Source FsIndex FsPreresolve.
#[local] Open Scope Z_scope.
Local Open Scope go_scope.

(** ** Paths of mounts

    [filepath.Dir] and [filepath.Join] of rooted paths. *)
Definition filepath_Dir (p : string) : string := "/" +:+ cleanEntryPath (parentDir p).
Definition filepath_Join (d e : string) : string := "/" +:+ cleanEntryPath (d +:+ "/" +:+ e).
Definition getIDMappedMountpoint (mountpoint activeLayerID : string) : string :=
  filepath_Join (filepath_Dir mountpoint +:+ "_" +:+ activeLayerID) "fs".
Definition isIDMappedDir (mountpoint : string) : bool :=
  (1 <? length (split_underscore (filepath_Base mountpoint)))%nat.

(** FUSE, system calls and the background fetcher. *)
Class FuseEnv (E : Type) := {
  fuse_NewServer : string → bool → ST E ();
  fuse_WaitMount : string → ST E ();
  fuse_Unmount : string → ST E ();
  bgFetcher_Pause : E → E;
  os_Mkdir : string → ST E ();
  idtools_RemapDir : string → string → IDMap → ST E ()
}.

(** What a function of the preresolver resolves. *)
Record presolve := mkPresolve { ps_spec : reference_Spec; ps_desc : Descriptor; ps_soci : Descriptor; ps_prefetch : option Descriptor }.

Record filesystem (E L : Type) := mkFS {
  fs_resolver : resolver E L;
  fs_layer : gmap string layerRef;
  fs_contexts : gmap string sociContext;
  fs_pr : preresolver presolve
}.
Arguments mkFS {E L}.
Arguments fs_resolver {E L}.
Arguments fs_layer {E L}.
Arguments fs_contexts {E L}.
Arguments fs_pr {E L}.

(** A program over a part of the state. *)
Fixpoint lift {S T A} (on : ∀ B, ST S B → ST T B) (p : prog S A) : prog T A :=
  match p with
  | Ret o => Ret o
  | Call m k => Call (on _ m) (λ r, lift on (k r))
  end.

Section mount.
Context {E L Time Host : Type} `{HL : LRU L} `{HE : ResolverEnv E Time} `{HS : Store E} `{HP : PrefetchJSON}.
Context `{HT : GoTime Time} `{HD : Digester} `{HF : FlatbufZtoc} `{HG : GoSort}.
Context `{HR : RegistryEnv E} `{HM : ManifestEnv E} `{HJ : DocJSON} `{HN : References} `{HU : FuseEnv E} `{HO : MapRange}.
Context (cfg : FSConfig) (hasBgFetcher : bool) (order : list Z → list Z).
Context (resolverConfig : ResolverConfig) (modes : PullModes) (now : string) (blob_order : list (nat * Descriptor) → list (nat * Descriptor)).
Context (getSources : gmap string string → ST E (list (Source Host))).
Abbreviation FS := (filesystem E L).
Abbreviation labels := (gmap string string).
Implicit Types (s : FS).

Definition on_resolver {A} (m : ST (resolver E L) A) : ST FS A := λ s,
  let '(r, x) := m (fs_resolver s) in (r, mkFS x (fs_layer s) (fs_contexts s) (fs_pr s)).
Definition on_fs_env {A} (m : ST E A) : ST FS A := on_resolver (LayerResolver.on_env m).
Definition on_contexts {A} (m : ST (contexts E) A) : ST FS A := λ s,
  let '(r, c) := m (mkContexts (r_env (fs_resolver s)) (fs_contexts s)) in
  (r, mkFS (set_env (cx_env c) (fs_resolver s)) (fs_layer s) (sociContexts c) (fs_pr s)).
Definition on_pr {A} (m : ST (preresolver presolve) A) : ST FS A := λ s,
  let '(r, x) := m (fs_pr s) in (r, mkFS (fs_resolver s) (fs_layer s) (fs_contexts s) x).
Definition set_layer (m : gmap string layerRef) s : FS := mkFS (fs_resolver s) m (fs_contexts s) (fs_pr s).

(** ** Mounting *)
Local Open Scope prog_scope.

(** The key of the resolver's caches. *)
Definition layer_name (spec : reference_Spec) (digest : string) : string := spec_String spec +:+ "/" +:+ digest.
Definition resolve_layer (spec : reference_Spec) (desc sociDesc : Descriptor) (prefetchDesc : option Descriptor) : prog FS layerRef :=
  lift (@on_resolver) (LayerResolver.Resolve cfg hasBgFetcher order (layer_name spec (d_Digest desc)) desc sociDesc prefetchDesc).

(** The goroutine that resolves the target: the first source that has it. *)
Fixpoint resolve_sources (c : sociContext) (s : Source Host) (src : list (Source Host)) : prog FS layerRef :=
  match imageLayerToSociDesc c !! d_Digest (Target s) with
  | None => Ret (Err (Wrap "skipping mounting layer as FUSE mount" ErrNoZtoc))
  | Some sociDesc =>
      pbind (resolve_layer (s_Name s) (Target s) sociDesc (findPrefetchArtifact (d_Digest (Target s)) c)) (λ o,
        match o with
        | Err e =>
            match src with
            | [] => Ret (Err (Wrap "failed to resolve layer" e))
            | s' :: src' => resolve_sources c s' src'
            end
        | _ => Ret o
        end)
  end.

(** The other layers of the index, in the order the map is walked. *)
Definition preresolve_jobs (c : sociContext) (s : Source Host) : list (job presolve) :=
  omap (λ x, let '(layerDigest, sociDesc) := x in
    if String.eqb layerDigest (d_Digest (Target s)) then None
    else match digest_parse layerDigest with
    | Ok d => Some (mkJob (layer_name (s_Name s) d) (mkPresolve (s_Name s) (content_desc "" d 0) sociDesc (findPrefetchArtifact d c)))
    | _ => None
    end) (map_range (imageLayerToSociDesc c)).
Fixpoint enqueue_all (js : list (job presolve)) : prog FS () :=
  match js with
  | [] => Ret (Ok tt)
  | j :: js' => do u := lift (@on_pr) (Enqueue j); enqueue_all js'
  end.
(** A function of the queue: the layer is released at once and stays in the cache. *)
Definition run_presolve (p : presolve) : prog FS () :=
  pbind (resolve_layer (ps_spec p) (ps_desc p) (ps_soci p) (ps_prefetch p)) (λ o,
    match o with
    | Ok l => act (on_resolver (Done l))
    | Err _ => Ret (Ok tt)
    | Panic => Ret Panic
    end).

(** [image] is the context whose first mount pauses the background fetcher. *)
Definition setupFuseServer (mountpoint : string) (l : layerRef) (image : option string) : prog FS () :=
  do x := act (λ s, (x ← must (layers (fs_resolver s) !! ref_layer l); Ok (l_disableXAttrs x), s));
  do u := act (on_fs_env (fuse_NewServer mountpoint x));
  do u := act (λ s, match image with
                    | Some k => on_contexts (λ c, (Ok tt, pauseOnce k (if hasBgFetcher then bgFetcher_Pause else id) c)) s
                    | None => (Ok tt, s)
                    end);
  act (on_fs_env (fuse_WaitMount mountpoint)).

Definition register (mountpoint : string) (l : layerRef) : ST FS () := λ s, (Ok tt, set_layer (<[mountpoint := l]> (fs_layer s)) s).

(** After the layer was resolved; on an error it is released. *)
Definition mount_resolved (mountpoint imgDigest : string) (l : layerRef) : prog FS layerRef :=
  on_error (on_resolver (Done l))
    (do u := act (st_map_err (Wrap "failed to get root node") (on_resolver (layer_RootNode (ref_layer l))));
     do u := act (register mountpoint l);
     do u := setupFuseServer mountpoint l (Some imgDigest);
     Ret (Ok l)).

(** [namespace]: whether the context has one; [timeout]: whether resolving takes longer than
    the mount timeout.  The goroutine that resolves goes on when nobody waits for it, and its
    calls come after the ones of [Enqueue] here, which run beside it. *)
Definition mount_layer (mountpoint : string) (ls : labels) (namespace timeout : bool) : prog FS layerRef :=
  match ls !! TargetRefLabel with
  | None => Ret (Err (ErrorString "unable to get image ref from labels"))
  | Some imageRef =>
  match ls !! TargetManifestDigestLabel with
  | None => Ret (Err (ErrorString "unable to get image digest from labels"))
  | Some imgDigest =>
      do src := act (on_fs_env (getSources ls));
      match src with
      | [] => Ret (Err (ErrorString "source must be passed"))
      | s0 :: src' =>
          do client := Ret (must (head (Hosts s0)));
          do c := act (st_map_err (Wrap "unable to fetch SOCI artifacts for image")
                         (on_contexts (getSociContext imgDigest
                            (fetchSociIndex resolverConfig modes now blob_order imageRef (default "" (ls !! TargetSociIndexDigestLabel)) imgDigest))));
          if negb namespace then
            pbind (resolve_sources c s0 src') (λ o, Ret (match o with Panic => Panic | _ => Err (ErrorString "could not find namespace attached to context") end))
          else
            do u := enqueue_all (preresolve_jobs c s0);
            if timeout then
              pbind (resolve_sources c s0 src') (λ o, Ret (match o with Panic => Panic | _ => Err (ErrorString "timeout waiting for layer to resolve") end))
            else
              do l := resolve_sources c s0 src';
              mount_resolved mountpoint imgDigest l
      end
  end
  end.
(** The layer is what [fs.layer] has for the mountpoint; the caller does not get it. *)
Definition Mount (mountpoint : string) (ls : labels) (namespace timeout : bool) : prog FS () :=
  do l := mount_layer mountpoint ls namespace timeout; Ret (Ok tt).

(** ** Unmounting *)
Definition take_layer (mountpoint : string) : ST FS layerRef := λ s,
  match fs_layer s !! mountpoint with
  | None => (Err (ErrorString "specified path isn't a mountpoint"), s)
  | Some l => (Ok l, set_layer (delete mountpoint (fs_layer s)) s)
  end.
Definition GetCacheRefKey (l : layerRef) : ST FS string := λ s, (x ← must (layers (fs_resolver s) !! ref_layer l); Ok (l_cacheRefKey x), s).
Definition Unmount (mountpoint : string) : prog FS () :=
  do l := act (take_layer mountpoint);
  do u := (if negb (isIDMappedDir mountpoint) then
             do u := act (on_resolver (Done l));
             do k := act (GetCacheRefKey l);
             act (on_resolver (Evict k))
           else Ret (Ok tt));
  act (on_fs_env (fuse_Unmount mountpoint)).

(** ** Checking

    The first source that the connection can be refreshed from. *)
Fixpoint refresh (l : layerRef) (src : list (Source Host)) (rErr : error) : prog FS () :=
  match src with
  | [] => Ret (Err rErr)
  | s :: src' =>
      pbind (act (on_resolver (layer_Refresh (ref_layer l) (layer_name (s_Name s) (d_Digest (Target s))) (Target s)))) (λ o,
        match o with
        | Err e => refresh l src' (Wrap "failed" (Join e rErr))
        | _ => Ret o
        end)
  end.
Definition check (l : layerRef) (ls : labels) : prog FS () :=
  do valid := attempt (on_resolver (layer_Check (ref_layer l)));
  if valid : bool then Ret (Ok tt)
  else
    do src := act (on_fs_env (getSources ls));
    refresh l src (ErrorString "failed to refresh connection").
Definition Check (mountpoint : string) (ls : labels) : prog FS () :=
  do l := act (λ s, (match fs_layer s !! mountpoint with None => Err (ErrorString "layer not registered") | Some l => Ok l end, s));
  do i := act (on_resolver (layer_Info (ref_layer l)));
  if i_FetchedSize i <? i_Size i then check l ls else Ret (Ok tt).

(** ** Id-mapped mounts *)
Definition share_layer (mountpoint newMountpoint : string) : ST FS layerRef := λ s,
  match fs_layer s !! mountpoint with
  | None => (Err errdefs_ErrNotFound, s)
  | Some l => (Ok l, set_layer (<[newMountpoint := l]> (fs_layer s)) s)
  end.
Definition IDMapMount (mountpoint activeLayerID : string) : prog FS string :=
  let newMountpoint := getIDMappedMountpoint mountpoint activeLayerID in
  do u := act (on_fs_env (os_Mkdir (filepath_Dir newMountpoint)));
  do u := act (on_fs_env (os_Mkdir newMountpoint));
  do l := act (share_layer mountpoint newMountpoint);
  do u := act (on_resolver (layer_RootNode (ref_layer l)));
  do u := setupFuseServer newMountpoint l None;
  Ret (Ok newMountpoint).
Definition IDMapMountLocal (mountpoint activeLayerID : string) (idmapper : IDMap) : prog FS string :=
  let newMountpoint := getIDMappedMountpoint mountpoint activeLayerID in
  do u := act (on_fs_env (idtools_RemapDir mountpoint newMountpoint idmapper));
  Ret (Ok newMountpoint).
End mount.
