(* ===== verification/FsMountFacts.v ===== *)
(** * Facts about mounted layers

    Any number of calls of [Mount], [Unmount], [Check] and of the preresolver's functions at
    the same time: a mount that succeeded serves an open layer until it is unmounted.  And
    what id-mapped mounts do to that. *)
From Stdlib Require Import ZArith Lia Ascii.
From stdpp Require Import base list gmap strings numbers relations.
From S2P Require Import Prelude GoLib Prog Ztoc ZtocBuilder ZtocMarshal LruCache MetadataTree IDMap Oci ArtifactsDb Prefetch SociIndex.
From S2P Require Import SnapshotHost Snapshot Fetch Unpack LayerResolver LayerFacts LayerThreads Source FsIndex FsPreresolve FsMount.
#[local] Open Scope Z_scope.

(** ** What was released stays released *)
Section released.
Context {E L Time : Type} `{HL : LRU L} `{HE : ResolverEnv E Time} `{HS : Store E} `{HP : PrefetchJSON}.
Context `{HT : GoTime Time} `{HD : Digester} `{HF : FlatbufZtoc} `{HG : GoSort}.
Abbreviation R := (resolver E L).
Implicit Types (s : R) (c : Cache L nat).

Definition spent c (d : nat) : Prop := ∃ h, dones c !! d = Some (h, true).
Definition spends c c' : Prop := ∀ d, spent c d → spent c' d.

Lemma spends_app c c' x : dones c' = dones c ++ x → spends c c'.
Proof. intros Hd d [h Hh]. exists h. rewrite Hd. by apply lookup_app_l_Some. Qed.
Lemma spends_same c c' : dones c' = dones c → spends c c'.
Proof. intros Hd. apply (spends_app _ _ []). by rewrite app_nil_r. Qed.
Lemma spends_Get k c : spends c (LruCache.Get k c).2.
Proof.
  unfold LruCache.Get. destruct (lru_Get k (inner c)) as [[h|] l]; [|by apply spends_same]. cbn [decreaseOnceFunc].
  set (c1 := rc_inc h (set_inner l c)). apply (spends_app _ _ [(h, false)]). cbn [heap]. by destruct (heap c1 !! h).
Qed.
Lemma spends_Add k v c : spends c (LruCache.Add k v c).2.
Proof.
  unfold LruCache.Add. destruct (lru_Get k (inner c)) as [[h|] l]; cbn [decreaseOnceFunc].
  - set (c1 := rc_inc h (set_inner l c)). apply (spends_app _ _ [(h, false)]). cbn [heap]. by destruct (heap c1 !! h).
  - destruct (lru_Add k _ _) as [ev l']. set (c1 := set_inner l' _). apply (spends_app _ _ [(length (heap c), false)]).
    cbn [snd dones]. by rewrite dones_finalize_all.
Qed.
Lemma spends_Remove k c : spends c (LruCache.Remove k c).
Proof. unfold LruCache.Remove. destruct (lru_Remove k (inner c)) as [ev l]. apply spends_same. by rewrite dones_finalize_all. Qed.
Lemma spends_done d c : spends c (call_done d c).
Proof.
  unfold call_done. destruct (dones c !! d) as [[h []]|] eqn:Ed; [by apply spends_same| |by apply spends_same].
  intros d' [h' Hd']. exists h'. rewrite dones_dec. cbn [dones]. destruct (decide (d = d')) as [->|Hne]; [congruence|]. by rewrite list_lookup_insert_ne.
Qed.
Lemma call_done_spent d c : spent c d → call_done d c = c.
Proof. intros [h Hh]. unfold call_done. by rewrite Hh. Qed.

Lemma cache_close_blobs bs s : layerCache (close_blobs bs s) = layerCache s.
Proof. unfold close_blobs. revert s. induction bs as [|b bs IH]; intros s; [done|]. cbn. rewrite IH. unfold flip, close_blob. by destruct (blobs s !! b) as [[]|]. Qed.
Lemma cache_settle_blobs c' s : layerCache (settle_blobs c' s) = layerCache s.
Proof. unfold settle_blobs. by rewrite cache_close_blobs. Qed.
Lemma cache_close_spanCache p s : layerCache (close_spanCache p s) = layerCache s.
Proof. unfold close_spanCache. by destruct (spanCaches s !! p) as [[]|]. Qed.
Lemma cache_close_reader p s : layerCache (close_reader p s) = layerCache s.
Proof. unfold close_reader. by destruct (readers s !! p) as [[]|]. Qed.
Lemma cache_layer_close p s : layerCache (layer_close p s) = layerCache s.
Proof.
  unfold layer_close. destruct (layers s !! p) as [l|]; [|done]. destruct (l_closed l); [done|]. unfold blob_done. cbn [snd].
  rewrite cache_settle_blobs, cache_close_reader, cache_close_spanCache. by destruct (l_bgResolver l).
Qed.
Lemma cache_settle_layers c' s : layerCache (settle_layers c' s) = c'.
Proof.
  unfold settle_layers. generalize (evicted_since (layerCache s) c'). intros ls. change c' with (layerCache (set_layerCache c' s)) at 2.
  generalize (set_layerCache c' s). clear. unfold close_layers. induction ls as [|p ls IH]; intros s; [done|]. cbn. rewrite IH. apply cache_layer_close.
Qed.

(** A call that releases nothing twice. *)
Definition steady {A} (m : ST R A) : Prop := ∀ s, spends (layerCache s) (layerCache (m s).2).

Lemma steady_same {A} (m : ST R A) : (∀ s, layerCache (m s).2 = layerCache s) → steady m.
Proof. intros Hm s. rewrite Hm. by intros d. Qed.
Lemma cache_on_env {A} (m : ST E A) s : layerCache (LayerResolver.on_env m s).2 = layerCache s.
Proof. unfold LayerResolver.on_env. by destruct (m (r_env s)). Qed.
Lemma steady_on_env {A} (m : ST E A) : steady (LayerResolver.on_env m).
Proof. apply steady_same. intros s. apply cache_on_env. Qed.
Lemma cache_blob_Check b s : layerCache (blob_Check b s).2 = layerCache s.
Proof. unfold blob_Check. destruct (default true _); [done|]. apply cache_on_env. Qed.
Lemma cache_layer_Check p s : layerCache (layer_Check p s).2 = layerCache s.
Proof. unfold layer_Check, open_layer, st_bind. destruct (layers s !! p) as [l|]; [|done]. destruct (l_closed l); [done|]. apply cache_blob_Check. Qed.
Lemma steady_Get name : steady (layerCache_Get name).
Proof. intros s. unfold layerCache_Get. pose proof (spends_Get name (layerCache s)). destruct (LruCache.Get name _) as [r c]. cbn [snd] in *. by rewrite cache_settle_layers. Qed.
Lemma steady_Add name p : steady (layerCache_Add name p).
Proof. intros s. unfold layerCache_Add. pose proof (spends_Add name p (layerCache s)). destruct (LruCache.Add name p _) as [r c]. cbn [snd] in *. by rewrite cache_settle_layers. Qed.
Lemma steady_Remove name : steady (layerCache_Remove name).
Proof. intros s. unfold layerCache_Remove. cbn [snd]. rewrite cache_settle_layers. apply spends_Remove. Qed.
Lemma steady_done d : steady (layer_done d).
Proof. intros s. unfold layer_done. cbn [snd]. rewrite cache_settle_layers. apply spends_done. Qed.

(** ** Every call of [Resolve] *)
Abbreviation all_steady := (every (λ B (m : ST R B), steady m)).

Lemma every_pbind {A B} (p : prog R A) (k : outcome A → prog R B) : all_steady p → (∀ o, all_steady (k o)) → all_steady (pbind p k).
Proof. intros Hp Hk. induction p as [o|C m k' IH]; cbn in *; [apply Hk|]. destruct Hp as [Hm Hp]. split; [done|]. intros r. by apply IH. Qed.
Lemma every_seq {A B} (p : prog R A) (k : A → prog R B) : all_steady p → (∀ a, all_steady (k a)) → all_steady (seq p k).
Proof. intros Hp Hk. apply every_pbind; [done|]. intros [a|e|]; [apply Hk|done..]. Qed.
Lemma every_act {A} (m : ST R A) : steady m → all_steady (act m).
Proof. by split. Qed.
Lemma every_attempt {A} (m : ST R A) : steady m → all_steady (attempt m).
Proof. intros Hm. split; [done|]. by intros []. Qed.
Lemma every_on_error {A} (cl : ST R ()) (p : prog R A) : steady cl → all_steady p → all_steady (on_error cl p).
Proof. intros Hc Hp. apply every_pbind; [done|]. by intros []. Qed.

Context (cfg : FSConfig) (hasBgFetcher : bool) (order : list Z → list Z).
Lemma steady_resolveBlob name desc : all_steady (resolveBlob name desc).
Proof.
  assert (all_steady (resolve_new_blob name desc)) as Hn.
  { unfold resolve_new_blob. apply every_seq.
    - apply every_act, steady_same. intros s. unfold new_blob. pose proof (cache_on_env (remote_Resolve name desc (r_next s)) s) as He.
      by destruct (LayerResolver.on_env _ s) as [[] s1].
    - intros b. apply every_seq; [apply every_act, steady_same; intros s; unfold blobCache_Add; destruct (LruCache.Add name b _); apply cache_settle_blobs|].
      intros [[cached d] []]; [done|]. apply every_seq; [|done]. apply every_act, steady_same. intros s. cbn [snd]. apply (cache_close_blobs [b]). }
  unfold resolveBlob. apply every_seq; [apply every_act, steady_same; intros s; unfold blobCache_Get; destruct (LruCache.Get name _); apply cache_settle_blobs|].
  intros [[b d]|]; [|done]. apply every_seq; [apply every_attempt, steady_same; intros s; apply cache_blob_Check|]. intros []; [done|].
  apply every_seq; [apply every_act, steady_same; intros s; apply cache_settle_blobs|]. intros _.
  apply every_seq; [apply every_act, steady_same; intros s; apply cache_settle_blobs|]. by intros _.
Qed.
Lemma steady_assemble name desc sociDesc prefetchDesc sp b zt : all_steady (assemble cfg hasBgFetcher order name desc sociDesc prefetchDesc sp b zt).
Proof.
  unfold assemble. apply every_seq.
  { apply every_act, steady_same. intros s. unfold open_reader. pose proof (cache_on_env (metadataStore sp zt) s) as He.
    by destruct (LayerResolver.on_env _ s) as [[] s1]. }
  intros _. apply every_seq.
  { apply every_act. intros s. unfold st_map_err. pose proof (steady_on_env (spanmanager_New sp b.1 zt (MaxSpanVerificationRetries cfg)) s) as Hs.
    by destruct (LayerResolver.on_env _ s). }
  intros _. apply every_seq; [destruct hasBgFetcher; [|done]; by apply every_act, steady_same|]. intros _.
  apply every_seq; [apply every_attempt, steady_on_env|]. intros _. apply every_seq; [by apply every_act, steady_same|]. intros l.
  apply every_seq; [apply every_act, steady_Add|]. intros [[cached d] []]; [done|]. apply every_seq; [|done].
  apply every_act, steady_same. intros s. apply cache_layer_close.
Qed.
Lemma steady_Resolve name desc sociDesc prefetchDesc : all_steady (LayerResolver.Resolve cfg hasBgFetcher order name desc sociDesc prefetchDesc).
Proof.
  assert (all_steady (resolve_new cfg hasBgFetcher order name desc sociDesc prefetchDesc)) as Hn.
  { unfold resolve_new. apply every_seq.
    - apply every_act, steady_same. intros s. unfold newCache. pose proof (cache_on_env (newCache_dirs cfg) s) as He. by destruct (LayerResolver.on_env _ s) as [[] s1].
    - intros c. apply every_on_error; [apply steady_same; intros s; apply cache_close_spanCache|].
      apply every_seq; [apply every_act, steady_on_env|]. intros b. apply every_seq; [by apply every_act, steady_same|]. intros zt.
      apply every_seq; [apply every_pbind; [apply steady_resolveBlob|done]|]. intros blob.
      apply every_on_error; [apply steady_same; intros s; apply cache_settle_blobs|]. apply steady_assemble. }
  unfold LayerResolver.Resolve. apply every_seq; [apply every_act, steady_Get|]. intros [[l d]|]; [|done].
  apply every_seq; [apply every_attempt, steady_same; intros s; apply cache_layer_Check|]. intros []; [done|].
  apply every_seq; [apply every_act, steady_done|]. intros _. apply every_seq; [apply every_act, steady_Remove|]. by intros _.
Qed.
End released.

(** ** The invariant of the service

    [Held]: what the resolver gave; [Reg]: a mount has registered the layer at the mountpoint;
    [Taken]: a layer is taken out of the registry and is going to be released. *)
Inductive ftoken := Held (t : token) | Reg (mp : string) (r : layerRef) | Taken (r : layerRef).

Definition held (ts : list ftoken) : list token := omap (λ t, match t with Held t => Some t | _ => None end) ts.
Definition reg_dones (ts : list ftoken) : list nat := omap (λ t, match t with Reg _ r => Some (ref_done r) | _ => None end) ts.

Lemma held_app ts ts' : held (ts ++ ts') = held ts ++ held ts'.
Proof. apply omap_app. Qed.
Lemma reg_dones_app ts ts' : reg_dones (ts ++ ts') = reg_dones ts ++ reg_dones ts'.
Proof. apply omap_app. Qed.
Lemma held_Held ts : held (Held <$> ts) = ts.
Proof. unfold held. induction ts as [|t ts IH]; [done|]. cbn. by f_equal. Qed.
Lemma reg_dones_Held ts : reg_dones (Held <$> ts) = [].
Proof. unfold reg_dones. induction ts as [|t ts IH]; [done|]. done. Qed.
Lemma elem_reg_dones mp r ts : Reg mp r ∈ ts → ref_done r ∈ reg_dones ts.
Proof. intros Hin. unfold reg_dones. apply list_elem_of_omap. by exists (Reg mp r). Qed.

Section inv.
Context {E L Time : Type} `{HL : LRU L} `{HLL : !LRULaws L} `{HE : ResolverEnv E Time} `{HS : Store E} `{HP : PrefetchJSON}.
Context `{HT : GoTime Time} `{HD : Digester} `{HF : FlatbufZtoc} `{HG : GoSort}.
Abbreviation FS := (filesystem E L).
Implicit Types (s : FS) (toks own rest : list ftoken) (live : list layerRef).

Definition fcache s : Cache L nat := layerCache (fs_resolver s).
Definition unreleased s (r : layerRef) : Prop := ref_of (fcache s) (ref_done r) (ref_layer r).
(** Not released, and [live] then, or released. *)
Definition tracked live s (r : layerRef) : Prop := (unreleased s r ∧ r ∈ live) ∨ spent (fcache s) (ref_done r).

Record fcore toks live s : Prop := {
  fc_inv : inv (held toks ++ (ref_token <$> live)) (fs_resolver s);
  fc_layer mp r : fs_layer s !! mp = Some r → tracked live s r;
  fc_reg mp r : Reg mp r ∈ toks → tracked live s r;
  fc_taken r : Taken r ∈ toks → tracked live s r;
  fc_nodup : NoDup (reg_dones toks);
  fc_inj mp mp' r r' : fs_layer s !! mp = Some r → fs_layer s !! mp' = Some r' → ref_done r = ref_done r' → mp = mp';
  fc_at mp mp' r r' : fs_layer s !! mp = Some r → Reg mp' r' ∈ toks → ref_done r = ref_done r' → mp = mp';
  fc_gone mp r r' : fs_layer s !! mp = Some r → Taken r' ∈ toks → ref_done r ≠ ref_done r';
  fc_live mp r : Reg mp r ∈ toks → fs_layer s !! mp = Some r → unreleased s r
}.
Definition I toks s : Prop := ∃ live, fcore toks live s.

Lemma I_perm toks toks' s : toks ≡ₚ toks' → I toks s → I toks' s.
Proof.
  intros Hp (live & [H1 H2 H3 H4 H5 H6 H7 H8 H9]). exists live. assert (∀ t, t ∈ toks' → t ∈ toks) as Ht by (intros t; by rewrite Hp).
  split; eauto.
  - eapply inv_perm; [|exact H1]. apply Permutation_app_tail. unfold held. by rewrite Hp.
  - unfold reg_dones. by rewrite <-Hp.
Qed.

Lemma unreleased_not_spent s r : unreleased s r → ¬ spent (fcache s) (ref_done r).
Proof. intros (h & x & Hd & _) [h' Hh]. rewrite Hd in Hh. done. Qed.
Lemma live_unreleased toks live s r : fcore toks live s → r ∈ live → unreleased s r.
Proof.
  intros [(ol & _ & Hc) _ _ _ _ _ _ _ _] Hr. apply (co_lref _ _ Hc). apply elem_of_app. left. apply elem_of_app. right.
  apply list_elem_of_fmap. by exists r.
Qed.
(** A layer that is held is no other that was ever registered. *)
Lemma held_distinct toks live s r r' : fcore toks live s → ref_token r ∈ held toks → tracked live s r' → ref_done r ≠ ref_done r'.
Proof.
  intros Hf Hr [[Hu Hl]|Hsp] Heq; destruct (fc_inv _ _ _ Hf) as (ol & _ & Hc).
  - assert (unreleased s r) as Hur by (apply (co_lref _ _ Hc); do 2 (apply elem_of_app; left); done).
    unfold unreleased in *. rewrite <-Heq in Hu. assert (r = r') as -> by (destruct r, r'; cbn in *; f_equal; [by eapply ref_of_fun|done]).
    pose proof (co_nodup _ _ Hc) as Hnd. apply list.NoDup_app in Hnd as (Hnd & _ & _). apply list.NoDup_app in Hnd as (_ & Hdis & _).
    apply (Hdis (ref_token r')); [done|]. apply list_elem_of_fmap. by exists r'.
  - apply (unreleased_not_spent s r); [|by rewrite Heq]. apply (co_lref _ _ Hc). do 2 (apply elem_of_app; left). done.
Qed.

(** The resolver goes on, the registry stays. *)
Lemma fcore_resolver toks toks' live s s' : fcore toks live s → fs_layer s' = fs_layer s →
  inv (held toks' ++ (ref_token <$> live)) (fs_resolver s') → spends (fcache s) (fcache s') →
  (∀ t, t ∈ toks' → t ∈ toks ∨ ∃ t0, t = Held t0) → NoDup (reg_dones toks') → fcore toks' live s'.
Proof.
  intros Hf Hl Hi Hsp Hsub Hnd.
  assert (∀ r, r ∈ live → unreleased s' r) as Hlive.
  { intros r Hr. destruct Hi as (ol & _ & Hc). apply (co_lref _ _ Hc). apply elem_of_app. left. apply elem_of_app. right. apply list_elem_of_fmap. by exists r. }
  assert (∀ r, tracked live s r → tracked live s' r) as Htr by (intros r [[Hu Hr]|Hs]; [left; auto|right; by apply Hsp]).
  assert (∀ r, unreleased s r → tracked live s r → unreleased s' r) as Hun.
  { intros r Hu [[_ Hr]|Hs]; [by apply Hlive|]. by apply unreleased_not_spent in Hu. }
  destruct Hf as [H1 H2 H3 H4 H5 H6 H7 H8 H9]. split; try done; rewrite ?Hl.
  - intros mp r Hr. eauto.
  - intros mp r Hr. destruct (Hsub _ Hr) as [?|[? ?]]; [eauto|done].
  - intros r Hr. destruct (Hsub _ Hr) as [?|[? ?]]; [eauto|done].
  - exact H6.
  - intros mp mp' r r' Hr Hr'. destruct (Hsub _ Hr') as [?|[? ?]]; [eauto|done].
  - intros mp r r' Hr Hr'. destruct (Hsub _ Hr') as [?|[? ?]]; [eauto|done].
  - intros mp r Hr Hr'. destruct (Hsub _ Hr) as [?|[? ?]]; [|done]. apply Hun; eauto.
Qed.
Lemma I_call {A} toks s (m : ST (resolver E L) A) : I toks s → (∀ ts, inv ts (fs_resolver s) → inv ts (m (fs_resolver s)).2) →
  spends (fcache s) (layerCache (m (fs_resolver s)).2) → I toks (on_resolver m s).2.
Proof.
  intros [live Hf] Hm Hsp. exists live. unfold on_resolver. pose proof (Hm _ (fc_inv _ _ _ Hf)) as Hi. destruct (m (fs_resolver s)) as [r x]. cbn [snd] in *.
  eapply fcore_resolver; [exact Hf|done|done|done|by left|apply (fc_nodup _ _ _ Hf)].
Qed.
Lemma I_env {A} toks s (m : ST E A) : I toks s → I toks (on_fs_env m s).2.
Proof. intros Hi. apply I_call; [done| |apply steady_on_env]. intros ts Ht. unfold LayerResolver.on_env. destruct (m _). by apply inv_env. Qed.
Lemma I_contexts {A} toks s (m : ST (contexts E) A) : I toks s → I toks (on_contexts m s).2.
Proof.
  intros [live Hf]. exists live. unfold on_contexts. destruct (m _) as [r c]. cbn [snd].
  eapply fcore_resolver; [exact Hf|done|cbn [fs_resolver]; apply inv_env, Hf|by intros d|by left|apply (fc_nodup _ _ _ Hf)].
Qed.
Lemma I_pr {A} toks s (m : ST (preresolver presolve) A) : I toks s → I toks (on_pr m s).2.
Proof.
  intros [live Hf]. exists live. unfold on_pr. destruct (m _) as [r c]. cbn [snd].
  eapply fcore_resolver; [exact Hf|done|apply Hf|by intros d|by left|apply (fc_nodup _ _ _ Hf)].
Qed.

(** A resolved layer is registered. *)
Lemma I_register mp r rest s : I (Held (ref_token r) :: rest) s → I (Reg mp r :: rest) (register mp r s).2.
Proof.
  intros [live Hf]. exists (r :: live). unfold register. cbn [snd]. set (s' := set_layer _ s).
  assert (ref_token r ∈ held (Held (ref_token r) :: rest)) as Hheld by (left).
  assert (∀ r', tracked live s r' → ref_done r ≠ ref_done r') as Hdist by (intros r'; by eapply held_distinct).
  assert (unreleased s r) as Hu.
  { destruct (fc_inv _ _ _ Hf) as (ol & _ & Hc). apply (co_lref _ _ Hc). do 2 (apply elem_of_app; left). done. }
  assert (∀ r', tracked live s r' → tracked (r :: live) s' r') as Htr by (intros r' [[? ?]|?]; [left; split; [done|by right]|by right]).
  assert (tracked (r :: live) s' r) as Hr by (left; split; [done|left]).
  destruct Hf as [H1 H2 H3 H4 H5 H6 H7 H8 H9]. split; cbn [fs_layer set_layer s'].
  - eapply inv_perm; [|exact H1]. cbn [held omap list_omap fmap list_fmap]. change (omap _ rest) with (held rest). by rewrite <-Permutation_middle.
  - intros mp' r' [[-> <-]|[Hne Hm]]%lookup_insert_Some; eauto.
  - intros mp' r' [[= -> ->]|Hin]%elem_of_cons; [done|]. apply Htr, (H3 mp'). by right.
  - intros r' [?|Hin]%elem_of_cons; [done|]. apply Htr, H4. by right.
  - change (NoDup (ref_done r :: reg_dones rest)). constructor; [|done]. intros Hin. apply list_elem_of_omap in Hin as ([|mp' r'|] & Hin & Heq); [done| |done].
    injection Heq as Heq. eapply (Hdist r'); [|done]. apply (H3 mp'). by right.
  - intros m1 m2 r1 r2 [[<- <-]|[Hn1 Hm1]]%lookup_insert_Some [[<- <-]|[Hn2 Hm2]]%lookup_insert_Some Heq; [done| | |by eapply H6].
    + exfalso. by eapply (Hdist r2); eauto.
    + exfalso. by eapply (Hdist r1); eauto.
  - intros m1 m2 r1 r2 [[<- <-]|[Hn1 Hm1]]%lookup_insert_Some [[= -> ->]|Hin]%elem_of_cons Heq; [done| | |].
    + exfalso. eapply (Hdist r2); [|done]. apply (H3 m2). by right.
    + exfalso. by eapply (Hdist r1); eauto.
    + eapply H7; [done|by right|done].
  - intros m1 r1 r2 [[<- <-]|[Hn1 Hm1]]%lookup_insert_Some [?|Hin]%elem_of_cons; [done| |done|].
    + apply Hdist, H4. by right.
    + eapply H8; [done|by right].
  - intros m1 r1 [[= -> ->]|Hin]%elem_of_cons Hm; [done|]. apply lookup_insert_Some in Hm as [[<- <-]|[Hne Hm]]; [done|]. apply (H9 m1); [by right|done].
Qed.

(** A mountpoint is taken out of the registry. *)
Lemma I_take mp r rest s : fs_layer s !! mp = Some r → I rest s → I (Taken r :: rest) (set_layer (delete mp (fs_layer s)) s).
Proof.
  intros Hmp [live Hf]. exists live. destruct Hf as [H1 H2 H3 H4 H5 H6 H7 H8 H9].
  assert (∀ m x, (delete mp (fs_layer s)) !! m = Some x → fs_layer s !! m = Some x ∧ m ≠ mp) as Hdel by (intros m x [? ?]%lookup_delete_Some; done).
  split; cbn [fs_layer set_layer fs_resolver].
  - done.
  - intros m x [Hm _]%Hdel. by eapply H2.
  - intros m x [?|Hin]%elem_of_cons; [done|]. by eapply H3.
  - intros x [[= ->]|Hin]%elem_of_cons; [by eapply H2|by apply H4].
  - done.
  - intros m1 m2 r1 r2 [? _]%Hdel [? _]%Hdel. by apply H6.
  - intros m1 m2 r1 r2 [? _]%Hdel [?|Hin]%elem_of_cons; [done|]. by apply H7.
  - intros m1 r1 r2 [Hm Hne]%Hdel [[= ->]|Hin]%elem_of_cons; [|by eapply H8]. intros Heq. apply Hne. by eapply H6.
  - intros m x [?|Hin]%elem_of_cons [Hm _]%Hdel; [done|]. by apply (H9 m).
Qed.

(** A layer is released, for the first time or again. *)
Lemma I_release r t rest s : t = Taken r ∨ (∃ mp, t = Reg mp r) → I (t :: rest) s →
  (∀ mp r', Reg mp r' ∈ rest → fs_layer s !! mp = Some r' → ref_done r' ≠ ref_done r) → I rest (on_resolver (Done r) s).2.
Proof.
  intros Ht [live Hf] Hother. assert (tracked live s r) as [[Hu Hr]|Hsp].
  { destruct Ht as [->|[mp ->]]; [apply (fc_taken _ _ _ Hf)|apply (fc_reg _ _ _ Hf mp)]; left. }
  - apply list_elem_of_split in Hr as (l1 & l2 & ->). exists (l1 ++ l2). unfold on_resolver, Done. cbn [snd].
    assert (held (t :: rest) = held rest) as Eh by (destruct Ht as [->|[mp ->]]; done).
    assert (inv (held rest ++ (ref_token <$> l1 ++ l2)) (layer_done (ref_done r) (fs_resolver s)).2) as Hi.
    { eapply (inv_layer_done _ _ _ (ref_layer r)). eapply inv_perm; [|exact (fc_inv _ _ _ Hf)]. rewrite Eh, !fmap_app. cbn [fmap list_fmap].
      change (TLayer (ref_done r) (ref_layer r)) with (ref_token r). by rewrite <-!Permutation_middle. }
    assert (spends (fcache s) (layerCache (layer_done (ref_done r) (fs_resolver s)).2)) as Hsp by apply steady_done.
    assert (spent (layerCache (layer_done (ref_done r) (fs_resolver s)).2) (ref_done r)) as Hnow.
    { destruct Hu as (h & x & Hd & _). exists h. unfold layer_done. cbn [snd]. rewrite cache_settle_layers. unfold call_done. unfold fcache in Hd. rewrite Hd.
      rewrite dones_dec. cbn [dones]. apply list_lookup_insert_eq. by eapply lookup_lt_Some. }
    destruct (layer_done (ref_done r) (fs_resolver s)) as [o x] eqn:Ed. cbn [snd] in *.
    set (s' := mkFS x (fs_layer s) (fs_contexts s) (fs_pr s)).
    assert (∀ r', r' ∈ l1 ++ l2 → unreleased s' r') as Hlive.
    { intros r' Hr'. destruct Hi as (ol & _ & Hc). apply (co_lref _ _ Hc). apply elem_of_app. left. apply elem_of_app. right. apply list_elem_of_fmap. by exists r'. }
    assert (∀ r', tracked (l1 ++ r :: l2) s r' → tracked (l1 ++ l2) s' r') as Htr.
    { intros r' [[Hu' Hin]|Hs]; [|right; by apply Hsp]. rewrite elem_of_app, elem_of_cons in Hin.
      destruct (decide (r' = r)) as [->|Hne]; [by right|]. assert (r' ∈ l1 ++ l2) by (rewrite elem_of_app; naive_solver). left. split; [by apply Hlive|done]. }
    assert (∀ r', unreleased s r' → tracked (l1 ++ r :: l2) s r' → ref_done r' ≠ ref_done r → unreleased s' r') as Hun.
    { intros r' Hu' [[_ Hin]|Hs] Hne; [|by apply unreleased_not_spent in Hu']. apply Hlive. rewrite elem_of_app, elem_of_cons in Hin. rewrite elem_of_app.
      destruct Hin as [?|[->|?]]; [by left|done|by right]. }
    destruct Hf as [H1 H2 H3 H4 H5 H6 H7 H8 H9]. split; cbn [fs_layer s'].
    + done.
    + intros m1 r1 Hm. eauto.
    + intros m1 r1 Hin. apply Htr, (H3 m1). by right.
    + intros r1 Hin. apply Htr, H4. by right.
    + destruct Ht as [->|[mp ->]]; [done|]. by apply list.NoDup_cons in H5 as [_ ?].
    + done.
    + intros m1 m2 r1 r2 Hm Hin. apply H7; [done|by right].
    + intros m1 r1 r2 Hm Hin. eapply H8; [done|by right].
    + intros m1 r1 Hin Hm. apply Hun; [apply (H9 m1); [by right|done]|by eauto|by eapply Hother].
  - exists live. unfold on_resolver, Done, layer_done. rewrite call_done_spent by done. cbn [snd].
    unfold settle_layers. rewrite evicted_since_same by done. cbn [close_layers foldl].
    assert (mkFS (set_layerCache (layerCache (fs_resolver s)) (fs_resolver s)) (fs_layer s) (fs_contexts s) (fs_pr s) = s) as -> by (by destruct s as [[] ? ? ?]).
    assert (held (t :: rest) = held rest) as Eh by (destruct Ht as [->|[mp ->]]; done).
    eapply fcore_resolver; [exact Hf|done|rewrite <-Eh; apply Hf|by intros d| |].
    + intros t' Hin. left. by right.
    + pose proof (fc_nodup _ _ _ Hf) as Hnd. destruct Ht as [->|[mp ->]]; [done|]. by apply list.NoDup_cons in Hnd as [_ ?].
Qed.
End inv.

(** ** What the calls of the service hold *)
Section calls.
Context {E L Time Host : Type} `{HL : LRU L} `{HLL : !LRULaws L} `{HE : ResolverEnv E Time} `{HS : Store E} `{HP : PrefetchJSON}.
Context `{HT : GoTime Time} `{HD : Digester} `{HF : FlatbufZtoc} `{HG : GoSort}.
Context `{HR : RegistryEnv E} `{HM : ManifestEnv E} `{HJ : DocJSON} `{HN : References} `{HU : FuseEnv E} `{HO : MapRange}.
Context (cfg : FSConfig) (hasBgFetcher : bool) (order : list Z → list Z).
Context (resolverConfig : ResolverConfig) (modes : PullModes) (now : string) (blob_order : list (nat * Descriptor) → list (nat * Descriptor)).
Context (getSources : gmap string string → ST E (list (Source Host))).
Abbreviation FS := (filesystem E L).
Abbreviation fsafe := (Prog.safe (I (E:=E) (L:=L))).
Implicit Types (s : FS) (own rest : list ftoken).

Lemma safe_lift {A} (Q : outcome A → list token → Prop) (own0 : list token) (p : prog (resolver E L) A) :
  Prog.safe inv Q own0 p → every (λ B (m : ST (resolver E L) B), steady m) p →
  fsafe (λ o own', ∃ ts : list token, own' = Held <$> ts ∧ Q o ts) (Held <$> own0) (lift (@on_resolver E L) p).
Proof.
  revert own0. induction p as [o|B m k IH]; intros own0 Hs Hst; cbn [Prog.safe lift every] in *; [destruct Hs as [->|Hs]; [by left|right; by exists own0]|].
  destruct Hst as [Hm Hst]. intros rest s [live Hf] Hp. unfold on_resolver in *.
  assert (inv (own0 ++ held rest ++ (ref_token <$> live)) (fs_resolver s)) as Hi by (pose proof (fc_inv _ _ _ Hf) as H0; by rewrite held_app, held_Held, <-app_assoc in H0).
  pose proof (Hm (fs_resolver s)) as Hsp. specialize (Hs _ _ Hi). destruct (m (fs_resolver s)) as [r x]. cbn [fst snd] in *.
  destruct (Hs Hp) as (own' & Hi' & Hs'). exists (Held <$> own'). split; [|by apply IH]. exists live.
  eapply fcore_resolver; [exact Hf|done|by rewrite held_app, held_Held, <-app_assoc|done| |].
  - intros t [(t0 & -> & _)%list_elem_of_fmap|Ht]%elem_of_app; [right; by eexists|left; by apply elem_of_app; right].
  - pose proof (fc_nodup _ _ _ Hf) as Hnd. by rewrite reg_dones_app, reg_dones_Held in *.
Qed.

Definition holds_ref (o : outcome layerRef) own : Prop := match o with Ok r => own = [Held (ref_token r)] | Err _ => own = [] | Panic => True end.
Lemma safe_resolve_layer spec desc sociDesc prefetchDesc : fsafe holds_ref [] (resolve_layer cfg hasBgFetcher order spec desc sociDesc prefetchDesc).
Proof.
  unfold resolve_layer. eapply safe_mono; [|exact (safe_lift _ [] _ (safe_Resolve cfg hasBgFetcher order _ _ _ _) (steady_Resolve cfg hasBgFetcher order _ _ _ _))].
  intros [r|e|] own (own1 & -> & Hq); cbn in *; [by rewrite Hq|by rewrite Hq|done].
Qed.
Lemma safe_resolve_sources c (s0 : Source Host) src : fsafe holds_ref [] (resolve_sources cfg hasBgFetcher order c s0 src).
Proof.
  revert s0. induction src as [|s1 src IH]; intros s0; cbn [resolve_sources]; (destruct (imageLayerToSociDesc c !! _) as [d|]; [|by right]);
    (eapply safe_bind; [apply safe_resolve_layer|by left|]); intros [r|e|] own Hq; cbn in Hq; try subst own; [by right|by right|by left|by right|apply IH|by left].
Qed.

(** Calls that hold nothing before and after. *)
Lemma safe_enqueue_all js : fsafe (λ _ own, own = []) [] (enqueue_all js : prog FS ()).
Proof.
  assert (∀ A (p : prog (preresolver presolve) A), fsafe (λ _ own, own = []) [] (lift (@on_pr E L) p)) as Hl.
  { intros A p. induction p as [o|B m k IH]; cbn; [by right|]. intros rest s Hi Hp. exists []. split; [by apply I_pr|]. apply IH. }
  induction js as [|j js IH]; [by right|]. cbn [enqueue_all]. eapply (safe_seq (λ _ own, own = [])); [|by intros [] own ->].
  eapply safe_mono; [|apply Hl]. by intros [] own ->.
Qed.

Lemma I_done_held r rest s : I (Held (ref_token r) :: rest) s → I rest (on_resolver (Done r) s).2.
Proof.
  intros [live Hf]. exists live. unfold on_resolver, Done. pose proof (inv_layer_done (held rest ++ (ref_token <$> live)) (fs_resolver s) _ _ (fc_inv _ _ _ Hf)) as Hi.
  pose proof (steady_done (ref_done r) (fs_resolver s)) as Hsp. destruct (layer_done _ _) as [o x]. cbn [snd] in *.
  eapply fcore_resolver; [exact Hf|done|done|done|intros t Ht; left; by right|exact (fc_nodup _ _ _ Hf)].
Qed.
Lemma I_fail mp r rest s : I (Reg mp r :: rest) s → I rest (on_resolver (Done r) s).2.
Proof.
  intros Hi. apply (I_release r (Reg mp r) rest s); [by right; exists mp|done|]. intros mp' r' Hin _ Heq. destruct Hi as [live Hf].
  pose proof (fc_nodup _ _ _ Hf) as Hnd. apply list.NoDup_cons in Hnd as [Hnot _]. apply Hnot. rewrite <-Heq. by eapply elem_reg_dones.
Qed.
Lemma I_drop t rest s : (∀ t0, t ≠ Held t0) → I (t :: rest) s → I rest s.
Proof.
  intros Ht [live Hf]. exists live. assert (held (t :: rest) = held rest) as Eh by (destruct t; [by edestruct Ht|done..]).
  eapply fcore_resolver; [exact Hf|done|rewrite <-Eh; apply Hf|by intros d|intros t' Hin; left; by right|].
  pose proof (fc_nodup _ _ _ Hf) as Hnd. destruct t; [done|by apply list.NoDup_cons in Hnd as [_ ?]|done].
Qed.

Lemma safe_setup mp l image own : fsafe (λ _ own', own' = own) own (setupFuseServer hasBgFetcher mp l image).
Proof.
  unfold setupFuseServer. eapply (safe_seq (λ _ own', own' = own)); [by apply safe_look; [|intros []]|]. intros x own' ->.
  eapply (safe_seq (λ _ own', own' = own)); [apply safe_look; [intros; by apply I_env|by intros []]|]. intros [] own' ->.
  eapply (safe_seq (λ _ own', own' = own)).
  - apply safe_look; [|by intros []]. intros rest s Hi. destruct image; [by apply I_contexts|done].
  - intros [] own' ->. apply safe_look; [intros; by apply I_env|done].
Qed.

Definition holds_reg (mp : string) (o : outcome layerRef) own : Prop := match o with Ok r => own = [Reg mp r] | _ => True end.
Lemma safe_mount_resolved mp img l : fsafe (holds_reg mp) [Held (ref_token l)] (mount_resolved hasBgFetcher mp img l).
Proof.
  unfold mount_resolved, on_error.
  eapply (safe_bind (λ o own, match o with Ok r => r = l ∧ own = [Reg mp l] | Err _ => own = [Held (ref_token l)] ∨ own = [Reg mp l] | Panic => True end));
    [|by left|].
  - eapply (safe_seq (λ _ own, own = [Held (ref_token l)])).
    + apply safe_look; [|intros []; by try left]. intros rest s Hi. unfold st_map_err.
      assert (I ([Held (ref_token l)] ++ rest) (on_resolver (layer_RootNode (ref_layer l)) s).2) as H0.
      { unfold layer_RootNode, open_layer, st_bind, st_ret. apply I_call; [done|..]; cbv beta; [intros ts Hts|intros d Hd];
          (destruct (layers (fs_resolver s) !! ref_layer l) as [x|]; [|done]; by destruct (l_closed x)). }
      by destruct (on_resolver _ s).
    + intros [] own ->. eapply (safe_seq (λ _ own, own = [Reg mp l])).
      * apply safe_act. intros rest s Hi _. exists [Reg mp l]. split; [by apply I_register|done].
      * intros [] own ->. eapply (safe_seq (λ _ own, own = [Reg mp l])); [|intros [] own ->; by right].
        eapply safe_mono; [|apply safe_setup]. intros [] own ->; [done|by right|done].
  - intros [r|e|] own Hq; [destruct Hq as [-> ->]; by right| |by left]. intros rest s Hi _. exists []. split; [|by right].
    destruct Hq as [->| ->]; [by apply I_done_held|by eapply I_fail].
Qed.

Lemma safe_mount_layer mp ls ns timeout :
  fsafe (holds_reg mp) [] (mount_layer cfg hasBgFetcher order resolverConfig modes now blob_order getSources mp ls ns timeout).
Proof.
  unfold mount_layer. destruct (ls !! TargetRefLabel) as [imageRef|]; [|by right]. destruct (ls !! TargetManifestDigestLabel) as [img|]; [|by right].
  eapply (safe_seq (λ _ own, own = [])); [apply safe_look; [intros; by apply I_env|by intros []]|]. intros [|s0 src] own ->; [by right|].
  eapply (safe_seq (λ _ own, own = [])); [destruct (must (head (Hosts s0))); by right|]. intros client own ->.
  eapply (safe_seq (λ _ own, own = [])).
  { apply safe_look; [|by intros []]. intros rest s Hi. unfold st_map_err. set (m := getSociContext img _).
    pose proof (I_contexts ([] ++ rest) s m Hi) as H0. by destruct (on_contexts m s). }
  intros c own ->. destruct ns; cbn [negb].
  2: { eapply safe_bind; [apply safe_resolve_sources|by left|]. intros [] own _; by right. }
  eapply (safe_seq (λ _ own, own = [])); [eapply safe_mono; [|apply safe_enqueue_all]; by intros [] own ->|]. intros [] own ->. destruct timeout.
  { eapply safe_bind; [apply safe_resolve_sources|by left|]. intros [] own _; by right. }
  eapply (safe_seq (λ l own, own = [Held (ref_token l)])); [|intros l own ->; apply safe_mount_resolved].
  eapply safe_mono; [|apply safe_resolve_sources]. by intros [].
Qed.

Lemma safe_Unmount mp : fsafe (λ _ own, own = []) [] (Unmount (Time:=Time) mp : prog FS ()).
Proof.
  unfold Unmount. eapply (safe_seq (λ l own, own = [Taken l])).
  - apply safe_act. intros rest s Hi _. unfold take_layer. destruct (fs_layer s !! mp) as [l|] eqn:El; [|by exists []].
    exists [Taken l]. split; [by apply I_take|done].
  - intros l own ->. eapply (safe_seq (λ _ own, own = [] ∨ own = [Taken l])).
    2: { intros [] own Hown. apply safe_act. intros rest s Hi _. exists []. split; [|done].
      destruct Hown as [->| ->]; [by apply I_env|]. apply (I_drop (Taken l)); [done|]. by apply I_env. }
    destruct (negb (isIDMappedDir mp)); [|by right; right].
    eapply (safe_mono (λ _ own, own = [])); [intros [] own ->; [by left|done..]|].
    { eapply (safe_seq (λ _ own, own = [])).
      * apply safe_act. intros rest s Hi _. exists []. split; [|done]. apply (I_release l (Taken l) rest s); [by left|done|].
        intros mp' r' _ Hm. destruct Hi as [live Hf]. apply (fc_gone _ _ _ Hf mp'); [done|left].
      * intros [] own ->. eapply (safe_seq (λ _ own, own = [])); [by apply safe_look; [|intros []]|]. intros k own ->.
        apply safe_look; [|by intros []]. intros rest s Hi. apply I_call; [done|intros ts; apply inv_layer_Remove|apply steady_Remove]. }
Qed.

Lemma safe_Check mp ls : fsafe (λ _ own, own = []) [] (Check (Time:=Time) getSources mp ls : prog FS ()).
Proof.
  assert (∀ A (m : ST (resolver E L) A), (∀ x, layerCache (m x).2 = layerCache x) → (∀ ts x, inv ts x → inv ts (m x).2) →
    ∀ rest s, I ([] ++ rest) s → I ([] ++ rest) (on_resolver m s).2) as Hlook.
  { intros A m Hc Hi rest s H0. apply I_call; [done|by intros; apply Hi|]. rewrite Hc. by intros d. }
  assert (∀ p x, layerCache (layer_Info p x).2 = layerCache x ∧ ∀ ts, inv ts x → inv ts (layer_Info p x).2) as Hinfo.
  { intros p x. unfold layer_Info. by destruct (layers x !! p). }
  unfold Check. eapply (safe_seq (λ _ own, own = [])); [by apply safe_look; [|intros []]|]. intros l own ->.
  eapply (safe_seq (λ _ own, own = [])); [apply safe_look; [|by intros []]; apply Hlook; [apply Hinfo|intros ts x; apply Hinfo]|]. intros i own ->.
  destruct (_ <? _); [|by right]. unfold check. eapply (safe_seq (λ _ own, own = [])).
  { apply safe_attempt; [|done]. apply Hlook; [apply cache_layer_Check|intros ts x; apply inv_layer_Check]. }
  intros [] own ->; [by right|]. eapply (safe_seq (λ _ own, own = [])); [apply safe_look; [intros; by apply I_env|by intros []]|]. intros src own ->.
  generalize (ErrorString "failed to refresh connection"). induction src as [|s0 src IH]; intros err; [by right|]. cbn [refresh].
  eapply (safe_bind (λ _ own, own = [])); [|by left|].
  - apply safe_look; [|done]. set (nm := layer_name _ _). assert (∀ x, layerCache (layer_Refresh (ref_layer l) nm (Target s0) x).2 = layerCache x ∧
      ∀ ts, inv ts x → inv ts (layer_Refresh (ref_layer l) nm (Target s0) x).2) as Hr.
    { intros x. unfold layer_Refresh, open_layer, st_bind. destruct (layers x !! ref_layer l) as [y|]; [|done]. destruct (l_closed y); [done|].
      destruct (default true _); [done|]. split; [apply cache_on_env|]. intros ts. apply inv_on_env. }
    apply Hlook; [apply Hr|intros ts x; apply Hr].
  - intros [] own ->; [by right|apply IH|by left].
Qed.

(** ** All calls together

    The functions of the preresolver may run at any time. *)
Inductive fs_call :=
| CMount (mp : string) (ls : gmap string string) (namespace timeout : bool)
| CUnmount (mp : string)
| CCheck (mp : string) (ls : gmap string string)
| CPresolve (p : presolve).
(** A mount that succeeds, and where. *)
Definition call_prog (c : fs_call) : prog FS (option (string * layerRef)) :=
  match c with
  | CMount mp ls ns timeout =>
      seq (mount_layer cfg hasBgFetcher order resolverConfig modes now blob_order getSources mp ls ns timeout) (λ l, Ret (Ok (Some (mp, l))))
  | CUnmount mp => seq (Unmount (Time:=Time) mp) (λ _, Ret (Ok None))
  | CCheck mp ls => seq (Check (Time:=Time) getSources mp ls) (λ _, Ret (Ok None))
  | CPresolve p => seq (run_presolve cfg hasBgFetcher order p) (λ _, Ret (Ok None))
  end.

Record service := mkService { f_threads : list (prog FS (option (string * layerRef))); f_mounted : list (string * layerRef); f_state : FS }.
Inductive fstep : service → service → Prop :=
| fstep_start ts ms s c : fstep (mkService ts ms s) (mkService (ts ++ [call_prog c]) ms s)
| fstep_call ts ms s i B (m : ST FS B) k : ts !! i = Some (Call m k) → (m s).1 ≠ Panic →
    fstep (mkService ts ms s) (mkService (<[i := k (m s).1]> ts) ms (m s).2)
| fstep_return ts ms s i o : ts !! i = Some (Ret o) → o ≠ Panic →
    fstep (mkService ts ms s) (mkService (delete i ts) (match o with Ok (Some x) => x :: ms | _ => ms end) s)
| fstep_env ts ms s e : fstep (mkService ts ms s) (mkService ts ms (on_fs_env (λ _, (Ok tt, e)) s).2).

Definition holds_call (o : outcome (option (string * layerRef))) own : Prop :=
  match o with Ok (Some (mp, r)) => own = [Reg mp r] | Ok None => own = [] | _ => True end.
Lemma safe_call c : fsafe holds_call [] (call_prog c).
Proof.
  destruct c as [mp ls ns timeout|mp|mp ls|p]; cbn [call_prog].
  - eapply (safe_seq (λ l own, own = [Reg mp l])); [|intros l own ->; by right]. eapply safe_mono; [|apply safe_mount_layer]. by intros [].
  - eapply (safe_seq (λ _ own, own = [])); [|intros l own ->; by right]. eapply safe_mono; [|apply safe_Unmount]. by intros [].
  - eapply (safe_seq (λ _ own, own = [])); [|intros l own ->; by right]. eapply safe_mono; [|apply safe_Check]. by intros [].
  - eapply (safe_seq (λ _ own, own = [])); [|intros l own ->; by right]. unfold run_presolve.
    eapply safe_bind; [apply safe_resolve_layer|by left|]. intros [r|e|] own Hq; cbn in Hq; [|by subst; right|by left]. subst own.
    apply safe_act. intros rest s Hi _. exists []. split; [by apply I_done_held|done].
Qed.

Definition reg_of (x : string * layerRef) : ftoken := Reg x.1 x.2.
Definition service_ok (w : service) : Prop := ∃ owns leaked, Forall2 (fsafe holds_call) owns (f_threads w) ∧
  I (concat owns ++ leaked ++ (reg_of <$> f_mounted w)) (f_state w).

Lemma fstep_ok w w' : fstep w w' → service_ok w → service_ok w'.
Proof.
  intros Hstep (owns & leaked & Hsafe & Hi). destruct Hstep; cbn [f_threads f_mounted f_state] in *.
  - exists (owns ++ [[]]), leaked. split; [apply Forall2_app; [done|constructor; [apply safe_call|constructor]]|]. by rewrite concat_app, app_nil_r.
  - destruct (Forall2_lookup_r _ _ _ _ _ Hsafe H) as (own & Hown & Hs). cbn [Prog.safe] in Hs.
    destruct (Hs (concat (delete i owns) ++ leaked ++ (reg_of <$> ms)) s) as (own' & Hi' & Hs'); [|done|].
    { eapply I_perm; [|exact Hi]. by rewrite (concat_delete _ _ _ Hown), <-(assoc (++)). }
    exists (<[i := own']> owns), leaked. split; [by apply Forall2_insert|]. eapply I_perm; [|exact Hi']. by rewrite (concat_insert _ _ _ own' Hown), <-(assoc (++)).
  - destruct (Forall2_lookup_r _ _ _ _ _ Hsafe H) as (own & Hown & [?|Hs]); [done|].
    assert (∃ leaked', own ++ leaked ++ (reg_of <$> ms) ≡ₚ leaked' ++ (reg_of <$> match o with Ok (Some x) => x :: ms | _ => ms end)) as [leaked' Hp].
    { destruct o as [[[mp r]|]|e|]; cbn in Hs; [|subst own; by exists leaked|by exists (own ++ leaked); rewrite (assoc (++))|done].
      subst own. exists leaked. cbn. by rewrite <-Permutation_middle. }
    exists (delete i owns), leaked'. split; [by apply Forall2_delete_both|]. eapply I_perm; [|exact Hi]. rewrite (concat_delete _ _ _ Hown).
    rewrite <-Hp, <-!(assoc (++)), !(assoc (++)), (Permutation_app_comm own). done.
  - exists owns, leaked. split; [done|]. by apply I_env.
Qed.
Lemma reachable_service s0 w : I [] s0 → rtc fstep (mkService [] [] s0) w → service_ok w.
Proof.
  intros Hi Hsteps. assert (service_ok (mkService [] [] s0)) as H0 by (exists [], []; split; [constructor|done]).
  induction Hsteps as [|w1 w2 w3 Hs _ IH]; [done|]. by apply IH, (fstep_ok w1).
Qed.
Lemma NewFilesystem_ok empty e (x : resolver E L) pr : lru_map empty = ∅ → NewResolver empty e = Ok x → I [] (mkFS x ∅ ∅ pr).
Proof.
  intros He Hn. exists []. destruct (New_ok empty e x He Hn) as (owns & Ho & Hi). apply Forall2_nil_inv_r in Ho as ->. cbn in Hi.
  split; cbn; try done; try (intros; by apply lookup_empty_Some in H); try (intros * Hin; by apply not_elem_of_nil in Hin); try constructor.
Qed.

(** C10: a mounted layer can be read.  However many calls of [Mount], [Unmount] and [Check]
    and functions of the preresolver run at the same time and whichever of their steps fail:
    when a mount succeeded and its mountpoint still has that layer, which is until it is
    unmounted, then the layer, the blob it reads and its span cache are open. *)
Theorem mounted_layers_stay_open empty e x pr w mp r :
  lru_map empty = ∅ → NewResolver empty e = Ok x → rtc fstep (mkService [] [] (mkFS x ∅ ∅ pr)) w →
  (mp, r) ∈ f_mounted w → fs_layer (f_state w) !! mp = Some r →
  ∃ l, layers (fs_resolver (f_state w)) !! ref_layer r = Some l ∧ l_closed l = false ∧
    LayerResolver.blobs (fs_resolver (f_state w)) !! l_blob l = Some false ∧ spanCaches (fs_resolver (f_state w)) !! l_spanCache l = Some false.
Proof.
  intros He Hn Hsteps Hin Hmp. destruct (reachable_service _ w (NewFilesystem_ok empty e x pr He Hn) Hsteps) as (owns & leaked & _ & live & Hf).
  assert (unreleased (f_state w) r) as Hu.
  { apply (fc_live _ _ _ Hf mp); [|done]. do 2 (apply elem_of_app; right). apply list_elem_of_fmap. by exists (mp, r). }
  by eapply ref_open; [apply Hf|].
Qed.
End calls.

(** ** Id-mapped mounts *)
Lemma split_slash_snoc x b : no_slash b → split_slash (x +:+ String "/" b) = split_slash x ++ [b].
Proof.
  intros Hb. induction x as [|c x IH]; [exact (split_slash_sep "" b no_slash_nil) || (change (""%string :: split_slash b = [""%string; b]); by rewrite split_slash_single)|].
  change (split_slash (String c (x +:+ String "/" b)) = split_slash (String c x) ++ [b]). cbn [split_slash]. rewrite IH. destruct (Ascii.eqb c "/"); [done|].
  pose proof (split_slash_nonempty x). by destruct (split_slash x).
Qed.
Lemma Base_rooted cs c : Forall valid_comp (cs ++ [c]) → filepath_Base ("/" +:+ join (cs ++ [c])) = c.
Proof.
  intros Hv. rewrite <-(Base_join cs c Hv) at 2. unfold filepath_Base. change ("/" +:+ join (cs ++ [c])) with (String "/" (join (cs ++ [c]))).
  assert (split_slash (String "/" (join (cs ++ [c]))) = "" :: split_slash (join (cs ++ [c]))) as -> by done.
  rewrite filter_cons_False by (intros Hn; by apply Hn). destruct (join (cs ++ [c])) eqn:Ej; [|done].
  pose proof (clean_join (cs ++ [c]) Hv) as Hc. rewrite Ej in Hc. by destruct cs.
Qed.
(** The directory of an id-mapped mount is the parent of its mountpoint, so none is
    recognised. *)
Lemma idmapped_not_recognised mp id : isIDMappedDir (getIDMappedMountpoint mp id) = false.
Proof.
  unfold isIDMappedDir, getIDMappedMountpoint, filepath_Join, cleanEntryPath. set (x := filepath_Dir mp +:+ "_" +:+ id).
  assert (clean_components (x +:+ "/" +:+ "fs") = reverse (foldl clean_push [] (split_slash x)) ++ ["fs"]) as Ec.
  { unfold clean_components. change ("/" +:+ "fs") with (String "/" "fs"). rewrite split_slash_snoc by (unfold no_slash; cbn; set_solver). rewrite foldl_app.
    cbn [foldl]. assert (∀ acc, clean_push acc "fs" = "fs" :: acc) as -> by done. by rewrite reverse_cons. }
  rewrite Ec, Base_rooted; [done|]. rewrite <-Ec. apply clean_components_valid.
Qed.

Section idmapped.
Context {E L Time : Type} `{HL : LRU L} `{HE : ResolverEnv E Time} `{HU : FuseEnv E}.
Abbreviation FS := (filesystem E L).
Implicit Types (s : FS).

(** Calls that leave the registry and the references alone. *)
Definition stays {A} (m : ST FS A) : Prop := ∀ s, fs_layer (m s).2 = fs_layer s ∧ fcache (m s).2 = fcache s.
Lemma run_seq {A B} (p : prog FS A) (k : A → prog FS B) s :
  run (seq p k) s = match run p s with (Ok a, s1) => run (k a) s1 | (Err e, s1) => (Err e, s1) | (Panic, s1) => (Panic, s1) end.
Proof.
  unfold seq. revert s. induction p as [o|C m k' IH]; intros s; cbn [run pbind]; [by destruct o|]. destruct (m s) as [r s1]. apply IH.
Qed.
Lemma run_seq_ok {A B} (p : prog FS A) (k : A → prog FS B) s b s2 : run (seq p k) s = (Ok b, s2) → ∃ a s1, run p s = (Ok a, s1) ∧ run (k a) s1 = (Ok b, s2).
Proof. rewrite run_seq. destruct (run p s) as [[a|e|] s1]; [|done..]. intros H. by exists a, s1. Qed.
Lemma run_stays {A} (p : prog FS A) s o s' : run p s = (o, s') → every (λ B (m : ST FS B), stays m) p → fs_layer s' = fs_layer s ∧ fcache s' = fcache s.
Proof.
  revert s. induction p as [o'|B m k IH]; intros s Hr Hp; cbn in *; [by injection Hr as _ <-|]. destruct Hp as [Hm Hp]. specialize (Hm s) as [E1 E2].
  destruct (m s) as [r s1]. cbn [snd] in *. destruct (IH r s1 Hr (Hp r)) as [-> ->]. done.
Qed.
Lemma stays_env {A} (m : ST E A) : stays (on_fs_env m : ST FS A).
Proof. intros s. unfold on_fs_env, on_resolver, LayerResolver.on_env. by destruct (m _). Qed.
Lemma stays_RootNode p : stays (on_resolver (layer_RootNode p) : ST FS ()).
Proof. intros s. unfold on_resolver, layer_RootNode, open_layer, st_bind, st_ret. destruct (layers (fs_resolver s) !! p) as [l|]; [|done]. by destruct (l_closed l). Qed.
Lemma stays_setup hasBg mp l image : every (λ B (m : ST FS B), stays m) (setupFuseServer hasBg mp l image).
Proof.
  unfold setupFuseServer. cbn. split; [by intros s|]. intros [x|e|]; [|done..]. cbn. split; [apply stays_env|]. intros [[]|e|]; [|done..]. cbn. split.
  - intros s. destruct image; [|done]. unfold on_contexts. by destruct (pauseOnce _ _ _).
  - intros [[]|e|]; [|done..]. cbn. split; [apply stays_env|done].
Qed.

(** C34: unmounting an id-mapped mount releases the layer of the mount it was made from.
    [isIDMappedDir] looks at the last element of the path, which is always [fs], so the layer
    that both mountpoints share is released and evicted as if it were the other's; the mount it
    was made from is left registered with a layer that is released. *)
Theorem idmapped_unmount_releases hasBg mp id newmp r s s1 o s2 :
  fs_layer s !! mp = Some r → unreleased s r → newmp ≠ mp →
  run (IDMapMount hasBg mp id) s = (Ok newmp, s1) → run (Unmount (Time:=Time) newmp) s1 = (o, s2) → o ≠ Panic →
  fs_layer s2 !! mp = Some r ∧ spent (fcache s2) (ref_done r) ∧ fs_layer s2 !! newmp = None.
Proof.
  intros Hmp Hu Hne Hmount Hunmount Ho.
  assert (newmp = getIDMappedMountpoint mp id ∧ fs_layer s1 = <[newmp := r]> (fs_layer s) ∧ fcache s1 = fcache s) as (Enew & El & Ec).
  { unfold IDMapMount in Hmount. apply run_seq_ok in Hmount as ([] & t1 & H1 & Hmount). apply run_seq_ok in Hmount as ([] & t2 & H2 & Hmount).
    apply run_seq_ok in Hmount as (l & t3 & H3 & Hmount). apply run_seq_ok in Hmount as ([] & t4 & H4 & Hmount). apply run_seq_ok in Hmount as ([] & t5 & H5 & Hmount).
    injection Hmount as <- <-. apply run_stays in H1 as [L1 C1]; [|by split; [apply stays_env|]]. apply run_stays in H2 as [L2 C2]; [|by split; [apply stays_env|]].
    cbn [run act] in H3. unfold share_layer in H3. rewrite L2, L1, Hmp in H3. injection H3 as <- <-.
    apply run_stays in H4 as [L4 C4]; [|split; [apply stays_RootNode|done]]. apply run_stays in H5 as [L5 C5]; [|apply stays_setup].
    split; [done|]. rewrite L5, L4, C5, C4. cbn [set_layer fs_layer]. split; [done|]. change (fcache t2 = fcache s). by rewrite C2. }
  unfold Unmount in Hunmount. rewrite run_seq in Hunmount. cbn [run act] in Hunmount. unfold take_layer in Hunmount. rewrite El, lookup_insert_eq in Hunmount.
  rewrite Enew, idmapped_not_recognised, <-Enew in Hunmount. cbn [negb] in Hunmount. set (t0 := set_layer _ s1) in Hunmount.
  set (t1 := (on_resolver (Done r) t0).2).
  assert (spent (fcache t1) (ref_done r)) as Hsp.
  { assert (unreleased t0 r) as (h & x & Hd & _) by (unfold unreleased; change (fcache t0) with (fcache s1); by rewrite Ec).
    exists h. unfold t1, on_resolver, Done, layer_done. cbn [snd]. unfold fcache. cbn [fs_resolver]. rewrite cache_settle_layers. unfold call_done. unfold fcache in Hd. rewrite Hd.
    rewrite dones_dec. cbn [dones]. apply list_lookup_insert_eq. by eapply lookup_lt_Some. }
  assert (fs_layer t1 = delete newmp (<[newmp := r]> (fs_layer s))) as Hl1 by done.
  assert (fs_layer s2 = fs_layer t1 ∧ spends (fcache t1) (fcache s2)) as [Hl2 Hs2].
  { rewrite !run_seq in Hunmount. cbn [run act] in Hunmount. change (on_resolver (Done r) t0) with (Ok tt, t1) in Hunmount. cbn in Hunmount.
    destruct (layers (settle_layers _ _) !! ref_layer r) as [l|]; cbn in Hunmount; [|by injection Hunmount as <- _].
    set (t2 := mkFS (settle_layers _ _) _ _ _) in Hunmount.
    pose proof (stays_env (fuse_Unmount newmp) t2) as [E1 E2].
    destruct (on_fs_env (fuse_Unmount newmp) t2) as [o' s3]. injection Hunmount as _ <-. cbn [snd] in E1, E2. rewrite E1, E2. split; [done|].
    unfold t2, fcache. cbn [fs_resolver]. rewrite cache_settle_layers. apply spends_Remove. }
  rewrite Hl2, Hl1. split_and!; [by rewrite lookup_delete_ne, lookup_insert_ne|by apply Hs2|apply lookup_delete_eq].
Qed.
End idmapped.
