(* ===== verification/FsParallel.v ===== *)
(** * Pulling images in parallel and locally

    Models [MountLocal], [MountParallel] and what is below them, [CleanImage] and the checks of
    [NewFilesystem] in [fs/fs.go]: layers are downloaded and unpacked ahead of time into
    directories of their own, and moved to their mountpoints when these are asked for. *)
From Stdlib Require Import ZArith Lia Ascii.
From stdpp Require Import base list gmap strings numbers.
From S2P Require Import Prelude GoLib Regions Remote Ztoc ZtocBuilder MetadataTree IDMap Oci ArtifactsDb SociIndex.
From S2P Require Import SnapshotHost Snapshot UnpackJobs UnpackFacts Fetch FetchFacts Unpack Source FsIndex FsMount.
#[local] Open Scope Z_scope.
Local Open Scope go_scope.

Definition context_Canceled : error := Sentinel "context canceled".
Definition gofs_ErrExist : error := Sentinel "file already exists".
Definition ContainerdContentStoreType : string := "containerd".

(** ** Starting *)
Definition parallel_store_ok (cfg : UnpackJobs.Parallel) (contentStoreType : string) : outcome () :=
  if Enable cfg && negb (String.eqb contentStoreType ContainerdContentStoreType) && negb (DiscardUnpackedLayers cfg)
  then Err (ErrorString "parallel_pull_unpack mode requires containerd content store")
  else if ExperimentalParallelPullAsFallback cfg && negb (String.eqb contentStoreType ContainerdContentStoreType) && negb (DiscardUnpackedLayers cfg)
  then Err (ErrorString "experimental_parallel_pull_as_fallback requires containerd content store")
  else Ok tt.

(** [InitializeDecompressStreams] is the caller's; [None]: no jobs. *)
Definition createParallelPullStructs (cfg : UnpackJobs.Parallel) (initialize : outcome ()) (t : Z) (h : disk) : outcome (option unpackJobs) :=
  if negb (Enable cfg) && negb (ExperimentalParallelPullAsFallback cfg) then Ok None
  else
    _ ← map_err (Wrap "error initializing decompress streams") initialize;
    jobs ← map_err (Wrap "error creating unpack jobs") (newUnpackJobs cfg t h);
    Ok (Some jobs).

(** containerd's content store, image configurations and directories outside the one for
    unpacking. *)
Class ImageEnv (E : Type) := {
  containerd_Client : ST E ();
  content_ReadBlob : Descriptor → ST E bytes;
  image_DiffIDs : bytes → outcome (list string);
  GetDecompressStream : string → option (stream → outcome reads);
  os_StatUnpack : path → ST E ();
  os_StatIsDir : string → ST E bool;
  os_OpenDir : string → ST E ();
  dir_Readdirnames1 : string → ST E ();       (* [io_EOF]: there is none *)
  os_RemoveTree : string → ST E ();
  os_MkdirAllTo : string → ST E ();
  os_RenameTo : path → string → ST E ()
}.

(** A goroutine that was started. *)
Record premount_args := mkPremount {
  pm_desc : Descriptor;
  pm_spec : reference_Spec;
  pm_store : Repository;
  pm_diffIDs : gmap string string;
  pm_job : nat
}.

Record pfs (E : Type) := mkPFS { pf_env : E; pf_jobs : unpackJobs; pf_started : list premount_args }.
Arguments mkPFS {E}.
Arguments pf_env {E}.
Arguments pf_jobs {E}.
Arguments pf_started {E}.

Section parallel.
Context {E Host : Type} `{HR : RegistryEnv E} `{HS : Store E} `{HFE : FileEnv E} `{HA : ArchiveEnv E} `{HI : ImageEnv E} `{HJ : DocJSON}.
Context `{HN : References} `{HD : Digester} `{HT : MediaTypes}.
Context (resolverConfig : ResolverConfig) (getSources : gmap string string → ST E (list (Source Host))) (chunk_order : list Z → list Z).
Abbreviation S := (pfs E).
Abbreviation labels := (gmap string string).
Implicit Types (s : S).

Definition on_E {A} (m : ST E A) : ST S A := λ s, let '(r, e) := m (pf_env s) in (r, mkPFS e (pf_jobs s) (pf_started s)).
Definition on_jobs {A} (m : ST unpackJobs A) : ST S A := λ s, let '(r, j) := m (pf_jobs s) in (r, mkPFS (pf_env s) j (pf_started s)).
Definition config (s : S) : UnpackJobs.Parallel := imagePullCfg (pf_jobs s).

(** ** Manifests *)
Definition getImageManifest (dgst : string) : ST E Manifest :=
  containerd_Client;;;
  buf <~ content_ReadBlob (content_desc "" (digest_Parse dgst) 0);;
  st_lift (manifest_Unmarshal buf).

(** The layers of the manifest and the digests of their uncompressed contents, by position. *)
Definition diff_id_map (layers : list Descriptor) (diffIDs : list string) : gmap string string :=
  foldl (λ m x, <[d_Digest x.1 := x.2]> m) ∅ (zip layers diffIDs).
Definition getDiffIDMap (imageManifest : Manifest) : ST E (gmap string string) :=
  containerd_Client;;;
  buf <~ content_ReadBlob (m_Config imageManifest);;
  uncompressedShas <~ st_lift (map_err (Wrap "error unmarshalling image config JSON") (image_DiffIDs buf));;
  if negb (length uncompressedShas =? length (m_Layers imageManifest))%nat
  then st_err (ErrorString "mismatch between manifest layers and diff IDs")
  else st_ret (diff_id_map (m_Layers imageManifest) uncompressedShas).

(** ** Locally *)
Definition first_source (ls : labels) : ST E (Source Host) :=
  src <~ getSources ls;;
  match src with
  | [] => st_err (ErrorString "blob info not found for any labels")
  | s0 :: _ => st_lift (_ ← must (head (Hosts s0)); Ok s0)
  end.

(** The image is one whose manifest containerd has; a size that is not known is asked for. *)
Definition MountLocal (ctx_done : bool) (mountpoint : string) (ls : labels) (mounts : list SnapshotHost.Mount) : ST E () :=
  imageRef <~ st_lift (match ls !! TargetRefLabel with Some r => Ok r | None => Err (ErrorString "unable to get image ref from labels") end);;
  s0 <~ first_source ls;;
  refspec <~ st_lift (map_err (Wrap "cannot parse image ref") (reference_Parse imageRef));;
  remoteStore <~ st_lift (map_err (Wrap "cannot create remote store") (newRemoteBlobStore refspec (isInsecureHost resolverConfig (rs_Hostname refspec))));;
  let fetcher := mkAF (orasBlobStore remoteStore) refspec in
  desc <~ (if d_Size (Target s0) =? 0
           then st_map_err (Wrap "cannot resolve size of layer") (Fetch.Resolve remoteStore (Locator remoteStore +:+ "@" +:+ d_Digest (Target s0)))
           else st_ret (Target s0));;
  imageDigest <~ st_lift (match ls !! TargetManifestDigestLabel with Some d => Ok d | None => Err (ErrorString "layer has no image manifest attached") end);;
  manifest <~ st_map_err (Wrap "cannot get image manifest") (getImageManifest imageDigest);;
  diffIDMap <~ st_map_err (Wrap "error getting uncompressed shasums for image") (getDiffIDMap manifest);;
  uncompressedDigest <~ st_lift (match diffIDMap !! d_Digest desc with Some d => Ok d | None => Err (ErrorString "digest not found in image manifest") end);;
  let archive := NewLayerArchive None (Some (newAsyncVerifier uncompressedDigest)) None in
  st_map_err (Wrap "cannot unpack the layer") (layerUnpacker_Unpack fetcher archive ctx_done desc (MountDir mountpoint) mounts).

(** ** In parallel *)
Definition start_premount (a : premount_args) : ST S () := λ s, (Ok tt, mkPFS (pf_env s) (pf_jobs s) (pf_started s ++ [a])).

(** [premountAll]: the value of the outer [err], which only the first request sets, and what it
    returns. *)
Fixpoint premountAll (desc : Descriptor) (spec : reference_Spec) (remoteStore : Repository) (diffIDMap : gmap string string) (imageJob : nat)
    (startPremounting : bool) (ls : list Descriptor) : ST S (option error * option error) := λ s,
  match ls with
  | [] => (Ok (None, None), s)
  | l :: ls' =>
      if IsLayerType (d_MediaType l) then
        let hit := String.eqb (d_Digest l) (d_Digest desc) in
        let '(r, s1) := if hit && negb (MaxConcurrentDownloadsPerImage (config s) =? 1)
                        then on_E (doInitialFetch remoteStore (constructRef spec desc)) s else (Ok true, s) in
        match r with
        | Err e => (Ok (Some e, Some (Wrap "error doing initial client fetch" e)), s1)
        | Panic => (Panic, s1)
        | Ok _ =>
            if startPremounting || hit then
              match on_jobs (AddLayerJob imageJob (d_Digest l)) s1 with
              | (Err e, s2) => (Ok (None, Some (Wrap "error adding layer job" e)), s2)
              | (Panic, s2) => (Panic, s2)
              | (Ok j, s2) =>
                  let '(_, s3) := start_premount (mkPremount l spec remoteStore diffIDMap j) s2 in
                  premountAll desc spec remoteStore diffIDMap imageJob true ls' s3
              end
            else premountAll desc spec remoteStore diffIDMap imageJob false ls' s1
        end
      else premountAll desc spec remoteStore diffIDMap imageJob startPremounting ls' s
  end.

(** [ctx] is the context that is made for the image; the client is cloned for it. *)
Definition preloadAllLayers (namespace : bool) (ctx : nat) (desc : Descriptor) (imageDigest : string) (refspec : reference_Spec) : ST S () :=
  manifest <~ st_map_err (Wrap "cannot get image manifest") (on_E (getImageManifest imageDigest));;
  diffIDMap <~ st_map_err (Wrap "error getting uncompressed shasums for image") (on_E (getDiffIDMap manifest));;
  if negb namespace then st_err (ErrorString "namespace not attached to context")
  else
    remoteStore <~ st_lift (map_err (Wrap "cannot create remote store") (newRemoteBlobStore refspec (isInsecureHost resolverConfig (rs_Hostname refspec))));;
    imageJob <~ on_jobs (GetOrAddImageJob imageDigest ctx);;
    r <~ premountAll desc refspec remoteStore diffIDMap imageJob false (m_Layers manifest);;
    λ s,
      let s1 := match r.2 with Some e => (on_jobs (RemoveImageWithError imageDigest e) s).2 | None => s end in
      (match r.1 with Some e => Err e | None => Ok tt end, s1).

(** What [unpacker.Unpack] does, on the job's file and in the job's directory. *)
Definition unpack_layer (ctx_done : bool) (a : premount_args) (uncompressedDigest : string) : ST S () := λ s,
  match layer_jobs (pf_jobs s) !! pm_job a with
  | None => (Panic, s)
  | Some job =>
      let discard := DiscardUnpackedLayers (config s) in
      let compressedVerifier := if discard then Some (newAsyncVerifier (d_Digest (pm_desc a))) else None in
      let archive := NewLayerArchive compressedVerifier (Some (newAsyncVerifier uncompressedDigest)) (GetDecompressStream (d_MediaType (pm_desc a))) in
      let fetcher := newParallelArtifactFetcher (mkAF (orasBlobStore (pm_store a)) (pm_spec a)) (ConcurrentDownloadChunkSize (config s)) discard in
      let fsPath := JobDir (GetUnpackUpperPath job) in
      let '(r, p) := parallel_Unpack fetcher archive discard ctx_done chunk_order (pm_desc a) fsPath [] (mkP (pf_env s) None None) in
      (r, mkPFS (p_env p) (pf_jobs s) (pf_started s))
  end.

(** The channel of the job gets the error. *)
Definition send_result (l : nat) (err : option error) : ST S () := on_jobs (λ jobs,
  match layer_jobs jobs !! l with
  | None => (Panic, jobs)
  | Some j => (Ok tt, UnpackJobs.set_layers (<[l := mkLayerJob (lj_imageDigest j) (lj_ctx j) (lj_creationTimestamp j) (layerUnpackID j) (lj_layerDigest j)
                                                      (Some err) (lj_status j)]> (layer_jobs jobs)) jobs)
  end).

(** The local [err] that the deferred function sees: a digest that is not found leaves it nil. *)
Definition premount (ctx_done : bool) (a : premount_args) : ST S () :=
  err <~ match pm_diffIDs a !! d_Digest (pm_desc a) with
         | None => st_ret None
         | Some u => λ s, match unpack_layer ctx_done a u s with
                          | (Ok _, s1) => (Ok None, s1)
                          | (Err e, s1) => (Ok (Some e), s1)
                          | (Panic, s1) => (Panic, s1)
                          end
         end;;
  s <~ st_get;;
  job <~ st_lift (must (layer_jobs (pf_jobs s) !! pm_job a));;
  let err' := match cancelled (pf_jobs s) !! lj_ctx job with Some _ => Some context_Canceled | None => err end in
  (λ s, match err' with Some e => (Ok tt, (on_jobs (RemoveImageWithError (lj_imageDigest job) e) s).2) | None => (Ok tt, s) end);;;
  send_result (pm_job a) err'.

(** *** Rebasing

    The result and the [err] that the deferred function sees, which the errors of the directory
    at the mountpoint are not, as they are of a variable of the inner block. *)
Definition ErrJobCancelled : error := ErrorString "layer unpack job cancelled".
Definition rebase_move (mountpoint : string) (tempDir : path) : ST E (option error * option error) := λ e,
  match os_MkdirAllTo (filepath_Dir mountpoint) e with
  | (Err x, e1) => (Ok (Some (Wrap "error creating mountpoint on disk" x), Some x), e1)
  | (Panic, e1) => (Panic, e1)
  | (Ok _, e1) =>
      match os_RenameTo tempDir mountpoint e1 with
      | (Err x, e2) => (Ok (Some (Wrap "error moving temp unpack dir to mountpoint" x), Some x), e2)
      | (Panic, e2) => (Panic, e2)
      | (Ok _, e2) => (Ok (None, None), e2)
      end
  end.
Definition rebase_onto (mountpoint : string) (tempDir : path) : ST E (option error * option error) := λ e,
  match os_StatUnpack tempDir e with
  | (Err x, e1) => (Ok (Some (Wrap "error statting temporary unpack directory" x), Some x), e1)
  | (Panic, e1) => (Panic, e1)
  | (Ok _, e1) =>
      match os_StatIsDir mountpoint e1 with
      | (Panic, e2) => (Panic, e2)
      | (Err x, e2) => if errors_Is x os_ErrNotExist then rebase_move mountpoint tempDir e2 else (Ok (Some (Wrap "error statting mountpoint" x), Some x), e2)
      | (Ok false, e2) => rebase_move mountpoint tempDir (os_RemoveTree mountpoint e2).2
      | (Ok true, e2) =>
          match os_OpenDir mountpoint e2 with
          | (Err x, e3) => (Ok (Some (Wrap "error opening up preexisting mountpoint" x), None), e3)
          | (Panic, e3) => (Panic, e3)
          | (Ok _, e3) =>
              match dir_Readdirnames1 mountpoint e3 with
              | (Err x, e4) => if errors_Is x io_EOF then rebase_move mountpoint tempDir (os_RemoveTree mountpoint e4).2 else (Ok (Some x, None), e4)
              | (Ok _, e4) => (Ok (Some gofs_ErrExist, None), e4)
              | (Panic, e4) => (Panic, e4)
              end
          end
      end
  end.

(** [recv]: what the select gets for the job, the error of the context or what [premount] sent,
    and what the other goroutines do to the jobs while it waits. *)
Definition rebase_claimed (recv : nat → ST S (option error)) (l : nat) (mountpoint : string) : ST S (option error * option error) :=
  err <~ recv l;;
  match err with
  | Some e => st_ret (Some e, Some e)
  | None =>
      s <~ st_get;;
      job <~ st_lift (must (layer_jobs (pf_jobs s) !! l));;
      if bool_decide (lj_status job = LayerUnpackJobCancelled) then st_ret (Some ErrJobCancelled, None)
      else on_E (rebase_onto mountpoint (GetUnpackUpperPath job))
  end.
Definition ignore {A} (m : ST S A) : ST S () := λ s, match m s with (Panic, s1) => (Panic, s1) | (_, s1) => (Ok tt, s1) end.
Definition rebase (recv : nat → ST S (option error)) (dgst imageDigest mountpoint : string) : ST S () := λ s,
  match on_jobs (Claim imageDigest dgst) s with
  | (Err e, s1) => (Err (Wrap "error attempting to claim job to rebase" e), (on_jobs (RemoveImageWithError imageDigest e) s1).2)
  | (Panic, s1) => (Panic, s1)
  | (Ok l, s1) =>
      (r <~ rebase_claimed recv l mountpoint;;
       s <~ st_get;;
       job <~ st_lift (must (layer_jobs (pf_jobs s) !! l));;
       match r.2 with
       | Some e => on_jobs (cancel_job l e);;; ignore (on_jobs (RemoveImageWithError (lj_imageDigest job) e))
       | None => ignore (on_jobs (UnpackJobs.Remove l context_Canceled))
       end;;;
       match r.1 with Some e => st_err e | None => st_ret tt end) s1
  end.

Definition MountParallel (namespace : bool) (ctx : nat) (recv : nat → ST S (option error)) (mountpoint : string) (ls : labels) : ST S () :=
  s <~ st_get;;
  if negb (Enable (config s)) && negb (ExperimentalParallelPullAsFallback (config s)) then st_err ErrParallelPullIsDisabled
  else
    imageRef <~ st_lift (match ls !! TargetRefLabel with Some r => Ok r | None => Err (ErrorString "unable to get image ref from labels") end);;
    s0 <~ on_E (first_source ls);;
    refspec <~ st_lift (map_err (Wrap "cannot parse image ref") (reference_Parse imageRef));;
    imageDigest <~ st_lift (match ls !! TargetManifestDigestLabel with Some d => Ok d | None => Err (ErrorString "layer has no image manifest attached") end);;
    known <~ on_jobs (ImageExists imageDigest);;
    (if known : bool then st_ret tt
     else st_map_err (Wrap "failed to preload layers for image manifest digest") (preloadAllLayers namespace ctx (Target s0) imageDigest refspec));;;
    st_map_err (Wrap "failed to rebase layer") (rebase recv (d_Digest (Target s0)) imageDigest mountpoint).

Definition CleanImage (imgDigest : string) : ST S () := λ s,
  if negb (Enable (config s)) && negb (ExperimentalParallelPullAsFallback (config s)) then (Ok tt, s)
  else match on_jobs (RemoveImageWithError imgDigest context_Canceled) s with
  | (Err e, s1) => if errors_Is e ErrImageUnpackJobNotFound then (Ok tt, s1) else (Err (Wrap "error removing image" e), s1)
  | r => r
  end.
End parallel.

(** ** Theorems *)
Lemma diff_id_lookup ls ids d : length ls = length ids → (∃ l, l ∈ ls ∧ d_Digest l = d) →
  ∃ i l u, ls !! i = Some l ∧ d_Digest l = d ∧ ids !! i = Some u ∧ diff_id_map ls ids !! d = Some u.
Proof.
  unfold diff_id_map. generalize (∅ : gmap string string). revert ids.
  induction ls as [|l ls IH] using rev_ind; intros ids m Hlen (x & Hx & Hd); [by apply not_elem_of_nil in Hx|].
  destruct ids as [|u ids _] using rev_ind; [rewrite length_app in Hlen; cbn in Hlen; lia|]. rewrite !length_app in Hlen. cbn in Hlen.
  rewrite zip_with_app by lia. rewrite foldl_app. cbn [zip_with foldl fst snd].
  destruct (decide (d_Digest l = d)) as [Heq|Hne].
  - exists (length ls), l, u. rewrite Heq, lookup_insert_eq. split_and!; [|done| |done].
    + by rewrite list_lookup_middle.
    + rewrite list_lookup_middle; [done|lia].
  - apply elem_of_app in Hx as [Hx|Hx]; [|apply list_elem_of_singleton in Hx as ->; done].
    destruct (IH ids m ltac:(lia) (ex_intro _ x (conj Hx Hd))) as (i & l' & u' & H1 & H2 & H3 & H4). exists i, l', u'.
    rewrite lookup_insert_ne by done. split_and!; [by apply lookup_app_l_Some|done|by apply lookup_app_l_Some|done].
Qed.

Section theorems.
Context {E Host : Type} `{HR : RegistryEnv E} `{HS : Store E} `{HFE : FileEnv E} `{HA : ArchiveEnv E} `{HI : ImageEnv E} `{HJ : DocJSON}.
Context `{HN : References} `{HD : Digester} `{HT : MediaTypes}.
Context (chunk_order : list Z → list Z).
Abbreviation S := (pfs E).
Implicit Types (s : S).

(** Dropping an image does nothing outside. *)
Lemma on_jobs_env {A} (m : ST unpackJobs A) s : pf_env (on_jobs m s).2 = pf_env s.
Proof. unfold on_jobs. by destruct (m (pf_jobs s)). Qed.
Lemma send_result_spec l err s s' j : send_result l err s = (Ok tt, s') → layer_jobs (pf_jobs s') !! l = Some j →
  lj_errCh j = Some err ∧ pf_env s' = pf_env s.
Proof.
  intros Hp Hj. split; [|pose proof (on_jobs_env _ _ : pf_env (send_result l err s).2 = pf_env s) as He; by rewrite Hp in He].
  unfold send_result, on_jobs in Hp. destruct (layer_jobs (pf_jobs s) !! l) as [j4|]; [|done]. injection Hp as <-.
  cbn [pf_jobs] in Hj. unfold UnpackJobs.set_layers in Hj. cbn [layer_jobs] in Hj. rewrite lookup_insert_eq in Hj. by injection Hj as <-.
Qed.
Lemma unpack_layer_verified `{!ApplyLog E} ctx_done a u s s' : unpack_layer chunk_order ctx_done a u s = (Ok tt, s') →
  ∃ job b, layer_jobs (pf_jobs s) !! pm_job a = Some job ∧
    applied (pf_env s') = (JobDir (GetUnpackUpperPath job), b) :: applied (pf_env s) ∧ Verifier_Verified u b = true.
Proof.
  unfold unpack_layer. destruct (layer_jobs (pf_jobs s) !! pm_job a) as [job|]; [|done]. set (la := NewLayerArchive _ _ _).
  destruct (parallel_Unpack _ la _ _ _ _ _ _ _) as [r p] eqn:Ep. intros [= -> <-].
  apply (parallel_unpack_verified _ _ _ _ la (newAsyncVerifier u)) in Ep as (b & Hb & Hv); [|done]. by exists job, b.
Qed.

(** C23: a layer that is handed over unpacked is the one its image names: when [premount] sends no
    error for a layer of the manifest, it has applied one archive, to the directory of its job,
    and the bytes of that archive are ones that the digest at the position of that layer in the
    image's configuration verifies. *)
Theorem premounted_layers_verified `{!ApplyLog E} ctx_done a layers diffIDs s s' j :
  pm_diffIDs a = diff_id_map layers diffIDs → length layers = length diffIDs → pm_desc a ∈ layers →
  premount chunk_order ctx_done a s = (Ok tt, s') → layer_jobs (pf_jobs s') !! pm_job a = Some j → lj_errCh j = Some None →
  ∃ i l u job b, layers !! i = Some l ∧ d_Digest l = d_Digest (pm_desc a) ∧ diffIDs !! i = Some u ∧
    layer_jobs (pf_jobs s) !! pm_job a = Some job ∧
    applied (pf_env s') = (JobDir (GetUnpackUpperPath job), b) :: applied (pf_env s) ∧ Verifier_Verified u b = true.
Proof.
  intros Hm Hlen Hin Hp Hj He. destruct (diff_id_lookup layers diffIDs (d_Digest (pm_desc a)) Hlen) as (i & l & u & Hl & Hd & Hu & Hmap); [by exists (pm_desc a)|].
  exists i, l, u. unfold premount in Hp. rewrite Hm, Hmap in Hp. apply st_bind_ok in Hp as (err & s1 & Hun & Hp).
  apply st_bind_ok in Hp as (s2 & s2' & Hg & Hp). unfold st_get in Hg. injection Hg as <- <-. apply st_bind_ok in Hp as (job & s3 & Hjob & Hp).
  unfold st_lift in Hjob. injection Hjob as Hjob <-. apply st_bind_ok in Hp as ([] & s4 & Hdrop & Hp). set (err' := match cancelled _ !! _ with Some _ => _ | None => _ end) in *.
  destruct (send_result_spec _ _ _ _ _ Hp Hj) as [Hch Henv]. rewrite He in Hch. injection Hch as Herr. rewrite <-Herr in Hdrop. injection Hdrop as <-.
  assert (err = None) as -> by (unfold err' in Herr; by destruct (cancelled _ !! _)).
  destruct (unpack_layer chunk_order ctx_done a u s) as [[[]|e|] s5] eqn:Eu; [|done..]. injection Hun as <-.
  apply unpack_layer_verified in Eu as (job' & b & Hjob' & Hb & Hv). exists job', b. rewrite Henv. by split_and!.
Qed.

(** What moving the directory that succeeded went through. *)
Lemma rebase_onto_ok mountpoint tempDir e o e' : rebase_onto mountpoint tempDir e = (Ok (None, o), e') →
  o = None ∧ ∃ e1, os_RenameTo tempDir mountpoint e1 = (Ok tt, e').
Proof.
  unfold rebase_onto.
  assert (∀ e0, rebase_move mountpoint tempDir e0 = (Ok (None, o), e') → o = None ∧ ∃ e1, os_RenameTo tempDir mountpoint e1 = (Ok tt, e')) as Hmove.
  { intros e0. unfold rebase_move. destruct (os_MkdirAllTo _ e0) as [[[]|x|] e1]; [|done..]. destruct (os_RenameTo tempDir mountpoint e1) as [[[]|x|] e2] eqn:Er; [|done..].
    intros [= <- <-]. split; [done|]. by exists e1. }
  destruct (os_StatUnpack tempDir e) as [[[]|x|] e1]; [|done..]. destruct (os_StatIsDir mountpoint e1) as [[[]|x|] e2]; [| | |done].
  - destruct (os_OpenDir mountpoint e2) as [[[]|x|] e3]; [|done..]. destruct (dir_Readdirnames1 mountpoint e3) as [[[]|x|] e4]; [done| |done].
    destruct (errors_Is x io_EOF); [apply Hmove|done].
  - apply Hmove.
  - destruct (errors_Is x os_ErrNotExist); [apply Hmove|done].
Qed.

Lemma claim_first_claimed js jobs l jobs' : claim_first js jobs = (Ok l, jobs') →
  ∃ j, layer_jobs jobs !! l = Some j ∧ lj_status j = LayerUnpackJobInProgress ∧ l ∈ js ∧
    layer_jobs jobs' !! l = Some (set_status LayerUnpackJobClaimed j).
Proof.
  revert jobs. induction js as [|x js IH]; intros jobs; cbn [claim_first]; [done|]. unfold claim_job, st_bind at 1.
  destruct (layer_jobs jobs !! x) as [j|] eqn:Ex; [|done]. case_bool_decide as Hs.
  - intros [= <- <-]. exists j. split_and!; [done..|left|]. cbn. apply lookup_insert_eq.
  - intros Hc. apply IH in Hc as (j' & ? & ? & ? & ?). exists j'. split_and!; try done. by right.
Qed.

(** C24: a layer is mounted from an unpacked directory only when its unpacking succeeded.  When
    [rebase] returns no error, it has claimed a job of that layer of that image that nobody had
    claimed, what it received while it waited, whatever other goroutines did to the jobs in the
    meantime, was nil, the job was not cancelled by then, and the last thing it did outside was to
    rename the directory of that job to the mountpoint. *)
Theorem rebase_moves_claimed recv dgst imageDigest mountpoint s s' :
  rebase recv dgst imageDigest mountpoint s = (Ok tt, s') →
  ∃ p js l j jobs s1 j1 e1, checkLayerExists imageDigest dgst (pf_jobs s) = Ok (p, js) ∧ l ∈ js ∧
    layer_jobs (pf_jobs s) !! l = Some j ∧ lj_status j = LayerUnpackJobInProgress ∧
    layer_jobs jobs !! l = Some (set_status LayerUnpackJobClaimed j) ∧
    recv l (mkPFS (pf_env s) jobs (pf_started s)) = (Ok None, s1) ∧
    layer_jobs (pf_jobs s1) !! l = Some j1 ∧ lj_status j1 ≠ LayerUnpackJobCancelled ∧
    os_RenameTo (GetUnpackUpperPath j1) mountpoint e1 = (Ok tt, pf_env s').
Proof.
  unfold rebase, on_jobs at 1. destruct (Claim imageDigest dgst (pf_jobs s)) as [[l|e|] jobs] eqn:Ec; [|done..]. intros Hr.
  unfold Claim in Ec. apply st_bind_ok in Ec as (x & x' & Hx & Ec). unfold st_get in Hx. injection Hx as <- <-. apply st_bind_ok in Ec as ([p js] & j1 & Hck & Ec).
  unfold st_lift in Hck. injection Hck as Hck <-. apply claim_first_claimed in Ec as (j & Hj & Hst & Hin & Hj').
  apply st_bind_ok in Hr as ([res seen] & s2 & Hres & Hr). cbn [fst snd] in *.
  apply st_bind_ok in Hr as (? & s3 & Hg & Hr). unfold st_get in Hg. injection Hg as <- <-.
  apply st_bind_ok in Hr as (job & s4 & Hjob & Hr). unfold st_lift in Hjob. injection Hjob as Hjob <-.
  apply st_bind_ok in Hr as ([] & s5 & Hdone & Hr).
  assert (res = None ∧ s' = s5) as [-> ->] by (destruct res; [done|]; by injection Hr as <-). clear Hr.
  unfold rebase_claimed in Hres. apply st_bind_ok in Hres as (err & s1 & Hrecv & Hres). destruct err as [e|]; [done|].
  apply st_bind_ok in Hres as (x & x' & Hx & Hres). unfold st_get in Hx. injection Hx as <- <-.
  apply st_bind_ok in Hres as (job1 & s6 & Hj1 & Hres). unfold st_lift in Hj1. injection Hj1 as Hj1 <-.
  case_bool_decide as Hc; [done|]. unfold on_E in Hres. destruct (rebase_onto _ _ _) as [r e2] eqn:Eo. injection Hres as -> <-.
  apply rebase_onto_ok in Eo as [-> [e1 He]]. exists p, js, l, j, jobs, s1, job1, e1.
  assert (pf_env s5 = e2) as ->.
  { unfold ignore in Hdone. pose proof (on_jobs_env (UnpackJobs.Remove l context_Canceled) (mkPFS e2 (pf_jobs s1) (pf_started s1))) as Hk.
    destruct (on_jobs (UnpackJobs.Remove l context_Canceled) _) as [[[]|?|] s7]; [|by injection Hdone as <-|done]. by injection Hdone as <-. }
  destruct (layer_jobs (pf_jobs s1) !! l) as [j2|] eqn:Ej2; [|done]. cbn in Hj1. injection Hj1 as ->.
  split_and!; try done. by destruct (checkLayerExists imageDigest dgst (pf_jobs s)) as [[]|?|]; simplify_eq/=.
Qed.

(** A layer that cannot be moved because its mountpoint has content ends like one that was
    moved: [rebase] returns the error, but its job is removed as if it were done and the rest of
    the image goes on. *)
Theorem rebase_error_unseen recv dgst imageDigest mountpoint s l jobs j s1 e1 e2 e3 e4 :
  Claim imageDigest dgst (pf_jobs s) = (Ok l, jobs) → recv l (mkPFS (pf_env s) jobs (pf_started s)) = (Ok None, s1) →
  layer_jobs (pf_jobs s1) !! l = Some j → lj_status j ≠ LayerUnpackJobCancelled →
  os_StatUnpack (GetUnpackUpperPath j) (pf_env s1) = (Ok tt, e1) → os_StatIsDir mountpoint e1 = (Ok true, e2) →
  os_OpenDir mountpoint e2 = (Ok tt, e3) → dir_Readdirnames1 mountpoint e3 = (Ok tt, e4) →
  (UnpackJobs.Remove l context_Canceled (pf_jobs s1)).1 ≠ Panic →
  rebase recv dgst imageDigest mountpoint s = (Err gofs_ErrExist, mkPFS e4 (UnpackJobs.Remove l context_Canceled (pf_jobs s1)).2 (pf_started s1)).
Proof.
  intros Hc Hrecv Hj Hst H1 H2 H3 H4 Hp. unfold rebase, on_jobs at 1. rewrite Hc. unfold rebase_claimed, st_bind at 1 2. rewrite Hrecv.
  unfold st_bind, st_get, st_lift. rewrite Hj. cbn [must].
  rewrite bool_decide_eq_false_2 by done. unfold on_E, rebase_onto. rewrite H1, H2, H3, H4. cbn [pf_jobs fst snd]. rewrite Hj. cbn [must].
  unfold ignore, on_jobs. cbn [pf_jobs pf_env pf_started].
  destruct (UnpackJobs.Remove l context_Canceled (pf_jobs s1)) as [[[]|e|] jobs']; done.
Qed.
End theorems.
