(* ===== verification/HttpUtil.v ===== *)
(** * Queries of URLs and their redaction

    Models [internal/http/util.go]: the query values of a URL are replaced before the URL is
    logged or put in an error.  The escaping and parsing of queries of [net/url] is written
    out; parsing and printing of whole URLs is a parameter. *)
From Stdlib Require Import ZArith Lia Ascii.
From stdpp Require Import base list gmap strings.
From S2P Require Import Prelude GoLib.

(** ** [net/url] *)
Record URL := mkURL {
  Scheme : string;
  User : option (string * option string);   (* user name and password *)
  Host : string;
  Path : string;
  RawQuery : string
}.

Class NetURL := {
  url_Parse : string → option URL;
  url_String : URL → string
}.

(** [u.Redacted()]: [u.String()] with the password replaced. *)
Definition url_Redacted `{NetURL} (u : URL) : string :=
  match User u with
  | Some (name, Some _) => url_String (mkURL (Scheme u) (Some (name, Some "xxxxx")) (Host u) (Path u) (RawQuery u))
  | _ => url_String u
  end.

(** ** Escaping *)
Definition in_range (lo hi c : ascii) : bool :=
  (nat_of_ascii lo <=? nat_of_ascii c)%nat && (nat_of_ascii c <=? nat_of_ascii hi)%nat.
Definition shouldEscape (c : ascii) : bool :=
  negb (in_range "a" "z" c || in_range "A" "Z" c || in_range "0" "9" c ||
        (c =? "-")%char || (c =? "_")%char || (c =? ".")%char || (c =? "~")%char).
Definition upperhex (n : nat) : ascii :=
  ascii_of_nat (if (n <? 10)%nat then 48 + n else 55 + n).
Definition unhex (c : ascii) : option nat :=
  let n := nat_of_ascii c in
  if in_range "0" "9" c then Some (n - 48)
  else if in_range "a" "f" c then Some (n - 87)
  else if in_range "A" "F" c then Some (n - 55)
  else None.

Definition escape_char (c : ascii) (rest : string) : string :=
  if (c =? " ")%char then String "+" rest
  else if shouldEscape c then
    String "%" (String (upperhex (nat_of_ascii c / 16)) (String (upperhex (nat_of_ascii c `mod` 16)) rest))
  else String c rest.
Fixpoint QueryEscape (s : string) : string :=
  match s with
  | EmptyString => EmptyString
  | String c s => escape_char c (QueryEscape s)
  end.

Fixpoint QueryUnescape (s : string) : option string :=
  match s with
  | EmptyString => Some EmptyString
  | String "%" (String a (String b s)) =>
      match unhex a, unhex b with
      | Some x, Some y => String (ascii_of_nat (16 * x + y)) <$> QueryUnescape s
      | _, _ => None
      end
  | String "%" _ => None
  | String "+" s => String " " <$> QueryUnescape s
  | String c s => String c <$> QueryUnescape s
  end.

(** ** [strings.Cut], [strings.Split] and [strings.Contains] for one character *)
Fixpoint contains (c : ascii) (s : string) : bool :=
  match s with EmptyString => false | String d s => (d =? c)%char || contains c s end.
Fixpoint cut (c : ascii) (s : string) : string * string :=
  match s with
  | EmptyString => (EmptyString, EmptyString)
  | String d s => if (d =? c)%char then (EmptyString, s) else let '(x, y) := cut c s in (String d x, y)
  end.
Fixpoint split (c : ascii) (s : string) : list string :=
  match s with
  | EmptyString => [EmptyString]
  | String d s =>
      if (d =? c)%char then EmptyString :: split c s
      else match split c s with x :: xs => String d x :: xs | [] => [String d EmptyString] end
  end.
Fixpoint join (c : ascii) (l : list string) : string :=
  match l with
  | [] => EmptyString
  | [x] => x
  | x :: l => x +:+ String c (join c l)
  end.

(** ** [url.Values] *)
Definition add_pair (m : gmap string (list string)) (piece : string) : gmap string (list string) :=
  if contains ";" piece then m
  else if (piece =? "")%string then m
  else
    let '(k, v) := cut "=" piece in
    match QueryUnescape k, QueryUnescape v with
    | Some k, Some v => <[k := default [] (m !! k) ++ [v]]> m
    | _, _ => m
    end.
(** [u.Query()]: malformed pairs are left out. *)
Definition ParseQuery (query : string) : gmap string (list string) := foldl add_pair ∅ (split "&" query).
Definition Query (u : URL) : gmap string (list string) := ParseQuery (RawQuery u).

Section encode.
Context `{GoSort}.

Definition pieces (m : gmap string (list string)) : list string :=
  k ← sort_Strings (map_to_list m).*1;
  v ← default [] (m !! k);
  [QueryEscape k +:+ String "=" (QueryEscape v)].
Definition Encode (m : gmap string (list string)) : string := join "&" (pieces m).
End encode.

(** ** Redaction *)
Section redact.
Context `{GoSort, NetURL}.

Definition redact_URL (u : URL) : URL :=
  let query := Query u in
  if decide (query = ∅) then u
  else mkURL (Scheme u) (User u) (Host u) (Path u) (Encode ((λ _, ["redacted"]) <$> query)).
(** A nil URL is left alone. *)
Definition RedactHTTPQueryValuesFromURL (url : option URL) : option URL := redact_URL <$> url.

Definition RedactHTTPQueryValuesFromString (surl : string) : string :=
  match url_Parse surl with
  | Some u => url_String (redact_URL u)
  | None => surl
  end.

(** [errors.As(err, &urlErr)]: the [*url.Error] of a chain, and the error it is with another URL. *)
Class UrlErrors := {
  as_urlError : error → option string;
  with_URL : error → string → error
}.
Context `{UrlErrors}.

Definition RedactHTTPQueryValuesFromError (err : option error) : option error :=
  match err with
  | Some e =>
      match as_urlError e with
      | Some s =>
          match url_Parse s with
          | Some u => Some (with_URL e (url_Redacted (redact_URL u)))
          | None => err
          end
      | None => err
      end
  | None => err
  end.
End redact.

(** ** Escaping is undone by unescaping *)
Lemma forall_ascii (P : ascii → bool) :
  forallb (λ n, P (ascii_of_nat n)) (seq 0 256) = true → ∀ c, P c = true.
Proof.
  intros Hf c. rewrite forallb_forall in Hf. rewrite <-(ascii_nat_embedding c).
  apply Hf, in_seq. pose proof (nat_ascii_bounded c). lia.
Qed.

Lemma escape_char_plain c rest : shouldEscape c = false → escape_char c rest = String c rest.
Proof.
  intros Hc. unfold escape_char. rewrite Hc. destruct (Ascii.eqb_spec c " ") as [->|]; [|done]. discriminate Hc.
Qed.

Lemma unescape_hex c s :
  QueryUnescape (String "%" (String (upperhex (nat_of_ascii c / 16)) (String (upperhex (nat_of_ascii c `mod` 16)) s))) =
  String c <$> QueryUnescape s.
Proof.
  cbn [QueryUnescape].
  assert (unhex (upperhex (nat_of_ascii c / 16)) = Some (nat_of_ascii c / 16)%nat ∧
          unhex (upperhex (nat_of_ascii c `mod` 16)) = Some (nat_of_ascii c `mod` 16)%nat ∧
          ascii_of_nat (16 * (nat_of_ascii c / 16) + nat_of_ascii c `mod` 16) = c) as (-> & -> & ->); [|done].
  pose proof (forall_ascii (λ c, bool_decide
    (unhex (upperhex (nat_of_ascii c / 16)) = Some (nat_of_ascii c / 16)%nat ∧
     unhex (upperhex (nat_of_ascii c `mod` 16)) = Some (nat_of_ascii c `mod` 16)%nat ∧
     ascii_of_nat (16 * (nat_of_ascii c / 16) + nat_of_ascii c `mod` 16) = c)) eq_refl c) as Hc.
  by apply bool_decide_eq_true in Hc.
Qed.

Lemma unescape_plain c s : shouldEscape c = false → QueryUnescape (String c s) = String c <$> QueryUnescape s.
Proof. destruct c as [[] [] [] [] [] [] [] []]; intros Hc; try discriminate Hc; reflexivity. Qed.

Lemma QueryUnescape_Escape s : QueryUnescape (QueryEscape s) = Some s.
Proof.
  induction s as [|c s IH]; [done|]. cbn [QueryEscape].
  destruct (shouldEscape c) eqn:E.
  - unfold escape_char. destruct (Ascii.eqb_spec c " ") as [->|]; [cbn; by rewrite IH|].
    by rewrite E, unescape_hex, IH.
  - by rewrite escape_char_plain, unescape_plain, IH by done.
Qed.

(** What separates pairs is escaped. *)
Definition separator (c : ascii) : bool := (c =? "&")%char || (c =? ";")%char || (c =? "=")%char.
Lemma escape_char_separator sep c rest : separator sep = true →
  contains sep (escape_char c rest) = contains sep rest.
Proof.
  intros Hs.
  assert (∀ sep c, negb (separator sep) || bool_decide (contains sep (escape_char c "") = false) = true) as Hall.
  { intros sep' c'. destruct (separator sep') eqn:Es; [|done]. cbn [negb orb].
    assert (sep' = "&"%char ∨ sep' = ";"%char ∨ sep' = "="%char) as [-> | [-> | ->]].
    { unfold separator in Es. rewrite !orb_true_iff, !Ascii.eqb_eq in Es. naive_solver. }
    all: revert c'; refine (forall_ascii _ _); vm_compute; reflexivity. }
  specialize (Hall sep c). rewrite Hs in Hall. cbn [negb orb] in Hall. apply bool_decide_eq_true in Hall.
  revert Hall. unfold escape_char. destruct (c =? " ")%char; [|destruct (shouldEscape c)]; cbn [contains];
    rewrite !orb_false_iff; intros Hc; destruct_and?; by repeat match goal with H : (_ =? sep)%char = false |- _ => rewrite H; clear H end.
Qed.
Lemma QueryEscape_separator sep s : separator sep = true → contains sep (QueryEscape s) = false.
Proof. intros Hs. induction s as [|c s IH]; [done|]. cbn [QueryEscape]. by rewrite escape_char_separator. Qed.

(** ** A query of escaped pairs is parsed back *)
Lemma contains_app c s t : contains c (s +:+ t) = contains c s || contains c t.
Proof. induction s as [|d s IH]; [done|]. change (String d s +:+ t) with (String d (s +:+ t)). cbn [contains]. by rewrite IH, orb_assoc. Qed.
Lemma cut_app c s t : contains c s = false → cut c (s +:+ String c t) = (s, t).
Proof.
  induction s as [|d s IH]; cbn [contains]; [intros _; change (cut c (String c t) = ("", t)); cbn [cut]; by rewrite Ascii.eqb_refl|].
  intros [Hd Hs]%orb_false_iff. change (String d s +:+ String c t) with (String d (s +:+ String c t)).
  cbn [cut]. by rewrite Hd, IH.
Qed.
Lemma split_plain c s : contains c s = false → split c s = [s].
Proof. induction s as [|d s IH]; cbn [contains split]; [done|]. intros [-> Hs]%orb_false_iff. by rewrite IH. Qed.
Lemma split_app c s t : contains c s = false → split c (s +:+ String c t) = s :: split c t.
Proof.
  induction s as [|d s IH]; cbn [contains]; [intros _; change (split c (String c t) = "" :: split c t); cbn [split]; by rewrite Ascii.eqb_refl|].
  intros [Hd Hs]%orb_false_iff. change (String d s +:+ String c t) with (String d (s +:+ String c t)).
  cbn [split]. by rewrite Hd, IH.
Qed.
Lemma split_join_pieces c l : l ≠ [] → Forall (λ s, contains c s = false) l → split c (join c l) = l.
Proof.
  intros Hne Hl. induction Hl as [|x l Hx Hl IH]; [done|]. destruct l as [|y l]; [by apply split_plain|].
  change (join c (x :: y :: l)) with (x +:+ String c (join c (y :: l))). by rewrite split_app, IH.
Qed.

Definition pair_piece (kv : string * string) : string := QueryEscape kv.1 +:+ String "=" (QueryEscape kv.2).
Definition add_kv (m : gmap string (list string)) (kv : string * string) : gmap string (list string) := <[kv.1 := default [] (m !! kv.1) ++ [kv.2]]> m.

Lemma pair_piece_amp kv : contains "&" (pair_piece kv) = false.
Proof. unfold pair_piece. rewrite contains_app. cbn [contains]. by rewrite !QueryEscape_separator. Qed.
Lemma add_pair_piece m kv : add_pair m (pair_piece kv) = add_kv m kv.
Proof.
  unfold add_pair. replace (contains ";" (pair_piece kv)) with false
    by (unfold pair_piece; rewrite contains_app; cbn [contains]; by rewrite !QueryEscape_separator).
  destruct (String.eqb_spec (pair_piece kv) "") as [E|_].
  { unfold pair_piece in E. apply (f_equal String.length) in E. rewrite string_length_app in E. cbn in E. lia. }
  unfold pair_piece. rewrite cut_app by by apply QueryEscape_separator. by rewrite !QueryUnescape_Escape.
Qed.
Lemma ParseQuery_pairs l : l ≠ [] → ParseQuery (join "&" (pair_piece <$> l)) = foldl add_kv ∅ l.
Proof.
  intros Hl. unfold ParseQuery. rewrite split_join_pieces.
  - generalize (∅ : gmap string (list string)). clear Hl. induction l as [|kv l IH]; intros m; [done|]. cbn [fmap list_fmap foldl]. by rewrite add_pair_piece, IH.
  - by destruct l.
  - apply list.Forall_forall. intros s (kv & -> & _)%list_elem_of_fmap. apply pair_piece_amp.
Qed.

Section redact_facts.
Context `{GoSortLaws}.

(** The pairs of a query whose every key has one value. *)
Lemma foldl_add_kv (v : string) (ks : list string) (m : gmap string (list string)) : NoDup ks → (∀ k, k ∈ ks → m !! k = None) →
  foldl add_kv m ((λ k, (k, v)) <$> ks) = list_to_map ((λ k, (k, [v])) <$> ks) ∪ m.
Proof.
  revert m. induction ks as [|k ks IH]; intros m Hnd Hm; [cbn; by rewrite (left_id_L ∅ _)|].
  apply list.NoDup_cons in Hnd as [Hk Hnd]. cbn.
  rewrite (Hm k) by left. cbn [default app]. rewrite IH; [|done|].
  - rewrite <-insert_union_r; [by rewrite insert_union_l|].
    apply not_elem_of_list_to_map_1. rewrite <-list_fmap_compose. by rewrite list_fmap_id.
  - intros k' Hk'. rewrite lookup_insert_ne by (intros ->; done). apply Hm. by right.
Qed.

Lemma ParseQuery_Encode_const (m : gmap string (list string)) v : m ≠ ∅ →
  ParseQuery (Encode ((λ _, [v]) <$> m)) = (λ _, [v]) <$> m.
Proof.
  intros Hne. set (m' := (λ _, [v]) <$> m : gmap string (list string)). unfold Encode.
  set (ks := sort_Strings (map_to_list m').*1).
  assert (∀ k, k ∈ ks → m' !! k = Some [v]) as Hks.
  { intros k Hk. unfold ks in Hk. rewrite sort_Strings_perm in Hk. apply list_elem_of_fmap in Hk as ([k' x] & -> & Hk).
    apply elem_of_map_to_list in Hk. cbn. unfold m' in *. rewrite lookup_fmap in *. by destruct (m !! k'). }
  assert (pieces m' = pair_piece <$> ((λ k, (k, v)) <$> ks)) as ->.
  { unfold pieces. fold ks. clearbody ks. induction ks as [|k ks IH]; [done|]. cbn.
    rewrite (Hks k) by left. cbn. f_equal. apply IH. intros k' Hk'. apply Hks. by right. }
  assert (NoDup ks) as Hnd by (unfold ks; rewrite sort_Strings_perm; apply NoDup_fst_map_to_list).
  rewrite ParseQuery_pairs, foldl_add_kv, (right_id_L ∅ _); [|done| |].
  - apply map_eq. intros k. destruct (m' !! k) as [x|] eqn:E.
    + assert (k ∈ ks) as Hk.
      { unfold ks. rewrite sort_Strings_perm. apply list_elem_of_fmap. exists (k, x). split; [done|]. by apply elem_of_map_to_list. }
      rewrite (Hks k Hk) in E. simplify_eq. apply elem_of_list_to_map_1.
      { by rewrite <-list_fmap_compose, list_fmap_id. } apply list_elem_of_fmap. by exists k.
    + apply not_elem_of_list_to_map_1. rewrite <-list_fmap_compose, list_fmap_id. intros Hk. by rewrite (Hks k Hk) in E.
  - intros k _. apply lookup_empty.
  - intros Hn%fmap_nil_inv. apply Hne. apply map_eq. intros k. rewrite lookup_empty. destruct (m !! k) as [x|] eqn:E; [|done].
    exfalso. assert (k ∈ ks) as Hk; [|by rewrite Hn in Hk; apply not_elem_of_nil in Hk].
    unfold ks. rewrite sort_Strings_perm. apply list_elem_of_fmap. exists (k, [v]). split; [done|].
    apply elem_of_map_to_list. unfold m'. by rewrite lookup_fmap, E.
Qed.

(** A URL whose query parses to at least one parameter: the redacted URL has the parameters of
    the URL, each with the one value "redacted", and the same scheme, user, host and path; its
    query depends on the names of the parameters only, so no value can be read off it. *)
Theorem redaction_hides_values u u2 : Query u ≠ ∅ → dom (Query u2) = dom (Query u) →
  Query (redact_URL u) = (λ _, ["redacted"]) <$> Query u ∧
  RawQuery (redact_URL u2) = RawQuery (redact_URL u) ∧
  Scheme (redact_URL u) = Scheme u ∧ User (redact_URL u) = User u ∧
  Host (redact_URL u) = Host u ∧ Path (redact_URL u) = Path u.
Proof.
  intros Hu Hd. assert (Query u2 ≠ ∅) as Hu2.
  { intros E. rewrite E, dom_empty_L in Hd. symmetry in Hd. by apply dom_empty_inv_L in Hd. }
  unfold redact_URL. rewrite !decide_False by done. cbn. split_and!; try done.
  - by apply ParseQuery_Encode_const.
  - f_equal. apply map_eq. intros k. rewrite !lookup_fmap.
    assert (is_Some (Query u2 !! k) ↔ is_Some (Query u !! k)) as Hk by (by rewrite <-!elem_of_dom, Hd).
    destruct (Query u2 !! k), (Query u !! k); cbn; try done; destruct Hk as [H1 H2];
      [destruct H1 as [? [=]]|destruct H2 as [? [=]]]; by eexists.
Qed.
End redact_facts.

(** A query of one pair with a semicolon has no parameters for [net/url], and is left as it is. *)
Lemma semicolon_query_kept `{GoSort} sc us h p q : contains "&" q = false → contains ";" q = true →
  redact_URL (mkURL sc us h p q) = mkURL sc us h p q.
Proof.
  intros Ha Hs. unfold redact_URL, Query, ParseQuery. cbn [RawQuery]. rewrite split_plain by done.
  cbn [foldl]. unfold add_pair. by rewrite Hs, decide_True.
Qed.
