(* ===== verification/HttpAuth.v ===== *)
(** * The authenticating HTTP client

    Models [internal/http/auth.go]: a client that attaches headers, authorizes every request
    through a handler, answers one challenge per request and, when told to, remembers where
    requests were redirected to.  The retrying client of [go-retryablehttp], the handler and the
    outside world are parameters; a request is mutated in place by its authorization. *)
From Stdlib Require Import ZArith Lia.
From stdpp Require Import base list gmap strings.
From S2P Require Import Prelude GoLib HttpUtil.
#[local] Open Scope Z_scope.

Definition ErrMissingAuthHandler := Sentinel "missing auth handler".
Definition ErrFailedToAuthorizeRequest := Sentinel "failed to authorize request".
Definition ErrFailedToHandleChallenge := Sentinel "failed to handle challenge".

Definition StatusOK := 200.
Definition StatusPartialContent := 206.
Definition StatusBadRequest := 400.
Definition StatusUnauthorized := 401.
Definition StatusForbidden := 403.

(** ** [net/http] *)
Record Request (Ctx : Type) := mkReq {
  Method : string;
  reqURL : URL;
  reqHost : string;
  reqHeader : gmap string (list string);
  reqCtx : Ctx
}.
Arguments mkReq {Ctx}.
Arguments Method {Ctx}.
Arguments reqURL {Ctx}.
Arguments reqHost {Ctx}.
Arguments reqHeader {Ctx}.
Arguments reqCtx {Ctx}.

(** [io.ReadAll] of a body: what is read, and the error it stops at. *)
Record Body := mkBody { content : bytes; readErr : option error }.

Record Response := mkResp {
  StatusCode : Z;
  Status : string;
  respHeader : option (gmap string (list string));   (* a nil map or not *)
  respBody : Body;
  respRequest : option URL    (* the URL of the request the response is to, after redirects *)
}.

Definition Header_Set (k v : string) (h : gmap string (list string)) : gmap string (list string) := <[k := [v]]> h.
Definition Header_Get (k : string) (h : gmap string (list string)) : string := default "" (h !! k ≫= head).

Definition req_Clone {Ctx} (ctx : Ctx) (r : Request Ctx) : Request Ctx :=
  mkReq (Method r) (reqURL r) (reqHost r) (reqHeader r) ctx.

(** ** The client *)
Record AuthHandler (Ctx W : Type) := mkHandler {
  HandleChallenge : Ctx → Response → ST W ();
  (* on the request of the caller, which it may change *)
  AuthorizeRequest : Ctx → ST (Request Ctx * W) (Request Ctx)
}.
Arguments mkHandler {Ctx W}.
Arguments HandleChallenge {Ctx W}.
Arguments AuthorizeRequest {Ctx W}.

(** Decides whether to authenticate; may rewrite the response. *)
Definition AuthPolicy : Type := Response → bool * Response.
Definition DefaultAuthPolicy : AuthPolicy := λ resp, (StatusCode resp =? StatusUnauthorized, resp).

Record AuthClient (Ctx C W : Type) := mkAC {
  client : option C;
  handler : option (AuthHandler Ctx W);
  policy : option AuthPolicy;
  getAuthCtx : option (Ctx → Ctx);
  header : gmap string (list string);
  init : bool;                       (* [sync.Once] has run *)
  redirMap : gmap string string;
  cacheRedir : bool
}.
Arguments mkAC {Ctx C W}.
Arguments client {Ctx C W}.
Arguments handler {Ctx C W}.
Arguments policy {Ctx C W}.
Arguments getAuthCtx {Ctx C W}.
Arguments header {Ctx C W}.
Arguments init {Ctx C W}.
Arguments redirMap {Ctx C W}.
Arguments cacheRedir {Ctx C W}.

Section client.
Context {Ctx C W : Type} `{NetURL}.
Context (Background : Ctx) (rhttp_NewClient : C) (FromRequest : Request Ctx → outcome (Request Ctx))
  (client_Do : C → Request Ctx → ST W Response).
Implicit Types (ac : AuthClient Ctx C W) (req : Request Ctx).

Definition DefaultAuthReqContext : Ctx → Ctx := λ _, Background.

Definition initClient ac : AuthClient Ctx C W :=
  if init ac then ac
  else mkAC (Some (default rhttp_NewClient (client ac))) (handler ac) (Some (default DefaultAuthPolicy (policy ac)))
         (Some (default DefaultAuthReqContext (getAuthCtx ac))) (header ac) true ∅ (cacheRedir ac).

(** Options *)
Definition WithHeader h ac : AuthClient Ctx C W :=
  mkAC (client ac) (handler ac) (policy ac) (getAuthCtx ac) h (init ac) (redirMap ac) (cacheRedir ac).
Definition WithAuthPolicy p ac : AuthClient Ctx C W :=
  mkAC (client ac) (handler ac) (Some p) (getAuthCtx ac) (header ac) (init ac) (redirMap ac) (cacheRedir ac).
Definition WithRetryableClient c ac : AuthClient Ctx C W :=
  mkAC (Some c) (handler ac) (policy ac) (getAuthCtx ac) (header ac) (init ac) (redirMap ac) (cacheRedir ac).
Definition WithAuthRequestCtxFunc f ac : AuthClient Ctx C W :=
  mkAC (client ac) (handler ac) (policy ac) (Some f) (header ac) (init ac) (redirMap ac) (cacheRedir ac).

Definition NewAuthClient (h : option (AuthHandler Ctx W)) (opts : list (AuthClient Ctx C W → AuthClient Ctx C W)) :
    outcome (AuthClient Ctx C W) :=
  match h with
  | None => Err ErrMissingAuthHandler
  | Some _ => Ok (initClient (foldl (λ ac opt, opt ac) (mkAC None h None None ∅ false ∅ false) opts))
  end.

(** The clone has the headers, the handler and the policy of the client. *)
Definition CloneWithNewClient (c : C) ac : AuthClient Ctx C W :=
  initClient (mkAC (Some c) (handler ac) (policy ac) None (header ac) false ∅ false).
Definition CacheRedirects (b : bool) ac : AuthClient Ctx C W :=
  mkAC (client ac) (handler ac) (policy ac) (getAuthCtx ac) (header ac) (init ac) (redirMap ac) b.

Definition redirected ac req : outcome (option (Request Ctx)) :=
  if negb (Method req =? "GET")%string then Ok None
  else match redirMap ac !! url_String (reqURL req) with
  | None => Ok None
  | Some u =>
      match url_Parse u with
      | None => Ok None
      | Some newURL =>
          getCtx ← must (getAuthCtx ac);
          let r := req_Clone (getCtx (reqCtx req)) req in
          Ok (Some (mkReq (Method r) newURL (Host newURL)
                      (Header_Set "Referer" (url_String (reqURL req)) (reqHeader r)) (reqCtx r)))
      end
  end.

Definition shouldCache ac req (resp : Response) : outcome bool :=
  if negb (cacheRedir ac) then Ok false
  else if negb (Method req =? "GET")%string then Ok false
  else
    ru ← must (respRequest resp);
    if (url_String (reqURL req) =? url_String ru)%string then Ok false
    else Ok ((StatusCode resp =? StatusOK) || (StatusCode resp =? StatusPartialContent)).

(** [for k := range ac.header { req.Header.Set(k, ac.header.Get(k)) }] *)
Definition attach_headers (h : gmap string (list string)) req : Request Ctx :=
  mkReq (Method req) (reqURL req) (reqHost req) (((λ vs, [default "" (head vs)]) <$> h) ∪ reqHeader req) (reqCtx req).

Definition set_redir (k v : string) ac : AuthClient Ctx C W :=
  mkAC (client ac) (handler ac) (policy ac) (getAuthCtx ac) (header ac) (init ac) (<[k := v]> (redirMap ac)) (cacheRedir ac).

(** One round trip on a request that its authorization may change. *)
Definition roundTrip (h : AuthHandler Ctx W) (ctx : Ctx) : ST (Request Ctx * (AuthClient Ctx C W * W)) Response :=
  λ '(req, (ac, w)),
    match AuthorizeRequest h ctx (attach_headers (header ac) req, w) with
    | (Err e, (req, w)) => (Err (Join ErrFailedToAuthorizeRequest e), (req, (ac, w)))
    | (Panic, (req, w)) => (Panic, (req, (ac, w)))
    | (Ok authReq, (req, w)) =>
        match FromRequest authReq, client ac with
        | Err e, _ => (Err e, (req, (ac, w)))
        | Panic, _ | Ok _, None => (Panic, (req, (ac, w)))
        | Ok rAuthReq, Some c =>
            match client_Do c rAuthReq w with
            | (Ok resp, w) =>
                match shouldCache ac req resp, respRequest resp with
                | Ok true, Some ru => (Ok resp, (req, (set_redir (url_String (reqURL req)) (url_String ru) ac, w)))
                | Ok _, _ => (Ok resp, (req, (ac, w)))
                | _, _ => (Panic, (req, (ac, w)))
                end
            | (o, w) => (o, (req, (ac, w)))
            end
        end
    end.

Definition Do (req : Request Ctx) : ST (AuthClient Ctx C W * W) Response := λ '(ac0, w),
  let ac := initClient ac0 in
  match handler ac with
  | None => (Err ErrMissingAuthHandler, (ac, w))
  | Some h =>
      let ctx := reqCtx req in
      match redirected ac req, policy ac, getAuthCtx ac with
      | Ok rd, Some pol, Some getCtx =>
          match roundTrip h ctx (default req rd, (ac, w)) with
          | (Ok resp, (req, (ac, w))) =>
              match pol resp with
              | (false, resp) => (Ok resp, (ac, w))
              | (true, resp) =>
                  match HandleChallenge h ctx resp w with
                  | (Ok _, w) => let '(o, (_, s)) := roundTrip h ctx (req_Clone (getCtx ctx) req, (ac, w)) in (o, s)
                  | (Err e, w) => (Err (Join ErrFailedToHandleChallenge e), (ac, w))
                  | (Panic, w) => (Panic, (ac, w))
                  end
              end
          | (o, (_, s)) => (o, s)
          end
      | _, _, _ => (Panic, (ac, w))
      end
  end.

(** [http.RoundTripper]. *)
Definition RoundTrip (req : Request Ctx) : ST (AuthClient Ctx C W * W) Response := Do req.
End client.

(** ** What a request does to the outside

    The handler and the client log their calls in the world. *)
Inductive event (Ctx : Type) :=
| EAuthorize (r : Request Ctx) (o : outcome (Request Ctx))
| ESend (r : Request Ctx) (o : outcome Response)
| EChallenge (r : Response) (o : outcome ()).
Arguments EAuthorize {Ctx}.
Arguments ESend {Ctx}.
Arguments EChallenge {Ctx}.

Section trace.
Context {Ctx C W : Type} `{NetURL}.
Context (Background : Ctx) (rhttp_NewClient : C) (FromRequest : Request Ctx → outcome (Request Ctx))
  (client_Do : C → Request Ctx → ST W Response) (h : AuthHandler Ctx W).
Implicit Types (ac : AuthClient Ctx C (W * list (event Ctx))) (req : Request Ctx) (log : list (event Ctx)).

Definition logged_Do (c : C) req : ST (W * list (event Ctx)) Response :=
  λ '(w, log), let '(o, w) := client_Do c req w in (o, (w, log ++ [ESend req o])).
Definition logged_handler : AuthHandler Ctx (W * list (event Ctx)) := mkHandler
  (λ ctx resp '(w, log), let '(o, w) := HandleChallenge h ctx resp w in (o, (w, log ++ [EChallenge resp o])))
  (λ ctx '(req, (w, log)),
     let '(o, (req', w)) := AuthorizeRequest h ctx (req, w) in (o, (req', (w, log ++ [EAuthorize req o])))).

#[local] Abbreviation trip := (roundTrip FromRequest logged_Do logged_handler).
#[local] Abbreviation do_ := (Do Background rhttp_NewClient FromRequest logged_Do).

(** One round trip: the request is authorized, and what the authorization gave is sent. *)
Inductive one_trip : outcome Response → list (event Ctx) → Prop :=
| trip_unauthorized r o o' : is_ok o = false → is_ok o' = false → one_trip o' [EAuthorize r o]
| trip_unsendable r a o : is_ok o = false → one_trip o [EAuthorize r (Ok a)]
| trip_sent r a a' o : FromRequest a = Ok a' → one_trip o [EAuthorize r (Ok a); ESend a' o]
| trip_no_request r a a' resp : FromRequest a = Ok a' → respRequest resp = None →
    one_trip Panic [EAuthorize r (Ok a); ESend a' (Ok resp)].

Lemma roundTrip_trace ctx req ac w log : ∃ l, one_trip (trip ctx (req, (ac, (w, log)))).1 l ∧
  (trip ctx (req, (ac, (w, log)))).2.2.2.2 = log ++ l.
Proof.
  unfold roundTrip. cbn [logged_handler AuthorizeRequest].
  destruct (AuthorizeRequest h ctx (attach_headers (header ac) req, w)) as [[a|e|] [req1 w1]];
    [|by (eexists; split; [|reflexivity]; by apply trip_unauthorized)..].
  destruct (FromRequest a) as [a'|e|] eqn:Ef; [|by (eexists; split; [|reflexivity]; by apply trip_unsendable)..].
  destruct (client ac) as [c|]; [|by (eexists; split; [|reflexivity]; by apply trip_unsendable)].
  unfold logged_Do. destruct (client_Do c a' w1) as [[resp|e|] w2];
    [|by (eexists; split; [|cbn; by rewrite <-app_assoc]; by apply trip_sent)..].
  assert (∀ o, shouldCache ac req1 resp = o → is_ok o = false → respRequest resp = None) as Hn.
  { intros o <-. unfold shouldCache. destruct (negb _); [done|]. destruct (negb _); [done|].
    destruct (respRequest resp); [|done]. cbn. by destruct (_ =? _)%string. }
  destruct (shouldCache ac req1 resp) as [[]|e|]; [destruct (respRequest resp)| |..];
    (eexists; split; [|cbn; by rewrite <-app_assoc]); cbn; [by apply trip_sent..| |];
    eapply trip_no_request; eauto.
Qed.

(** What a call does outside: one round trip; or one whose response the policy challenges, the
    handling of the challenge, and if that succeeds a second round trip. *)
Inductive do_trace (pol : AuthPolicy) : outcome Response → list (event Ctx) → Prop :=
| trace_once o l : one_trip o l → is_ok o = false → do_trace pol o l
| trace_accepted resp l : one_trip (Ok resp) l → (pol resp).1 = false → do_trace pol (Ok (pol resp).2) l
| trace_refused resp l o o' : one_trip (Ok resp) l → (pol resp).1 = true → is_ok o = false → is_ok o' = false →
    do_trace pol o' (l ++ [EChallenge (pol resp).2 o])
| trace_again resp l o' l' : one_trip (Ok resp) l → (pol resp).1 = true → one_trip o' l' →
    do_trace pol o' (l ++ [EChallenge (pol resp).2 (Ok tt)] ++ l').

(** A client as [NewAuthClient] and [CloneWithNewClient] make them. *)
Record ready ac (pol : AuthPolicy) : Prop := {
  ready_init : init ac = true;
  ready_policy : policy ac = Some pol;
  ready_ctx : is_Some (getAuthCtx ac)
}.

Lemma roundTrip_ready ctx req ac w log pol : ready ac pol →
  ready (trip ctx (req, (ac, (w, log)))).2.2.1 pol ∧
  getAuthCtx (trip ctx (req, (ac, (w, log)))).2.2.1 = getAuthCtx ac.
Proof.
  intros []. unfold roundTrip. cbn [logged_handler AuthorizeRequest].
  destruct (AuthorizeRequest h ctx (attach_headers (header ac) req, w)) as [[a|e|] [req1 w1]]; [|done..].
  destruct (FromRequest a) as [a'|e|] eqn:Ef; [|done..]. destruct (client ac) as [c|]; [|done].
  unfold logged_Do. destruct (client_Do c a' w1) as [[resp|e|] w2]; [|done..].
  destruct (shouldCache ac req1 resp) as [[]|e|]; [destruct (respRequest resp)|..]; done.
Qed.

Lemma redirected_ready ac pol req : ready ac pol → ∃ rd, redirected ac req = Ok rd.
Proof.
  intros [_ _ [f Hf]]. unfold redirected. destruct (negb _); [by eexists|].
  destruct (redirMap ac !! _) as [u|]; [|by eexists]. destruct (url_Parse u); [|by eexists]. rewrite Hf. by eexists.
Qed.

(** The request that is sent, and what comes of the call, in terms of its round trips. *)
Lemma Do_trips req ac w log pol getCtx : ready ac pol → getAuthCtx ac = Some getCtx → handler ac = Some logged_handler →
  ∃ rd, redirected ac req = Ok rd ∧
  let '(o, (req1, (ac1, w1))) := trip (reqCtx req) (default req rd, (ac, (w, log))) in
  do_ req (ac, (w, log)) =
    match o with
    | Ok resp =>
        if (pol resp).1 then
          let '(c, w2) := HandleChallenge logged_handler (reqCtx req) (pol resp).2 w1 in
          match c with
          | Ok _ => let '(o2, (_, s)) := trip (reqCtx req) (req_Clone (getCtx (reqCtx req)) req1, (ac1, w2)) in (o2, s)
          | Err e => (Err (Join ErrFailedToHandleChallenge e), (ac1, w2))
          | Panic => (Panic, (ac1, w2))
          end
        else (Ok (pol resp).2, (ac1, w1))
    | o => (o, (ac1, w1))
    end.
Proof.
  intros Hr Hg Hh. destruct (redirected_ready ac pol req Hr) as [rd Hrd]. exists rd. split; [done|].
  unfold Do, initClient. rewrite (ready_init _ _ Hr), Hh, Hrd, (ready_policy _ _ Hr), Hg.
  destruct (trip _ _) as [[resp|e|] [req1 [ac1 w1]]]; [|done..].
  destruct (pol resp) as [[] p]; [|done]. cbn [fst snd].
  destruct (HandleChallenge logged_handler (reqCtx req) p w1) as [[]]; done.
Qed.

(** C16: A call authorizes whatever it sends right before sending it, answers at most one
    challenge, and sends again only after the challenge was handled: what it returns and what it
    does outside is one of the four shapes of [do_trace]. *)
Theorem Do_answers_one_challenge req ac w pol : ready ac pol → handler ac = Some logged_handler →
  ∃ l, do_trace pol (do_ req (ac, (w, []))).1 l ∧ (do_ req (ac, (w, []))).2.2.2 = l.
Proof.
  intros Hr Hh. destruct (ready_ctx _ _ Hr) as [getCtx Hg].
  destruct (Do_trips req ac w [] pol getCtx Hr Hg Hh) as (rd & _ & HD).
  destruct (roundTrip_trace (reqCtx req) (default req rd) ac w []) as (l & Hl & Hlog).
  destruct (trip (reqCtx req) (default req rd, (ac, (w, [])))) as [o [req1 [ac1 [w1 log1]]]].
  cbn [fst snd app] in *. subst log1. rewrite HD. destruct o as [resp|e|];
    [|by exists l; split; [apply trace_once|]..].
  destruct (pol resp).1 eqn:Ep; [|by exists l; split; [apply trace_accepted|]].
  cbn [logged_handler HandleChallenge].
  destruct (HandleChallenge h (reqCtx req) (pol resp).2 w1) as [[[]|e|] w2];
    [|by eexists; split; [|reflexivity]; apply trace_refused..].
  destruct (roundTrip_trace (reqCtx req) (req_Clone (getCtx (reqCtx req)) req1) ac1 w2 (l ++ [EChallenge (pol resp).2 (Ok ())])) as (l' & Hl' & Hlog').
  destruct (trip (reqCtx req) _) as [o2 [req2 [ac2 [w3 log3]]]]. cbn [fst snd] in *. subst log3.
  eexists; split; [|by rewrite <-app_assoc]. by apply trace_again.
Qed.

(** ** Redirects *)
Context (Hauth : ∀ ctx r w o r' w', AuthorizeRequest h ctx (r, w) = (o, (r', w')) →
    reqURL r' = reqURL r ∧ Method r' = Method r ∧ ∀ a, o = Ok a → reqURL a = reqURL r)
  (Hfrom : ∀ a a', FromRequest a = Ok a' → reqURL a' = reqURL a).

Definition sent_to (u : URL) (e : event Ctx) : Prop := match e with ESend r _ => reqURL r = u | _ => True end.

Lemma roundTrip_url ctx req ac w log : ∃ l,
  (trip ctx (req, (ac, (w, log)))).2.2.2.2 = log ++ l ∧ Forall (sent_to (reqURL req)) l ∧
  reqURL (trip ctx (req, (ac, (w, log)))).2.1 = reqURL req ∧
  ∀ k, k ≠ url_String (reqURL req) → redirMap (trip ctx (req, (ac, (w, log)))).2.2.1 !! k = redirMap ac !! k.
Proof.
  unfold roundTrip. cbn [logged_handler AuthorizeRequest].
  destruct (AuthorizeRequest h ctx (attach_headers (header ac) req, w)) as [o [req1 w1]] eqn:Ea.
  destruct (Hauth _ _ _ _ _ _ Ea) as (Hu & _ & Ha). cbn in Hu, Ha.
  destruct o as [a|e|]; [|by (eexists; split; [reflexivity|]; split; [by repeat constructor|])..]. specialize (Ha a eq_refl).
  destruct (FromRequest a) as [a'|e|] eqn:Ef; [|by (eexists; split; [reflexivity|]; split; [by repeat constructor|])..].
  apply Hfrom in Ef. rewrite Ha in Ef.
  destruct (client ac) as [c|]; [|by (eexists; split; [reflexivity|]; split; [by repeat constructor|])].
  unfold logged_Do. destruct (client_Do c a' w1) as [[resp|e|] w2];
    [|by (eexists; split; [cbn; by rewrite <-app_assoc|]; split; [by repeat constructor|])..].
  destruct (shouldCache ac req1 resp) as [[]|e|]; [destruct (respRequest resp)|..];
    (eexists; split; [cbn; by rewrite <-app_assoc|]; split; [by repeat constructor|]); try done.
  split; [done|]. intros k Hk. cbn. rewrite Hu. by rewrite lookup_insert_ne.
Qed.

(** C36: Once a redirect is remembered, the request goes to where it led, and there only, however
    the server answers, and the redirect is still remembered afterwards: it is never refreshed
    or forgotten. *)
Theorem remembered_redirect_is_final req ac w pol v nu : ready ac pol → handler ac = Some logged_handler →
  Method req = "GET"%string → redirMap ac !! url_String (reqURL req) = Some v → url_Parse v = Some nu →
  url_String nu ≠ url_String (reqURL req) →
  Forall (sent_to nu) (do_ req (ac, (w, []))).2.2.2 ∧
  redirMap (do_ req (ac, (w, []))).2.1 !! url_String (reqURL req) = Some v.
Proof.
  intros Hr Hh Hm Hv Hp Hne. destruct (ready_ctx _ _ Hr) as [getCtx Hg].
  destruct (Do_trips req ac w [] pol getCtx Hr Hg Hh) as (rd & Hrd & HD).
  assert (∃ r, rd = Some r ∧ reqURL r = nu) as (r & -> & Hru).
  { unfold redirected in Hrd. rewrite Hm, Hv, Hp, Hg in Hrd. cbn in Hrd. injection Hrd as <-. by eexists. }
  cbn [default from_option id] in HD. unfold id in HD. destruct (roundTrip_url (reqCtx req) r ac w []) as (l & Hlog & Hl & Hu & Hk).
  destruct (roundTrip_ready (reqCtx req) r ac w [] pol Hr) as [Hr1 _].
  destruct (trip (reqCtx req) (r, (ac, (w, [])))) as [o [req1 [ac1 [w1 log1]]]].
  cbn [fst snd app] in *. subst log1. rewrite Hru in *. specialize (Hk _ (not_eq_sym Hne)). rewrite Hv in Hk.
  rewrite HD. destruct o as [resp|e|]; [|done..]. destruct (pol resp).1; [|done].
  cbn [logged_handler HandleChallenge].
  assert (∀ c, Forall (sent_to nu) (l ++ [EChallenge (pol resp).2 c])) as Hc by (intros; apply list.Forall_app; by repeat constructor).
  destruct (HandleChallenge h (reqCtx req) (pol resp).2 w1) as [[[]|e|] w2]; [|by split; [apply Hc|]..].
  destruct (roundTrip_url (reqCtx req) (req_Clone (getCtx (reqCtx req)) req1) ac1 w2 (l ++ [EChallenge (pol resp).2 (Ok ())])) as (l' & Hlog' & Hl' & Hu' & Hk').
  destruct (trip (reqCtx req) _) as [o2 [req2 [ac2 [w3 log3]]]]. cbn [fst snd req_Clone reqURL] in *. subst log3.
  rewrite Hu in *. split; [by apply list.Forall_app|]. by rewrite Hk'.
Qed.
End trace.
