(* ===== verification/Config.v ===== *)
(** * Configuration

    Models [config/]: the records, the defaults that replace zero values, the parsers in their
    order, and the loading of a file over the default configuration.  Decoding TOML is a
    parameter; the sizes of download chunks are parsed as the regular expression and [float64]
    arithmetic of the source do. *)
From Stdlib Require Import ZArith Lia Ascii.
From stdpp Require Import base list gmap strings.
From S2P Require Import Prelude GoLib.
#[local] Open Scope Z_scope.

(** ** Defaults *)
Definition DefaultConfigPath : string := "/etc/soci-snapshotter-grpc/config.toml".
Definition defaultMetricsNetwork : string := "tcp".
Definition defaultMetadataStore : string := "db".
Definition DefaultImageServiceAddress : string := "/run/containerd/containerd.sock".
Definition defaultAuthClientTTLSec := 3600.
Definition Unbounded := -1.
Definition defaultFuseTimeoutSec := 1.
Definition defaultBgSilencePeriodMsec := 30000.
Definition defaultBgFetchPeriodMsec := 500.
Definition defaultBgMaxQueueSize := 300.
Definition defaultBgDropPolicy : string := "newest".
Definition defaultBgMetricEmitPeriodSec := 10.
Definition defaultMountTimeoutSec := 30.
Definition defaultFuseMetricsEmitWaitDurationSec := 60.
Definition defaultMaxConcurrency := 100.
Definition defaultPrefetchMaxConcurrency := 0.
Definition defaultValidIntervalSec := 60.
Definition defaultFetchTimeoutSec := 300.
Definition defaultDialTimeoutMsec := 3000.
Definition defaultResponseHeaderTimeoutMsec := 3000.
Definition defaultRequestTimeoutMsec := 300000.
Definition defaultMaxRetries := 8.
Definition defaultMinWaitMsec := 30.
Definition defaultMaxWaitMsec := 300000.
Definition DefaultSOCIV1Enable := false.
Definition DefaultSOCIV2Enable := true.
Definition DefaultParallelPullUnpackEnable := false.
Definition defaultMaxConcurrentDownloads := Unbounded.
Definition defaultMaxConcurrentDownloadsPerImage := 3.
Definition defaultConcurrentDownloadChunkSize := Unbounded.
Definition defaultMaxConcurrentUnpacks := Unbounded.
Definition defaultMaxConcurrentUnpacksPerImage := 1.
Definition SociContentStoreType : string := "soci".
Definition ContainerdContentStoreType : string := "containerd".

(** ** Records *)
Record PrefetchConfig := mkPrefetch { prefetch_Enable : bool; prefetch_MaxConcurrency : Z }.
Record BlobConfig := mkBlob {
  ValidInterval : Z;
  FetchTimeoutSec : Z;
  blob_MaxRetries : Z;
  blob_MinWaitMsec : Z;
  blob_MaxWaitMsec : Z;
  CheckAlways : bool;
  ForceSingleRangeMode : bool;
  MaxSpanVerificationRetries : Z
}.
Record DirectoryCacheConfig := mkDirCache { MaxLRUCacheEntry : Z; MaxCacheFds : Z; SyncAdd : bool; Direct : bool }.
Record FuseConfig := mkFuse { AttrTimeout : Z; EntryTimeout : Z; NegativeTimeout : Z; LogFuseOperations : bool }.
Record BackgroundFetchConfig := mkBg {
  Disable : bool;
  SilencePeriodMsec : Z;
  FetchPeriodMsec : Z;
  MaxQueueSize : Z;
  DropPolicy : string;
  EmitMetricPeriodSec : Z
}.
Record RetryConfig := mkRetry { MaxRetries : Z; MinWaitMsec : Z; MaxWaitMsec : Z }.
Record TimeoutConfig := mkTimeout { DialTimeoutMsec : Z; ResponseHeaderTimeoutMsec : Z; RequestTimeoutMsec : Z }.
Record RetryableHTTPClientConfig := mkHttp { http_Timeout : TimeoutConfig; http_Retry : RetryConfig }.
Record ContentStoreConfig := mkStore { store_Type : string; ContainerdAddress : string }.
Record FSConfig := mkFS {
  HTTPCacheType : string;
  FSCacheType : string;
  ResolveResultEntry : Z;
  Debug : bool;
  DisableVerification : bool;
  MaxConcurrency : Z;
  fs_NoPrometheus : bool;
  MountTimeoutSec : Z;
  FuseMetricsEmitWaitDurationSec : Z;
  fs_http : RetryableHTTPClientConfig;
  fs_blob : BlobConfig;
  fs_dircache : DirectoryCacheConfig;
  fs_fuse : FuseConfig;
  fs_bg : BackgroundFetchConfig;
  fs_store : ContentStoreConfig;
  fs_prefetch : PrefetchConfig
}.

Record DecompressStream := mkStream { stream_Path : string; stream_Args : list string }.
Record ParallelConfig := mkParallelConfig {
  MaxConcurrentDownloads : Z;
  MaxConcurrentDownloadsPerImage : Z;
  ConcurrentDownloadChunkSizeStr : string;
  ConcurrentDownloadChunkSize : Z;
  MaxConcurrentUnpacks : Z;
  MaxConcurrentUnpacksPerImage : Z;
  DecompressStreams : gmap string DecompressStream;
  DiscardUnpackedLayers : bool
}.
Record Parallel := mkParallel {
  parallel_cfg : ParallelConfig;
  parallel_Enable : bool;
  ExperimentalParallelPullAsFallback : bool
}.
Record PullModes := mkPullModes { SOCIv1_Enable : bool; SOCIv2_Enable : bool; pm_Parallel : Parallel }.

Record KubeconfigKeychainConfig := mkKube { kube_EnableKeychain : bool; KubeconfigPath : string }.
Record CRIKeychainConfig := mkCRI { cri_EnableKeychain : bool; ImageServicePath : string }.
Record MirrorConfig := mkMirror { mirror_Host : string; Insecure : bool; RequestTimeoutSec : Z }.
Record ResolverConfig := mkResolver {
  resolver_Host : gmap string (list MirrorConfig);
  AuthClientTTLSec : Z;
  EnableAuthClientSharing : bool
}.
Record SnapshotterConfig := mkSnapshotter { MinLayerSize : Z; AllowInvalidMountsOnRestart : bool }.
Record ServiceConfig := mkService {
  svc_fs : FSConfig;
  svc_PullModes : PullModes;
  svc_kube : KubeconfigKeychainConfig;
  svc_cri : CRIKeychainConfig;
  svc_resolver : ResolverConfig;
  svc_snapshotter : SnapshotterConfig
}.
Record Config := mkConfig {
  cfg_service : ServiceConfig;
  MetricsAddress : string;
  MetricsNetwork : string;
  NoPrometheus : bool;
  DebugAddress : string;
  MetadataStore : string;
  MetadataDBNoSync : bool;
  MetadataInsertionChunkSize : Z;
  SkipCheckSnapshotterSupported : bool
}.

(** [&Config{}] *)
Definition zero_Config : Config := mkConfig
  (mkService
    (mkFS "" "" 0 false false 0 false 0 0 (mkHttp (mkTimeout 0 0 0) (mkRetry 0 0 0)) (mkBlob 0 0 0 0 0 false false 0)
       (mkDirCache 0 0 false false) (mkFuse 0 0 0 false) (mkBg false 0 0 0 "" 0) (mkStore "" "") (mkPrefetch false 0))
    (mkPullModes false false (mkParallel (mkParallelConfig 0 0 "" 0 0 0 ∅ false) false false))
    (mkKube false "") (mkCRI false "") (mkResolver ∅ 0 false) (mkSnapshotter 0 false))
  "" "" false "" "" false 0 false.

(** Assignments to a nested part. *)
Definition upd_service (f : ServiceConfig → ServiceConfig) (c : Config) : Config :=
  mkConfig (f (cfg_service c)) (MetricsAddress c) (MetricsNetwork c) (NoPrometheus c) (DebugAddress c) (MetadataStore c)
    (MetadataDBNoSync c) (MetadataInsertionChunkSize c) (SkipCheckSnapshotterSupported c).
Definition upd_fs (f : FSConfig → FSConfig) : Config → Config :=
  upd_service (λ s, mkService (f (svc_fs s)) (svc_PullModes s) (svc_kube s) (svc_cri s) (svc_resolver s) (svc_snapshotter s)).
Definition set_PullModes (p : PullModes) : Config → Config :=
  upd_service (λ s, mkService (svc_fs s) p (svc_kube s) (svc_cri s) (svc_resolver s) (svc_snapshotter s)).
Definition upd_http (g : RetryableHTTPClientConfig → RetryableHTTPClientConfig) : Config → Config :=
  upd_fs (λ f, mkFS (HTTPCacheType f) (FSCacheType f) (ResolveResultEntry f) (Debug f) (DisableVerification f) (MaxConcurrency f)
    (fs_NoPrometheus f) (MountTimeoutSec f) (FuseMetricsEmitWaitDurationSec f) (g (fs_http f)) (fs_blob f) (fs_dircache f)
    (fs_fuse f) (fs_bg f) (fs_store f) (fs_prefetch f)).
Definition upd_blob (g : BlobConfig → BlobConfig) : Config → Config :=
  upd_fs (λ f, mkFS (HTTPCacheType f) (FSCacheType f) (ResolveResultEntry f) (Debug f) (DisableVerification f) (MaxConcurrency f)
    (fs_NoPrometheus f) (MountTimeoutSec f) (FuseMetricsEmitWaitDurationSec f) (fs_http f) (g (fs_blob f)) (fs_dircache f)
    (fs_fuse f) (fs_bg f) (fs_store f) (fs_prefetch f)).
Definition upd_dircache (g : DirectoryCacheConfig → DirectoryCacheConfig) : Config → Config :=
  upd_fs (λ f, mkFS (HTTPCacheType f) (FSCacheType f) (ResolveResultEntry f) (Debug f) (DisableVerification f) (MaxConcurrency f)
    (fs_NoPrometheus f) (MountTimeoutSec f) (FuseMetricsEmitWaitDurationSec f) (fs_http f) (fs_blob f) (g (fs_dircache f))
    (fs_fuse f) (fs_bg f) (fs_store f) (fs_prefetch f)).
Definition upd_fuse (g : FuseConfig → FuseConfig) : Config → Config :=
  upd_fs (λ f, mkFS (HTTPCacheType f) (FSCacheType f) (ResolveResultEntry f) (Debug f) (DisableVerification f) (MaxConcurrency f)
    (fs_NoPrometheus f) (MountTimeoutSec f) (FuseMetricsEmitWaitDurationSec f) (fs_http f) (fs_blob f) (fs_dircache f)
    (g (fs_fuse f)) (fs_bg f) (fs_store f) (fs_prefetch f)).
Definition upd_bg (g : BackgroundFetchConfig → BackgroundFetchConfig) : Config → Config :=
  upd_fs (λ f, mkFS (HTTPCacheType f) (FSCacheType f) (ResolveResultEntry f) (Debug f) (DisableVerification f) (MaxConcurrency f)
    (fs_NoPrometheus f) (MountTimeoutSec f) (FuseMetricsEmitWaitDurationSec f) (fs_http f) (fs_blob f) (fs_dircache f)
    (fs_fuse f) (g (fs_bg f)) (fs_store f) (fs_prefetch f)).
Definition upd_store (g : ContentStoreConfig → ContentStoreConfig) : Config → Config :=
  upd_fs (λ f, mkFS (HTTPCacheType f) (FSCacheType f) (ResolveResultEntry f) (Debug f) (DisableVerification f) (MaxConcurrency f)
    (fs_NoPrometheus f) (MountTimeoutSec f) (FuseMetricsEmitWaitDurationSec f) (fs_http f) (fs_blob f) (fs_dircache f)
    (fs_fuse f) (fs_bg f) (g (fs_store f)) (fs_prefetch f)).

(** ** Sizes

    [sizeRegex] is [(?i)^\s*(\d+(\.\d+)?)(\s*(gb|mb|kb|b)?)?\s*$]. *)
Definition is_space (c : ascii) : bool :=
  let n := nat_of_ascii c in ((n =? 9) || (n =? 10) || (n =? 12) || (n =? 13) || (n =? 32))%nat.
Definition digit (c : ascii) : option Z :=
  let n := nat_of_ascii c in if ((48 <=? n) && (n <=? 57))%nat then Some (Z.of_nat n - 48) else None.

Fixpoint skip_spaces (s : string) : string :=
  match s with String c t => if is_space c then skip_spaces t else s | EmptyString => s end.
(** The digits at the front: how many, their value after [acc], and the rest. *)
Fixpoint digits (acc : Z) (s : string) : nat * Z * string :=
  match s with
  | String c t =>
      match digit c with
      | Some d => let '(n, v, r) := digits (10 * acc + d) t in (S n, v, r)
      | None => (O, acc, s)
      end
  | EmptyString => (O, acc, s)
  end.
Definition letter (lower : ascii) (s : string) : option string :=
  match s with
  | String c t => if ((c =? lower)%char || (nat_of_ascii c + 32 =? nat_of_ascii lower)%nat) then Some t else None
  | EmptyString => None
  end.
(** Case folding makes the Kelvin sign (U+212A) a [k]. *)
Definition letter_k (s : string) : option string :=
  match letter "k" s with
  | Some t => Some t
  | None => if HasPrefix s (of_bytes [Byte.xe2; Byte.x84; Byte.xaa]) then Some (str_drop 3 s) else None
  end.
Definition unit_then_b (first : string → option string) (mult : Z) (s : string) : option (Z * string) :=
  t ← first s; u ← letter "b" t; Some (mult, u).

(** The multiplier of the unit, and what follows it. *)
Definition size_unit (s : string) : Z * string :=
  match unit_then_b (letter "g") (1024 * 1024 * 1024) s with
  | Some r => r
  | None => match unit_then_b (letter "m") (1024 * 1024) s with
    | Some r => r
    | None => match unit_then_b letter_k 1024 s with
      | Some r => r
      | None => match letter "b" s with Some t => (1, t) | None => (1, s) end
      end
    end
  end.

(** A match: the number as a numerator over a power of ten, and the multiplier. *)
Definition match_size (s : string) : option (Z * Z * Z) :=
  let '(n, v, r) := digits 0 (skip_spaces s) in
  if (n =? 0)%nat then None
  else
    let '(v, d, r) :=
      match r with
      | String "." t => let '(k, w, r') := digits v t in if (k =? 0)%nat then (v, 1, r) else (w, 10 ^ Z.of_nat k, r')
      | _ => (v, 1, r)
      end in
    let '(mult, r) := size_unit (skip_spaces r) in
    if (skip_spaces r =? "")%string then Some (v, d, mult) else None.

(** [float64]: the nearest multiple [m * 2 ^ e] of a power of two with 53 significant bits, ties
    to even. *)
Definition round_even (p q : Z) : Z :=
  let d := p `div` q in
  let r := 2 * (p `mod` q) in
  if r <? q then d else if q <? r then d + 1 else if Z.even d then d else d + 1.
Definition pow2_scale (x e : Z) : Z := if 0 <=? e then x * 2 ^ e else x.
(** The exponent: [2 ^ 52 <= p / q / 2 ^ e < 2 ^ 53]. *)
Definition float_exp (p q : Z) : Z :=
  let l := Z.log2 p - Z.log2 q in
  let l := if pow2_scale p (- l) <? pow2_scale q l then l - 1 else l in
  Z.max (l - 52) (-1074).
Definition float64_of (p q : Z) : option (Z * Z) :=
  if p =? 0 then Some (0, 0)
  else
    let e := float_exp p q in
    let m := round_even (pow2_scale p (- e)) (pow2_scale q e) in
    if 2 ^ 1024 <=? pow2_scale m e then None else Some (m, e).

Section sizes.
(** What the conversion of a [float64] out of range of [int64] gives depends on the machine. *)
Context (overflowed : Z).

Definition int64_of_float (m e mult : Z) : Z :=
  let x := if 0 <=? e then m * mult * 2 ^ e else Z.quot (m * mult) (2 ^ (- e)) in
  if x <? 2 ^ 63 then x else overflowed.

Definition parseSize (sizeStr : string) : outcome Z :=
  if (sizeStr =? "")%string then Ok defaultConcurrentDownloadChunkSize
  else match match_size sizeStr with
  | None => Err (ErrorString "invalid size format")
  | Some (p, q, mult) =>
      match float64_of p q with
      | None => Err (ErrorString "failed to parse size number")
      | Some (m, e) =>
          let size := int64_of_float m e mult in
          if size <? 0 then Err (ErrorString "size cannot be negative")
          else if size =? 0 then Ok defaultConcurrentDownloadChunkSize
          else Ok size
      end
  end.

(** ** Parsers *)
Definition dflt (d x : Z) : Z := if x =? 0 then d else x.
Definition dflt_str (d s : string) : string := if (s =? "")%string then d else s.

Definition parseRootConfig (cfg : Config) : outcome Config :=
  Ok (mkConfig (cfg_service cfg) (MetricsAddress cfg) (dflt_str defaultMetricsNetwork (MetricsNetwork cfg)) (NoPrometheus cfg)
        (DebugAddress cfg) (dflt_str defaultMetadataStore (MetadataStore cfg)) (MetadataDBNoSync cfg)
        (MetadataInsertionChunkSize cfg) (SkipCheckSnapshotterSupported cfg)).

Definition parseServiceConfig (cfg : Config) : outcome Config :=
  Ok (upd_service (λ s,
    mkService (svc_fs s) (svc_PullModes s) (svc_kube s)
      (mkCRI (cri_EnableKeychain (svc_cri s)) (dflt_str DefaultImageServiceAddress (ImageServicePath (svc_cri s))))
      (mkResolver (resolver_Host (svc_resolver s)) (dflt defaultAuthClientTTLSec (AuthClientTTLSec (svc_resolver s)))
         (EnableAuthClientSharing (svc_resolver s)))
      (svc_snapshotter s)) cfg).

Definition parseFuseConfig (cfg : Config) : outcome Config :=
  Ok (upd_fuse (λ f, mkFuse (dflt defaultFuseTimeoutSec (AttrTimeout f)) (dflt defaultFuseTimeoutSec (EntryTimeout f))
        (dflt defaultFuseTimeoutSec (NegativeTimeout f)) (LogFuseOperations f)) cfg).

Definition parseBackgroundFetchConfig (cfg : Config) : outcome Config :=
  let cfg := upd_bg (λ b, mkBg (Disable b) (dflt defaultBgSilencePeriodMsec (SilencePeriodMsec b))
      (dflt defaultBgFetchPeriodMsec (FetchPeriodMsec b)) (dflt defaultBgMaxQueueSize (MaxQueueSize b))
      (dflt_str defaultBgDropPolicy (DropPolicy b)) (EmitMetricPeriodSec b)) cfg in
  let policy := DropPolicy (fs_bg (svc_fs (cfg_service cfg))) in
  if (policy =? "oldest")%string || (policy =? "newest")%string then
    Ok (upd_bg (λ b, mkBg (Disable b) (SilencePeriodMsec b) (FetchPeriodMsec b) (MaxQueueSize b) (DropPolicy b)
          (dflt defaultBgMetricEmitPeriodSec (EmitMetricPeriodSec b))) cfg)
  else Err (ErrorString "background_fetch.drop_policy must be oldest or newest").

Definition parseRetryableHTTPClientConfig (cfg : Config) : outcome Config :=
  Ok (upd_http (λ h,
    mkHttp (mkTimeout (dflt defaultDialTimeoutMsec (DialTimeoutMsec (http_Timeout h)))
              (dflt defaultResponseHeaderTimeoutMsec (ResponseHeaderTimeoutMsec (http_Timeout h)))
              (dflt defaultRequestTimeoutMsec (RequestTimeoutMsec (http_Timeout h))))
      (mkRetry (dflt defaultMaxRetries (MaxRetries (http_Retry h))) (dflt defaultMinWaitMsec (MinWaitMsec (http_Retry h)))
         (dflt defaultMaxWaitMsec (MaxWaitMsec (http_Retry h))))) cfg).

Definition parseBlobConfig (cfg : Config) : outcome Config :=
  let retry := http_Retry (fs_http (svc_fs (cfg_service cfg))) in
  Ok (upd_blob (λ b,
    mkBlob (if CheckAlways b then 0 else dflt defaultValidIntervalSec (ValidInterval b))
      (dflt defaultFetchTimeoutSec (FetchTimeoutSec b)) (dflt (MaxRetries retry) (blob_MaxRetries b))
      (dflt (MinWaitMsec retry) (blob_MinWaitMsec b)) (dflt (MaxWaitMsec retry) (blob_MaxWaitMsec b))
      (CheckAlways b) (ForceSingleRangeMode b) (MaxSpanVerificationRetries b)) cfg).

Definition TrimPrefix (s p : string) : string := if HasPrefix s p then str_drop (String.length p) s else s.
Definition TrimSocketAddress (address : string) : string := TrimPrefix address "unix://".

(** [defaults.DefaultAddress] of containerd. *)
Context (DefaultAddress : string).

Definition parseContentStoreConfig (cfg : Config) : outcome Config :=
  Ok (upd_store (λ s,
    mkStore (dflt_str SociContentStoreType (store_Type s))
      (if (ContainerdAddress s =? "")%string then DefaultAddress else TrimSocketAddress (ContainerdAddress s))) cfg).

(** [parseConfig] and the loop over nested parsers: the first error stops. *)
Definition run_parsers (ps : list (Config → outcome Config)) (cfg : Config) : outcome Config :=
  foldl (λ o p, o ≫= p) (Ok cfg) ps.

Definition parseFSConfig (cfg : Config) : outcome Config :=
  let cfg := upd_fs (λ f,
    let c := dflt defaultMaxConcurrency (MaxConcurrency f) in
    mkFS (HTTPCacheType f) (FSCacheType f) (ResolveResultEntry f) (Debug f) (DisableVerification f)
      (if c <? 0 then 0 else c) (fs_NoPrometheus f) (dflt defaultMountTimeoutSec (MountTimeoutSec f))
      (dflt defaultFuseMetricsEmitWaitDurationSec (FuseMetricsEmitWaitDurationSec f))
      (fs_http f) (fs_blob f) (fs_dircache f) (fs_fuse f) (fs_bg f) (fs_store f)
      (mkPrefetch (prefetch_Enable (fs_prefetch f))
         (if prefetch_MaxConcurrency (fs_prefetch f) <? 0 then defaultPrefetchMaxConcurrency
          else prefetch_MaxConcurrency (fs_prefetch f)))) cfg in
  run_parsers [parseFuseConfig; parseBackgroundFetchConfig; parseRetryableHTTPClientConfig; parseBlobConfig;
               parseContentStoreConfig] cfg.

Definition parseParallelConfig (cfg : Config) : outcome Config :=
  let pm := svc_PullModes (cfg_service cfg) in
  let p := parallel_cfg (pm_Parallel pm) in
  size ← parseSize (ConcurrentDownloadChunkSizeStr p);
  Ok (set_PullModes (mkPullModes (SOCIv1_Enable pm) (SOCIv2_Enable pm)
    (mkParallel
       (mkParallelConfig (MaxConcurrentDownloads p) (MaxConcurrentDownloadsPerImage p) (ConcurrentDownloadChunkSizeStr p) size
          (MaxConcurrentUnpacks p) (MaxConcurrentUnpacksPerImage p) (DecompressStreams p) (DiscardUnpackedLayers p))
       (parallel_Enable (pm_Parallel pm)) (ExperimentalParallelPullAsFallback (pm_Parallel pm)))) cfg).

Definition defaultParallelConfig : ParallelConfig :=
  mkParallelConfig defaultMaxConcurrentDownloads defaultMaxConcurrentDownloadsPerImage "" defaultConcurrentDownloadChunkSize
    defaultMaxConcurrentUnpacks defaultMaxConcurrentUnpacksPerImage ∅ false.
Definition DefaultPullModes : PullModes :=
  mkPullModes DefaultSOCIV1Enable DefaultSOCIV2Enable (mkParallel defaultParallelConfig DefaultParallelPullUnpackEnable false).
Definition defaultPullModes (cfg : Config) : outcome Config := Ok (set_PullModes DefaultPullModes cfg).
Definition defaultDirectoryCacheConfig (cfg : Config) : outcome Config :=
  Ok (upd_dircache (λ d, mkDirCache (MaxLRUCacheEntry d) (MaxCacheFds d) (SyncAdd d) true) cfg).
Definition defaultBackgroundFetchConfig (cfg : Config) : outcome Config :=
  Ok (upd_bg (λ b, mkBg (Disable b) (SilencePeriodMsec b) (FetchPeriodMsec b) defaultBgMaxQueueSize defaultBgDropPolicy
        (EmitMetricPeriodSec b)) cfg).

Definition parsers : list (Config → outcome Config) :=
  [parseRootConfig; parseServiceConfig; parseFSConfig; parseParallelConfig].
Definition parseConfig (cfg : Config) (ps : list (Config → outcome Config)) : outcome Config :=
  map_err (Wrap "failed to parse config") (run_parsers ps cfg).

(** [None] is the nil of a configuration that does not parse. *)
Definition NewConfig : option Config :=
  match parseConfig zero_Config
          ([defaultPullModes; defaultDirectoryCacheConfig; defaultBackgroundFetchConfig] ++ parsers) with
  | Ok cfg => Some cfg
  | _ => None
  end.

(** ** Loading a file *)
Context {File : Type} (os_Open : string → outcome File) (IsNotExist : error → bool)
  (toml_Decode : File → Config → outcome Config).

Definition NewConfigFromToml (cfgPath : string) : outcome (option Config) :=
  match os_Open cfgPath with
  | Err err =>
      if IsNotExist err && (cfgPath =? DefaultConfigPath)%string then Ok NewConfig
      else Err (Wrap "failed to open config file" err)
  | Panic => Panic
  | Ok f =>
      match NewConfig with
      | None => Err (ErrorString "error creating default config")
      | Some cfg =>
          cfg ← map_err (Wrap "failed to load config file") (toml_Decode f cfg);
          cfg ← map_err (Wrap "config file") (parseConfig cfg parsers);
          Ok (Some cfg)
      end
  end.
End sizes.

(** ** Sizes that are whole numbers are exact *)
Lemma round_even_exact p q : 0 < q → round_even (p * q) q = p.
Proof.
  intros Hq. unfold round_even. rewrite Z.div_mul, Z.mod_mul by lia. by replace (2 * 0 <? q) with true by lia.
Qed.

Lemma float_exp_whole n : 0 < n → float_exp n 1 = Z.max (Z.log2 n - 52) (-1074).
Proof.
  intros Hn. unfold float_exp. replace (Z.log2 1) with 0 by done. rewrite Z.sub_0_r.
  pose proof (Z.log2_nonneg n). pose proof (Z.log2_spec n Hn) as [Hl _].
  unfold pow2_scale at 2. rewrite (proj2 (Z.leb_le 0 (Z.log2 n))) by done. rewrite Z.mul_1_l.
  unfold pow2_scale. destruct (0 <=? - Z.log2 n) eqn:E.
  - apply Z.leb_le in E. replace (- Z.log2 n) with 0 by lia. replace (Z.log2 n) with 0 in * by lia.
    by replace (n * 2 ^ 0 <? 2 ^ 0) with false by lia.
  - by replace (n <? 2 ^ Z.log2 n) with false by lia.
Qed.

Lemma float64_of_whole n : 0 < n < 2 ^ 53 → ∃ m e, float64_of n 1 = Some (m, e) ∧ e ≤ 0 ∧ m = n * 2 ^ (- e).
Proof.
  intros Hn. unfold float64_of. replace (n =? 0) with false by lia. rewrite float_exp_whole by lia.
  assert (0 ≤ Z.log2 n < 53) as Hl by (split; [apply Z.log2_nonneg|apply Z.log2_lt_pow2; lia]).
  set (e := Z.max (Z.log2 n - 52) (-1074)). assert (e = Z.log2 n - 52) as He by lia.
  assert (round_even (pow2_scale n (- e)) (pow2_scale 1 e) = n * 2 ^ (- e)) as Hr.
  { assert (pow2_scale 1 e = 1) as ->.
    { unfold pow2_scale. destruct (0 <=? e) eqn:E; [|done]. apply Z.leb_le in E. by replace e with 0 by lia. }
    unfold pow2_scale. replace (0 <=? - e) with true by lia.
    rewrite <-(Z.mul_1_r (n * 2 ^ (- e))) at 1. by apply round_even_exact. }
  rewrite Hr. exists (n * 2 ^ (- e)), e. split; [|split; [lia|done]].
  replace (2 ^ 1024 <=? pow2_scale (n * 2 ^ (- e)) e) with false; [done|].
  symmetry. apply Z.leb_gt. unfold pow2_scale. destruct (0 <=? e) eqn:E.
  - apply Z.leb_le in E. replace e with 0 by lia. change (2 ^ (- 0)) with 1. change (2 ^ 0) with 1.
    assert (2 ^ 53 < 2 ^ 1024) by (apply Z.pow_lt_mono_r; lia). lia.
  - assert (2 ^ (- e) ≤ 2 ^ 52) by (apply Z.pow_le_mono_r; lia).
    assert (n * 2 ^ (- e) < 2 ^ 53 * 2 ^ 53).
    { assert (2 ^ 52 < 2 ^ 53) by (apply Z.pow_lt_mono_r; lia). assert (0 < 2 ^ (- e)) by (apply Z.pow_pos_nonneg; lia). nia. }
    rewrite <-Z.pow_add_r in * by lia. assert (2 ^ (53 + 53) < 2 ^ 1024) by (apply Z.pow_lt_mono_r; lia). lia.
Qed.

(** A whole number of units is read exactly, up to [2 ^ 53] of them. *)
Lemma parseSize_whole ov s n mult : s ≠ ""%string → match_size s = Some (n, 1, mult) → 0 < n < 2 ^ 53 → 0 < mult →
  n * mult < 2 ^ 63 → parseSize ov s = Ok (n * mult).
Proof.
  intros Hs Hm Hn Hmu Hlt. unfold parseSize. rewrite (proj2 (String.eqb_neq s "") Hs), Hm.
  destruct (float64_of_whole n Hn) as (m & e & -> & He & ->). cbv zeta.
  assert (int64_of_float ov (n * 2 ^ (- e)) e mult = n * mult) as ->.
  { unfold int64_of_float. assert (0 < 2 ^ (- e)) by (apply Z.pow_pos_nonneg; lia).
    assert ((if 0 <=? e then n * 2 ^ (- e) * mult * 2 ^ e else Z.quot (n * 2 ^ (- e) * mult) (2 ^ (- e))) = n * mult) as ->.
    { destruct (0 <=? e) eqn:E; [apply Z.leb_le in E; replace e with 0 by lia; change (2 ^ (- 0)) with 1; change (2 ^ 0) with 1; lia|].
      replace (n * 2 ^ (- e) * mult) with (n * mult * 2 ^ (- e)) by ring. by rewrite Z.quot_mul by lia. }
    by replace (n * mult <? 2 ^ 63) with true by lia. }
  by replace (n * mult <? 0) with false by nia; replace (n * mult =? 0) with false by nia.
Qed.

(** A size is unbounded or positive. *)
Lemma parseSize_range ov s v : ov < 2 ^ 63 → parseSize ov s = Ok v → v = Unbounded ∨ 0 < v < 2 ^ 63.
Proof.
  intros Hov. unfold parseSize. destruct (s =? "")%string; [intros [= <-]; by left|].
  destruct (match_size s) as [[[p q] mult]|]; [|done]. destruct (float64_of p q) as [[m e]|]; [|done]. cbv zeta.
  assert (int64_of_float ov m e mult < 2 ^ 63) by (unfold int64_of_float; cbv zeta; zcases).
  destruct (Z.ltb_spec (int64_of_float ov m e mult) 0); [done|].
  destruct (Z.eqb_spec (int64_of_float ov m e mult) 0); intros [= <-]; [by left|right; lia].
Qed.

(** ** What every loaded configuration satisfies *)
Record valid_Config (cfg : Config) : Prop := {
  valid_network : MetricsNetwork cfg ≠ ""%string;
  valid_metadata : MetadataStore cfg ≠ ""%string;
  valid_image_service : ImageServicePath (svc_cri (cfg_service cfg)) ≠ ""%string;
  valid_ttl : AuthClientTTLSec (svc_resolver (cfg_service cfg)) ≠ 0;
  valid_fs : let f := svc_fs (cfg_service cfg) in
    0 ≤ MaxConcurrency f ∧ 0 ≤ prefetch_MaxConcurrency (fs_prefetch f) ∧
    MountTimeoutSec f ≠ 0 ∧ FuseMetricsEmitWaitDurationSec f ≠ 0;
  valid_fuse : let f := fs_fuse (svc_fs (cfg_service cfg)) in
    AttrTimeout f ≠ 0 ∧ EntryTimeout f ≠ 0 ∧ NegativeTimeout f ≠ 0;
  valid_bg : let b := fs_bg (svc_fs (cfg_service cfg)) in
    SilencePeriodMsec b ≠ 0 ∧ FetchPeriodMsec b ≠ 0 ∧ MaxQueueSize b ≠ 0 ∧ EmitMetricPeriodSec b ≠ 0 ∧
    (DropPolicy b = "oldest" ∨ DropPolicy b = "newest")%string;
  valid_http : let h := fs_http (svc_fs (cfg_service cfg)) in
    DialTimeoutMsec (http_Timeout h) ≠ 0 ∧ ResponseHeaderTimeoutMsec (http_Timeout h) ≠ 0 ∧
    RequestTimeoutMsec (http_Timeout h) ≠ 0 ∧ MaxRetries (http_Retry h) ≠ 0 ∧ MinWaitMsec (http_Retry h) ≠ 0 ∧
    MaxWaitMsec (http_Retry h) ≠ 0;
  valid_blob : let b := fs_blob (svc_fs (cfg_service cfg)) in
    (ValidInterval b = 0 ↔ CheckAlways b = true) ∧ FetchTimeoutSec b ≠ 0 ∧ blob_MaxRetries b ≠ 0 ∧
    blob_MinWaitMsec b ≠ 0 ∧ blob_MaxWaitMsec b ≠ 0;
  valid_store : store_Type (fs_store (svc_fs (cfg_service cfg))) ≠ ""%string;
  valid_chunk : let s := ConcurrentDownloadChunkSize (parallel_cfg (pm_Parallel (svc_PullModes (cfg_service cfg)))) in
    s = Unbounded ∨ 0 < s < 2 ^ 63
}.

Lemma dflt_nonzero d x : d ≠ 0 → dflt d x ≠ 0.
Proof. unfold dflt. zcases. Qed.
Lemma dflt_str_nonempty d s : d ≠ ""%string → dflt_str d s ≠ ""%string.
Proof. unfold dflt_str. by destruct (String.eqb_spec s ""). Qed.

Lemma check_interval b :
  (if CheckAlways b then 0 else dflt defaultValidIntervalSec (ValidInterval b)) = 0 ↔ CheckAlways b = true.
Proof. destruct (CheckAlways b); [done|]. split; [|done]. intros H. by apply dflt_nonzero in H. Qed.
Create HintDb config.
#[export] Hint Resolve dflt_nonzero dflt_str_nonempty check_interval : config.

(** Whatever was decoded, parsing gives valid settings or an error. *)
Lemma parsers_valid ov addr cfg cfg' : ov < 2 ^ 63 → parseConfig cfg (parsers ov addr) = Ok cfg' → valid_Config cfg'.
Proof.
  intros Hov. unfold parseConfig, parsers, run_parsers. cbn [foldl mbind outcome_bind].
  unfold parseFSConfig, run_parsers. cbn [foldl mbind outcome_bind parseRootConfig parseServiceConfig parseFuseConfig].
  unfold parseBackgroundFetchConfig. cbv zeta. cbn.
  match goal with |- context [(dflt_str ?d ?s =? "oldest")%string] => set (pol := dflt_str d s) end.
  destruct (pol =? "oldest")%string eqn:E1; [|destruct (pol =? "newest")%string eqn:E2; [|done]];
    cbn; unfold parseParallelConfig; cbn;
    (destruct (parseSize _ _) as [sz|e|] eqn:Es; [|done|done]); cbn; intros [= <-];
    apply (parseSize_range _ _ _ Hov) in Es; rewrite ?String.eqb_eq in *;
    split; cbn; rewrite ?E1, ?E2; split_and?; auto 6 with config; zcases.
Qed.

(** The default configuration, as [config/config.toml] lists it. *)
Definition default_Config (addr : string) : Config := mkConfig
  (mkService
    (mkFS "" "" 0 false false 100 false 30 60 (mkHttp (mkTimeout 3000 3000 300000) (mkRetry 8 30 300000))
       (mkBlob 60 300 8 30 300000 false false 0) (mkDirCache 0 0 false true) (mkFuse 1 1 1 false)
       (mkBg false 30000 500 300 "newest" 10) (mkStore "soci" addr) (mkPrefetch false 0))
    (mkPullModes false true (mkParallel (mkParallelConfig (-1) 3 "" (-1) (-1) 1 ∅ false) false false))
    (mkKube false "") (mkCRI false "/run/containerd/containerd.sock") (mkResolver ∅ 3600 false) (mkSnapshotter 0 false))
  "" "tcp" false "" "db" false 0 false.

Lemma NewConfig_default ov addr : NewConfig ov addr = Some (default_Config addr).
Proof. reflexivity. Qed.

Lemma default_Config_valid addr : valid_Config (default_Config addr).
Proof. split; cbn; split_and?; try done; auto. Qed.

Section load.
Context (ov : Z) (addr : string) {File : Type} (os_Open : string → outcome File) (IsNotExist : error → bool)
  (toml_Decode : File → Config → outcome Config).
#[local] Abbreviation load := (NewConfigFromToml ov addr os_Open IsNotExist toml_Decode).

Lemma load_inv path r : load path = Ok r →
  (∃ e, os_Open path = Err e ∧ IsNotExist e = true ∧ path = DefaultConfigPath ∧ r = Some (default_Config addr)) ∨
  ∃ f cfg cfg', os_Open path = Ok f ∧ toml_Decode f (default_Config addr) = Ok cfg ∧
    parseConfig cfg (parsers ov addr) = Ok cfg' ∧ r = Some cfg'.
Proof.
  unfold NewConfigFromToml. rewrite NewConfig_default. destruct (os_Open path) as [f|e|]; [|..|done].
  - destruct (toml_Decode f (default_Config addr)) as [cfg|e|] eqn:Ed; [|done..]. cbn.
    destruct (parseConfig cfg (parsers ov addr)) as [cfg'|e|] eqn:Ep; [|done..]. cbn. intros [= <-]. right. eauto 10.
  - destruct (IsNotExist e) eqn:Ee; [|done]. cbn. destruct (String.eqb_spec path DefaultConfigPath) as [->|]; [|done].
    intros [= <-]. left. eauto.
Qed.

(** Whatever the file says, a configuration that loads is there and its settings are ones of
    [valid_Config]: the timeouts of mounts, of the kernel's caches and of HTTP requests and the
    periods and queue of the background fetcher are not zero, its drop policy is one it knows,
    the limits on concurrency of the service and of prefetching are not negative, the interval
    is zero just for blobs that are always checked, and the chunk size is unbounded or positive.
    The limits of parallel pulls (where negative means unlimited) and the timeouts of mirrors are
    taken as they are. *)
Theorem loaded_config_valid path r : ov < 2 ^ 63 → load path = Ok r → ∃ cfg, r = Some cfg ∧ valid_Config cfg.
Proof.
  intros Hov [(e & _ & _ & _ & ->)|(f & cfg & cfg' & _ & _ & Hp & ->)]%load_inv; eexists; (split; [done|]).
  - apply default_Config_valid.
  - by eapply parsers_valid.
Qed.

(** The retries of the file's [http] table never reach blobs: the default configuration the file
    is decoded over has those of blobs set already, so the parser has nothing to fill in. *)
Lemma http_retries_not_inherited path f cfg cfg' : os_Open path = Ok f → toml_Decode f (default_Config addr) = Ok cfg →
  fs_blob (svc_fs (cfg_service cfg)) = fs_blob (svc_fs (cfg_service (default_Config addr))) →
  load path = Ok (Some cfg') →
  let b := fs_blob (svc_fs (cfg_service cfg')) in
  blob_MaxRetries b = defaultMaxRetries ∧ blob_MinWaitMsec b = defaultMinWaitMsec ∧ blob_MaxWaitMsec b = defaultMaxWaitMsec.
Proof.
  intros Ho Hd Hb [(e & Ho' & _)|(f' & cfg1 & cfg2 & Ho' & Hd' & Hp & Hr)]%load_inv; [congruence|].
  assert (f' = f ∧ cfg2 = cfg') as [-> ->] by (split; congruence). assert (cfg1 = cfg) as -> by congruence.
  revert Hp. unfold parseConfig, parsers, run_parsers. cbn [foldl mbind outcome_bind].
  unfold parseFSConfig, run_parsers. cbn [foldl mbind outcome_bind parseRootConfig parseServiceConfig parseFuseConfig].
  unfold parseBackgroundFetchConfig. cbv zeta. cbn. destruct (_ || _); [|done]. cbn. unfold parseParallelConfig. cbn.
  destruct (parseSize _ _) as [sz|e|]; [|done..]. cbn. intros [= <-]. cbn. by rewrite Hb.
Qed.
End load.
