(* ===== verification/ResolverClient.v ===== *)
(** * Clients for registries

    Models [service/resolver/client.go]: the retrying client made from the configuration, its
    backoff, retry and error hooks, the policy that decides which responses call for
    authentication, and the handler of challenges, which goroutines share.  The functions of
    [go-retryablehttp] and of containerd's [docker] package are parameters. *)
From Stdlib Require Import ZArith Lia Ascii.
From stdpp Require Import base list gmap strings.
From S2P Require Import Prelude GoLib HttpUtil HttpAuth Config.
#[local] Open Scope Z_scope.

(** ** Retrying clients *)
(** A hook: the one of the package, or the one of this file. *)
Inductive hook := Stock | Soci.

Record Transport := mkTransport { DialTimeout : Z; ResponseHeaderTimeout : Z }.
Record RetryClient := mkRetryClient {
  Logger : bool;
  RetryMax : Z;
  RetryWaitMin : Z;
  RetryWaitMax : Z;
  Backoff : hook;
  CheckRetry : hook;
  ErrorHandler : hook;
  http_ClientTimeout : Z;                 (* [HTTPClient.Timeout] *)
  http_Transport : option Transport       (* [HTTPClient.Transport], when it is an [*http.Transport] *)
}.

(** [time.Duration(x) * time.Millisecond] *)
Definition msec (x : Z) : Z := int64 (x * 1000000).
Definition sec (x : Z) : Z := int64 (x * 1000000000).

Section clients.
Context (rhttp_NewClient : RetryClient).

Definition newRetryableClientFromConfig (config : RetryableHTTPClientConfig) : RetryClient :=
  mkRetryClient false (MaxRetries (http_Retry config)) (msec (MinWaitMsec (http_Retry config))) (msec (MaxWaitMsec (http_Retry config)))
    Soci Soci Soci (msec (RequestTimeoutMsec (http_Timeout config)))
    ((λ _, mkTransport (msec (DialTimeoutMsec (http_Timeout config))) (msec (ResponseHeaderTimeoutMsec (http_Timeout config))))
       <$> http_Transport rhttp_NewClient).

Definition CloneRetryableClient (c : RetryClient) : RetryClient :=
  mkRetryClient (Logger c) (RetryMax c) (RetryWaitMin c) (RetryWaitMax c) (Backoff c) (CheckRetry c) (ErrorHandler c)
    (http_ClientTimeout rhttp_NewClient) (http_Transport rhttp_NewClient).
End clients.

(** ** Backoff *)
Section backoff.
(** [rand.Int64N(n)]: some number below [n]; panics when there is none. *)
Context (random : Z → Z).
Definition Int64N (n : Z) : outcome Z := if n <=? 0 then Panic else Ok (random n).

Definition jitter (duration divisor : Z) : outcome Z :=
  n ← go_div duration divisor;
  r ← Int64N n;
  Ok (int64 (r + duration)).

Context (DefaultBackoff : Z → Z → Z → option Response → Z).
Definition backoffStrategy (minDuration maxDuration attemptNum : Z) (resp : option Response) : outcome Z :=
  jitter (DefaultBackoff minDuration maxDuration attemptNum resp) 8.

(** The delay is put off by less than an eighth of it, unless it is below eight nanoseconds: then
    no random number is left to choose, and the goroutine panics. *)
Lemma jitter_spec d : in_int64 d → (∀ n, 0 < n → 0 ≤ random n < n) → in_int64 (d + d `div` 8) →
  if d <? 8 then jitter d 8 = Panic
  else ∃ r, jitter d 8 = Ok r ∧ d ≤ r < d + d `div` 8.
Proof.
  intros Hd Hr Hs. unfold jitter, go_div, Int64N. replace (8 =? 0) with false by done. cbn [mbind outcome_bind].
  destruct (Z.ltb_spec d 8) as [Hlt|Hge].
  - replace (Z.quot d 8 <=? 0) with true; [done|]. symmetry. apply Z.leb_le.
    Z.to_euclidean_division_equations; lia.
  - rewrite Z.quot_div_nonneg by lia. assert (0 < d `div` 8) as Hp by (apply Z.div_str_pos; lia).
    replace (d `div` 8 <=? 0) with false by lia. cbn. specialize (Hr _ Hp). eexists. split; [reflexivity|].
    rewrite int64_id by (unfold in_int64 in *; lia). lia.
Qed.
End backoff.

(** ** Retries and errors *)
(** A string between double quotes. *)
Definition quoted (s : string) : string := String "034"%char (s +:+ String "034"%char "").

Section errors.
Context `{GoSort, NetURL, UrlErrors}.
Context (DefaultRetryPolicy : option Response → option error → bool * option error).

Definition retryStrategy (resp : option Response) (err : option error) : bool * option error :=
  let '(retry, err2) := DefaultRetryPolicy resp err in
  (retry, RedactHTTPQueryValuesFromError err2).

(** The request of a response: its method and, unless nil, its URL. *)
Definition handleHTTPError (resp_request : option (string * option URL)) (err : option error) (attempts : Z)
    (show : Z → string) : error :=
  let '(method, url) :=
    match resp_request with
    | Some (m, Some u) => (m, url_Redacted (redact_URL u))
    | Some (m, None) => (m, "unknown")
    | None => ("unknown", "unknown")
    end%string in
  let msg := (method +:+ " " +:+ quoted url +:+ ": giving up request after " +:+ show attempts +:+ " attempt(s)")%string in
  match RedactHTTPQueryValuesFromError err with
  | None => ErrorString msg
  | Some e => Wrap msg e
  end.
End errors.

(** ** Which responses call for authentication *)
Definition ecrTokenExpiredResponseMessage : string :=
  "Your authorization token has expired. Reauthenticate and try again.".
Definition s3TokenExpiredResponseCode : string := "ExpiredToken".

Section policy.
(** [docker.Errors] from JSON, with the message of each that is a [docker.Error]; the code of an
    error of S3 from XML. *)
Context (docker_Errors : bytes → option (list (option string))) (s3_Error : bytes → option string).

Definition with_body (b : Body) (r : Response) : Response :=
  mkResp (StatusCode r) (Status r) (respHeader r) b (respRequest r).
(** The body is read, and replaced by what was read. *)
Definition reread (r : Response) : Response := with_body (mkBody (content (respBody r)) None) r.

Definition add_challenge (r : Response) : Response :=
  let h := default ∅ (respHeader r) in
  let h' := match h !! "Www-Authenticate" with
    | Some _ => h
    | None =>
        let realm := match respRequest r with Some u => "https://" +:+ Host u +:+ "/" | None => "" end%string in
        <["Www-Authenticate" := [("Basic realm=" +:+ quoted realm +:+ ",service=" +:+ quoted "ecr.amazonaws.com")%string]]> h
    end in
  mkResp (StatusCode r) (Status r) (Some h') (respBody r) (respRequest r).

Lemma add_challenge_header r : ∃ h, respHeader (add_challenge r) = Some h ∧ is_Some (h !! "Www-Authenticate"%string).
Proof.
  unfold add_challenge. cbv zeta. eexists. split; [reflexivity|].
  destruct (default ∅ (respHeader r) !! "Www-Authenticate"%string) eqn:E; [by rewrite E|].
  rewrite lookup_insert_eq. by eexists.
Qed.

Definition shouldAuthenticate (resp : Response) : bool * Response :=
  if StatusCode resp =? StatusUnauthorized then (true, resp)
  else if StatusCode resp =? StatusForbidden then
    match readErr (respBody resp), docker_Errors (content (respBody resp)) with
    | None, Some errs =>
        if existsb (λ m, bool_decide (m = Some ecrTokenExpiredResponseMessage)) errs
        then (true, add_challenge (reread resp)) else (false, reread resp)
    | _, _ => (false, reread resp)
    end
  else if StatusCode resp =? StatusBadRequest then
    if (default "" (respHeader resp ≫= λ h, h !! "Content-Type" ≫= head) =? "application/xml")%string then
      match readErr (respBody resp), s3_Error (content (respBody resp)) with
      | None, Some code =>
          if (code =? s3TokenExpiredResponseCode)%string then
            (false, mkResp StatusUnauthorized "401 Unauthorized" (respHeader resp) (mkBody (content (respBody resp)) None) (respRequest resp))
          else (false, reread resp)
      | _, _ => (false, reread resp)
      end
    else (false, resp)
  else (false, resp).

(** A response calls for authentication just when it is a 401, or a 403 whose body says that
    the token has expired; it then carries a challenge if it is a 403. An expired URL of S3 turns
    into a 401 that is not answered. The caller can still read the body either way. *)
Theorem shouldAuthenticate_spec resp :
  let '(b, resp') := shouldAuthenticate resp in
  content (respBody resp') = content (respBody resp) ∧ respRequest resp' = respRequest resp ∧
  (b = true ↔ StatusCode resp = 401 ∨
    (StatusCode resp = 403 ∧ readErr (respBody resp) = None ∧
     ∃ errs, docker_Errors (content (respBody resp)) = Some errs ∧ Some ecrTokenExpiredResponseMessage ∈ errs)) ∧
  (b = true → StatusCode resp = 403 → ∃ h, respHeader resp' = Some h ∧ is_Some (h !! "Www-Authenticate"%string)) ∧
  (StatusCode resp' ≠ StatusCode resp ↔
    (StatusCode resp = 400 ∧ (default "" (respHeader resp ≫= λ h, h !! "Content-Type" ≫= head) = "application/xml")%string ∧
     readErr (respBody resp) = None ∧ s3_Error (content (respBody resp)) = Some s3TokenExpiredResponseCode)) ∧
  (StatusCode resp' ≠ StatusCode resp → StatusCode resp' = 401).
Proof.
  assert (∀ errs : list (option string), existsb (λ m, bool_decide (m = Some ecrTokenExpiredResponseMessage)) errs = true ↔
    Some ecrTokenExpiredResponseMessage ∈ errs) as Hex.
  { intros errs. rewrite existsb_exists. setoid_rewrite bool_decide_eq_true. setoid_rewrite <-list_elem_of_In. naive_solver. }
  unfold shouldAuthenticate, StatusUnauthorized, StatusForbidden, StatusBadRequest. destruct resp as [st stat hd [body re] ru]. cbn.
  destruct (Z.eqb_spec st 401) as [->|]; [cbn; naive_solver lia|].
  destruct (Z.eqb_spec st 403) as [->|].
  - destruct re as [e|]; [cbn; naive_solver lia|]. destruct (docker_Errors body) as [errs|]; [|cbn; naive_solver lia].
    specialize (Hex errs). destruct (existsb _ errs); [|cbn; naive_solver].
    pose proof (add_challenge_header (reread (mkResp 403 stat hd (mkBody body None) ru))) as Hh.
    split; [done|]. split; [done|]. cbn [StatusCode] in *. naive_solver lia.
  - destruct (Z.eqb_spec st 400) as [->|]; [|cbn; naive_solver lia].
    destruct (String.eqb_spec (default "" (hd ≫= λ h, h !! "Content-Type" ≫= head)) "application/xml"); [|cbn; naive_solver lia].
    destruct re as [e'|]; [cbn; naive_solver lia|]. destruct (s3_Error body) as [code|]; [|cbn; naive_solver lia].
    destruct (String.eqb_spec code s3TokenExpiredResponseCode) as [->|]; cbn; naive_solver lia.
Qed.
End policy.

(** ** Contexts *)
Section scope.
(** [docker.GetTokenScopes(ctx, nil)] and [docker.WithScope(context.Background(), s)]. *)
Context {Ctx : Type} (GetTokenScopes : Ctx → list string) (WithScope_Background : string → Ctx).
Definition newContextWithScope (origReqCtx : Ctx) : Ctx :=
  WithScope_Background (String.concat "" (GetTokenScopes origReqCtx)).

(** One scope is carried over; of several, one remains that is none of them. *)
Lemma scope_carried ctx s : (∀ s, GetTokenScopes (WithScope_Background s) = [s]) → GetTokenScopes ctx = [s] →
  GetTokenScopes (newContextWithScope ctx) = [s].
Proof. intros Hw Hs. unfold newContextWithScope. by rewrite Hw, Hs. Qed.
Lemma scopes_glued ctx s t : (∀ s, GetTokenScopes (WithScope_Background s) = [s]) → GetTokenScopes ctx = [s; t] →
  GetTokenScopes (newContextWithScope ctx) = [(s +:+ t)%string].
Proof. intros Hw Hs. unfold newContextWithScope. by rewrite Hw, Hs. Qed.
End scope.

(** ** The client of a registry *)
Section auth_client.
Context {Ctx W : Type} (Background : Ctx) (rhttp_NewClient : RetryClient).
Context (docker_Errors : bytes → option (list (option string))) (s3_Error : bytes → option string).
Context (GetTokenScopes : Ctx → list string) (WithScope_Background : string → Ctx).

(** [newDockerAuthHandler]: [h] hands challenges and requests to containerd's authorizer. *)
Definition newAuthClient (retryClient : RetryClient) (header : gmap string (list string)) (h : AuthHandler Ctx W) :
    outcome (AuthClient Ctx RetryClient W) :=
  NewAuthClient Background rhttp_NewClient (Some h)
    [WithRetryableClient retryClient; WithAuthPolicy (shouldAuthenticate docker_Errors s3_Error); WithHeader header;
     WithAuthRequestCtxFunc (newContextWithScope GetTokenScopes WithScope_Background)].

(** It is made without error, and repeats challenged requests in the scope they had; its clones,
    which mirrors with a timeout of their own and parallel pulls use, repeat them in none. *)
Lemma clones_forget_scope retryClient header h c : ∃ ac, newAuthClient retryClient header h = Ok ac ∧
  getAuthCtx ac = Some (newContextWithScope GetTokenScopes WithScope_Background) ∧
  getAuthCtx (CloneWithNewClient Background rhttp_NewClient c ac) = Some (λ _, Background).
Proof. by eexists. Qed.
(** A clone waits as long as the configuration says between attempts, but has the timeouts of a
    client that was not configured. *)
Lemma clones_forget_timeouts config :
  let c := CloneRetryableClient rhttp_NewClient (newRetryableClientFromConfig rhttp_NewClient config) in
  RetryMax c = MaxRetries (http_Retry config) ∧ http_ClientTimeout c = http_ClientTimeout rhttp_NewClient ∧
  http_Transport c = http_Transport rhttp_NewClient.
Proof. done. Qed.
End auth_client.

(** ** Challenges handled once

    [HandleChallenge] of goroutines that share a [dockerAuthHandler], one step per critical
    section, channel operation or read of a shared field. *)
Module Challenge.

Inductive pc :=
| Calling
| Waiting (ch : nat)                         (* at [<-ch] *)
| Woken (ch : nat)                           (* about to read [d.inflightErr], unlocked *)
| Fetching                                   (* in [AddResponses] *)
| Fetched (e : option error)
| Returned (waited : option nat) (e : option error).
#[global] Instance pc_eq_dec : EqDecision pc.
Proof. solve_decision. Defined.

Record state := mk {
  inflight : bool;
  inflightErr : option error;
  inflightCh : nat;
  chans : list bool;               (* the channels made, closed or not *)
  goroutines : list pc;
  crashed : bool;                  (* a closed channel was closed again *)
  finished : list (option error)   (* what [AddResponses] returned, oldest first; for the specification *)
}.
Definition start : state := mk false None 0 [] [] false [].

Inductive ev :=
| Call
| Enter (i : nat)
| AddResponses (i : nat) (e : option error)
| Finish (i : nat)
| Wake (i : nat)
| Read (i : nat)
| Cancel (i : nat) (e : error).

Definition goto (i : nat) (p : pc) (s : state) : state :=
  mk (inflight s) (inflightErr s) (inflightCh s) (chans s) (<[i := p]> (goroutines s)) (crashed s) (finished s).

(** A step, if the goroutine is at it. *)
Definition step (e : ev) (s : state) : option state :=
  match e with
  | Call => Some (mk (inflight s) (inflightErr s) (inflightCh s) (chans s) (goroutines s ++ [Calling]) (crashed s) (finished s))
  | Enter i =>
      match goroutines s !! i with
      | Some Calling =>
          if inflight s then Some (goto i (Waiting (inflightCh s)) s)
          else Some (goto i Fetching (mk true (inflightErr s) (length (chans s)) (chans s ++ [false]) (goroutines s) (crashed s) (finished s)))
      | _ => None
      end
  | AddResponses i r => match goroutines s !! i with Some Fetching => Some (goto i (Fetched r) s) | _ => None end
  | Finish i =>
      match goroutines s !! i with
      | Some (Fetched r) =>
          Some (goto i (Returned None r)
            (mk false r (inflightCh s) (<[inflightCh s := true]> (chans s)) (goroutines s)
               (crashed s || bool_decide (chans s !! inflightCh s ≠ Some false)) (finished s ++ [r])))
      | _ => None
      end
  | Wake i =>
      match goroutines s !! i with
      | Some (Waiting ch) => if bool_decide (chans s !! ch = Some true) then Some (goto i (Woken ch) s) else None
      | _ => None
      end
  | Read i => match goroutines s !! i with Some (Woken ch) => Some (goto i (Returned (Some ch) (inflightErr s)) s) | _ => None end
  | Cancel i e => match goroutines s !! i with Some (Waiting _) => Some (goto i (Returned None (Some e)) s) | _ => None end
  end.

Fixpoint run (es : list ev) (s : state) : option state :=
  match es with [] => Some s | e :: es => step e s ≫= run es end.

Inductive reachable : state → Prop :=
| reach_start : reachable start
| reach_step s e s' : reachable s → step e s = Some s' → reachable s'.

Definition busy (p : pc) : Prop := match p with Fetching | Fetched _ => True | _ => False end.

(** What a goroutine may be doing. *)
Definition pc_ok (s : state) (p : pc) : Prop :=
  match p with
  | Waiting ch => (ch < length (chans s))%nat
  | Woken ch => (ch < length (finished s))%nat
  | Returned (Some ch) e => ∃ k, (ch ≤ k)%nat ∧ finished s !! k = Some e
  | _ => True
  end.

(** At most one goroutine fetches, and one does if [b]. *)
Definition solo (b : bool) (gs : list pc) : Prop :=
  (∀ i j p q, gs !! i = Some p → gs !! j = Some q → busy p → busy q → i = j) ∧
  (b = true ↔ ∃ i p, gs !! i = Some p ∧ busy p).

Record inv (s : state) : Prop := {
  inv_crash : crashed s = false;
  inv_chans : chans s = replicate (length (finished s)) true ++ (if inflight s then [false] else []);
  inv_ch : inflight s = true → inflightCh s = length (finished s);
  inv_err : finished s = [] ∨ last (finished s) = Some (inflightErr s);
  inv_solo : solo (inflight s) (goroutines s);
  inv_pc : Forall (pc_ok s) (goroutines s)
}.

Lemma lookup_insert_inv {A} (l : list A) i j x y : <[i := x]> l !! j = Some y → (j = i ∧ y = x) ∨ (j ≠ i ∧ l !! j = Some y).
Proof. intros [(-> & -> & _)|[? ?]]%list_lookup_insert_Some; auto. Qed.

Lemma solo_app b gs p : ¬ busy p → solo b gs → solo b (gs ++ [p]).
Proof.
  intros Hp [Hu Hb].
  assert (∀ i q, (gs ++ [p]) !! i = Some q → busy q → gs !! i = Some q) as Hi.
  { intros i q [?|[_ Hq]]%lookup_app_Some Hbq; [done|]. apply list_lookup_singleton_Some in Hq as [_ <-]. done. }
  split; [intros i j x y Hx Hy ??; eauto|]. rewrite Hb. split; intros (i & q & Hq & ?); exists i, q; split; auto.
  by apply lookup_app_l_Some.
Qed.
Lemma solo_same b gs i p q : gs !! i = Some p → (busy p ↔ busy q) → solo b gs → solo b (<[i := q]> gs).
Proof.
  intros Hi Hpq [Hu Hb]. pose proof (lookup_lt_Some _ _ _ Hi) as Hlt.
  assert (∀ j x, <[i := q]> gs !! j = Some x → busy x → ∃ y, gs !! j = Some y ∧ busy y) as Hback.
  { intros j x [[-> ->]|[? Hx]]%lookup_insert_inv Hbx; [exists p; tauto|by exists x]. }
  split.
  - intros j k x y Hx Hy Hbx Hby. destruct (Hback _ _ Hx Hbx) as (x' & ? & ?), (Hback _ _ Hy Hby) as (y' & ? & ?). eauto.
  - rewrite Hb. split; intros (j & x & Hx & Hbx); [|destruct (Hback _ _ Hx Hbx) as (y & ? & ?); eauto].
    destruct (decide (j = i)) as [->|]; [exists i, q; simplify_eq; rewrite list_lookup_insert_eq by done; tauto|].
    exists j, x. by rewrite list_lookup_insert_ne.
Qed.
Lemma solo_start gs i q : solo false gs → (i < length gs)%nat → busy q → solo true (<[i := q]> gs).
Proof.
  intros [_ Hb] Hi Hq. assert (∀ j x, gs !! j = Some x → ¬ busy x) as Hn.
  { intros j x Hj Hx. assert (false = true) by (apply Hb; eauto). done. }
  split; [|split; [|done]].
  - intros j k x y [[-> ->]|[? Hx]]%lookup_insert_inv [[-> ->]|[? Hy]]%lookup_insert_inv ??; naive_solver.
  - intros _. exists i, q. by rewrite list_lookup_insert_eq.
Qed.
Lemma solo_stop b gs i p q : solo b gs → gs !! i = Some p → busy p → ¬ busy q → solo false (<[i := q]> gs).
Proof.
  intros [Hu _] Hi Hp Hq. assert (∀ j x, <[i := q]> gs !! j = Some x → ¬ busy x) as Hn.
  { intros j x [[-> ->]|[? Hx]]%lookup_insert_inv; [done|]. intros Hbx. eauto. }
  split; [naive_solver|]. split; [done|]. intros (j & x & Hx & Hbx). by destruct (Hn _ _ Hx).
Qed.
Lemma solo_busy b gs i p : solo b gs → gs !! i = Some p → busy p → b = true.
Proof. intros [_ Hb] Hi Hp. apply Hb. eauto. Qed.

Lemma pc_ok_mono s s' p : (length (chans s) ≤ length (chans s'))%nat → finished s `prefix_of` finished s' →
  pc_ok s p → pc_ok s' p.
Proof.
  intros Hc Hf. pose proof (prefix_length _ _ Hf). destruct p as [|ch|ch| |e|[ch|] e]; cbn; try done; try lia.
  intros (k & Hk & He). exists k. split; [done|]. by eapply prefix_lookup_Some.
Qed.
Lemma Forall_pc_insert s s' i p gs : (length (chans s) ≤ length (chans s'))%nat → finished s `prefix_of` finished s' →
  Forall (pc_ok s) gs → pc_ok s' p → Forall (pc_ok s') (<[i := p]> gs).
Proof. intros. apply Forall_insert; [|done]. eapply list.Forall_impl; [done|]. intros. by eapply pc_ok_mono. Qed.

Lemma step_inv e s s' : inv s → step e s = Some s' → inv s'.
Proof.
  intros [Hcr Hch Hci He Hs Hp] H. assert (∀ i p, goroutines s !! i = Some p → pc_ok s p) as Hpc by by apply Forall_lookup.
  destruct e as [|i|i r|i|i|i|i e]; cbn [step] in H; [|destruct (goroutines s !! i) as [p|] eqn:Hi; [|done]; pose proof (Hpc _ _ Hi) as Hpi;
    pose proof (lookup_lt_Some _ _ _ Hi); destruct p; try done..].
  - injection H as <-. split; cbn; try done; [by apply solo_app; [intros []|]|]. apply list.Forall_app. by repeat constructor.
  - destruct (inflight s) eqn:Ef; injection H as <-; split; cbn; try done.
    + by rewrite Ef.
    + by rewrite Ef.
    + rewrite Ef. by eapply solo_same.
    + eapply Forall_pc_insert; [..|exact Hp|]; [done|done|]. cbn. rewrite Hch, Hci, length_app, length_replicate by done. cbn. lia.
    + by rewrite Hch, app_nil_r.
    + intros _. by rewrite Hch, app_nil_r, length_replicate.
    + by apply solo_start.
    + eapply Forall_pc_insert; [..|exact Hp|done]; [cbn; rewrite length_app; cbn; lia|done].
  - injection H as <-. split; cbn; try done; [by eapply solo_same|by eapply Forall_pc_insert].
  - assert (inflight s = true) as Ef by by eapply solo_busy. rewrite Ef in *. specialize (Hci eq_refl).
    injection H as <-. split; cbn; try done.
    + rewrite Hcr, Hch, Hci. cbn. rewrite lookup_app_r, length_replicate, Nat.sub_diag by (by rewrite length_replicate). done.
    + rewrite Hch, Hci, length_app, insert_app_r_alt, length_replicate, Nat.sub_diag by (by rewrite length_replicate).
      cbn. by rewrite replicate_add, app_nil_r.
    + right. by rewrite last_snoc.
    + eapply solo_stop; [exact Hs|exact Hi|done|by intros []].
    + eapply Forall_pc_insert; [..|exact Hp|done]; [cbn; by rewrite length_insert|by apply prefix_app_r].
  - destruct (bool_decide_reflect (chans s !! ch = Some true)) as [Hcl|]; [|done]. injection H as <-.
    split; cbn; try done; [by eapply solo_same|]. eapply Forall_pc_insert; [..|exact Hp|]; [done..|]. cbn.
    rewrite Hch in Hcl. apply lookup_app_Some in Hcl as [[_ Hl]%lookup_replicate_1|[_ Hl]]; [done|].
    destruct (inflight s); [|done]. by apply list_lookup_singleton_Some in Hl as [_ ?].
  - injection H as <-. split; cbn; try done; [by eapply solo_same|]. eapply Forall_pc_insert; [..|exact Hp|]; [done..|]. cbn in *.
    destruct He as [He|He]; [rewrite He in Hpi; cbn in Hpi; lia|]. rewrite last_lookup in He.
    exists (Nat.pred (length (finished s))). split; [lia|done].
  - injection H as <-. split; cbn; try done; [by eapply solo_same|by eapply Forall_pc_insert].
Qed.

Lemma reachable_inv s : reachable s → inv s.
Proof.
  induction 1 as [|s e s' _ IH H]; [|by eapply step_inv].
  split; cbn; try done; [by left|split; [done|split; [done|by intros (? & ? & ? & ?)]]].
Qed.

Lemma run_app es es' s : run (es ++ es') s = run es s ≫= run es'.
Proof. revert s. induction es as [|e es IH]; intros s; [done|]. cbn. destruct (step e s); [apply IH|done]. Qed.
Lemma run_reachable es s s' : reachable s → run es s = Some s' → reachable s'.
Proof.
  revert s. induction es as [|e es IH]; cbn; intros s Hs H; [by simplify_eq|].
  destruct (step e s) as [s1|] eqn:E; [|done]. eapply IH; [|done]. by eapply reach_step.
Qed.

(** What the fetching goroutine has left to do. *)
Definition finishing (j : nat) (r : option error) (p : pc) : list ev :=
  match p with Fetching => [AddResponses j r; Finish j] | _ => [Finish j] end.

Lemma finishing_wakes s i j ch p r : inv s → goroutines s !! i = Some (Waiting ch) → chans s !! ch = Some false →
  goroutines s !! j = Some p → busy p → ∃ s', run (finishing j r p ++ [Wake i]) s = Some s'.
Proof.
  intros Hinv Hi Hcl Hj Hb. pose proof (solo_busy _ _ _ _ (inv_solo s Hinv) Hj Hb) as Ef.
  assert (inflightCh s = ch) as Hch.
  { rewrite (inv_ch s Hinv Ef). rewrite (inv_chans s Hinv), Ef in Hcl.
    apply lookup_app_Some in Hcl as [[? ?]%lookup_replicate_1|[Hle Hl]]; [done|].
    apply list_lookup_singleton_Some in Hl as [Hl _]. rewrite length_replicate in *. lia. }
  assert (i ≠ j) as Hij by (intros ->; by simplify_eq).
  pose proof (lookup_lt_Some _ _ _ Hj). pose proof (lookup_lt_Some _ _ _ Hcl).
  destruct p; try done; cbn; rewrite Hj; cbn; rewrite ?list_lookup_insert_eq by done; cbn;
    rewrite ?list_insert_insert_eq; rewrite list_lookup_insert_ne, Hi by done; cbn; rewrite Hch, list_lookup_insert_eq by done;
    by eexists.
Qed.

(** C15: Whatever goroutines do: at most one at a time fetches a token, no channel is closed twice,
    and none waits in vain: the channel of a waiting goroutine is closed, or a goroutine is
    fetching whose return closes it, whatever the fetch returns. What a goroutine that waited
    returns is what a fetch returned that finished no earlier than the one it waited for. *)
Theorem challenge_single_flight s : reachable s →
  crashed s = false ∧
  (∀ i j p q, goroutines s !! i = Some p → goroutines s !! j = Some q → busy p → busy q → i = j) ∧
  (∀ i ch, goroutines s !! i = Some (Waiting ch) →
    is_Some (step (Wake i) s) ∨
    ∃ j p, goroutines s !! j = Some p ∧ busy p ∧ ∀ r, is_Some (run (finishing j r p ++ [Wake i]) s)) ∧
  (∀ i ch e, goroutines s !! i = Some (Returned (Some ch) e) → ∃ k, (ch ≤ k)%nat ∧ finished s !! k = Some e).
Proof.
  intros Hr%reachable_inv. pose proof Hr as [Hcr Hch _ _ [Hu Hf] Hp]. rewrite Forall_lookup in Hp.
  split; [done|]. split; [done|]. split; [|by intros i ch e ?%Hp].
  intros i ch Hi. destruct (lookup_lt_is_Some_2 _ _ (Hp _ _ Hi)) as [[] Hcl].
  - left. cbn [step]. rewrite Hi, bool_decide_true by done. by eexists.
  - right. assert (inflight s = true) as Ef.
    { destruct (inflight s); [done|]. rewrite Hch, app_nil_r in Hcl. by apply lookup_replicate_1 in Hcl as [? ?]. }
    apply Hf in Ef as (j & p & Hj & Hb). exists j, p. split; [done|]. split; [done|]. intros r.
    destruct (finishing_wakes s i j ch p r Hr Hi Hcl Hj Hb) as [s' Hs']. rewrite Hs'. by eexists.
Qed.

(** The fetch a goroutine waited for fails, a later one succeeds before it reads the error: it
    goes on as if its own had succeeded. *)
Lemma late_reader_misses_error : ∃ s,
  run [Call; Call; Enter 0; Enter 1; AddResponses 0 (Some io_EOF); Finish 0; Wake 1;
       Call; Enter 2; AddResponses 2 None; Finish 2; Read 1] start = Some s ∧
  finished s = [Some io_EOF; None] ∧ goroutines s !! 1%nat = Some (Returned (Some 0%nat) None).
Proof.
  exists (mk false None 1 [true; true] [Returned None (Some io_EOF); Returned (Some 0%nat) None; Returned None None] false
            [Some io_EOF; None]).
  split_and!; vm_compute; reflexivity.
Qed.
End Challenge.
