(* ===== verification/Registry.v ===== *)
(** * Registry hosts and their clients

    Models [service/resolver/registry.go]: the hosts that serve an image, each with a client that
    authenticates, cached per image for a while, and the sharing of clients between images of one
    registry with the same credentials.  Goroutines interleave at every access to a shared map,
    object or credential provider.  The providers, SHA-256 and containerd's [docker] and
    [reference] packages are parameters. *)
From Stdlib Require Import ZArith Lia.
From stdpp Require Import base list gmap strings.
From S2P Require Import Prelude GoLib Prog HttpUtil Config ResolverClient.
#[local] Open Scope Z_scope.
#[local] Open Scope prog_scope.

(** [reference.Spec] *)
Class Reference (Spec : Type) := {
  Hostname : Spec → string;
  spec_String : Spec → string
}.

(** ** Data *)
Record expiringEntry (V : Type) := mkEntry { value : V; createdAt : Z }.
Arguments mkEntry {V}.
Arguments value {V}.
Arguments createdAt {V}.

(** Whose credentials a client asks for. *)
Inductive credsOf (Spec : Type) := OfShared (sid : nat) | OfImage (ref : Spec).
Arguments OfShared {Spec}.
Arguments OfImage {Spec}.

(** An [AuthClient]: a reference to one is its index in the heap. *)
Record authClient (Spec : Type) := mkClient { ac_creds : credsOf Spec; ac_created : Z }.
Arguments mkClient {Spec}.
Arguments ac_creds {Spec}.
Arguments ac_created {Spec}.

(** The last two fields are for the specification: the key it is cached under, and the images
    that joined with the credentials each resolved to. *)
Record sharedAuthClient (Spec : Type) := mkShared {
  sh_client : nat;
  sh_refs : list Spec;
  sh_key : string;
  sh_joined : list (Spec * outcome (string * string))
}.
Arguments mkShared {Spec}.
Arguments sh_client {Spec}.
Arguments sh_refs {Spec}.
Arguments sh_key {Spec}.
Arguments sh_joined {Spec}.

(** A host: its client, with the retrying client it sends through, and whether it is a clone. *)
Record RegistryHost := mkHost {
  rh_client : nat;
  rh_retry : RetryClient;
  rh_cloned : bool;
  rh_Host : string;
  rh_Scheme : string;
  rh_Path : string
}.

Record registry (Spec Env : Type) := mkRegistry {
  registryHostMap : gmap string (expiringEntry (list RegistryHost));
  authClientMap : gmap string (expiringEntry nat);
  shareds : list (sharedAuthClient Spec);
  clients : list (authClient Spec);
  now : Z;
  env : Env                          (* what the credential providers look at *)
}.
Arguments mkRegistry {Spec Env}.
Arguments registryHostMap {Spec Env}.
Arguments authClientMap {Spec Env}.
Arguments shareds {Spec Env}.
Arguments clients {Spec Env}.
Arguments now {Spec Env}.
Arguments env {Spec Env}.

Section registry.
Context {Spec Env : Type} `{Reference Spec, NetURL}.
(** The fields of [RegistryManager] that do not change, and the functions of other packages. *)
Context (retryClient : RetryClient) (registryConfig : ResolverConfig) (creds : list (Env → Spec → string → outcome (string * string))).
Context (sha256_hex : string → string) (DefaultHost : string → outcome string) (IsLocalhost : string → bool)
  (rhttp_NewClient : RetryClient).
Abbreviation registry := (registry Spec Env).
Implicit Types (s : registry) (ref : Spec).

Definition authClientTTL : Z := sec (AuthClientTTLSec registryConfig).
Definition NewRegistryManager (t : Z) (e : Env) : registry := mkRegistry ∅ ∅ [] [] t e.

(** ** Expiry *)
Definition expired {V} (e : expiringEntry V) (t : Z) : bool :=
  (0 <? authClientTTL) && (authClientTTL <? t - createdAt e).

Definition set_hosts m s : registry := mkRegistry m (authClientMap s) (shareds s) (clients s) (now s) (env s).
Definition set_auths m s : registry := mkRegistry (registryHostMap s) m (shareds s) (clients s) (now s) (env s).

(** [loadUnexpired]: the map is read, the clock is read, an expired entry is deleted. *)
Definition loadUnexpired {V} (get : registry → gmap string (expiringEntry V))
    (set : gmap string (expiringEntry V) → registry → registry) (key : string) : prog registry (option V) :=
  do v := act (λ s, (Ok (get s !! key), s));
  match v with
  | None => Ret (Ok None)
  | Some e =>
      do t := act (λ s, (Ok (now s), s));
      if expired e t then do _ := act (λ s, (Ok (), set (delete key (get s)) s)); Ret (Ok None)
      else Ret (Ok (Some (value e)))
  end.

(** [sweep] over the entries that [Range] meets. *)
Fixpoint sweep_keys {V} (get : registry → gmap string (expiringEntry V))
    (set : gmap string (expiringEntry V) → registry → registry) (l : list (string * expiringEntry V)) : prog registry () :=
  match l with
  | [] => Ret (Ok ())
  | (k, e) :: l =>
      do t := act (λ s, (Ok (now s), s));
      do _ := (if expired e t then act (λ s, (Ok (), set (delete k (get s)) s)) else Ret (Ok ()));
      sweep_keys get set l
  end.
Definition sweep : prog registry () :=
  do l := act (λ s, (Ok (map_to_list (registryHostMap s)), s));
  do _ := sweep_keys registryHostMap set_hosts l;
  do l := act (λ s, (Ok (map_to_list (authClientMap s)), s));
  sweep_keys authClientMap set_auths l.

(** ** Credentials *)
Definition is_empty (c : string * string) : bool := (c.1 =? "")%string && (c.2 =? "")%string.

Fixpoint ask (fs : list (Env → Spec → string → outcome (string * string))) ref (host : string) : prog registry (string * string) :=
  match fs with
  | [] => Ret (Ok ("", ""))%string
  | f :: fs =>
      do c := act (λ s, (f (env s) ref host, s));
      if is_empty c then ask fs ref host else Ret (Ok c)
  end.
Definition multiCredsFuncs ref (host : string) : prog registry (string * string) := ask creds ref host.

Definition nul : string := String Ascii.zero "".
Definition fingerprint (c : string * string) : string := sha256_hex (c.1 +:+ nul +:+ c.2).
Definition key_of ref (c : outcome (string * string)) : string :=
  match c with
  | Ok c => "host" +:+ nul +:+ Hostname ref +:+ nul +:+ fingerprint c
  | _ => "ref" +:+ nul +:+ spec_String ref
  end.

(** The key, with what the providers gave. *)
Definition authClientKey ref : prog registry (string * outcome (string * string)) :=
  pbind (multiCredsFuncs ref (Hostname ref)) (λ o, match o with Panic => Ret Panic | _ => Ret (Ok (key_of ref o, o)) end).

(** [credsFunc] of a shared client: its images, newest first. *)
Fixpoint ask_refs (refs : list Spec) (host : string) : prog registry (string * string) :=
  match refs with
  | [] => Ret (Ok ("", ""))%string
  | r :: refs =>
      do c := multiCredsFuncs r host;
      if is_empty c then ask_refs refs host else Ret (Ok c)
  end.
Definition credsFunc (sid : nat) (host : string) : prog registry (string * string) :=
  do refs := act (λ s, (from_option (λ sh, Ok (sh_refs sh)) Panic (shareds s !! sid), s));
  ask_refs (reverse refs) host.

(** The credentials a client asks for when it is challenged by [host]. *)
Definition client_creds (cl : nat) (host : string) : prog registry (string * string) :=
  do c := act (λ s, (must (clients s !! cl), s));
  match ac_creds c with OfShared sid => credsFunc sid host | OfImage ref => multiCredsFuncs ref host end.

(** ** Clients *)
Definition new_client ref : ST registry nat := λ s,
  (Ok (length (clients s)),
   mkRegistry (registryHostMap s) (authClientMap s) (shareds s) (clients s ++ [mkClient (OfImage ref) (now s)]) (now s) (env s)).

(** A shared client and the client in it, which nobody else knows of yet. *)
Definition new_shared (key : string) : ST registry nat := λ s,
  (Ok (length (shareds s)),
   mkRegistry (registryHostMap s) (authClientMap s) (shareds s ++ [mkShared (length (clients s)) [] key []])
     (clients s ++ [mkClient (OfShared (length (shareds s))) (now s)]) (now s) (env s)).

Definition LoadOrStore (key : string) (e : expiringEntry nat) : ST registry nat := λ s,
  match authClientMap s !! key with
  | Some e' => (Ok (value e'), s)
  | None => (Ok (value e), set_auths (<[key := e]> (authClientMap s)) s)
  end.

(** Under the lock of the shared client; [c] is recorded for the specification. *)
Definition join_ref ref (c : outcome (string * string)) (sh : sharedAuthClient Spec) : sharedAuthClient Spec :=
  mkShared (sh_client sh)
    (if existsb (λ r, bool_decide (spec_String r = spec_String ref)) (sh_refs sh) then sh_refs sh else sh_refs sh ++ [ref])
    (sh_key sh) (sh_joined sh ++ [(ref, c)]).
Definition addRef (sid : nat) ref (c : outcome (string * string)) : ST registry () := λ s,
  (Ok (), mkRegistry (registryHostMap s) (authClientMap s) (alter (join_ref ref c) sid (shareds s)) (clients s) (now s) (env s)).

Definition shared_client ref : prog registry nat :=
  do kc := authClientKey ref;
  do cached := loadUnexpired authClientMap set_auths kc.1;
  do sid := match cached with
    | Some sid => Ret (Ok sid)
    | None =>
        do new := act (new_shared kc.1);
        do t := act (λ s, (Ok (now s), s));
        act (LoadOrStore kc.1 (mkEntry new t))
    end;
  do _ := act (addRef sid ref kc.2);
  act (λ s, (from_option (λ sh, Ok (sh_client sh)) Panic (shareds s !! sid), s)).

(** ** Hosts *)
Definition DefaultScheme (host : string) : string := if IsLocalhost host then "http" else "https".

Definition mirror_host (cl : nat) (mirror : MirrorConfig) : outcome RegistryHost :=
  match url_Parse (mirror_Host mirror) with
  | None => Err (ErrorString "failed to parse mirror host")
  | Some url =>
      host ← DefaultHost (Host url);
      let scheme := (if Insecure mirror then "http" else DefaultScheme host)%string in
      let path := (if (Path url =? "")%string then "/v2" else Path url)%string in
      (* seconds are compared with nanoseconds *)
      if negb (RequestTimeoutSec mirror =? 0) && negb (RequestTimeoutSec mirror =? http_ClientTimeout retryClient) then
        let c := CloneRetryableClient rhttp_NewClient retryClient in
        let timeout := if RequestTimeoutSec mirror <? 0 then 0 else sec (RequestTimeoutSec mirror) in
        Ok (mkHost cl (mkRetryClient (Logger c) (RetryMax c) (RetryWaitMin c) (RetryWaitMax c) (Backoff c) (CheckRetry c)
              (ErrorHandler c) timeout (http_Transport retryClient)) true host scheme path)
      else Ok (mkHost cl retryClient false host scheme path)
  end.

Fixpoint mirror_hosts (cl : nat) (ms : list MirrorConfig) : outcome (list RegistryHost) :=
  match ms with
  | [] => Ok []
  | m :: ms => h ← mirror_host cl m; hs ← mirror_hosts cl ms; Ok (h :: hs)
  end.

Definition hosts_of ref (cl : nat) : outcome (list RegistryHost) :=
  hs ← mirror_hosts cl (default [] (resolver_Host registryConfig !! Hostname ref));
  host ← DefaultHost (Hostname ref);
  Ok (hs ++ [mkHost cl retryClient false host (DefaultScheme host) "/v2"]).

(** [AsRegistryHosts()(imgRefSpec)] *)
Definition AsRegistryHosts ref : prog registry (list RegistryHost) :=
  do cached := loadUnexpired registryHostMap set_hosts (spec_String ref);
  match cached with
  | Some hosts => Ret (Ok hosts)
  | None =>
      do cl := (if EnableAuthClientSharing registryConfig then shared_client ref else act (new_client ref));
      do hosts := Ret (hosts_of ref cl);
      do t := act (λ s, (Ok (now s), s));
      do _ := act (λ s, (Ok (), set_hosts (<[spec_String ref := mkEntry hosts t]> (registryHostMap s)) s));
      Ret (Ok hosts)
  end.
End registry.
