(* ===== verification/RegistryFacts.v ===== *)
(** * What images share a client

    Under any interleaving of lookups, sweeps, passing of time and changes of credentials: the
    clients of an image's hosts were made for that image, or are shared with images of the same
    registry that resolved to credentials with the same fingerprint. *)
From Stdlib Require Import ZArith Lia.
From stdpp Require Import base list gmap strings.
From S2P Require Import Prelude GoLib Prog HttpUtil Config ResolverClient Registry.
#[local] Open Scope Z_scope.
#[local] Open Scope prog_scope.

Lemma string_app_inj_r (a b c d : string) : String.length b = String.length d → a +:+ b = c +:+ d → a = c ∧ b = d.
Proof.
  intros Hl. revert c. induction a as [|x a IH]; intros [|y c] H.
  - done.
  - apply (f_equal String.length) in H. change (String.length b = S (String.length (c +:+ d))) in H. rewrite string_length_app in H. lia.
  - apply (f_equal String.length) in H. change (S (String.length (a +:+ b)) = String.length d) in H. rewrite string_length_app in H. lia.
  - change (String x (a +:+ b) = String y (c +:+ d)) in H. injection H as -> H. by destruct (IH _ H) as [-> ->].
Qed.

Section facts.
Context {Spec Env : Type} `{HR : Reference Spec, HU : NetURL}.
Context (retryClient : RetryClient) (registryConfig : ResolverConfig) (creds : list (Env → Spec → string → outcome (string * string))).
Context (sha256_hex : string → string) (DefaultHost : string → outcome string) (IsLocalhost : string → bool)
  (rhttp_NewClient : RetryClient).
Context (Hsha : ∀ x y, String.length (sha256_hex x) = String.length (sha256_hex y)).
Abbreviation registry := (registry Spec Env).
Implicit Types (s : registry) (ref : Spec).

(** The key tells hosts and fingerprints apart, and images without credentials from the rest. *)
Lemma key_of_inj r1 c1 r2 c2 : key_of sha256_hex r1 c1 = key_of sha256_hex r2 c2 →
  match c1, c2 with
  | Ok x, Ok y => Hostname r1 = Hostname r2 ∧ fingerprint sha256_hex x = fingerprint sha256_hex y
  | Ok _, _ | _, Ok _ => False
  | _, _ => spec_String r1 = spec_String r2
  end.
Proof.
  unfold key_of. destruct c1 as [x|e|], c2 as [y|e'|]; intros H; try discriminate H;
    [|by apply string_app_inj in H; apply string_app_inj in H..].
  apply string_app_inj, string_app_inj in H.
  apply string_app_inj_r in H as [? H].
  - split; [done|]. by apply string_app_inj in H.
  - rewrite !string_length_app. unfold fingerprint. by rewrite (Hsha _ (y.1 +:+ nul +:+ y.2)).
Qed.

(** ** The invariant *)
(** The client [cl] serves the image named [str]. *)
Definition served s (str : string) (cl : nat) : Prop := ∃ c, clients s !! cl = Some c ∧
  match ac_creds c with
  | OfImage r => spec_String r = str
  | OfShared sid => ∃ sh r cr, shareds s !! sid = Some sh ∧ (r, cr) ∈ sh_joined sh ∧ spec_String r = str
  end.

Record rinv s : Prop := {
  ri_auth k e : authClientMap s !! k = Some e → ∃ sh, shareds s !! value e = Some sh ∧ sh_key sh = k;
  ri_client sid sh : shareds s !! sid = Some sh → ∃ t, clients s !! sh_client sh = Some (mkClient (OfShared sid) t);
  ri_joined sid sh r c : shareds s !! sid = Some sh → (r, c) ∈ sh_joined sh → key_of sha256_hex r c = sh_key sh;
  ri_refs sid sh r : shareds s !! sid = Some sh → r ∈ sh_refs sh → ∃ c, (r, c) ∈ sh_joined sh;
  ri_hosts str e h : registryHostMap s !! str = Some e → h ∈ value e → served s str (rh_client h)
}.

(** What the maps and heaps keep. *)
Definition keeps (sh sh' : sharedAuthClient Spec) : Prop :=
  sh_client sh' = sh_client sh ∧ sh_key sh' = sh_key sh ∧ sh_joined sh `prefix_of` sh_joined sh'.
Definition evolves s s' : Prop :=
  clients s `prefix_of` clients s' ∧
  ∀ sid sh, shareds s !! sid = Some sh → ∃ sh', shareds s' !! sid = Some sh' ∧ keeps sh sh'.
#[local] Instance evolves_preorder : PreOrder evolves.
Proof.
  split.
  - intros s. split; [done|]. intros sid sh Hsh. by exists sh.
  - intros s1 s2 s3 [Hc1 Hs1] [Hc2 Hs2]. split; [by etrans|]. intros sid sh Hsh.
    destruct (Hs1 _ _ Hsh) as (sh1 & Hsh1 & Ec & Ek & Hj). destruct (Hs2 _ _ Hsh1) as (sh2 & Hsh2 & Ec' & Ek' & Hj').
    exists sh2. split; [done|]. split_and!; [congruence..|by etrans].
Qed.

Lemma served_evolves s s' str cl : evolves s s' → served s str cl → served s' str cl.
Proof.
  intros [Hc Hs] (c & Hcl & Hserv). exists c. split; [by eapply prefix_lookup_Some|].
  destruct (ac_creds c) as [sid|r]; [|done]. destruct Hserv as (sh & r & cr & Hsh & Hin & Hstr).
  destruct (Hs _ _ Hsh) as (sh' & Hsh' & _ & _ & Hj). exists sh', r, cr. split; [done|]. split; [|done].
  by eapply elem_of_prefix.
Qed.

(** Changes that leave the heaps alone. *)
Lemma rinv_same_heap s s' : shareds s' = shareds s → clients s' = clients s →
  (∀ k e, authClientMap s' !! k = Some e → authClientMap s !! k = Some e ∨ ∃ sh, shareds s !! value e = Some sh ∧ sh_key sh = k) →
  (∀ str e, registryHostMap s' !! str = Some e → registryHostMap s !! str = Some e ∨ ∀ h, h ∈ value e → served s str (rh_client h)) →
  rinv s → rinv s' ∧ evolves s s'.
Proof.
  intros Hs Hc Ha Hh [I1 I2 I3 I4 I5].
  assert (∀ str cl, served s str cl → served s' str cl) as Hserv by (intros str cl; unfold served; by rewrite Hs, Hc).
  split; [split|].
  - intros k e [?|?]%Ha; rewrite Hs; auto.
  - rewrite Hs, Hc. auto.
  - rewrite Hs. auto.
  - rewrite Hs. auto.
  - intros str e h [?|?]%Hh Hin; eauto.
  - split; [by rewrite Hc|]. intros sid sh Hsh. exists sh. by rewrite Hs.
Qed.

Abbreviation rg := (Prog.rg rinv evolves).

Lemma rg_look {A} (Q : outcome A → registry → Prop) s0 (m : ST registry A) : (∀ s, (m s).2 = s) →
  (∀ s s', rinv s → evolves s0 s → rinv s' → evolves s s' → Q (m s).1 s') → rg Q s0 (act m).
Proof. intros Hm HQ. apply rg_act. intros s Hi He. rewrite Hm. split; [done|]. split; [done|]. intros s' Hi' He'. eauto. Qed.

Lemma rg_ret {A} (Q : outcome A → registry → Prop) s0 o : (∀ s, rinv s → evolves s0 s → Q o s) → rg Q s0 (Ret o).
Proof. done. Qed.

(** Only the result of a call that succeeds is looked at. *)
Definition on_ok {A} (P : A → registry → Prop) (o : outcome A) s : Prop := match o with Ok a => P a s | _ => True end.
Lemma rg_do {A B} (P : A → registry → Prop) (Q : B → registry → Prop) s0 p (k : A → prog registry B) :
  rg (on_ok P) s0 p → (∀ a s, rinv s → evolves s0 s → P a s → rg (on_ok Q) s (k a)) → rg (on_ok Q) s0 (seq p k).
Proof. intros Hp Hk. eapply (rg_seq rinv evolves); [exact Hp|auto|done|done]. Qed.

(** ** Calls *)
Abbreviation loadAuth := (loadUnexpired registryConfig authClientMap set_auths).
Abbreviation loadHosts := (loadUnexpired registryConfig registryHostMap set_hosts).

Lemma rinv_delete_auth key s : rinv s → rinv (set_auths (delete key (authClientMap s)) s) ∧ evolves s (set_auths (delete key (authClientMap s)) s).
Proof. apply rinv_same_heap; cbn; [done..| |auto]. intros k e [_ ?]%lookup_delete_Some. auto. Qed.
Lemma rinv_delete_hosts key s : rinv s → rinv (set_hosts (delete key (registryHostMap s)) s) ∧ evolves s (set_hosts (delete key (registryHostMap s)) s).
Proof. apply rinv_same_heap; cbn; [done..|auto|]. intros k e [_ ?]%lookup_delete_Some. auto. Qed.

Section load.
Context {V : Type} (get : registry → gmap string (expiringEntry V)) (set : gmap string (expiringEntry V) → registry → registry).
Context (P : string → V → registry → Prop).
Context (Hget : ∀ s key e, rinv s → get s !! key = Some e → P key (value e) s).
Context (Hmono : ∀ s s' key v, evolves s s' → P key v s → P key v s').
Context (Hset : ∀ key s, rinv s → rinv (set (delete key (get s)) s) ∧ evolves s (set (delete key (get s)) s)).

Lemma rg_delete key s0 : rg (on_ok (λ _ _, True)) s0 (act (λ s, (Ok (), set (delete key (get s)) s))).
Proof. apply rg_act. intros s Hi He. cbn [snd]. destruct (Hset key s Hi). by split_and!. Qed.

Lemma rg_loadUnexpired key s0 :
  rg (on_ok (λ r s, match r with Some v => P key v s | None => True end)) s0 (loadUnexpired registryConfig get set key).
Proof.
  unfold loadUnexpired. eapply (rg_do (λ v s, match v with Some e => P key (value e) s | None => True end)).
  { apply rg_look; [done|]. intros s s' Hi _ _ He. cbn. destruct (get s !! key) eqn:E; [|done]. eapply Hmono; [exact He|]. by eapply Hget. }
  intros [e|] s Hi _ HP; [|done].
  eapply (rg_do (λ _ s, P key (value e) s)).
  { apply rg_look; [done|]. intros s1 s2 _ He1 _ He2. cbn. eapply Hmono; [|exact HP]. by etrans. }
  intros t s1 _ _ HP1. destruct (expired registryConfig e t).
  - eapply rg_do; [apply rg_delete|]. done.
  - apply rg_ret. intros s2 _ He. cbn. by eapply Hmono.
Qed.

Lemma rg_sweep_keys l s0 : rg (on_ok (λ _ _, True)) s0 (sweep_keys registryConfig get set l).
Proof.
  revert s0. induction l as [|[k e] l IH]; intros s0; cbn [sweep_keys]; [done|].
  eapply (rg_do (λ _ _, True)); [by apply rg_look|]. intros t s _ _ _.
  eapply (rg_do (λ _ _, True)); [|intros; apply IH]. destruct (expired registryConfig e t); [apply rg_delete|done].
Qed.
End load.

Definition auth_entry (key : string) (sid : nat) s : Prop := ∃ sh, shareds s !! sid = Some sh ∧ sh_key sh = key.
Definition hosts_entry (str : string) (hosts : list RegistryHost) s : Prop := ∀ h, h ∈ hosts → served s str (rh_client h).

Lemma auth_entry_evolves s s' key sid : evolves s s' → auth_entry key sid s → auth_entry key sid s'.
Proof. intros [_ Hs] (sh & Hsh & Hk). destruct (Hs _ _ Hsh) as (sh' & ? & _ & Hk' & _). exists sh'. split; [done|congruence]. Qed.
Lemma hosts_entry_evolves s s' str hosts : evolves s s' → hosts_entry str hosts s → hosts_entry str hosts s'.
Proof. intros He Hh h Hin. eapply served_evolves; eauto. Qed.

Lemma rg_loadAuth key s0 : rg (on_ok (λ r s, match r with Some sid => auth_entry key sid s | None => True end)) s0 (loadAuth key).
Proof.
  apply (rg_loadUnexpired authClientMap set_auths auth_entry); [|by intros; eapply auth_entry_evolves|intros; by apply rinv_delete_auth].
  intros s k e Hi He. by eapply ri_auth.
Qed.
Lemma rg_loadHosts key s0 : rg (on_ok (λ r s, match r with Some h => hosts_entry key h s | None => True end)) s0 (loadHosts key).
Proof.
  apply (rg_loadUnexpired registryHostMap set_hosts hosts_entry); [|by intros; eapply hosts_entry_evolves|intros; by apply rinv_delete_hosts].
  intros s k e Hi He h. by eapply ri_hosts.
Qed.
Lemma rg_sweep s0 : rg (on_ok (λ _ _, True)) s0 (sweep registryConfig).
Proof.
  unfold sweep. eapply (rg_do (λ _ _, True)); [by apply rg_look|]. intros l s _ _ _.
  eapply (rg_do (λ _ _, True)); [apply rg_sweep_keys, rinv_delete_hosts|]. intros [] s1 _ _ _.
  eapply (rg_do (λ _ _, True)); [by apply rg_look|]. intros l' s2 _ _ _. apply rg_sweep_keys, rinv_delete_auth.
Qed.

Lemma rg_ask fs ref host s0 : rg (λ _ _, True) s0 (ask fs ref host).
Proof.
  revert s0. induction fs as [|f fs IH]; intros s0; cbn [ask]; [done|].
  eapply (rg_seq rinv evolves (λ _ _, True)); [by apply rg_look| |done|done]. intros c s _ _ _. destruct (is_empty c); [apply IH|done].
Qed.
Lemma rg_authClientKey ref s0 : rg (on_ok (λ kc _, kc.1 = key_of sha256_hex ref kc.2)) s0 (authClientKey creds sha256_hex ref).
Proof. eapply (rg_bind rinv evolves); [apply rg_ask|]. by intros [c|e|] s _ _ _. Qed.

(** *** New clients *)
Lemma served_app s s' str cl : (∃ l, clients s' = clients s ++ l) → (∃ l, shareds s' = shareds s ++ l) → served s str cl → served s' str cl.
Proof.
  intros [l Hl] [l' Hl']. apply served_evolves. split; [rewrite Hl; by apply prefix_app_r|]. intros sid sh Hsh. exists sh.
  rewrite Hl'. split; [by apply lookup_app_l_Some|done].
Qed.
Lemma evolves_app s s' : (∃ l, clients s' = clients s ++ l) → (∃ l, shareds s' = shareds s ++ l) → evolves s s'.
Proof.
  intros [l Hl] [l' Hl']. split; [rewrite Hl; by apply prefix_app_r|]. intros sid sh Hsh. exists sh.
  rewrite Hl'. split; [by apply lookup_app_l_Some|done].
Qed.

Lemma rg_new_client ref s0 : rg (on_ok (λ cl s, served s (spec_String ref) cl)) s0 (act (new_client ref)).
Proof.
  apply rg_act. intros s [I1 I2 I3 I4 I5] _. cbn [new_client snd fst].
  assert (evolves s (new_client ref s).2) as He by (apply evolves_app; cbn; [by eexists|exists []; by rewrite app_nil_r]).
  cbn [new_client snd] in He. split; [split; cbn; auto|split; [done|]].
  - intros sid sh Hsh. destruct (I2 _ _ Hsh) as [t Ht]. exists t. by apply lookup_app_l_Some.
  - intros str e h Hstr Hin. eapply served_evolves; [exact He|]. by eapply I5.
  - intros s' _ He'. cbn. eapply served_evolves; [exact He'|]. exists (mkClient (OfImage ref) (now s)). cbn.
    by rewrite list_lookup_middle.
Qed.

Lemma rg_new_shared key s0 : rg (on_ok (auth_entry key)) s0 (act (new_shared key)).
Proof.
  apply rg_act. intros s [I1 I2 I3 I4 I5] _. cbn [new_shared snd fst].
  assert (evolves s (new_shared key s).2) as He by (apply evolves_app; cbn; by eexists).
  cbn [new_shared snd] in He.
  set (new := mkShared (length (clients s)) [] key []) in *.
  assert (∀ sid sh, (shareds s ++ [new]) !! sid = Some sh → shareds s !! sid = Some sh ∨ sid = length (shareds s) ∧ sh = new) as Hnew.
  { intros sid sh [?|[Hge Hsh]]%lookup_app_Some; [by left|right]. apply list_lookup_singleton_Some in Hsh as [? <-]. split; [lia|done]. }
  split; [split; cbn|split; [done|]].
  - intros k e (sh & Hsh & Hk)%I1. exists sh. split; [by apply lookup_app_l_Some|done].
  - intros sid sh [Hsh|[-> ->]]%Hnew; [|exists (now s); cbn; by rewrite list_lookup_middle].
    destruct (I2 _ _ Hsh) as [t Ht]. exists t. by apply lookup_app_l_Some.
  - intros sid sh r c [Hsh|[-> ->]]%Hnew Hin; [by eapply I3|]. by apply not_elem_of_nil in Hin.
  - intros sid sh r [Hsh|[-> ->]]%Hnew Hin; [by eapply I4|]. by apply not_elem_of_nil in Hin.
  - intros str e h Hstr Hin. eapply served_evolves; [exact He|]. by eapply I5.
  - intros s' _ He'. cbn. eapply auth_entry_evolves; [exact He'|]. exists new. cbn. by rewrite list_lookup_middle.
Qed.

Lemma rg_LoadOrStore key sid t s0 : auth_entry key sid s0 → rg (on_ok (auth_entry key)) s0 (act (LoadOrStore key (mkEntry sid t))).
Proof.
  intros Hkey. apply rg_act. intros s Hi He. pose proof (auth_entry_evolves _ _ _ _ He Hkey) as Hk. unfold LoadOrStore.
  destruct (authClientMap s !! key) as [e|] eqn:E; cbn [fst snd].
  - split; [done|]. split; [done|]. intros s' _ He'. cbn. eapply auth_entry_evolves; [exact He'|]. by eapply ri_auth.
  - assert (rinv (set_auths (<[key:=mkEntry sid t]> (authClientMap s)) s) ∧ evolves s (set_auths (<[key:=mkEntry sid t]> (authClientMap s)) s)) as [Hi' He'].
    { apply rinv_same_heap; cbn; [done..| |auto|done]. intros k e [[<- <-]|[_ ?]]%lookup_insert_Some; auto. }
    split; [done|]. split; [done|]. intros s' _ He''. cbn. eapply auth_entry_evolves; [|exact Hk]. by etrans.
Qed.

(** *** Joining a shared client *)
Lemma lookup_alter_inv {A} (f : A → A) (l : list A) i j y : alter f i l !! j = Some y →
  ∃ x, l !! j = Some x ∧ (y = x ∨ i = j ∧ y = f x).
Proof.
  destruct (decide (i = j)) as [->|Hij].
  - rewrite list_lookup_alter_eq. destruct (l !! j) as [x|]; [|done]. intros [= <-]. eauto.
  - rewrite list_lookup_alter_ne by done. eauto.
Qed.

Lemma join_keeps ref c sh : keeps sh (join_ref ref c sh).
Proof. split_and!; [done..|]. by apply prefix_app_r. Qed.

Lemma rinv_addRef sid ref c s : auth_entry (key_of sha256_hex ref c) sid s → rinv s → rinv (addRef sid ref c s).2 ∧ evolves s (addRef sid ref c s).2.
Proof.
  intros (sh0 & Hsh0 & Hk0) [I1 I2 I3 I4 I5].
  assert (evolves s (addRef sid ref c s).2) as He.
  { split; [done|]. intros i sh Hsh. cbn. destruct (decide (sid = i)) as [->|].
    - rewrite list_lookup_alter_eq, Hsh. eexists. split; [done|apply join_keeps].
    - rewrite list_lookup_alter_ne by done. by exists sh. }
  split; [|done]. split; cbn.
  - intros k e (sh & Hsh & Hk)%I1. destruct (proj2 He _ _ Hsh) as (sh' & Hsh' & _ & Hk' & _). exists sh'. split; [done|congruence].
  - intros i sh (x & Hx & [->|[-> ->]])%lookup_alter_inv; by apply (I2 _ _ Hx).
  - intros i sh r c' (x & Hx & [->|[-> ->]])%lookup_alter_inv Hin; [by eapply I3|]. cbn in *.
    apply elem_of_app in Hin as [Hin|Hin]; [by eapply I3|]. apply list_elem_of_singleton in Hin. simplify_eq. congruence.
  - intros i sh r (x & Hx & [->|[-> ->]])%lookup_alter_inv Hin; [by eapply I4|]. cbn in *.
    assert (r ∈ sh_refs x ∨ r = ref) as [Hr| ->].
    { destruct (existsb _ _); [by left|]. apply elem_of_app in Hin as [?|?%list_elem_of_singleton]; auto. }
    + destruct (I4 _ _ _ Hx Hr) as [c' Hc']. exists c'. apply elem_of_app. by left.
    + exists c. apply elem_of_app. right. by apply list_elem_of_singleton.
  - intros str e h Hstr Hin. eapply served_evolves; [exact He|]. by eapply I5.
Qed.

(** The image has joined. *)
Definition member sid ref s : Prop := ∃ sh c, shareds s !! sid = Some sh ∧ (ref, c) ∈ sh_joined sh.
Lemma member_evolves s s' sid ref : evolves s s' → member sid ref s → member sid ref s'.
Proof.
  intros [_ Hs] (sh & c & Hsh & Hin). destruct (Hs _ _ Hsh) as (sh' & Hsh' & _ & _ & Hj).
  exists sh', c. split; [done|]. by eapply elem_of_prefix.
Qed.

Lemma rg_addRef sid ref c s0 : auth_entry (key_of sha256_hex ref c) sid s0 →
  rg (on_ok (λ _, member sid ref)) s0 (act (addRef sid ref c)).
Proof.
  intros Hk. apply rg_act. intros s Hi He. pose proof (auth_entry_evolves _ _ _ _ He Hk) as Hk'.
  destruct (rinv_addRef sid ref c s Hk' Hi) as [Hi' He']. split; [done|]. split; [done|].
  intros s' _ He''. cbn. eapply member_evolves; [exact He''|]. destruct Hk' as (sh & Hsh & _).
  exists (join_ref ref c sh), c. cbn. rewrite list_lookup_alter_eq, Hsh. split; [done|].
  apply elem_of_app. right. by apply list_elem_of_singleton.
Qed.

Lemma rg_shared_client ref s0 : rg (on_ok (λ cl s, served s (spec_String ref) cl)) s0 (shared_client registryConfig creds sha256_hex ref).
Proof.
  unfold shared_client. eapply rg_do; [apply rg_authClientKey|]. intros [k c] s _ _ Hk. cbn [fst snd] in *. subst k.
  set (key := key_of sha256_hex ref c). eapply rg_do; [apply rg_loadAuth|]. intros cached s1 _ _ Hc.
  eapply (rg_do (auth_entry key)).
  { destruct cached as [sid|]; [apply rg_ret; intros; cbn; by eapply auth_entry_evolves|].
    eapply rg_do; [apply rg_new_shared|]. intros sid s2 _ _ Hsid.
    eapply (rg_do (λ _, auth_entry key sid)); [|intros t s3 _ _ ?; by apply rg_LoadOrStore].
    apply rg_look; [done|]. intros s3 s4 _ He _ He'. cbn. eapply auth_entry_evolves; [|exact Hsid]. by etrans. }
  intros sid s2 _ _ Hsid. eapply rg_do; [by apply rg_addRef|]. intros [] s3 _ _ Hm.
  apply rg_look; [done|]. intros s4 s5 Hi4 He4 _ He5. pose proof (member_evolves _ _ _ _ He4 Hm) as (sh & c' & Hsh & Hin).
  cbn. rewrite Hsh. cbn. eapply served_evolves; [exact He5|]. destruct (ri_client _ Hi4 _ _ Hsh) as [t Ht].
  exists (mkClient (OfShared sid) t). split; [done|]. cbn. by exists sh, ref, c'.
Qed.

(** ** Lookups *)
Abbreviation lookup := (AsRegistryHosts retryClient registryConfig creds sha256_hex DefaultHost IsLocalhost rhttp_NewClient).

Lemma mirror_hosts_client cl ms hs : mirror_hosts retryClient DefaultHost IsLocalhost rhttp_NewClient cl ms = Ok hs →
  ∀ h, h ∈ hs → rh_client h = cl.
Proof.
  revert hs. induction ms as [|m ms IH]; intros hs; cbn [mirror_hosts]; [intros [= <-] h Hh; by apply not_elem_of_nil in Hh|].
  destruct (mirror_host _ _ _ _ cl m) as [h0|e|] eqn:E; [|done..]. cbn.
  destruct (mirror_hosts _ _ _ _ cl ms) as [hs'|e|] eqn:E'; [|done..]. cbn. intros [= <-] h [-> |Hin]%elem_of_cons; [|by eapply IH].
  revert E. unfold mirror_host. destruct (url_Parse _); [|done]. destruct (DefaultHost _); [|done..]. cbn.
  by destruct (negb _ && _); intros [= <-].
Qed.
Lemma hosts_of_client ref cl hs : hosts_of retryClient registryConfig DefaultHost IsLocalhost rhttp_NewClient ref cl = Ok hs →
  ∀ h, h ∈ hs → rh_client h = cl.
Proof.
  unfold hosts_of. destruct (mirror_hosts _ _ _ _ cl _) as [hs'|e|] eqn:E; [|done..]. cbn.
  destruct (DefaultHost _) as [host|e|]; [|done..]. cbn. intros [= <-] h [Hin|Hin]%elem_of_app.
  - by eapply mirror_hosts_client.
  - by apply list_elem_of_singleton in Hin as ->.
Qed.

Lemma rg_AsRegistryHosts ref s0 : rg (on_ok (hosts_entry (spec_String ref))) s0 (lookup ref).
Proof.
  unfold AsRegistryHosts. eapply rg_do; [apply rg_loadHosts|]. intros [hosts|] s _ _ Hc.
  { apply rg_ret. intros s' _ He. by eapply hosts_entry_evolves. }
  eapply (rg_do (λ cl s, served s (spec_String ref) cl)).
  { destruct (EnableAuthClientSharing registryConfig); [apply rg_shared_client|apply rg_new_client]. }
  intros cl s1 _ _ Hcl. eapply (rg_do (hosts_entry (spec_String ref))).
  { apply rg_ret. intros s2 _ He. destruct (hosts_of _ _ _ _ _ ref cl) as [hosts|e|] eqn:E; [|done..].
    intros h Hin. rewrite (hosts_of_client _ _ _ E h Hin). by eapply served_evolves. }
  intros hosts s2 _ _ Hh. eapply (rg_do (λ _, hosts_entry (spec_String ref) hosts)).
  { apply rg_look; [done|]. intros s3 s4 _ He _ He'. cbn. eapply hosts_entry_evolves; [|exact Hh]. by etrans. }
  intros t s3 _ _ Hh3. eapply (rg_do (λ _, hosts_entry (spec_String ref) hosts)).
  { apply rg_act. intros s4 Hi4 He4. cbn [fst snd]. pose proof (hosts_entry_evolves _ _ _ _ He4 Hh3) as Hh4.
    destruct (rinv_same_heap s4 (set_hosts (<[spec_String ref:=mkEntry hosts t]> (registryHostMap s4)) s4)) as [Hi5 He5];
      [done..|auto| |done|split; [done|]; split; [done|]].
    - cbn. intros str e [[<- <-]|[_ ?]]%lookup_insert_Some; auto.
    - intros s5 _ He. cbn. eapply hosts_entry_evolves; [|exact Hh4]. by etrans. }
  intros [] s4 _ _ Hh4. apply rg_ret. intros s5 _ He. by eapply hosts_entry_evolves.
Qed.

(** The goroutines of the daemon: lookups, each with the name of its image, and the sweeper. *)
Definition goroutine : Type := prog registry (option (string * list RegistryHost)).
Definition lookup_of ref : goroutine := do hosts := lookup ref; Ret (Ok (Some (spec_String ref, hosts))).
Definition sweeper : goroutine := do _ := sweep registryConfig; Ret (Ok None).
Inductive starts : goroutine → Prop :=
| starts_lookup ref : starts (lookup_of ref)
| starts_sweeper : starts sweeper.

Definition answer_ok (o : outcome (option (string * list RegistryHost))) s : Prop :=
  match o with Ok (Some (str, hosts)) => hosts_entry str hosts s | _ => True end.
Lemma starts_ok p s : starts p → rinv s → rg answer_ok s p.
Proof.
  intros [ref|] _.
  - eapply (rg_seq rinv evolves); [apply rg_AsRegistryHosts| |done|done]. intros hosts s1 _ _ Hh. cbn. intros s2 _ He.
    by eapply hosts_entry_evolves.
  - eapply (rg_seq rinv evolves); [apply rg_sweep|done|done|done].
Qed.

Lemma NewRegistryManager_inv t e : rinv (NewRegistryManager t e).
Proof. split; cbn; intros *; rewrite ?lookup_empty, ?lookup_nil; done. Qed.

(** C12: Two images whose hosts use the same client have the same name, or are images of the same
    registry that joined the client with credentials of the same fingerprint: in whatever order
    goroutines look hosts up, sweep the caches and race to make clients, and however time passes
    and credentials change in between. *)
Theorem clients_shared_within_credentials s ps i j str1 hosts1 str2 hosts2 h1 h2 :
  together rinv evolves starts s ps →
  ps !! i = Some (Ret (Ok (Some (str1, hosts1)))) → ps !! j = Some (Ret (Ok (Some (str2, hosts2)))) →
  h1 ∈ hosts1 → h2 ∈ hosts2 → rh_client h1 = rh_client h2 →
  str1 = str2 ∨
  ∃ sid sh r1 c1 r2 c2, shareds s !! sid = Some sh ∧
    (r1, Ok c1) ∈ sh_joined sh ∧ spec_String r1 = str1 ∧ (r2, Ok c2) ∈ sh_joined sh ∧ spec_String r2 = str2 ∧
    Hostname r1 = Hostname r2 ∧ fingerprint sha256_hex c1 = fingerprint sha256_hex c2.
Proof.
  intros Ht Hi Hj H1 H2 Heq.
  destruct (together_ok rinv evolves starts answer_ok starts_ok s ps i _ Ht Hi) as [HI Q1].
  destruct (together_ok rinv evolves starts answer_ok starts_ok s ps j _ Ht Hj) as [_ Q2].
  destruct (Q1 h1 H1) as (c & Hc & Hs1). destruct (Q2 h2 H2) as (c' & Hc' & Hs2).
  rewrite <-Heq, Hc in Hc'. injection Hc' as <-. destruct (ac_creds c) as [sid|r] eqn:Ec; [|left; congruence].
  destruct Hs1 as (sh & r1 & c1 & Hsh & Hj1 & Hr1). destruct Hs2 as (sh' & r2 & c2 & Hsh' & Hj2 & Hr2). rewrite Hsh in Hsh'. injection Hsh' as <-.
  pose proof (ri_joined _ HI _ _ _ _ Hsh Hj1) as K1. pose proof (ri_joined _ HI _ _ _ _ Hsh Hj2) as K2.
  pose proof (key_of_inj r1 c1 r2 c2 ltac:(congruence)) as HK.
  destruct c1 as [x|e|], c2 as [y|e'|]; try done; [|left; congruence..]. destruct HK as [Hh Hf].
  right. exists sid, sh, r1, x, r2, y. split_and!; done.
Qed.
End facts.
