(* ===== verification/RegistryAge.v ===== *)
(** * How old a client gets

    One goroutine at a time, with a clock that stands still during a call: a client handed out is
    at most twice the configured time old, and it can be that old when clients are shared. *)
From Stdlib Require Import ZArith Lia.
From stdpp Require Import base list gmap strings.
From S2P Require Import Prelude GoLib Prog HttpUtil Config ResolverClient Registry RegistryFacts.
#[local] Open Scope Z_scope.

(** What a program that runs alone ends with: [P] of a result, [E] of the state otherwise. *)
Definition ends {S A} (p : prog S A) (s : S) (P : A → S → Prop) (E : S → Prop) : Prop :=
  match run p s with (Ok a, s') => P a s' | (_, s') => E s' end.

Lemma ends_act {S A} (m : ST S A) (s : S) (P : A → S → Prop) (E : S → Prop) :
  match m s with (Ok a, s') => P a s' | (_, s') => E s' end → ends (act m) s P E.
Proof. unfold ends. cbn. by destruct (m s). Qed.
Lemma run_pbind {S A B} (p : prog S A) (k : outcome A → prog S B) (s : S) :
  run (pbind p k) s = let '(o, s1) := run p s in run (k o) s1.
Proof. revert s. induction p as [o|C m k' IH]; intros s; cbn; [done|]. destruct (m s) as [r s1]. apply IH. Qed.
Lemma ends_seq {S A B} (p : prog S A) (k : A → prog S B) (s : S) (P : A → S → Prop) (P' : B → S → Prop) (E : S → Prop) :
  ends p s P E → (∀ a s1, P a s1 → ends (k a) s1 P' E) → ends (seq p k) s P' E.
Proof.
  unfold ends, seq. rewrite run_pbind. destruct (run p s) as [[a|e|] s1]; intros Hp Hk; [by apply Hk|done|done].
Qed.
Lemma ends_mono {S A} (p : prog S A) (s : S) (P P' : A → S → Prop) (E E' : S → Prop) :
  ends p s P E → (∀ a s', P a s' → P' a s') → (∀ s', E s' → E' s') → ends p s P' E'.
Proof. unfold ends. destruct (run p s) as [[a|e|] s1]; auto. Qed.

Section age.
Context {Spec Env : Type} `{HR : Reference Spec, HU : NetURL}.
Context (retryClient : RetryClient) (registryConfig : ResolverConfig) (creds : list (Env → Spec → string → outcome (string * string))).
Context (sha256_hex : string → string) (DefaultHost : string → outcome string) (IsLocalhost : string → bool)
  (rhttp_NewClient : RetryClient).
Abbreviation registry := (registry Spec Env).
Abbreviation ttl := (authClientTTL registryConfig).
Abbreviation lookup := (AsRegistryHosts retryClient registryConfig creds sha256_hex DefaultHost IsLocalhost rhttp_NewClient).
Implicit Types (s : registry) (ref : Spec).

(** The client [cl] was made at [t] or later. *)
Definition made_since s (cl : nat) (t : Z) : Prop := ∃ c, clients s !! cl = Some c ∧ t ≤ ac_created c.

Record aged s : Prop := {
  aged_auth k e : authClientMap s !! k = Some e →
    createdAt e ≤ now s ∧ ∃ sh, shareds s !! value e = Some sh ∧ made_since s (sh_client sh) (createdAt e);
  aged_hosts str e h : registryHostMap s !! str = Some e → h ∈ value e →
    createdAt e ≤ now s ∧ made_since s (rh_client h) (createdAt e - ttl)
}.

Context (Httl : 0 < ttl).

(** A call at time [t]. *)
Definition at_ (t : Z) s : Prop := aged s ∧ now s = t.

Lemma expired_spec {V} (e : expiringEntry V) t : expired registryConfig e t = false → t - createdAt e ≤ ttl.
Proof. unfold expired. zcases. Qed.

Lemma aged_delete_hosts s k : aged s → aged (set_hosts (delete k (registryHostMap s)) s).
Proof. intros [I1 I2]. split; cbn; [exact I1|]. intros str e h [_ ?]%lookup_delete_Some. by apply (I2 str). Qed.
Lemma aged_delete_auths s k : aged s → aged (set_auths (delete k (authClientMap s)) s).
Proof. intros [I1 I2]. split; cbn; [|exact I2]. intros str e [_ ?]%lookup_delete_Some. by apply (I1 str). Qed.

Section load.
Context {V : Type} (get : registry → gmap string (expiringEntry V)) (set : gmap string (expiringEntry V) → registry → registry).
Context (Hset : ∀ k s, aged s → aged (set (delete k (get s)) s)) (Hnow : ∀ m s, now (set m s) = now s)
  (Hget : ∀ m s, get (set m s) = m).

Lemma ends_loadUnexpired key t s : at_ t s →
  ends (loadUnexpired registryConfig get set key) s
    (λ r s', at_ t s' ∧ match r with
       | Some v => s' = s ∧ ∃ e, get s !! key = Some e ∧ value e = v ∧ t - createdAt e ≤ ttl
       | None => get s' !! key = None end) (at_ t).
Proof.
  intros Ha. unfold loadUnexpired, ends. cbn. destruct (get s !! key) as [e|] eqn:E; cbn; [|done].
  destruct Ha as [Ha <-]. destruct (expired registryConfig e (now s)) eqn:Ee; cbn.
  - split; [split; [by apply Hset|apply Hnow]|]. by rewrite Hget, lookup_delete_eq.
  - split; [done|]. split; [done|]. exists e. split_and!; [done..|by apply expired_spec].
Qed.

Lemma ends_sweep_keys l t s : at_ t s → ends (sweep_keys registryConfig get set l) s (λ _, at_ t) (at_ t).
Proof.
  revert s. induction l as [|[k e] l IH]; intros s Ha; cbn [sweep_keys]; [done|].
  eapply (ends_seq _ _ _ (λ _ s1, at_ t s1)); [by apply ends_act|]. intros t' s1 Ha1.
  eapply (ends_seq _ _ _ (λ _ s1, at_ t s1)); [|intros; by apply IH].
  destruct (expired registryConfig e t'); [|done]. apply ends_act. destruct Ha1 as [Ha1 <-]. split; [by apply Hset|apply Hnow].
Qed.
End load.

Lemma ends_sweep t s : at_ t s → ends (sweep registryConfig) s (λ _, at_ t) (at_ t).
Proof.
  intros Ha. unfold sweep. eapply (ends_seq _ _ _ (λ _ s1, at_ t s1)); [by apply ends_act|]. intros l s1 Ha1.
  eapply (ends_seq _ _ _ (λ _ s1, at_ t s1)); [apply ends_sweep_keys; [intros; by apply aged_delete_hosts|done|done]|]. intros [] s2 Ha2.
  eapply (ends_seq _ _ _ (λ _ s1, at_ t s1)); [by apply ends_act|]. intros l' s3 Ha3.
  apply ends_sweep_keys; [intros; by apply aged_delete_auths|done|done].
Qed.

Lemma ends_ask fs ref host t s : at_ t s → ends (ask fs ref host) s (λ _, at_ t) (at_ t).
Proof.
  revert s. induction fs as [|f fs IH]; intros s Ha; cbn [ask]; [done|].
  eapply (ends_seq _ _ _ (λ _ s1, at_ t s1)); [apply ends_act; by destruct (f (env s) ref host)|]. intros c s1 Ha1.
  destruct (is_empty c); [by apply IH|done].
Qed.
Lemma ends_authClientKey ref t s : at_ t s → ends (authClientKey creds sha256_hex ref) s (λ _, at_ t) (at_ t).
Proof.
  intros Ha. pose proof (ends_ask creds ref (Hostname ref) t s Ha) as H. unfold authClientKey, multiCredsFuncs, ends in *.
  rewrite run_pbind. by destruct (run (ask creds ref (Hostname ref)) s) as [[c|e|] s1].
Qed.

(** *** Clients *)
Lemma made_since_app s s' cl t l : clients s' = clients s ++ l → made_since s cl t → made_since s' cl t.
Proof. intros Hl (c & Hc & Ht). exists c. rewrite Hl. split; [by apply lookup_app_l_Some|done]. Qed.
Lemma made_since_earlier s cl t t' : t' ≤ t → made_since s cl t → made_since s cl t'.
Proof. intros Hle (c & Hc & Ht). exists c. split; [done|lia]. Qed.

Lemma ends_new_client ref t s : at_ t s →
  ends (act (new_client ref)) s (λ cl s', at_ t s' ∧ made_since s' cl (t - ttl)) (at_ t).
Proof.
  intros [[I1 I2] <-]. apply ends_act. cbn. split; [split; [|done]; split; cbn|].
  - intros k e He. destruct (I1 _ _ He) as (Hle & sh & Hsh & Hm). split; [done|]. exists sh. split; [done|]. by eapply made_since_app.
  - intros str e h He Hh. destruct (I2 _ _ _ He Hh) as (Hle & Hm). split; [done|]. by eapply made_since_app.
  - exists (mkClient (OfImage ref) (now s)). cbn. rewrite list_lookup_middle by done. split; [done|]. cbn. lia.
Qed.

(** The shared client [sid] is young. *)
Definition young t (sid : nat) s : Prop := ∃ sh, shareds s !! sid = Some sh ∧ made_since s (sh_client sh) (t - ttl).

Lemma new_shared_aged key t s : at_ t s → authClientMap s !! key = None →
  let '(r, s') := new_shared key s in ∃ sid sh, r = Ok sid ∧ at_ t s' ∧ authClientMap s' !! key = None ∧
    shareds s' !! sid = Some sh ∧ made_since s' (sh_client sh) t.
Proof.
  intros [[I1 I2] <-] Hk. cbn. eexists _, _. split; [done|]. split; [split; [|done]; split; cbn|].
  - intros k e He. destruct (I1 _ _ He) as (Hle & sh & Hsh & Hm). split; [done|]. exists sh. split; [by apply lookup_app_l_Some|]. by eapply made_since_app.
  - intros str e h He Hh. destruct (I2 _ _ _ He Hh) as (Hle & Hm). split; [done|]. by eapply made_since_app.
  - split; [done|]. split; [by apply list_lookup_middle|]. cbn. exists (mkClient (OfShared (length (shareds s))) (now s)). cbn.
    rewrite list_lookup_middle by done. done.
Qed.

Lemma ends_addRef sid ref c t s : at_ t s → young t sid s → ends (act (addRef sid ref c)) s (λ _ s', at_ t s' ∧ young t sid s') (at_ t).
Proof.
  intros [[I1 I2] <-] (sh0 & Hsh0 & Hm0). apply ends_act. cbn.
  assert (∀ i sh, shareds s !! i = Some sh → ∃ sh', alter (join_ref ref c) sid (shareds s) !! i = Some sh' ∧ sh_client sh' = sh_client sh) as Ha.
  { intros i sh Hsh. destruct (decide (sid = i)) as [->|]; [rewrite list_lookup_alter_eq, Hsh|rewrite list_lookup_alter_ne by done]; by eexists. }
  split; [split; [|done]; split; cbn|].
  - intros k e He. destruct (I1 _ _ He) as (Hle & sh & Hsh & Hm). split; [done|]. destruct (Ha _ _ Hsh) as (sh' & ? & Heq).
    exists sh'. split; [done|]. by rewrite Heq.
  - exact I2.
  - destruct (Ha _ _ Hsh0) as (sh' & ? & Heq). exists sh'. split; [done|]. by rewrite Heq.
Qed.

Lemma ends_shared_client ref t s : at_ t s →
  ends (shared_client registryConfig creds sha256_hex ref) s (λ cl s', at_ t s' ∧ made_since s' cl (t - ttl)) (at_ t).
Proof.
  intros Ha. unfold shared_client. eapply ends_seq; [by apply ends_authClientKey|]. intros [key c] s1 Ha1. cbn [fst snd].
  eapply ends_seq; [apply (ends_loadUnexpired authClientMap set_auths); [intros; by apply aged_delete_auths|done|done|exact Ha1]|].
  intros cached s2 [Ha2 Hc]. eapply (ends_seq _ _ _ (λ sid s', at_ t s' ∧ young t sid s')).
  { destruct cached as [sid|].
    - destruct Hc as (-> & e & He & <- & Hle). split; [done|]. destruct Ha1 as [Ha1 <-].
      destruct (aged_auth _ Ha1 _ _ He) as (_ & sh & Hsh & Hm). exists sh. split; [done|]. eapply made_since_earlier; [|exact Hm]. lia.
    - unfold ends. cbn. pose proof (new_shared_aged key t s2 Ha2 Hc) as Hn. cbn in Hn.
      destruct Hn as (sid & sh & [= <-] & Ha3 & Hk3 & Hsh & Hm). unfold LoadOrStore. cbn in Hk3 |- *. rewrite Hk3. cbn.
      destruct Ha3 as [[I1 I2] Hnow]. split; [split; [|done]; split; cbn|].
      + intros k e [[<- <-]|[_ He]]%lookup_insert_Some; [|by apply (I1 k)]. cbn. split; [done|]. exists sh. split; [done|].
        eapply made_since_earlier; [|exact Hm]. cbn in Hnow. lia.
      + exact I2.
      + exists sh. split; [done|]. eapply made_since_earlier; [|exact Hm]. lia. }
  intros sid s3 [Ha3 Hy3]. eapply ends_seq; [by apply ends_addRef|]. intros [] s4 [Ha4 (sh & Hsh & Hm)].
  apply ends_act. rewrite Hsh. done.
Qed.

Lemma ends_lookup ref t s : at_ t s →
  ends (lookup ref) s (λ hosts s', at_ t s' ∧ ∀ h, h ∈ hosts → made_since s' (rh_client h) (t - 2 * ttl)) (at_ t).
Proof.
  intros Ha. unfold AsRegistryHosts.
  eapply ends_seq; [apply (ends_loadUnexpired registryHostMap set_hosts); [intros; by apply aged_delete_hosts|done|done|exact Ha]|].
  intros [hosts|] s1 [Ha1 Hc].
  { destruct Hc as (-> & e & He & <- & Hle). split; [done|]. intros h Hh. destruct Ha as [Ha <-].
    destruct (aged_hosts _ Ha _ _ _ He Hh) as (_ & Hm). eapply made_since_earlier; [|exact Hm]. lia. }
  eapply (ends_seq _ _ _ (λ cl s', at_ t s' ∧ made_since s' cl (t - ttl))).
  { destruct (EnableAuthClientSharing registryConfig); [by apply ends_shared_client|by apply ends_new_client]. }
  intros cl s2 [Ha2 Hm]. eapply (ends_seq _ _ _ (λ hosts s', at_ t s' ∧ ∀ h, h ∈ hosts → made_since s' (rh_client h) (t - ttl))).
  { unfold ends. cbn. destruct (hosts_of _ _ _ _ _ ref cl) as [hs|e|] eqn:E; [|done..]. split; [done|]. intros h Hh.
    by rewrite (hosts_of_client _ _ _ _ _ _ _ _ E h Hh). }
  intros hosts s3 [[[I1 I2] <-] Hh]. unfold ends. cbn. split; [split; [|done]; split; cbn|].
  - exact I1.
  - intros str e h [[<- <-]|[_ He]]%lookup_insert_Some Hin; [|by eapply I2]. cbn in *. split; [done|]. by apply Hh.
  - intros h Hin. eapply made_since_earlier; [|by apply Hh]. lia.
Qed.

(** ** Histories *)
Inductive history : registry → Prop :=
| history_new t e : history (NewRegistryManager t e)
| history_lookup s ref : history s → history (run (lookup ref) s).2
| history_sweep s : history s → history (run (sweep registryConfig) s).2
| history_wait s d e : history s → 0 ≤ d →
    history (mkRegistry (registryHostMap s) (authClientMap s) (shareds s) (clients s) (now s + d) e).

Lemma ends_state {A} (p : prog registry A) s t P : ends p s (λ a s', at_ t s' ∧ P a s') (at_ t) → aged (run p s).2.
Proof. unfold ends, at_. destruct (run p s) as [[a|e|] s']; cbn; tauto. Qed.

Lemma history_aged s : history s → aged s.
Proof.
  induction 1 as [t e|s ref _ IH|s _ IH|s d e _ [I1 I2] Hd].
  - split; cbn; intros *; rewrite lookup_empty; done.
  - by eapply ends_state, (ends_lookup ref (now s)).
  - eapply (ends_state _ _ (now s) (λ _ _, True)). eapply ends_mono; [by apply (ends_sweep (now s))|done|done].
  - split; cbn.
    + intros k en He. destruct (I1 _ _ He) as (Hle & Hx). split; [lia|done].
    + intros str en h He Hh. destruct (I2 _ _ _ He Hh) as (Hle & Hx). split; [lia|done].
Qed.

(** With a positive time to live (a negative one means that clients never expire), and lookups
    and sweeps that run one after another and take no time: whatever was looked up and swept
    before, a lookup hands out hosts whose clients were made at most twice the time to live
    ago. *)
Theorem client_age_bounded s ref hosts s' h : history s → run (lookup ref) s = (Ok hosts, s') → h ∈ hosts →
  ∃ c, clients s' !! rh_client h = Some c ∧ now s - ac_created c ≤ 2 * ttl.
Proof.
  intros Hs Hrun Hin. pose proof (ends_lookup ref (now s) s (conj (history_aged s Hs) eq_refl)) as He. unfold ends in He. rewrite Hrun in He.
  destruct He as [_ Hh]. destruct (Hh h Hin) as (c & Hc & Ht). exists c. split; [done|lia].
Qed.
End age.
