(* ===== verification/Keychain.v ===== *)
(** * Credentials

    Models [ParseAuth] of [service/resolver/cri.go] with the base64 it decodes, and the providers
    of credentials under [service/keychain]: the CRI image service that overhears pull requests,
    the docker configuration file and the secrets of a Kubernetes cluster.  The CRI backend, the
    docker configuration library, the Kubernetes client and [net/url] are parameters. *)
From Stdlib Require Import ZArith Lia Ascii.
From stdpp Require Import base list gmap strings.
From S2P Require Import Prelude GoLib HttpUtil.
#[local] Open Scope Z_scope.

(** ** base64, standard encoding *)
Definition b64_char (v : Z) : ascii :=
  ascii_of_nat (Z.to_nat
    (if v <? 26 then 65 + v else if v <? 52 then 71 + v else if v <? 62 then v - 4 else if v =? 62 then 43 else 47)).
Definition b64_val (c : ascii) : option Z :=
  let n := Z.of_nat (nat_of_ascii c) in
  if (65 <=? n) && (n <=? 90) then Some (n - 65)
  else if (97 <=? n) && (n <=? 122) then Some (n - 71)
  else if (48 <=? n) && (n <=? 57) then Some (n + 4)
  else if n =? 43 then Some 62
  else if n =? 47 then Some 63
  else None.

Definition char_of (v : Z) : ascii := ascii_of_nat (Z.to_nat v).
Definition code (c : ascii) : Z := Z.of_nat (nat_of_ascii c).

(** Line ends are skipped wherever they are. *)
Definition newline (c : ascii) : bool := ((c =? "010")%char || (c =? "013")%char).

(** Four characters at a time; padding ends the input. *)
Fixpoint b64_decode (l : list ascii) : option (list ascii) :=
  match l with
  | [] => Some []
  | a :: b :: c :: d :: rest =>
      match b64_val a, b64_val b with
      | Some va, Some vb =>
          let x := char_of (va * 4 + vb / 16) in
          match b64_val c, b64_val d with
          | Some vc, Some vd =>
              r ← b64_decode rest; Some (x :: char_of ((vb mod 16) * 16 + vc / 4) :: char_of ((vc mod 4) * 64 + vd) :: r)
          | Some vc, None =>
              if (d =? "=")%char then match rest with [] => Some [x; char_of ((vb mod 16) * 16 + vc / 4)] | _ => None end else None
          | None, _ =>
              if ((c =? "=") && (d =? "="))%char then match rest with [] => Some [x] | _ => None end else None
          end
      | _, _ => None
      end
  | _ => None
  end.

Definition base64_Decode (s : string) : option (list ascii) :=
  b64_decode (filter (λ c, newline c = false) (String.list_ascii_of_string s)).

(** [EncodeToString]: what clients put in the field. *)
Fixpoint b64_encode (l : list ascii) : list ascii :=
  match l with
  | [] => []
  | [x] => [b64_char (code x / 4); b64_char ((code x mod 4) * 16); "="%char; "="%char]
  | [x; y] => [b64_char (code x / 4); b64_char ((code x mod 4) * 16 + code y / 16); b64_char ((code y mod 16) * 4); "="%char]
  | x :: y :: z :: rest =>
      b64_char (code x / 4) :: b64_char ((code x mod 4) * 16 + code y / 16) ::
      b64_char ((code y mod 16) * 4 + code z / 64) :: b64_char (code z mod 64) :: b64_encode rest
  end.
Definition base64_Encode (s : string) : string := String.string_of_list_ascii (b64_encode (String.list_ascii_of_string s)).

(** ** [ParseAuth] *)
Record AuthConfig := mkAuth {
  Username : string;
  Password : string;
  Auth : string;
  ServerAddress : string;
  IdentityToken : string
}.

(** [strings.Trim(s, "\x00")] *)
Fixpoint trim_left (l : list ascii) : list ascii :=
  match l with c :: l' => if (c =? zero)%char then trim_left l' else l | [] => [] end.
Definition Trim_nul (s : string) : string :=
  String.string_of_list_ascii (reverse (trim_left (reverse (trim_left (String.list_ascii_of_string s))))).

(** The buffer the field is decoded into: [DecodedLen] bytes, zero behind what is decoded. *)
Definition decoded_buffer (auth : string) (l : list ascii) : string :=
  String.string_of_list_ascii (take (String.length auth / 4 * 3) (l ++ replicate (String.length auth / 4 * 3 - length l) zero)).

Section parse.
Context `{NetURL}.

Definition ParseAuth (auth : option AuthConfig) (host : string) : outcome (string * string) :=
  match auth with
  | None => Ok ("", "")%string
  | Some a =>
      (* does the address of the server match? *)
      m ← (if (ServerAddress a =? "")%string then Ok true
           else match url_Parse (ServerAddress a) with
                | None => Err (ErrorString "parse server address")
                | Some u => Ok (host =? Host u)%string
                end);
      if negb m then Ok ("", "")%string
      else if negb (Username a =? "")%string then Ok (Username a, Password a)
      else if negb (IdentityToken a =? "")%string then Ok (""%string, IdentityToken a)
      else if negb (Auth a =? "")%string then
        match base64_Decode (Auth a) with
        | None => Err (ErrorString "illegal base64 data")
        | Some l =>
            let s := decoded_buffer (Auth a) l in
            if contains ":" s then let '(user, passwd) := cut ":" s in Ok (user, Trim_nul passwd)
            else Err (ErrorString "invalid decoded auth")
        end
      else Ok ("", "")%string
  end.
(** The same function again. *)
Definition ParseAlphaAuth (auth : option AuthConfig) (host : string) : outcome (string * string) := ParseAuth auth host.
End parse.

(** ** What was encoded is decoded *)
Lemma code_range c : 0 ≤ code c < 256.
Proof. unfold code. pose proof (nat_ascii_bounded c). lia. Qed.
Lemma char_of_code c : char_of (code c) = c.
Proof. unfold char_of, code. by rewrite Nat2Z.id, ascii_nat_embedding. Qed.

Lemma b64_val_char v : 0 ≤ v < 64 → b64_val (b64_char v) = Some v ∧ newline (b64_char v) = false.
Proof.
  intros Hv. assert (forallb (λ n, bool_decide (b64_val (b64_char (Z.of_nat n)) = Some (Z.of_nat n) ∧ newline (b64_char (Z.of_nat n)) = false)) (seq 0 64) = true) as Hall
    by (vm_compute; reflexivity).
  rewrite forallb_forall in Hall. specialize (Hall (Z.to_nat v) ltac:(apply in_seq; lia)).
  rewrite Z2Nat.id in Hall by lia. by apply bool_decide_eq_true in Hall.
Qed.

(** The six-bit groups of three bytes, and back. *)
Lemma sextets x y z : 0 ≤ x < 256 → 0 ≤ y < 256 → 0 ≤ z < 256 →
  (0 ≤ x / 4 < 64 ∧ 0 ≤ (x mod 4) * 16 + y / 16 < 64 ∧ 0 ≤ (y mod 16) * 4 + z / 64 < 64 ∧ 0 ≤ z mod 64 < 64) ∧
  x / 4 * 4 + ((x mod 4) * 16 + y / 16) / 16 = x ∧
  ((x mod 4) * 16 + y / 16) mod 16 * 16 + ((y mod 16) * 4 + z / 64) / 4 = y ∧
  ((y mod 16) * 4 + z / 64) mod 4 * 64 + z mod 64 = z.
Proof. intros. Z.to_euclidean_division_equations; lia. Qed.

Lemma list_ind_3 {A} (P : list A → Prop) :
  P [] → (∀ x, P [x]) → (∀ x y, P [x; y]) → (∀ x y z l, P l → P (x :: y :: z :: l)) → ∀ l, P l.
Proof.
  intros H0 H1 H2 H3 l. assert (P l ∧ (∀ x, P (x :: l)) ∧ ∀ x y, P (x :: y :: l)) as [? _]; [|done].
  induction l as [|a l (IH0 & IH1 & IH2)]; [done|]. split_and!; auto.
Qed.

Lemma b64_encode_spec l : b64_decode (b64_encode l) = Some l ∧ Forall (λ c, newline c = false) (b64_encode l) ∧
  length (b64_encode l) = (4 * ((length l + 2) / 3))%nat.
Proof.
  induction l as [|x|x y|x y z l (IHd & IHn & IHl)] using list_ind_3; [done|..].
  - pose proof (code_range x). destruct (sextets (code x) 0 0) as ((R1 & R2 & _) & E1 & _); [lia..|]. rewrite Z.add_0_r in R2, E1.
    destruct (b64_val_char _ R1) as [V1 N1], (b64_val_char _ R2) as [V2 N2]. cbn [b64_encode b64_decode]. rewrite V1, V2.
    split; [|split; [by repeat constructor|done]]. cbn [b64_val]. rewrite E1, char_of_code. done.
  - pose proof (code_range x). pose proof (code_range y). destruct (sextets (code x) (code y) 0) as ((R1 & R2 & R3 & _) & E1 & E2 & _); [lia..|].
    rewrite Z.add_0_r in R3, E2.
    destruct (b64_val_char _ R1) as [V1 N1], (b64_val_char _ R2) as [V2 N2], (b64_val_char _ R3) as [V3 N3].
    cbn [b64_encode b64_decode]. rewrite V1, V2, V3.
    split; [|split; [by repeat constructor|done]]. cbn [b64_val]. rewrite E1, E2, !char_of_code. done.
  - pose proof (code_range x). pose proof (code_range y). pose proof (code_range z).
    destruct (sextets (code x) (code y) (code z)) as ((R1 & R2 & R3 & R4) & E1 & E2 & E3); [lia..|].
    destruct (b64_val_char _ R1) as [V1 N1], (b64_val_char _ R2) as [V2 N2], (b64_val_char _ R3) as [V3 N3], (b64_val_char _ R4) as [V4 N4].
    cbn [b64_encode b64_decode]. rewrite V1, V2, V3, V4, IHd, E1, E2, E3, !char_of_code.
    split; [done|]. split; [by repeat constructor|]. cbn [length]. rewrite IHl.
    replace (S (S (S (length l))) + 2)%nat with (length l + 2 + 1 * 3)%nat by lia. rewrite Nat.div_add by lia. lia.
Qed.

Lemma filter_Forall_id {A} (P : A → Prop) `{!∀ x, Decision (P x)} l : Forall P l → filter P l = l.
Proof. induction 1 as [|x l Hx _ IH]; [done|]. by rewrite filter_cons_True, IH. Qed.
Lemma base64_Decode_Encode s : base64_Decode (base64_Encode s) = Some (String.list_ascii_of_string s).
Proof.
  destruct (b64_encode_spec (String.list_ascii_of_string s)) as (Hd & Hn & _).
  unfold base64_Decode, base64_Encode. rewrite String.list_ascii_of_string_of_list_ascii.
  by rewrite filter_Forall_id.
Qed.

(** ** Trimming *)
Lemma trim_left_app_zeros l k : trim_left (l ++ replicate k zero) =
  if decide (trim_left l = []) then [] else trim_left l ++ replicate k zero.
Proof.
  induction l as [|c l IH]; cbn.
  - rewrite decide_True by done. induction k; [done|]. by cbn.
  - by destruct (c =? zero)%char.
Qed.
Lemma trim_left_zeros_app l k : trim_left (replicate k zero ++ l) = trim_left l.
Proof. by induction k. Qed.
Lemma Trim_nul_zeros l k :
  Trim_nul (String.string_of_list_ascii (l ++ replicate k zero)) = Trim_nul (String.string_of_list_ascii l).
Proof.
  unfold Trim_nul. rewrite !String.list_ascii_of_string_of_list_ascii, trim_left_app_zeros.
  destruct (decide _) as [->|]; [done|]. by rewrite reverse_app, reverse_replicate, trim_left_zeros_app.
Qed.

Lemma string_of_list_app l k : String.string_of_list_ascii (l ++ k) = String.string_of_list_ascii l +:+ String.string_of_list_ascii k.
Proof.
  induction l as [|c l IH]; [done|]. cbn. rewrite IH. done.
Qed.
Lemma list_of_string_app (s t : string) : String.list_ascii_of_string (s +:+ t) = String.list_ascii_of_string s ++ String.list_ascii_of_string t.
Proof. induction s as [|c s IH]; [done|]. change (c :: String.list_ascii_of_string (s +:+ t) = c :: (String.list_ascii_of_string s ++ String.list_ascii_of_string t)). by rewrite IH. Qed.

Lemma length_list_of_string (s : string) : length (String.list_ascii_of_string s) = String.length s.
Proof. induction s as [|c s IH]; [done|]. cbn. by rewrite IH. Qed.
Lemma length_base64_Encode s : String.length (base64_Encode s) = (4 * ((String.length s + 2) / 3))%nat.
Proof.
  rewrite <-(length_list_of_string (base64_Encode s)). unfold base64_Encode.
  rewrite String.list_ascii_of_string_of_list_ascii. destruct (b64_encode_spec (String.list_ascii_of_string s)) as (_ & _ & ->).
  by rewrite length_list_of_string.
Qed.

(** The buffer has what was encoded and at most two bytes more. *)
Lemma decoded_buffer_Encode s : ∃ k,
  decoded_buffer (base64_Encode s) (String.list_ascii_of_string s) = s +:+ String.string_of_list_ascii (replicate k zero).
Proof.
  unfold decoded_buffer. rewrite length_base64_Encode, (Nat.mul_comm 4), Nat.div_mul, length_list_of_string by lia.
  set (n := ((String.length s + 2) / 3 * 3)%nat). assert (String.length s ≤ n)%nat.
  { unfold n. pose proof (Nat.div_mod_eq (String.length s + 2) 3). pose proof (Nat.mod_upper_bound (String.length s + 2) 3). lia. }
  exists (n - String.length s)%nat. rewrite take_ge by (rewrite length_app, length_replicate, length_list_of_string; lia).
  by rewrite string_of_list_app, String.string_of_list_ascii_of_string.
Qed.

Section parse_facts.
Context `{NetURL}.

(** C37: Credentials that a client encoded as [user:password] come back, with the zero bytes around
    the password trimmed; the padding of the buffer never shows. *)
Theorem ParseAuth_decodes user pass a host :
  contains ":" user = false → Username a = ""%string → IdentityToken a = ""%string →
  Auth a = base64_Encode (user +:+ ":" +:+ pass) →
  ServerAddress a = ""%string ∨ (∃ u, url_Parse (ServerAddress a) = Some u ∧ Host u = host) →
  ParseAuth (Some a) host = Ok (user, Trim_nul pass).
Proof.
  intros Hu Hn Ht Ha Hs. unfold ParseAuth. rewrite Hn, Ht, Ha.
  assert ((if (ServerAddress a =? "")%string then Ok true
           else match url_Parse (ServerAddress a) with
                | None => Err (ErrorString "parse server address")
                | Some u => Ok (host =? Host u)%string
                end) = Ok true) as ->.
  { destruct (String.eqb_spec (ServerAddress a) ""); [done|]. destruct Hs as [?|(u & -> & <-)]; [done|]. by rewrite String.eqb_refl. }
  cbn [mbind outcome_bind negb String.eqb].
  destruct (String.eqb_spec (base64_Encode (user +:+ ":" +:+ pass)) "") as [E|_].
  { exfalso. apply (f_equal String.length) in E. rewrite length_base64_Encode, !string_length_app in E.
    change (String.length ":") with 1%nat in E. change (String.length "") with 0%nat in E.
    assert (1 ≤ (String.length user + (1 + String.length pass) + 2) / 3)%nat by (apply Nat.div_le_lower_bound; lia). lia. }
  cbn [negb]. rewrite base64_Decode_Encode. destruct (decoded_buffer_Encode (user +:+ ":" +:+ pass)) as [k ->]. cbv zeta.
  replace ((user +:+ ":" +:+ pass) +:+ String.string_of_list_ascii (replicate k zero))%string
    with (user +:+ String ":" (pass +:+ String.string_of_list_ascii (replicate k zero)))%string
    by (symmetry; apply (string_app_assoc user (":" +:+ pass))).
  rewrite contains_app. cbn [contains]. rewrite Ascii.eqb_refl, orb_true_r. cbn. rewrite cut_app by done.
  rewrite <-(String.string_of_list_ascii_of_string pass) at 1. rewrite <-string_of_list_app, Trim_nul_zeros.
  by rewrite String.string_of_list_ascii_of_string.
Qed.

(** A server whose address does not match is given nothing. *)
Lemma ParseAuth_other_server a host u : ServerAddress a ≠ ""%string → url_Parse (ServerAddress a) = Some u → Host u ≠ host →
  ParseAuth (Some a) host = Ok ("", "")%string.
Proof.
  intros Hs Hu Hh. unfold ParseAuth. rewrite (proj2 (String.eqb_neq _ _) Hs), Hu. cbn.
  by rewrite (proj2 (String.eqb_neq host (Host u)) (not_eq_sym Hh)).
Qed.
End parse_facts.

(** ** Names of Docker Hub *)
Definition is_docker_hub (host : string) : bool := (host =? "docker.io")%string || (host =? "registry-1.docker.io")%string.

(** ** The CRI image service

    A proxy that keeps the credentials of the images it is asked to pull. *)
Module CRI.
Section service.
Context {C W Req Resp : Type} `{NetURL}.
(** A request of the image service: the image it names and the credentials it carries; the
    backend that serves it; the canonical form of a reference. *)
Context (image_of : Req → string) (auth_of : Req → option AuthConfig).
Context (backend : string → C → Req → ST W Resp) (parseReference : string → outcome string).

Record instrumentedService := mkService {
  cri : option C;
  config : gmap string (option AuthConfig)
}.

Definition not_ready : error := ErrorString "server is not initialized yet".

(** [NewCRIKeychain]: a hundred attempts to connect. *)
Fixpoint connect (attempts : list (outcome C)) : option C :=
  match attempts with
  | [] => None
  | Ok c :: _ => Some c
  | _ :: rest => connect rest
  end.
Definition connected (connectCRI : nat → outcome C) (in_ : instrumentedService) : instrumentedService :=
  match connect (connectCRI <$> seq 0 100) with
  | Some c => mkService (Some c) (config in_)
  | None => in_
  end.

Definition credentials (in_ : instrumentedService) (ref host : string) : outcome (string * string) :=
  let host := if is_docker_hub host then "index.docker.io"%string else host in
  match config in_ !! ref with
  | Some cfg => ParseAuth cfg host
  | None => Ok ("", "")%string
  end.

(** Requests that are passed on. *)
Definition forward (name : string) (r : Req) : ST (instrumentedService * W) Resp := λ '(in_, w),
  match cri in_ with
  | None => (Err not_ready, (in_, w))
  | Some c => let '(o, w) := backend name c r w in (o, (in_, w))
  end.
Definition ListImages := forward "ListImages".
Definition ImageStatus := forward "ImageStatus".
Definition ImageFsInfo := forward "ImageFsInfo".

(** Requests that name an image whose credentials are kept or dropped first. *)
Definition recording (name : string) (upd : string → gmap string (option AuthConfig) → gmap string (option AuthConfig))
    (r : Req) : ST (instrumentedService * W) Resp := λ '(in_, w),
  match cri in_ with
  | None => (Err not_ready, (in_, w))
  | Some c =>
      match parseReference (image_of r) with
      | Ok ref =>
          let '(o, w) := backend name c r w in (o, (mkService (cri in_) (upd ref (config in_)), w))
      | Err e => (Err e, (in_, w))
      | Panic => (Panic, (in_, w))
      end
  end.
Definition PullImage (r : Req) : ST (instrumentedService * W) Resp :=
  recording "PullImage" (λ ref, <[ref := auth_of r]>) r.
Definition RemoveImage (r : Req) : ST (instrumentedService * W) Resp :=
  recording "RemoveImage" (λ ref, delete ref) r.

(** ** What the service remembers *)
Inductive call := CList (r : Req) | CStatus (r : Req) | CFsInfo (r : Req) | CPull (r : Req) | CRemove (r : Req).
Definition serve (c : call) : ST (instrumentedService * W) Resp :=
  match c with
  | CList r => ListImages r | CStatus r => ImageStatus r | CFsInfo r => ImageFsInfo r
  | CPull r => PullImage r | CRemove r => RemoveImage r
  end.
Definition serve_all (cs : list call) (s : instrumentedService * W) : instrumentedService * W :=
  foldl (λ s c, (serve c s).2) s cs.

(** The credentials of the last pull of [ref] that no removal followed. *)
Definition remembers (ref : string) (c : call) (known : option (option AuthConfig)) : option (option AuthConfig) :=
  match c with
  | CPull r => if bool_decide (parseReference (image_of r) = Ok ref) then Some (auth_of r) else known
  | CRemove r => if bool_decide (parseReference (image_of r) = Ok ref) then None else known
  | _ => known
  end.
Definition last_pull (ref : string) (cs : list call) (known : option (option AuthConfig)) : option (option AuthConfig) :=
  foldl (λ k c, remembers ref c k) known cs.

Lemma serve_config c ref in_ w cl : cri in_ = Some cl →
  cri (serve c (in_, w)).2.1 = Some cl ∧ config (serve c (in_, w)).2.1 !! ref = remembers ref c (config in_ !! ref).
Proof.
  intros Hc. destruct c as [r|r|r|r|r]; cbn; unfold forward, recording; rewrite Hc; cbn;
    try (destruct (parseReference (image_of r)) as [ref'|e|]; cbn; [|by rewrite ?bool_decide_false|by rewrite ?bool_decide_false]);
    (destruct (backend _ cl r w) as [o w']; cbn; rewrite ?Hc); (split; [done|]); try done.
  - destruct (bool_decide_reflect (Ok ref' = Ok ref)) as [[= ->]|Hn]; [by rewrite lookup_insert_eq|].
    by rewrite lookup_insert_ne by (intros ->; done).
  - destruct (bool_decide_reflect (Ok ref' = Ok ref)) as [[= ->]|Hn]; [by rewrite lookup_delete_eq|].
    by rewrite lookup_delete_ne by (intros ->; done).
Qed.

Lemma serve_all_config cs ref in_ w cl : cri in_ = Some cl →
  config (serve_all cs (in_, w)).1 !! ref = last_pull ref cs (config in_ !! ref).
Proof.
  revert in_ w. induction cs as [|c cs IH]; intros in_ w Hc; [done|].
  change (config (serve_all cs (serve c (in_, w)).2).1 !! ref = last_pull ref cs (remembers ref c (config in_ !! ref))).
  destruct (serve_config c ref in_ w cl Hc) as [Hc' Hk]. destruct (serve c (in_, w)).2 as [in' w']. cbn in *.
  rewrite IH by done. by rewrite Hk.
Qed.

(** Once connected, whatever requests came, and whether the backend served them: an image is
    given the credentials of the last request to pull it, unless a request to remove it followed;
    credentials are not dropped when the pull completes. *)
Theorem cri_credentials cs ref host in_ w cl : cri in_ = Some cl → config in_ = ∅ →
  credentials (serve_all cs (in_, w)).1 ref host =
  match last_pull ref cs None with
  | Some auth => ParseAuth auth (if is_docker_hub host then "index.docker.io"%string else host)
  | None => Ok ("", "")%string
  end.
Proof.
  intros Hc He. unfold credentials. rewrite (serve_all_config cs ref in_ w cl Hc), He, lookup_empty. done.
Qed.
End service.
End CRI.

(** ** The docker configuration file *)
Section docker.
(** [config.Load], and the entry of a host in what it loads. *)
Context {F : Type} (Load : outcome F) (GetAuthConfig : F → string → outcome AuthConfig).

Definition DockerCreds (host : string) : outcome (string * string) :=
  match Load with
  | Err _ => Ok ("", "")%string
  | Panic => Panic
  | Ok cf =>
      ac ← GetAuthConfig cf (if is_docker_hub host then "https://index.docker.io/v1/"%string else host);
      if negb (IdentityToken ac =? "")%string then Ok (""%string, IdentityToken ac)
      else Ok (Username ac, Password ac)
  end.
End docker.

(** ** The secrets of a cluster *)
Module Kube.
Section keychain.
Context {F : Type} `{MapRange} (GetAuthConfig : F → string → outcome AuthConfig).
(** A secret: its data, if any, under the key of docker configurations. *)
Context (LoadFromReader : bytes → outcome F).

Record keychain := mkKeychain { kc_config : gmap string F; queue : list string }.

Fixpoint first_auth (host : string) (l : list (string * F)) : string * string :=
  match l with
  | [] => ("", "")%string
  | (_, cfg) :: l =>
      match GetAuthConfig cfg host with
      | Ok ac =>
          if negb (IdentityToken ac =? "")%string then (""%string, IdentityToken ac)
          else if negb (Username ac =? "")%string || negb (Password ac =? "")%string then (Username ac, Password ac)
          else first_auth host l
      | _ => first_auth host l
      end
  end.
Definition credentials (kc : keychain) (host : string) : string * string :=
  first_auth (if is_docker_hub host then "https://index.docker.io/v1/"%string else host) (map_range (kc_config kc)).

(** The handlers of the informer put the key of a secret that changed in the queue; a key that
    waits already is not put in again. *)
Definition enqueue (key : string) (kc : keychain) : keychain :=
  if bool_decide (key ∈ queue kc) then kc else mkKeychain (kc_config kc) (queue kc ++ [key]).

(** One item, with what the informer's store has for a key: an error, nothing, or a secret. *)
Definition sync_key (store : string → outcome (option (option bytes))) (key : string) (m : gmap string F) : gmap string F :=
  match store key with
  | Ok None => delete key m
  | Ok (Some (Some data)) => match LoadFromReader data with Ok cfg => <[key := cfg]> m | _ => m end
  | _ => m
  end.
Definition processNextItem (store : string → outcome (option (option bytes))) (kc : keychain) : keychain :=
  match queue kc with
  | [] => kc
  | key :: rest => mkKeychain (sync_key store key (kc_config kc)) rest
  end.
Fixpoint runWorker (n : nat) (store : string → outcome (option (option bytes))) (kc : keychain) : keychain :=
  match n with O => kc | S n => runWorker n store (processNextItem store kc) end.

(** What a secret of the store should give. *)
Definition synced (store : string → outcome (option (option bytes))) (kc : keychain) (key : string) : Prop :=
  match store key with
  | Ok None => kc_config kc !! key = None
  | Ok (Some (Some data)) => match LoadFromReader data with Ok cfg => kc_config kc !! key = Some cfg | _ => True end
  | _ => True
  end.

Lemma sync_key_synced store key m q : synced store (mkKeychain (sync_key store key m) q) key.
Proof.
  unfold synced, sync_key. destruct (store key) as [[[data|]|]|e|]; cbn; try done; [|by rewrite lookup_delete_eq].
  destruct (LoadFromReader data); [by rewrite lookup_insert_eq|done|done].
Qed.
Lemma sync_key_other store key key' m : key ≠ key' → sync_key store key m !! key' = m !! key'.
Proof.
  intros Hne. unfold sync_key. destruct (store key) as [[[data|]|]|e|]; try done; [|by rewrite lookup_delete_ne].
  destruct (LoadFromReader data); [by rewrite lookup_insert_ne|done|done].
Qed.

Lemma synced_ext store kc kc' key : kc_config kc !! key = kc_config kc' !! key → synced store kc key → synced store kc' key.
Proof. unfold synced. by intros ->. Qed.

(** Every secret that waits is synced once the worker has gone through the queue, and stays so. *)
Lemma runWorker_synced store kc key : key ∈ queue kc ∨ synced store kc key → synced store (runWorker (length (queue kc)) store kc) key.
Proof.
  destruct kc as [m q]. cbn. revert m. induction q as [|k q IH]; intros m Hk; cbn.
  { destruct Hk as [Hk|?]; [by apply not_elem_of_nil in Hk|done]. }
  apply IH. destruct (decide (k = key)) as [->|Hne]; [right; apply sync_key_synced|].
  destruct Hk as [Hk|Hk]; [left; apply elem_of_cons in Hk as [?|?]; congruence|right].
  eapply synced_ext; [|exact Hk]. cbn. by rewrite sync_key_other.
Qed.
End keychain.
End Kube.
