(* ===== verification/CriRegistry.v ===== *)
(** * Registry hosts from the configuration of the CRI plugin

    Models the rest of [service/resolver/cri.go]: the endpoints of a host, in the list of mirrors
    that all lookups share, the hosts made of them, and the TLS settings.  [net/url],
    [crypto/tls] and containerd's [docker] packages are parameters. *)
From Stdlib Require Import ZArith Lia.
From stdpp Require Import base list gmap strings.
From S2P Require Import Prelude GoLib HttpUtil ResolverClient Keychain.

(** ** TLS *)
Record TLSConfig := mkTLS { InsecureSkipVerify : bool; CAFile : string; CertFile : string; KeyFile : string }.
(** [tls.Config]: a certificate, roots other than the system's, verification. *)
Record tls_Config (Cert Pool : Type) := mk_tls { Certificate : option Cert; RootCAs : option Pool; SkipVerify : bool }.
Arguments mk_tls {Cert Pool}.

Section tls.
Context {Cert Pool : Type} (LoadX509KeyPair : string → string → outcome Cert) (cert_empty : Cert → bool)
  (SystemCertPool : outcome Pool) (ReadFile : string → outcome bytes) (AppendCertsFromPEM : Pool → bytes → Pool).

Definition getTLSConfig (c : TLSConfig) : outcome (tls_Config Cert Pool) :=
  let no_cert := (CertFile c =? "")%string in
  let no_key := (KeyFile c =? "")%string in
  if negb no_cert && no_key then Err (ErrorString "cert file was specified, but no corresponding key file was specified")
  else if no_cert && negb no_key then Err (ErrorString "key file was specified, but no corresponding cert file was specified")
  else
    cert ← (if negb no_cert && negb no_key then
              c ← map_err (Wrap "failed to load cert file") (LoadX509KeyPair (CertFile c) (KeyFile c));
              Ok (if cert_empty c then None else Some c)
            else Ok None);
    roots ← (if (CAFile c =? "")%string then Ok None
             else
               pool ← map_err (Wrap "failed to get system cert pool") SystemCertPool;
               ca ← map_err (Wrap "failed to load CA file") (ReadFile (CAFile c));
               Ok (Some (AppendCertsFromPEM pool ca)));
    Ok (mk_tls cert roots (InsecureSkipVerify c)).
End tls.

(** ** Endpoints *)
(** [strings.Contains] *)
Fixpoint Contains (s sub : string) : bool :=
  HasPrefix s sub || match s with EmptyString => false | String _ s => Contains s sub end.

Record RegistryConfig := mkRegistryConfig { rc_Auth : option AuthConfig; rc_TLS : option TLSConfig }.
Record Registry := mkCRI { ConfigPath : string; Mirrors : gmap string (list string); Configs : gmap string RegistryConfig }.

Record CriHost := mkCriHost { ch_tls : option TLSConfig; ch_Host : string; ch_Scheme : string; ch_Path : string }.

Section endpoints.
Context `{NetURL} (DefaultHost : string → outcome string) (IsLocalhost : string → bool).

Definition DefaultScheme (host : string) : string := if IsLocalhost host then "http" else "https".

Definition addDefaultScheme (endpoint : string) : outcome string :=
  if Contains endpoint "://" then Ok endpoint
  else match url_Parse ("dummy://" +:+ endpoint) with
  | None => Err (ErrorString "parse")
  | Some u => Ok (DefaultScheme (Host u) +:+ "://" +:+ endpoint)%string
  end.

(** [for i := range endpoints]: the elements are replaced in place, up to the first error. *)
Fixpoint add_schemes (endpoints : list string) : outcome () * list string :=
  match endpoints with
  | [] => (Ok (), [])
  | e :: es =>
      match addDefaultScheme e with
      | Ok en => let '(o, es') := add_schemes es in (o, en :: es')
      | Err err => (Err (Wrap "parse endpoint url" err), e :: es)
      | Panic => (Panic, e :: es)
      end
  end.

(** Is one of them the host itself? *)
Fixpoint has_host (host : string) (endpoints : list string) : outcome bool :=
  match endpoints with
  | [] => Ok false
  | e :: es =>
      match url_Parse e with
      | None => Err (ErrorString "parse endpoint url")
      | Some u => if (Host u =? host)%string then Ok true else has_host host es
      end
  end.

(** The list that is used, and changed: that of the host, or the wildcard's. *)
Definition mirror_key (mirrors : gmap string (list string)) (host : string) : string :=
  match mirrors !! host with Some _ => host | None => "*" end.

Definition registryEndpoints (mirrors : gmap string (list string)) (host : string) :
    outcome (list string) * gmap string (list string) :=
  let key := mirror_key mirrors host in
  let endpoints := default [] (mirrors !! key) in
  match DefaultHost host with
  | Err e => (Err (Wrap "get default host" e), mirrors)
  | Panic => (Panic, mirrors)
  | Ok defaultHost =>
      let '(o, endpoints) := add_schemes endpoints in
      (* nothing to write through when there is no list *)
      let mirrors := match mirrors !! key with Some _ => <[key := endpoints]> mirrors | None => mirrors end in
      match o with
      | Ok _ =>
          (b ← has_host host endpoints;
           Ok (if b : bool then endpoints else endpoints ++ [DefaultScheme defaultHost +:+ "://" +:+ defaultHost]%string), mirrors)
      | Err e => (Err e, mirrors)
      | Panic => (Panic, mirrors)
      end
  end.

(** ** Hosts *)
Definition cri_host (configs : gmap string RegistryConfig) (tls : TLSConfig → outcome ()) (e : string) : outcome CriHost :=
  match url_Parse e with
  | None => Err (ErrorString "parse registry endpoint from mirrors")
  | Some u =>
      let config := configs !! Host u in
      _ ← match config ≫= rc_TLS with
          | Some t => map_err (Wrap "get TLSConfig for registry") (tls t)
          | None => Ok ()
          end;
      Ok (mkCriHost (config ≫= rc_TLS) (Host u) (Scheme u) (if (Path u =? "")%string then "/v2" else Path u)%string)
  end.
Fixpoint cri_hosts (configs : gmap string RegistryConfig) (tls : TLSConfig → outcome ()) (es : list string) : outcome (list CriHost) :=
  match es with
  | [] => Ok []
  | e :: es => h ← cri_host configs tls e; hs ← cri_hosts configs tls es; Ok (h :: hs)
  end.

(** [hostDirFromRoots]: the first root that has a directory for the host, or that fails. *)
Fixpoint hostDirFromRoots (IsNotFound : error → bool) (roots : list (string → outcome string)) (host : string)
    (last : outcome string) : outcome string :=
  match roots with
  | [] => last
  | fn :: roots =>
      let r := fn host in
      match r with
      | Ok dir => if (dir =? "")%string then hostDirFromRoots IsNotFound roots host r else r
      | Err e => if IsNotFound e then hostDirFromRoots IsNotFound roots host r else r
      | Panic => Panic
      end
  end.

(** [RegistryHostsFromCRIConfig] for a configuration without a directory of host files. *)
Definition RegistryHostsFromCRIConfig (config : Registry) (tls : TLSConfig → outcome ()) (host : string) :
    outcome (list CriHost) * Registry :=
  let '(o, mirrors) := registryEndpoints (Mirrors config) host in
  let config' := mkCRI (ConfigPath config) mirrors (Configs config) in
  (match o with
   | Ok endpoints => cri_hosts (Configs config) tls endpoints
   | Err e => Err (Wrap "get registry endpoints" e)
   | Panic => Panic
   end, config').

(** ** Lookups do not disturb each other *)
Lemma Contains_scheme h e : Contains (DefaultScheme h +:+ "://" +:+ e) "://" = true.
Proof. unfold DefaultScheme. by destruct (IsLocalhost h), e. Qed.
Lemma addDefaultScheme_idem e en : addDefaultScheme e = Ok en → addDefaultScheme en = Ok en.
Proof.
  unfold addDefaultScheme. destruct (Contains e "://") eqn:Ec; [intros [= <-]; by rewrite Ec|].
  destruct (url_Parse _); [|done]. intros [= <-]. by rewrite Contains_scheme.
Qed.
Lemma add_schemes_idem es : add_schemes (add_schemes es).2 = add_schemes es.
Proof.
  induction es as [|e es IH]; [done|]. cbn [add_schemes]. destruct (addDefaultScheme e) as [en|err|] eqn:Ee.
  - destruct (add_schemes es) as [o es']. cbn in *. by rewrite (addDefaultScheme_idem _ _ Ee), IH.
  - cbn [snd add_schemes]. by rewrite Ee.
  - cbn [snd add_schemes]. by rewrite Ee.
Qed.

(** Looking a host up changes the shared list, to one that gives the same answer and that looking
    up again does not change. *)
Lemma registryEndpoints_stable mirrors host :
  registryEndpoints (registryEndpoints mirrors host).2 host = registryEndpoints mirrors host.
Proof.
  unfold registryEndpoints. destruct (DefaultHost host) as [dh|e|] eqn:Ed; cbn [snd]; rewrite ?Ed; [|done|done].
  set (key := mirror_key mirrors host).
  destruct (mirrors !! key) as [es|] eqn:Ek; cbn [from_option]; unfold id.
  - pose proof (add_schemes_idem es) as Hid. destruct (add_schemes es) as [o es'] eqn:Ea. cbn in Hid.
    assert (mirror_key (<[key := es']> mirrors) host = key) as Hkey.
    { unfold key, mirror_key in *. destruct (mirrors !! host) eqn:Eh; [by rewrite lookup_insert_eq|].
      destruct (decide (host = "*"%string)) as [->|]; [congruence|]. by rewrite lookup_insert_ne, Eh by done. }
    destruct o as [[]|e|]; cbn [snd]; rewrite Hkey, lookup_insert_eq; cbn [from_option]; unfold id; rewrite Hid; by rewrite insert_insert_eq.
  - cbn [snd add_schemes]. fold key. by rewrite Ek.
Qed.
End endpoints.
