(* ===== verification/Service.v ===== *)
(** * Setting the daemon up

    Models what [service/service.go], [service/plugin/plugin.go] and
    [cmd/soci-snapshotter-grpc/main.go] decide from the configuration: the options of the
    snapshotter and of the file system, the checks of [NewFilesystem], the providers of
    credentials in their order, the metadata store, the address to listen on, and when the
    daemon cleans up.  gRPC, sockets, signals and databases are parameters. *)
From Stdlib Require Import ZArith Lia.
From stdpp Require Import base list gmap strings.
From S2P Require Import Prelude GoLib HttpUtil Config ResolverClient Snapshot UnpackJobs FsParallel.
From S2P Require Import Config.
#[local] Open Scope Z_scope.

(** ** [NewSociSnapshotterService] *)
(** The options for the file system, in the order they are applied. *)
Inductive opaqueType := OverlayOpaqueTrusted | OverlayOpaqueUser.
Record fsOptions := mkFsOptions {
  fo_opaque : opaqueType;
  fo_pullModes : PullModes;
  fo_resolver : ResolverConfig;
  fo_maxConcurrency : option Z
}.

Definition service_fsOpts (userxattr : bool) (cfg : ServiceConfig) : fsOptions :=
  mkFsOptions (if userxattr then OverlayOpaqueUser else OverlayOpaqueTrusted) (svc_PullModes cfg) (svc_resolver cfg)
    (if MaxConcurrency (svc_fs cfg) =? 0 then None else Some (MaxConcurrency (svc_fs cfg))).

Definition service_snOpts (cfg : ServiceConfig) : list SOpt :=
  let par := pm_Parallel (svc_PullModes cfg) in
  [WithAsynchronousRemove] ++
  (if -1 <? MinLayerSize (svc_snapshotter cfg) then [WithMinLayerSize (MinLayerSize (svc_snapshotter cfg))] else []) ++
  (if Config.AllowInvalidMountsOnRestart (svc_snapshotter cfg) then [Snapshot.AllowInvalidMountsOnRestart] else []) ++
  (if parallel_Enable par then [ParallelPullUnpack] else []) ++
  (if ExperimentalParallelPullAsFallback par && negb (parallel_Enable par) then [ParallelPullAsFallback] else []).

(** The settings of parallel pulls, as the jobs that unpack layers know them. *)
Definition parallel_settings (par : Config.Parallel) : UnpackJobs.Parallel :=
  let p := parallel_cfg par in
  UnpackJobs.mkParallel (parallel_Enable par) (Config.ExperimentalParallelPullAsFallback par) (Config.MaxConcurrentDownloads p)
    (Config.MaxConcurrentDownloadsPerImage p) (Config.ConcurrentDownloadChunkSize p) (Config.MaxConcurrentUnpacks p)
    (Config.MaxConcurrentUnpacksPerImage p) (Config.DiscardUnpackedLayers p).

(** [time.NewTicker]: panics on a period that is not positive. *)
Definition NewTicker (d : Z) : outcome () := if d <=? 0 then Panic else Ok ().
(** The background fetcher that [NewFilesystem] starts: [Run] makes its ticker first. *)
Definition start_background_fetcher (fs : FSConfig) : outcome () :=
  if Disable (fs_bg fs) then Ok () else NewTicker (sec (EmitMetricPeriodSec (fs_bg fs))).

Definition NewSociSnapshotterService (userxattr : bool) (cfg : ServiceConfig) : outcome (fsOptions * Snapshot.SnapshotterConfig) :=
  let fo := service_fsOpts userxattr cfg in
  _ ← parallel_store_ok (parallel_settings (pm_Parallel (fo_pullModes fo))) (store_Type (fs_store (svc_fs cfg)));
  _ ← start_background_fetcher (svc_fs cfg);
  Ok (fo, foldl (λ c o, o c) (mkSC false 0 false false false) (service_snOpts cfg)).

(** ** Keychains *)
Inductive provider := DockerConfig | Kubeconfig (path : option string) | CRIKeychain (backend : string).

Definition main_creds (cfg : ServiceConfig) : list provider :=
  [DockerConfig] ++
  (if kube_EnableKeychain (svc_kube cfg) then
     [Kubeconfig (if (KubeconfigPath (svc_kube cfg) =? "")%string then None else Some (KubeconfigPath (svc_kube cfg)))] else []) ++
  (if cri_EnableKeychain (svc_cri cfg) then [CRIKeychain (ImageServicePath (svc_cri cfg))] else []).

(** The plugin: the address of containerd stands in for one that is not configured, but the
    connection is made to the configured one. *)
Definition plugin_creds (cfg : ServiceConfig) (image_service_path containerd_address : string) : outcome (list provider) :=
  cri ← (if cri_EnableKeychain (svc_cri cfg) && negb (image_service_path =? "")%string then
           let criAddr := if (ImageServicePath (svc_cri cfg) =? "")%string then containerd_address else ImageServicePath (svc_cri cfg) in
           if (criAddr =? "")%string then Err (ErrorString "backend CRI service address is not specified")
           else Ok [CRIKeychain (ImageServicePath (svc_cri cfg))]
         else Ok []);
  Ok ([DockerConfig] ++
      (if kube_EnableKeychain (svc_kube cfg) then
         [Kubeconfig (if (KubeconfigPath (svc_kube cfg) =? "")%string then None else Some (KubeconfigPath (svc_kube cfg)))] else []) ++
      cri).

(** ** The metadata store *)
Record metadataStore := mkMetadataStore { per_layer : bool; NoSync : bool; insertionChunkSize : option Z }.
Definition getMetadataStore (cfg : Config) : outcome metadataStore :=
  if ((MetadataStore cfg =? "") || (MetadataStore cfg =? "db"))%string then
    Ok (mkMetadataStore false (MetadataDBNoSync cfg)
          (if 0 <? MetadataInsertionChunkSize cfg then Some (MetadataInsertionChunkSize cfg) else None))
  else if (MetadataStore cfg =? "db-multi")%string then Ok (mkMetadataStore true false None)
  else Err (ErrorString "unknown metadata store type").

(** ** Listening *)
Fixpoint Cut (sep s : string) : option (string * string) :=
  if HasPrefix s sep then Some (""%string, str_drop (String.length sep) s)
  else match s with
  | EmptyString => None
  | String c s => '(a, b) ← Cut sep s; Some (String c a, b)
  end.

Inductive listener := Unix (path : string) | Fd.
Definition listen (defaultAddress address : string) (activated : nat) : outcome listener :=
  let '(protocol, addr) := default ("unix"%string, address) (Cut "://" address) in
  if (protocol =? "unix")%string then Ok (Unix addr)
  else if (protocol =? "fd")%string then
    match activated with
    | O => Ok (Unix defaultAddress)
    | 1%nat => Ok Fd
    | _ => Err (ErrorString "soci only supports a single systemd socket on activation")
    end
  else Err (ErrorString "unknown protocol for address").

(** What ends [serve]: the state is cleaned up on an interrupt only. *)
Inductive ending := SIGINT | SIGTERM | Failed (e : error).
Definition serve_ends (e : ending) : outcome bool :=
  match e with SIGINT => Ok true | SIGTERM => Ok false | Failed e => Err e end.

(** ** Facts *)
Lemma NewTicker_sec n : 0 < n < 2 ^ 33 → NewTicker (sec n) = Ok ().
Proof. intros Hn. unfold NewTicker, sec. rewrite int64_id by (unfold in_int64; lia). by replace (n * 1000000000 <=? 0) with false by lia. Qed.

(** The service gets what was configured: the snapshotter removes asynchronously, skips layers
    below the configured size and uses parallel pulls as its mode or, if not, as the fallback; a
    mode that ingests layers is refused just when the store is not containerd's, and nothing
    panics as long as the metric period is positive and fits. *)
Theorem service_set_up userxattr svc :
  let par := pm_Parallel (svc_PullModes svc) in
  let needs_store := (parallel_Enable par || ExperimentalParallelPullAsFallback par) && negb (DiscardUnpackedLayers (parallel_cfg par)) in
  0 < EmitMetricPeriodSec (fs_bg (svc_fs svc)) < 2 ^ 33 →
  match NewSociSnapshotterService userxattr svc with
  | Ok (fo, sc) =>
      asyncRemove sc = true ∧ minLayerSize sc = Z.max 0 (MinLayerSize (svc_snapshotter svc)) ∧
      allowInvalidMountsOnRestart sc = Config.AllowInvalidMountsOnRestart (svc_snapshotter svc) ∧
      parallelPullUnpack sc = parallel_Enable par ∧
      parallelPullAsFallback sc = ExperimentalParallelPullAsFallback par && negb (parallel_Enable par) ∧
      fo_pullModes fo = svc_PullModes svc ∧
      (needs_store = true → store_Type (fs_store (svc_fs svc)) = ContainerdContentStoreType)
  | Err _ => needs_store = true ∧ store_Type (fs_store (svc_fs svc)) ≠ ContainerdContentStoreType
  | Panic => False
  end.
Proof.
  intros par needs_store Hp. unfold NewSociSnapshotterService, parallel_store_ok, start_background_fetcher. cbv zeta. cbn [fo_pullModes service_fsOpts].
  change FsParallel.ContainerdContentStoreType with ContainerdContentStoreType.
  cbn [parallel_settings UnpackJobs.Enable UnpackJobs.ExperimentalParallelPullAsFallback UnpackJobs.DiscardUnpackedLayers].
  fold par. rewrite (NewTicker_sec _ Hp).
  replace (if Disable (fs_bg (svc_fs svc)) then Ok () else Ok ()) with (Ok ()) by (by destruct (Disable _)).
  assert (∀ fo, let sc := foldl (λ c o, o c) (mkSC false 0 false false false) (service_snOpts svc) in fo = svc_PullModes svc →
      asyncRemove sc = true ∧ minLayerSize sc = Z.max 0 (MinLayerSize (svc_snapshotter svc)) ∧
      allowInvalidMountsOnRestart sc = Config.AllowInvalidMountsOnRestart (svc_snapshotter svc) ∧
      parallelPullUnpack sc = parallel_Enable par ∧
      parallelPullAsFallback sc = ExperimentalParallelPullAsFallback par && negb (parallel_Enable par) ∧ fo = svc_PullModes svc) as Hsc.
  { intros fo sc Hfo. subst sc. unfold service_snOpts. cbv zeta. fold par.
    destruct (Z.ltb_spec (-1) (MinLayerSize (svc_snapshotter svc)));
      destruct (Config.AllowInvalidMountsOnRestart (svc_snapshotter svc)), (parallel_Enable par), (ExperimentalParallelPullAsFallback par);
      cbn; split_and!; try done; lia. }
  destruct (String.eqb_spec (store_Type (fs_store (svc_fs svc))) ContainerdContentStoreType) as [Hst|Hst].
  - cbn [negb andb]. rewrite !andb_false_r. cbn. destruct (Hsc _ eq_refl) as (? & ? & ? & ? & ? & _). split_and!; try done.
  - subst needs_store. cbn [negb andb]. destruct (DiscardUnpackedLayers (parallel_cfg par)); cbn [negb]; rewrite ?andb_false_r, ?andb_true_r.
    + cbn. destruct (Hsc _ eq_refl) as (? & ? & ? & ? & ? & _). split_and!; try done.
    + destruct (parallel_Enable par) eqn:E1; [done|]. destruct (ExperimentalParallelPullAsFallback par) eqn:E2; [done|]. cbn in *.
      destruct (Hsc _ eq_refl) as (? & ? & ? & ? & ? & _). split_and!; done.
Qed.

(** The plugin of containerd passes its configuration without the parsers: with nothing set, the
    ticker of the background fetcher panics. *)
Lemma unparsed_config_panics userxattr : NewSociSnapshotterService userxattr (cfg_service zero_Config) = Panic.
Proof. reflexivity. Qed.

(** The plugin connects to the configured path even when it is empty and containerd's address was
    meant to stand in. *)
Lemma plugin_ignores_containerd_address cfg path addr : cri_EnableKeychain (svc_cri cfg) = true → path ≠ ""%string → addr ≠ ""%string →
  ImageServicePath (svc_cri cfg) = ""%string → ∃ l, plugin_creds cfg path addr = Ok (l ++ [CRIKeychain ""]).
Proof.
  intros He Hp Ha Hi. unfold plugin_creds. rewrite He, Hi, (proj2 (String.eqb_neq _ _) Hp). cbn.
  rewrite (proj2 (String.eqb_neq _ _) Ha). cbn. eexists. rewrite app_comm_cons. done.
Qed.

(** One database per layer ignores both settings of the metadata store. *)
Lemma multi_store_ignores_settings cfg : MetadataStore cfg = "db-multi"%string →
  getMetadataStore cfg = Ok (mkMetadataStore true false None).
Proof. intros E. unfold getMetadataStore. by rewrite E. Qed.
