(* ===== verification/Decompress.v ===== *)
(** * Configured decompressors

    Models [internal/archive/compression/compression.go] and [internal/os/filepath.go]: the
    commands an administrator configures to decompress layers are validated once, in the
    order the configuration map is ranged over, and serve the layers of their media types.
    The file system and the processes are parameters. *)
From Stdlib Require Import ZArith Lia Ascii.
From stdpp Require Import base list gmap strings numbers.
From S2P Require Import Prelude GoLib MetadataTree HttpUtil.
#[local] Open Scope Z_scope.

Definition errFilePathContainsInvalidCharacters : error := Sentinel "path contains invalid characters".
Definition errFilePathIsADirectory : error := Sentinel "path is a directory, not an executable file".
Definition errFilePathIsNotExecutable : error := Sentinel "file is not executable".

(** [os.Stat]: whether it is a directory, and the permission bits. *)
Record FileInfo := mkFI { fi_IsDir : bool; fi_Perm : Z }.

Record DecompressStreamConfig := mkDS { ds_Path : string; ds_Args : list string }.

Definition suspicious : list ascii := ["#"; "%"; "{"; "}"; "092"; "|"; ";"; "&"; "$"; "<"; ">"]%char.
Definition ContainsAny (s : string) (chars : list ascii) : bool := existsb (λ c, contains c s) chars.

Inductive Compression := Gzip | Zstd.
Record decompressor := mkDec { dec_Compression : Compression; dec_Path : string; dec_Args : list string }.

Definition dockerGzipDecompression : string := "application/vnd.docker.image.rootfs.diff.tar.gzip".
Definition ociGzipDecompression : string := "application/vnd.oci.image.layer.v1.tar+gzip".
Definition ociZstdDecompression : string := "application/vnd.oci.image.layer.v1.tar+zstd".

Section decompress.
Context (EvalSymlinks Abs : string → outcome string) (Stat : string → outcome FileInfo).
Context `{HM : MapRange}.

Definition SanitizeExecutablePath (path : string) : outcome string :=
  if ContainsAny path suspicious then Err errFilePathContainsInvalidCharacters
  else
    let cleanPath := path_Clean path in
    resolvedPath ← map_err (Wrap "failed to resolve symlinks") (EvalSymlinks cleanPath);
    absPath ← map_err (Wrap "failed to get absolute path") (Abs resolvedPath);
    info ← map_err (Wrap "path validation failed") (Stat absPath);
    if fi_IsDir info then Err errFilePathIsADirectory
    else if Z.land (fi_Perm info) 73 =? 0 then Err errFilePathIsNotExecutable   (* 0111 *)
    else Ok resolvedPath.

(** The package's variables: whether [initDecompressors] has run, its error, the streams. *)
Record decompressors := mkDecs {
  initialized : bool;
  initDecompressorsErr : option error;
  decompressStreams : gmap string decompressor
}.

Fixpoint init_streams (streams : list (string * DecompressStreamConfig)) (m : gmap string decompressor)
    : option error * gmap string decompressor :=
  match streams with
  | [] => (None, m)
  | (alg, c) :: rest =>
      match SanitizeExecutablePath (ds_Path c) with
      | Ok p =>
          if (alg =? "gzip")%string then
            let dec := mkDec Gzip p (ds_Args c) in
            init_streams rest (<[dockerGzipDecompression := dec]> (<[ociGzipDecompression := dec]> m))
          else if (alg =? "zstd")%string then
            init_streams rest (<[ociZstdDecompression := mkDec Zstd p (ds_Args c)]> m)
          else init_streams rest m
      | Err e => (Some (Wrap "decompressor path validation failed" e), m)
      | Panic => (Some (ErrorString "panic"), m)
      end
  end.

Definition InitializeDecompressStreams (streams : gmap string DecompressStreamConfig) (d : decompressors)
    : option error * decompressors :=
  if initialized d then (initDecompressorsErr d, d)
  else
    let '(e, m) := init_streams (map_range streams) (decompressStreams d) in
    (e, mkDecs true e m).

Definition GetDecompressStream (layerMediaType : string) (d : decompressors) : option decompressor :=
  decompressStreams d !! layerMediaType.

(** *** Running a command

    [Start] runs the command on its input: what it writes to its standard output and, when
    it fails, the error of [Wait] with what it wrote to its standard error.  The reader ends
    with that error, or with [io.EOF]. *)
Context (Start : string → list string → bytes → outcome (bytes * option error)).

Record DecompressReadCloser := mkDRC { rc_Reader : bytes * error; rc_Compression : Compression }.

Definition cmdStream (path : string) (args : list string) (input : bytes) : outcome (bytes * error) :=
  r ← Start path args input;
  Ok (r.1, default io_EOF r.2).

Definition decompress (dec : decompressor) (input : bytes) : outcome DecompressReadCloser :=
  r ← cmdStream (dec_Path dec) (dec_Args dec) input;
  Ok (mkDRC r (dec_Compression dec)).

(** ** Facts *)
(** What was accepted is an executable file with none of the characters in its name. *)
Lemma Sanitize_spec path p : SanitizeExecutablePath path = Ok p →
  ContainsAny path suspicious = false ∧ EvalSymlinks (path_Clean path) = Ok p ∧
  ∃ a info, Abs p = Ok a ∧ Stat a = Ok info ∧ fi_IsDir info = false ∧ Z.land (fi_Perm info) 73 ≠ 0.
Proof.
  unfold SanitizeExecutablePath. destruct (ContainsAny path suspicious); [done|].
  destruct (EvalSymlinks (path_Clean path)) as [r| |]; simpl; [|done..].
  destruct (Abs r) as [a| |] eqn:Ea; simpl; [|done..]. destruct (Stat a) as [info| |] eqn:Es; simpl; [|done..].
  destruct (fi_IsDir info) eqn:Ed; [done|]. destruct (Z.eqb_spec (Z.land (fi_Perm info) 73) 0); [done|].
  intros [= <-]. eauto 10.
Qed.

(** A decompressor comes from an entry of the configuration for its algorithm. *)
Definition configured (streams : gmap string DecompressStreamConfig) (mt : string) (dec : decompressor) : Prop :=
  ∃ alg c, streams !! alg = Some c ∧ SanitizeExecutablePath (ds_Path c) = Ok (dec_Path dec) ∧ dec_Args dec = ds_Args c ∧
    (alg = "gzip"%string ∧ dec_Compression dec = Gzip ∧ (mt = ociGzipDecompression ∨ mt = dockerGzipDecompression) ∨
     alg = "zstd"%string ∧ dec_Compression dec = Zstd ∧ mt = ociZstdDecompression).

Lemma init_streams_configured streams l m :
  (∀ alg c, (alg, c) ∈ l → streams !! alg = Some c) →
  (∀ mt dec, m !! mt = Some dec → configured streams mt dec) →
  ∀ mt dec, (init_streams l m).2 !! mt = Some dec → configured streams mt dec.
Proof.
  revert m. induction l as [|[alg c] l IH]; intros m Hl Hm; simpl; [done|].
  destruct (SanitizeExecutablePath (ds_Path c)) as [p| |] eqn:Ep; [|done..].
  assert (streams !! alg = Some c) as Hc by (apply Hl; left).
  assert (∀ alg c, (alg, c) ∈ l → streams !! alg = Some c) as Hl' by (intros; apply Hl; by right).
  destruct (String.eqb_spec alg "gzip") as [->|]; [|destruct (String.eqb_spec alg "zstd") as [->|] ]; [..|by apply IH];
    apply IH; try done; intros mt dec.
  - rewrite !lookup_insert_Some. intros [[<- <-]|[_ [[<- <-]|[_ ?] ] ] ]; [| |by apply Hm];
      exists "gzip"%string, c; naive_solver.
  - rewrite lookup_insert_Some. intros [[<- <-]|[_ ?] ]; [|by apply Hm]. exists "zstd"%string, c. naive_solver.
Qed.

(** Without an error, a valid configuration for gzip serves both media types of gzip layers,
    and one for zstd those of zstd, whatever the order of the map. *)
Lemma init_streams_complete l m : (init_streams l m).1 = None →
  ∀ alg c, (alg, c) ∈ l → NoDup l.*1 →
    ∃ p, SanitizeExecutablePath (ds_Path c) = Ok p ∧
    (alg = "gzip"%string → (init_streams l m).2 !! ociGzipDecompression = Some (mkDec Gzip p (ds_Args c)) ∧
       (init_streams l m).2 !! dockerGzipDecompression = Some (mkDec Gzip p (ds_Args c))) ∧
    (alg = "zstd"%string → (init_streams l m).2 !! ociZstdDecompression = Some (mkDec Zstd p (ds_Args c))).
Proof.
  assert (∀ l m mt, (mt = ociGzipDecompression ∨ mt = dockerGzipDecompression → "gzip"%string ∉ l.*1) →
    (mt = ociZstdDecompression → "zstd"%string ∉ l.*1) → (init_streams l m).2 !! mt = m !! mt) as Hkeep.
  { clear. intros l. induction l as [|[alg c] l IH]; intros m mt Hg Hz; simpl; [done|].
    destruct (SanitizeExecutablePath (ds_Path c)) as [p| |]; [|done..]. simpl in Hg, Hz.
    destruct (String.eqb_spec alg "gzip") as [->|]; [|destruct (String.eqb_spec alg "zstd") as [->|] ];
      rewrite IH by set_solver; [|..|done].
    - rewrite !lookup_insert_ne; [done|..]; intros <-; apply Hg; set_solver.
    - rewrite lookup_insert_ne; [done|]. intros <-. apply Hz; set_solver. }
  revert m. induction l as [|[alg0 c0] l IH]; intros m; simpl; [set_solver|].
  destruct (SanitizeExecutablePath (ds_Path c0)) as [p0| |] eqn:Ep0; [|done..].
  intros He alg c Hin [Hn Hnd]%list.NoDup_cons.
  apply elem_of_cons in Hin as [[= <- <-]|Hin].
  - exists p0. split; [done|].
    destruct (String.eqb_spec alg "gzip") as [->|Hg]; [|destruct (String.eqb_spec alg "zstd") as [->|Hz] ].
    + split; [|done]. intros _. rewrite !Hkeep by (done || set_solver). simplify_map_eq. done.
    + split; [done|]. intros _. rewrite Hkeep by (done || set_solver). by simplify_map_eq.
    + done.
  - destruct (String.eqb_spec alg0 "gzip"); [|destruct (String.eqb_spec alg0 "zstd")]; by eapply IH.
Qed.

(** After the decompressors are initialized, and however often it is done again with
    whatever configuration, a layer is handed to a command only if the first configuration
    has it for the layer's algorithm and its path named an executable file without
    suspicious characters; and if initialization reported no error every configured gzip
    command serves both media types of gzip layers and every zstd command its own. *)
Theorem decompressors_as_configured streams others d0 :
  initialized d0 = false → decompressStreams d0 = ∅ →
  let '(e, d) := InitializeDecompressStreams streams d0 in
  InitializeDecompressStreams others d = (e, d) ∧
  (∀ mt dec, GetDecompressStream mt d = Some dec → configured streams mt dec) ∧
  (e = None → ∀ alg c, streams !! alg = Some c → ∃ p, SanitizeExecutablePath (ds_Path c) = Ok p ∧
    (alg = "gzip"%string → ∀ mt, mt = ociGzipDecompression ∨ mt = dockerGzipDecompression →
       GetDecompressStream mt d = Some (mkDec Gzip p (ds_Args c))) ∧
    (alg = "zstd"%string → GetDecompressStream ociZstdDecompression d = Some (mkDec Zstd p (ds_Args c)))).
Proof.
  intros Hi Hm. unfold InitializeDecompressStreams. rewrite Hi, Hm.
  pose proof (init_streams_configured streams (map_range streams) ∅) as Hconf.
  pose proof (init_streams_complete (map_range streams) ∅) as Hcomp.
  destruct (init_streams (map_range streams) ∅) as [e m]. simpl in *. split; [done|]. split.
  - apply Hconf; [|by intros ??; rewrite lookup_empty]. intros alg c. by rewrite elem_of_map_range.
  - intros -> alg c Hc. destruct (Hcomp eq_refl alg c) as (p & Hp & Hg & Hz);
      [by rewrite elem_of_map_range|apply NoDup_fst_map_range|]. exists p. split; [done|].
    split; [|done]. intros Ha mt [->| ->]; by apply Hg.
Qed.
End decompress.
