(* ===== verification/MetadataMulti.v ===== *)
(** * A metadata database per layer

    Models [metadata/dbmulti.go]: the store that opens one bbolt file per layer.  The reader
    that made the file owns it; a clone shares it.  What is tracked is the files and the open
    handles; the reader over the database is the one of [MetadataTree], represented here by
    the outcomes of its calls.  File names are unique ([xid]). *)
From Stdlib Require Import ZArith Lia.
From stdpp Require Import base list gmap strings numbers.
From S2P Require Import Prelude GoLib MetadataTree.
#[local] Open Scope Z_scope.

Definition os_ErrNotExist : error := Sentinel "file does not exist".

(** Database files and open handles, by path. *)
Record disk := mkDisk { files : gset string; handles : gset string }.

(** [r_db] and [r_dbPath]: [None] for clones. *)
Record multiReader := mkMR { r_db : option string; r_dbPath : string }.

Definition db_path (dir xid : string) : string := path_Join dir ("metadata-" +:+ xid +:+ ".db").

Section multi.
(** [os.MkdirAll], [bolt.Open], [NewReader], [Reader.Clone], [Reader.Close] and
    [os.Remove] of a file that exists may fail. *)
Record calls := mkCalls {
  c_MkdirAll : outcome ();
  c_Open : outcome ();
  c_NewReader : outcome ();
  c_Clone : outcome ();
  c_ReaderClose : outcome ();
  c_DbClose : outcome ();
  c_Remove : outcome ()
}.

(** [bolt.DB.Close] releases the handle even when it reports an error. *)
Definition db_Close (c : calls) (p : string) (d : disk) : outcome () * disk :=
  (c_DbClose c, mkDisk (files d) (handles d ∖ {[p]})).
(** A file that is not there is [os.ErrNotExist]. *)
Definition os_Remove (c : calls) (p : string) (d : disk) : outcome () * disk :=
  if decide (p ∈ files d) then
    match c_Remove c with
    | Ok _ => (Ok tt, mkDisk (files d ∖ {[p]}) (handles d))
    | e => (e, d)
    end
  else (Err os_ErrNotExist, d).

Definition NewMultiReader (c : calls) (dir xid : string) (d : disk) : outcome multiReader * disk :=
  match c_MkdirAll c with
  | Err e => (Err (Wrap "failed to create metadata dir" e), d)
  | Panic => (Panic, d)
  | Ok _ =>
      let dbPath := db_path dir xid in
      match c_Open c with
      | Err e => (Err (Wrap "failed to open per-layer metadata db" e), d)
      | Panic => (Panic, d)
      | Ok _ =>
          let d := mkDisk ({[dbPath]} ∪ files d) ({[dbPath]} ∪ handles d) in
          match c_NewReader c with
          | Ok _ => (Ok (mkMR (Some dbPath) dbPath), d)
          | Err e => (Err e, (os_Remove c dbPath (db_Close c dbPath d).2).2)
          | Panic => (Panic, d)
          end
      end
  end.

Definition Clone (c : calls) (r : multiReader) : outcome multiReader :=
  match c_Clone c with Ok _ => Ok (mkMR None "") | Err e => Err e | Panic => Panic end.

(** The first error is kept. *)
Definition keep (r e : outcome ()) : outcome () := match r, e with Ok _, Err _ => e | _, _ => r end.

Definition Close (c : calls) (r : multiReader) (d : disk) : outcome () * disk :=
  let rErr := c_ReaderClose c in
  match r_db r with
  | None => (rErr, d)
  | Some db =>
      let '(cErr, d) := db_Close c db d in
      let rErr := keep rErr cErr in
      if (r_dbPath r =? "")%string then (rErr, d)
      else
        let '(rmErr, d) := os_Remove c (r_dbPath r) d in
        match rmErr with
        | Err e => if errors_Is e os_ErrNotExist then (rErr, d) else (keep rErr rmErr, d)
        | _ => (rErr, d)
        end
  end.
End multi.

(** ** Histories

    Readers by number; each is closed at most once.  Every call may go wrong in its own way. *)
Inductive mop := MNew (c : calls) (dir xid : string) | MClone (c : calls) (i : nat) | MClose (c : calls) (i : nat).
Record mstate := mkM { m_disk : disk; m_readers : gmap nat multiReader; m_next : nat }.

Definition mstep (o : mop) (s : mstate) : mstate :=
  match o with
  | MNew c dir xid =>
      match NewMultiReader c dir xid (m_disk s) with
      | (Ok r, d) => mkM d (<[m_next s := r]> (m_readers s)) (S (m_next s))
      | (_, d) => mkM d (m_readers s) (m_next s)
      end
  | MClone c i =>
      match m_readers s !! i with
      | Some r => match Clone c r with
                  | Ok r' => mkM (m_disk s) (<[m_next s := r']> (m_readers s)) (S (m_next s))
                  | _ => s
                  end
      | None => s
      end
  | MClose c i =>
      match m_readers s !! i with
      | Some r => mkM (Close c r (m_disk s)).2 (delete i (m_readers s)) (m_next s)
      | None => s
      end
  end.

Definition mrun (os : list mop) (s : mstate) : mstate := foldl (flip mstep) s os.
Definition mstart : mstate := mkM (mkDisk ∅ ∅) ∅ 0.

(** The path a call to make a reader uses. *)
Definition mop_path (o : mop) : option string := match o with MNew _ dir xid => Some (db_path dir xid) | _ => None end.

Definition owner_of (s : mstate) (i : nat) (p : string) : Prop := m_readers s !! i = Some (mkMR (Some p) p).

(** [used] are the paths of the calls so far. *)
Record minv (used : list string) (s : mstate) : Prop := {
  mi_shape i r : m_readers s !! i = Some r → r = mkMR None "" ∨ ∃ p, r = mkMR (Some p) p ∧ p ∈ used;
  mi_owner i p : owner_of s i p → p ∈ files (m_disk s) ∧ p ∈ handles (m_disk s);
  mi_unique i j p : owner_of s i p → owner_of s j p → i = j;
  mi_handles p : p ∈ handles (m_disk s) → ∃ i, owner_of s i p;
  mi_next i : is_Some (m_readers s !! i) → (i < m_next s)%nat
}.

Lemma minv_start : minv [] mstart.
Proof. split; unfold owner_of; simpl; try (intros *; rewrite lookup_empty; naive_solver). set_solver. Qed.

(** Making a reader does not panic, as the calls do not. *)
Definition no_panic (o : mop) : Prop :=
  match o with MNew c _ _ => c_NewReader c ≠ Panic | _ => True end.

Lemma os_Remove_handles c p d : handles (os_Remove c p d).2 = handles d ∧ files (os_Remove c p d).2 ⊆ files d ∧
  ∀ q, q ≠ p → q ∈ files d → q ∈ files (os_Remove c p d).2.
Proof. unfold os_Remove. repeat case_match; simpl; set_solver. Qed.

Lemma minv_new used c dir xid s : db_path dir xid ∉ used → c_NewReader c ≠ Panic → minv used s →
  minv (db_path dir xid :: used) (mstep (MNew c dir xid) s).
Proof.
  intros Hfresh Hnp [Hsh Ho Hu Hh Hn].
  assert (minv (db_path dir xid :: used) s) as Hsame.
  { split; try done. intros i r [->|(p & -> & ?)]%Hsh; [by left|right; exists p; set_solver]. }
  assert (∀ i, ¬ owner_of s i (db_path dir xid)) as Hno.
  { intros i [?|(p & [= <-] & ?)]%Hsh; [done|done]. }
  simpl. unfold NewMultiReader. destruct (c_MkdirAll c); [|by destruct s..].
  destruct (c_Open c); [|by destruct s..]. set (p := db_path dir xid) in *.
  destruct (c_NewReader c); [| |done].
  - split; simpl; unfold owner_of in *; simpl.
    + intros i r [[<- <-]|[_ [->|(q & -> & ?)]%Hsh] ]%lookup_insert_Some; [right|by left|right]; eexists; (split; [done|set_solver]).
    + intros i q [[<- [= <-] ]|[_ Hi] ]%lookup_insert_Some; [set_solver|]. apply Ho in Hi. set_solver.
    + intros i j q [[<- [= <-] ]|[Hne Hi] ]%lookup_insert_Some [[<- ?]|[Hne' Hj] ]%lookup_insert_Some; try done.
      * by apply Hno in Hj.
      * simplify_eq. by apply Hno in Hi.
      * by eapply Hu.
    + intros q [->%elem_of_singleton|Hq]%elem_of_union.
      * exists (m_next s). by rewrite lookup_insert_eq.
      * destruct (Hh q Hq) as [i Hi]. exists i. rewrite lookup_insert_ne; [done|].
        intros <-. assert (m_next s < m_next s)%nat by (apply Hn; by eexists). lia.
    + intros i [r [[<- _]|[_ Hi] ]%lookup_insert_Some]; [lia|]. assert (i < m_next s)%nat by (apply Hn; by eexists). lia.
  - destruct (os_Remove_handles c p (mkDisk ({[p]} ∪ files (m_disk s)) (({[p]} ∪ handles (m_disk s)) ∖ {[p]}))) as (He & _ & Hk).
    assert (p ∉ handles (m_disk s)) as Hph by (intros [i Hi]%Hh; by apply Hno in Hi).
    split; simpl; try done.
    + apply Hsame.
    + intros i q Hi. assert (q ≠ p) by (intros ->; by apply Hno in Hi). apply Ho in Hi as [Hf Hhd].
      rewrite He. simpl. split; [apply Hk; [done|]; simpl; set_solver|set_solver].
    + intros q. rewrite He. simpl. intros Hq. apply Hh. set_solver.
Qed.

Lemma minv_close used c i s : minv used s → minv used (mstep (MClose c i) s).
Proof.
  intros HI. pose proof HI as [Hsh Ho Hu Hh Hn]. simpl. destruct (m_readers s !! i) as [r|] eqn:Ei; [|done].
  assert (∀ j q, m_readers (mkM (Close c r (m_disk s)).2 (delete i (m_readers s)) (m_next s)) !! j = Some q →
    j ≠ i ∧ m_readers s !! j = Some q) as Hdel.
  { simpl. intros j q [? ?]%lookup_delete_Some. done. }
  destruct (Hsh _ _ Ei) as [->|(p & -> & _)].
  - split; unfold owner_of in *.
    + intros j q [_ ?]%Hdel. by apply (Hsh j).
    + simpl. intros j q [_ ?]%lookup_delete_Some. by eapply Ho.
    + intros j k q [_ ?]%Hdel [_ ?]%Hdel. by eapply Hu.
    + simpl. intros q [j Hj]%Hh. exists j. rewrite lookup_delete_ne; [done|]. intros ->. congruence.
    + simpl. intros j [q [_ ?]%lookup_delete_Some]. apply Hn. by eexists.
  - assert (handles (Close c (mkMR (Some p) p) (m_disk s)).2 = handles (m_disk s) ∖ {[p]} ∧
      ∀ q, q ≠ p → q ∈ files (m_disk s) → q ∈ files (Close c (mkMR (Some p) p) (m_disk s)).2) as [Hch Hcf].
    { unfold Close. simpl. destruct (p =? "")%string; [simpl; set_solver|].
      destruct (os_Remove_handles c p (mkDisk (files (m_disk s)) (handles (m_disk s) ∖ {[p]}))) as (He & _ & Hk).
      destruct (os_Remove c p _) as [o d]. simpl in *. destruct o; repeat case_match; simpl; auto. }
    assert (∀ j q, j ≠ i → owner_of s j q → q ≠ p) as Hne.
    { intros j q Hji Hj ->. apply Hji. by eapply Hu. }
    split; unfold owner_of in *.
    + intros j q [_ ?]%Hdel. by apply (Hsh j).
    + intros j q [Hji Hj]%Hdel. simpl. rewrite Hch. specialize (Hne j q Hji Hj). apply Ho in Hj as [? ?]. set_solver.
    + intros j k q [_ ?]%Hdel [_ ?]%Hdel. by eapply Hu.
    + simpl. intros q. rewrite Hch. intros [Hq Hqp]%elem_of_difference. destruct (Hh q Hq) as [j Hj]. exists j.
      rewrite lookup_delete_ne; [done|]. intros ->. rewrite Hj in Ei. simplify_eq. set_solver.
    + simpl. intros j [q [_ ?]%lookup_delete_Some]. apply Hn. by eexists.
Qed.

Lemma minv_clone used c i s : minv used s → minv used (mstep (MClone c i) s).
Proof.
  intros HI. pose proof HI as [Hsh Ho Hu Hh Hn]. simpl. destruct (m_readers s !! i) as [r|]; [|done].
  unfold Clone. destruct (c_Clone c); [|done..].
  assert (∀ j q, <[m_next s := mkMR None ""]> (m_readers s) !! j = Some (mkMR (Some q) q) → owner_of s j q) as Hown.
  { intros j q [[_ ?]|[_ ?] ]%lookup_insert_Some; [done|done]. }
  split; unfold owner_of; simpl.
  - intros j r' [[_ <-]|[_ ?] ]%lookup_insert_Some; [by left|by apply (Hsh j)].
  - intros j q ?%Hown. by eapply Ho.
  - intros j k q ?%Hown ?%Hown. by eapply Hu.
  - intros q [j Hj]%Hh. exists j. rewrite lookup_insert_ne; [done|]. intros <-.
    assert (m_next s < m_next s)%nat by (apply Hn; by eexists). lia.
  - intros j [r' [[<- _]|[_ ?] ]%lookup_insert_Some]; [lia|]. assert (j < m_next s)%nat by (apply Hn; by eexists). lia.
Qed.

Lemma minv_run os : ∀ used s, minv used s → Forall no_panic os → NoDup (omap mop_path os ++ used) →
  ∃ used', minv used' (mrun os s).
Proof.
  induction os as [|o os IH]; intros used s HI Hnp Hnd; [by exists used|].
  apply list.Forall_cons in Hnp as [Ho Hnp]. destruct o as [c dir xid|c i|c i].
  - change (omap mop_path (MNew c dir xid :: os)) with (db_path dir xid :: omap mop_path os) in Hnd.
    apply list.NoDup_cons in Hnd as [Hn Hnd].
    apply (IH (db_path dir xid :: used)); [by apply minv_new; [set_solver|..]|done|].
    rewrite <-Permutation_middle. by constructor.
  - apply (IH used); [by apply minv_clone|done|done].
  - apply (IH used); [by apply minv_close|done|done].
Qed.

(** However readers of the per-layer store are made, cloned and closed, and whichever
    calls fail: the database of a reader that owns one is open and on disk until that reader
    is closed, closing clones or other readers never closes or removes it; and every open
    handle belongs to a reader that is not closed: none is leaked, also when making a
    reader fails half-way. *)
Theorem databases_live_with_owner os :
  Forall no_panic os → NoDup (omap mop_path os) →
  let s := mrun os mstart in
  (∀ i p, owner_of s i p → p ∈ files (m_disk s) ∧ p ∈ handles (m_disk s)) ∧
  (∀ p, p ∈ handles (m_disk s) → ∃ i, owner_of s i p).
Proof.
  intros Hnp Hnd s. destruct (minv_run os [] mstart minv_start Hnp) as [used HI]; [by rewrite app_nil_r|].
  split; [apply (mi_owner _ _ HI)|apply (mi_handles _ _ HI)].
Qed.
