(* ===== verification/StoreConfig.v ===== *)
(** * Choosing a content store

    Models the set-up of [soci/store/store.go]: the options of a content store, which store
    [NewContentStore] makes, and the containerd client that its users share and that is
    connected on first use ([ContainerdClient.Client]), whose goroutines take one step per
    read of the field and per critical section. *)
From Stdlib Require Import ZArith Lia.
From stdpp Require Import base list gmap strings numbers.
From S2P Require Import Prelude GoLib MetadataTree Config Oci.
#[local] Open Scope Z_scope.

(** ** Options *)
Record ContentStoreConfig := mkCSC {
  cs_Type : string;
  cs_ContainerdAddress : string;
  cs_ctdClient : option nat;        (* a shared client *)
  cs_SnapshotterRoot : string
}.

Definition Option : Type := ContentStoreConfig → ContentStoreConfig.
Definition WithType (t : string) : Option := λ sc,
  mkCSC t (cs_ContainerdAddress sc) (cs_ctdClient sc) (cs_SnapshotterRoot sc).
Definition WithContainerdAddress (address : string) : Option := λ sc,
  mkCSC (cs_Type sc) (TrimSocketAddress address) (cs_ctdClient sc) (cs_SnapshotterRoot sc).
Definition WithSnapshotterRoot (root : string) : Option := λ sc,
  mkCSC (cs_Type sc) (cs_ContainerdAddress sc) (cs_ctdClient sc) root.
Definition WithClient (client : nat) : Option := λ sc,
  mkCSC (cs_Type sc) (cs_ContainerdAddress sc) (Some client) (cs_SnapshotterRoot sc).

Section store.
(** containerd's default address; [oci.New] of a path may fail; [fresh] names a new client. *)
Context (DefaultAddress : string) (oci_New : string → outcome ()) (fresh : nat).

Definition NewStoreConfig (opts : list Option) : ContentStoreConfig :=
  foldl (λ sc o, o sc) (mkCSC DefaultContentStoreType DefaultAddress None "") opts.

(** A store of either kind: over a directory, or over a client for an address. *)
Inductive store := SociStore (path : string) | ContainerdStore (client : nat) (config : ContentStoreConfig).

Definition NewSociStore (path : string) : outcome store :=
  let path := if (path =? "")%string then DefaultSociContentStorePath else path in
  _ ← oci_New path; Ok (SociStore path).

Definition NewContainerdStore (sc : ContentStoreConfig) : outcome store :=
  Ok (ContainerdStore (default fresh (cs_ctdClient sc)) sc).

Definition NewContentStore (opts : list Option) : outcome store :=
  let sc := NewStoreConfig opts in
  t ← CanonicalizeContentStoreType (cs_Type sc);
  if (t =? ContainerdContentStoreType)%string then NewContainerdStore sc
  else if (t =? SociContentStoreType)%string then
    path ← GetContentStorePath path_Join SociContentStoreType (cs_SnapshotterRoot sc);
    NewSociStore path
  else Err (ErrorString "unexpectedly reached end of NewContentStore").

(** [ContentStoreOptions] of the command line. *)
Definition ContentStoreOptions (contentStore address root : string) : list Option :=
  [WithType contentStore; WithContainerdAddress address; WithSnapshotterRoot root].

(** The store the command line works on is decided by its flags alone: containerd's unless
    the type is soci's, in which case it is in the root given, and a type that is neither is
    refused. *)
Theorem NewContentStore_from_flags t address root :
  NewContentStore (ContentStoreOptions t address root) =
  if (t =? "")%string || (t =? ContainerdContentStoreType)%string
  then Ok (ContainerdStore fresh (mkCSC t (TrimSocketAddress address) None root))
  else if (t =? SociContentStoreType)%string
  then (let path := if (root =? "")%string then DefaultSociContentStorePath else path_Join root "content" in
        let path := if (path =? "")%string then DefaultSociContentStorePath else path in
        _ ← oci_New path; Ok (SociStore path))
  else Err (ErrorString "unknown content store type").
Proof.
  unfold NewContentStore.
  change (NewStoreConfig (ContentStoreOptions t address root))
    with (mkCSC t (TrimSocketAddress address) None root).
  cbn [cs_Type cs_SnapshotterRoot]. unfold CanonicalizeContentStoreType.
  destruct (String.eqb_spec t "") as [->|H0]; [done|].
  destruct (String.eqb_spec t ContainerdContentStoreType) as [->|Hc]; [done|].
  destruct (String.eqb_spec t SociContentStoreType) as [->|Hs]; [|done].
  unfold GetContentStorePath. by destruct (root =? "")%string.
Qed.
End store.

(** ** The shared client *)
Module Client.
Inductive pc := Begin | AtLock | InLock | Returned (r : option nat).   (* [None]: an error *)

Record state := mk {
  ctdClient : option nat;
  holder : option nat;       (* who holds [ctdClientLock] *)
  made : nat;                (* connections made so far *)
  goroutines : list pc
}.

Inductive ev :=
  | ECall                              (* a goroutine calls [Client] *)
  | ECheck (i : nat)                   (* the check before the lock *)
  | ELock (i : nat)
  | EMake (i : nat) (ok : bool).       (* under the lock: check, connect, unlock *)

Definition goto (i : nat) (p : pc) (s : state) : state :=
  mk (ctdClient s) (holder s) (made s) (<[i := p]> (goroutines s)).

Definition step (e : ev) (s : state) : option state :=
  match e with
  | ECall => Some (mk (ctdClient s) (holder s) (made s) (goroutines s ++ [Begin]))
  | ECheck i =>
      match goroutines s !! i with
      | Some Begin => Some (match ctdClient s with
                            | Some c => goto i (Returned (Some c)) s
                            | None => goto i AtLock s
                            end)
      | _ => None
      end
  | ELock i =>
      match goroutines s !! i, holder s with
      | Some AtLock, None => Some (mk (ctdClient s) (Some i) (made s) (<[i := InLock]> (goroutines s)))
      | _, _ => None
      end
  | EMake i ok =>
      match goroutines s !! i with
      | Some InLock =>
          Some (match ctdClient s with
                | Some c => mk (Some c) None (made s) (<[i := Returned (Some c)]> (goroutines s))
                | None =>
                    if ok then mk (Some (made s)) None (S (made s)) (<[i := Returned (Some (made s))]> (goroutines s))
                    else mk None None (made s) (<[i := Returned None]> (goroutines s))
                end)
      | _ => None
      end
  end.

Fixpoint run (es : list ev) (s : state) : option state :=
  match es with [] => Some s | e :: es => s' ← step e s; run es s' end.

Definition start : state := mk None None 0 [].

Record inv (s : state) : Prop := {
  inv_client : match ctdClient s with Some c => c = 0%nat ∧ made s = 1%nat | None => made s = 0%nat end;
  inv_lock i : goroutines s !! i = Some InLock → holder s = Some i;
  inv_returned i c : goroutines s !! i = Some (Returned (Some c)) → ctdClient s = Some c
}.

Lemma client_step_inv e s s' : inv s → step e s = Some s' → inv s'.
Proof.
  intros [Hc Hl Hr] Hs.
  assert (∀ p i q, <[i := p]> (goroutines s) !! q = Some InLock → p ≠ InLock → holder s = Some q ∧ q ≠ i) as HL.
  { intros p i q Hq Hp. destruct (decide (i = q)) as [->|Hne].
    - apply list_lookup_insert_Some in Hq as [(_ & ? & _)|(? & _)]; congruence.
    - rewrite list_lookup_insert_ne in Hq by done. split; [by apply Hl|done]. }
  assert (∀ p i q c, <[i := p]> (goroutines s) !! q = Some (Returned (Some c)) →
    p = Returned (Some c) ∨ ctdClient s = Some c) as HR.
  { intros p i q c Hq. apply list_lookup_insert_Some in Hq as [(-> & -> & _)|(_ & ?)]; [by left|right; by eapply Hr]. }
  destruct e as [|i|i|i ok]; simpl in Hs.
  - injection Hs as <-. split; simpl; [done|..].
    + intros i [?|[_ ?] ]%lookup_app_Some; [by apply Hl|]. destruct (i - _)%nat; naive_solver.
    + intros i c [?|[_ ?] ]%lookup_app_Some; [by eapply Hr|]. destruct (i - _)%nat; naive_solver.
  - destruct (goroutines s !! i) as [[]|]; try done. injection Hs as <-.
    destruct (ctdClient s) as [c|] eqn:Ec; split; simpl; rewrite ?Ec; try done.
    + intros q Hq. by eapply HL.
    + intros q c' [[= <-]|?]%HR; done.
    + intros q Hq. by eapply HL.
    + intros q c' [?|?]%HR; congruence.
  - destruct (goroutines s !! i) as [[]|] eqn:Ei; try done. destruct (holder s) eqn:Eh; [done|]. injection Hs as <-.
    split; simpl; [done|..].
    + intros q Hq. apply list_lookup_insert_Some in Hq as [(-> & _ & _)|(_ & Hq)]; [done|]. by apply Hl in Hq.
    + intros q c [?|?]%HR; [done|done].
  - destruct (goroutines s !! i) as [[]|] eqn:Ei; try done. injection Hs as <-. pose proof (Hl _ Ei) as Hh.
    destruct (ctdClient s) as [c|] eqn:Ec; [|destruct ok]; split; simpl; try done.
    + intros q [Hq ?]%HL; [|done]. congruence.
    + intros q c' [[= <-]|?]%HR; [done|done].
    + by rewrite Hc.
    + intros q [Hq ?]%HL; [|done]. congruence.
    + intros q c' [[= <-]|?]%HR; [done|congruence].
    + intros q [Hq ?]%HL; [|done]. congruence.
    + intros q c' [?|?]%HR; congruence.
Qed.

Lemma client_run_inv es s s' : inv s → run es s = Some s' → inv s'.
Proof.
  revert s. induction es as [|e es IH]; intros s Hi; simpl; [by intros [= <-]|].
  destruct (step e s) as [s1|] eqn:Es; [|done]. simpl. intros Hr. eapply IH; [|exact Hr]. by eapply client_step_inv.
Qed.

(** However goroutines call [Client], at most one connection is made, and every caller that
    gets a client gets that one. *)
Theorem client_made_once es s :
  run es start = Some s →
  (made s ≤ 1)%nat ∧ ∀ i j c c', goroutines s !! i = Some (Returned (Some c)) →
    goroutines s !! j = Some (Returned (Some c')) → c = c'.
Proof.
  intros Hr. destruct (client_run_inv es start s) as [Hc _ Hret]; [by split; simpl; intros|done|]. split.
  - destruct (ctdClient s); lia.
  - intros i j c c' Hi%Hret Hj%Hret. congruence.
Qed.
End Client.
