(* ===== verification/RemoteResolver.v ===== *)
(** * Resolving a blob

    Models the rest of [fs/remote/resolver.go]: [Resolver.Resolve], [resolveFetcher] and
    [newHTTPFetcher], which choose the host a blob is read from and give its client the
    blob's retry policy, [blob.Refresh], and the text of [Content-Range] and [Range]
    headers and of cache keys.  The network is the [RoundTrip] of a transport; the handlers
    of external fetchers, [docker.RepositoryScope] and SHA-256 are parameters.  The scopes
    that [docker.WithScope] adds to the context are not modelled. *)
From Stdlib Require Import ZArith Lia Ascii.
From stdpp Require Import base list gmap strings numbers.
From S2P Require Import Prelude GoLib Regions Remote MetadataTree IDMap ArtifactsDb HttpUtil HttpAuth Config ResolverClient.
#[local] Open Scope Z_scope.

Definition ErrFailedToRetrieveLayerSize := Sentinel "failed to retrieve layer size from remote".
Definition ErrInvalidHost := Sentinel "invalid host destination".
Definition ErrFailedToRedirect := Sentinel "failed to redirect".
Definition ErrUnableToCreateFetcher := Sentinel "unable to create remote fetcher".

(** ** Header texts *)
Fixpoint take_digits (s : string) : string * string :=
  match s with
  | String c s' => if is_digit c then let '(d, r) := take_digits s' in (String c d, r) else ("", s)
  | "" => ("", "")
  end%string.
Fixpoint take_backslashes (s : string) : string * string :=
  match s with
  | String c s' => if Ascii.eqb c "092"%char then let '(d, r) := take_backslashes s' in (String c d, r) else ("", s)
  | "" => ("", "")
  end%string.

(** [contentRangeRegexp]: the word bytes, a space, digits, a dash, digits, a slash, and
    then digits or, what the two backslashes of the raw string before the star make of the
    last alternative, any number of backslashes, none included. *)
Definition range_match_at (s : string) : option (string * string * string) :=
  if negb (HasPrefix s "bytes ") then None
  else
    let '(b, r) := take_digits (str_drop 6 s) in
    if (b =? "")%string || negb (HasPrefix r "-") then None
    else
      let '(e, r) := take_digits (str_drop 1 r) in
      if (e =? "")%string || negb (HasPrefix r "/") then None
      else
        let r := str_drop 1 r in
        let '(n, _) := take_digits r in
        Some (b, e, if (n =? "")%string then (take_backslashes r).1 else n).

(** [FindStringSubmatch]: the leftmost match. *)
Fixpoint find_range (s : string) : option (string * string * string) :=
  match range_match_at s with
  | Some m => Some m
  | None => match s with String _ s' => find_range s' | EmptyString => None end
  end.

Definition parseRange (header : string) : outcome (region * Z) :=
  match find_range header with
  | None => Err (ErrorString "Content-Range doesn't have enough information")
  | Some (b, e, n) =>
      match ParseInt b with
      | Ok begin_ =>
          match ParseInt e with
          | Ok end_ =>
              match ParseInt n with
              | Ok blobSize => Ok (mkRegion begin_ end_, blobSize)
              | Err er => Err (Wrap "failed to parse blob size" er)
              | Panic => Panic
              end
          | Err er => Err (Wrap "failed to parse end offset" er)
          | Panic => Panic
          end
      | Err er => Err (Wrap "failed to parse beginning offset" er)
      | Panic => Panic
      end
  end.

(** The [Range] header of [fetch]: the trailing comma is cut off. *)
Definition range_text (requests : list region) : string :=
  foldl (λ acc reg, acc +:+ FormatInt (rb reg) +:+ "-" +:+ FormatInt (re reg) +:+ ",") "" requests.
Definition range_header (requests : list region) : outcome string :=
  let ranges := range_text requests in
  if (ranges =? "")%string then Panic
  else Ok ("bytes=" +:+ String.substring 0 (String.length ranges - 1) ranges).

Section resolver.
Context {Ctx W T Tr E : Type} (Background : Ctx) (rhttp_NewClient : RetryClient).
Context (RepositoryScope : string → outcome string) (sha256_hex : string → string).

(** ** Transports and hosts *)
Inductive RoundTripper := RTAuth (ac : AuthClient Ctx RetryClient W) | RTOther (t : T).
Context (RoundTrip : RoundTripper → request → ST Tr response).

Record Host := mkHostT { h_Scheme : string; h_Host : string; h_Path : string; h_Transport : RoundTripper }.
Record Spec := mkSpec { Locator : string; Hostname : string }.

Record fetcherConfig := mkFC {
  fc_hosts : list Host;
  fc_refspec : Spec;
  fc_digest : string;       (* [desc.Digest] *)
  fc_size : Z;              (* [desc.Size] *)
  fetchTimeout : Z;
  maxRetries : Z;
  minWait : Z;
  maxWait : Z
}.

(** ** [newHTTPFetcher] *)

(** The client of a host with the policy of the blob, if its own differs. *)
Definition blob_transport (fc : fetcherConfig) (tr : RoundTripper) : outcome RoundTripper :=
  match tr with
  | RTOther _ => Ok tr
  | RTAuth authClient =>
      match client authClient with
      | None => Panic
      | Some c =>
          if negb (RetryMax c =? maxRetries fc) || negb (RetryWaitMin c =? minWait fc) ||
             negb (RetryWaitMax c =? maxWait fc) || negb (http_ClientTimeout c =? fetchTimeout fc)
          then
            match http_Transport c with
            | Some globalTransport =>
                let n := CloneRetryableClient rhttp_NewClient c in
                Ok (RTAuth (CloneWithNewClient Background rhttp_NewClient
                  (mkRetryClient (Logger n) (maxRetries fc) (minWait fc) (maxWait fc) (Backoff n) (CheckRetry n)
                     (ErrorHandler n) (fetchTimeout fc) (Some globalTransport)) authClient))
            | None => Ok tr
            end
          else Ok tr
      end
  end.

Definition registry_url (fc : fetcherConfig) (host : Host) : string :=
  h_Scheme host +:+ "://" +:+ path_Join (h_Host host) (h_Path host) +:+ "/" +:+
  TrimPrefix (Locator (fc_refspec fc)) (Hostname (fc_refspec fc) +:+ "/") +:+ "/blobs/" +:+ fc_digest fc.

Definition bad_host (host : Host) : bool := (h_Host host =? "")%string || contains "/" (h_Host host).

Definition join_opt (e : error) (acc : option error) : option error :=
  Some match acc with Some e' => Join e e' | None => e end.

Fixpoint try_hosts (fc : fetcherConfig) (hosts : list Host) (createFetcherErr : option error)
    : ST Tr (RoundTripper * httpFetcher) := λ tr,
  match hosts with
  | [] => (Err (match createFetcherErr with
                | Some e => Join ErrUnableToCreateFetcher e
                | None => ErrUnableToCreateFetcher
                end), tr)
  | host :: rest =>
      if bad_host host then try_hosts fc rest (join_opt (Wrap "host" ErrInvalidHost) createFetcherErr) tr
      else
        match blob_transport fc (h_Transport host) with
        | Ok rt =>
            let registryURL := registry_url fc host in
            match redirect (RoundTrip rt) registryURL tr with
            | (Ok realURL, tr) => (Ok (rt, mkHttpFetcher registryURL realURL false), tr)
            | (Err e, tr) => try_hosts fc rest (join_opt (Join ErrFailedToRedirect e) createFetcherErr) tr
            | (Panic, tr) => (Panic, tr)
            end
        | Err e => (Err e, tr)
        | Panic => (Panic, tr)
        end
  end.

Definition newHTTPFetcher (fc : fetcherConfig) : ST Tr (RoundTripper * httpFetcher) := λ tr,
  if (fc_digest fc =? "")%string
  then (Err (ErrorString "missing digest; a digest is mandatory in layer descriptor"), tr)
  else match RepositoryScope (Locator (fc_refspec fc)) with
  | Ok _ => try_hosts fc (fc_hosts fc) None tr
  | Err e => (Err e, tr)
  | Panic => (Panic, tr)
  end.

Definition genID (registryURL : string) (reg : region) : string :=
  sha256_hex (registryURL +:+ "-" +:+ FormatInt (rb reg) +:+ "-" +:+ FormatInt (re reg)).

(** ** [resolveFetcher]

    The handlers, in the order the map is ranged over: each yields a fetcher with a size,
    or an error. *)
Inductive resolved := RHandler (f : E) | RHttp (rt : RoundTripper) (f : httpFetcher).

Fixpoint first_handler (hs : list (ST Tr (E * Z))) : Tr → option (E * Z) * Tr := λ tr,
  match hs with
  | [] => (None, tr)
  | h :: hs =>
      match h tr with
      | (Ok r, tr) => (Some r, tr)
      | (_, tr) => first_handler hs tr
      end
  end.

Definition resolveFetcher (cfg : BlobConfig) (handlers : list (ST Tr (E * Z))) (fc : fetcherConfig)
    : ST Tr (resolved * Z) := λ tr,
  match first_handler handlers tr with
  | (Some (f, size), tr) => (Ok (RHandler f, size), tr)
  | (None, tr) =>
      match newHTTPFetcher fc tr with
      | (Err e, tr) => (Err e, tr)
      | (Panic, tr) => (Panic, tr)
      | (Ok (rt, hf), tr) =>
          let finish size tr :=
            (Ok (RHttp rt (mkHttpFetcher (registryURL hf) (realURL hf) (ForceSingleRangeMode cfg)), size), tr) in
          if fc_size fc =? 0 then
            match getLayerSize (RoundTrip rt) (hf, tr) with
            | (Ok size, (_, tr)) => finish size tr
            | (Err e, (_, tr)) => (Err (Join (Wrap "from" ErrFailedToRetrieveLayerSize) e), tr)
            | (Panic, (_, tr)) => (Panic, tr)
            end
          else finish (fc_size fc) tr
      end
  end.

Definition resolve_config (cfg : BlobConfig) (hosts : list Host) (refspec : Spec) (digest : string) (size : Z)
    : fetcherConfig :=
  mkFC hosts refspec digest size (sec (FetchTimeoutSec cfg)) (blob_MaxRetries cfg)
    (msec (blob_MinWaitMsec cfg)) (msec (blob_MaxWaitMsec cfg)).

Definition Resolve (cfg : BlobConfig) (handlers : list (ST Tr (E * Z))) (hosts : list Host) (refspec : Spec)
    (digest : string) (size now : Z) : ST Tr (blob resolved) := λ tr,
  match resolveFetcher cfg handlers (resolve_config cfg hosts refspec digest size) tr with
  | (Ok (f, size), tr) => (Ok (makeBlob f size now (sec (ValidInterval cfg))), tr)
  | (Err e, tr) => (Err e, tr)
  | (Panic, tr) => (Panic, tr)
  end.

(** [blob.Refresh]: the configuration it resolves with has neither timeout nor retries. *)
Definition refresh_config (hosts : list Host) (refspec : Spec) (digest : string) (size : Z) : fetcherConfig :=
  mkFC hosts refspec digest size 0 0 0 0.

Definition Refresh (cfg : BlobConfig) (handlers : list (ST Tr (E * Z))) (hosts : list Host) (refspec : Spec)
    (digest : string) (size now : Z) (b : blob resolved) (tr : Tr) : outcome () * blob resolved * Tr :=
  if closed b then (blob_Refresh (Err ErrBlobClosed) now b, tr)
  else
    let '(r, tr) := resolveFetcher cfg handlers (refresh_config hosts refspec digest size) tr in
    (blob_Refresh r now b, tr).
End resolver.

(** ** The texts *)
Fixpoint all_digits (s : string) : Prop :=
  match s with String c s' => is_digit c = true ∧ all_digits s' | EmptyString => True end.

Lemma format_nat_digits fuel n acc : 0 ≤ n → all_digits acc → all_digits (format_nat fuel n acc).
Proof.
  revert n acc. induction fuel as [|fuel IH]; intros n acc Hn Ha; [done|]. cbn [format_nat].
  pose proof (Z.mod_pos_bound n 10 ltac:(lia)).
  assert (all_digits (String (digit_char (n mod 10)) acc)) as Ha' by (split; [by apply digit_digit_char|done]).
  destruct (n / 10 =? 0); [done|]. apply IH; [apply Z.div_pos; lia|done].
Qed.

Lemma FormatInt_digits n : 0 ≤ n → all_digits (FormatInt n) ∧ FormatInt n ≠ ""%string.
Proof.
  intros Hn. unfold FormatInt. destruct (Z.ltb_spec n 0); [lia|]. split; [by apply format_nat_digits|].
  destruct (format_nat_head 19 n "") as (d & s & _ & E); [done|]. change 20%nat with (S 19). by rewrite E.
Qed.

Lemma take_digits_app d s :
  all_digits d → match s with String c _ => is_digit c = false | EmptyString => True end →
  take_digits (d +:+ s) = (d, s).
Proof.
  intros Hd Hs. induction d as [|c d IH].
  - destruct s as [|c s]; [done|]. change ("" +:+ String c s) with (String c s).
    simpl. by rewrite Hs.
  - destruct Hd as [Hc Hd]. change (String c d +:+ s) with (String c (d +:+ s)). simpl. by rewrite Hc, IH.
Qed.

Lemma range_match_text b e r : 0 ≤ b → 0 ≤ e →
  range_match_at ("bytes " +:+ FormatInt b +:+ "-" +:+ FormatInt e +:+ "/" +:+ r) =
  Some (FormatInt b, FormatInt e,
        let '(n, _) := take_digits r in if (n =? "")%string then (take_backslashes r).1 else n).
Proof.
  intros Hb He. destruct (FormatInt_digits b Hb) as [Hbd Hb0]. destruct (FormatInt_digits e He) as [Hed He0].
  unfold range_match_at. rewrite HasPrefix_app. cbn [negb].
  change 6%nat with (String.length "bytes "). rewrite str_drop_app, take_digits_app by done.
  rewrite HasPrefix_app. rewrite (proj2 (String.eqb_neq _ _) Hb0). cbn [orb negb].
  change 1%nat with (String.length "-"). rewrite str_drop_app, take_digits_app by done.
  rewrite HasPrefix_app, (proj2 (String.eqb_neq _ _) He0). cbn [orb negb].
  change (String.length "-") with (String.length "/"). rewrite str_drop_app.
  by destruct (take_digits r).
Qed.

Lemma find_range_hit s m : range_match_at s = Some m → find_range s = Some m.
Proof. intros Hm. destruct s; cbn [find_range]; by rewrite Hm. Qed.

Lemma find_range_text b e r : 0 ≤ b → 0 ≤ e →
  find_range ("bytes " +:+ FormatInt b +:+ "-" +:+ FormatInt e +:+ "/" +:+ r) =
  Some (FormatInt b, FormatInt e,
        let '(n, _) := take_digits r in if (n =? "")%string then (take_backslashes r).1 else n).
Proof.
  intros Hb He. by apply find_range_hit, range_match_text.
Qed.

(** A [Content-Range] header is read back as it is written. *)
Theorem parseRange_text b e n :
  0 ≤ b → in_int64 b → 0 ≤ e → in_int64 e → 0 ≤ n → in_int64 n →
  parseRange ("bytes " +:+ FormatInt b +:+ "-" +:+ FormatInt e +:+ "/" +:+ FormatInt n) = Ok (mkRegion b e, n).
Proof.
  intros Hb Hb' He He' Hn Hn'. unfold parseRange. rewrite find_range_text by done.
  destruct (FormatInt_digits n Hn) as [Hd H0].
  pose proof (take_digits_app (FormatInt n) "" Hd I) as Ht. rewrite string_app_nil_r in Ht.
  rewrite Ht, (proj2 (String.eqb_neq _ _) H0).
  by rewrite !ParseInt_FormatInt.
Qed.

(** A header whose blob size is unknown, written with a star, is refused, although the
    range is all that a fetch needs. *)
Theorem unknown_size_refused b e :
  0 ≤ b → in_int64 b → 0 ≤ e → in_int64 e →
  parseRange ("bytes " +:+ FormatInt b +:+ "-" +:+ FormatInt e +:+ "/*") =
    Err (Wrap "failed to parse blob size" (ErrorString "invalid syntax")).
Proof.
  intros Hb Hb' He He'. unfold parseRange.
  change "/*"%string with ("/" +:+ "*")%string. rewrite find_range_text by done.
  by rewrite !ParseInt_FormatInt.
Qed.

Lemma FormatInt_inj n m : in_int64 n → in_int64 m → FormatInt n = FormatInt m → n = m.
Proof.
  intros Hn Hm Heq. pose proof (ParseInt_FormatInt n Hn) as H1. rewrite Heq, ParseInt_FormatInt in H1 by done.
  by injection H1.
Qed.

Definition region64 (r : region) : Prop := 0 ≤ rb r ∧ in_int64 (rb r) ∧ 0 ≤ re r ∧ in_int64 (re r).

(** Distinct regions of a blob have distinct cache keys, up to collisions of the hash. *)
Theorem genID_inj (sha256_hex : string → string) url r r' :
  region64 r → region64 r' → (∀ s t, sha256_hex s = sha256_hex t → s = t) →
  genID sha256_hex url r = genID sha256_hex url r' → r = r'.
Proof.
  intros (Hb & Hb64 & He & He64) (Hb' & Hb64' & He' & He64') Hinj Hid.
  apply Hinj, string_app_inj, string_app_inj in Hid.
  assert (take_digits (FormatInt (rb r) +:+ "-" +:+ FormatInt (re r)) =
          take_digits (FormatInt (rb r') +:+ "-" +:+ FormatInt (re r'))) as Ht by by rewrite Hid.
  rewrite !take_digits_app in Ht by (done || by apply FormatInt_digits). injection Ht as Hbb Hee.
  apply FormatInt_inj in Hbb; [|done..]. change (String "-" ?s) with ("-" +:+ s) in Hee.
  apply (FormatInt_inj (re r)) in Hee; [|done..].
  destruct r, r'. simpl in *. by subst.
Qed.

(** ** Hosts and policies *)
Section facts.
Context {Ctx W T Tr E : Type} (Background : Ctx) (rhttp_NewClient : RetryClient).
Context (RepositoryScope : string → outcome string).
Context (RoundTrip : RoundTripper (Ctx := Ctx) (W := W) (T := T) → request → ST Tr response).
Implicit Types (fc : fetcherConfig (Ctx := Ctx) (W := W) (T := T)) (rt : RoundTripper (Ctx := Ctx) (W := W) (T := T)).

Abbreviation transport := (blob_transport Background rhttp_NewClient).
Abbreviation tries := (try_hosts Background rhttp_NewClient RoundTrip).
Abbreviation newFetcher := (newHTTPFetcher Background rhttp_NewClient RepositoryScope RoundTrip).

(** The client follows the policy of the blob. *)
Definition follows fc (c : RetryClient) : Prop :=
  RetryMax c = maxRetries fc ∧ RetryWaitMin c = minWait fc ∧ RetryWaitMax c = maxWait fc ∧
  http_ClientTimeout c = fetchTimeout fc.

(** A registry's client: the authenticating one over a retrying client with a transport of
    its own, which the clone shares. *)
Definition registry_client rt (t : Transport) : Prop :=
  ∃ ac c, rt = RTAuth ac ∧ client ac = Some c ∧ http_Transport c = Some t.

Lemma blob_transport_follows fc rt rt' t :
  registry_client rt t → transport fc rt = Ok rt' →
  ∃ ac ac' c', rt = RTAuth ac ∧ rt' = RTAuth ac' ∧ client ac' = Some c' ∧ follows fc c' ∧
    http_Transport c' = Some t ∧ handler ac' = handler ac.
Proof.
  intros (ac & c & -> & Hc & Ht). simpl. rewrite Hc, Ht.
  destruct (negb _ || _ || _ || _) eqn:Eq; intros [= <-].
  - by eexists ac, _, _.
  - exists ac, ac, c. apply orb_false_iff in Eq as [[[E1 E2]%orb_false_iff E3]%orb_false_iff E4].
    apply negb_false_iff, Z.eqb_eq in E1, E2, E3, E4. done.
Qed.

(** The loop passes over hosts that are malformed or whose probe fails. *)
Inductive passed_over fc : list Host → Tr → Tr → Prop :=
  | passed_none tr : passed_over fc [] tr tr
  | passed_malformed h hs tr tr' : bad_host h = true → passed_over fc hs tr tr' → passed_over fc (h :: hs) tr tr'
  | passed_silent h hs rt e tr tr1 tr' : bad_host h = false → transport fc (h_Transport h) = Ok rt →
      redirect (RoundTrip rt) (registry_url fc h) tr = (Err e, tr1) → passed_over fc hs tr1 tr' →
      passed_over fc (h :: hs) tr tr'.

Lemma try_hosts_first fc hosts err tr rt hf tr' :
  tries fc hosts err tr = (Ok (rt, hf), tr') →
  ∃ pre h post tr1, hosts = pre ++ h :: post ∧ passed_over fc pre tr tr1 ∧ bad_host h = false ∧
    transport fc (h_Transport h) = Ok rt ∧ registryURL hf = registry_url fc h ∧
    redirect (RoundTrip rt) (registry_url fc h) tr1 = (Ok (realURL hf), tr').
Proof.
  revert err tr. induction hosts as [|h hosts IH]; intros err tr; simpl; [done|].
  destruct (bad_host h) eqn:Eb.
  { intros (pre & h' & post & tr1 & -> & Hpre & ?)%IH. exists (h :: pre), h', post, tr1. split; [done|].
    split; [by apply passed_malformed|done]. }
  destruct (transport fc (h_Transport h)) as [rt1| |] eqn:Et; [|done..].
  destruct (redirect (RoundTrip rt1) (registry_url fc h) tr) as [[u|e|] tr1] eqn:Er; [| |done].
  - intros [= <- <- <-]. exists [], h, hosts, tr. by split_and!; [|constructor|..].
  - intros (pre & h' & post & tr2 & -> & Hpre & ?)%IH. exists (h :: pre), h', post, tr2. split; [done|].
    split; [by eapply passed_silent|done].
Qed.

(** What the choice of a host promises. *)
Definition chosen fc tr rt (hf : httpFetcher) tr' : Prop :=
  ∃ pre h post tr1 t ac ac' c, fc_hosts fc = pre ++ h :: post ∧ passed_over fc pre tr tr1 ∧
    bad_host h = false ∧ registryURL hf = registry_url fc h ∧
    redirect (RoundTrip rt) (registry_url fc h) tr1 = (Ok (realURL hf), tr') ∧
    h_Transport h = RTAuth ac ∧ registry_client (h_Transport h) t ∧
    rt = RTAuth ac' ∧ client ac' = Some c ∧ follows fc c ∧ http_Transport c = Some t ∧ handler ac' = handler ac.

Lemma newHTTPFetcher_first fc tr rt hf tr' :
  (∀ h, h ∈ fc_hosts fc → ∃ t, registry_client (h_Transport h) t) →
  newFetcher fc tr = (Ok (rt, hf), tr') → chosen fc tr rt hf tr'.
Proof.
  intros Hhosts. unfold newHTTPFetcher. destruct (fc_digest fc =? "")%string; [done|].
  destruct (RepositoryScope _); [|done..].
  intros (pre & h & post & tr1 & Hsplit & Hpre & Hb & Ht & Hu & Hr)%try_hosts_first.
  destruct (Hhosts h) as [t Hreg]; [rewrite Hsplit; set_solver|].
  destruct (blob_transport_follows _ _ _ _ Hreg Ht) as (ac & ac' & c & Hac & -> & ? & ? & ? & ?).
  by exists pre, h, post, tr1, t, ac, ac', c.
Qed.

(** The client of a fetcher has the policy that was asked for. *)
Lemma newHTTPFetcher_policy fc tr rt hf tr' :
  (∀ h, h ∈ fc_hosts fc → ∃ t, registry_client (h_Transport h) t) →
  newFetcher fc tr = (Ok (rt, hf), tr') → ∃ ac c, rt = RTAuth ac ∧ client ac = Some c ∧ follows fc c.
Proof.
  intros Hh (? & ? & ? & ? & ? & ? & ac & c & _ & _ & _ & _ & _ & _ & _ & ? & ? & ? & _)%newHTTPFetcher_first; [|done].
  by exists ac, c.
Qed.

(** C39: a fetcher is made on the first host, in the order of the list, that is well formed
    and answers the probe of its blob URL; the hosts before it were malformed or did not
    answer.  It reads from where the probe of that host led.  Its client is that of the
    host, with the same transport and authentication, and has exactly the retries, waits
    and timeout that were asked for. *)
Theorem newHTTPFetcher_chooses fc tr rt hf tr' :
  (∀ h, h ∈ fc_hosts fc → ∃ t, registry_client (h_Transport h) t) →
  newFetcher fc tr = (Ok (rt, hf), tr') →
  ∃ pre h post tr1 t ac ac' c, fc_hosts fc = pre ++ h :: post ∧ passed_over fc pre tr tr1 ∧
    bad_host h = false ∧ registryURL hf = registry_url fc h ∧
    redirect (RoundTrip rt) (registry_url fc h) tr1 = (Ok (realURL hf), tr') ∧
    h_Transport h = RTAuth ac ∧ registry_client (h_Transport h) t ∧
    rt = RTAuth ac' ∧ client ac' = Some c ∧ follows fc c ∧ http_Transport c = Some t ∧ handler ac' = handler ac.
Proof. apply newHTTPFetcher_first. Qed.

(** If a host is well formed and always answers, a fetcher is made, whatever the others do
    short of crashing. *)
Lemma try_hosts_succeeds fc hosts err tr h :
  (∀ h, h ∈ hosts → ∃ rt, transport fc (h_Transport h) = Ok rt) →
  (∀ rt rq tr, (RoundTrip rt rq tr).1 ≠ Panic) →
  h ∈ hosts → bad_host h = false →
  (∀ rt tr, transport fc (h_Transport h) = Ok rt → ∃ u, (redirect (RoundTrip rt) (registry_url fc h) tr).1 = Ok u) →
  ∃ r tr', tries fc hosts err tr = (Ok r, tr').
Proof.
  intros Hc Hnp. revert err tr. induction hosts as [|h0 hosts IH]; intros err tr Hin Hb Hans; [set_solver|]. simpl.
  assert (∀ h, h ∈ hosts → ∃ rt, transport fc (h_Transport h) = Ok rt) as Hc' by (intros; apply Hc; by right).
  destruct (Hc h0) as [rt Hrt]; [left|]. rewrite Hrt. apply elem_of_cons in Hin as [->|Hin].
  - rewrite Hb. destruct (Hans rt tr Hrt) as [u Hu]. destruct (redirect _ _ tr) as [o tr1]. simpl in Hu. subst o. eauto.
  - destruct (bad_host h0); [by apply IH|].
    destruct (redirect (RoundTrip rt) (registry_url fc h0) tr) as [[u|e|] tr1] eqn:Er; [by eauto|by apply IH|].
    exfalso. revert Er. unfold redirect. pose proof (Hnp rt (mkRequest GET (registry_url fc h0) range01) tr).
    destruct (RoundTrip rt _ tr) as [[] ?]; repeat case_match; naive_solver.
Qed.

Context (cfg : BlobConfig).
Abbreviation resolve := (resolveFetcher (E := E) Background rhttp_NewClient RepositoryScope RoundTrip cfg).

(** The size in the descriptor is taken as it is; a descriptor without one costs requests
    for the headers. *)
Lemma resolveFetcher_http fc tr rt hf sz tr' :
  resolve [] fc tr = (Ok (RHttp rt hf, sz), tr') →
  ∃ hf0 tr0, newFetcher fc tr = (Ok (rt, hf0), tr0) ∧
    registryURL hf = registryURL hf0 ∧ realURL hf = realURL hf0 ∧ singleRange hf = ForceSingleRangeMode cfg ∧
    (fc_size fc ≠ 0 → sz = fc_size fc ∧ tr' = tr0) ∧
    (fc_size fc = 0 → (getLayerSize (RoundTrip rt) (hf0, tr0)).1 = Ok sz).
Proof.
  unfold resolveFetcher. cbn [first_handler]. destruct (newFetcher fc tr) as [[[rt1 hf1]| |] tr1]; [|done..].
  destruct (Z.eqb_spec (fc_size fc) 0) as [Hz|Hz].
  - destruct (getLayerSize (RoundTrip rt1) (hf1, tr1)) as [[s| |] [f2 tr2]] eqn:Eg; [|done..].
    intros [= <- <- <- <-]. exists hf1, tr1. rewrite Eg. simpl. split_and!; try done; intros; done.
  - intros [= <- <- <- <-]. by exists hf1, tr1.
Qed.

(** A blob that is resolved reads through a client with the retries, waits and timeout
    of the blob configuration. *)
Theorem Resolve_applies_policy hosts refspec digest size now tr rt hf b tr' :
  (∀ h, h ∈ hosts → ∃ t, registry_client (h_Transport h) t) →
  Resolve (E := E) Background rhttp_NewClient RepositoryScope RoundTrip cfg [] hosts refspec digest size now tr = (Ok b, tr') →
  fetcher b = RHttp rt hf →
  ∃ ac c, rt = RTAuth ac ∧ client ac = Some c ∧
    RetryMax c = blob_MaxRetries cfg ∧ RetryWaitMin c = msec (blob_MinWaitMsec cfg) ∧
    RetryWaitMax c = msec (blob_MaxWaitMsec cfg) ∧ http_ClientTimeout c = sec (FetchTimeoutSec cfg).
Proof.
  intros Hh. unfold Resolve. destruct (resolve _ _ _) as [[[f sz]| |] tr1] eqn:Er; [|done..].
  intros [= <- <-]. simpl. intros ->.
  apply resolveFetcher_http in Er as (hf0 & tr0 & Hn & _).
  apply newHTTPFetcher_policy in Hn as (ac & c & ? & ? & (? & ? & ? & ?)); [|done]. by exists ac, c.
Qed.

(** A blob that was refreshed reads through a client that never retries, does not wait
    and has no timeout, whatever the configuration says: [Refresh] resolves with a
    configuration in which they are zero. *)
Theorem Refresh_drops_policy hosts refspec digest size now tr b b' tr' rt hf :
  (∀ h, h ∈ hosts → ∃ t, registry_client (h_Transport h) t) →
  Refresh (E := E) Background rhttp_NewClient RepositoryScope RoundTrip cfg [] hosts refspec digest size now b tr = (Ok tt, b', tr') →
  fetcher b' = RHttp rt hf →
  ∃ ac c, rt = RTAuth ac ∧ client ac = Some c ∧
    RetryMax c = 0 ∧ RetryWaitMin c = 0 ∧ RetryWaitMax c = 0 ∧ http_ClientTimeout c = 0.
Proof.
  intros Hh. unfold Refresh, blob_Refresh. destruct (closed b); [done|].
  destruct (resolveFetcher (E := E) _ _ _ _ _ _ _ _) as [[[f sz]| |] tr1] eqn:Er; [|done..].
  destruct (negb _); [done|]. intros [= <- <-]. simpl. intros ->.
  apply resolveFetcher_http in Er as (hf0 & tr0 & Hn & _).
  apply newHTTPFetcher_policy in Hn as (ac & c & ? & ? & (? & ? & ? & ?)); [|done]. by exists ac, c.
Qed.
End facts.
