(* ===== verification/Cli.v ===== *)
(** * The command line

    Models what the commands of [cmd/soci] decide and in which order they act: the options
    of [create] and [convert], [push] and the index it chooses, [index list] and [index
    remove], the listings of ztocs and prefetch artifacts, the numbers of [ztoc info], and
    the OCI image layouts of standalone conversion.  The index builder, the artifacts
    database and the stores are the modelled ones; the image service of containerd, the
    remote repository and the parsers of references, platforms and digests are parameters.
    Flags arrive parsed; what is printed is not modelled. *)
From Stdlib Require Import ZArith Lia Ascii.
From stdpp Require Import base list gmap strings numbers.
From S2P Require Import Prelude GoLib Compression GzipZinfo Ztoc ZtocBuilder ZtocMarshal Oci ArtifactsDb Prefetch SociIndex SociConvert HttpUtil Fetch.
#[local] Open Scope Z_scope.

(** ** Flags *)
Definition is_space (c : ascii) : bool :=
  let n := N_of_ascii c in ((9 <=? n) && (n <=? 13) || (n =? 32))%N.
Fixpoint trim_left (s : string) : string :=
  match s with String c s' => if is_space c then trim_left s' else s | EmptyString => s end.
Fixpoint trim_right (s : string) : string :=
  match s with
  | EmptyString => EmptyString
  | String c s' => match trim_right s' with
                   | EmptyString => if is_space c then EmptyString else String c EmptyString
                   | t => String c t
                   end
  end.
(** [strings.TrimSpace] on ASCII text. *)
Definition TrimSpace (s : string) : string := trim_right (trim_left s).

Definition trimAndFilterFiles (files : list string) : list string :=
  filter (λ f, f ≠ ""%string) (TrimSpace <$> files).

Section flags.
Context (ReadFile : string → outcome bytes) (json_strings : bytes → outcome (list string)).

Definition loadPrefetchFilesFromJSON (filePath : string) : outcome (list string) :=
  data ← map_err (Wrap "failed to read JSON file") (ReadFile filePath);
  files ← map_err (Wrap "failed to parse JSON") (json_strings data);
  Ok (trimAndFilterFiles files).

Definition ParsePrefetchFiles (prefetchFiles : list string) (jsonFilePath : string) : outcome (list string) :=
  let all := trimAndFilterFiles prefetchFiles in
  if (jsonFilePath =? "")%string then Ok all
  else jsonFiles ← map_err (Wrap "failed to load prefetch files from JSON") (loadPrefetchFilesFromJSON jsonFilePath);
       Ok (all ++ jsonFiles).
End flags.

Fixpoint parse_optimizations (os : list string) : outcome (list string) :=
  match os with
  | [] => Ok []
  | o :: os' => x ← ParseOptimization o; xs ← parse_optimizations os'; Ok (x :: xs)
  end.

Definition buildToolIdentifier : string := "AWS SOCI CLI v0.2".
Definition sociIndexGCLabel : string := "containerd.io/gc.ref.content.soci-index".

Record flags := mkFlags {
  f_optimizations : list string;
  f_spanSize : Z;
  f_minLayerSize : Z;
  f_force : bool;
  f_prefetch : outcome (list string);     (* what [ParsePrefetchFiles] returns *)
  f_allPlatforms : bool;
  f_platforms : list string
}.

(** [parseBuilderOptions] of [convert]. *)
Definition parseBuilderOptions (fl : flags) : outcome (list BuilderOption) :=
  optimizations ← parse_optimizations (f_optimizations fl);
  all ← map_err (Wrap "failed to parse prefetch files") (f_prefetch fl);
  Ok ([WithMinLayerSize (f_minLayerSize fl); WithSpanSize (f_spanSize fl);
       WithBuildToolIdentifier buildToolIdentifier; WithOptimizations optimizations;
       WithForceRecreateZtocs (f_force fl)] ++
      (if 0 <? zlen all then [WithPrefetchPaths all] else [])).

(** [reference.Parse] yields the object of a reference. *)
Definition verifyRef (reference_Parse : string → outcome string) (r : string) : outcome () :=
  if (r =? "")%string then Err (ErrorString "reference cannot be empty")
  else
    object ← map_err (Wrap "could not parse reference") (reference_Parse r);
    if (object =? "")%string then Err (ErrorString "reference must be tagged")
    else if contains "@" object then Err (ErrorString "reference must not contain a digest")
    else Ok ().

Definition ErrInvalidDestRef : error := Sentinel "the destination image must be a tagged ref of the form registry/repository:tag".

(** The flag, else the docker configuration, else nothing. *)
Definition ResolveCredentials (user : option string) (containsAuth : bool) (getAuthConfig : outcome (string * string))
    : string * string :=
  match user with
  | Some user =>
      let '(u, p) := cut ":" user in
      if contains ":" user && negb (u =? "")%string then (u, p) else (user, ""%string)
  | None =>
      if containsAuth then match getAuthConfig with Ok ac => ac | _ => ("", "")%string end
      else ("", "")%string
  end.

Definition defaultMaxConcurrentUploads : Z := 3.
(** [value] is a [uint64], the result an [int]. *)
Definition concurrency (value : Z) : Z :=
  if value =? 0 then defaultMaxConcurrentUploads
  else if 2 ^ 63 - 1 <? value then defaultMaxConcurrentUploads
  else value.

Definition Warn : string := "warn".
Definition Skip : string := "skip".
Definition Allow : string := "allow".
Definition SupportedExistingIndexOptions : list string := [Warn; Skip; Allow].
Definition SupportedArg (v : string) (l : list string) : bool := existsb (String.eqb v) l.

(** ** Images of containerd *)
Record Image := mkImage { img_Name : string; img_Target : Descriptor; img_Labels : option (gmap string string) }.

(** The image service. *)
Class ImageService (IS : Type) := {
  is_Get : string → ST IS Image;
  is_Create : Image → ST IS Image;
  is_Update : Image → ST IS Image
}.

Section commands.
Context {Time BS CS IS : Type}.
Context `{HT : GoTime Time} `{HD : Digester} `{HG : GzipC} `{HTF : TarZinfoFlatbuf} `{HF : FlatbufZtoc} `{HS : GoSort}.
Context `{HSt : Store BS} `{HCS : ContentStore CS} `{HMT : MediaTypes} `{HPl : Platforms} `{HJ : DocJSON} `{HPJ : PrefetchJSON} `{HUJ : UnknownJSON}.
Context `{HIS : ImageService IS}.
Context (cs : CS) (now : Time) (now_rfc3339 : string) (tmp : outcome string) (order : nat → list nat).
Context (platforms_Parse : string → outcome Platform) (time_Before : Time → Time → bool).
Context (digest_parse : string → outcome string).
Implicit Types (ae : ArtifactEntry Time) (d : adb).
Local Open Scope go_scope.

Fixpoint parse_platforms (ps : list string) : outcome (list Platform) :=
  match ps with
  | [] => Ok []
  | p :: ps' => x ← map_err (Wrap "could not parse platform") (platforms_Parse p); xs ← parse_platforms ps'; Ok (x :: xs)
  end.

Definition GetPlatforms (fl : flags) (img : Image) : outcome (list Platform) :=
  if f_allPlatforms fl then images_Platforms cs (img_Target img) else parse_platforms (f_platforms fl).

Definition or_default (ps : list Platform) : list Platform :=
  match ps with [] => [platforms_DefaultSpec] | _ => ps end.

(** ** [create]

    The stores, the database and the images of containerd. *)
Definition cli_st : Type := (BS * adb) * IS.
Definition on_index {A} (m : ST (BS * adb) A) : ST cli_st A := λ s, let '(r, x) := m s.1 in (r, (x, s.2)).
Definition on_images {A} (m : ST IS A) : ST cli_st A := λ s, let '(r, x) := m s.2 in (r, (s.1, x)).

Definition set_label (k v : string) (img : Image) : Image :=
  mkImage (img_Name img) (img_Target img) (Some (<[k := v]> (default ∅ (img_Labels img)))).

(** One index per platform; each is entered into the image under the same label, and a
    failure to update the image is ignored.  Returns the image. *)
Fixpoint create_indexes (b : IndexBuilder Time) (img : Image) (ps : list Platform) : ST cli_st Image := λ s,
  match ps with
  | [] => (Ok img, s)
  | plat :: ps =>
      match on_index (on_store s_BatchOpen) s with
      | (Err e, s) => (Err e, s)
      | (Panic, s) => (Panic, s)
      | (Ok _, s) =>
          let '(r, s) :=
            match on_index (Build cs now now_rfc3339 tmp order b (img_Target img) [WithPlatform plat; WithNoGarbageCollectionLabel]) s with
            | (Ok im, s) =>
                let img := set_label sociIndexGCLabel (d_Digest (im_Desc im)) img in
                create_indexes b img ps (on_images (is_Update img) s).2
            | (Err e, s) => (Err e, s)
            | (Panic, s) => (Panic, s)
            end in
          (* [defer done(ctx)] *)
          (r, ((s_BatchDone s.1.1, s.1.2), s.2))
      end
  end.

Definition create (fl : flags) (gz tar : TarProvider Time) (srcRef : string) : ST cli_st Image :=
  if (srcRef =? "")%string then st_err (ErrorString "source image needs to be specified")
  else
    optimizations <~ st_lift (parse_optimizations (f_optimizations fl));;
    srcImg <~ on_images (is_Get srcRef);;
    ps <~ st_lift (GetPlatforms fl srcImg);;
    all <~ st_lift (map_err (Wrap "failed to parse prefetch files") (f_prefetch fl));;
    b <~ st_lift (NewIndexBuilder gz tar (Ok ())
      ([WithMinLayerSize (f_minLayerSize fl); WithSpanSize (f_spanSize fl);
        WithBuildToolIdentifier buildToolIdentifier; WithOptimizations optimizations; WithArtifactsDb;
        WithForceRecreateZtocs (f_force fl)] ++ (if 0 <? zlen all then [WithPrefetchPaths all] else [])));;
    create_indexes b srcImg (or_default ps).

(** ** [convert] with containerd *)
Definition convert (fl : flags) (reference_Parse : string → outcome string) (gz tar : TarProvider Time)
    (src dst : string) : ST cli_st Image :=
  if (src =? "")%string then st_err (ErrorString "source image needs to be specified")
  else if (dst =? "")%string then st_err (ErrorString "destination needs to be specified")
  else
    st_lift (map_err (Join ErrInvalidDestRef) (verifyRef reference_Parse dst));;;
    srcImg <~ on_images (is_Get src);;
    opts <~ st_lift (parseBuilderOptions fl);;
    b <~ st_lift (NewIndexBuilder gz tar (Ok ()) (opts ++ [WithArtifactsDb]));;
    on_index (on_store s_BatchOpen);;;
    (λ s,
      let '(r, s) := (
        ps <~ st_lift (GetPlatforms fl srcImg);;
        desc <~ on_index (Convert cs now now_rfc3339 tmp order b (img_Target srcImg)
                  [ConvertWithPlatforms ps; ConvertWithNoGarbageCollectionLabels]);;
        λ s, match on_images (is_Get dst) s with
             | (Ok img, s) => on_images (is_Update (mkImage (img_Name img) desc (img_Labels img))) s
             | (Err e, s) => if errors_Is e errdefs_ErrNotFound
                             then on_images (is_Create (mkImage dst desc None)) s else (Err e, s)
             | (Panic, s) => (Panic, s)
             end) s in
      (r, ((s_BatchDone s.1.1, s.1.2), s.2))).

(** ** [push] *)

(** [GetIndexDescriptorCollection] of [soci/soci_index.go]: the indexes recorded for the
    manifests of the platforms, and the last of these manifests. *)
Record IndexDescriptorInfo := mkIDI { idi_Descriptor : Descriptor; idi_CreatedAt : Time }.

Fixpoint platform_entries d (target : Descriptor) (ps : list Platform) (manifest : option Descriptor)
    (entries : list (ArtifactEntry Time)) : outcome (list (ArtifactEntry Time) * option Descriptor) :=
  match ps with
  | [] => Ok (entries, manifest)
  | p :: ps =>
      m ← GetImageManifestDescriptor cs target p;
      m ← must m;
      platform_entries d target ps (Some m) (entries ++ getIndexArtifactEntries (d_Digest m) d)
  end.

Definition entry_descriptor ae : option IndexDescriptorInfo :=
  match digest_parse (ae_Digest ae) with
  | Ok dgst => Some (mkIDI (mkDesc (ae_MediaType ae) dgst (ae_Size ae) ∅ None (ae_ArtifactType ae)) (ae_CreatedAt ae))
  | _ => None
  end.

Definition GetIndexDescriptorCollection d (target : Descriptor) (ps : list Platform)
    : outcome (list IndexDescriptorInfo * option Descriptor) :=
  r ← platform_entries d target ps None [];
  Ok (omap (M := list) entry_descriptor r.1, r.2).

Definition is_v2 (i : IndexDescriptorInfo) : bool := String.eqb (d_ArtifactType (idi_Descriptor i)) SociIndexArtifactTypeV2.

(** The newest index of the first manifest version for a platform, with the manifest. *)
Definition choose_index d (target : Descriptor) (platform : Platform) : outcome (IndexDescriptorInfo * Descriptor) :=
  r ← GetIndexDescriptorCollection d target [platform];
  let v1 := List.filter (λ i, negb (is_v2 i)) r.1 in
  match v1 with
  | [] => Err (ErrorString "could not find any soci index manifest v1 to push for platform")
  | _ =>
      m ← must r.2;
      indexDesc ← must (list.last (sort_Slice (λ a b, time_Before (idi_CreatedAt a) (idi_CreatedAt b)) v1));
      Ok (indexDesc, m)
  end.

Fixpoint choose_indexes d (target : Descriptor) (ps : list Platform) : outcome (list (IndexDescriptorInfo * Descriptor)) :=
  match ps with
  | [] => Ok []
  | p :: ps => x ← choose_index d target p; xs ← choose_indexes d target ps; Ok (x :: xs)
  end.

(** The remote repository: [referrers] is [AllReferrers] of a manifest, [CopyGraph] uploads
    an index with what it refers to. *)
Section remote.
Context {R : Type} (referrers : string → ST R (list Descriptor)) (CopyGraph : Descriptor → ST R ()).

Fixpoint push_all (existing : string) (toPush : list (IndexDescriptorInfo * Descriptor)) : ST R () := λ r,
  match toPush with
  | [] => (Ok tt, r)
  | (indexDesc, imgManifestDesc) :: rest =>
      let upload r :=
        match CopyGraph (idi_Descriptor indexDesc) r with
        | (Ok _, r) => push_all existing rest r
        | (Err e, r) => (Err (Wrap "error pushing graph to remote" e), r)
        | (Panic, r) => (Panic, r)
        end in
      if (existing =? Allow)%string then upload r
      else
        match referrers (d_Digest imgManifestDesc) r with
        | (Panic, r) => (Panic, r)
        | (Err e, r) =>
            if errors_Is e ErrNoReferrers then upload r
            else (Err (Wrap "failed to fetch list of referrers" e), r)
        | (Ok found, r) =>
            if (0 <? zlen found) && (existing =? Skip)%string then push_all existing rest r
            else upload r
        end
  end.

Definition push (fl : flags) (existing : string) (img : Image) d : ST R () := λ r,
  match GetPlatforms fl img with
  | Err e => (Err e, r)
  | Panic => (Panic, r)
  | Ok ps =>
      if negb (SupportedArg existing SupportedExistingIndexOptions)
      then (Err (ErrorString "unexpected value for flag existing-index"), r)
      else
        match choose_indexes d (img_Target img) (or_default ps) with
        | Ok toPush => push_all existing toPush r
        | Err e => (Err e, r)
        | Panic => (Panic, r)
        end
  end.
End remote.

(** ** [index list] *)
Definition indexFilter ae : bool := String.eqb (ae_Type ae) ArtifactEntryTypeIndex.
Definition platformFilter (p : Platform) ae : bool := indexFilter ae && String.eqb (ae_Platform ae) (platforms_Format p).
Definition originalDigestFilter (digest : string) ae : bool := indexFilter ae && String.eqb (ae_OriginalDigest ae) digest.
Definition anyMatch (fns : list (ArtifactEntry Time → bool)) ae : bool := existsb (λ f, f ae) fns.

Fixpoint digest_filters (target : Descriptor) (plats : list Platform) : outcome (list (ArtifactEntry Time → bool)) :=
  match plats with
  | [] => Ok []
  | p :: plats =>
      m ← map_err (λ e, if errors_Is e errdefs_ErrNotFound then Wrap "image manifest for platform" e else e)
            (GetImageManifestDescriptor cs target p);
      m ← must m;
      fs ← digest_filters target plats;
      Ok (originalDigestFilter (d_Digest m) :: fs)
  end.

(** [img] is the image of the reference, if one was given. *)
Definition list_filter (img : option Image) (plats : list Platform) : outcome (ArtifactEntry Time → bool) :=
  match img with
  | Some img =>
      plats ← (match plats with [] => images_Platforms cs (img_Target img) | _ => Ok plats end);
      fs ← digest_filters (img_Target img) plats;
      Ok (anyMatch fs)
  | None => match plats with [] => Ok indexFilter | _ => Ok (anyMatch (platformFilter <$> plats)) end
  end.

Definition index_list (img : option Image) (platforms : list string) d : outcome (list (ArtifactEntry Time)) :=
  plats ← parse_platforms platforms;
  f ← list_filter img plats;
  let artifacts := Walk (Time := Time) (λ ae acc, (if (f : _ → bool) ae then acc ++ [ae] else acc, false)) [] d in
  Ok (sort_Slice (λ a b, time_Before (ae_CreatedAt b) (ae_CreatedAt a)) artifacts).

(** ** [index remove] *)
Fixpoint removeArtifactsAndContent (digests : list string) : ST (BS * adb) () :=
  match digests with
  | [] => st_ret tt
  | dgst :: rest =>
      on_db (RemoveArtifactEntryByIndexDigest dgst);;;
      x <~ st_lift (digest_parse dgst);;
      on_store (s_Delete x);;;
      removeArtifactsAndContent rest
  end.

(** [img] is the image of the reference, if one was given. *)
Definition index_remove (args : list string) (img : option Image) : ST (BS * adb) () := λ s,
  match img with
  | Some img =>
      if 0 <? zlen args
      then (Err (ErrorString "please provide either index digests or image ref, but not both"), s)
      else match GetArtifactEntriesByImageDigest (d_Digest (img_Target img)) s.2 with
           | Ok entries => removeArtifactsAndContent entries s
           | Err e => (Err e, s)
           | Panic => (Panic, s)
           end
  | None => removeArtifactsAndContent args s
  end.

(** ** [ztoc list] and [prefetch list] *)
Definition ztoc_list_all (ztocDgst : string) d : list (ArtifactEntry Time) :=
  Walk (λ ae acc, (if String.eqb (ae_Type ae) ArtifactEntryTypeLayer &&
                      ((ztocDgst =? "")%string || String.eqb (ae_Digest ae) ztocDgst) then acc ++ [ae] else acc, false)) [] d.

(** An index that the content store does not hold is passed over. *)
Fixpoint index_ztocs (infos : list IndexDescriptorInfo) : outcome (list Descriptor) :=
  match infos with
  | [] => Ok []
  | i :: infos =>
      match cs_ReadAll cs (idi_Descriptor i) with
      | Err e => if errors_Is e errdefs_ErrNotFound then index_ztocs infos
                 else Err (Wrap "failed to read a soci index from the content store" e)
      | Panic => Panic
      | Ok data =>
          ix ← map_err (Wrap "failed to decode a soci index") (DecodeIndex (Ok data));
          rest ← index_ztocs infos;
          Ok (List.filter (λ b, String.eqb (d_MediaType b) SociLayerMediaType) (i_Blobs ix) ++ rest)
      end
  end.

Fixpoint ztoc_entries (ztocDgst : string) (descs : list Descriptor) d : outcome (list (ArtifactEntry Time)) :=
  match descs with
  | [] => Ok []
  | z :: descs =>
      entry ← map_err (Wrap "failed to get ztoc from artifacts store") (GetArtifactEntry (d_Digest z) d);
      rest ← ztoc_entries ztocDgst descs d;
      Ok (if (ztocDgst =? "")%string || String.eqb ztocDgst (ae_Digest entry) then entry :: rest else rest)
  end.

Definition ztoc_list_image (ztocDgst : string) (img : Image) d : outcome (list (ArtifactEntry Time)) :=
  supported ← map_err (Wrap "failed to get supported platforms for the image") (images_Platforms cs (img_Target img));
  infos ← map_err (Wrap "failed to get soci indexes for the image") (GetIndexDescriptorCollection d (img_Target img) supported);
  descs ← index_ztocs infos.1;
  artifacts ← ztoc_entries ztocDgst descs d;
  if negb (ztocDgst =? "")%string && (zlen artifacts =? 0)
  then Err (ErrorString "the specified ztoc doesn't exist or is not associated with the specified image")
  else Ok artifacts.

Definition span_total (p : PrefetchArtifact) : Z :=
  foldl (λ n s, n + int32 (int32 (EndSpan s - StartSpan s) + 1)) 0 (PrefetchSpans p).

Definition prefetch_spans_of ae (s : BS) : Z * BS :=
  match digest_parse (ae_Digest ae) with
  | Ok dgst =>
      match s_Fetch (content_desc "" dgst 0) s with
      | (Ok data, s) => (match UnmarshalPrefetchArtifact (Ok data) with Ok a => span_total a | _ => -1 end, s)
      | (_, s) => (-1, s)
      end
  | _ => (-1, s)
  end.

Definition prefetch_list d (s : BS) : list (string * string * Z * Time) * BS :=
  Walk (λ ae acc,
    (if String.eqb (ae_Type ae) ArtifactEntryTypePrefetch
     then let '(n, s) := prefetch_spans_of ae acc.2 in
          (acc.1 ++ [(ae_Digest ae, ae_OriginalDigest ae, n, ae_CreatedAt ae)], s)
     else acc, false)) ([], s) d.

(** ** [ztoc info]: the spans of a file, and whether it is counted as crossing spans *)
Definition file_info (fm : FileMetadata Time) {T} `{Zinfo T} (zi : T) : outcome (SpanID * SpanID * bool) :=
  startSpan ← UncompressedOffsetToSpanID zi (UncompressedOffset fm);
  endSpan ← UncompressedOffsetToSpanID zi (int64 (UncompressedOffset fm + UncompressedSize fm));
  Ok (startSpan, endSpan, negb (startSpan =? endSpan)).
End commands.
