(* ===== verification/CliFacts.v ===== *)
(** * What the commands do

    Theorems about [Cli]: which index [push] uploads, what [create] leaves in the image,
    what [index remove] deletes and [index list] shows. *)
From Stdlib Require Import ZArith Lia Ascii Sorting.Sorted.
From stdpp Require Import base list gmap strings numbers.
From S2P Require Import Prelude GoLib Compression GzipZinfo Ztoc ZtocBuilder ZtocMarshal Oci ArtifactsDb Prefetch SociIndex SociConvert HttpUtil Fetch Cli.
#[local] Open Scope Z_scope.

(** The last element of a list sorted by a strict weak order is not before any other. *)
Lemma last_of_sorted {A} (less : A → A → bool) (l : list A) x :
  StronglySorted (λ a b, less b a = false) l → list.last l = Some x →
  ∀ y, y ∈ l → y = x ∨ less x y = false.
Proof.
  induction 1 as [|a l Hs IH Ha]; [done|]. destruct l as [|b l].
  - intros [= <-] y Hy. left. set_solver.
  - change (list.last (a :: b :: l)) with (list.last (b :: l)). intros Hx y [->|Hy]%elem_of_cons; [|by apply IH].
    right. rewrite List.Forall_forall in Ha. apply Ha, list_elem_of_In.
    rewrite last_lookup in Hx. by eapply list_elem_of_lookup_2.
Qed.

Section commands.
Context {Time BS CS IS : Type}.
Context `{HT : GoTime Time} `{HD : Digester} `{HG : GzipC} `{HTF : TarZinfoFlatbuf} `{HF : FlatbufZtoc} `{HS : GoSort}.
Context `{HSt : Store BS} `{HCS : ContentStore CS} `{HMT : MediaTypes} `{HPl : Platforms} `{HJ : DocJSON} `{HPJ : PrefetchJSON} `{HUJ : UnknownJSON}.
Context `{HIS : ImageService IS} `{HSL : !GoSortLaws}.
Context (cs : CS).
Context (platforms_Parse : string → outcome Platform) (time_Before : Time → Time → bool).
Context (digest_parse : string → outcome string).
Implicit Types (ae : ArtifactEntry Time) (d : adb).

Abbreviation choose := (choose_index cs time_Before digest_parse).
Abbreviation chooses := (choose_indexes cs time_Before digest_parse).

(** ** [push] *)

(** An index of the first manifest version recorded for a manifest. *)
Definition candidate d (m : Descriptor) (i : IndexDescriptorInfo (Time := Time)) : Prop :=
  ∃ ae, ae ∈ getIndexArtifactEntries (d_Digest m) d ∧ entry_descriptor digest_parse ae = Some i ∧ is_v2 i = false.

(** The newest of them for the manifest of a platform. *)
Definition newest_index d (target : Descriptor) (p : Platform) (x : IndexDescriptorInfo (Time := Time) * Descriptor) : Prop :=
  GetImageManifestDescriptor cs target p = Ok (Some x.2) ∧ candidate d x.2 x.1 ∧
  ∀ j, candidate d x.2 j → time_Before (idi_CreatedAt x.1) (idi_CreatedAt j) = false.

Context (HB : StrictWeak (λ a b : IndexDescriptorInfo (Time := Time), time_Before (idi_CreatedAt a) (idi_CreatedAt b))).

Lemma choose_newest d target p x : choose d target p = Ok x → newest_index d target p x.
Proof.
  unfold choose_index, GetIndexDescriptorCollection. cbn [platform_entries].
  destruct (GetImageManifestDescriptor cs target p) as [[m|]| |] eqn:Em; [|done..]. simpl.
  set (less := λ a b : IndexDescriptorInfo, time_Before (idi_CreatedAt a) (idi_CreatedAt b)) in *.
  set (v1 := List.filter _ _).
  assert (∀ i, i ∈ v1 ↔ candidate d m i) as Hv.
  { intros i. unfold v1, candidate. rewrite list_elem_of_In, filter_In, <-list_elem_of_In, list_elem_of_omap, negb_true_iff. naive_solver. }
  destruct v1 as [|v v1'] eqn:Ev; [done|]. rewrite <-Ev in *.
  assert (must (list.last (sort_Slice less v1)) = must (list.last (sort_Slice less v1))) as _ by done.
  destruct (list.last (sort_Slice less v1)) as [i|] eqn:El; simpl; [|done]. intros [= <-]. simpl.
  assert (i ∈ v1) as Hi.
  { rewrite <-(sort_Slice_perm less v1), last_lookup in *. by eapply list_elem_of_lookup_2. }
  split; [done|]. split; [by apply Hv|]. simpl. intros j Hj%Hv.
  rewrite <-(sort_Slice_perm less v1) in Hj.
  destruct (last_of_sorted less _ _ (sort_Slice_ordered less v1 HB) El j Hj) as [->|?]; [|done].
  destruct (less i i) eqn:E; [|done]. pose proof (less_asym _ _ E). unfold less in *. congruence.
Qed.

Lemma chooses_newest d target ps xs : chooses d target ps = Ok xs → Forall2 (newest_index d target) ps xs.
Proof.
  revert xs. induction ps as [|p ps IH]; intros xs; simpl; [intros [= <-]; constructor|].
  destruct (choose d target p) as [x| |] eqn:Ex; [|done..]. simpl.
  destruct (chooses d target ps) as [ys| |] eqn:Ey; [|done..]. intros [= <-].
  constructor; [by apply choose_newest|by apply IH].
Qed.

(** A repository that remembers what was uploaded. *)
Section remote.
Context {R : Type} (referrers : string → ST R (list Descriptor)) (CopyGraph : Descriptor → ST R ()).

Definition logged_referrers (dgst : string) : ST (R * list Descriptor) (list Descriptor) := λ '(r, log),
  let '(o, r) := referrers dgst r in (o, (r, log)).
Definition logged_copy (desc : Descriptor) : ST (R * list Descriptor) () := λ '(r, log),
  match CopyGraph desc r with
  | (Ok _, r) => (Ok tt, (r, log ++ [desc]))
  | (o, r) => (o, (r, log))
  end.

Definition descriptors (xs : list (IndexDescriptorInfo (Time := Time) * Descriptor)) : list Descriptor :=
  (λ x, idi_Descriptor x.1) <$> xs.

Lemma push_all_log existing toPush r log :
  let '(o, (r', log')) := push_all logged_referrers logged_copy existing toPush (r, log) in
  ∃ up, log' = log ++ up ∧ up `sublist_of` (descriptors toPush) ∧
    (o = Ok tt → existing ≠ Skip → up = descriptors toPush).
Proof.
  revert r log. induction toPush as [|[i m] toPush IH]; intros r log; simpl.
  { exists []. rewrite app_nil_r. split_and!; [done|constructor|done]. }
  assert (∀ r, let '(o, (r', log')) :=
      match logged_copy (idi_Descriptor i) (r, log) with
      | (Ok _, r) => push_all logged_referrers logged_copy existing toPush r
      | (Err e, r) => (Err (Wrap "error pushing graph to remote" e), r)
      | (Panic, r) => (Panic, r)
      end in ∃ up, log' = log ++ up ∧
    up `sublist_of` (idi_Descriptor i :: (descriptors toPush)) ∧
    (o = Ok tt → existing ≠ Skip → up = idi_Descriptor i :: (descriptors toPush))) as Hup.
  { intros r0. unfold logged_copy at 1. destruct (CopyGraph (idi_Descriptor i) r0) as [[[]|e|] r1].
    2, 3: exists []; rewrite app_nil_r; split_and!; [done|apply sublist_nil_l|done].
    specialize (IH r1 (log ++ [idi_Descriptor i])).
    destruct (push_all _ _ existing toPush _) as [o [r' log']]. destruct IH as (up & -> & Hsub & Hok).
    exists (idi_Descriptor i :: up). rewrite <-(assoc_L (++)). split_and!; [done|by constructor|].
    intros Ho Hs. by rewrite (Hok Ho Hs). }
  assert (∀ e : error, ∃ up : list Descriptor, log = log ++ up ∧
    up `sublist_of` (idi_Descriptor i :: (descriptors toPush)) ∧
    ((Err e : outcome ()) = Ok tt → existing ≠ Skip → up = idi_Descriptor i :: (descriptors toPush))) as Hnone.
  { intros e. exists []. rewrite app_nil_r. split_and!; [done|apply sublist_nil_l|done]. }
  destruct (existing =? Allow)%string; [apply Hup|].
  destruct (referrers (d_Digest m) r) as [[found|e|] r1]; simpl.
  - destruct ((0 <? zlen found) && (existing =? Skip)%string) eqn:Es; [|apply Hup].
    apply andb_true_iff in Es as [_ Es%String.eqb_eq].
    specialize (IH r1 log). destruct (push_all _ _ existing toPush _) as [o [r' log']].
    destruct IH as (up & -> & Hsub & _). exists up. split_and!; [done|by constructor|done].
  - destruct (errors_Is e ErrNoReferrers); [apply Hup|apply Hnone].
  - exists []. rewrite app_nil_r. split_and!; [done|apply sublist_nil_l|done].
Qed.

(** C40: whatever the repository answers, [push] uploads in the order of the platforms, and
    only the newest index of the first manifest version that is recorded for the manifest
    of each platform; it uploads nothing unless every platform has one; and when it
    succeeds it has uploaded all of them, unless it was asked to skip manifests for which
    the repository has an index. *)
Theorem push_uploads_newest fl existing img d r o r' up :
  push cs platforms_Parse time_Before digest_parse logged_referrers logged_copy fl existing img d (r, []) = (o, (r', up)) →
  up = [] ∧ (∀ x, o ≠ Ok x) ∨
  ∃ ps xs, GetPlatforms cs platforms_Parse fl img = Ok ps ∧
    Forall2 (newest_index d (img_Target img)) (or_default ps) xs ∧
    up `sublist_of` (descriptors xs) ∧
    (o = Ok tt → existing ≠ Skip → up = descriptors xs).
Proof.
  unfold push. destruct (GetPlatforms cs platforms_Parse fl img) as [ps| |] eqn:Ep;
    [|intros [= <- <- <-]; by left..].
  destruct (negb _); [intros [= <- <- <-]; by left|].
  destruct (chooses d (img_Target img) (or_default ps)) as [xs| |] eqn:Ec; [|intros [= <- <- <-]; by left..].
  intros Hp. pose proof (push_all_log existing xs r []) as Hl. rewrite Hp in Hl.
  destruct Hl as (up' & -> & Hsub & Hok). right. exists ps, xs.
  split_and!; [done|by apply chooses_newest|done|done].
Qed.
End remote.

(** ** [create] *)
Context (now : Time) (now_rfc3339 : string) (tmp : outcome string) (order : nat → list nat).
Abbreviation builds := (Build cs now now_rfc3339 tmp order).
Abbreviation creates := (create_indexes cs now now_rfc3339 tmp order).

Lemma create_indexes_spec b ps : ∀ img s img' s',
  creates b img ps s = (Ok img', s') →
  img_Name img' = img_Name img ∧ img_Target img' = img_Target img ∧
  match list.last ps with
  | None => img' = img
  | Some p => ∃ s1 s2 im,
      builds b (img_Target img) [WithPlatform p; WithNoGarbageCollectionLabel] s1 = (Ok im, s2) ∧
      img_Labels img' = Some (<[sociIndexGCLabel := d_Digest (im_Desc im)]> (default ∅ (img_Labels img)))
  end.
Proof.
  induction ps as [|p ps IH]; intros img s img' s'; cbn [create_indexes]; [by intros [= -> ->]|].
  destruct (on_index (on_store s_BatchOpen) s) as [[x|e|] s1]; [|done..].
  unfold on_index at 1. destruct (builds b (img_Target img) _ s1.1) as [[im|e|] t] eqn:Eb; [|done..].
  set (img1 := set_label _ _ img).
  destruct (creates b img1 ps _) as [[img2|e|] s3] eqn:Ec; [|done..]. intros [= <- <-].
  apply IH in Ec as (Hn & Ht & Hlast). split; [done|]. split; [done|].
  destruct ps as [|q ps].
  - simpl in *. subst img2. by exists s1.1, t, im.
  - change (list.last (p :: q :: ps)) with (list.last (q :: ps)).
    destruct (list.last (q :: ps)) as [p'|] eqn:El; [|by apply last_None in El].
    destruct Hlast as (u1 & u2 & im' & Hb & Hl). exists u1, u2, im'. split; [done|].
    rewrite Hl. unfold img1, set_label. simpl. by rewrite insert_insert_eq.
Qed.

(** [create] enters every index it builds into the image under one label, so that the
    image refers only to the index of the last platform and has the labels it had before
    otherwise: with several platforms nothing refers to the indexes of the others, which
    are built without a label that would keep them. *)
Theorem create_labels_last_index b img ps p s img' s' :
  creates b img (ps ++ [p]) s = (Ok img', s') →
  ∃ s1 s2 im,
    builds b (img_Target img) [WithPlatform p; WithNoGarbageCollectionLabel] s1 = (Ok im, s2) ∧
    img_Labels img' = Some (<[sociIndexGCLabel := d_Digest (im_Desc im)]> (default ∅ (img_Labels img))).
Proof. intros (_ & _ & Hl)%create_indexes_spec. by rewrite last_snoc in Hl. Qed.

(** ** [index remove] *)
Lemma removed_entry k d (s : BS) (m : gmap string abucket) : d = Some m →
  ∀ s', on_db (RemoveArtifactEntryByIndexDigest k) (s, d) = (Ok tt, s') → s' = (s, Some (delete k m)) ∧ is_Some (m !! k).
Proof.
  intros ->. unfold on_db, RemoveArtifactEntryByIndexDigest, Update. simpl.
  destruct (m !! k) as [b|] eqn:Ek; simpl; [|done]. destruct (indexBucket b); simpl; [|done].
  intros s' [= <-]. split; [done|by eexists].
Qed.

(** When removing succeeds, exactly the given entries are gone from the database, and they
    had been there. *)
Lemma remove_all_spec digests : ∀ (s : BS) m s' d',
  removeArtifactsAndContent digest_parse digests (s, Some m) = (Ok tt, (s', d')) →
  d' = Some (foldl (λ m k, delete k m) m digests) ∧ (∀ k, k ∈ digests → is_Some (m !! k)) ∧ NoDup digests.
Proof.
  induction digests as [|k digests IH]; intros s m s' d'; simpl.
  { intros [= <- <-]. split_and!; [done|set_solver|constructor]. }
  unfold st_bind at 1. destruct (on_db (RemoveArtifactEntryByIndexDigest k) (s, Some m)) as [[[]|e|] s1] eqn:Er; [|done..].
  destruct (removed_entry _ _ _ m eq_refl _ Er) as [-> Hk]. unfold st_bind at 1, st_lift.
  destruct (digest_parse k) as [x| |]; [|done..]. unfold st_bind, on_store. simpl.
  destruct (s_Delete x s) as [[[]|e|] s2]; [|done..]. intros (-> & Hin & Hnd)%IH. split; [done|].
  assert (k ∉ digests) as Hkn.
  { intros [b Hb]%Hin. by rewrite lookup_delete_eq in Hb. }
  split.
  - intros k' [->|[b Hb]%Hin]%elem_of_cons; [done|]. apply lookup_delete_Some in Hb as [_ ?]. by eexists.
  - by constructor.
Qed.

(** ** [index list] *)
Lemma walk_filter_sub (f : ArtifactEntry Time → bool) l acc ae :
  ae ∈ walk_loop (λ ae acc, (if f ae then acc ++ [ae] else acc, false)) l acc →
  ae ∈ acc ∨ f ae = true ∧ ∃ k b, (k, b) ∈ l ∧ loadArtifact b k = Ok ae.
Proof.
  revert acc. induction l as [|[k b] l IH]; intros acc; simpl; [by left|].
  destruct (loadArtifact b k) as [ae'| |] eqn:El; [|by left..].
  intros [Hin|(Hf & k' & b' & Hin & Hl)]%IH; [|right; split; [done|]; exists k', b'; split; [by right|done] ].
  destruct (f ae') eqn:Ef; [|by left]. apply elem_of_app in Hin as [?|Hin]; [by left|].
  apply list_elem_of_singleton in Hin as ->. right. split; [done|]. exists k, b. split; [left|done].
Qed.

(** [index list] shows entries of the database that match, newest first. *)
Lemma index_list_sound img plats d l :
  StrictWeak (λ a b : ArtifactEntry Time, time_Before (ae_CreatedAt b) (ae_CreatedAt a)) →
  index_list cs platforms_Parse time_Before img plats d = Ok l →
  ∃ ps f, parse_platforms platforms_Parse plats = Ok ps ∧ list_filter cs img ps = Ok f ∧
    (∀ ae, ae ∈ l → f ae = true ∧ ∃ m k b, d = Some m ∧ m !! k = Some b ∧ loadArtifact b k = Ok ae) ∧
    StronglySorted (λ a b, time_Before (ae_CreatedAt a) (ae_CreatedAt b) = false) l.
Proof.
  intros HW. unfold index_list. destruct (parse_platforms platforms_Parse plats) as [ps| |]; [|done..]. simpl.
  destruct (list_filter cs img ps) as [f| |] eqn:Ef; [|done..]. simpl. intros [= <-]. exists ps, f.
  split_and!; [done|done| |exact (sort_Slice_ordered _ _ HW)].
  intros ae. rewrite sort_Slice_perm. unfold Walk. destruct d as [m|]; [|set_solver].
  intros [?|(Hf & k & b & Hin & Hl)]%walk_filter_sub; [set_solver|]. split; [done|]. exists m, k, b.
  split; [done|]. split; [|done]. apply elem_of_map_to_list. by rewrite bolt_order_perm in Hin.
Qed.
End commands.

(** ** Credentials *)
Lemma cut_found c u p : contains c u = false → cut c (u +:+ String c p) = (u, p) ∧ contains c (u +:+ String c p) = true.
Proof.
  induction u as [|x u IH].
  - intros _. change ("" +:+ String c p) with (String c p). simpl. by rewrite Ascii.eqb_refl.
  - simpl. change (String x u +:+ String c p) with (String x (u +:+ String c p)). simpl.
    destruct (x =? c)%char; [done|]. simpl. intros [-> ->]%IH. done.
Qed.

(** The user of the flag and its password are told apart at the first colon. *)
Lemma ResolveCredentials_flag u p a g : contains ":" u = false → u ≠ ""%string →
  ResolveCredentials (Some (u +:+ String ":" p)) a g = (u, p).
Proof.
  intros Hu Hne. unfold ResolveCredentials. destruct (cut_found ":" u p Hu) as [-> ->].
  by rewrite (proj2 (String.eqb_neq u "") Hne).
Qed.

(** [ztoc info] reports a file that ends where its span ends as reaching into the next span,
    and counts it as crossing spans: it looks up the first byte after the file. *)
Lemma full_span_crosses `{TarZinfoFlatbuf} {Time} (fm : FileMetadata Time) :
  UncompressedOffset fm = 0 → UncompressedSize fm = 512 →
  file_info fm (TarZinfo.mk 1 512 1024) = Ok (0, 1, true).
Proof. intros Ho Hs. unfold file_info. by rewrite Ho, Hs. Qed.
