(* ===== verification/CliLayout.v ===== *)
(** * OCI image layouts of standalone conversion

    Models [cmd/soci/commands/internal/standalone.go]: choosing the root of an image layout
    whose index may be flat, nested or partial, and writing a layout directory.  A layout is
    its [index.json] and its blobs; a digest names at most one file ([blobPath] is injective
    on well formed digests).  Each call of the file system may fail; [writes] is the outcome
    of making the directory and writing the file.  JSON encoding is [DocJSON]. *)
From Stdlib Require Import ZArith Lia.
From stdpp Require Import base list gmap strings numbers.
From S2P Require Import Prelude GoLib ZtocBuilder Oci.
#[local] Open Scope Z_scope.

Record layout := mkLayout { index_json : option bytes; blobs : gmap string bytes }.

Section layout.
Context `{HD : Digester} `{HMT : MediaTypes} `{HJ : DocJSON}.
Context (writes : outcome ()).

Definition has_blob (l : layout) (d : Descriptor) : bool := bool_decide (is_Some (blobs l !! d_Digest d)).

Definition read_list (l : layout) (indexData : bytes) (top : OciIndex) : outcome (bytes * string) :=
  match x_Manifests top with
  | [m] =>
      match blobs l !! d_Digest m with
      | Some b => Ok (b, d_MediaType m)
      | None => Err (ErrorString "read manifest list")
      end
  | _ => Ok (indexData, x_MediaType top)
  end.

Definition or_index (mediaType : string) : string := if (mediaType =? "")%string then MediaTypeImageIndex else mediaType.

(** The manifest list that holds the available entries, written as a new blob. *)
Definition write_list (l : layout) (list_ : OciIndex) (mediaType : string) (available : list Descriptor)
    : outcome Descriptor * layout :=
  match ociindex_Marshal (mkOciIndex (x_SchemaVersion list_) mediaType available (x_Annotations list_)) with
  | Err e => (Err (Wrap "marshal manifest list" e), l)
  | Panic => (Panic, l)
  | Ok data =>
      match writes with
      | Ok _ => (Ok (content_desc mediaType (digest_FromBytes data) (zlen data)),
                 mkLayout (index_json l) (<[digest_FromBytes data := data]> (blobs l)))
      | Err e => (Err e, l)
      | Panic => (Panic, l)
      end
  end.

Definition resolveLayoutRoot (l : layout) (indexData : bytes) : outcome Descriptor * layout :=
  match ociindex_Unmarshal indexData with
  | Err e => (Err (Wrap "unmarshal index.json" e), l)
  | Panic => (Panic, l)
  | Ok top =>
      match x_Manifests top with
      | [] => (Err (ErrorString "index.json contains no manifests"), l)
      | m :: ms =>
          let one := match ms with [] => true | _ => false end in
          if one && negb (IsIndexType (d_MediaType m)) then (Ok m, l)
          else
            match read_list l indexData top with
            | Err e => (Err e, l)
            | Panic => (Panic, l)
            | Ok (listBytes, mediaType) =>
                match ociindex_Unmarshal listBytes with
                | Err e => (Err (Wrap "unmarshal manifest list" e), l)
                | Panic => (Panic, l)
                | Ok list_ =>
                    let available := List.filter (has_blob l) (x_Manifests list_) in
                    match available with
                    | [] => (Err (ErrorString "manifest list contains no entries with available blobs"), l)
                    | a :: rest =>
                        if (match rest with [] => true | _ => false end) && IsManifestType (d_MediaType a) then (Ok a, l)
                        else if one && (zlen available =? zlen (x_Manifests list_)) then (Ok m, l)
                        else write_list l list_ (or_index mediaType) available
                    end
                end
            end
      end
  end.

(** [LoadImage] after the layout was copied or extracted: its root. *)
Definition LoadImage (l : layout) : outcome Descriptor * layout :=
  match index_json l with
  | None => (Err (ErrorString "failed to read index.json"), l)
  | Some indexData => resolveLayoutRoot l indexData
  end.

(** [SaveImageToDir]: the blobs are copied and the index lists one descriptor. *)
Definition SaveImageToDir (src : layout) (desc : Descriptor) : outcome layout :=
  indexData ← map_err (Wrap "failed to marshal index.json") (ociindex_Marshal (mkOciIndex 2 MediaTypeImageIndex [desc] ∅));
  match writes with
  | Ok _ => Ok (mkLayout (Some indexData) (blobs src))
  | Err e => Err e
  | Panic => Panic
  end.

(** ** What the root is *)

(** The manifests of a layout: a single image, or the entries of the list, nested or not. *)
Inductive listed (l : layout) : Descriptor → Prop :=
  | listed_top data top d : index_json l = Some data → ociindex_Unmarshal data = Ok top →
      d ∈ x_Manifests top → listed l d
  | listed_nested data top m b list_ d : index_json l = Some data → ociindex_Unmarshal data = Ok top →
      x_Manifests top = [m] → blobs l !! d_Digest m = Some b → ociindex_Unmarshal b = Ok list_ →
      d ∈ x_Manifests list_ → listed l d.

(** A root that is a list of available entries of the layout. *)
Definition complete_list (l l' : layout) (root : Descriptor) : Prop :=
  ∃ data list_, blobs l' !! d_Digest root = Some data ∧ ociindex_Unmarshal data = Ok list_ ∧
    x_Manifests list_ ≠ [] ∧ ∀ d, d ∈ x_Manifests list_ → listed l d ∧ has_blob l' d = true.

Lemma zlen_filter_all {A} (f : A → bool) (l : list A) : zlen (List.filter f l) = zlen l → List.filter f l = l.
Proof.
  unfold zlen. intros H. assert (length (List.filter f l) = length l) as Hl by lia. clear H.
  induction l as [|x l IH]; [done|]. simpl in *. pose proof (List.filter_length_le f l) as Hle.
  destruct (f x); simpl in *; [|lia]. f_equal. apply IH. lia.
Qed.

Lemma write_list_spec `{!DocJSONLaws} l0 l list_ mt available root l' :
  available ≠ [] → (∀ d, d ∈ available → listed l0 d ∧ has_blob l d = true) →
  write_list l list_ mt available = (Ok root, l') → complete_list l0 l' root ∧ index_json l' = index_json l.
Proof.
  intros Hne Hav. unfold write_list.
  destruct (ociindex_json (mkOciIndex (x_SchemaVersion list_) mt available (x_Annotations list_))) as (b & -> & Hu).
  destruct writes; [|done..]. intros [= <- <-]. split; [|done].
  exists b, (mkOciIndex (x_SchemaVersion list_) mt available (x_Annotations list_)). simpl.
  rewrite lookup_insert_eq. split_and!; [done..|]. intros d Hd. destruct (Hav d Hd) as [? Hb].
  split; [done|]. unfold has_blob in *. apply bool_decide_eq_true in Hb as [x Hx]. apply bool_decide_eq_true. simpl.
  destruct (decide (digest_FromBytes b = d_Digest d)) as [->|Hn]; [rewrite lookup_insert_eq|rewrite lookup_insert_ne by done]; by eexists.
Qed.

(** Whatever shape the index of a layout has, the root that [LoadImage] returns is an
    entry of the layout for one image, or a list of entries of the layout whose blobs are
    all present: entries whose blobs are missing are left out.  Only an index with a single
    image is taken without looking for the blob. *)
Theorem LoadImage_root_available `{!DocJSONLaws} l root l' :
  LoadImage l = (Ok root, l') →
  (listed l root ∧ (IsIndexType (d_MediaType root) = false ∨ IsManifestType (d_MediaType root) = true ∧ has_blob l root = true) ∧ l' = l) ∨
  complete_list l l' root ∧ index_json l' = index_json l.
Proof.
  unfold LoadImage. destruct (index_json l) as [data|] eqn:Ei; [|done]. unfold resolveLayoutRoot.
  destruct (ociindex_Unmarshal data) as [top| |] eqn:Et; [|done..].
  destruct (x_Manifests top) as [|m ms] eqn:Em; [done|].
  assert (listed l m) as Hm by (eapply listed_top; [done..|]; rewrite Em; left).
  destruct ((match ms with [] => true | _ => false end) && negb (IsIndexType (d_MediaType m))) eqn:Eone.
  { intros [= <- <-]. left. apply andb_true_iff in Eone as [_ ?%negb_true_iff]. auto. }
  destruct (read_list l data top) as [[lb mt]| |] eqn:Er; [|done..].
  destruct (ociindex_Unmarshal lb) as [list_| |] eqn:El; [|done..].
  assert (∀ d, d ∈ x_Manifests list_ → listed l d) as Hlisted.
  { intros d Hd. unfold read_list in Er. rewrite Em in Er. destruct ms as [|m' ms].
    - destruct (blobs l !! d_Digest m) as [b|] eqn:Eb; [|done]. injection Er as -> _. by eapply listed_nested.
    - injection Er as -> _. assert (list_ = top) as -> by congruence. by eapply listed_top. }
  set (available := List.filter (has_blob l) (x_Manifests list_)).
  assert (∀ d, d ∈ available → listed l d ∧ has_blob l d = true) as Hav.
  { intros d Hd%list_elem_of_In%filter_In. rewrite <-list_elem_of_In in Hd. naive_solver. }
  destruct available as [|a rest] eqn:Ea; [done|]. destruct (Hav a) as [Hla Hba]; [left|].
  destruct ((match rest with [] => true | _ => false end) && IsManifestType (d_MediaType a)) eqn:E1.
  { intros [= <- <-]. left. apply andb_true_iff in E1 as [_ ?]. auto. }
  destruct ((match ms with [] => true | _ => false end) && (zlen (a :: rest) =? zlen (x_Manifests list_))) eqn:E2.
  - intros [= <- <-]. right. split; [|done]. apply andb_true_iff in E2 as [E2 Hz%Z.eqb_eq].
    destruct ms; [|done]. unfold read_list in Er. rewrite Em in Er.
    destruct (blobs l !! d_Digest m) as [b|] eqn:Eb; [|done]. injection Er as -> _.
    assert (x_Manifests list_ = a :: rest) as Heq.
    { rewrite <-Ea. symmetry. apply (zlen_filter_all (has_blob l)). fold available. by rewrite Ea. }
    exists lb, list_. rewrite Heq. by split_and!.
  - intros Hw. right. rewrite <-Ei. eapply (write_list_spec l l list_ _ (a :: rest)); [done|exact Hav|exact Hw].
Qed.

(** What was saved to a directory is loaded with the descriptor as its root, when it is a
    list whose entries are all there. *)
Lemma SaveImageToDir_loads `{!DocJSONLaws} src desc l data list_ :
  IsIndexType (d_MediaType desc) = true → SaveImageToDir src desc = Ok l →
  blobs src !! d_Digest desc = Some data → ociindex_Unmarshal data = Ok list_ →
  x_Manifests list_ ≠ [] → (∀ d, d ∈ x_Manifests list_ → has_blob src d = true) →
  (∀ m, x_Manifests list_ = [m] → IsManifestType (d_MediaType m) = false) →
  LoadImage l = (Ok desc, l).
Proof.
  intros Hi Hs Hb Hu Hne Hall Hone. unfold SaveImageToDir in Hs.
  destruct (ociindex_json (mkOciIndex 2 MediaTypeImageIndex [desc] ∅)) as (b & Hm & Hub).
  rewrite Hm in Hs. simpl in Hs. destruct writes as [[]| |]; [|done..]. injection Hs as <-.
  unfold LoadImage, resolveLayoutRoot, read_list. simpl. rewrite Hub. simpl. rewrite Hi, Hb. simpl. rewrite Hu.
  assert (List.filter (has_blob (mkLayout (Some b) (blobs src))) (x_Manifests list_) = x_Manifests list_) as ->.
  { apply forallb_filter_id, forallb_forall. intros d Hd%list_elem_of_In. by apply Hall. }
  destruct (x_Manifests list_) as [|a rest] eqn:Ex; [done|].
  destruct rest; cbn [andb]; [rewrite (Hone _ eq_refl)|]; by rewrite Z.eqb_refl.
Qed.
End layout.
