(* ===== verification/EndToEnd.v ===== *)
(** * From the image builder to the container

    The builder ([ZtocBuilder]), the serialisation ([ZtocMarshal]) and the span manager
    ([SpanManager]) put together for an uncompressed layer: the ztoc is built from the
    layer, stored, loaded again on another machine, and the layer is served lazily with it. *)
From Stdlib Require Import ZArith Lia.
From stdpp Require Import base list gmap strings numbers.
From S2P Require Import Prelude GoLib Compression GzipZinfo Ztoc ZtocBuilder ZtocMarshal BlobCache SpanManager LostCommit.
#[local] Open Scope Z_scope.

(** The tar zinfo keeps its laws when the algorithm is chosen at run time. *)
Lemma any_tar_laws `{GzipC, TarZinfoFlatbuf} zi comp uncomp n su sc ec :
  ZinfoLaws zi comp uncomp n su sc ec → ZinfoLaws (ZTar zi) comp uncomp n su sc ec.
Proof. intros []. by split. Qed.
Lemma any_gzip_laws `{GzipC, TarZinfoFlatbuf} zi comp uncomp n su sc ec :
  ZinfoLaws zi comp uncomp n su sc ec → ZinfoLaws (ZGzip zi) comp uncomp n su sc ec.
Proof. intros []. by split. Qed.

Lemma tar_ok_headers {Time} o (s : tar_stream Time) h pos :
  0 ≤ o → tar_ok o s → (h, pos) ∈ headers s → 0 ≤ pos ∧ 0 ≤ h_Size h.
Proof.
  intros Ho Hs. induction Hs as [|o h' pos' rest Hpos _ Hsz Hfit _ _ IH]; [by intros ?%not_elem_of_nil|].
  pose proof (AlignToTarBlock_spec (pos' + h_Size h')) as Ha.
  unfold TarBlockSize in *. intros [Heq|Hin]%elem_of_cons; [injection Heq as -> ->; lia|].
  apply IH; [|done]. lia.
Qed.

Section pipeline.
Context {C W R Time : Type} `{HB : BlobCache C W} `{HR : ReaderAt R} `{HC : !BlobCacheLaws C W} `{HLog : !CommitLog C W}.
Context `{HD : Digester} `{HG : GzipC} `{HF : TarZinfoFlatbuf} `{HT : GoTime Time}.
Context `{HZ : FlatbufZtoc} `{HS : GoSort} `{HSL : !GoSortLaws}.

(** What the two flatbuffer codecs and the digest package document. *)
Context (Htz : ∀ v ss sz, in_int32 v → in_int64 ss → in_int64 sz →
  tzfb_read (tzfb_build v ss sz) = Some (v, ss, sz)).
Context (Hfb : ∀ fz fb, fb_finish fz = Some fb → fb_root fb = Some fz).
Context (Hparse : ∀ b, digest_Parse (digest_FromBytes b) = digest_FromBytes b).

(** The layer file, its archive, and the spans it is cut into. *)
Context (fs : files) (filename : string) (data : bytes) (span : Z) (s : tar_stream Time).
Context (gz tar : TarProvider Time) (tool : string).
Let zi := TarZinfo.mk zinfoVersion span (zlen data).
Let n := (zlen data - 1) / span.
Let su k := span * k.
Context (Hname : filename ≠ ""%string) (Hfs : fs !! filename = Some data).
Context (Hspan : in_int64 span) (Hd : TarZinfo.describes zi data).
Context (Htar : tar data = Ok s) (Hok : tar_ok 0 s).
Context (Hends : ∀ md total, metadataFromTarReader s 0 = Ok (md, total) → total = zlen data).
Context (Hentries : ∀ md total, metadataFromTarReader s 0 = Ok (md, total) → Forall entry_ok md).

Lemma built_ztoc : ∃ zt, BuildZtoc (NewBuilder gz tar tool) fs filename span
    [WithCompression Uncompressed] = Ok zt ∧ storable zt ∧
  Ztoc_Zinfo zt = Ok (ZTar zi) ∧
  ztoc_describes (comp:=data) (uncomp:=data) (n:=n) (sc:=su) (ec:=span_end su n (zlen data)) zt ∧
  ∃ total, metadataFromTarReader s 0 = Ok (TOC zt, total).
Proof.
  destruct (BuildZtoc_tar gz tar tool fs filename data span s Htz Hspan Hname Hfs Hd Htar Hok)
    as (zt & toc & total & Hb & Hmd & Hlay & Htoc & Hcs & Hus & Hzi & Hmax & Hdig & Halgo).
  pose proof (TarZinfo.n_bounds zi data Hd) as (Hn & _).
  exists zt. split_and!; [done| |done| |].
  - split.
    + by rewrite Htoc.
    + rewrite Htoc. by eapply Hentries.
    + rewrite Hdig. apply list.Forall_forall. intros d [i [-> _]]%list_elem_of_fmap. apply Hparse.
    + rewrite Hmax. change (TarZinfo.spanSize zi) with span in Hn. unfold in_int32. lia.
    + rewrite Halgo. set_solver.
  - split; [done|done|done|]. rewrite Hus. by eapply Hends.
  - exists total. by rewrite Htoc.
Qed.

(** C1: lazy loading is transparent.  An uncompressed layer is turned into a ztoc, the ztoc
    is stored and loaded again, and a span manager is created from it over a reader of the
    layer that may answer anything and a cache any of whose calls may fail.  After any
    sequence of fetches, resolves and reads inside the layer, the contents of every file of
    the archive that ends before the end of the layer are served exactly as they are in the
    layer, or not at all, and nothing panics -- unless a [Commit] of the cache has failed, an
    error which the code drops.  The archive is well formed, its entries fit the ztoc, and no
    other content has the digest of a span. *)
Theorem lazy_layer_transparent :
  collision_free (n:=n) (comp:=data) (sc:=su) (ec:=span_end su n (zlen data)) →
  ∃ zt, BuildZtoc (NewBuilder gz tar tool) fs filename span
      [WithCompression Uncompressed] = Ok zt ∧
  Forall2 entry_of (TOC zt) (headers s) ∧
  match Marshal zt with
  | Ok (fb, _) => ∃ zt', Unmarshal (Ok fb) = Ok zt' ∧ TOC zt' = TOC zt ∧
      ∀ (r : SectionReader R) (c : C) retries m ops order h pos,
        cache_ok c → retries < 2 ^ 63 - 1 → New zt' r c retries = Ok m →
        Forall (sm_op_ok (uncomp:=data)) ops → (∀ k, order k ≡ₚ seq 0 k) →
        (h, pos) ∈ headers s → pos + h_Size h < zlen data →
        match GetContents order pos (pos + h_Size h) (run_sm_ops ops m) with
        | (Ok bs, m') => bs = sub pos (pos + h_Size h) data ∨ lost (sm_cache m')
        | (Err _, _) => True
        | (Panic, m') => lost (sm_cache m')
        end
  | Err e => e = ErrorString "cannot marshal Ztoc to flatbuffers"
  | Panic => False
  end.
Proof.
  intros Hcf. destruct built_ztoc as (zt & Hb & Hst & Hzi & Hdesc & total & Hmd).
  exists zt. split_and!; [done| |].
  { destruct (metadata_layout s 0 ltac:(lia) Hok) as (md & total' & Hmd' & _ & _ & Hall). congruence. }
  pose proof (Marshal_Unmarshal zt Hfb Hst) as Hm.
  destruct (Marshal zt) as [[fb desc]|e|]; [|done|done]. destruct Hm as [Hu _].
  exists zt. split_and!; [done|done|].
  intros r c retries m ops order h pos Hc Hr HN Hops Ho Hh Hin.
  destruct (tar_ok_headers 0 s h pos ltac:(lia) Hok Hh) as [Hpos Hsz].
  unfold New in HN. rewrite Hzi in HN. cbn [mbind outcome_bind] in HN.
  pose proof (any_tar_laws _ _ _ _ _ _ _ (TarZinfo.laws zi data Hd)) as HL.
  pose proof (New_with_spec (HL:=HL) zt r c retries m Hdesc Hc Hr HN) as Hinv.
  assert (fits (comp:=data) (uncomp:=data)) as Hf by (split; apply (TarZinfo.d_fits _ _ Hd)).
  apply (served_or_lost Hcf Hf ops order); [done..|lia|done].
Qed.
End pipeline.
