(* ===== verification/Examples.v ===== *)
(** * Concrete instances

    The parameters of the models instantiated by concrete functions, and a small layer:
    a digest, codecs for the two flatbuffers, a clock, Go's [sort] and map iteration, an
    honest layer reader, a cache whose commits fail, a registry.  The witnesses of the
    theorems are stated over these. *)
From Stdlib Require Import ZArith Lia Sorted Strings.Byte.
From stdpp Require Import base list gmap strings numbers countable sorting pretty.
From S2P Require Import Prelude GoLib Compression GzipZinfo Ztoc ZtocBuilder ZtocMarshal Regions Remote.
From S2P Require Import LruCache NamedMutex BlobCache SpanManager Encoders MetadataDB MetadataTree.
From S2P Require Import FileReader BackgroundFetcher IDMap.
#[local] Open Scope Z_scope.

(** ** Digests *)
#[global] Instance identity_digest : Digester :=
  {| digest_FromBytes := of_bytes; digest_Parse s := s |}.

Lemma of_bytes_inj : Inj (=) (=) of_bytes.
Proof.
  intros b b' H. rewrite <-(String.list_byte_of_string_of_list_byte b).
  rewrite <-(String.list_byte_of_string_of_list_byte b'). unfold of_bytes in H. by rewrite H.
Qed.

(** ** The tar zinfo flatbuffer: three little endian words *)
#[global] Instance words_flatbuf : TarZinfoFlatbuf := {|
  tzfb_build v ss sz := le_enc 8 v ++ le_enc 8 ss ++ le_enc 8 sz;
  tzfb_read b :=
    if (length b =? 24)%nat
    then Some (int64 (le_dec (take 8 b)), int64 (le_dec (take 8 (drop 8 b))),
               int64 (le_dec (drop 16 b)))
    else None |}.

Lemma int64_word x : in_int64 x → int64 (le_dec (le_enc 8 x)) = x.
Proof.
  intros Hx. rewrite le_dec_enc. change (256 ^ Z.of_nat 8) with (2 ^ 64).
  unfold int64, wrap_s. change (64 - 1) with 63. unfold in_int64 in Hx.
  rewrite Zplus_mod_idemp_l. rewrite Z.mod_small; lia.
Qed.

Lemma words_flatbuf_law v ss sz : in_int32 v → in_int64 ss → in_int64 sz →
  tzfb_read (tzfb_build v ss sz) = Some (v, ss, sz).
Proof.
  intros Hv Hss Hsz. cbn [tzfb_read tzfb_build words_flatbuf].
  rewrite !length_app, !length_le_enc. cbn [Nat.eqb Nat.add].
  rewrite (take_app_length' _ _ 8) by (by rewrite length_le_enc).
  rewrite (drop_app_length' _ _ 8) by (by rewrite length_le_enc).
  rewrite (take_app_length' _ _ 8) by (by rewrite length_le_enc).
  rewrite <-(drop_drop _ 8 8).
  rewrite !(drop_app_length' _ _ 8) by (by rewrite length_le_enc).
  rewrite !int64_word; [done|done|done|]. unfold in_int32, in_int64 in *. lia.
Qed.

(** ** Time: seconds *)
#[global] Instance seconds : GoTime Z := {|
  time_zero := 0; time_IsZero t := t =? 0; time_Equal := Z.eqb;
  time_MarshalText t := Some (of_bytes (le_enc 8 t));
  time_UnmarshalText s := Some (int64 (le_dec (to_bytes s)));
  time_GobEncode t := if decide (in_int64 t) then Some (le_enc 8 t) else None;
  time_GobDecode b := Some (int64 (le_dec b)) |}.

(** ** Sorting: insertion sort *)
Fixpoint insert_by {A} (less : A → A → bool) (x : A) (l : list A) : list A :=
  match l with
  | [] => [x]
  | y :: l' => if less y x then y :: insert_by less x l' else x :: l
  end.
Definition isort {A} (less : A → A → bool) (l : list A) : list A := foldr (insert_by less) [] l.

#[global] Instance insertion_sort : GoSort :=
  {| sort_Slice := @isort; sort_Strings := isort String.ltb |}.

Lemma insert_by_perm {A} (less : A → A → bool) x l : insert_by less x l ≡ₚ x :: l.
Proof.
  induction l as [|y l IH]; [done|]. simpl. destruct (less y x); [|done].
  rewrite IH. apply Permutation_swap.
Qed.
Lemma isort_perm {A} (less : A → A → bool) l : isort less l ≡ₚ l.
Proof. induction l as [|x l IH]; [done|]. simpl. by rewrite insert_by_perm, IH. Qed.

Lemma insert_by_sorted {A} (less : A → A → bool) x l : StrictWeak less →
  StronglySorted (λ a b, less b a = false) l →
  StronglySorted (λ a b, less b a = false) (insert_by less x l).
Proof.
  intros Hw. induction 1 as [|y l Hl IH Hy]; simpl; [by repeat constructor|].
  destruct (less y x) eqn:E.
  - constructor; [done|]. apply list.Forall_forall. intros z Hz.
    rewrite insert_by_perm in Hz. apply elem_of_cons in Hz as [->|Hz]; [by apply less_asym|].
    rewrite list.Forall_forall in Hy. by apply Hy.
  - constructor; [by constructor|]. constructor; [done|].
    eapply list.Forall_impl; [exact Hy|]. simpl. intros z Hz. by eapply less_incomparable.
Qed.
#[global] Instance insertion_sort_laws : GoSortLaws.
Proof.
  split; [intros; apply isort_perm| |intros; apply isort_perm].
  intros A less l Hw. induction l as [|x l IH]; [constructor|]. by apply insert_by_sorted.
Qed.

#[global] Instance ascending_range : MapRange :=
  {| map_range A m := map_to_list m; map_range_perm A m := reflexivity _ |}.

(** ** The ztoc flatbuffer: an injective code, one byte per bit *)
#[global] Instance byte_countable : Countable Byte.byte :=
  inj_countable Byte.to_N Byte.of_N Byte.of_to_N.
#[global] Instance fb_Xattr_eq_dec : EqDecision fb_Xattr.
Proof. solve_decision. Defined.
#[global] Instance fb_Xattr_countable : Countable fb_Xattr :=
  inj_countable' (λ x, (fx_key x, fx_value x)) (λ p, mkFbXattr p.1 p.2) (λ '(mkFbXattr _ _), eq_refl).
#[global] Instance fb_FileMetadata_eq_dec : EqDecision fb_FileMetadata.
Proof. solve_decision. Defined.
#[global] Instance fb_FileMetadata_countable : Countable fb_FileMetadata.
Proof.
  refine (inj_countable'
    (λ f, ((ff_name f, ff_type f, ff_uncompressed_offset f, ff_uncompressed_size f, ff_linkname f),
           (ff_mode f, ff_uid f, ff_gid f, ff_uname f, ff_gname f),
           (ff_mod_time f, ff_devmajor f, ff_devminor f, ff_xattrs f)))
    (λ p, let '((a, b, c, d, e), (f, g, h, i, j), (k, l, m, n)) := p in
          mkFbFileMetadata a b c d e f g h i j k l m n) _). by intros [].
Defined.
#[global] Instance fb_CompressionInfo_eq_dec : EqDecision fb_CompressionInfo.
Proof. solve_decision. Defined.
#[global] Instance fb_CompressionInfo_countable : Countable fb_CompressionInfo.
Proof.
  refine (inj_countable'
    (λ c, (fc_compression_algorithm c, fc_max_span_id c, fc_span_digests c, fc_checkpoints c))
    (λ p, let '(a, b, c, d) := p in mkFbCompressionInfo a b c d) _). by intros [].
Defined.
#[global] Instance fb_Ztoc_eq_dec : EqDecision fb_Ztoc.
Proof. solve_decision. Defined.
#[global] Instance fb_Ztoc_countable : Countable fb_Ztoc.
Proof.
  refine (inj_countable'
    (λ z, ((fz_version z, fz_build_tool_identifier z, fz_compressed_archive_size z),
           (fz_uncompressed_archive_size z, fz_toc z, fz_compression_info z)))
    (λ p, let '((a, b, c), (d, e, f)) := p in mkFbZtoc a b c d e f) _). by intros [].
Defined.

Fixpoint bits_of (p : BinNums.positive) : bytes :=
  match p with xH => [] | xO p => x00 :: bits_of p | xI p => x01 :: bits_of p end.
Fixpoint of_bits (b : bytes) : BinNums.positive :=
  match b with [] => xH | x00 :: b => xO (of_bits b) | _ :: b => xI (of_bits b) end.
Lemma of_bits_of p : of_bits (bits_of p) = p.
Proof. induction p as [p IH|p IH|]; simpl; by rewrite ?IH. Qed.

#[global] Instance coded_flatbuf : FlatbufZtoc :=
  {| fb_finish fz := Some (bits_of (encode fz)); fb_root b := decode (of_bits b) |}.
Lemma coded_flatbuf_law fz fb : fb_finish fz = Some fb → fb_root fb = Some fz.
Proof. simpl. intros [= <-]. by rewrite of_bits_of, decode_encode. Qed.

(** ** gzip: nothing can be extracted *)
#[global] Instance no_gzip : GzipC := {|
  generate_zinfo_from_file _ _ := (-1, mkZinfo ZINFO_VERSION_CUR 0 0 [] 0);
  extract_data_from_buffer _ _ _ _ _ := (-1, []);
  extract_data_from_file _ _ _ _ := (-1, []);
  gzip_header_ok _ := None |}.

(** ** A layer: one file of 100 bytes, in two spans of 1024 bytes *)
Definition ex_header : tar_Header Z :=
  mkHeader TypeReg "hello" "" 100 420 1000 1000 "user" "group" 7 0 0 {["SCHILY.xattr.user.k" := "v"]}.
Definition ex_data : bytes := replicate 512 x01 ++ replicate 512 x02 ++ replicate 1024 x00.
Definition ex_tar : TarProvider Z := λ _, Ok (tar_next ex_header 512 (tar_end 2048)).
Definition ex_files : files := {["layer.tar" := ex_data]}.
Definition ex_zinfo : TarZinfo.t := TarZinfo.mk zinfoVersion 1024 2048.

#[global] Instance ex_tar_parser : TarParser Z := {| tar_Next _ := Ok (ex_header, 512) |}.

Lemma ex_describes : TarZinfo.describes ex_zinfo ex_data.
Proof. by split. Qed.

Abbreviation ex_su := (λ k : Z, 1024 * k).
Abbreviation ex_ec := (span_end ex_su 1 2048).

#[global] Instance ex_laws : ZinfoLaws ex_zinfo ex_data ex_data 1 ex_su ex_su ex_ec.
Proof. exact (TarZinfo.laws ex_zinfo ex_data ex_describes). Qed.

Lemma ex_tar_ok : tar_ok 0 (tar_next ex_header 512 (tar_end 2048)).
Proof. constructor; try done; [by exists "reg"|]. by constructor. Qed.

Lemma ex_collision_free : collision_free (n:=1) (comp:=ex_data) (sc:=ex_su) (ec:=ex_ec).
Proof. intros i x _ _ H. by apply of_bytes_inj. Qed.
Lemma ex_fits : fits (comp:=ex_data) (uncomp:=ex_data).
Proof. by split. Qed.
Lemma memory_commits_succeed : commits_succeed (C:=MemoryCache.t) (W:=MemoryCache.writer).
Proof. by intros w c k b _ _. Qed.

Definition ex_entry : FileMetadata Z :=
  mkFileMetadata "hello" "reg" 512 100 0 "" 420 1000 1000 "user" "group" 7 0 0
    {["SCHILY.xattr.user.k" := "v"]}.
Definition ex_ztoc : Ztoc Z :=
  mkZtoc [ex_entry]
    (mkCompressionInfo 1 (tar_digests ex_data 1024) (tzfb_build zinfoVersion 1024 2048) Uncompressed)
    Version09 "tool" 2048 2048.

(** ** Readers of the layer *)

(** A file that holds the layer. *)
#[global] Instance layer_reader : ReaderAt unit :=
  {| SpanManager.ReadAt n off _ := (file_ReadAt ex_data n off, tt) |}.

#[global, refine] Instance layer_honest : HonestReader unit ex_data := {| honest _ := True |}.
Proof.
  intros [] k off _ Ho Hk He. unfold SpanManager.ReadAt, layer_reader, file_ReadAt. simpl.
  destruct (Z.ltb_spec off 0); [lia|]. simpl. split_and!; [done| |done].
  destruct (_ <? _); set_solver.
Defined.

Definition ex_reader : SectionReader unit := mkSR tt 0 2048.
Definition ex_sm_zero : SpanManager TarZinfo.t MemoryCache.t unit Z :=
  mkSM MemoryCache.NewMemoryCache ex_zinfo ex_reader [] ex_ztoc 0 false.
Definition ex_sm : SpanManager TarZinfo.t MemoryCache.t unit Z :=
  match New_with ex_zinfo ex_ztoc ex_reader MemoryCache.NewMemoryCache 3 with
  | Ok m => m
  | _ => ex_sm_zero
  end.

Lemma ex_New : New_with ex_zinfo ex_ztoc ex_reader MemoryCache.NewMemoryCache 3 = Ok ex_sm.
Proof. vm_compute. reflexivity. Qed.

Lemma ex_ztoc_describes :
  ztoc_describes (comp:=ex_data) (uncomp:=ex_data) (n:=1) (sc:=ex_su) (ec:=ex_ec) ex_ztoc.
Proof. split; done. Qed.

Lemma memory_empty_ok : cache_ok MemoryCache.NewMemoryCache.
Proof. apply map_Forall_empty. Qed.

Lemma ex_inv :
  sm_inv (zi:=ex_zinfo) (comp:=ex_data) (uncomp:=ex_data) (n:=1) (su:=ex_su) (sc:=ex_su)
    (ec:=ex_ec) None ex_sm.
Proof.
  exact (New_with_spec ex_ztoc ex_reader MemoryCache.NewMemoryCache 3 ex_sm ex_ztoc_describes
    memory_empty_ok eq_refl ex_New).
Qed.

Lemma ex_good : good (comp:=ex_data) ex_sm.
Proof. by split. Qed.

(** A reader whose first answers for span 0 are corrupted. *)
Definition ex_answers (k : nat) : bytes :=
  if (k <=? 1)%nat then replicate 1024 x07 else sub 0 1024 ex_data.
Definition ex_scripted : SpanManager TarZinfo.t MemoryCache.t nat Z :=
  mkSM (sm_cache ex_sm) ex_zinfo (mkSR 0%nat 0 2048) (spans ex_sm) (sm_ztoc ex_sm) 3 false.

Lemma ex_scripted_inv :
  sm_inv (zi:=ex_zinfo) (comp:=ex_data) (uncomp:=ex_data) (n:=1) (su:=ex_su) (sc:=ex_su)
    (ec:=ex_ec) None ex_scripted.
Proof. destruct ex_inv. by split. Qed.

(** ** A cache that never commits *)
Definition refusing : BlobCache MemoryCache.t MemoryCache.writer := {|
  cache_Add := MemoryCache.Add; cache_Get := MemoryCache.Get; cache_Close := MemoryCache.Close;
  writer_Write := MemoryCache.Write;
  writer_Commit _ := st_err (Sentinel "no space left on device");
  writer_Abort := MemoryCache.Abort; writer_Close := MemoryCache.CloseWriter |}.

#[refine] Definition refusing_laws : BlobCacheLaws (H:=refusing) MemoryCache.t MemoryCache.writer :=
  {| BlobCache.view := MemoryCache.view; BlobCache.pending := MemoryCache.pending;
     cache_ok := MemoryCache.ok; healthy _ := False |}.
Proof.
  - intros k c Hok. pose proof (add_law (BlobCacheLaws:=MemoryCache.laws) k c Hok) as H.
    simpl in *. destruct H as (? & ? & ? & _). by split_and!.
  - intros w p k b c Hok Hp. pose proof (write_law (BlobCacheLaws:=MemoryCache.laws) w p k b c Hok Hp) as H.
    simpl in *. destruct H as (? & ? & ? & _). by split_and!.
  - intros w k b c Hok Hp. simpl. by split_and!; [| |tauto].
  - intros w c Hok. by split_and!.
  - intros w c Hok. by split_and!.
  - intros k c Hok. pose proof (get_law (BlobCacheLaws:=MemoryCache.laws) k c Hok) as H.
    simpl in *. destruct (MemoryCache.Membuf c !! k); destruct H as (? & ? & H);
      [destruct H as [? _]|]; split_and!; done || tauto.
Defined.

Lemma refusing_commits_fail :
  commits_fail (HB:=refusing) (HC:=refusing_laws).
Proof. intros w c k b _ _. by eexists. Qed.

(** ** A zinfo whose compressed bytes differ: one span, every byte complemented *)
Definition complement (b : bytes) : bytes := (λ x, byte_of_Z (255 - byte_to_Z x)) <$> b.
Definition flip_comp : bytes := [x01; x02; x03; x04].
Definition flip_uncomp : bytes := complement flip_comp.

#[global] Instance flip_zinfo : Zinfo unit := {|
  ExtractDataFromBuffer _ buf size off _ := Ok (sub off (off + size) (complement buf));
  ExtractDataFromFile _ fs f size off := Err io_EOF;
  Bytes _ := Ok []; MaxSpanID _ := Ok 0; SpanSize _ := Ok 4;
  UncompressedOffsetToSpanID _ _ := Ok 0;
  StartCompressedOffset _ _ := Ok 0; EndCompressedOffset _ _ size := Ok size;
  StartUncompressedOffset _ _ := Ok 0; EndUncompressedOffset _ _ size := Ok size;
  VerifyHeader _ _ := Ok tt |}.

#[global] Instance flip_laws :
  ZinfoLaws tt flip_comp flip_uncomp 0 (λ _, 0) (λ _, 0) (λ _, 4).
Proof.
  split; simpl; try done; try lia.
  - intros i Hi. unfold span_end. destruct (Z.eqb_spec i 0); [done|lia].
  - intros off Hoff. exists 0. split_and!; done || lia.
  - intros i j a b Hi Hj Ha Hb. change (sub 0 4 flip_comp) with flip_comp.
    do 2 f_equal. lia.
Qed.

Definition flip_ztoc : Ztoc Z :=
  mkZtoc [] (mkCompressionInfo 0 [of_bytes flip_comp] [] "") Version09 "" 4 4.

(** The background fetcher has fetched the span. *)
Definition flip_sm : SpanManager unit MemoryCache.t unit Z :=
  mkSM (MemoryCache.mk {["0" := 0%nat]} [flip_comp]) tt (mkSR tt 0 4)
    [mkSpan 0 0 4 0 4 fetched] flip_ztoc 0 false.

Lemma flip_inv :
  sm_inv (HB:=refusing) (HC:=refusing_laws) (zi:=tt) (comp:=flip_comp) (uncomp:=flip_uncomp)
    (n:=0) (su:=λ _, 0) (sc:=λ _, 0) (ec:=λ _, 4) None flip_sm.
Proof.
  split; try done.
  - intros i Hi. replace i with 0 by lia. done.
  - intros i Hi. replace i with 0 by lia. eexists. split; [reflexivity|]. by split_and!.
  - intros k b Hb. simpl in Hb. apply lookup_singleton_Some in Hb as [_ <-]. simpl. lia.
Qed.

(** ** The file of the layer, opened through the metadata store *)
Definition ex_meta : MetadataTree.reader :=
  match MetadataTree.NewReader [ex_entry] 0 with
  | Ok r => r
  | _ => MetadataTree.mkReader ∅ ∅ 0
  end.
Definition ex_file : file :=
  match MetadataTree.OpenFile ex_meta 2 with
  | Ok e => mkFile 2 e false
  | _ => mkFile 0 emptyME false
  end.
Definition ex_state : FileReader.state (T:=TarZinfo.t) (C:=MemoryCache.t) (R:=unit) (Time:=Z) :=
  (FileReader.NewReader ex_meta ex_sm false, ex_file).

Lemma ex_fr : fr ex_file = mkME ∅ 512 100 "hello" 0 512.
Proof. vm_compute. reflexivity. Qed.
Lemma ex_in_layer : in_layer (uncomp:=ex_data) (fr ex_file).
Proof. rewrite ex_fr. by split. Qed.
Lemma ex_checked :
  (attr ← GetAttr (Time:=Z) ex_meta (f_id ex_file);
   header_check attr (fr ex_file) (sub 0 512 ex_data)) = Ok tt.
Proof. vm_compute. reflexivity. Qed.
Lemma ex_header_ok : header_ok (uncomp:=ex_data) ex_meta ex_file.
Proof.
  pose proof ex_checked as Hc. split; [by rewrite ex_fr|].
  destruct (GetAttr (Time:=Z) ex_meta (f_id ex_file)) as [attr|e|]; [|discriminate Hc..].
  exists attr. split; [reflexivity|]. apply header_check_iff. rewrite ex_fr in *. exact Hc.
Qed.
Lemma ex_state_ok :
  state_ok (zi:=ex_zinfo) (comp:=ex_data) (uncomp:=ex_data) (n:=1) (su:=ex_su) (sc:=ex_su)
    (ec:=ex_ec) ex_state.
Proof. split; [exact ex_inv|]. intros Hv. vm_compute in Hv. discriminate Hv. Qed.

(** ** A gzip zinfo with two checkpoints, in both format versions *)
Definition ex_checkpoint : gzip_checkpoint :=
  mkCheckpoint 4194304 1048576 3 (replicate (Z.to_nat WINSIZE) x00).
Definition ex_gzip (v : Z) : gzip_zinfo := mkZinfo v 2 2 [v1_checkpoint; ex_checkpoint] 4194304.
Lemma ex_gzip_wf v : v = ZINFO_VERSION_CUR ∨ v = ZINFO_VERSION_ONE → zinfo_wf (ex_gzip v).
Proof.
  intros Hv. split; try done; [|naive_solver].
  constructor; [|constructor; [|done]]; (split_and!; done).
Qed.

(** ** The stored ztoc *)
Lemma ex_storable : storable ex_ztoc.
Proof.
  split; simpl.
  - constructor; try done. constructor.
  - constructor; [|done]. split_and!; [by vm_compute..|]. eexists. split; reflexivity.
  - apply list.Forall_forall. done.
  - by vm_compute.
  - set_solver.
Qed.
Definition ex_stored : bytes := match Marshal ex_ztoc with Ok (fb, _) => fb | _ => [] end.
Lemma ex_Marshal : ∃ fb d, Marshal ex_ztoc = Ok (fb, d).
Proof.
  unfold Marshal, ztocToFlatbuffer.
  change (String.eqb (CompressionAlgorithm (CInfo ex_ztoc)) "") with false.
  change (compressionAlgorithmToFlatbuf (CompressionAlgorithm (CInfo ex_ztoc))) with (Ok 2).
  cbn [mbind outcome_bind fb_finish coded_flatbuf]. eauto.
Qed.
Lemma ex_stored_read : ZtocMarshal.Unmarshal (Ok ex_stored) = Ok ex_ztoc.
Proof.
  pose proof (Marshal_Unmarshal ex_ztoc coded_flatbuf_law ex_storable) as H.
  destruct ex_Marshal as (fb & d & E). unfold ex_stored. rewrite E in *. by destruct H.
Qed.

Lemma ex_tar_no_panic (b : bytes) : tar_Next b ≠ Panic.
Proof. done. Qed.
Lemma in_order (k : nat) : seq 0 k ≡ₚ seq 0 k.
Proof. done. Qed.

#[global] Instance seconds_gob : GobTime (Time:=Z).
Proof.
  split.
  - intros t te. cbn [time_GobEncode time_GobDecode seconds].
    destruct (decide (in_int64 t)) as [Ht|]; [|done]. intros H. apply (inj Some) in H as <-.
    by rewrite int64_word.
  - intros t H. simpl in H. by apply Z.eqb_eq in H.
Qed.

(** ** A registry that serves the layer *)

(** Answers every request for one region with that region. *)
#[global] Instance registry : Fetcher unit := {|
  fetch rs _ u := match rs with
                  | [reg] => (Ok [Ok (reg, sub (rb reg) (re reg + 1) ex_data)], u)
                  | _ => (Err ErrNoRegion, u)
                  end;
  check u := (Ok tt, u) |}.

(** Ignores the range and answers with the whole blob. *)
Definition whole_registry : Fetcher unit := {|
  fetch rs _ u := (Ok (newSinglePartReader (mkRegion 0 (zlen ex_data - 1)) ex_data), u);
  check u := (Ok tt, u) |}.

Definition ex_blob : blob unit := mkBlob tt 2048 0 60 [mkRegion 0 99] false.

Definition status_response (code : Z) : response := mkResponse code None ct_none None [] [] "" "".

(** ** Attributes and directory entries *)
Definition ex_attr : Attr Z :=
  mkAttr 100 7 "target" 420 1000 1000 0 0 {["user.a" := [x01]; "user.b" := [x02; x03]]} 1.
Lemma ex_attr_ok : attr_ok ex_attr.
Proof.
  split; try (by vm_compute); simpl.
  - intros k v [[<- <-]|[_ [<- <-]%lookup_singleton_Some]]%lookup_insert_Some; done.
Qed.
Lemma ex_attr_keys k : is_Some (a_Xattrs ex_attr !! k) → valid_key k.
Proof.
  simpl. intros [v [[<- <-]|[_ [<- <-]%lookup_singleton_Some]]%lookup_insert_Some]; by vm_compute.
Qed.

Definition ex_dir : metadataEntry :=
  mkME {["a" := mkChild "a" 2; "b" := mkChild "b" 3]} 1024 0 "dir/" 512 512.
Lemma ex_dir_children : children_ok (m_children ex_dir).
Proof. cbn [m_children ex_dir]. intros k v [[<- <-]|[_ [<- <-]%lookup_singleton_Some]]%lookup_insert_Some; by vm_compute. Qed.
Lemma ex_dir_keys : map_Forall (λ name _, valid_key name) (m_children ex_dir).
Proof. cbn [m_children ex_dir]. intros k v [[<- <-]|[_ [<- <-]%lookup_singleton_Some]]%lookup_insert_Some; by vm_compute. Qed.
