(* ===== verification/Witnesses.v ===== *)
(** * Witnesses

    Each theorem with hypotheses applied to the concrete layer, cache and registry of
    [Examples]. *)
From Stdlib Require Import ZArith Lia Sorted Strings.Byte.
From stdpp Require Import base list gmap strings numbers relations.
From S2P Require Import Prelude GoLib Compression GzipZinfo Ztoc ZtocBuilder ZtocMarshal Regions Remote.
From S2P Require Import LruCache NamedMutex BlobCache SpanManager LostCommit Encoders MetadataDB MetadataTree.
From S2P Require Import FileReader BackgroundFetcher IDMap EndToEnd Examples.
#[local] Open Scope Z_scope.

(** ** The span manager *)
(** A directory cache whose fifth system call fails, and that is watched. *)
Definition ex_watched : watched DirectoryCache.t :=
  mkWatched (DirectoryCache.mk (mkFS [] ∅ (λ t, if (t =? 4)%nat then Some ErrNotExist else None) 0) false) false.
Definition dir_sm : SpanManager TarZinfo.t (watched DirectoryCache.t) unit Z :=
  mkSM ex_watched (sm_zinfo ex_sm) (sm_r ex_sm) (spans ex_sm) (sm_ztoc ex_sm) 3 false.
Lemma ex_New_dir : New_with ex_zinfo ex_ztoc ex_reader ex_watched 3 = Ok dir_sm.
Proof. vm_compute. reflexivity. Qed.
Lemma ex_watched_ok : cache_ok ex_watched.
Proof. split; simpl; intros *; by rewrite lookup_empty. Qed.

Lemma served_bytes_exact_witness :
  match GetContents (seq 0) 500 1500 (run_sm_ops [OpFetch 0; OpResolve 1] dir_sm) with
  | (Ok bs, m') => bs = sub 500 1500 ex_data ∨ lost (sm_cache m')
  | (Err _, _) => True
  | (Panic, m') => lost (sm_cache m')
  end.
Proof.
  apply (served_bytes_exact (HL:=ex_laws) ex_ztoc ex_reader ex_watched 3 dir_sm
            [OpFetch 0; OpResolve 1] (seq 0) 500 1500);
    [exact ex_collision_free|exact ex_fits|exact ex_ztoc_describes
    |exact ex_watched_ok|done|exact ex_New_dir|by repeat constructor|done|lia|reflexivity].
Defined.


Lemma FetchSingleSpan_correct_witness :
  match FetchSingleSpan 1 ex_sm with
  | (Ok _, m') => sm_inv (zi:=ex_zinfo) (comp:=ex_data) (uncomp:=ex_data) (n:=1) (su:=ex_su)
        (sc:=ex_su) (ec:=ex_ec) None m' ∧
      ((span_state ex_sm 1 unrequested ∧ span_state m' 1 fetched ∧
        view (sm_cache m') !! key 1 = Some (sub 1024 2048 ex_data)) ∨
       (¬ span_state ex_sm 1 unrequested ∧ m' = ex_sm))
  | (Err _, m') => sm_inv (zi:=ex_zinfo) (comp:=ex_data) (uncomp:=ex_data) (n:=1) (su:=ex_su)
        (sc:=ex_su) (ec:=ex_ec) None m' ∧ ¬ good (comp:=ex_data) ex_sm
  | (Panic, _) => False
  end.
Proof.
  apply (FetchSingleSpan_correct (HL:=ex_laws) ex_collision_free memory_commits_succeed ex_fits 1 ex_sm);
    [lia|exact ex_inv].
Defined.

Lemma ResolveSpan_cases_witness :
  (span_state ex_sm 0 uncompressed → ResolveSpan 0 ex_sm = (Ok tt, ex_sm)) ∧
  (span_state ex_sm 0 fetched →
     ResolveSpan 0 ex_sm = (Err (Wrap "" errInvalidSpanStateTransition), ex_sm)) ∧
  (span_state ex_sm 0 unrequested → good (comp:=ex_data) ex_sm →
     ∃ m', ResolveSpan 0 ex_sm = (Ok tt, m') ∧
       sm_inv (zi:=ex_zinfo) (comp:=ex_data) (uncomp:=ex_data) (n:=1) (su:=ex_su)
         (sc:=ex_su) (ec:=ex_ec) None m' ∧ span_state m' 0 uncompressed).
Proof.
  apply (ResolveSpan_cases (HL:=ex_laws) ex_collision_free memory_commits_succeed ex_fits 0 ex_sm);
    [lia|exact ex_inv].
Defined.

Lemma New_validates_witness :
  MaxSpanID ex_zinfo = Ok (MaxSpanID_ (CInfo ex_ztoc)) ∧
  int32 (zlen (SpanDigests (CInfo ex_ztoc))) = int32 (MaxSpanID_ (CInfo ex_ztoc) + 1) ∧
  length (spans ex_sm) = Z.to_nat (MaxSpanID_ (CInfo ex_ztoc) + 1) ∧
  maxSpanVerificationFailureRetries ex_sm = (if 3 <? 0 then 3 else 3) ∧
  ∀ j s, spans ex_sm !! j = Some s → id s = Z.of_nat j ∧ SpanManager.state s = unrequested ∧
    (id s < MaxSpanID_ (CInfo ex_ztoc) →
     startCompOffset s < endCompOffset s ∧ startUncompOffset s < endUncompOffset s).
Proof. exact (New_validates ex_zinfo ex_ztoc ex_reader MemoryCache.NewMemoryCache 3 ex_sm ex_New). Defined.

Lemma fetch_retries_witness :
  fetchSpanWithRetries (HR:=scripted ex_answers) 0 ex_scripted =
    (Ok (sub 0 1024 ex_data), after_reads 3 ex_scripted).
Proof.
  pose proof (fetch_retries ex_answers (HL:=ex_laws) ex_fits None 0 ex_scripted) as H.
  specialize (H ltac:(lia) ltac:(done) ex_scripted_inv eq_refl).
  assert (∀ k, zlen (ex_answers k) = 1024 - 0) as Hlen
    by (intros k; unfold ex_answers; by destruct (k <=? 1)%nat).
  exact (H Hlen).
Defined.

Lemma lost_commit_serves_compressed_witness :
  ∃ m', getSpanContent (HB:=refusing) 0 0 4 flip_sm = (Ok flip_uncomp, m') ∧
    (getSpanContent (HB:=refusing) 0 0 4 m').1 = Ok flip_comp.
Proof.
  destruct (getSpanContent (HB:=refusing) 0 0 4 flip_sm) as [r m'] eqn:E. exists m'.
  assert (r = Ok flip_uncomp) as -> by (change r with (r, m').1; rewrite <-E; reflexivity).
  split; [done|].
  destruct (lost_commit_serves_compressed (HB:=refusing) (HC:=refusing_laws) (HL:=flip_laws) 0 0 4
    flip_uncomp flip_sm m') as (Hst & Hv & Hserved); try done.
  - exact refusing_commits_fail.
  - exact flip_inv.
  - eexists. split; reflexivity.
  - destruct (getSpanContent (HB:=refusing) 0 0 4 m') as [[r'|e|] m''] eqn:E'.
    + simpl. by rewrite (Hserved r' m'' eq_refl).
    + exfalso. assert (m' = (getSpanContent (HB:=refusing) 0 0 4 flip_sm).2) as Hm by (by rewrite E).
      subst m'. vm_compute in E'. discriminate E'.
    + exfalso. assert (m' = (getSpanContent (HB:=refusing) 0 0 4 flip_sm).2) as Hm by (by rewrite E).
      subst m'. vm_compute in E'. discriminate E'.
Defined.

Lemma sequential_resolver_completes_witness :
  ∃ lr, resolve_all 2 (NewSequentialResolver ex_sm) = Some lr ∧
    (∀ i, 0 ≤ i ≤ 1 →
       view (sm_cache (lr_sm lr)) !! key i = Some (comp_span (comp:=ex_data) (sc:=ex_su) (ec:=ex_ec) i) ∨
       view (sm_cache (lr_sm lr)) !! key i = Some (uncomp_span (uncomp:=ex_data) (n:=1) (su:=ex_su) i)) ∧
    (Resolve lr).1 = Ok (false, None).
Proof.
  exact (sequential_resolver_completes (HL:=ex_laws) ex_collision_free memory_commits_succeed ex_fits
    ex_sm ex_inv ex_good).
Defined.

(** ** Files *)
Lemma file_read_exact_witness :
  match ReadAt (seq 0) 64 80 ex_state with
  | (Ok bs, s') => lost (sm_cache (spanManager s'.1)) ∨ 80 < m_UncompressedSize (fr ex_file) ∧
      bs = file_bytes (uncomp:=ex_data) (fr ex_file) 64 80 ∧
      (false = false → header_ok (uncomp:=ex_data) ex_meta ex_file)
  | (Err _, _) => True
  | (Panic, s') => lost (sm_cache (spanManager s'.1))
  end.
Proof.
  apply (file_read_exact (HL:=ex_laws) (seq 0) 64 80 ex_state);
    [exact ex_collision_free|exact ex_fits|done|done|lia|lia
    |exact ex_in_layer|exact ex_state_ok].
Defined.

Lemma file_read_succeeds_witness :
  ∃ s', ReadAt (seq 0) 64 80 ex_state = (Ok (file_bytes (uncomp:=ex_data) (fr ex_file) 64 80), s').
Proof.
  apply (file_read_succeeds (HL:=ex_laws) ex_collision_free memory_commits_succeed ex_fits
    ex_tar_no_panic (seq 0) in_order 64 80 ex_state);
    [lia|vm_compute; split; [discriminate|reflexivity]|exact ex_in_layer|exact ex_state_ok|exact ex_good
    |exact ex_header_ok].
Defined.

Lemma verification_accepts_built_witness :
  attrMatchesTarHeader (attrFromZtocEntry (entry_of_header ex_header "reg" 512 0) 1) ex_header = true.
Proof. apply (verification_accepts_built ex_header "reg" 512 0 1); [apply Z.eqb_refl|vm_compute; split; [discriminate|reflexivity]|reflexivity]. Defined.

(** ** The ztoc *)
Lemma BuildZtoc_uncompressed_witness :
  ∃ zt toc total, BuildZtoc (NewBuilder ex_tar ex_tar "tool") ex_files "layer.tar" 1024
      [WithCompression Uncompressed] = Ok zt ∧
    metadataFromTarReader (tar_next ex_header 512 (tar_end 2048)) 0 = Ok (toc, total) ∧ toc_layout 0 toc ∧
    TOC zt = toc ∧ CompressedArchiveSize zt = zlen ex_data ∧
    UncompressedArchiveSize zt = total ∧
    Ztoc_Zinfo zt = Ok (ZTar (TarZinfo.mk zinfoVersion 1024 (zlen ex_data))) ∧
    MaxSpanID_ (CInfo zt) = (zlen ex_data - 1) / 1024 ∧
    SpanDigests (CInfo zt) = tar_digests ex_data 1024 ∧
    CompressionAlgorithm (CInfo zt) = Uncompressed.
Proof.
  apply (BuildZtoc_uncompressed ex_tar ex_tar "tool" ex_files "layer.tar" ex_data 1024);
    [exact words_flatbuf_law|done|done|apply lookup_singleton_eq|exact ex_describes|done|exact ex_tar_ok].
Defined.

Lemma metadataFromTarReader_layout_witness :
  ∃ md total, metadataFromTarReader (tar_next ex_header 512 (tar_end 2048)) 0 = Ok (md, total) ∧
    toc_layout 0 md ∧ 0 ≤ total ∧ Forall2 entry_of md [(ex_header, 512)].
Proof. apply (metadataFromTarReader_layout (tar_next ex_header 512 (tar_end 2048)) 0); [lia|exact ex_tar_ok]. Defined.

Lemma getPerSpanDigests_correct_witness :
  getPerSpanDigests ex_files "layer.tar" 2048 ex_zinfo
  = Ok (span_digest (comp:=ex_data) (sc:=ex_su) (ec:=ex_ec) <$> seqZ 0 2).
Proof. apply (getPerSpanDigests_correct (HL:=ex_laws) ex_files "layer.tar"); [apply lookup_singleton_eq|done]. Defined.

Lemma ztoc_roundtrip_witness :
  match Marshal ex_ztoc with
  | Ok (fb, desc) => ZtocMarshal.Unmarshal (Ok fb) = Ok ex_ztoc ∧ desc = (digest_FromBytes fb, zlen fb)
  | Err e => e = ErrorString "cannot marshal Ztoc to flatbuffers"
  | Panic => False
  end.
Proof. exact (ztoc_roundtrip ex_ztoc coded_flatbuf_law ex_storable). Defined.

Lemma Unmarshal_header_sizes_nonneg_witness :
  Forall (λ e, 0 ≤ UncompressedOffset e - TarHeaderOffset e) (TOC ex_ztoc).
Proof. exact (Unmarshal_header_sizes_nonneg ex_stored ex_ztoc ex_stored_read). Defined.

Lemma extract_with_correct_witness :
  extract_with ex_zinfo 2048 ex_data (mkMetadataEntry 100 512) = Ok (sub 512 612 ex_data).
Proof. apply (extract_with_correct (HL:=ex_laws) 512 100); [lia|lia|reflexivity|reflexivity]. Defined.

Lemma gzip_zinfo_roundtrip_witness :
  ∃ b, GzipZinfo.Bytes (ex_gzip ZINFO_VERSION_ONE) = Ok b ∧
    GzipZinfo.newGzipZinfo b = Ok (ex_gzip ZINFO_VERSION_ONE).
Proof. apply (gzip_zinfo_roundtrip (ex_gzip ZINFO_VERSION_ONE)). apply ex_gzip_wf. by right. Defined.

(** ** The remote blob *)
Lemma ReadAt_correct_witness :
  ∃ b', blob_ReadAt 7 (replicate 100 x00) 500 ex_blob = (Ok 100, sub 500 600 ex_data, b') ∧
    fetchedRegionSet b' = regionSet_add [mkRegion 0 99] (mkRegion 500 599) ∧
    lastCheck b' = 7 ∧ fetcher b' = tt ∧ closed b' = false.
Proof.
  apply (ReadAt_correct 7 (replicate 100 x00) 500 ex_blob tt ex_data); done || reflexivity.
Defined.

Lemma ReadAt_whole_blob_answer_witness :
  ∃ b', blob_ReadAt (H:=whole_registry) 7 (replicate 100 x00) 500 ex_blob = (Ok 100, sub 0 100 ex_data, b').
Proof.
  apply (ReadAt_whole_blob_answer (H:=whole_registry) 7 (replicate 100 x00) 500 ex_blob tt ex_data); done || reflexivity.
Defined.

Lemma ReadAt_regions_witness :
  let b' := (blob_ReadAt 7 (replicate 100 x00) 50 ex_blob).2 in
  rs_wf (fetchedRegionSet b') ∧ blob_FetchedSize b' = zlen (offsets (fetchedRegionSet b')) ∧
  (∀ x, Regions.covers [mkRegion 0 99] x → Regions.covers (fetchedRegionSet b') x).
Proof.
  destruct (blob_ReadAt 7 (replicate 100 x00) 50 ex_blob) as [[r d] b'] eqn:E.
  apply (ReadAt_regions 7 (replicate 100 x00) 50 ex_blob r d b');
    [|lia|reflexivity|reflexivity|exact E].
  split; repeat constructor; simpl; lia.
Defined.

Lemma fetch_falls_back_to_single_range_witness :
  let rs := [mkRegion 0 9; mkRegion 100 109] in
  let f := mkHttpFetcher "https://registry/blob" "https://cdn/blob" false in
  let f' := mkHttpFetcher "https://registry/blob" "https://cdn/blob" true in
  let rt := λ _ u, (Ok (status_response 400), u) in
  httpFetcher_fetch rt rs true (f, tt) = fetch_no_retry rt rs (f', tt) ∧
  request_regions true rs = Ok [mkRegion 0 109] ∧
  (∀ l x, l ∈ foldl regionSet_add [] rs → rb l ≤ x ≤ re l → 0 ≤ x ≤ 109).
Proof.
  intros rs f f' rt.
  apply (fetch_falls_back_to_single_range rt rs f tt (status_response 400) tt (mkRegion 0 109)); done.
Defined.

Lemma fetch_retries_once_witness :
  let f := mkHttpFetcher "https://registry/blob" "https://cdn/blob" false in
  httpFetcher_fetch (λ _ u, (Ok (status_response 403), u)) [mkRegion 0 9] false (f, tt)
  = (Err (Wrap "on fetch" ErrUnexpectedStatusCode), (f, tt)).
Proof.
  intros f. apply (fetch_retries_once (λ _ u, (Ok (status_response 403), u)) [mkRegion 0 9] f tt
    (status_response 403) tt [mkRegion 0 9]); [done|done|done|]. simpl. set_solver.
Defined.

Lemma regionSet_add_spec_witness :
  let rs := [mkRegion 0 9; mkRegion 20 29] in let r := mkRegion 10 24 in
  rs_wf (regionSet_add rs r) ∧
  (∀ x, Regions.covers (regionSet_add rs r) x ↔ Regions.covers rs x ∨ 10 ≤ x ≤ 24) ∧
  totalSize (regionSet_add rs r) = zlen (offsets (regionSet_add rs r)) ∧
  NoDup (offsets (regionSet_add rs r)).
Proof.
  intros rs r. apply (regionSet_add_spec rs r); [|split; simpl; lia].
  split; repeat constructor; simpl; lia.
Defined.

Lemma bytesWriter_writes_witness :
  foldl bytesWriter_Write (newBytesWriter [x00; x00; x00] 1) [[x01; x02]; [x03]]
  = mkBytesWriter (overlay [x00; x00; x00] 1 [x01; x02; x03]) 1 3 ∧
  length (overlay [x00; x00; x00] 1 [x01; x02; x03]) = 3%nat.
Proof. apply (bytesWriter_writes [x00; x00; x00] 1 [[x01; x02]; [x03]]). lia. Defined.

(** ** Caches and locks *)
Lemma OnEvicted_exactly_once_witness :
  let c := foldl (flip run_op) (LruCache.New (V:=bytes) (mkLRU 1 ∅ []))
    [LruCache.OpAdd "a" [x01]; LruCache.OpAdd "b" [x02]; OpDone 0] in
  NoDup (evicted c) ∧
  ∀ h r, heap c !! h = Some r →
    h ∈ evicted c ↔ lru_map (inner c) !! rc_key r ≠ Some h ∧ (h, false) ∉ dones c.
Proof. apply (OnEvicted_exactly_once (mkLRU 1 ∅ [])). done. Defined.

Lemma Add_keeps_existing_witness :
  let c := LruCache.New (V:=bytes) (mkLRU 1 ∅ []) in
  (LruCache.Add "a" [x01] c).1.1.1 = [x01] ∧ (LruCache.Add "a" [x01] c).1.2 = true ∧
  cached "a" (LruCache.Add "a" [x01] c).2 = Some [x01].
Proof.
  exact (Add_keeps_existing "a" [x01] (LruCache.New (mkLRU 1 ∅ [])) (wf_New (mkLRU 1 ∅ []) eq_refl)).
Defined.

Lemma nm_reachable : rtc step (emptyNM, replicate 2 Idle)
  (set_mutex 0 true (Lock_register "x" (Lock_register "x" emptyNM).2).2, [Holding "x" 0; Waiting "x" 0]).
Proof.
  eapply rtc_l; [apply (step_lock emptyNM (replicate 2 Idle) 0 "x"); done|].
  eapply rtc_l; [apply (step_lock _ [Waiting "x" 0; Idle] 1 "x"); done|].
  eapply rtc_l; [apply (step_acquire _ [Waiting "x" 0; Waiting "x" 0] 0 "x" 0); done|].
  apply rtc_refl.
Qed.
Lemma mutual_exclusion_witness : 0%nat = 0%nat.
Proof. exact (mutual_exclusion 2 _ _ 0 0 "x" 0 0 nm_reachable eq_refl eq_refl). Defined.
Lemma unlock_own_mutex_witness :
  let nl := set_mutex 0 true (Lock_register "x" (Lock_register "x" emptyNM).2).2 in
  let ts := [Holding "x" 0; Waiting "x" 0] in
  (ts !! 1%nat = Some (Holding "x" 0) → (Unlock_register "x" nl).1 = Some 0%nat) ∧
  (ts !! 1%nat = Some (Waiting "x" 0) → mutexes nl !! 0%nat = Some false ∨
     ∃ j t, ts !! j = Some t ∧ owns 0 t = true).
Proof. exact (unlock_own_mutex 2 _ _ 1 "x" 0 nm_reachable). Defined.

Lemma cache_roundtrip_witness :
  wp (store "k" [x01]) MemoryCache.NewMemoryCache
    (λ _ c', (cache_Get "k" c').1 = Ok [x01] ∧
       ∀ k' b', k' ≠ "k" → (cache_Get k' MemoryCache.NewMemoryCache).1 = Ok b' → (cache_Get k' c').1 = Ok b')
    (λ c', view c' = <["k" := [x01]]> (view MemoryCache.NewMemoryCache)).
Proof. exact (cache_roundtrip "k" [x01] MemoryCache.NewMemoryCache memory_empty_ok I). Defined.

Lemma queue_bounded_no_duplicates_witness :
  let bf := BackgroundFetcher.Add 2 (BackgroundFetcher.Add 1 (NewBackgroundFetcher 1 DropPolicyOldest)) in
  (0 < maxQueueSize bf → queueSize bf ≤ maxQueueSize bf) ∧ NoDup (workQueue bf ++ in_flight bf).
Proof.
  apply (queue_bounded_no_duplicates 1 DropPolicyOldest).
  eapply rtc_l; [apply (bf_add _ 1); set_solver|]. eapply rtc_l; [apply (bf_add _ 2)|apply rtc_refl];
    vm_compute; set_solver.
Defined.

(** ** The metadata store *)
Lemma node_entry_roundtrip_witness :
  ∃ b, writeNodeEntry empty_bucket ex_attr = Ok b ∧
    readNodeEntryToAttr b zeroAttr = Ok ex_attr ∧ readNumLink b = 1.
Proof.
  apply (node_entry_roundtrip ex_attr ex_attr_ok); [|exact ex_attr_keys].
  intros _. by eexists.
Defined.

Lemma metadata_entry_roundtrip_witness :
  ∃ md, writeMetadataEntry empty_bucket ex_dir = Ok md ∧ entry_reads ex_dir md.
Proof. apply (metadata_entry_roundtrip ex_dir ex_dir_children ex_dir_keys); by vm_compute. Defined.

Lemma integer_encodings_roundtrip_witness :
  EncodeInt (-300) = Ok (PutVarint (-300)) ∧
  Varint (PutVarint (-300) ++ [x07]) = (-300, zlen (PutVarint (-300))) ∧
  DecodeInt (PutVarint (-300) ++ [x07]) = Ok (-300) ∧ decodeID (encodeID 70000) = Ok 70000.
Proof. apply (integer_encodings_roundtrip (-300) 70000 [x07]); by vm_compute. Defined.

Lemma GetMetadataEntry_terminates_witness :
  is_Some (GetMetadataEntry 2 [ex_entry] "hello").
Proof.
  apply (GetMetadataEntry_terminates [ex_entry] "hello"). intros name v Hf Hl.
  unfold find_entry in Hf. destruct (String.eqb _ name); [|discriminate Hf].
  apply (inj Some) in Hf as <-. by destruct Hl.
Defined.

Lemma blob_to_zinfo_in_bounds_witness :
  match blob_to_zinfo (le_enc 4 1 ++ le_enc 8 4096) with
  | Ok (Some z) => have z = 1 ∧ zlen (list_ z) = 1
  | Ok None => True
  | Err _ | Panic => False
  end.
Proof. apply (blob_to_zinfo_in_bounds (le_enc 4 1 ++ le_enc 8 4096)). by vm_compute. Defined.

(** ** Id mappings *)
Definition ex_labels : gmap string string :=
  {[LabelSnapshotUIDMapping := "0:100000:65536"; LabelSnapshotGIDMapping := "0:200000:65536"]}.
Lemma loaded_mappings_exact_witness :
  let m := mkMapping 0 100000 65536 in let m' := mkMapping 0 200000 65536 in
  (∃ x, x ∈ [m] ∧ covers x 1000 ∧ 101000 = HostID x + (1000 - ContainerID x) ∧ 101000 < invalidID) ∧
  (∃ x, x ∈ [m'] ∧ covers x 1000 ∧ 201000 = HostID x + (1000 - ContainerID x) ∧ 201000 < invalidID).
Proof.
  intros m m'.
  apply (loaded_mappings_exact ex_labels (mkIDMap (Some [m]) (Some [m'])) (mkUser 1000 1000)
    (mkUser 101000 201000)); by vm_compute.
Defined.

Lemma toHost_injective_witness : 1000 = 1000.
Proof.
  apply (toHost_injective 1000 1000 [mkMapping 0 100000 65536] 101000);
    [constructor; [by vm_compute|done]|by vm_compute|by vm_compute| |by vm_compute|by vm_compute].
  intros m m' x Hm%list_elem_of_singleton Hm'%list_elem_of_singleton _ _. by rewrite Hm, Hm'.
Defined.

(** ** End to end *)
Lemma ex_ends md total :
  metadataFromTarReader (tar_next ex_header 512 (tar_end 2048)) 0 = Ok (md, total) → total = zlen ex_data.
Proof. intros H. vm_compute in H. by injection H as _ <-. Qed.
Lemma ex_entries md total :
  metadataFromTarReader (tar_next ex_header 512 (tar_end 2048)) 0 = Ok (md, total) → Forall entry_ok md.
Proof.
  intros H. apply (inj Ok) in H. injection H as <- _. constructor; [|constructor].
  split_and!; [by vm_compute..|]. eexists. split; reflexivity.
Qed.

Lemma lazy_layer_transparent_witness :
  ∃ zt, BuildZtoc (NewBuilder ex_tar ex_tar "tool") ex_files "layer.tar" 1024
      [WithCompression Uncompressed] = Ok zt ∧
  Forall2 entry_of (TOC zt) [(ex_header, 512)] ∧
  match Marshal zt with
  | Ok (fb, _) => ∃ zt', ZtocMarshal.Unmarshal (Ok fb) = Ok zt' ∧ TOC zt' = TOC zt ∧
      ∀ (r : SectionReader unit) (c : MemoryCache.t) retries m ops order h pos,
        cache_ok c → retries < 2 ^ 63 - 1 → New zt' r c retries = Ok m →
        Forall (sm_op_ok (uncomp:=ex_data)) ops → (∀ k, order k ≡ₚ seq 0 k) →
        (h, pos) ∈ [(ex_header, 512)] → pos + h_Size h < zlen ex_data →
        match GetContents order pos (pos + h_Size h) (run_sm_ops ops m) with
        | (Ok bs, m') => bs = sub pos (pos + h_Size h) ex_data ∨ lost (sm_cache m')
        | (Err _, _) => True
        | (Panic, m') => lost (sm_cache m')
        end
  | Err e => e = ErrorString "cannot marshal Ztoc to flatbuffers"
  | Panic => False
  end.
Proof.
  apply (lazy_layer_transparent (C:=MemoryCache.t) (R:=unit) words_flatbuf_law coded_flatbuf_law
    ltac:(done) ex_files "layer.tar" ex_data 1024 (tar_next ex_header 512 (tar_end 2048)) ex_tar ex_tar "tool"
    ltac:(done) ltac:(apply lookup_singleton_eq) ltac:(by vm_compute) ex_describes eq_refl ex_tar_ok
    ex_ends ex_entries); exact ex_collision_free.
Defined.
