(* ===== verification/FuseExamples.v ===== *)
(** * Examples and witnesses for the FUSE nodes

    A directory with a file, a whiteout and an opaque marker, stored in the metadata
    buckets; the theorems on nodes applied to it and to the example layer. *)
From Stdlib Require Import ZArith Lia Floats.SpecFloat Strings.Byte.
From stdpp Require Import base list gmap strings numbers.
From S2P Require Import Prelude GoLib Compression GzipZinfo Ztoc ZtocBuilder ZtocMarshal Regions Remote.
From S2P Require Import BlobCache SpanManager Encoders MetadataDB MetadataTree FileReader LostCommit IDMap.
From S2P Require Import FuseAttr FuseNode FuseMount Examples.
#[local] Open Scope Z_scope.

#[global] Instance linux : Unix := {|
  Mkdev major minor := Z.lor (Z.shiftl (Z.land major 4095) 8) (Z.land minor 255);
  Statfs path := Err (ErrorString path)
|}.
#[global] Instance short_json : JSON := {|
  json_Marshal st := if finite (sj_FetchedPercent st) then Ok (to_bytes (sj_Digest st)) else Err (ErrorString "NaN")
|}.
#[global] Instance short_json_laws : JSONLaws.
Proof. split; intros st E; simpl; rewrite E; eauto. Qed.

(** ** Directory 1: [new] (id 2), [.wh.old] (id 3), [.wh..wh..opq] (id 4) *)
Definition wh_children : gmap string childEntry :=
  list_to_map [("new", mkChild "new" 2); (".wh.old", mkChild ".wh.old" 3);
               (whiteoutOpaqueDir, mkChild whiteoutOpaqueDir 4)].
Definition wh_dir : metadataEntry := mkME wh_children 512 0 "dir/" 0 512.
Definition file_attr (mode : Z) : Attr Z := mkAttr 10 7 "" mode 1000 1000 0 0 ∅ 1.
Definition bucket_of (m : outcome bucket) : bucket := match m with Ok b => b | _ => empty_bucket end.
Definition wh_tree : MetadataTree.reader :=
  MetadataTree.mkReader
    {[2 := bucket_of (writeNodeEntry empty_bucket (file_attr 420));
      3 := bucket_of (writeNodeEntry empty_bucket (file_attr 384));
      4 := bucket_of (writeNodeEntry empty_bucket (file_attr 384))]}
    {[1 := bucket_of (writeMetadataEntry empty_bucket wh_dir)]} 1.
Definition wh_reader : FileReader.reader TarZinfo.t MemoryCache.t unit Z :=
  FileReader.NewReader wh_tree ex_sm false.

(** A property of the three children is checked on each of them. *)
Lemma wh_children_all (P : string → childEntry → Prop) :
  P "new" (mkChild "new" 2) → P ".wh.old" (mkChild ".wh.old" 3) →
  P whiteoutOpaqueDir (mkChild whiteoutOpaqueDir 4) → map_Forall P wh_children.
Proof.
  intros H1 H2 H3. unfold wh_children. cbn [list_to_map foldr fst snd].
  repeat (apply map_Forall_insert_2; [done|]). apply map_Forall_empty.
Qed.

Lemma wh_stored : stored_dir (Time:=Z) wh_tree 1 wh_children.
Proof.
  split.
  - by apply wh_children_all.
  - exists wh_dir, (bucket_of (writeMetadataEntry empty_bucket wh_dir)).
    split_and!; [done|by vm_compute..|vm_compute; reflexivity|apply lookup_singleton_eq].
  - apply wh_children_all;
      [exists (bucket_of (writeNodeEntry empty_bucket (file_attr 420))), (file_attr 420)
      |exists (bucket_of (writeNodeEntry empty_bucket (file_attr 384))), (file_attr 384)..].
    all: split; [reflexivity|vm_compute; reflexivity].
Qed.

Definition wh_view : gmap string (Z * Z) := child_view wh_tree wh_children.

Lemma wh_dir_view : dir_view (HLR := layer_reader_of (seq 0)) wh_reader 1 wh_view.
Proof. exact (stored_dir_view (seq 0) wh_reader 1 wh_children wh_stored). Qed.

Lemma wh_fit : ids_fit wh_view.
Proof.
  unfold ids_fit, wh_view, child_view. apply map_Forall_fmap. apply wh_children_all; by vm_compute.
Qed.

Definition wh_state : FuseNode.state (FileReader.reader TarZinfo.t MemoryCache.t unit Z) (blob unit) Z :=
  (mkFS wh_reader (newState "sha256:layer" ex_blob) "sha256:layer" 7 9
     (opaqueXattrs_of OverlayOpaqueAll) (Some (NewFuseOperationCounter "sha256:image" 60)) "" [],
   mkNode 1 (file_attr (Z.lor ModeDir 493)) (mkIDMap None None) [] false ∅).

(** Listed twice and looked up once in between. *)
Definition wh_state_later :=
  (Readdir (HLR := layer_reader_of (seq 0)) (after_lookup (HLR := layer_reader_of (seq 0)) "old"
    (Readdir (HLR := layer_reader_of (seq 0)) wh_state).2)).2.

Lemma wh_steps : rtc (dir_step (HLR := layer_reader_of (seq 0))) wh_state wh_state_later.
Proof.
  eapply rtc_l; [apply step_readdir|]. eapply rtc_l; [by apply (step_lookup _ "old")|].
  eapply rtc_l; [apply step_readdir|]. apply rtc_refl.
Qed.

Lemma directory_refines_view_witness :
  (∃ es, (Readdir (HLR := layer_reader_of (seq 0)) wh_state_later).1 = Ok es ∧
     is_listing wh_view (baseInode wh_state_later.1) es) ∧
  lookup_spec (HLR := layer_reader_of (seq 0)) wh_view wh_state_later "old"
    (node_Lookup (HLR := layer_reader_of (seq 0)) "old" wh_state_later).1.
Proof.
  destruct (directory_refines_view (HLR := layer_reader_of (seq 0)) wh_view wh_state wh_state_later "old")
    as (H1 & _ & H3); [done|exact wh_dir_view|exact wh_fit|done|done|exact wh_steps|done|].
  split; [exact H1|]. by apply H3.
Defined.

(** The listing, evaluated: the whiteout is a character device called [old]. *)
Example wh_listing :
  (Readdir (HLR := layer_reader_of (seq 0)) wh_state).1 =
    Ok [mkDE (Z.lor S_IFREG 420) "new" (7 * 2 ^ 32 + 5); mkDE S_IFCHR "old" (7 * 2 ^ 32 + 6)].
Proof. vm_compute. reflexivity. Qed.

Lemma whiteout_attributes_change_witness :
  ∃ cn ino, (node_Lookup (HLR := layer_reader_of (seq 0)) "old" wh_state).1 =
      Ok (cn, entryToWhAttr ino (file_attr 384)) ∧
    (node_Lookup (HLR := layer_reader_of (seq 0)) "old"
       (after_lookup (HLR := layer_reader_of (seq 0)) "old" wh_state)).1 =
      Ok (cn, entryToAttr (mkIDMap None None) ino (file_attr 384)).
Proof.
  apply (whiteout_attributes_change (HLR := layer_reader_of (seq 0)) wh_view wh_state "old" 3 (file_attr 384));
    [|done|done|done|by vm_compute|by vm_compute|done|done].
  apply fresh_dir_inv; [done|exact wh_dir_view|exact wh_fit|done|done].
Defined.

(** ** Reading the example file *)
Definition read_state : FuseNode.state (FileReader.reader TarZinfo.t MemoryCache.t unit Z) (blob unit) Z :=
  (mkFS ex_state.1 (newState "sha256:layer" ex_blob) "sha256:layer" 7 1
     (opaqueXattrs_of OverlayOpaqueAll) None "" [],
   mkNode 2 (file_attr 420) (mkIDMap None None) [] false ∅).

Lemma fuse_read_exact_witness :
  match file_Read (HLR:=layer_reader_of (seq 0)) 10 95 (read_state, ex_file) with
  | (Ok bs, (s', _)) => bs = read_result (uncomp:=ex_data) (fr ex_file) 10 95 ∨
      bs = [] ∧ (Verify (seq 0) (f_r read_state.1, ex_file)).1 = Err io_EOF ∨
      lost (sm_cache (spanManager (f_r s'.1)))
  | (Err e, (s', _)) => e = EIO ∧ failures s'.1 = failures read_state.1 ++ ["fuse_file_read_failure_count"%string] ∧
      ∃ err, sj_Error (sf_json (f_s s'.1)) = Some err
  | (Panic, (s', _)) => lost (sm_cache (spanManager (f_r s'.1)))
  end.
Proof.
  apply (fuse_read_exact (HL:=ex_laws) (seq 0) 10 95 read_state ex_file);
    [exact ex_collision_free|exact ex_fits|exact ex_tar_no_panic|done|lia|lia
    |exact ex_in_layer|exact ex_state_ok].
Defined.

(** ** Modes, inode numbers, the state file *)
Lemma inode_numbers_unique_witness : inodeOfState 7 ≠ inodeOfStatFile 8.
Proof. by apply (inode_numbers_unique 7 8 0 1). Defined.

Lemma served_mode_is_tar_mode_witness :
  fileModeToSystemMode (FileMode (dummy_fm 2541 "dir")) = Z.lor 2541 S_IFDIR.
Proof. apply (served_mode_is_tar_mode (dummy_fm 2541 "dir") TypeDir); [by vm_compute..|done]. Defined.

Lemma empty_blob_state_unreadable_witness :
  (statFile_Read 100 0 (newState "sha256:empty" (mkBlob tt 0 0 60 [] false))).1 = Err EIO.
Proof.
  apply (empty_blob_state_unreadable (Time:=Z) (newState "sha256:empty" (mkBlob tt 0 0 60 [] false)) 7 100 0);
    done.
Defined.
