(* ===== verification/SociExamples.v ===== *)
(** * Examples and witnesses for indexes, the artifacts database and conversion

    A blob store over a map, documents coded as bit strings, one platform per record, and
    an image of one layer, the layer of [Examples]. *)
From Stdlib Require Import ZArith Lia Sorted Strings.Byte.
From stdpp Require Import base list gmap strings numbers countable.
From S2P Require Import Prelude GoLib Compression GzipZinfo Ztoc ZtocBuilder ZtocMarshal Encoders MetadataDB.
From S2P Require Import ForeignErrors Oci ArtifactsDb Prefetch SociIndex ArtifactsSync SociConvert Examples.
#[local] Open Scope Z_scope.

(** A short digest: the length of the content. *)
#[global] Instance length_digest : Digester :=
  {| digest_FromBytes b := "sha256:" +:+ FormatInt (zlen b); digest_Parse s := s |}.

(** ** Stores *)
Definition blobs : Type := gmap string bytes.
#[global] Instance map_store : Store blobs := {|
  s_Exists d s := (Ok (bool_decide (is_Some (s !! d_Digest d))), s);
  s_Fetch d s := (match s !! d_Digest d with Some c => Ok c | None => Err errdefs_ErrNotFound end, s);
  s_Push d c s := if bool_decide (is_Some (s !! d_Digest d)) then (Err errdefs_ErrAlreadyExists, s)
                  else (Ok tt, <[d_Digest d := c]> s);
  s_Label _ _ _ s := (Ok tt, s);
  s_Delete k s := (Ok tt, delete k s);
  s_BatchOpen s := (Ok tt, s);
  s_BatchDone s := s |}.

(** Takes content and the label for the config, and no other label. *)
Record unlabelled := mkUnlabelled { ul_blobs : blobs }.
#[global] Instance unlabelled_store : Store unlabelled := {|
  s_Exists d s := (Ok (bool_decide (is_Some (ul_blobs s !! d_Digest d))), s);
  s_Fetch d s := (match ul_blobs s !! d_Digest d with Some c => Ok c | None => Err errdefs_ErrNotFound end, s);
  s_Push d c s := (Ok tt, mkUnlabelled (<[d_Digest d := c]> (ul_blobs s)));
  s_Label _ n _ s := (if String.eqb n configRefLabel then Ok tt else Err (ErrorString "label refused"), s);
  s_Delete k s := (Ok tt, mkUnlabelled (delete k (ul_blobs s)));
  s_BatchOpen s := (Ok tt, s);
  s_BatchDone s := s |}.

(** ** Platforms *)
#[global] Instance exact_platforms : Platforms := {|
  platforms_Normalize p := p;
  platforms_OnlyStrict p q := bool_decide (p = q);
  platforms_Format p := OS p +:+ "/" +:+ Architecture p;
  platforms_DefaultSpec := mkPlatform "amd64" "linux" "" |}.
#[global] Instance exact_platforms_laws : PlatformsLaws.
Proof. split; [|done]. intros p q. apply bool_decide_eq_true. Qed.

(** ** Documents *)
#[global] Instance Platform_countable : Countable Platform.
Proof.
  refine (inj_countable' (λ p, (Architecture p, OS p, Variant p)) (λ '(a, o, v), mkPlatform a o v) _). by intros [].
Defined.
#[global] Instance Descriptor_countable : Countable Descriptor.
Proof.
  refine (inj_countable'
    (λ d, ((d_MediaType d, d_Digest d, d_Size d), (d_Annotations d, d_Platform d, d_ArtifactType d)))
    (λ '((a, b, c), (d, e, f)), mkDesc a b c d e f) _). by intros [].
Defined.
#[global] Instance Manifest_eq_dec : EqDecision Manifest.
Proof. solve_decision. Defined.
#[global] Instance Manifest_countable : Countable Manifest.
Proof.
  refine (inj_countable'
    (λ m, ((m_SchemaVersion m, m_MediaType m, m_Config m), (m_Layers m, m_Subject m, m_Annotations m)))
    (λ '((a, b, c), (d, e, f)), mkManifest a b c d e f) _). by intros [].
Defined.
#[global] Instance OciIndex_eq_dec : EqDecision OciIndex.
Proof. solve_decision. Defined.
#[global] Instance OciIndex_countable : Countable OciIndex.
Proof.
  refine (inj_countable'
    (λ x, (x_SchemaVersion x, x_MediaType x, x_Manifests x, x_Annotations x))
    (λ '(a, b, c, d), mkOciIndex a b c d) _). by intros [].
Defined.
#[global] Instance PrefetchArtifact_eq_dec : EqDecision PrefetchArtifact.
Proof. solve_decision. Defined.
#[global] Instance PrefetchSpan_countable : Countable PrefetchSpan.
Proof.
  refine (inj_countable' (λ s, (StartSpan s, EndSpan s, Priority s)) (λ '(a, b, c), mkPS a b c) _). by intros [].
Defined.
#[global] Instance PrefetchArtifact_countable : Countable PrefetchArtifact.
Proof.
  refine (inj_countable' (λ a, (pa_Version a, PrefetchSpans a)) (λ '(v, s), mkPA v s) _). by intros [].
Defined.

Definition code {A} `{Countable A} (x : A) : outcome bytes := Ok (bits_of (encode x)).
Definition uncode {A} `{Countable A} (b : bytes) : outcome A :=
  match decode (of_bits b) with Some x => Ok x | None => Err (ErrorString "invalid document") end.
Lemma uncode_code {A} `{Countable A} (x : A) : ∃ b, code x = Ok b ∧ uncode b = Ok x.
Proof. eexists. split; [done|]. unfold uncode. by rewrite of_bits_of, decode_encode. Qed.

#[global] Instance coded_documents : DocJSON := {|
  manifest_Marshal := code;
  manifest_Unmarshal := uncode;
  decodes_as_index b := _ ← uncode (A:=Manifest) b; Ok ();
  ociindex_Marshal := code;
  ociindex_Unmarshal := uncode |}.
#[global] Instance coded_documents_laws : DocJSONLaws.
Proof.
  split; intros x; destruct (uncode_code x) as (b & Hb & Hu); exists b; [|done].
  split_and!; [done|done|]. cbn [decodes_as_index coded_documents]. by rewrite Hu.
Qed.
#[global] Instance coded_prefetch : PrefetchJSON := {| prefetch_Marshal := code; prefetch_Unmarshal := uncode |}.

(** ** The image *)
#[global] Instance ex_media : MediaTypes := {|
  IsLayerType mt := String.eqb mt MediaTypeImageLayer;
  IsIndexType mt := String.eqb mt MediaTypeImageIndex;
  IsManifestType mt := String.eqb mt MediaTypeImageManifest;
  DiffCompression _ := Ok "" |}.

Definition ex_platform : Platform := mkPlatform "amd64" "linux" "".
Definition ex_layer : Descriptor := content_desc MediaTypeImageLayer "sha256:layer" 2048.
Definition ex_small : Descriptor := content_desc MediaTypeImageLayer "sha256:small" 3.
Definition ex_manifest : Manifest :=
  mkManifest 2 MediaTypeImageManifest (content_desc MediaTypeImageConfig "sha256:config" 10) [ex_small; ex_layer] None ∅.
Definition ex_target : Descriptor := content_desc MediaTypeImageManifest "sha256:manifest" 100.
#[global] Instance ex_content : ContentStore unit := {|
  images_Manifest _ d _ := if String.eqb (d_Digest d) (d_Digest ex_target) then Ok ex_manifest else Err errdefs_ErrNotFound;
  images_Children _ _ := Ok [];
  images_Platforms _ _ := Ok [ex_platform];
  cs_ReadAll _ d := if String.eqb (d_Digest d) (d_Digest ex_layer) then Ok ex_data else Err errdefs_ErrNotFound |}.

Definition ex_cfg : builderConfig := mkBC 1024 100 "tool" true [XAttrOptimization] false ["hello"].
Definition ex_ib : IndexBuilder Z := mkIB ex_cfg (NewBuilder ex_tar ex_tar "tool").
Definition ex_build_cfg : SociIndex.buildConfig := SociIndex.mkBuildConfig ex_platform true V1.
Definition ex_build : outcome (IndexWithMetadata Z) * (blobs * adb) :=
  build () 7 (Ok "tmp") (seq 0) ex_ib ex_target ex_build_cfg (∅, None).
Definition ex_im0 : IndexWithMetadata Z :=
  mkIM (NewIndex V2 [] None ∅) emptyDescriptor (Some ex_platform) ex_target ex_target 7.
Definition ex_im : IndexWithMetadata Z := match ex_build.1 with Ok im => im | _ => ex_im0 end.
Lemma ex_build_ok : ex_build.1 = Ok ex_im.
Proof. vm_compute. reflexivity. Qed.
Lemma ex_built : build () 7 (Ok "tmp") (seq 0) ex_ib ex_target ex_build_cfg (∅, None) = (Ok ex_im, ex_build.2).
Proof. change (ex_build = (Ok ex_im, ex_build.2)). rewrite <-ex_build_ok. by destruct ex_build. Qed.

(** ** Prefetch spans *)
Lemma normalizePrefetchSpans_spec_witness :
  normalizePrefetchSpans [mkPS 7 9 0; mkPS 1 3 0; mkPS 4 5 0; mkPS 2 2 0] = [mkPS 1 5 0; mkPS 7 9 0] ∧
  let r := normalizePrefetchSpans [mkPS 7 9 0; mkPS 1 3 0; mkPS 4 5 0; mkPS 2 2 0] in
  StronglySorted apart r ∧ Forall span_ok r ∧
  ∀ i, covered r i ↔ covered [mkPS 7 9 0; mkPS 1 3 0; mkPS 4 5 0; mkPS 2 2 0] i.
Proof.
  split; [vm_compute; reflexivity|]. apply (normalizePrefetchSpans_spec [mkPS 7 9 0; mkPS 1 3 0; mkPS 4 5 0; mkPS 2 2 0]).
  repeat constructor; simpl; lia.
Defined.

(** ** The database *)
Definition ex_ae : ArtifactEntry Z :=
  mkAE 300 "sha256:index" "sha256:manifest" "sha256:image" "linux/amd64" "here" ArtifactEntryTypeIndex
    MediaTypeImageManifest SociIndexArtifactTypeV1 7 0.
Definition ex_ae2 : ArtifactEntry Z :=
  mkAE 40 "sha256:ztoc" "sha256:layer" "" "" "sha256:layer" ArtifactEntryTypeLayer SociLayerMediaType "" 7 1024.
Lemma ex_ae_ok : entry_ok ex_ae.
Proof. split; [by vm_compute..|done|by eexists]. Qed.
Lemma ex_ae2_ok : entry_ok ex_ae2.
Proof. split; [by vm_compute..|done|by eexists]. Qed.

Definition ex_ops : list (db_op (Time:=Z)) :=
  [OpWrite ex_ae; OpWrite ex_ae2; OpRemove "sha256:ztoc"; OpReference "sha256:index" "sha256:m2" "sha256:i2"].
Definition ex_adb : adb := foldl (λ d o, run_op o d) None ex_ops.
Lemma ex_ops_ok : Forall op_ok ex_ops.
Proof. apply list.Forall_cons. split; [exact ex_ae_ok|]. apply list.Forall_cons. split; [exact ex_ae2_ok|]. by repeat constructor. Qed.
Lemma ex_adb_ok : db_ok (Time:=Z) ex_adb.
Proof. destruct (run_ops_ok (Time:=Z) ex_ops None) as [H _]; [apply map_Forall_empty|apply ex_ops_ok|exact H]. Qed.

Lemma artifacts_db_refines_map_witness :
  GetArtifactEntry "sha256:index" ex_adb = Ok (with_references "sha256:m2" "sha256:i2" ex_ae) ∧
  (with_references "sha256:m2" "sha256:i2" ex_ae ∈ getIndexArtifactEntries "sha256:m2" ex_adb).
Proof.
  destruct (artifacts_db_refines_map ex_ops "sha256:index" "sha256:m2" (with_references "sha256:m2" "sha256:i2" ex_ae) ex_ops_ok)
    as (H1 & _ & H2).
  assert (foldl (λ e o, spec_op o e) ∅ ex_ops !! "sha256:index"%string = Some (with_references "sha256:m2" "sha256:i2" ex_ae)) as E
    by (vm_compute; reflexivity).
  rewrite E in H1. split; [exact H1|]. apply H2. split_and!; [exact E|reflexivity|reflexivity].
Defined.

Definition ex_blobs : blobs := {["sha256:ztoc" := [x00]]}.
Lemma RemoveOldArtifacts_exact_witness :
  ∃ d', RemoveOldArtifacts (Time:=Z) (ex_adb, ex_blobs) = (Ok tt, (d', ex_blobs)) ∧
    db_ok (Time:=Z) d' ∧ entries (Time:=Z) d' !! "sha256:index"%string = None.
Proof.
  exact (RemoveOldArtifacts_exact (λ k, bool_decide (is_Some (ex_blobs !! k))) ex_adb ex_blobs "sha256:index"
    ex_adb_ok (λ _, eq_refl)).
Defined.

(** ** Indexes *)
Lemma index_roundtrip_witness :
  ∃ b, MarshalIndex (NewIndex V2 [ex_layer] None ∅) = Ok b ∧ DecodeIndex (Ok b) = Ok (NewIndex V2 [ex_layer] None ∅).
Proof. apply (index_roundtrip V2 [ex_layer] None ∅). by right. Defined.

Lemma ex_private : error_is_private (BS:=blobs) () (Ok "tmp") ex_ib.
Proof.
  assert (provider_foreign "unsupported layer format" ex_tar) as Htar.
  { intros data. split; [apply foreign_Ok|]. intros r [= <-]. done. }
  split.
  - intros d bs. cbn. destruct (bs !! d_Digest d); [apply foreign_Ok|by apply foreign_Err].
  - intros d c bs. cbn. destruct (bool_decide _); [by apply foreign_Err|apply foreign_Ok].
  - intros d. cbn. destruct (String.eqb _ _); [apply foreign_Ok|by apply foreign_Err].
  - apply foreign_Ok.
  - intros a p Hp. cbn in Hp.
    apply lookup_insert_Some in Hp as [[_ <-]|[_ Hp]]; [done|].
    apply lookup_insert_Some in Hp as [[_ <-]|[_ Hp]]; [done|].
    apply lookup_insert_Some in Hp as [[_ <-]|[_ Hp]]; [done|]. by rewrite lookup_empty in Hp.
Qed.

(** The small layer is skipped, the other one gets a ztoc and a prefetch artifact. *)
Lemma build_indexes_exactly_witness :
  ∃ ztocs prefetch, i_Blobs (im_Index ex_im) = ztocs ++ prefetch ∧ Forall2 (ztoc_for ex_ib) [ex_layer] ztocs ∧
    Forall (λ d, d_MediaType d = PrefetchArtifactMediaType) prefetch ∧ length (i_Blobs (im_Index ex_im)) = 2%nat.
Proof.
  destruct (build_indexes_exactly () 7 (Ok "tmp") (seq 0) ex_ib ex_target ex_build_cfg (∅ : blobs, None) ex_im ex_build.2
    (λ k, reflexivity _) ex_private ex_built) as (m & md & zs & pre & [= <-] & _ & _ & H1 & _ & H2 & H3 & _).
  exists zs, pre. split_and!; [exact H1|exact H2|exact H3|vm_compute; reflexivity].
Defined.

Definition ex_im2 : IndexWithMetadata Z :=
  mkIM (NewIndex V2 [ex_layer] None ∅) (mkDesc MediaTypeImageManifest "sha256:index" 300 ∅ None SociIndexArtifactTypeV2)
    (Some ex_platform) ex_target ex_target 7.

Lemma ztoc_label_errors_lost_witness :
  ∃ desc s', writeSociIndex "now" ex_im2 false (mkUnlabelled ∅, None) = (desc, Ok tt, s').
Proof.
  apply (ztoc_label_errors_lost "now" ex_im2 (mkUnlabelled ∅, None) ex_platform).
  - intros d c bs. by eexists.
  - intros d v bs. exists bs. reflexivity.
  - intros d n v bs Hn. exists (ErrorString "label refused"). cbn [s_Label unlabelled_store].
    by apply String.eqb_neq in Hn as ->.
  - intros c. done.
  - by eexists.
  - reflexivity.
  - reflexivity.
  - reflexivity.
Defined.

(** ** Syncing *)
Definition ex_ztoc_desc : Descriptor :=
  mkDesc SociLayerMediaType "sha256:ztoc2" 40
    {[IndexAnnotationImageLayerMediaType := MediaTypeImageLayer; IndexAnnotationImageLayerDigest := "sha256:layer";
      IndexAnnotationSociSpanSize := FormatInt 1024]} None "".
Lemma rebuilt_database_matches_witness :
  ∃ content d', MarshalIndex (NewIndex V1 [ex_ztoc_desc] (Some ex_target) ∅) = Ok content ∧
    add_file () 7 (mkBF "abc" (Ok 500) (Ok content)) ex_adb = (Ok tt, d') ∧
    ∃ ae, entries d' !! "sha256:ztoc2"%string = Some ae ∧ matching (Time:=Z) ex_ib ex_layer ae = true.
Proof.
  destruct (uncode_code (mkManifest 2 MediaTypeImageManifest defaultConfigDescriptorV1 [ex_ztoc_desc] (Some ex_target) ∅))
    as (content & Hc & _). exists content.
  destruct (rebuilt_database_matches () 7 ltac:(by eexists) ex_ib [ex_layer] [ex_ztoc_desc] ex_target ∅ "abc" content 500
    ex_platform [] ex_adb) as (d' & H1 & _ & _ & H2).
  - exact ex_adb_ok.
  - exact Hc.
  - lia.
  - vm_compute. reflexivity.
  - reflexivity.
  - constructor; [|constructor]. split_and!; vm_compute; reflexivity.
  - vm_compute. split; [intros [=]|reflexivity].
  - clear Hc. apply list.Forall_singleton. split; [by vm_compute|done].
  - apply NoDup_singleton.
  - simpl. intros H%list_elem_of_singleton. vm_compute in H. discriminate H.
  - exists d'. split_and!; [exact Hc|exact H1|]. by apply list.Forall2_cons in H2 as [H2 _].
Defined.

(** ** Conversion *)
Definition ex_old_soci : Descriptor :=
  mkDesc MediaTypeImageManifest "sha256:old" 200 ∅ (Some ex_platform) SociIndexArtifactTypeV2.
Definition ex_arm_soci : Descriptor :=
  mkDesc MediaTypeImageManifest "sha256:arm" 200 ∅ (Some (mkPlatform "arm64" "linux" "")) SociIndexArtifactTypeV2.

Lemma addSociIndexes_spec_witness :
  NoDup (omap soci_platform [ex_target; ex_old_soci; ex_arm_soci]) ∧
  with_platform ex_platform (im_Desc ex_im2) ∈ [ex_target; with_platform ex_platform (im_Desc ex_im2); ex_arm_soci].
Proof.
  assert (NoDup (omap soci_platform [ex_target; ex_old_soci; ex_arm_soci])) as Hnd.
  { vm_compute. repeat constructor; set_solver. }
  split; [exact Hnd|].
  destruct (addSociIndexes_spec [ex_target; ex_old_soci; ex_arm_soci] [ex_im2]
    [ex_target; with_platform ex_platform (im_Desc ex_im2); ex_arm_soci] Hnd) as (_ & H & _).
  - apply list.Forall_singleton. split; [reflexivity|by eexists].
  - apply NoDup_singleton.
  - vm_compute. reflexivity.
  - apply H; [left|reflexivity].
Defined.

Definition ex_annotated := annotate_image (BS:=blobs) () ex_target [ex_im2] (∅, None).
Lemma annotated_index_undecodable_witness :
  ∃ content, UnmarshalIndex content = Err (ErrorString "unknown index version").
Proof.
  destruct (annotate_image (BS:=blobs) () ex_target [ex_im2] (∅, None)) as [[[m' ims']|e|] s'] eqn:E.
  - destruct (annotated_index_undecodable () ex_target [ex_im2] (∅ : blobs, None) m' ims' s' E) as (content & _ & _ & H).
    + exists ex_manifest. reflexivity.
    + exists content. exact H.
  - exfalso. assert (fst ex_annotated = Err e) as H by (unfold ex_annotated; by rewrite E). vm_compute in H. discriminate H.
  - exfalso. assert (fst ex_annotated = Panic) as H by (unfold ex_annotated; by rewrite E). vm_compute in H. discriminate H.
Defined.

Lemma updateReferences_spec_witness :
  db_ok (Time:=Z) ex_adb ∧
  ∃ m, m ∈ [ex_target; ex_arm_soci] ∧ is_soci m = true ∧ entries (Time:=Z) ex_adb !! d_Digest m = None.
Proof.
  split; [exact ex_adb_ok|].
  pose proof (updateReferences_spec [ex_target; ex_arm_soci] "sha256:new" ex_adb ex_adb_ok) as H.
  assert (fst (updateSociV2ArtifactReferences (Time:=Z) [ex_target; ex_arm_soci] "sha256:new" ex_adb) =
    Err (Wrap "couldn't retrieve artifact" errdefs_ErrNotFound)) as E by (vm_compute; reflexivity).
  destruct (updateSociV2ArtifactReferences _ _ _) as [r d']. simpl in E. subst r. exact H.
Defined.
