(* ===== verification/SnapshotExamples.v ===== *)
(** * The snapshotter on concrete inputs

    A small metadata store and a small file system service that keep the promises of
    [MetaStoreLaws] and [FileSystemLaws], and the theorems about the snapshotter applied to
    them. *)
From Stdlib Require Import ZArith Lia Ascii.
From stdpp Require Import base list gmap strings numbers.
From S2P Require Import Prelude GoLib IDMap Oci ArtifactsDb ForeignErrors SnapshotHost Snapshot SnapshotFacts SnapshotChecks.
#[local] Open Scope Z_scope.

(** ** The store *)
Record toy_store := mkStore { ents : gmap string entry; next : nat }.

Definition entry_ok (v : gmap string entry) (k : string) (e : entry) : bool :=
  negb (String.eqb k "") && String.eqb (Info_Name (e_info e)) k && no_underscore (e_id e) && negb (String.eqb (e_id e) "") &&
  forallb (λ x, negb (String.eqb (e_id e) (e_id x.2)) || String.eqb k x.1) (map_to_list v) &&
  (String.eqb (e_parent e) "" ||
   match v !! e_parent e with
   | Some p => bool_decide (e_kind p = KindCommitted) && (e_seq p <? e_seq e)
   | None => false
   end).
Definition store_ok (v : gmap string entry) : bool := forallb (λ x, entry_ok v x.1 x.2) (map_to_list v).

(** The snapshots of a store; one that is not well-formed counts as empty. *)
Definition toy_view (m : toy_store) : gmap string entry := if store_ok (ents m) then ents m else ∅.
Definition toy_set (v : gmap string entry) (m : toy_store) : toy_store := mkStore v (S (next m)).

Fixpoint toy_id (n : nat) : string := match n with O => "i" | S n => String "i"%char (toy_id n) end.
Definition toy_not_found : error := Wrap "snapshot" errdefs_ErrNotFound.
Definition toy_refused : error := Sentinel "failed precondition".

Fixpoint toy_chain (fuel : nat) (v : gmap string entry) (k : string) : option (list string) :=
  if String.eqb k "" then Some []
  else match fuel with
  | O => None
  | S fuel => e ← v !! k; ids ← toy_chain fuel v (e_parent e); Some (e_id e :: ids)
  end.

Definition toy_IDs (v : gmap string entry) : gmap string string :=
  list_to_map ((λ x : string * entry, (e_id x.2, x.1)) <$> map_to_list v).

Definition toy_keep {A} (a : A) (v : gmap string entry) (m : toy_store) : outcome A * toy_store :=
  if store_ok v then (Ok a, toy_set v m) else (Err toy_refused, m).

Definition toy_create (kind : Kind) (k parent : string) (opts : list Opt) : ST toy_store Snapshot := λ m,
  let v := toy_view m in
  match v !! k with
  | Some _ => (Err (Wrap "snapshot" errdefs_ErrAlreadyExists), m)
  | None =>
      match apply_opts ∅ opts, toy_chain (S (base.size v)) v parent with
      | Ok l, Some ids =>
          let id := toy_id (next m) in
          if forallb (λ x, negb (String.eqb (e_id x.2) id)) (map_to_list v)
          then toy_keep (mkSnapshot kind id ids) (<[k := mkEntry id (Z.of_nat (next m)) (mkInfo kind k parent l) (mkUsage 0 0)]> v) m
          else (Err toy_refused, m)
      | _, _ => (Err toy_refused, m)
      end
  end.

Definition toy_commit (k name : string) (u : Usage) (opts : list Opt) : ST toy_store string := λ m,
  let v := toy_view m in
  match v !! name with
  | Some _ => (Err (Wrap "snapshot" errdefs_ErrAlreadyExists), m)
  | None =>
      match v !! k, apply_opts ∅ opts with
      | Some e, Ok l =>
          if bool_decide (e_kind e = KindActive)
          then toy_keep (e_id e) (<[name := committed_as name u l e]> (delete k v)) m
          else (Err toy_refused, m)
      | _, _ => (Err toy_refused, m)
      end
  end.

#[global] Instance toy_MetaStore : MetaStore toy_store := {|
  ms_Begin _ _ := Ok tt;
  ms_Commit _ := Ok tt;
  GetInfo k m := match toy_view m !! k with
                 | Some e => Ok (e_id e, e_info e, e_usage e) | None => Err toy_not_found end;
  GetSnapshot k m := match toy_view m !! k with
                     | Some e => match toy_chain (base.size (toy_view m)) (toy_view m) (e_parent e) with
                                 | Some ids => Ok (mkSnapshot (e_kind e) (e_id e) ids) | None => Err toy_refused end
                     | None => Err toy_not_found end;
  UpdateInfo i _ m :=
    toy_keep i (alter (λ e, mkEntry (e_id e) (e_seq e) (mkInfo (e_kind e) (Info_Name (e_info e)) (e_parent e) (Info_Labels i)) (e_usage e))
                  (Info_Name i) (toy_view m)) m;
  storage_CreateSnapshot := toy_create;
  CommitActive := toy_commit;
  storage_Remove k m := match toy_view m !! k with
                        | Some e => toy_keep (e_id e, e_kind e) (delete k (toy_view m)) m | None => (Err toy_not_found, m) end;
  storage_IDMap m := Ok (toy_IDs (toy_view m));
  WalkInfo m := Ok ((λ x : string * entry, e_info x.2) <$> map_to_list (toy_view m));
  ms_Close m := (Ok tt, m);
  snapshots_WithLabels l base := Ok (l ∪ base)
|}.

Lemma store_ok_spec v k e : store_ok v = true → v !! k = Some e → entry_ok v k e = true.
Proof.
  unfold store_ok. intros H He. rewrite forallb_forall in H. apply (H (k, e)). by apply list_elem_of_In, elem_of_map_to_list.
Qed.
Lemma toy_view_ok m k e : toy_view m !! k = Some e → entry_ok (toy_view m) k e = true.
Proof. unfold toy_view. destruct (store_ok (ents m)) eqn:E; [by apply store_ok_spec|done]. Qed.
Lemma toy_keep_view {A} (a x : A) v m m' : toy_keep a v m = (Ok x, m') → toy_view m' = v.
Proof. unfold toy_keep. destruct (store_ok v) eqn:E; [|done]. intros [= _ <-]. unfold toy_view. cbn. by rewrite E. Qed.
Lemma toy_keep_err {A} (a : A) v m e : (toy_keep a v m).1 = Err e → e = toy_refused.
Proof. unfold toy_keep. destruct (store_ok v); [done|]. by intros [= <-]. Qed.

Ltac split_ok H := unfold entry_ok in H; rewrite !andb_true_iff in H; destruct H as [[[[[Hk0 Hname0] Hund0] Hid0] Hinj0] Hpar0].

Lemma toy_chain_spec n v k ids : toy_chain n v k = Some ids → chain_ids v k ids.
Proof.
  revert k ids. induction n as [|n IH]; intros k ids; cbn [toy_chain]; (destruct (String.eqb_spec k "") as [->|Hk]; [intros [= <-]; constructor|]); [done|].
  destruct (v !! k) as [e|] eqn:He; [|done]. cbn. destruct (toy_chain n v (e_parent e)) as [ids'|] eqn:E; [|done].
  cbn. intros [= <-]. constructor; auto.
Qed.
Lemma toy_inj m k k' e e' : toy_view m !! k = Some e → toy_view m !! k' = Some e' → e_id e = e_id e' → k = k'.
Proof.
  intros He He' Heq. apply toy_view_ok in He as H. split_ok H. rewrite forallb_forall in Hinj0.
  specialize (Hinj0 (k', e')). rewrite <-list_elem_of_In, elem_of_map_to_list in Hinj0. specialize (Hinj0 He').
  cbn in Hinj0. rewrite Heq, String.eqb_refl in Hinj0. by apply String.eqb_eq in Hinj0.
Qed.
Lemma toy_IDs_spec m id k : toy_IDs (toy_view m) !! id = Some k ↔ ∃ e, toy_view m !! k = Some e ∧ e_id e = id.
Proof.
  unfold toy_IDs. rewrite <-elem_of_list_to_map.
  - rewrite list_elem_of_fmap. split.
    + intros ([k' e] & [= -> ->] & He%elem_of_map_to_list). by exists e.
    + intros (e & He & <-). exists (k, e). split; [done|]. by apply elem_of_map_to_list.
  - rewrite <-list_fmap_compose. apply NoDup_fmap_2_strong; [|apply NoDup_map_to_list].
    intros [k1 e1] [k2 e2] H1%elem_of_map_to_list H2%elem_of_map_to_list Heq. cbn in Heq.
    assert (k1 = k2) as -> by (by eapply toy_inj). by rewrite H1 in H2; injection H2 as ->.
Qed.

Lemma toy_create_spec kind k parent opts m :
  match toy_create kind k parent opts m with
  | (Ok sn, m') => toy_view m !! k = None ∧
      ∃ l e, apply_opts ∅ opts = Ok l ∧ toy_view m' = <[k := e]> (toy_view m) ∧
        e_info e = mkInfo kind k parent l ∧ e_id e = Snap_ID sn ∧ Snap_Kind sn = kind ∧
        chain_ids (toy_view m) parent (ParentIDs sn) ∧ map_Forall (λ _ e', e_id e' ≠ Snap_ID sn) (toy_view m)
  | (Err er, _) => IsAlreadyExists er = true → is_Some (toy_view m !! k)
  | (Panic, _) => False
  end.
Proof.
  unfold toy_create. destruct (toy_view m !! k) eqn:Ek; [by eexists|].
  destruct (apply_opts ∅ opts) as [l|e|]; [|done..]. destruct (toy_chain _ _ _) as [ids|] eqn:Ech; [|done].
  destruct (forallb _ _) eqn:Ef; [|done]. set (e := mkEntry _ _ _ _).
  pose proof (toy_keep_view (mkSnapshot kind (toy_id (next m)) ids) (mkSnapshot kind (toy_id (next m)) ids) (<[k:=e]> (toy_view m)) m) as Hv.
  unfold toy_keep in *. destruct (store_ok _); [|done]. split; [done|]. exists l, e. split_and!; try done.
  - by apply Hv.
  - by eapply toy_chain_spec.
  - intros k' e' He' Heq. rewrite forallb_forall in Ef. specialize (Ef (k', e')).
    rewrite <-list_elem_of_In, elem_of_map_to_list in Ef. specialize (Ef He'). cbn in Ef, Heq. by rewrite Heq, String.eqb_refl in Ef.
Qed.

Lemma toy_commit_spec k name u opts m :
  match toy_commit k name u opts m with
  | (Ok _, m') => toy_view m !! name = None ∧
      ∃ l e, apply_opts ∅ opts = Ok l ∧ toy_view m !! k = Some e ∧ e_kind e = KindActive ∧
        toy_view m' = <[name := committed_as name u l e]> (delete k (toy_view m))
  | (Err er, _) => IsAlreadyExists er = true → is_Some (toy_view m !! name)
  | (Panic, _) => False
  end.
Proof.
  unfold toy_commit. destruct (toy_view m !! name) eqn:En; [by eexists|].
  destruct (toy_view m !! k) as [e|] eqn:Ek; [|done]. destruct (apply_opts ∅ opts) as [l|er|]; [|done..].
  case_bool_decide as Hk; [|done].
  pose proof (toy_keep_view (e_id e) (e_id e) (<[name := committed_as name u l e]> (delete k (toy_view m))) m) as Hv.
  unfold toy_keep in *. destruct (store_ok _); [|done]. split; [done|]. exists l, e. split_and!; try done. by apply Hv.
Qed.

#[global] Instance toy_laws : MetaStoreLaws toy_store.
Proof.
  refine (Build_MetaStoreLaws toy_store toy_MetaStore toy_view _ _ _ _ _ _ _ _ _ _ _ _ _ _ _ _ _).
  - intros m k e H%toy_view_ok. split_ok H. split; [by apply String.eqb_neq, negb_true_iff|by apply String.eqb_eq].
  - intros m k e H%toy_view_ok. split_ok H. split; [done|by apply String.eqb_neq, negb_true_iff].
  - apply toy_inj.
  - intros m k e H%toy_view_ok Hp. split_ok H. apply String.eqb_neq in Hp. rewrite Hp in Hpar0. cbn [orb] in Hpar0.
    destruct (toy_view m !! e_parent e) as [p|]; [|done]. exists p. rewrite andb_true_iff, bool_decide_eq_true in Hpar0.
    destruct Hpar0. split_and!; [done..|lia].
  - done.
  - done.
  - done.
  - intros k m. cbn. destruct (toy_view m !! k); [done|]. by exists toy_not_found.
  - intros k m sn. cbn. destruct (toy_view m !! k) as [e|] eqn:E; [|done].
    destruct (toy_chain _ _ _) as [ids|] eqn:Ec; [|done]. intros [= <-]. exists e. split_and!; [done..|]. by eapply toy_chain_spec.
  - intros i fps m. cbn. unfold toy_keep. by destruct (store_ok _).
  - intros i fps m r m' H%toy_keep_view. by exists (Info_Labels i).
  - apply toy_create_spec.
  - apply toy_commit_spec.
  - intros k m. cbn. destruct (toy_view m !! k) as [e|] eqn:Ek; [|done].
    pose proof (toy_keep_view (e_id e, e_kind e) (e_id e, e_kind e) (delete k (toy_view m)) m) as Hv.
    unfold toy_keep in *. destruct (store_ok _); [|done]. split; [by eexists|by apply Hv].
  - intros m id k. apply toy_IDs_spec.
  - intros m i. rewrite list_elem_of_fmap. split.
    + intros ([k e] & -> & He%elem_of_map_to_list). by exists k, e.
    + intros (k & e & He & <-). exists (k, e). split; [done|]. by apply elem_of_map_to_list.
  - done.
Defined.

(** ** The service

    It can fail to mount the layers of some directories, to check them, to measure them and
    to clean up an image. *)
Record toy_fs := mkToyFs { no_mount : list string; no_check : list string; no_usage : list string; no_clean : bool; asked_for : list string }.

Definition toy_ask (bad : toy_fs → bool) (d : string) : ST (host toy_fs) () := λ h,
  let f := fsys h in
  let h' := mkHost (tree h) (mkToyFs (no_mount f) (no_check f) (no_usage f) (no_clean f) (d :: asked_for f)) (faults h) (clock h) in
  (if bad f then Err (ErrorString "refused") else Ok tt, h').
Definition inb (d : string) (ds : list string) : bool := existsb (String.eqb d) ds.

(** A parallel mount that fails has removed the directory it was to replace. *)
Definition toy_rebase (p : path) : ST (host toy_fs) () := λ h,
  match toy_ask (λ f, inb (p_entry p) (no_mount f)) (p_entry p) h with
  | (Err e, h') => (Err e, set_tree (alter (delete (p_sub p)) (p_entry p) (tree h')) h')
  | r => r
  end.

#[global] Instance toy_FileSystem : FileSystem toy_fs := {|
  fs_Mount _ p _ := toy_ask (λ f, inb (p_entry p) (no_mount f)) (p_entry p);
  fs_Check p _ := toy_ask (λ f, inb (p_entry p) (no_check f)) (p_entry p);
  fs_Unmount p := toy_ask (λ _, false) (p_entry p);
  fs_MountLocal _ p _ _ := toy_ask (λ _, false) (p_entry p);
  fs_MountParallel _ p _ _ := toy_rebase p;
  fs_IDMapMount p _ _ := toy_ask (λ _, false) (p_entry p);
  fs_IDMapMountLocal p _ _ := toy_ask (λ _, false) (p_entry p);
  fs_CleanImage d := toy_ask no_clean d;
  DiskUsage p := st_bind (toy_ask (λ f, inb (p_entry p) (no_usage f)) (p_entry p)) (λ _, st_ret (mkUsage 1 4096));
  Mounted _ := st_ret true;
  GetMounts := st_ret ["/run/soci/snapshots/i/fs"; "/proc"];
  syscall_Unmount mp := toy_ask (λ _, false) mp;
  RemapRootFS _ _ := st_ret tt;
  RemapRoot _ _ := st_ret tt
|}%string.

Lemma toy_rebase_laws p h :
  same_dirs h (toy_rebase p h).2 (λ d, d = p_entry p) ∧
  (is_Some (tree h !! p_entry p) → is_Some (tree (toy_rebase p h).2 !! p_entry p)) ∧
  ∀ sub, has h (p_entry p) sub → (sub = p_sub p → is_ok (toy_rebase p h).1 = true) → has (toy_rebase p h).2 (p_entry p) sub.
Proof.
  unfold toy_rebase, toy_ask. destruct (inb _ _); cbn [fst snd tree set_tree is_ok]; [|done]. split_and!.
  - intros d Hd. cbn [tree set_tree]. by rewrite lookup_alter_ne.
  - intros [subs Hs]. rewrite lookup_alter_eq, Hs. by eexists.
  - intros sub. unfold has. cbn [tree set_tree]. rewrite lookup_alter_eq. destruct (tree h !! p_entry p) as [subs|]; [|by intros []].
    cbn. intros Hs Hn. rewrite lookup_delete_ne; [done|]. intros E. by specialize (Hn (eq_sym E)).
Qed.

#[global] Instance toy_fs_laws : FileSystemLaws toy_fs.
Proof.
  assert (∀ bad d, quiet (toy_ask bad d)) as Hq by (by intros bad d h).
  constructor; try (intros; apply Hq); try (by intros ? h d _); try (by intros ? ? h d _);
    try (intros; by apply toy_rebase_laws).
  - intros p h. cbn. unfold st_bind, toy_ask. by destruct (inb _ _); apply same_tree.
  - by intros h d _.
  - intros p id i h d _. apply Hq. by intros [].
  - intros p id i h d _. apply Hq. by intros [].
Qed.

Lemma toy_no_exist : no_exist_errors (M:=toy_store) (F:=toy_fs).
Proof.
  assert (∀ bad d h, foreign "already exists" (toy_ask bad d h).1) as Hf.
  { intros bad d h. unfold toy_ask. cbn. destruct (bad _); [by apply foreign_Err|apply foreign_Ok]. }
  constructor; intros; try apply foreign_Ok; try apply Hf.
  - cbn. destruct (toy_view m !! k); [apply foreign_Ok|by apply foreign_Err].
  - cbn. unfold st_bind, toy_ask. destruct (inb _ _); [by apply foreign_Err|apply foreign_Ok].
  - cbn. unfold toy_rebase, toy_ask. destruct (inb _ _); [by apply foreign_Err|apply foreign_Ok].
Qed.

(** ** Running it

    A fresh snapshotter; containerd pulls an image with one layer, which is mounted lazily,
    and starts a container on it. *)
Definition sn_fresh (f : toy_fs) : state toy_store toy_fs := mkState (mkStore ∅ 0) (mkHost ∅ f (λ _, None) 0%nat) ∅ false.
Definition sn_fs : toy_fs := mkToyFs [] [] [] false [].
Definition sn_config : SnapshotterConfig := mkSC false 0 false false false.
Definition sn_layer : list Opt := [λ l, Ok (<[targetSnapshotLabel := "sha256:layer"%string]> l)].
Definition sn_root : string := "/run/soci".

Definition sn_pull : list sn_op := [OpPrepare (Some "k8s.io"%string) "extract" "" sn_layer; OpPrepare None "container" "sha256:layer" []; OpCleanup].
Definition sn_pulled : state toy_store toy_fs := run_sns sn_root false sn_config sn_pull (sn_fresh sn_fs).

Lemma fresh_live X f : live X (sn_fresh f).
Proof. intros k e He. change ((∅ : gmap string entry) !! k = Some e) in He. by rewrite lookup_empty in He. Qed.

Definition label_value (l : string) (x : option entry) : option string := e ← x; Info_Labels (e_info e) !! l.
Example pull_runs :
  (label_value remoteLabel (view (ms sn_pulled) !! "sha256:layer"%string), view (ms sn_pulled) !! "extract"%string,
   e_parent <$> view (ms sn_pulled) !! "container"%string, size (tree (hst sn_pulled)), asked_for (fsys (hst sn_pulled)))
  = (Some "remote snapshot"%string, None, Some "sha256:layer"%string, 2%nat, ["i"; "i"]%string).
Proof. vm_compute. reflexivity. Qed.

Lemma live_snapshots_keep_directories_witness :
  match view (ms sn_pulled) !! "container"%string with
  | Some e => is_Some (tree (hst sn_pulled) !! e_id e) ∧ has (hst sn_pulled) (e_id e) "fs" ∧
      (e_kind e = KindActive → has (hst sn_pulled) (e_id e) "work")
  | None => False
  end.
Proof.
  destruct (view (ms sn_pulled) !! "container"%string) as [e|] eqn:E; [|vm_compute in E; discriminate E].
  destruct (live_snapshots_keep_directories sn_root false sn_config sn_pull (sn_fresh sn_fs) "container" e (fresh_live _ sn_fs) E)
    as (H0 & H1 & H2). split; [exact H0|]. split; [|exact H2]. apply H1. intros (ps1 & p & ps2 & _ & Hp).
  destruct p; [|exact Hp..]. destruct Hp as [Hp _]. discriminate Hp.
Defined.

(** A parallel pull that fails: [Prepare] reports the error, the snapshot it has made stays
    active, without the directory for its layer. *)
Definition par_config : SnapshotterConfig := mkSC false 0 false true false.
Definition par_failed := Prepare sn_root false par_config (Some "k8s.io"%string) "extract" "" sn_layer (sn_fresh (mkToyFs ["i"%string] [] [] false [])).
Example failed_parallel_pull :
  (par_failed.1, e_kind <$> view (ms par_failed.2) !! "extract"%string, map_to_list <$> tree (hst par_failed.2) !! "i"%string)
  = (Err (ErrorString "refused"), Some KindActive, Some [("work"%string, (0, 0))]).
Proof. vm_compute. reflexivity. Qed.

Lemma Prepare_answers_witness :
  match Prepare sn_root false sn_config (Some "k8s.io"%string) "extract" "" sn_layer (sn_fresh sn_fs) with
  | (Ok _, s') => ∃ e, view (ms s') !! "extract"%string = Some e ∧
      e_info e = mkInfo KindActive "extract" "" {[targetSnapshotLabel := "sha256:layer"%string]} ∧
      has (hst s') (e_id e) "fs" ∧ has (hst s') (e_id e) "work"
  | (Err e, s') => IsAlreadyExists e = true → is_Some (view (ms s') !! "sha256:layer"%string)
  | (Panic, _) => True
  end.
Proof.
  apply (Prepare_answers sn_root false sn_config toy_no_exist (λ _, False) (Some "k8s.io"%string) "extract" "" sn_layer
    {[targetSnapshotLabel := "sha256:layer"%string]} "sha256:layer" (sn_fresh sn_fs)).
  - apply fresh_live.
  - reflexivity.
  - reflexivity.
  - reflexivity.
Defined.

(** A layer that is too small is unpacked locally, and labelled as one with an index. *)
Definition small_config : SnapshotterConfig := mkSC false 1000 false false false.
Definition small_labels : labels := <[TargetSizeLabel := "999"%string]> {[targetSnapshotLabel := "sha256:layer"%string]}.
Definition small_layer : list Opt := [λ l, Ok (small_labels ∪ l)].
Definition small_prepared := Prepare sn_root false small_config (Some "k8s.io"%string) "extract" "" small_layer (sn_fresh sn_fs).

Example small_layer_labels :
  (label_value remoteLabel (view (ms small_prepared.2) !! "sha256:layer"%string),
   label_value HasSociIndexDigest (view (ms small_prepared.2) !! "sha256:layer"%string)) = (None, Some "true"%string).
Proof. vm_compute. reflexivity. Qed.

Lemma Prepare_provides_witness :
  ∃ sn s1 w e u, createSnapshot KindActive "extract" "" small_layer (sn_fresh sn_fs) = (Ok sn, s1) ∧
    e_id e = Snap_ID sn ∧ e_parent e = ""%string ∧
    done_by sn_root false small_config w sn (Some "k8s.io"%string) "extract" "" (e_id e) (<[TargetNamespace := "k8s.io"%string]> small_labels) s1 ∧
    view (ms small_prepared.2) !! "sha256:layer"%string =
      Some (committed_as "sha256:layer" u (labels_of w (<[TargetNamespace := "k8s.io"%string]> small_labels)) e).
Proof.
  eapply (Prepare_provides sn_root false small_config toy_no_exist (λ _, False) "k8s.io" "extract" "" small_layer small_labels "sha256:layer"
    (sn_fresh sn_fs) small_prepared.2 (Wrap "target snapshot" errdefs_ErrAlreadyExists)).
  - apply fresh_live.
  - reflexivity.
  - reflexivity.
  - discriminate.
  - reflexivity.
  - reflexivity.
  - change (small_prepared = (Err (Wrap "target snapshot" errdefs_ErrAlreadyExists), small_prepared.2)).
    rewrite (surjective_pairing small_prepared) at 1. f_equal.
  - reflexivity.
Defined.

Lemma checkAvailability_exact_witness :
  ∃ es, chain (view (ms sn_pulled)) "container" es ∧
    checkAvailability "container" sn_pulled =
      (Ok (forallb id (run_checks es (hst sn_pulled)).1), set_hst (run_checks es (hst sn_pulled)).2 sn_pulled).
Proof.
  apply checkAvailability_exact.
  - intros p l h. cbn. by destruct (inb _ _).
  - destruct (view (ms sn_pulled) !! "container"%string) as [e|] eqn:E; [by exists e|]. vm_compute in E. discriminate E.
  - reflexivity.
Defined.

Lemma restore_brings_back_witness :
  let s' := (restoreRemoteSnapshot sn_root sn_config sn_pulled).2 in
  grows sn_pulled s' ∧
  ∀ k e, view (ms sn_pulled) !! k = Some e → is_Some (Info_Labels (e_info e) !! remoteLabel) → remounted sn_config s' e.
Proof.
  apply (restore_brings_back sn_root sn_config sn_pulled (restoreRemoteSnapshot sn_root sn_config sn_pulled).2).
  rewrite (surjective_pairing (restoreRemoteSnapshot sn_root sn_config sn_pulled)) at 1. f_equal.
Defined.

Definition usage_fails : toy_fs := mkToyFs [] [] ["i"%string] false [].
Definition with_container (f : toy_fs) : state toy_store toy_fs :=
  (Prepare sn_root false sn_config None "container" "" [] (sn_fresh f)).2.

Lemma failed_usage_blocks_writes_witness :
  ∃ s', Commit "image" "container" [] (with_container usage_fails) = (Err (ErrorString "refused"), s') ∧
    ms s' = ms (with_container usage_fails) ∧ ∀ op, writes sn_root false sn_config op → op s' = (Panic, s').
Proof.
  destruct (view (ms (with_container usage_fails)) !! "container"%string) as [e|] eqn:E; [|vm_compute in E; discriminate E].
  apply (failed_usage_blocks_writes sn_root false sn_config "image" "container" [] (with_container usage_fails) e (ErrorString "refused")
    (DiskUsage (upperPath (e_id e)) (hst (with_container usage_fails))).2).
  - vm_compute. reflexivity.
  - reflexivity.
  - exact E.
  - vm_compute in E. injection E as <-. vm_compute. reflexivity.
Defined.

Definition clean_fails : toy_fs := mkToyFs [] [] [] true [].
Definition removed_in_tx := write_tx (remove_in_tx sn_config "container") (with_container clean_fails).

Lemma Remove_fails_after_removal_witness :
  ∃ e h, Remove sn_config "container" (with_container clean_fails)
         = (Err (Wrap "error cleaning image operations" (ErrorString "refused")), set_hst h removed_in_tx.2) ∧
    view (ms removed_in_tx.2) = delete "container"%string (view (ms (with_container clean_fails))) ∧ is_Some (tree h !! e_id e).
Proof.
  destruct (view (ms (with_container clean_fails)) !! "container"%string) as [e|] eqn:E; [|vm_compute in E; discriminate E].
  destruct removed_in_tx.1 as [[info ds]|er|] eqn:Er; [|vm_compute in Er; discriminate Er..].
  exists e, (fs_CleanImage (default "" (Info_Labels info !! TargetManifestDigestLabel))%string (hst removed_in_tx.2)).2.
  apply (Remove_fails_after_removal sn_config (λ _, False) "container" (with_container clean_fails) e info ds removed_in_tx.2 (ErrorString "refused")).
  - eapply live_mono; [apply (run_sn_live sn_root false sn_config (λ _, False) (OpPrepare None "container" "" [])), fresh_live|].
    intros d [[]|[Hp _]]. discriminate Hp.
  - exact E.
  - rewrite <-Er. apply surjective_pairing.
  - reflexivity.
Defined.
