(* ===== verification/UnpackExamples.v ===== *)
(** * Examples and witnesses for fetching and unpacking

    A world with a local store that verifies what is pushed, a registry with a few blobs, and
    an archive that records what was applied to the directory. *)
From Stdlib Require Import ZArith Lia Ascii.
From stdpp Require Import base list gmap strings numbers.
From S2P Require Import Prelude GoLib Regions Remote Ztoc ZtocBuilder IDMap Oci ArtifactsDb SociIndex SnapshotHost Snapshot.
From S2P Require Import UnpackJobs UnpackFacts Fetch FetchFacts Unpack Examples SociExamples.
#[local] Open Scope Z_scope.

(** ** Jobs *)
Definition job_rng : rng := mkRng (λ n, Z.of_nat n * 7) 0.
Definition job_host : disk := mkHost ∅ job_rng (λ _, None) 0.
Definition job_cfg : Parallel := mkParallel true false 4 2 100 4 2 false.
Definition jobs0 : unpackJobs := mkJobs job_cfg (Some 4) (Some 4) ∅ ∅ ∅ 0 ∅ 5 job_host.
Lemma jobs0_new : newUnpackJobs job_cfg 5 job_host = Ok jobs0.
Proof. reflexivity. Qed.
Definition jobs1 : unpackJobs := (GetOrAddImageJob "img" 9 jobs0).2.
Definition jobs2 : unpackJobs := (AddLayerJob 0 "lay" jobs1).2.
Definition jobs3 : unpackJobs := (Claim "img" "lay" jobs2).2.

Lemma jobs2_reachable : rtc step (mkSystem jobs0 GIdle []) (mkSystem jobs2 GIdle []).
Proof.
  eapply rtc_l; [eapply (step_op (OGetOrAdd "img" 9)); [reflexivity|done]|].
  eapply rtc_l; [eapply (step_op (OAdd 0 "lay")); [vm_compute; reflexivity|done]|]. vm_compute. apply rtc_refl.
Qed.
Lemma jobs2_tracked : is_tracked jobs2 1.
Proof. exists "img", 0%nat. vm_compute. eexists _, "lay", [1%nat]. split_and!; [reflexivity..|]. constructor. Qed.

Lemma tracked_jobs_keep_directories_witness :
  is_tracked jobs2 1 ∧ ∃ j, layer_jobs jobs2 !! 1%nat = Some j ∧ is_Some (tree (storage jobs2) !! layerUnpackID j).
Proof.
  split; [exact jobs2_tracked|].
  destruct (tracked_jobs_keep_directories job_cfg 5 job_host jobs0 (mkSystem jobs2 GIdle []) 1 jobs0_new (λ _, eq_refl) jobs2_reachable jobs2_tracked)
    as (j & Hj & Hd & _).
  exists j. split; [exact Hj|exact Hd].
Defined.

Lemma jobs3_reachable : rtc step (mkSystem jobs0 GIdle []) (mkSystem jobs3 GIdle [1%nat]).
Proof.
  eapply rtc_r; [exact jobs2_reachable|]. apply (step_claim "img" "lay" jobs2 GIdle [] 1 jobs3). vm_compute. reflexivity.
Qed.
Lemma claims_exclusive_witness : (Claim "img" "lay" jobs3).1 = Err ErrNoClaimableLayerJobs ∧ NoDup [1%nat].
Proof.
  split; [vm_compute; reflexivity|].
  exact (claims_exclusive job_cfg 5 job_host jobs0 (mkSystem jobs3 GIdle [1%nat]) jobs0_new (λ _, eq_refl) jobs3_reachable).
Defined.

Lemma jobs0_wf : wf jobs0.
Proof. exact (ok_wf _ (new_ok job_cfg 5 job_host jobs0 jobs0_new (λ _, eq_refl))). Qed.
Definition removed1 : unpackJobs := (RemoveImageWithError "img" io_EOF jobs1).2.
Definition removed_job : imageUnpackJob := newImageUnpackJob "img" 9 jobs0.
Definition removed_layer : outcome layerUnpackJob * disk := newLayerUnpackJob "lay" removed_job (storage removed1).
Lemma AddLayerJob_after_removal_panics_witness : (AddLayerJob 0 "lay" removed1).1 = Panic.
Proof.
  refine (AddLayerJob_after_removal_panics "img" 9 io_EOF "lay" jobs0 0 jobs1 removed1 removed_job
            (match removed_layer.1 with Ok j => j | _ => mkLayerJob "" 0 0 "" "" None LayerUnpackJobDone end) removed_layer.2
            jobs0_wf eq_refl _ _ _); vm_compute; reflexivity.
Defined.

Definition stray_tree := <["stray" := ∅]> (tree (storage jobs2)).
Definition jobs_stray : unpackJobs := set_storage (set_tree stray_tree (storage jobs2)) jobs2.
Lemma jobs_stray_reachable : rtc step (mkSystem (set_storage (set_tree {["stray" := ∅]} job_host) jobs0) GIdle []) (mkSystem jobs_stray GIdle []).
Proof.
  eapply rtc_l; [eapply (step_op (OGetOrAdd "img" 9)); [reflexivity|done]|].
  eapply rtc_l; [eapply (step_op (OAdd 0 "lay")); [vm_compute; reflexivity|done]|]. vm_compute. apply rtc_refl.
Qed.
Lemma jobs_stray_wf : wf jobs_stray.
Proof.
  exact (ok_wf _ (reachable_ok job_cfg 5 (set_tree {["stray" := ∅]} job_host) _ _ eq_refl (λ _, eq_refl) jobs_stray_reachable)).
Qed.
Lemma gc_round_exact_witness :
  is_Some (tree (storage jobs_stray) !! "stray") ∧ ∃ s', gc_round jobs_stray = (Ok tt, s') ∧ tree (storage s') = tree (storage jobs2).
Proof.
  assert (fresh_enough jobs_stray) as Hf.
  { intros x j _ Hj. destruct (decide (x = 1%nat)) as [->|Hx]; [vm_compute in Hj; injection Hj as <-; vm_compute; done|].
    change (layer_jobs jobs_stray) with (layer_jobs jobs2) in Hj. assert (dom (layer_jobs jobs2) = {[1%nat]}) as Hd by (vm_compute; reflexivity).
    apply elem_of_dom_2 in Hj. rewrite Hd in Hj. exfalso. apply elem_of_singleton in Hj. exact (Hx Hj). }
  split; [exists ∅; vm_compute; reflexivity|]. destruct (gc_round_exact jobs_stray jobs_stray_wf Hf) as (s' & Hs & _). exists s'. split; [exact Hs|].
  vm_compute in Hs. injection Hs as <-. vm_compute. reflexivity.
Defined.

(** ** The world *)
Record world := mkWorld { w_local : gmap string bytes; w_applied : list (apply_dir * bytes) }.
Definition w_layer : bytes := [Byte.x01; Byte.x02; Byte.x03; Byte.x04; Byte.x05].
Definition w_blob : bytes := [Byte.x07; Byte.x08].
Definition w_layer_desc : Descriptor := content_desc MediaTypeImageLayer "sha256:5" 5.
Definition w_blob_desc : Descriptor := content_desc SociLayerMediaType "sha256:2" 2.
Definition w_index : Index := NewIndex V1 [w_blob_desc] None ∅.
Definition w_index_bytes : bytes := match MarshalIndex w_index with Ok b => b | _ => [] end.
Definition w_index_desc : Descriptor := content_desc "" (digest_FromBytes w_index_bytes) (zlen w_index_bytes).
Definition w_registry : gmap string bytes :=
  <["sha256:5" := w_layer]> (<["sha256:2" := w_blob]> {[d_Digest w_index_desc := w_index_bytes]}).

(** Verifies what is pushed. *)
#[global] Instance world_store : Store world := {|
  s_Exists d w := (Ok (bool_decide (is_Some (w_local w !! d_Digest d))), w);
  s_Fetch d w := (match w_local w !! d_Digest d with Some c => Ok c | None => Err errdefs_ErrNotFound end, w);
  s_Push d c w :=
    if bool_decide (is_Some (w_local w !! d_Digest d)) then (Err errdefs_ErrAlreadyExists, w)
    else if String.eqb (digest_FromBytes c) (d_Digest d) then (Ok tt, mkWorld (<[d_Digest d := c]> (w_local w)) (w_applied w))
    else (Err (ErrorString "mismatched digest"), w);
  s_Label _ _ _ w := (Ok tt, w);
  s_Delete k w := (Ok tt, mkWorld (delete k (w_local w)) (w_applied w));
  s_BatchOpen w := (Ok tt, w);
  s_BatchDone w := w |}.
#[global] Instance world_content : StoreContent world.
Proof.
  refine (Build_StoreContent world world_store length_digest w_local _ _ _ _ _); [| |done..].
  - intros d w. cbn. destruct (w_local w !! d_Digest d); (split; [done|]); naive_solver.
  - intros d b w. cbn. case_bool_decide as Hd; [done|]. destruct (String.eqb_spec ("sha256:" +:+ FormatInt (zlen b)) (d_Digest d)); [|done].
    split; [|split; [apply lookup_insert_eq|done]]. apply insert_subseteq. by apply eq_None_not_Some.
Defined.

(** The registry has one layer, which it answers in ranges too. *)
Definition w_RoundTrip (req : request) : ST world response := λ w,
  (Ok (match req_range req with
       | [r] => mkResponse 206 None ct_none None (sub (rb r) (re r + 1) w_layer) [] "" (req_url req)
       | _ => mkResponse 200 (Some 5) ct_none None w_layer [] "" (req_url req)
       end), w).
#[global] Instance world_registry : RegistryEnv world := {|
  RoundTrip := w_RoundTrip;
  Repository_Fetch _ d w := (match w_registry !! d_Digest d with Some b => Ok (b, None) | None => Err errdefs_ErrNotFound end, w);
  Referrers _ _ _ w := (Ok [[w_index_desc]], w);
  NewRepository l := Ok l;
  MatchLocalhost _ := Ok false;
  ParseReference s := Ok ("host", "repo", "sha256:5");
  ref_Digest d := Ok d;
  DefaultScheme _ := "https";
  header_AcceptRanges _ := "bytes";
  header_MediaType _ := "";
  as_ErrorResponse _ := None;
  as_urlError _ := false |}.
#[global] Instance world_files : FileEnv world := {|
  os_call _ w := (Ok tt, w);
  AcquireDownload w := (Ok tt, w);
  ReleaseDownload w := w |}.
#[global] Instance world_archive : ArchiveEnv world := {|
  archive_Apply d _ r w := (Ok (zlen r.1), mkWorld (w_local w) ((d, r.1) :: w_applied w));
  DecompressStream r := Ok [(r.1, r.2)];
  Verifier_Verified d b := String.eqb (digest_FromBytes b) d;
  AcquireUnpackLease w := (Ok tt, w);
  release_unpack w := w;
  VerifyUnpackDestinationIsReady w := (Ok tt, w) |}.
#[global] Instance world_log : ApplyLog world.
Proof.
  refine (Build_ApplyLog world _ _ _ _ w_applied _ _ _ _ _ _ _ _ _ _ _); try done.
  - by intros d ps r e n e' [= _ <-].
  - intros d b e. cbn. destruct (bool_decide _); [done|]. by destruct (String.eqb _ _).
Defined.

(** ** Chunks *)
Definition w_repo : Repository := mkRepo "host/repo" false.
Definition w_spec : reference_Spec := mkSpec "host/repo" "latest" "host".
Definition w_fetcher : parallelArtifactFetcher world := newParallelArtifactFetcher (mkAF (orasBlobStore w_repo) w_spec) 2 true.
Definition w0 : pstate world := mkP (mkWorld ∅ []) None None.
Definition w_download : outcome bytes * pstate world := fetchFromRemoteAndWriteToTempDir w_fetcher w_layer_desc reverse w0.

Lemma chunked_download_exact_witness : w_download.1 = Ok w_layer ∧ p_ingest w_download.2 = Some w_layer.
Proof.
  destruct (chunked_download_exact w_fetcher w_layer_desc w_layer w_repo eq_refl ltac:(vm_compute; reflexivity) reverse w0 w_layer w_download.2)
    as (_ & Hi & _).
  - intros ref lower upper e b e' Hl Hu. unfold FetchRange, GetContentWithRange, st_bind, st_lift, st_map_err. cbn [ParseReference world_registry].
    destruct (Z.ltb_spec lower 0); [lia|]. destruct (Z.ltb_spec upper lower); [lia|]. cbn. by intros [= <- <-].
  - intros e rc e'. cbn [remote_Fetch remoteStore paf w_fetcher newParallelArtifactFetcher orasBlobStore]. unfold blob_Fetch, st_map_err.
    cbn [Repository_Fetch world_registry w_layer_desc d_Digest content_desc].
    assert (w_registry !! "sha256:5" = Some w_layer) as -> by (vm_compute; reflexivity). intros [= <- <-] _. reflexivity.
  - intros r [= <-]. reflexivity.
  - intros l. apply reverse_Permutation.
  - vm_compute. reflexivity.
  - split; [vm_compute; reflexivity|exact Hi].
Defined.

(** ** Artifacts *)
Definition w_fetch_index : outcome Index * world :=
  FetchSociArtifacts w_spec w_index_desc (orasBlobStore w_repo) "now" reverse (mkWorld ∅ []).
Lemma w_quiet_resolve ref e : content (remote_Resolve (orasBlobStore w_repo) ref e).2 = content e.
Proof. reflexivity. Qed.
Lemma w_quiet_fetch d e : content (remote_Fetch (orasBlobStore w_repo) d e).2 = content e.
Proof. reflexivity. Qed.
Lemma w_readable d e rc : (remote_Fetch (orasBlobStore w_repo) d e).1 = Ok rc → readable rc.
Proof.
  cbn [remote_Fetch orasBlobStore]. unfold blob_Fetch, st_map_err. cbn [Repository_Fetch world_registry].
  destruct (w_registry !! d_Digest d); cbn [map_err fst]; [|discriminate]. intros [= <-] er. discriminate.
Qed.
Lemma artifacts_in_store_witness :
  w_fetch_index.1 = Ok w_index ∧ holds w_blob_desc w_fetch_index.2 ∧
  ∃ b local e1, Fetch (mkAF (orasBlobStore w_repo) w_spec) w_index_desc (mkWorld ∅ []) = (Ok ((b, None), local), e1) ∧ DecodeIndex (Ok b) = Ok w_index.
Proof.
  assert (w_fetch_index.1 = Ok w_index) as Hok by (vm_compute; reflexivity). split; [exact Hok|].
  destruct (artifacts_in_store w_spec (orasBlobStore w_repo) w_quiet_resolve w_quiet_fetch w_readable w_index_desc "now" reverse
    (mkWorld ∅ []) w_index w_fetch_index.2 reverse_Permutation) as [Hall (b & local & e1 & Hf & Hd & _)].
  - rewrite <-Hok. apply surjective_pairing.
  - split; [exact (List.Forall_inv Hall)|]. exists b, local, e1. split; [exact Hf|exact Hd].
Defined.

(** Two bytes of another layout of an empty index, which the registry has. *)
Definition odd_documents : DocJSON := {|
  manifest_Marshal := code;
  manifest_Unmarshal b := if zlen b =? 2 then Ok (mkManifest 2 MediaTypeImageManifest (i_Config w_index) [] None ∅) else uncode b;
  decodes_as_index b := Ok ();
  ociindex_Marshal := code;
  ociindex_Unmarshal := uncode |}.
Definition odd_desc : Descriptor := content_desc "" "sha256:2" 2.
Definition odd_again : bytes := match @MarshalIndex odd_documents (NewIndex V1 [] None ∅) with Ok b => b | _ => [] end.
Lemma reformatted_index_refused_witness :
  w_registry !! d_Digest odd_desc = Some w_blob ∧
  ∀ i e', FetchSociArtifacts (H1:=odd_documents) w_spec odd_desc (orasBlobStore w_repo) "now" reverse (mkWorld ∅ []) ≠ (Ok i, e').
Proof.
  split; [vm_compute; reflexivity|].
  refine (reformatted_index_refused (H2:=odd_documents) w_spec (orasBlobStore w_repo) w_quiet_resolve w_quiet_fetch w_readable odd_desc "now" reverse
    (mkWorld ∅ []) (mkWorld ∅ []) (mkWorld ∅ []) w_blob (NewIndex V1 [] None ∅) odd_again _ _ _ _ _ _ _); vm_compute; (reflexivity || discriminate).
Defined.

(** ** Unpacking *)
Definition w_archive (c : option asyncVerifier) : layerArchive := NewLayerArchive c (Some (newAsyncVerifier "sha256:5")) None.
Definition w_dir : apply_dir := JobDir (mkPath "key" "fs").
Definition w_unpacked : outcome () * pstate world :=
  parallel_Unpack w_fetcher (w_archive (Some (newAsyncVerifier "sha256:5"))) false false reverse w_layer_desc w_dir [] w0.
Lemma parallel_unpack_verified_witness :
  w_applied (p_env w_unpacked.2) = [(w_dir, w_layer)] ∧ w_local (p_env w_unpacked.2) !! "sha256:5" = Some w_layer ∧
  ∃ b, applied (p_env w_unpacked.2) = [(w_dir, b)] ∧ Verifier_Verified "sha256:5" b = true.
Proof.
  split; [vm_compute; reflexivity|]. split; [vm_compute; reflexivity|].
  refine (parallel_unpack_verified w_repo w_spec 2 true (w_archive (Some (newAsyncVerifier "sha256:5"))) (newAsyncVerifier "sha256:5") false false reverse
    w_layer_desc w_dir [] w0 w_unpacked.2 _ _).
  - reflexivity.
  - vm_compute. reflexivity.
Defined.

Definition w_stored : pstate world := mkP (mkWorld {["sha256:5" := w_layer]} []) None None.
Lemma discard_refuses_local_layers_witness :
  (parallel_Unpack w_fetcher (w_archive None) true false reverse w_layer_desc w_dir [] w_stored).1 = Ok tt ∧
  ∀ s', parallel_Unpack w_fetcher (w_archive (Some (newAsyncVerifier "sha256:5"))) true false reverse w_layer_desc w_dir [] w_stored ≠ (Ok tt, s').
Proof.
  split; [vm_compute; reflexivity|].
  refine (discard_refuses_local_layers w_fetcher (w_archive (Some (newAsyncVerifier "sha256:5"))) (newAsyncVerifier "sha256:5")
    (newAsyncVerifier "sha256:5") false reverse w_layer_desc w_dir [] w_stored w_layer (mkWorld {["sha256:5" := w_layer]} []) _ _ _ _ _); reflexivity.
Defined.

Lemma unpack_parents_roundtrip_witness :
  mount_parents (mounts_of "/r" true ∅ (mkSnapshot KindActive "3" ["2"; "1"])) = ["/r/snapshots/2/fs"; "/r/snapshots/1/fs"].
Proof.
  refine (unpack_parents_roundtrip "/r" true ∅ (mkSnapshot KindActive "3" ["2"; "1"]) eq_refl _ _); [discriminate|].
  repeat constructor.
Defined.
