(* ===== verification/FsExamples.v ===== *)
(** * Examples and witnesses for layers and the file system service

    A resolver over the blob store of [SociExamples] whose caches hold one entry each, the
    labels of an image of two layers, a service that mounts one layer, and the unpacking of one
    layer over the registry of [UnpackExamples]. *)
From Stdlib Require Import ZArith Lia Strings.Byte Ascii.
From stdpp Require Import base list gmap strings numbers relations.
From S2P Require Import Prelude GoLib Prog Compression GzipZinfo Regions Remote Ztoc ZtocBuilder ZtocMarshal LruCache BlobCache SpanManager IDMap Oci ArtifactsDb Prefetch SociIndex.
From S2P Require Import SnapshotHost Snapshot UnpackJobs UnpackFacts Fetch FetchFacts Unpack LayerResolver LayerFacts LayerThreads LayerPrefetch Source FsIndex FsPreresolve FsMount FsMountFacts FsParallel.
From S2P Require Import Examples SociExamples UnpackExamples.
#[local] Open Scope Z_scope.

(** ** The resolver *)
#[global] Instance blobs_env : ResolverEnv SociExamples.blobs Z := {|
  os_step _ := st_ret tt;
  remote_Resolve _ _ _ := st_ret tt;
  blob_check _ := st_ret tt;
  blob_refresh _ _ _ := st_ret tt;
  blob_Size _ _ := 2048;
  blob_FetchedSize _ _ := 0;
  blob_close _ e := e;
  metadataStore _ _ := st_ret tt;
  spanmanager_New _ _ _ _ := st_ret tt;
  spanManager_ResolveSpan _ _ := st_ret tt;
  prefetch_acquire := st_ret tt;
  prefetch_release e := e;
  bgFetcher_Add _ e := e;
  bgResolver_close _ e := e;
  reader_close _ e := e;
  spanCache_close _ e := e |}.

(** A decoder that knows one document. *)
#[global] Instance table_flatbuf : FlatbufZtoc := {|
  fb_finish _ := None;
  fb_root b := match b with
    | [x01] => Some (mkFbZtoc Version09 "tool" 2048 2048 [] (mkFbCompressionInfo 2 1 ["sha256:1024"; "sha256:1024"] [x00]))
    | _ => None
    end |}.

Definition in_order (l : list Z) : list Z := l.
Definition fs_cfg : FSConfig := mkFSConfig 0 "memory" 0 0 3 true.
Definition soci_desc : Descriptor := content_desc SociLayerMediaType "sha256:ztoc" 100.
Definition fs_env : SociExamples.blobs := {["sha256:ztoc" := [x01]]}.
Abbreviation ex_step := (step (E:=SociExamples.blobs) (L:=lru_state) fs_cfg true in_order).
Abbreviation ex_Resolve name := (Resolve (E:=SociExamples.blobs) (L:=lru_state) (Time:=Z) fs_cfg true in_order name ex_layer soci_desc None).

Definition ex_r0 : resolver SociExamples.blobs lru_state :=
  match NewResolver (mkLRU 1 ∅ []) fs_env with Ok s => s | _ => mkResolver ∅ (LruCache.New (mkLRU 1 ∅ [])) (LruCache.New (mkLRU 1 ∅ [])) ∅ ∅ ∅ ∅ 0 end.
Lemma ex_NewResolver : NewResolver (mkLRU 1 ∅ []) fs_env = Ok ex_r0.
Proof. vm_compute. reflexivity. Qed.
Lemma ex_empty : lru_map (mkLRU 1 ∅ []) = ∅.
Proof. reflexivity. Qed.

(** A goroutine that runs alone, none of whose calls panics. *)
Fixpoint clean {S A} (p : prog S A) (s : S) : bool :=
  match p with
  | Ret _ => true
  | Call m k => match (m s).1 with Panic => false | _ => clean (k (m s).1) (m s).2 end
  end.
Lemma run_alone p rs s : clean p s = true → rtc ex_step (LayerThreads.mkWorld [p] rs s) (LayerThreads.mkWorld [Ret (run p s).1] rs (run p s).2).
Proof.
  revert s. induction p as [o|B m k IH]; intros s Hc; [constructor|]. cbn [clean run] in *.
  eapply rtc_l; [apply (step_call fs_cfg true in_order [Call m k] rs s 0 B m k); [done|by destruct (m s).1]|].
  destruct (m s) as [r s1]. cbn [fst snd] in *. apply IH. by destruct r.
Qed.
Lemma resolve_alone name rs s r s' : clean (ex_Resolve name) s = true → run (ex_Resolve name) s = (Ok r, s') →
  rtc ex_step (LayerThreads.mkWorld [] rs s) (LayerThreads.mkWorld [] (r :: rs) s').
Proof.
  intros Hc Hr. eapply rtc_l; [apply (step_spawn fs_cfg true in_order [] rs s name ex_layer soci_desc None)|].
  cbn [app]. etrans; [by apply run_alone|]. rewrite Hr. cbn [fst snd].
  apply rtc_once, (step_return fs_cfg true in_order [Ret (Ok r)] rs s' 0 r). done.
Qed.

(** Two layers are resolved; the second pushes the first out of the cache. *)
Definition ex_r1 : resolver SociExamples.blobs lru_state := (run (ex_Resolve "a") ex_r0).2.
Definition ex_r2 : resolver SociExamples.blobs lru_state := (run (ex_Resolve "b") ex_r1).2.
Lemma ex_run_a : run (ex_Resolve "a") ex_r0 = (Ok (mkRef 2 0), ex_r1).
Proof. vm_compute. reflexivity. Qed.
Lemma ex_run_b : run (ex_Resolve "b") ex_r1 = (Ok (mkRef 5 1), ex_r2).
Proof. vm_compute. reflexivity. Qed.

Lemma ex_two_layers : rtc ex_step (LayerThreads.mkWorld [] [] ex_r0) (LayerThreads.mkWorld [] [mkRef 5 1; mkRef 2 0] ex_r2).
Proof.
  etrans; [apply (resolve_alone "a" [] ex_r0 (mkRef 2 0) ex_r1); [by vm_compute|exact ex_run_a]|].
  apply (resolve_alone "b" [mkRef 2 0] ex_r1 (mkRef 5 1) ex_r2); [by vm_compute|exact ex_run_b].
Qed.

Lemma layers_in_use_stay_open_witness :
  ∃ l, layers ex_r2 !! 2%nat = Some l ∧ l_closed l = false ∧
    LayerResolver.blobs ex_r2 !! l_blob l = Some false ∧ spanCaches ex_r2 !! l_spanCache l = Some false.
Proof.
  exact (layers_in_use_stay_open fs_cfg true in_order (mkLRU 1 ∅ []) fs_env ex_r0 (LayerThreads.mkWorld [] [mkRef 5 1; mkRef 2 0] ex_r2) (mkRef 2 0)
    ex_empty ex_NewResolver ex_two_layers (list_elem_of_further _ _ _ (list_elem_of_here _ _))).
Defined.

Lemma resolver_leaks_nothing_witness :
  (∀ p, is_open ex_r2 p → (∃ k, cached k (layerCache ex_r2) = Some p) ∨ ∃ r, r ∈ [mkRef 5 1; mkRef 2 0] ∧ ref_layer r = p) ∧
  (∀ b, LayerResolver.blobs ex_r2 !! b = Some false →
     (∃ k, cached k (blobCache ex_r2) = Some b) ∨ ∃ p l, layers ex_r2 !! p = Some l ∧ l_closed l = false ∧ l_blob l = b) ∧
  (∀ c, spanCaches ex_r2 !! c = Some false → ∃ p l, layers ex_r2 !! p = Some l ∧ l_closed l = false ∧ l_spanCache l = c) ∧
  (∀ c, readers ex_r2 !! c = Some false →
     (∃ p l, layers ex_r2 !! p = Some l ∧ l_closed l = false ∧ l_spanCache l = c) ∨
     ∀ p l, layers ex_r2 !! p = Some l → l_spanCache l ≠ c).
Proof.
  exact (resolver_leaks_nothing fs_cfg true in_order (mkLRU 1 ∅ []) fs_env ex_r0 (LayerThreads.mkWorld [] [mkRef 5 1; mkRef 2 0] ex_r2)
    ex_empty ex_NewResolver ex_two_layers eq_refl).
Defined.

(** ** Prefetching *)
Lemma prefetch_spans_collected_witness : spansToFetch [mkPS 0 2 0; mkPS 5 5 1] = Some [0; 1; 2; 5].
Proof.
  apply (prefetch_spans_collected [mkPS 0 2 0; mkPS 5 5 1]).
  - repeat constructor; unfold in_int32; cbn; lia.
  - by repeat (apply list.Forall_cons; split; [discriminate|]).
Defined.

Definition bad_artifact : PrefetchArtifact := mkPA PrefetchArtifactVersion [mkPS (-1) 0 0].
Definition bad_desc : Descriptor := content_desc "application/json" "sha256:bad" 50.
(** A store with that artifact, and a decoder that knows it. *)
#[local] Instance bad_json : PrefetchJSON := {| prefetch_Marshal _ := Ok [x01]; prefetch_Unmarshal _ := Ok bad_artifact |}.
Lemma prefetch_artifact_kills_witness :
  (prefetch_layer fs_cfg in_order bad_desc (({["sha256:bad" := [x01]]} : SociExamples.blobs), ex_sm)).1 = Panic.
Proof.
  apply (prefetch_artifact_kills fs_cfg in_order bad_desc bad_artifact {["sha256:bad" := [x01]]} {["sha256:bad" := [x01]]} ex_sm [x01] (mkPS (-1) 0 0)).
  - reflexivity.
  - done.
  - vm_compute. discriminate.
  - reflexivity.
  - reflexivity.
  - repeat constructor; unfold in_int32; cbn; lia.
  - left.
  - left. cbn. lia.
Defined.

(** ** Labels *)
#[local] Instance plain_references : References := {|
  reference_Parse _ := Ok (mkSpec "docker.io/library/x" "1" "");
  spec_String s := rs_Locator s +:+ ":" +:+ rs_Object s;
  digest_parse s := Ok s;
  labels_Validate _ v := (String.length v <? 4096)%nat |}.
Definition labelled : Descriptor :=
  mkDesc MediaTypeImageLayer "sha256:small" 3
    {[TargetImageLayersLabel := "sha256:small,sha256:layer"; TargetRefLabel := "docker.io/library/x:1"; TargetLayerDigestLabel := "sha256:small"]} None "".

Lemma labels_roundtrip_witness :
  ∃ c' target, label_child "sha256:index" [ex_layer; labelled; ex_layer] [] 1 labelled = Ok c' ∧
    FromDefaultLabels (Host:=nat) (λ _, Ok [7%nat]) (d_Annotations c') =
      Ok [mkSource [7%nat] (mkSpec "docker.io/library/x" "1" "") target [target; content_desc "" "sha256:layer" 2048]] ∧
    d_Digest target = "sha256:small" ∧ d_Size target = 3 ∧ d_Annotations target !! TargetSociIndexDigestLabel = Some "sha256:index".
Proof.
  apply (labels_roundtrip "sha256:index" [ex_layer; labelled; ex_layer] [] 1 labelled 2 (λ _, Ok [7%nat]) [7%nat] "docker.io/library/x:1"
    (mkSpec "docker.io/library/x" "1" "")); try reflexivity.
  - lia.
  - repeat constructor; unfold in_int64; cbn; lia.
  - intros [|[|k]]; [by vm_compute..|]. by destruct k; vm_compute.
Defined.

(** ** Contexts *)
Definition no_fetch : ST nat Index := λ n, (Err (ErrorString "timeout"), S n).
Definition good_fetch : ST nat Index := λ n, (Ok (NewIndex V1 [] None ∅), S n).
Lemma soci_context_sticks_witness :
  let s1 := foldl run_ctx (getSociContext "sha256:m" no_fetch (mkContexts 0%nat ∅)).2 [OpContext "sha256:n" good_fetch] in
  answer (getSociContext "sha256:m" good_fetch s1).1 = Err (ErrorString "timeout") ∧ (getSociContext "sha256:m" good_fetch s1).2 = s1.
Proof. apply (soci_context_sticks 0%nat [] "sha256:m" no_fetch); [reflexivity|discriminate]. Defined.

(** ** The preresolver *)
Lemma pool_running : rtc pool_step (start 1) (mkPool (mkPR [] ∅ (Some (1, 1))) [act (cache_Store "k")] None [mkJob "k" tt] [] false).
Proof.
  eapply rtc_l; [apply (pool_enqueue _ _ _ _ _ _ (mkJob "k" tt))|]. eapply rtc_l; [by eapply (pool_call _ _ _ _ _ _ 0)|].
  eapply rtc_l; [by eapply (pool_call _ _ _ _ _ _ 0)|]. eapply rtc_l; [by apply (pool_receive _ _ _ _ _ (mkJob "k" tt) [])|].
  eapply rtc_l; [by apply (pool_acquire _ _ [] [] false (mkJob "k" tt) 1 0)|]. constructor.
Qed.
Lemma preresolver_bounded_witness : zlen ([mkJob "k" tt] ++ []) ≤ 1.
Proof. exact (preresolver_bounded 1 _ eq_refl pool_running eq_refl). Defined.

(** ** A mount *)
Definition svc_ztoc : Descriptor :=
  mkDesc SociLayerMediaType "sha256:ztoc" 1 {[IndexAnnotationImageLayerDigest := "sha256:layer"]} None "".
Definition svc_manifest : Manifest :=
  mkManifest 2 MediaTypeImageManifest (content_desc (iv_artifactType V1) "sha256:cfg" 2) [svc_ztoc] None ∅.
#[local] Instance table_documents : DocJSON := {|
  manifest_Marshal _ := Ok [x02];
  manifest_Unmarshal _ := Ok svc_manifest;
  decodes_as_index _ := Ok ();
  ociindex_Marshal _ := Ok [];
  ociindex_Unmarshal _ := Err (ErrorString "not an index") |}.
#[local] Instance plain_refs : References := {|
  reference_Parse s := Ok (mkSpec s "" "host");
  spec_String s := rs_Locator s;
  digest_parse s := Ok s;
  labels_Validate _ _ := true |}.
#[local] Instance no_registry : RegistryEnv SociExamples.blobs := {|
  RoundTrip _ := st_err (ErrorString "no registry");
  Repository_Fetch _ _ := st_err (ErrorString "no registry");
  Referrers _ _ _ := st_ret [];
  NewRepository l := Ok l;
  MatchLocalhost _ := Ok false;
  ParseReference s := Ok ("host", "repo", s);
  ref_Digest d := Ok d;
  DefaultScheme _ := "https";
  header_AcceptRanges _ := "bytes";
  header_MediaType _ := "";
  as_ErrorResponse _ := None;
  as_urlError _ := false |}.
#[local] Instance no_manifests : ManifestEnv SociExamples.blobs := {|
  Repository_Resolve _ _ := st_err (ErrorString "no registry");
  Manifests_FetchReference _ _ := st_err (ErrorString "no registry");
  Decode_manifest _ := Err (ErrorString "no manifest") |}.
#[local] Instance plain_fuse : FuseEnv SociExamples.blobs := {|
  fuse_NewServer _ _ := st_ret tt;
  fuse_WaitMount _ := st_ret tt;
  fuse_Unmount _ := st_ret tt;
  bgFetcher_Pause e := e;
  os_Mkdir _ := st_ret tt;
  idtools_RemapDir _ _ _ := st_ret tt |}.

Definition svc_env : SociExamples.blobs := {["sha256:ztoc" := [x01]; "sha256:index" := [x02]]}.
Definition svc_labels : gmap string string :=
  {[TargetRefLabel := "host/repo"; TargetManifestDigestLabel := "sha256:m"; TargetSociIndexDigestLabel := "sha256:index"]}.
Definition svc_sources (_ : gmap string string) : ST SociExamples.blobs (list (Source nat)) :=
  st_ret [mkSource [0%nat] (mkSpec "host/repo" "" "host") ex_layer []].
Definition svc_cfg : PullModes := mkPullModes false true.
Abbreviation svc_step := (fstep (E:=SociExamples.blobs) (L:=lru_state) (Time:=Z) fs_cfg true in_order ∅ svc_cfg "now" (λ l, l) svc_sources).
Abbreviation svc_prog := (call_prog (E:=SociExamples.blobs) (L:=lru_state) (Time:=Z) fs_cfg true in_order ∅ svc_cfg "now" (λ l, l) svc_sources).

Definition svc_x : resolver SociExamples.blobs lru_state :=
  match NewResolver (mkLRU 1 ∅ []) svc_env with Ok s => s | _ => ex_r0 end.
Definition svc_0 : filesystem SociExamples.blobs lru_state := mkFS svc_x ∅ ∅ (newPreresolver 1).
Lemma svc_NewResolver : NewResolver (mkLRU 1 ∅ []) svc_env = Ok svc_x.
Proof. vm_compute. reflexivity. Qed.

(** A call that runs alone. *)
Lemma call_alone p ms s : clean p s = true → rtc svc_step (mkService [p] ms s) (mkService [Ret (run p s).1] ms (run p s).2).
Proof.
  revert s. induction p as [o|B m k IH]; intros s Hc; [constructor|]. cbn [clean run] in *.
  eapply rtc_l; [by eapply (fstep_call _ _ _ _ _ _ _ _ [Call m k] ms s 0 B m k); [|by destruct (m s).1]|].
  destruct (m s) as [r s1]. cbn [fst snd list_insert] in *. apply IH. by destruct r.
Qed.

Definition svc_mp : string := "/r/snapshots/1/fs".
Definition svc_1 : filesystem SociExamples.blobs lru_state := (run (svc_prog (CMount svc_mp svc_labels true false)) svc_0).2.
Definition svc_ref : layerRef := mkRef 2 0.
Lemma svc_mounts : run (svc_prog (CMount svc_mp svc_labels true false)) svc_0 = (Ok (Some (svc_mp, svc_ref)), svc_1).
Proof. vm_compute. reflexivity. Qed.
Lemma svc_reached : rtc svc_step (mkService [] [] svc_0) (mkService [] [(svc_mp, svc_ref)] svc_1).
Proof.
  eapply rtc_l; [apply (fstep_start _ _ _ _ _ _ _ _ [] [] svc_0 (CMount svc_mp svc_labels true false))|]. cbn [app].
  etrans; [apply call_alone; vm_compute; reflexivity|]. rewrite svc_mounts. cbn [fst snd].
  apply rtc_once. by apply (fstep_return _ _ _ _ _ _ _ _ [Ret (Ok (Some (svc_mp, svc_ref)))] [] svc_1 0 (Ok (Some (svc_mp, svc_ref)))).
Qed.

Lemma mounted_layers_stay_open_witness :
  ∃ l, layers (fs_resolver svc_1) !! 2%nat = Some l ∧ l_closed l = false ∧
    LayerResolver.blobs (fs_resolver svc_1) !! l_blob l = Some false ∧ spanCaches (fs_resolver svc_1) !! l_spanCache l = Some false.
Proof.
  apply (mounted_layers_stay_open fs_cfg true in_order ∅ svc_cfg "now" (λ l, l) svc_sources (mkLRU 1 ∅ []) svc_env svc_x (newPreresolver 1)
    (mkService [] [(svc_mp, svc_ref)] svc_1) svc_mp svc_ref ex_empty svc_NewResolver svc_reached (list_elem_of_here _ _)).
  vm_compute. reflexivity.
Defined.

(** *** The id-mapped mount of it *)
Definition svc_new : string := "/r/snapshots/1_2/fs".
Definition svc_2 : filesystem SociExamples.blobs lru_state := (run (IDMapMount true svc_mp "2") svc_1).2.
Definition svc_3 : filesystem SociExamples.blobs lru_state := (run (Unmount (Time:=Z) svc_new) svc_2).2.
Lemma idmapped_unmount_releases_witness :
  (fs_layer svc_3 !! svc_mp = Some svc_ref ∧ spent (fcache svc_3) 0 ∧ fs_layer svc_3 !! svc_new = None) ∧
  l_closed <$> layers (fs_resolver svc_3) !! ref_layer svc_ref = Some true.
Proof.
  split; [|vm_compute; reflexivity].
  apply (idmapped_unmount_releases true svc_mp "2" svc_new svc_ref svc_1 svc_2 (Ok tt) svc_3); [vm_compute; reflexivity| |discriminate|vm_compute; reflexivity..|discriminate].
  eexists 0%nat, _. split_and!; [vm_compute; reflexivity..].
Defined.

(** ** Unpacking ahead of time *)
#[local] Instance world_image : ImageEnv UnpackExamples.world := {|
  containerd_Client := st_ret tt;
  content_ReadBlob _ := st_ret [];
  image_DiffIDs _ := Ok ["sha256:5"];
  GetDecompressStream _ := None;
  os_StatUnpack _ := st_ret tt;
  os_StatIsDir _ := st_err os_ErrNotExist;
  os_OpenDir _ := st_ret tt;
  dir_Readdirnames1 _ := st_err io_EOF;
  os_RemoveTree _ := st_ret tt;
  os_MkdirAllTo _ := st_ret tt;
  os_RenameTo _ _ := st_ret tt |}.
Definition pm_args : premount_args := mkPremount w_layer_desc w_spec w_repo (diff_id_map [w_layer_desc] ["sha256:5"]) 1.
Definition pm_0 : pfs UnpackExamples.world := mkPFS (UnpackExamples.mkWorld ∅ []) jobs2 [].
Definition pm_1 : pfs UnpackExamples.world := (premount (λ l, l) false pm_args pm_0).2.
Definition pm_job_1 : layerUnpackJob := default (mkLayerJob "" 0 0 "" "" None LayerUnpackJobDone) (layer_jobs (pf_jobs pm_1) !! 1%nat).

Lemma premounted_layers_verified_witness :
  ∃ i l u job b, [w_layer_desc] !! i = Some l ∧ d_Digest l = "sha256:5" ∧ ["sha256:5"] !! i = Some u ∧
    layer_jobs jobs2 !! 1%nat = Some job ∧
    applied (pf_env pm_1) = (JobDir (GetUnpackUpperPath job), b) :: applied (pf_env pm_0) ∧ Verifier_Verified u b = true.
Proof.
  apply (premounted_layers_verified (λ l, l) false pm_args [w_layer_desc] ["sha256:5"] pm_0 pm_1 pm_job_1); [reflexivity|reflexivity|left|vm_compute; reflexivity..].
Defined.

Definition pm_recv (l : nat) : ST (pfs UnpackExamples.world) (option error) := λ s,
  (Ok (match layer_jobs (pf_jobs s) !! l with Some j => default (Some (ErrorString "nothing sent")) (lj_errCh j) | None => None end), s).
Definition pm_2 : pfs UnpackExamples.world := (rebase pm_recv "lay" "img" svc_mp pm_1).2.
Lemma rebase_moves_claimed_witness :
  rebase pm_recv "lay" "img" svc_mp pm_1 = (Ok tt, pm_2) ∧
  ∃ p js l j jobs s1 j1 e1, checkLayerExists "img" "lay" (pf_jobs pm_1) = Ok (p, js) ∧ l ∈ js ∧
    layer_jobs (pf_jobs pm_1) !! l = Some j ∧ lj_status j = LayerUnpackJobInProgress ∧
    layer_jobs jobs !! l = Some (set_status LayerUnpackJobClaimed j) ∧
    pm_recv l (mkPFS (pf_env pm_1) jobs (pf_started pm_1)) = (Ok None, s1) ∧
    layer_jobs (pf_jobs s1) !! l = Some j1 ∧ lj_status j1 ≠ LayerUnpackJobCancelled ∧
    os_RenameTo (GetUnpackUpperPath j1) svc_mp e1 = (Ok tt, pf_env pm_2).
Proof.
  assert (rebase pm_recv "lay" "img" svc_mp pm_1 = (Ok tt, pm_2)) as Hr by (vm_compute; reflexivity).
  split; [exact Hr|]. exact (rebase_moves_claimed pm_recv "lay" "img" svc_mp pm_1 pm_2 Hr).
Defined.

(** The image is cleaned up while [rebase] waits, and nil was sent: nothing is moved. *)
Definition pm_recv_cancelled (l : nat) : ST (pfs UnpackExamples.world) (option error) := λ s,
  let '(r, s1) := pm_recv l s in (r, (on_jobs (cancel_job l context_Canceled) s1).2).
Example cancelled_while_waiting : (rebase pm_recv_cancelled "lay" "img" svc_mp pm_1).1 = Err ErrJobCancelled.
Proof. vm_compute. reflexivity. Qed.
