(* ===== verification/RegistryExamples.v ===== *)
(** * Examples and witnesses for the clients of registries and the commands

    A server that challenges once, a cache of redirects, two images that race for one client, a
    client that outlives its time, credentials in base64 and a pull overheard; a registry with
    a malformed mirror, a mirror that is down and an upstream that redirects; a database with
    two indexes of an image. *)
From Stdlib Require Import ZArith Lia Strings.Byte Ascii.
From stdpp Require Import base list gmap strings numbers.
From S2P Require Import Compression GzipZinfo Ztoc ZtocBuilder Regions Remote MetadataTree RemoteResolver Oci ArtifactsDb SociIndex SociConvert Fetch Cli CliFacts Examples SociExamples.
From S2P Require Import Prelude GoLib Prog HttpUtil HttpAuth Config ResolverClient Registry RegistryFacts RegistryAge Keychain CriRegistry Snapshot Service.
#[local] Open Scope Z_scope.

(** URLs that are a host and a query. *)
#[local] Instance plain_urls : NetURL := {|
  url_Parse s := let '(h, q) := cut "?" s in Some (mkURL "https" None h "" q);
  url_String u := (Host u +:+ (if (RawQuery u =? "")%string then "" else "?" +:+ RawQuery u))%string |}.

(** ** Redaction *)
Definition ex_url (q : string) : URL := mkURL "https" None "s3.example" "/blob" q.
Lemma redaction_hides_values_witness :
  let u := ex_url "X-Token=s3cr3t&part=1" in
  Query (redact_URL u) = {["X-Token" := ["redacted"]; "part" := ["redacted"]]} ∧
  RawQuery (redact_URL (ex_url "part=2&X-Token=other")) = RawQuery (redact_URL u).
Proof.
  destruct (redaction_hides_values (ex_url "X-Token=s3cr3t&part=1") (ex_url "part=2&X-Token=other")) as (H1 & H2 & _).
  - intros E. apply (f_equal (λ m, m !! "part"%string)) in E. vm_compute in E. discriminate E.
  - vm_compute. reflexivity.
  - split; [rewrite H1; vm_compute; reflexivity|exact H2].
Defined.
Example redacted_url : RawQuery (redact_URL (ex_url "X-Token=s3cr3t&part=1")) = "X-Token=redacted&part=redacted"%string.
Proof. vm_compute. reflexivity. Qed.
Example semicolons_leak : redact_URL (ex_url "token=s3cr3t;part=1") = ex_url "token=s3cr3t;part=1".
Proof. vm_compute. reflexivity. Qed.

(** ** The authenticating client: contexts are numbers, the world counts requests *)
Definition ex_server (n_ok : nat) : () → Request nat → ST nat Response := λ _ r n,
  (Ok (mkResp (if (n <? n_ok)%nat then 401 else 200) "" None (mkBody [] None) (Some (reqURL r))), S n).
Definition ex_handler : AuthHandler nat nat := mkHandler
  (λ _ _ n, (Ok (), n))
  (λ _ '(r, n), let r' := mkReq (Method r) (reqURL r) (reqHost r) (Header_Set "Authorization" "token" (reqHeader r)) (reqCtx r) in
                (Ok r', (r', n))).
Definition ex_ac (m : gmap string string) : AuthClient nat () (nat * list (event nat)) :=
  mkAC (Some ()) (Some (logged_handler ex_handler)) (Some DefaultAuthPolicy) (Some (λ _, 0%nat)) {["User-Agent" := ["soci"]]} true m true.
Definition ex_get : Request nat := mkReq "GET" (mkURL "https" None "registry" "" "") "registry" ∅ 7%nat.
Lemma ex_ready m : ready (ex_ac m) DefaultAuthPolicy.
Proof. split; [reflexivity..|by eexists]. Qed.

Definition ex_do (n_ok : nat) (m : gmap string string) :=
  Do 0%nat () (λ r, Ok r) (logged_Do (ex_server n_ok)) ex_get (ex_ac m, (0%nat, [])).
Lemma Do_answers_one_challenge_witness :
  is_ok (ex_do 1 ∅).1 = true ∧ length (ex_do 1 ∅).2.2.2 = 5%nat ∧
  ∃ l, do_trace (λ r, Ok r) DefaultAuthPolicy (ex_do 1 ∅).1 l ∧ (ex_do 1 ∅).2.2.2 = l.
Proof.
  split; [vm_compute; reflexivity|]. split; [vm_compute; reflexivity|].
  exact (Do_answers_one_challenge 0%nat () (λ r, Ok r) (ex_server 1) ex_handler ex_get (ex_ac ∅) 0%nat DefaultAuthPolicy (ex_ready ∅) eq_refl).
Defined.

(** The redirect of an expired URL: both requests go there, and so would the next. *)
Definition ex_redirects : gmap string string := {["registry" := "s3"]}.
Lemma remembered_redirect_is_final_witness :
  length (ex_do 9 ex_redirects).2.2.2 = 5%nat ∧
  Forall (sent_to (mkURL "https" None "s3" "" "")) (ex_do 9 ex_redirects).2.2.2 ∧
  redirMap (ex_do 9 ex_redirects).2.1 !! url_String (reqURL ex_get) = Some "s3"%string.
Proof.
  split; [vm_compute; reflexivity|].
  unshelve eapply (remembered_redirect_is_final 0%nat () (λ r, Ok r) (ex_server 9) ex_handler _ _ ex_get (ex_ac ex_redirects) 0%nat
    DefaultAuthPolicy "s3" (mkURL "https" None "s3" "" "") (ex_ready _)); [|..|reflexivity|reflexivity|reflexivity|reflexivity|discriminate].
  - intros ctx r w o r' w' [= <- <- <-]. split; [done|]. split; [done|]. by intros a [= <-].
  - by intros a a' [= <-].
Defined.

(** ** Configuration *)
Definition ex_toml : string → Config → outcome Config := λ _ c,
  Ok (upd_http (λ h, mkHttp (http_Timeout h) (mkRetry 2 0 0))
       (upd_fs (λ f, mkFS (HTTPCacheType f) (FSCacheType f) (ResolveResultEntry f) (Debug f) (DisableVerification f) (-1)
          (fs_NoPrometheus f) (MountTimeoutSec f) (FuseMetricsEmitWaitDurationSec f) (fs_http f) (fs_blob f) (fs_dircache f)
          (fs_fuse f) (fs_bg f) (fs_store f) (fs_prefetch f)) c)).
Definition ex_load := NewConfigFromToml (-2 ^ 63) "sock" (λ p, Ok p) (λ _, false) ex_toml "config.toml".
Definition ex_cfg : Config := match ex_load with Ok (Some c) => c | _ => zero_Config end.
Lemma loaded_config_valid_witness : ∃ cfg, Some ex_cfg = Some cfg ∧ valid_Config cfg.
Proof.
  apply (loaded_config_valid (-2 ^ 63) "sock" (λ p, Ok p) (λ _, false) ex_toml "config.toml" (Some ex_cfg)); [lia|].
  vm_compute. reflexivity.
Defined.
(** The limit is off, and the two retries of the file are not those of blobs. *)
Example ex_cfg_settings :
  MaxConcurrency (svc_fs (cfg_service ex_cfg)) = 0 ∧ MaxRetries (http_Retry (fs_http (svc_fs (cfg_service ex_cfg)))) = 2 ∧
  blob_MaxRetries (fs_blob (svc_fs (cfg_service ex_cfg))) = 8.
Proof. vm_compute. done. Qed.
Example ex_sizes : parseSize (-2 ^ 63) " 1.5 Kb " = Ok 1536 ∧ parseSize (-2 ^ 63) "10mb" = Ok 10485760 ∧
  parseSize (-2 ^ 63) "0.3" = Ok Unbounded ∧ parseSize (-2 ^ 63) "5." = Err (ErrorString "invalid size format") ∧
  parseSize (-2 ^ 63) "9999999999gb" = Err (ErrorString "size cannot be negative").
Proof. vm_compute. done. Qed.

(** ** Challenges *)
Definition ex_challenges : list Challenge.ev :=
  [Challenge.Call; Challenge.Call; Challenge.Enter 0; Challenge.Enter 1].
Definition ex_waiting : Challenge.state := default Challenge.start (Challenge.run ex_challenges Challenge.start).
Lemma challenge_single_flight_witness :
  Challenge.crashed ex_waiting = false ∧
  (is_Some (Challenge.step (Challenge.Wake 1) ex_waiting) ∨
   ∃ j p, Challenge.goroutines ex_waiting !! j = Some p ∧ Challenge.busy p ∧
     ∀ r, is_Some (Challenge.run (Challenge.finishing j r p ++ [Challenge.Wake 1]) ex_waiting)).
Proof.
  destruct (Challenge.challenge_single_flight ex_waiting) as (H1 & _ & H3 & _).
  - apply (Challenge.run_reachable ex_challenges Challenge.start); [constructor|vm_compute; reflexivity].
  - split; [exact H1|]. apply (H3 1%nat 0%nat). vm_compute. reflexivity.
Defined.

(** A server that says to come back at once crashes the client. *)
Example retry_after_zero_panics random mn mx n resp : backoffStrategy random (λ _ _ _ _, 0) mn mx n resp = Panic.
Proof. reflexivity. Qed.

(** ** Registry hosts: images of one registry, with a mirror that knows them by other names *)
#[local] Instance pair_refs : Reference (string * string) := {|
  Hostname r := r.1;
  spec_String r := (r.1 +:+ "/" +:+ r.2)%string |}.
Definition ex_creds : list (() → string * string → string → outcome (string * string)) :=
  [λ _ r host, Ok ((if (host =? "mirror")%string then r.2 else "user"), "pw")%string].
Definition ex_hash : string → string := λ s, String (ascii_of_nat (String.length s)) "".
Definition ex_resolver : ResolverConfig := mkResolver {["r" := [mkMirror "mirror" false 0]]} 10 true.
Definition ex_retry : RetryClient := newRetryableClientFromConfig (mkRetryClient false 0 0 0 Stock Stock Stock 0 (Some (mkTransport 0 0)))
  (fs_http (svc_fs (cfg_service (default_Config "sock")))).
Definition ex_NewClient : RetryClient := mkRetryClient true 4 0 0 Stock Stock Stock 0 (Some (mkTransport 0 0)).
Definition ex_lookup (r : string * string) : prog (Registry.registry (string * string) ()) (list RegistryHost) :=
  AsRegistryHosts ex_retry ex_resolver ex_creds ex_hash (λ h, Ok h) (λ _, false) ex_NewClient r.
Definition ex_lookup_of (r : string * string) : goroutine (Spec:=string * string) (Env:=()) :=
  lookup_of ex_retry ex_resolver ex_creds ex_hash (λ h, Ok h) (λ _, false) ex_NewClient r.
Lemma ex_hash_length x y : String.length (ex_hash x) = String.length (ex_hash y).
Proof. reflexivity. Qed.

Definition ex_a : string * string := ("r", "a")%string.
Definition ex_b : string * string := ("r", "b")%string.
Definition reg_0 : Registry.registry (string * string) () := NewRegistryManager 0 ().
Definition reg_1 := (run (ex_lookup_of ex_a) reg_0).2.
Definition reg_2 := (run (ex_lookup_of ex_b) reg_1).2.
Definition hosts_a : list RegistryHost := match run (ex_lookup ex_a) reg_0 with (Ok hs, _) => hs | _ => [] end.
Definition hosts_b : list RegistryHost := match run (ex_lookup ex_b) reg_1 with (Ok hs, _) => hs | _ => [] end.
Definition ex_host : RegistryHost := mkHost 0 ex_retry false "mirror" "https" "/v2".
Lemma ex_hosts : hosts_a = [ex_host; mkHost 0 ex_retry false "r" "https" "/v2"] ∧ hosts_b = hosts_a.
Proof. split; vm_compute; reflexivity. Qed.

Lemma ex_together : together (rinv ex_hash) evolves (starts ex_retry ex_resolver ex_creds ex_hash (λ h, Ok h) (λ _, false) ex_NewClient)
  reg_2 [Ret (Ok (Some ("r/b"%string, hosts_b))); Ret (Ok (Some ("r/a"%string, hosts_a)))].
Proof.
  assert (Ret (run (ex_lookup_of ex_b) reg_1).1 = Ret (Ok (Some ("r/b"%string, hosts_b)))) as <- by (vm_compute; reflexivity).
  apply together_run, together_start; [|constructor].
  assert (Ret (run (ex_lookup_of ex_a) reg_0).1 = Ret (Ok (Some ("r/a"%string, hosts_a)))) as <- by (vm_compute; reflexivity).
  apply together_run, together_start; [|constructor]. constructor. apply NewRegistryManager_inv.
Qed.

Lemma clients_shared_within_credentials_witness :
  rh_client ex_host = 0%nat ∧
  ("r/b"%string = "r/a"%string ∨
   ∃ sid sh r1 c1 r2 c2, shareds reg_2 !! sid = Some sh ∧ (r1, Ok c1) ∈ sh_joined sh ∧ spec_String r1 = "r/b"%string ∧
     (r2, Ok c2) ∈ sh_joined sh ∧ spec_String r2 = "r/a"%string ∧ Hostname r1 = Hostname r2 ∧ fingerprint ex_hash c1 = fingerprint ex_hash c2).
Proof.
  split; [reflexivity|]. destruct ex_hosts as [Ea Eb].
  apply (clients_shared_within_credentials ex_retry ex_resolver ex_creds ex_hash (λ h, Ok h) (λ _, false) ex_NewClient ex_hash_length
    reg_2 _ 0%nat 1%nat "r/b" hosts_b "r/a" hosts_a ex_host ex_host ex_together eq_refl eq_refl); [|..|reflexivity].
  - rewrite Eb, Ea. left.
  - rewrite Ea. left.
Defined.

(** Challenged by the mirror, the client that pulls image [a] answers with the credentials of [b]. *)
Lemma mirror_credentials_cross :
  (run (client_creds ex_creds 0 "mirror") reg_1).1 = Ok ("a", "pw")%string ∧
  (run (client_creds ex_creds 0 "mirror") reg_2).1 = Ok ("b", "pw")%string.
Proof. vm_compute. done. Qed.

(** ** The age of a client: image [b] joins at the last moment, and is looked up at the last moment *)
Definition wait (d : Z) (s : Registry.registry (string * string) ()) : Registry.registry (string * string) () :=
  mkRegistry (registryHostMap s) (authClientMap s) (shareds s) (clients s) (now s + d) ().
Definition old_1 := wait (authClientTTL ex_resolver) (run (ex_lookup ex_a) reg_0).2.
Definition old_2 := wait (authClientTTL ex_resolver) (run (ex_lookup ex_b) old_1).2.
Definition old_3 := (run (ex_lookup ex_b) old_2).2.
Lemma ex_history : history ex_retry ex_resolver ex_creds ex_hash (λ h, Ok h) (λ _, false) ex_NewClient old_2.
Proof.
  apply history_wait; [|vm_compute; discriminate]. apply history_lookup. apply history_wait; [|vm_compute; discriminate].
  apply history_lookup. apply history_new.
Qed.
Lemma client_age_bounded_witness :
  ∃ c, clients old_3 !! rh_client ex_host = Some c ∧ now old_2 - ac_created c ≤ 2 * authClientTTL ex_resolver.
Proof.
  apply (client_age_bounded ex_retry ex_resolver ex_creds ex_hash (λ h, Ok h) (λ _, false) ex_NewClient eq_refl old_2 ex_b
    [ex_host; mkHost 0 ex_retry false "r" "https" "/v2"] old_3 ex_host ex_history); [vm_compute; reflexivity|left].
Defined.
Lemma client_twice_as_old :
  (λ c, now old_2 - ac_created c) <$> clients old_3 !! rh_client ex_host = Some (2 * authClientTTL ex_resolver).
Proof. vm_compute. reflexivity. Qed.

(** ** Credentials *)
Definition ex_auth : AuthConfig := mkAuth "" "" (base64_Encode "me:secret") "https://host" "".
#[local] Instance scheme_urls : NetURL := {| url_Parse s := Some (mkURL "https" None (str_drop 8 s) "" ""); url_String u := Host u |}.
Lemma ParseAuth_decodes_witness : Auth ex_auth = "bWU6c2VjcmV0"%string ∧ ParseAuth (Some ex_auth) "host" = Ok ("me", Trim_nul "secret")%string.
Proof.
  split; [vm_compute; reflexivity|]. apply (ParseAuth_decodes "me" "secret" ex_auth "host"); try reflexivity.
  right. eexists. split; [reflexivity|vm_compute; reflexivity].
Defined.

Definition ex_serve := CRI.serve_all (C:=()) (λ r : string * option AuthConfig, r.1) (λ r, r.2) (λ _ _ _ (w : nat), (Ok (), S w)) (λ s, Ok s).
Lemma cri_credentials_witness :
  CRI.credentials (ex_serve [CRI.CPull ("r/a"%string, Some ex_auth); CRI.CPull ("r/b"%string, None)] (CRI.mkService (Some ()) ∅, 0%nat)).1 "r/a" "host" =
  Ok ("me", "secret")%string.
Proof.
  unfold ex_serve. rewrite (CRI.cri_credentials (C:=()) (λ r : string * option AuthConfig, r.1) (λ r, r.2) (λ _ _ _ (w : nat), (Ok (), S w)) (λ s, Ok s)
    [CRI.CPull ("r/a"%string, Some ex_auth); CRI.CPull ("r/b"%string, None)] "r/a" "host" (CRI.mkService (Some ()) ∅) 0%nat () eq_refl eq_refl).
  vm_compute. reflexivity.
Defined.

(** ** The service *)
Lemma service_set_up_witness :
  match NewSociSnapshotterService false (cfg_service (default_Config "sock")) with
  | Ok (fo, sc) => asyncRemove sc = true ∧ parallelPullUnpack sc = false
  | _ => False
  end.
Proof.
  pose proof (service_set_up false (cfg_service (default_Config "sock")) ltac:(split; reflexivity)) as H.
  destruct (NewSociSnapshotterService false _) as [[fo sc]|e|]; [|destruct H as [H _]; discriminate H|destruct H].
  destruct H as (H1 & _ & _ & H4 & _). split; [exact H1|exact H4].
Defined.

(** ** Hosts *)
Definition stock_client : RetryClient := mkRetryClient false 4 1 30 Stock Stock Stock 0 None.
Definition host_client : RetryClient := mkRetryClient false 5 10 100 Soci Soci Soci 7 (Some (mkTransport 3 3)).
Definition host_auth : AuthClient () RetryClient () := mkAC (Some host_client) None None None ∅ false ∅ true.
Definition host_at (name : string) : RemoteResolver.Host (Ctx := ()) (W := ()) (T := ()) :=
  mkHostT "https" name "/v2" (RTAuth host_auth).
Definition three_hosts : RemoteResolver.fetcherConfig (Ctx := ()) (W := ()) (T := ()) :=
  mkFC [host_at "a/b"; host_at "down.io"; host_at "docker.io"] (RemoteResolver.mkSpec "docker.io/library/busybox" "docker.io")
    "sha256:1" 0 30 2 20 200.

(** Only the upstream answers; it redirects to its storage. *)
Definition upstream (_ : RoundTripper (Ctx := ()) (W := ()) (T := ())) (r : request) : ST nat response := λ n,
  (if String.prefix "https://docker.io/v2/" (req_url r)
   then Ok (mkResponse 307 None ct_other None [] [] "https://storage/1" (req_url r))
   else Err (ErrorString "connection refused"), S n).

Lemma three_hosts_fetcher :
  ∃ rt hf, newHTTPFetcher () stock_client (λ _, Ok "scope"%string) upstream three_hosts 0%nat = (Ok (rt, hf), 2%nat) ∧
    registryURL hf = "https://docker.io/v2/library/busybox/blobs/sha256:1"%string ∧ realURL hf = "https://storage/1"%string.
Proof. eexists _, _. split; [vm_compute; reflexivity|done]. Qed.

Lemma newHTTPFetcher_chooses_witness :
  ∃ rt hf, newHTTPFetcher () stock_client (λ _, Ok "scope"%string) upstream three_hosts 0%nat = (Ok (rt, hf), 2%nat) ∧
    ∃ ac c, rt = RTAuth ac ∧ client ac = Some c ∧ RetryMax c = 2 ∧ http_ClientTimeout c = 30.
Proof.
  destruct three_hosts_fetcher as (rt & hf & He & _). exists rt, hf. split; [exact He|].
  destruct (newHTTPFetcher_chooses () stock_client (λ _, Ok "scope"%string) upstream three_hosts 0%nat rt hf 2%nat)
    as (_ & _ & _ & _ & _ & _ & ac & c & _ & _ & _ & _ & _ & _ & _ & Hrt & Hc & (Hm & _ & _ & Ht) & _).
  - intros h Hh. exists (mkTransport 3 3), host_auth, host_client.
    unfold three_hosts in Hh. cbn [fc_hosts] in Hh. rewrite !elem_of_cons in Hh. destruct Hh as [->|[->|[->|Hh] ] ]; [done..|by apply elem_of_nil in Hh].
  - exact He.
  - exists ac, c. split; [exact Hrt|]. done.
Defined.

(** ** Indexes *)
Definition index_at (digest : string) (t : Z) : ArtifactEntry Z :=
  mkAE 10 digest "sha256:manifest" "sha256:manifest" "linux/amd64" "/blobs" ArtifactEntryTypeIndex
    "application/vnd.oci.image.manifest.v1+json" SociIndexArtifactType t 0.
Definition two_indexes : adb :=
  (WriteArtifactEntry (Some (index_at "sha256:old" 5)) (WriteArtifactEntry (Some (index_at "sha256:new" 9)) None).2).2.
Definition no_flags : flags := mkFlags [] 0 0 false (Ok []) false [].
Definition ex_image : Image := mkImage "docker.io/library/busybox:1" ex_target None.

(** A repository without referrers that counts uploads. *)
Definition count_upload (_ : Descriptor) : ST nat () := λ n, (Ok tt, S n).
Definition no_referrers (_ : string) : ST nat (list Descriptor) := λ n, (Err ErrNoReferrers, n).
Definition ex_push : outcome () * (nat * list Descriptor) :=
  push (Time := Z) () (λ _, Err (ErrorString "unused")) Z.ltb Ok
    (logged_referrers no_referrers) (logged_copy count_upload) no_flags Warn ex_image two_indexes (0%nat, []).

Lemma before_strict : StrictWeak (λ a b : IndexDescriptorInfo (Time := Z), idi_CreatedAt a <? idi_CreatedAt b).
Proof. split; intros *; rewrite ?Z.ltb_lt, ?Z.ltb_ge; lia. Qed.

Lemma ex_push_new : ex_push.1 = Ok tt ∧ d_Digest <$> ex_push.2.2 = ["sha256:new"%string].
Proof. vm_compute. split; reflexivity. Qed.

Lemma push_uploads_newest_witness :
  ∃ xs, Forall2 (newest_index () Z.ltb Ok two_indexes ex_target) [platforms_DefaultSpec] xs ∧ ex_push.2.2 = descriptors xs.
Proof.
  pose proof (push_uploads_newest () (λ _, Err (ErrorString "unused")) Z.ltb Ok before_strict no_referrers count_upload
    no_flags Warn ex_image two_indexes 0%nat ex_push.1 ex_push.2.1 ex_push.2.2) as H.
  destruct H as [ [_ Hno]|(ps & xs & Hps & Hall & _ & Hok)].
  - change (ex_push = (ex_push.1, (ex_push.2.1, ex_push.2.2))). by destruct ex_push as [? [? ?] ].
  - exfalso. exact (Hno tt (proj1 ex_push_new)).
  - exists xs. injection Hps as <-. split; [exact Hall|]. by apply Hok; [apply ex_push_new|].
Defined.
